(* ===== verification/_CoqProject ===== *)
-Q . S2P
Prelude.v
RustStr.v
Errors.v
Floats.v
JsonValue.v
SettingDefs.v
Config.v
IpAddr.v
NetGuard.v
RateLimit.v
Cidr.v
Lockout.v
Auth.v
Settings.v
SettingsRun.v
Middleware.v
SettingsApi.v
Startup.v
Snapshots.v
Lifecycle.v
Torrent.v
Requeue.v
Files.v
DownloadApi.v
World.v
Direct.v
Inflight.v
Discovery.v
Opds.v
Poller.v
Content.v
RawContent.v
StableSort.v
Health.v
SearchSql.v
Embed.v
Search.v
SearchRun.v
VectorIndex.v
EmbedPipeline.v
ZimManager.v
IndexText.v
ZimIndex.v
Guards.v
Collections.v
Mcp.v
Notify.v
Migrate.v
Pool.v
AutoEmbed.v
Diagnostics.v
Router.v
Boot.v
Web.v
Outbound.v
NotifyHandle.v
