(* ===== verification/Prelude.v ===== *)
(** * zimservice: a verification library

    The program is a server for ZIM archives: it serves and searches a
    directory of archives over HTTP, embeds their articles for vector search,
    and acquires archives, by direct HTTP download or through qBittorrent, on
    request and from an OPDS catalog.  This library models its access control,
    its settings, the archive catalog, search and embedding, content serving,
    the acquisition side, the stdio server for models, and what processes that
    share a database do to each other.  Paths below are under [src/src/].

    ** How the parts interact

    At start-up the environment becomes locks and overrides on the settings
    table, the settings are loaded and the network policy is checked.  A
    request passes the rate limiter and the access gate, both driven by the
    settings, before a handler runs: the settings handlers update the table
    and the memory copy, the search handler runs its concurrent arms against
    the article table, the content handlers read archives through the manager,
    which keeps the catalog in step with the directory.  The embedding task
    claims articles and stores their vectors.  The downloads handlers insert
    and cancel rows of the [downloads] table.  The poller task reads that table
    on every tick: it re-queues failed rows, drops cancelled torrents, starts
    queued rows (a direct transfer as a task of its own, or a torrent handed to
    qBittorrent), follows the torrents in flight, installs finished archives
    and updates the rows; at start-up it reconciles the table with qBittorrent
    and the directory, and at intervals it asks the catalog for newer archives.
    Sessions meet only in the tables and in the directory.  Several processes
    may share a database: guards admit one server to it and to a directory,
    migrations are serialised by a lock, and a listener passes on what other
    processes changed.

    ** Files

    - [Prelude]: Rust's [Result], machine integers at their width, hash maps
      with an arbitrary iteration order (the class [HashIter]), shared lemmas.
    - [RustStr], [Floats], [StableSort], [JsonValue]: strings as UTF-8 byte
      strings, binary32 and binary64, the stable sort, JSON values.
    - [Errors] ([error.rs]): the error type, its texts, what a client sees.
    - [SettingDefs] ([settings/defs.rs]), [Config] ([config.rs]): the settings
      with their types, ranges and policies; the environment.
    - [IpAddr]: the standard library's addresses, parsing and printing.
    - [NetGuard] ([netguard.rs]): address policy, URL checks, DNS pinning, the
      redirect chain.  The [url] crate is the class [UrlApi]; the resolver and
      the servers are arbitrary functions of the hop.
    - [RateLimit] ([access/ratelimit.rs]): the token bucket and the handle
      that rebuilds it when the settings generation changes.  The shared
      [Arc<RateLimiter>]s are a heap with pointers.
    - [Cidr] ([access/cidr.rs]): trusted proxies and the client address.
    - [Lockout] ([access/lockout.rs]): failed attempts per address.
    - [Auth] ([settings/auth.rs], [settings/auth_service.rs],
      [settings/encrypt.rs], parts of [settings/tokens.rs]): stored
      credentials, token caches, secret rows.  The cryptographic crates are the
      class [Crypto], with the laws their documentation gives.
    - [Settings], [SettingsRun] ([settings/cache.rs]), [Snapshots]
      ([settings/snapshots.rs]), [SettingsApi] ([serve/handlers/settings.rs]),
      [Startup] ([startup/mod.rs]): the memory copy and the table, reloads and
      updates as transactions with a [Fault], sequences of them, the typed
      reads, the handlers, the way from the environment to a serving state.
    - [Middleware] ([serve/middleware.rs]): the gate, the rate-limit layer and
      the log sanitiser.
    - [Lifecycle] ([db/downloads.rs], [db/downloads_lifecycle.rs],
      [torrent/poller/stats.rs]): the table as a map of rows, one function per
      SQL statement, the two partial unique indexes; [Fault] lets a statement
      fail before the write or lose its reply after it.  [DbOp], [db_step] and
      [db_run] are the statements any session can run: the abstract state
      machine the rest is measured against.
    - [Torrent] ([torrent/mod.rs], [util.rs]): torrent records and the
      qBittorrent client as functions of the HTTP reply, the client cache.
    - [Requeue] ([torrent/poller/requeue.rs]): the retry guard and its pass.
    - [Files] ([torrent/files.rs]): paths, archive lookup, installation and
      download names over a map from paths to files.
    - [DownloadApi] ([serve/handlers/downloads.rs]): the three handlers.
    - [World]: the effects of the poller.  A computation of type [M A] reads
      an environment and changes a world (table, files, event log); every
      external call takes the next step number, and the environment answers
      by step: clocks, faults, replies, I/O errors and the statements other
      sessions ran in between.  A theorem over all environments is a theorem
      over all interleavings of statements and all failures.  The classes
      [DbSafe], [DbFree] and [FsFree] are the interface between the poller's
      components: what a computation may do to the table and to the files.
    - [Direct] ([torrent/poller/direct.rs]): resuming, streaming, checking and
      publishing a direct download.
    - [Inflight] ([torrent/poller/inflight.rs], [torrent/poller/complete.rs]):
      matching rows with torrents, completion and installation.
    - [Discovery] ([zim/discovery.rs]): the directory scan.
    - [Opds] ([torrent/opds.rs], [torrent/poller/opds.rs]): the catalog feed,
      the choice of updates, queueing them.
    - [Poller] ([torrent/poller/mod.rs], [torrent/poller/reconcile.rs]):
      reconciliation, the tick, the run loop.
    - [Content] ([content.rs]), [RawContent] ([serve/handlers/content.rs],
      [serve/handlers/web.rs]): article text and chunks; raw entries with byte
      ranges and validators.  The [zim] crate is the class [ZimApi], the text
      extractor the class [Deformat], the HTTP library the class [HttpLib].
    - [Health] ([health.rs]): memoised probes, consecutive failures.
    - [SearchSql] ([search/sql.rs]), [Search] and [SearchRun]
      ([search/mod.rs], [search/query_cache.rs], [serve/handlers/search.rs]):
      statement texts and parameters, the query cache, the arms and their
      merge; rows and embeddings come from the request's surroundings.
    - [Embed] ([embed/client.rs], [embed/column.rs]), [VectorIndex]
      ([embed/vector_index.rs]), [EmbedPipeline] ([embed/pipeline.rs]): the
      client's fan-out, the index and its build gate (a step relation over
      concurrent callers), the embedding run (a step relation over the claim
      loop and the batch tasks).
    - [ZimManager] ([zim/mod.rs]): the metadata cache, reconciliation with the
      directory and the [zims] table, open archives.
    - [IndexText] ([zim/index.rs]): which entries are indexed, the texts taken
      from them, the COPY encoding.
    - [ZimIndex] ([zim/index.rs]): an index run with its chunks, checkpoint,
      upsert and final prune over the [articles], [qid_index] and [zims] rows.
    - [Guards] ([startup/guards.rs], [process.rs], [main.rs]): the instance
      guards as programs over a host and a database.
    - [Notify], [NotifyHandle] ([db/notify.rs], [startup/mod.rs]): cache
      invalidation between processes, supervision of tasks; the life of the
      listener.
    - [Migrate] ([db/migrate.rs]): the migrations of any number of processes
      at once, removal of invalid indexes.
    - [Pool] ([db/pool.rs]): TLS modes, pools, checkout statistics.
    - [AutoEmbed] ([embed/auto_loop.rs]): the background embedding loop.
    - [Collections] ([db/collections.rs], [db/random_article.rs], [db/qid.rs]
      and their handlers): collections, random articles, Q-IDs.
    - [Mcp] ([mcp/mod.rs]): the stdio server for models.
    - [Diagnostics] ([serve/diagnostics.rs], [serve/handlers/zims.rs]): health
      and diagnostics.
    - [Router] ([serve/mod.rs], [serve/openapi.rs]): the routes, their layers,
      the documented operations.
    - [Boot] ([main.rs], [startup/mod.rs]): the commands as programs of the
      calls they make to all the others, and the protocol of a start.
    - [Web] ([serve/handlers/web.rs], [error.rs]): the pages and their version
      stamps, error responses.
    - [Outbound] ([torrent/client.rs], [torrent/opds.rs], [torrent/mod.rs]):
      HTTP clients, the catalog fetch, the qBittorrent connection.

    ** What the theorems show

    - Archives: an interrupted and resumed index run ends exact (C7), COPY
      rows read back (C30), from the start of a process on, the catalog
      follows the directory (C15), an open archive is the current file (C31).
    - Refinement: the poller, with any environment, does to the table what
      some sequence of lifecycle statements does (C1); every such sequence
      follows the status graph (C2). A tracked address is what its own events
      make it (C36); the updates found are the newest archives the feed offers
      (C38); an update of a collection is the pointwise one (C28).
    - Access: what the gate lets through (C4), that every handler of the
      router runs behind it (C11), that cached verdicts are current when
      operations do not overlap (C37), the request rate (C35).
    - Settings: what a reload and an update do on every branch (C23, C12),
      that a written value survives a reload (C40), that values of the wrong
      type are reported (C39).
    - Search and embedding: which page a search answers with (C16) and when it
      fails (C33); an embedding run stores the right vectors (C13) and ends
      (C26), one index build per window (C20), the background rounds are
      bounded and complete (C25).
    - Commands: every run of a command keeps to the start-up protocol,
      releases what it holds and succeeds only with its work done (C9).
      Processes: one server per database and per directory (C8, C29);
      migrations run once, in order, and a start completes them (C10, C24); a
      cache is behind only where a notification was not sent, and until the
      next or a reconnect (C14); connections are as secure as asked (C21).
    - Sessions for models: the framing of the input does not show (C17), every
      request has one answer (C32).
    - Content: chunking ends (C27); the bytes served are those the path and
      the range name (C19).
    - Fetching: no request reaches a blocked address (C3); what is on disk
      during and after a transfer (C5); what is published and when (C6, C22);
      installation of torrents (C18, C34).

    The other theorems of the files state further behaviour, among it where
    the code departs from its comments.

    ** Bounds and fuel

    Loops run over the list they consume, the redirect chain over the
    remaining hops ([MAX_REDIRECT_HOPS]), the body of a transfer over its
    chunks, the run loop over a list of cycles of any length.  Where a loop is
    not structural it has fuel that is proved or seen to be enough: the chunk
    loop takes the text's length and one more (C27), the splitting into
    batches the list's length, the placeholder scan the statement's
    length, the session of the stdio server the length of its input and one
    more (proved enough in [Mcp]), the chunk loop of an index run the number of
    chunks and one more (proved enough in [ZimIndex]).
    Integers are [Z] with the range, wrap-around or saturation of their
    Rust type written out; floating-point numbers are the specification floats
    of the Standard Library at binary32 and binary64.

    ** What is not modelled

    The archive parser (the zim crate), module files with re-exports and
    response schemas, the wrappers over sqlx. Within the modelled parts: log
    output, mutex poisoning, the text of HTTP bodies nobody reads,
    command-line parsing (clap), schema generation (utoipa), the answers of
    the CORS layer. *)

From stdpp Require Export base gmap sets list strings pretty.
From Stdlib Require Export ZArith Lia Sorted Ascii.

#[global] Open Scope Z_scope.

(** ** Notations of the development *)

Declare Scope rust_scope.
Delimit Scope rust_scope with rust.

(** Rust's [Result<A, E>]. *)
Inductive result (E A : Type) : Type :=
| Ok (a : A)
| Err (e : E).
Arguments Ok {E A} a.
Arguments Err {E A} e.

#[global] Instance result_eq_dec {E A} `{EqDecision E, EqDecision A} :
  EqDecision (result E A).
Proof. solve_decision. Defined.

(** The [?] operator: propagate an [Err], continue with an [Ok]. *)
Definition rbind {E A B} (c : result E A) (k : A -> result E B) : result E B :=
  match c with
  | Ok a => k a
  | Err e => Err e
  end.

Notation "'let?' x := c 'in' k" :=
  (rbind c (fun x => k))
  (at level 10, x pattern, c at level 100, k at level 200,
   format "'[v' 'let?'  x  :=  c  'in' '/' k ']'") : rust_scope.

#[global] Open Scope rust_scope.

Definition is_ok {E A} (r : result E A) : bool :=
  match r with Ok _ => true | Err _ => false end.

Definition is_err {E A} (r : result E A) : bool := negb (is_ok r).

(** A Rust panic, where the source can raise one. *)
Inductive panic := Panicked.
Abbreviation may_panic A := (result panic A).

(** ** Machine integers

    Unsigned and signed Rust integers are [Z] with their range written out;
    the arithmetic the source uses ([saturating_*], [checked_*], [clamp]) is
    defined at its width. *)

Definition u32_max : Z := 2 ^ 32 - 1.
Definition u64_max : Z := 2 ^ 64 - 1.
Definition u128_max : Z := 2 ^ 128 - 1.
Definition i64_max : Z := 2 ^ 63 - 1.
Definition i64_min : Z := - 2 ^ 63.
Definition i32_max : Z := 2 ^ 31 - 1.
Definition i32_min : Z := - 2 ^ 31.

Definition in_u64 (x : Z) : Prop := 0 <= x <= u64_max.
Definition in_u128 (x : Z) : Prop := 0 <= x <= u128_max.
Definition in_i64 (x : Z) : Prop := i64_min <= x <= i64_max.

(** [a.saturating_sub(b)] on an unsigned type. *)
Definition saturating_sub (a b : Z) : Z := Z.max 0 (a - b).

(** [a.saturating_add(b)] / [a.saturating_mul(b)] on an unsigned type with
    maximum [m]. *)
Definition saturating_add (m a b : Z) : Z := Z.min m (a + b).
Definition saturating_mul (m a b : Z) : Z := Z.min m (a * b).

(** [a.saturating_mul(b)] on [i64]. *)
Definition saturating_mul_i64 (a b : Z) : Z := Z.max i64_min (Z.min i64_max (a * b)).

(** [a.saturating_sub(b)] on [i64] and [i32]. *)
Definition saturating_sub_i64 (a b : Z) : Z := Z.max i64_min (Z.min i64_max (a - b)).
Definition saturating_sub_i32 (a b : Z) : Z := Z.max i32_min (Z.min i32_max (a - b)).

(** [a.checked_mul(b)] on an unsigned type with maximum [m]. *)
Definition checked_mul (m a b : Z) : option Z :=
  if a * b <=? m then Some (a * b) else None.

(** [x.clamp(lo, hi)] on an integer type. *)
Definition clamp (lo hi x : Z) : Z := Z.min hi (Z.max lo x).

(** [a.div_ceil(b)] on an unsigned type. *)
Definition div_ceil (a b : Z) : Z :=
  a / b + (if 0 <? a mod b then 1 else 0).

(** ** Generic lemmas *)

Lemma clamp_bounds lo hi x : lo <= hi -> lo <= clamp lo hi x <= hi.
Proof. unfold clamp; lia. Qed.

Lemma clamp_id lo hi x : lo <= x <= hi -> clamp lo hi x = x.
Proof. unfold clamp; lia. Qed.

Lemma div_ceil_bounds a b : 0 <= a -> 0 < b -> a <= div_ceil a b * b < a + b.
Proof.
  intros Ha Hb. unfold div_ceil.
  pose proof (Z.div_mod a b ltac:(lia)). pose proof (Z.mod_pos_bound a b Hb).
  destruct (Z.ltb_spec 0 (a mod b)); nia.
Qed.

Lemma div_mul_le a b : 0 < b -> a / b * b <= a.
Proof. intros; pose proof (Z.mul_div_le a b); lia. Qed.

Lemma rbind_ok {E A B} (c : result E A) (k : A -> result E B) b :
  rbind c k = Ok b <-> exists a, c = Ok a /\ k a = Ok b.
Proof. destruct c; cbn; split; [eauto | intros (? & [=] & ?); congruence | done | intros (? & ? & ?); done]. Qed.

(** ** Automation *)

Create HintDb zims discriminated.
#[export] Hint Constants Transparent : zims.
#[export] Hint Resolve clamp_bounds div_mul_le : zims.

(** Case analysis on every [if]/[match] scrutinee of the goal. *)
Ltac split_cases :=
  repeat (case_match; simplify_eq/=; try done).

(** Unfold the machine-integer vocabulary and close with [lia]. *)
Ltac int_lia :=
  unfold in_u64, in_u128, in_i64, saturating_sub, saturating_add, saturating_mul,
    saturating_mul_i64, saturating_sub_i64, saturating_sub_i32, clamp, u32_max, u64_max,
    u128_max, i64_max, i64_min, i32_max, i32_min in *; lia.

(** Masking the low [k] bits of a [w]-bit word. *)
Lemma land_high_mask x k w :
  0 <= k <= w -> 0 <= x < 2 ^ w -> Z.land x (2 ^ w - 2 ^ k) = x / 2 ^ k * 2 ^ k.
Proof.
  intros Hk Hx.
  replace (2 ^ w - 2 ^ k) with (Z.shiftl (Z.ones (w - k)) k).
  2:{ rewrite Z.shiftl_mul_pow2, Z.ones_equiv by lia.
      replace w with ((w - k) + k) at 2 by lia. rewrite Z.pow_add_r by lia. lia. }
  rewrite <- Z.shiftr_div_pow2, <- Z.shiftl_mul_pow2 by lia.
  apply Z.bits_inj'. intros n Hn. rewrite Z.land_spec.
  destruct (Z.ltb_spec n k).
  - rewrite !Z.shiftl_spec_low by lia. apply andb_false_r.
  - rewrite !Z.shiftl_spec, Z.shiftr_spec by lia. replace (n - k + k) with n by lia.
    destruct (Z.ltb_spec n w).
    + by rewrite Z.ones_spec_low, andb_true_r by lia.
    + rewrite Z.ones_spec_high, andb_false_r by lia. symmetry.
      destruct (decide (x = 0)) as [->|]; [apply Z.testbit_0_l|].
      apply Z.bits_above_log2; [lia|]. apply Z.log2_lt_pow2; [lia|].
      apply Z.lt_le_trans with (2 ^ w); [lia|]. apply Z.pow_le_mono_r; lia.
Qed.

(** ** Hash maps

    A [HashMap] is a [gmap]; its iteration order is unspecified, so a
    traversal goes through [hash_iter], any enumeration of the entries. *)

Class HashIter (K V : Type) `{Countable K} := {
  hash_iter : gmap K V -> list (K * V);
  hash_iter_perm m : hash_iter m ≡ₚ map_to_list m
}.

(** The enumeration used to evaluate concrete cases. *)
Definition map_order (K V : Type) `{Countable K} : HashIter K V :=
  {| hash_iter := map_to_list; hash_iter_perm _ := reflexivity _ |}.

(** [it.min_by_key(key)]: the first minimal element. *)
Definition min_by_key {A} (key : A -> Z) (l : list A) : option A :=
  match l with
  | [] => None
  | x :: l' => Some (foldl (fun m y => if key y <? key m then y else m) x l')
  end.

(** Remove the entry with the least stamp. *)
Definition evict_oldest {K V} `{HashIter K V} (stamp : V -> Z) (m : gmap K V) : gmap K V :=
  match min_by_key (fun kv => stamp (snd kv)) (hash_iter m) with
  | Some (k, _) => delete k m
  | None => m
  end.

Lemma min_fold_spec {A} (key : A -> Z) l x :
  let r := foldl (fun m y => if key y <? key m then y else m) x l in
  r ∈ x :: l /\ Forall (fun y => key r <= key y) (x :: l).
Proof.
  revert x. induction l as [|y l IH]; intros x; cbn; [split; [set_solver|by repeat constructor]|].
  destruct (Z.ltb_spec (key y) (key x)) as [Hlt|Hge].
  - destruct (IH y) as [Hin Hall]. split; [set_solver|].
    inversion Hall; subst. repeat constructor; auto. lia.
  - destruct (IH x) as [Hin Hall]. split; [set_solver|].
    inversion Hall; subst. repeat constructor; auto. lia.
Qed.

Lemma min_by_key_spec {A} (key : A -> Z) l r :
  min_by_key key l = Some r -> r ∈ l /\ Forall (fun y => key r <= key y) l.
Proof. destruct l as [|x l]; cbn; [done|]. intros [= <-]. apply min_fold_spec. Qed.

(** What eviction does: exactly one entry goes, one with the least stamp. *)
Lemma evict_oldest_spec {K V} `{HashIter K V} (stamp : V -> Z) (m : gmap K V) :
  m <> ∅ ->
  exists k v, m !! k = Some v /\ evict_oldest stamp m = delete k m /\
    forall k' v', m !! k' = Some v' -> stamp v <= stamp v'.
Proof.
  intros Hne. unfold evict_oldest.
  destruct (min_by_key _ _) as [[k v]|] eqn:E.
  - apply min_by_key_spec in E as [Hin Hall]. rewrite (hash_iter_perm m) in Hin.
    exists k, v. split_and!; [by apply elem_of_map_to_list|done|].
    intros k' v' Hv'. rewrite Forall_forall in Hall. apply (Hall (k', v')).
    rewrite (hash_iter_perm m). by apply elem_of_map_to_list.
  - destruct (hash_iter m) eqn:El; [|done]. destruct Hne.
    pose proof (hash_iter_perm m) as Hp. rewrite El in Hp.
    by apply Permutation_nil_l, eq_sym, map_to_list_empty_iff in Hp.
Qed.

Lemma evict_oldest_subseteq {K V} `{HashIter K V} (stamp : V -> Z) (m : gmap K V) :
  evict_oldest stamp m ⊆ m.
Proof. unfold evict_oldest. destruct (min_by_key _ _) as [[k v]|]; [apply delete_subseteq|done]. Qed.

(** [m.len()]. *)
Definition map_len {K V} `{Countable K} (m : gmap K V) : Z := Z.of_nat (size m).

Lemma map_len_insert {K V} `{Countable K} (m : gmap K V) k v :
  map_len (<[k := v]> m) <= map_len m + 1.
Proof. unfold map_len. rewrite map_size_insert. case_match; cbn; lia. Qed.

Lemma evict_oldest_len {K V} `{HashIter K V} (stamp : V -> Z) (m : gmap K V) n :
  map_len m <= n -> 0 < n -> map_len (evict_oldest stamp m) <= n - 1.
Proof.
  unfold map_len. intros Hn Hp. destruct (decide (m = ∅)) as [->|Hne].
  - pose proof (evict_oldest_subseteq stamp (∅ : gmap K V)) as Hs.
    apply map_subseteq_size in Hs. rewrite map_size_empty in Hs. lia.
  - destruct (evict_oldest_spec stamp m Hne) as (k & v & Hk & -> & _).
    pose proof (proj2 (map_size_non_empty_iff m) Hne).
    rewrite map_size_delete_Some by eauto. lia.
Qed.

(** The entries of a map folded into another one: an entry writes [f] of
    itself, or nothing.  The enumeration order does not matter. *)
Definition fold_entries {K V W} `{HashIter K V} (f : K -> V -> option W) (m : gmap K W)
    (s : gmap K V) : gmap K W :=
  foldl (fun m kv => match f (fst kv) (snd kv) with Some w => <[fst kv := w]> m | None => m end)
    m (hash_iter s).

Lemma foldl_insert_lookup {K V W} `{Countable K} (f : K -> V -> option W) l (m : gmap K W) k :
  NoDup (l.*1) ->
  foldl (fun m kv => match f (fst kv) (snd kv) with Some w => <[fst kv := w]> m | None => m end)
    m l !! k =
  match (list_to_map l : gmap K V) !! k ≫= f k with Some w => Some w | None => m !! k end.
Proof.
  revert m. induction l as [|[k0 v0] l IH]; intros m; cbn; [by rewrite lookup_empty|].
  intros [Hn Hnd]%NoDup_cons. rewrite IH by done.
  destruct (decide (k = k0)) as [->|Hne].
  - rewrite lookup_insert_eq, not_elem_of_list_to_map_1 by done. cbn.
    destruct (f k0 v0); [by rewrite lookup_insert_eq|done].
  - rewrite lookup_insert_ne by done. destruct (_ ≫= _); [done|].
    destruct (f k0 v0); [by rewrite lookup_insert_ne|done].
Qed.

Lemma hash_iter_nodup {K V} `{HashIter K V} (m : gmap K V) : NoDup ((hash_iter m).*1).
Proof. rewrite (hash_iter_perm m). apply NoDup_fst_map_to_list. Qed.

Lemma hash_iter_list_to_map {K V} `{HashIter K V} (m : gmap K V) : list_to_map (hash_iter m) = m.
Proof.
  rewrite <- (list_to_map_to_list m) at 2.
  apply list_to_map_proper; [apply hash_iter_nodup|apply hash_iter_perm].
Qed.

Lemma elem_of_hash_iter {K V} `{HashIter K V} (m : gmap K V) k v :
  (k, v) ∈ hash_iter m <-> m !! k = Some v.
Proof. rewrite (hash_iter_perm m). apply elem_of_map_to_list. Qed.

Lemma fold_entries_lookup {K V W} `{HashIter K V} (f : K -> V -> option W) m s k :
  fold_entries f m s !! k = match s !! k ≫= f k with Some w => Some w | None => m !! k end.
Proof.
  unfold fold_entries. rewrite foldl_insert_lookup by apply hash_iter_nodup.
  by rewrite hash_iter_list_to_map.
Qed.

Lemma pair_of_fst {A B} (x : A * B) a : fst x = a -> x = (a, snd x).
Proof. by destruct x; intros <-. Qed.

Lemma foldl_ext {A B} (f g : A -> B -> A) (l : list B) a :
  (forall a b, f a b = g a b) -> foldl f a l = foldl g a l.
Proof. intros Hfg. revert a. induction l as [|b l IH]; intros a; cbn; [done|]. by rewrite Hfg, IH. Qed.

Lemma filter_ext_in {A} (P Q : A -> Prop) `{forall x, Decision (P x), forall x, Decision (Q x)} (l : list A) :
  (forall x, x ∈ l -> P x <-> Q x) -> filter P l = filter Q l.
Proof.
  induction l as [|x l IH]; intros Hpq; [done|]. rewrite !filter_cons, IH by (intros; apply Hpq; by right).
  pose proof (Hpq x ltac:(left)). repeat case_decide; naive_solver.
Qed.
