(* ===== verification/RustStr.v ===== *)
(** * RustStr: the [str] operations the source uses

    A Rust [&str] is its UTF-8 bytes, a [string] of the Standard Library (one
    [ascii] per byte).  [trim] removes Unicode [White_Space] characters, as
    the byte sequences UTF-8 gives them; the ASCII-only operations
    ([eq_ignore_ascii_case], number parsing) are exact on bytes.  The Unicode
    lower-case table is the interface [CaseFold]: the standard library
    promises the ASCII mapping on ASCII text, and nothing else of the table
    is used. *)

From S2P Require Import Prelude.

(** ** Bytes and characters *)

Definition byte (a : ascii) : Z := Z.of_N (Ascii.N_of_ascii a).
Definition chr (z : Z) : ascii := Ascii.ascii_of_N (Z.to_N z).

Definition str_of (bs : list Z) : string := String.string_of_list_ascii (chr <$> bs).

Fixpoint str_len (s : string) : Z :=
  match s with
  | EmptyString => 0
  | String _ s' => 1 + str_len s'
  end.

Definition str_is_empty (s : string) : bool :=
  match s with EmptyString => true | _ => false end.

Fixpoint str_rev_onto (s acc : string) : string :=
  match s with
  | EmptyString => acc
  | String a s' => str_rev_onto s' (String a acc)
  end.

Definition str_rev (s : string) : string := str_rev_onto s EmptyString.

(** Every byte of [s] satisfies [f]. *)
Fixpoint str_forall (f : ascii -> bool) (s : string) : bool :=
  match s with
  | EmptyString => true
  | String a s' => f a && str_forall f s'
  end.

(** Some byte of [s] satisfies [f] ([s.contains(|c| ..)] for ASCII [c]). *)
Fixpoint str_exists (f : ascii -> bool) (s : string) : bool :=
  match s with
  | EmptyString => false
  | String a s' => f a || str_exists f s'
  end.

Definition contains_char (c : ascii) (s : string) : bool := str_exists (Ascii.eqb c) s.

(** ** Prefixes, suffixes, substrings *)

Fixpoint strip_prefix (p s : string) : option string :=
  match p, s with
  | EmptyString, _ => Some s
  | String a p', String b s' => if Ascii.eqb a b then strip_prefix p' s' else None
  | String _ _, EmptyString => None
  end.

Definition starts_with (p s : string) : bool :=
  match strip_prefix p s with Some _ => true | None => false end.

Definition ends_with (p s : string) : bool := starts_with (str_rev p) (str_rev s).

Fixpoint contains (p s : string) : bool :=
  starts_with p s ||
  match s with
  | EmptyString => false
  | String _ s' => contains p s'
  end.

(** ** Splitting *)

(** [s.split(f)]: always at least one piece. *)
Fixpoint split_on (f : ascii -> bool) (s : string) : list string :=
  match s with
  | EmptyString => [EmptyString]
  | String a s' =>
      match split_on f s' with
      | w :: ws => if f a then EmptyString :: w :: ws else String a w :: ws
      | [] => []
      end
  end.

(** The piece before the first separator, [s.split(f).next()]. *)
Definition split_first (f : ascii -> bool) (s : string) : string :=
  default s (head (split_on f s)).

(** [s.rsplit(f).next()]. *)
Definition split_last (f : ascii -> bool) (s : string) : string :=
  default s (last (split_on f s)).

(** [s.split_once(sep)]: around the first occurrence. *)
Fixpoint split_once (sep s : string) : option (string * string) :=
  match strip_prefix sep s with
  | Some rest => Some (EmptyString, rest)
  | None =>
      match s with
      | EmptyString => None
      | String a s' =>
          match split_once sep s' with
          | Some (l, r) => Some (String a l, r)
          | None => None
          end
      end
  end.

(** [s.rfind(c)] for an ASCII [c]: byte index of the last occurrence. *)
Fixpoint rfind (c : ascii) (s : string) : option nat :=
  match s with
  | EmptyString => None
  | String a s' =>
      match rfind c s' with
      | Some i => Some (S i)
      | None => if Ascii.eqb a c then Some 0%nat else None
      end
  end.

(** [&s[n..]]. *)
Fixpoint str_drop (n : nat) (s : string) : string :=
  match n, s with
  | O, _ => s
  | S n', String _ s' => str_drop n' s'
  | S _, EmptyString => EmptyString
  end.

Fixpoint str_take (n : nat) (s : string) : string :=
  match n, s with
  | S n', String a s' => String a (str_take n' s')
  | _, _ => EmptyString
  end.

(** [names.join(sep)]. *)
Fixpoint str_join (sep : string) (l : list string) : string :=
  match l with
  | [] => EmptyString
  | [w] => w
  | w :: ws => w +:+ sep +:+ str_join sep ws
  end.

(** ** Trimming *)

(** The UTF-8 encodings of the characters with the [White_Space] property. *)
Definition white_space : list string :=
  Eval cbv in str_of <$>
  [[9]; [10]; [11]; [12]; [13]; [32]; [0xC2; 0x85]; [0xC2; 0xA0]; [0xE1; 0x9A; 0x80];
   [0xE2; 0x80; 0x80]; [0xE2; 0x80; 0x81]; [0xE2; 0x80; 0x82]; [0xE2; 0x80; 0x83];
   [0xE2; 0x80; 0x84]; [0xE2; 0x80; 0x85]; [0xE2; 0x80; 0x86]; [0xE2; 0x80; 0x87];
   [0xE2; 0x80; 0x88]; [0xE2; 0x80; 0x89]; [0xE2; 0x80; 0x8A]; [0xE2; 0x80; 0xA8];
   [0xE2; 0x80; 0xA9]; [0xE2; 0x80; 0xAF]; [0xE2; 0x81; 0x9F]; [0xE3; 0x80; 0x80]].

(** Remove one of the given sequences from the front. *)
Fixpoint strip_one (seqs : list string) (s : string) : option string :=
  match seqs with
  | [] => None
  | p :: ps =>
      match strip_prefix p s with
      | Some s' => Some s'
      | None => strip_one ps s
      end
  end.

(** Remove them as long as one is there; [fuel] is the byte length, and every
    sequence is non-empty. *)
Fixpoint strip_many (fuel : nat) (seqs : list string) (s : string) : string :=
  match fuel with
  | O => s
  | S fuel' =>
      match strip_one seqs s with
      | Some s' => strip_many fuel' seqs s'
      | None => s
      end
  end.

Definition trim_start (s : string) : string :=
  strip_many (String.length s) white_space s.

Definition trim_end (s : string) : string :=
  str_rev (strip_many (String.length s) (str_rev <$> white_space) (str_rev s)).

Definition trim (s : string) : string := trim_end (trim_start s).

(** [s.trim_start_matches(c)] / [s.trim_end_matches(c)] for an ASCII [c]. *)
Fixpoint trim_start_matches (c : ascii) (s : string) : string :=
  match s with
  | String a s' => if Ascii.eqb a c then trim_start_matches c s' else s
  | EmptyString => EmptyString
  end.

Definition trim_end_matches (c : ascii) (s : string) : string :=
  str_rev (trim_start_matches c (str_rev s)).

(** ** Case *)

Definition ascii_lower_char (a : ascii) : ascii :=
  let z := byte a in
  if (65 <=? z) && (z <=? 90) then chr (z + 32) else a.

Fixpoint to_ascii_lowercase (s : string) : string :=
  match s with
  | EmptyString => EmptyString
  | String a s' => String (ascii_lower_char a) (to_ascii_lowercase s')
  end.

Definition eq_ignore_ascii_case (a b : string) : bool :=
  String.eqb (to_ascii_lowercase a) (to_ascii_lowercase b).

Definition is_ascii (s : string) : bool := str_forall (fun a => byte a <? 128) s.

(** [str::to_lowercase], with the part of the Unicode table the source relies
    on: on ASCII text it is the ASCII mapping. *)
Class CaseFold := {
  to_lowercase : string -> string;
  to_lowercase_ascii s : is_ascii s = true -> to_lowercase s = to_ascii_lowercase s
}.

(** ** Numbers *)

Definition digit (a : ascii) : option Z :=
  let z := byte a in
  if (48 <=? z) && (z <=? 57) then Some (z - 48) else None.

Fixpoint parse_digits (max acc : Z) (s : string) : option Z :=
  match s with
  | EmptyString => Some acc
  | String a s' =>
      match digit a with
      | Some d => if acc * 10 + d <=? max then parse_digits max (acc * 10 + d) s' else None
      | None => None
      end
  end.

(** [s.parse::<uN>()] for the unsigned type with maximum [max]: an optional
    plus sign, then at least one digit, no overflow. *)
Definition parse_unsigned (max : Z) (s : string) : option Z :=
  match s with
  | EmptyString => None
  | String a s' =>
      if Ascii.eqb a "+"%char then
        match s' with EmptyString => None | _ => parse_digits max 0 s' end
      else parse_digits max 0 s
  end.

Definition parse_u64 : string -> option Z := parse_unsigned u64_max.

(** [char::is_alphanumeric] on the bytes of a message, split at every other
    byte: ASCII letters and digits; bytes of non-ASCII characters are given
    by the argument. *)
Definition is_ascii_alnum (a : ascii) : bool :=
  let z := byte a in
  ((48 <=? z) && (z <=? 57)) || ((65 <=? z) && (z <=? 90)) || ((97 <=? z) && (z <=? 122)).

(** ** Lemmas *)

#[global] Arguments String.append !_ _ / : simpl nomatch.

Lemma str_app_assoc (a b c : string) : (a +:+ b) +:+ c = a +:+ b +:+ c.
Proof. induction a; cbn; congruence. Qed.

Lemma str_app_nil_r (a : string) : a +:+ EmptyString = a.
Proof. induction a; cbn; congruence. Qed.

Lemma str_rev_onto_app s acc : str_rev_onto s acc = str_rev s +:+ acc.
Proof.
  revert acc. unfold str_rev. induction s as [|a s IH]; intros acc; cbn; [done|].
  rewrite IH, (IH (String a EmptyString)), str_app_assoc. done.
Qed.

Lemma str_rev_cons a s : str_rev (String a s) = str_rev s +:+ String a EmptyString.
Proof. unfold str_rev at 1. cbn. apply str_rev_onto_app. Qed.

Lemma str_rev_app a b : str_rev (a +:+ b) = str_rev b +:+ str_rev a.
Proof.
  induction a as [|c a IH]; [by rewrite str_app_nil_r|].
  cbn [String.append]. by rewrite !str_rev_cons, IH, str_app_assoc.
Qed.

Lemma str_rev_involutive s : str_rev (str_rev s) = s.
Proof. induction s as [|a s IH]; [done|]. by rewrite str_rev_cons, str_rev_app, IH. Qed.

Lemma strip_prefix_Some p s r : strip_prefix p s = Some r <-> s = p +:+ r.
Proof.
  revert s. induction p as [|a p IH]; intros s; cbn; [split; congruence|].
  destruct s as [|b s]; [done|].
  destruct (Ascii.eqb_spec a b) as [->|Hne].
  - rewrite IH. split; congruence.
  - split; [done|]. intros [=]; congruence.
Qed.

Lemma starts_with_spec p s : starts_with p s = true <-> exists r, s = p +:+ r.
Proof.
  unfold starts_with. destruct (strip_prefix p s) as [r|] eqn:E.
  - apply strip_prefix_Some in E. split; eauto.
  - split; [done|]. intros [r Hr]. apply strip_prefix_Some in Hr. congruence.
Qed.

Lemma ends_with_spec p s : ends_with p s = true <-> exists r, s = r +:+ p.
Proof.
  unfold ends_with. rewrite starts_with_spec. split; intros [r Hr].
  - exists (str_rev r). apply (f_equal str_rev) in Hr.
    by rewrite str_rev_involutive, str_rev_app, str_rev_involutive in Hr.
  - exists (str_rev r). by rewrite Hr, str_rev_app.
Qed.

Lemma str_forall_app f a b : str_forall f (a +:+ b) = str_forall f a && str_forall f b.
Proof. induction a as [|c a IH]; cbn; [done|]. by rewrite IH, andb_assoc. Qed.

Lemma str_exists_app f a b : str_exists f (a +:+ b) = str_exists f a || str_exists f b.
Proof. induction a as [|c a IH]; cbn; [done|]. by rewrite IH, orb_assoc. Qed.

Lemma str_forall_rev f s : str_forall f (str_rev s) = str_forall f s.
Proof.
  induction s as [|a s IH]; [done|].
  rewrite str_rev_cons, str_forall_app, IH. cbn. by rewrite andb_true_r, andb_comm.
Qed.

Lemma str_forall_exists f g s :
  (forall a, f a = true -> g a = false) -> str_forall f s = true -> str_exists g s = false.
Proof.
  intros Hfg. induction s as [|a s IH]; cbn; [done|].
  rewrite andb_true_iff, orb_false_iff. intros [Ha Hs]. split; auto.
Qed.

Lemma str_forall_impl f g s :
  (forall a, f a = true -> g a = true) -> str_forall f s = true -> str_forall g s = true.
Proof.
  intros Hfg. induction s as [|a s IH]; cbn; [done|].
  rewrite !andb_true_iff. intros [Ha Hs]. split; auto.
Qed.

(** The bytes that occur in white-space characters. *)
Definition ws_byte (a : ascii) : bool :=
  let z := byte a in
  ((9 <=? z) && (z <=? 13)) || (z =? 32) || (128 <=? z).

Lemma strip_one_split seqs s r :
  Forall (fun p => str_forall ws_byte p = true) seqs ->
  strip_one seqs s = Some r -> exists p, s = p +:+ r /\ str_forall ws_byte p = true.
Proof.
  induction 1 as [|p ps Hp _ IH]; cbn; [done|].
  destruct (strip_prefix p s) as [s'|] eqn:E; [|done].
  intros [= ->]. apply strip_prefix_Some in E. eauto.
Qed.

Lemma strip_many_split fuel seqs s :
  Forall (fun p => str_forall ws_byte p = true) seqs ->
  exists p, s = p +:+ strip_many fuel seqs s /\ str_forall ws_byte p = true.
Proof.
  intros Hs. revert s. induction fuel as [|fuel IH]; intros s; cbn; [by exists EmptyString|].
  destruct (strip_one seqs s) as [r|] eqn:E; [|by exists EmptyString].
  apply strip_one_split in E as (p & -> & Hp); [|done].
  destruct (IH r) as (q & Hq & Hwq). exists (p +:+ q).
  rewrite str_app_assoc, <- Hq, str_forall_app, Hp, Hwq. done.
Qed.

Lemma white_space_bytes : Forall (fun p => str_forall ws_byte p = true) white_space.
Proof. by repeat constructor. Qed.

(** [trim] only removes white-space bytes, at both ends. *)
Lemma trim_split s : exists a b,
  s = a +:+ trim s +:+ b /\ str_forall ws_byte a = true /\ str_forall ws_byte b = true.
Proof.
  unfold trim, trim_start, trim_end.
  destruct (strip_many_split (String.length s) white_space s white_space_bytes) as (a & Ha & Hwa).
  set (t := strip_many (String.length s) white_space s) in *.
  assert (Hrev : Forall (fun p => str_forall ws_byte p = true) (str_rev <$> white_space)).
  { apply Forall_fmap. eapply Forall_impl; [apply white_space_bytes|].
    intros p Hp. cbn. by rewrite str_forall_rev. }
  destruct (strip_many_split (String.length t) (str_rev <$> white_space) (str_rev t) Hrev)
    as (b & Hb & Hwb).
  exists a, (str_rev b). split_and!; [|done|by rewrite str_forall_rev].
  apply (f_equal str_rev) in Hb. rewrite str_rev_involutive, str_rev_app in Hb.
  by rewrite <- Hb.
Qed.

Lemma to_ascii_lowercase_app a b :
  to_ascii_lowercase (a +:+ b) = to_ascii_lowercase a +:+ to_ascii_lowercase b.
Proof. induction a; cbn; congruence. Qed.

Lemma eq_ignore_ascii_case_refl s : eq_ignore_ascii_case s s = true.
Proof. apply String.eqb_refl. Qed.

Lemma byte_range a : 0 <= byte a < 256.
Proof.
  unfold byte. pose proof (Ascii.N_ascii_bounded a). lia.
Qed.

Lemma parse_digits_bound max acc s n :
  0 <= acc <= max -> parse_digits max acc s = Some n -> 0 <= n <= max.
Proof.
  revert acc. induction s as [|a s IH]; intros acc Hacc; cbn; [by intros [= <-]|].
  unfold digit. destruct ((48 <=? byte a) && (byte a <=? 57)) eqn:Ed; [|done].
  apply andb_true_iff in Ed as [?%Z.leb_le ?%Z.leb_le].
  destruct (Z.leb_spec (acc * 10 + (byte a - 48)) max); [|done].
  intros Hn. eapply IH; [|done]. lia.
Qed.

Lemma parse_unsigned_bound max s n : 0 <= max -> parse_unsigned max s = Some n -> 0 <= n <= max.
Proof.
  intros Hm. unfold parse_unsigned. destruct s as [|a s]; [done|].
  destruct (Ascii.eqb a "+"%char); [destruct s; [done|]|]; apply parse_digits_bound; lia.
Qed.

(** ** [trim] is idempotent *)

Definition ne_seqs (seqs : list string) : Prop := Forall (fun p => p <> EmptyString) seqs.

Lemma str_length_app a b : String.length (a +:+ b) = (String.length a + String.length b)%nat.
Proof. induction a; cbn; congruence. Qed.

Lemma str_length_rev s : String.length (str_rev s) = String.length s.
Proof.
  induction s as [|a s IH]; [done|]. rewrite str_rev_cons, str_length_app, IH. cbn. lia.
Qed.

Lemma strip_one_shorter seqs s r :
  ne_seqs seqs -> strip_one seqs s = Some r -> (String.length r < String.length s)%nat.
Proof.
  induction 1 as [|p ps Hp _ IH]; cbn; [done|].
  destruct (strip_prefix p s) as [s'|] eqn:E; [|done].
  intros [= ->]. apply strip_prefix_Some in E as ->. rewrite str_length_app.
  destruct p; [done|cbn; lia].
Qed.

Lemma strip_many_none fuel seqs s :
  ne_seqs seqs -> (String.length s <= fuel)%nat -> strip_one seqs (strip_many fuel seqs s) = None.
Proof.
  intros Hne. revert s. induction fuel as [|fuel IH]; intros s Hs; cbn;
    destruct (strip_one seqs s) as [r|] eqn:E; auto;
    apply strip_one_shorter in E; auto; [lia|]. apply IH. lia.
Qed.

Lemma strip_one_prefix seqs x y :
  strip_one seqs (x +:+ y) = None -> strip_one seqs x = None.
Proof.
  induction seqs as [|p ps IH]; cbn; [done|].
  destruct (strip_prefix p (x +:+ y)) eqn:E; [done|]. intros Hn.
  destruct (strip_prefix p x) as [r|] eqn:E'; [|by apply IH].
  apply strip_prefix_Some in E' as ->. rewrite str_app_assoc in E.
  assert (Hs : strip_prefix p (p +:+ r +:+ y) = Some (r +:+ y)) by by apply strip_prefix_Some.
  congruence.
Qed.

Lemma strip_many_stop fuel seqs s : strip_one seqs s = None -> strip_many fuel seqs s = s.
Proof. destruct fuel; cbn; [done|]. by intros ->. Qed.

Lemma white_space_ne : ne_seqs white_space.
Proof. by repeat constructor. Qed.

Lemma white_space_rev_ne : ne_seqs (str_rev <$> white_space).
Proof. by repeat constructor. Qed.

Lemma trim_idem s : trim (trim s) = trim s.
Proof.
  unfold trim at 2 3, trim_end.
  set (t := trim_start s). set (u := strip_many _ _ (str_rev t)).
  assert (Ht : strip_one white_space t = None) by (apply strip_many_none; [apply white_space_ne|lia]).
  assert (Hu : strip_one (str_rev <$> white_space) u = None).
  { apply strip_many_none; [apply white_space_rev_ne|]. by rewrite str_length_rev. }
  destruct (strip_many_split (String.length t) (str_rev <$> white_space) (str_rev t))
    as (b & Hb & _).
  { apply Forall_fmap. eapply Forall_impl; [apply white_space_bytes|].
    intros p Hp. cbn. by rewrite str_forall_rev. }
  fold u in Hb. apply (f_equal str_rev) in Hb. rewrite str_rev_involutive, str_rev_app in Hb.
  assert (Hs : trim_start (str_rev u) = str_rev u).
  { apply strip_many_stop. rewrite Hb in Ht. by apply strip_one_prefix in Ht. }
  unfold trim. rewrite Hs. unfold trim_end. rewrite str_rev_involutive.
  by rewrite strip_many_stop.
Qed.

(** ** Splitting a concatenation *)

Lemma split_on_ne f s : exists w ws, split_on f s = w :: ws.
Proof.
  induction s as [|a s (w & ws & IH)]; cbn; [eauto|]. rewrite IH. destruct (f a); eauto.
Qed.

Lemma split_on_app f a c b :
  f c = true -> split_on f (a +:+ String c b) = split_on f a ++ split_on f b.
Proof.
  intros Hc. induction a as [|x a IH]; cbn.
  - destruct (split_on_ne f b) as (w & ws & ->). by rewrite Hc.
  - rewrite IH. destruct (split_on_ne f a) as (w & ws & ->). cbn. by destruct (f x).
Qed.

(** ** Bytes of a string, and UTF-8 validity *)

Definition bytes_of (s : string) : list Z := byte <$> String.list_ascii_of_string s.

Definition is_byte (z : Z) : Prop := 0 <= z < 256.

Lemma chr_byte a : chr (byte a) = a.
Proof. unfold chr, byte. rewrite N2Z.id. apply Ascii.ascii_N_embedding. Qed.

Lemma byte_chr z : is_byte z -> byte (chr z) = z.
Proof.
  intros [? ?]. unfold chr, byte. rewrite Ascii.N_ascii_embedding; lia.
Qed.

Lemma str_of_bytes_of s : str_of (bytes_of s) = s.
Proof.
  unfold str_of, bytes_of. induction s as [|a s IH]; cbn; [done|]. by rewrite chr_byte, IH.
Qed.

Lemma bytes_of_str_of bs : Forall is_byte bs -> bytes_of (str_of bs) = bs.
Proof.
  unfold str_of, bytes_of. induction 1 as [|z bs Hz _ IH]; cbn; [done|].
  by rewrite byte_chr, IH.
Qed.

Lemma bytes_of_range s : Forall is_byte (bytes_of s).
Proof. unfold bytes_of. apply Forall_fmap, Forall_true. intros a. apply byte_range. Qed.

Lemma bytes_of_inj a b : bytes_of a = bytes_of b -> a = b.
Proof. intros E. by rewrite <- (str_of_bytes_of a), E, str_of_bytes_of. Qed.

Lemma bytes_of_app a b : bytes_of (a +:+ b) = bytes_of a ++ bytes_of b.
Proof. unfold bytes_of. induction a as [|x a IH]; cbn; [done|]. by rewrite IH. Qed.

Lemma str_of_app a b : str_of (a ++ b) = str_of a +:+ str_of b.
Proof. unfold str_of. induction a as [|x a IH]; cbn; [done|]. by rewrite IH. Qed.

(** A UTF-8 continuation byte. *)
Definition is_cont (z : Z) : bool := (0x80 <=? z) && (z <=? 0xBF).

(** [str::from_utf8]: the well-formed byte sequences of the Unicode standard
    (no overlong forms, no surrogates, nothing above U+10FFFF). *)
Fixpoint utf8_valid (bs : list Z) : bool :=
  match bs with
  | [] => true
  | a :: r =>
      if a <? 0x80 then utf8_valid r
      else
        match r with
        | [] => false
        | b :: r1 =>
            if (0xC2 <=? a) && (a <=? 0xDF) then is_cont b && utf8_valid r1
            else
              match r1 with
              | [] => false
              | c :: r2 =>
                  if (0xE0 <=? a) && (a <=? 0xEF) then
                    ((if a =? 0xE0 then 0xA0 else 0x80) <=? b) &&
                    (b <=? (if a =? 0xED then 0x9F else 0xBF)) &&
                    is_cont c && utf8_valid r2
                  else
                    match r2 with
                    | [] => false
                    | d :: r3 =>
                        if (0xF0 <=? a) && (a <=? 0xF4) then
                          ((if a =? 0xF0 then 0x90 else 0x80) <=? b) &&
                          (b <=? (if a =? 0xF4 then 0x8F else 0xBF)) &&
                          is_cont c && is_cont d && utf8_valid r3
                        else false
                    end
              end
        end
  end.

(** ** Printing and parsing a number *)

Lemma pretty_digit n : (n < 10)%N -> digit (pretty_N_char n) = Some (Z.of_N n).
Proof. intros Hn. destruct n as [|p]; [done|]. do 4 (destruct p as [p|p|]; try lia; try done). Qed.

Lemma parse_pretty_go max x s :
  0 <= max -> Z.of_N x <= max ->
  parse_digits max 0 (pretty_N_go x s) = parse_digits max (Z.of_N x) s.
Proof.
  intros Hm. revert s. induction (N.lt_wf_0 x) as [x _ IH]. intros s Hx.
  destruct (decide (x = 0)%N) as [->|Hne]; [by rewrite pretty_N_go_0|].
  rewrite pretty_N_go_step by lia. rewrite IH.
  - cbn [parse_digits]. rewrite pretty_digit by (apply N.mod_lt; lia).
    pose proof (N.div_mod x 10 ltac:(lia)).
    replace (Z.of_N (x / 10) * 10 + Z.of_N (x mod 10)) with (Z.of_N x) by lia.
    destruct (Z.leb_spec (Z.of_N x) max); [done|lia].
  - apply N.div_lt; lia.
  - rewrite N2Z.inj_div. pose proof (Z.div_le_upper_bound (Z.of_N x) 10 max). lia.
Qed.

Lemma digit_plus : digit "+"%char = None.
Proof. done. Qed.

(** The first byte of a parsed number is a digit. *)
Lemma parse_digits_unsigned max n s :
  s <> EmptyString -> parse_digits max 0 s = Some n -> parse_unsigned max s = Some n.
Proof.
  destruct s as [|a s]; [done|]. intros _ Hp. unfold parse_unsigned.
  destruct (Ascii.eqb_spec a "+"%char) as [->|]; [|done]. cbn in Hp. by rewrite digit_plus in Hp.
Qed.

Lemma pretty_go_ne x s : s <> EmptyString -> pretty_N_go x s <> EmptyString.
Proof.
  revert s. induction (N.lt_wf_0 x) as [x _ IH]. intros s Hs.
  destruct (decide (x = 0)%N) as [->|Hne]; [by rewrite pretty_N_go_0|].
  rewrite pretty_N_go_step by lia. apply IH; [apply N.div_lt; lia|done].
Qed.

Lemma parse_unsigned_pretty max n :
  0 <= n <= max -> parse_unsigned max (pretty n) = Some n.
Proof.
  intros [H0 Hn]. destruct n as [|p|p]; [|change (pretty (Z.pos p)) with (pretty (N.pos p))|lia].
  - change (pretty 0) with "0". by destruct max; [..|lia].
  - unfold pretty, pretty_N. rewrite decide_False by done.
    apply parse_digits_unsigned.
    + rewrite pretty_N_go_step by lia. by apply pretty_go_ne.
    + rewrite parse_pretty_go by lia. done.
Qed.

Definition is_digit_char (a : ascii) : bool := match digit a with Some _ => true | None => false end.

Lemma pretty_go_digits x s :
  str_forall is_digit_char s = true -> str_forall is_digit_char (pretty_N_go x s) = true.
Proof.
  revert s. induction (N.lt_wf_0 x) as [x _ IH]. intros s Hs.
  destruct (decide (x = 0)%N) as [->|Hne]; [by rewrite pretty_N_go_0|].
  rewrite pretty_N_go_step by lia. apply IH; [apply N.div_lt; lia|]. cbn.
  unfold is_digit_char at 1. rewrite pretty_digit by (apply N.mod_lt; lia). done.
Qed.

Lemma pretty_digits n : 0 <= n -> str_forall is_digit_char (pretty n) = true.
Proof.
  intros H0. destruct n as [|p|p]; [done| |lia].
  change (pretty (Z.pos p)) with (pretty (N.pos p)). unfold pretty, pretty_N.
  rewrite decide_False by done. by apply pretty_go_digits.
Qed.

(** Text without the separator is one piece. *)
Lemma split_on_none f s : str_exists f s = false -> split_on f s = [s].
Proof.
  induction s as [|a s IH]; cbn; [done|]. rewrite orb_false_iff. intros [Ha Hs].
  by rewrite IH, Ha.
Qed.

Lemma str_exists_false f s : str_forall (fun a => negb (f a)) s = true -> str_exists f s = false.
Proof. apply str_forall_exists. intros a. by destruct (f a). Qed.

Lemma split_once_char c a b :
  str_exists (Ascii.eqb c) a = false ->
  split_once (String c EmptyString) (a +:+ String c b) = Some (a, b).
Proof.
  induction a as [|x a IH]; cbn; [by rewrite Ascii.eqb_refl|].
  rewrite orb_false_iff. intros [Hx Ha]. rewrite Hx, IH by done. done.
Qed.

Lemma split_on_join c l :
  l <> [] -> Forall (fun w => str_exists (Ascii.eqb c) w = false) l ->
  split_on (Ascii.eqb c) (str_join (String c EmptyString) l) = l.
Proof.
  intros Hne Hall. induction Hall as [|w l Hw Hl IH]; [done|].
  destruct l as [|w' l']; [by apply split_on_none|].
  change (str_join (String c EmptyString) (w :: w' :: l'))
    with (w +:+ String c (str_join (String c EmptyString) (w' :: l'))).
  rewrite split_on_app by apply Ascii.eqb_refl. by rewrite split_on_none, IH by done.
Qed.

(** Splitting cuts at every separator, and joining undoes it. *)
Lemma split_on_pieces f s : Forall (fun w => str_exists f w = false) (split_on f s).
Proof.
  induction s as [|a s IH]; cbn; [by repeat constructor|].
  destruct (split_on_ne f s) as (w & ws & E). rewrite E in *.
  apply Forall_cons in IH as [Hw Hws]. destruct (f a) eqn:Ea; repeat constructor; auto.
  cbn. by rewrite Ea.
Qed.

Lemma join_split c s : str_join (String c EmptyString) (split_on (Ascii.eqb c) s) = s.
Proof.
  induction s as [|x s IH]; [done|]. cbn [split_on]. destruct (split_on_ne (Ascii.eqb c) s) as (w & ws & E). rewrite E in *.
  destruct (Ascii.eqb_spec c x) as [->|Hne].
  - cbn in *. by rewrite IH.
  - destruct ws as [|w' ws]; cbn in *; by rewrite <- IH.
Qed.

Lemma split_on_inv c s l : split_on (Ascii.eqb c) s = l ->
  s = str_join (String c EmptyString) l /\ Forall (fun w => contains_char c w = false) l.
Proof. intros <-. by rewrite join_split; split; [|apply split_on_pieces]. Qed.

(** ** Character boundaries *)

(** [s.is_char_boundary(i)] on valid UTF-8. *)
Definition is_char_boundary (s : string) (i : nat) : bool :=
  match str_drop i s with
  | EmptyString => Nat.leb i (String.length s)
  | String a _ => negb (is_cont (byte a))
  end.

(** [s.floor_char_boundary(n)]: the largest boundary not above [n]. *)
Fixpoint floor_char_boundary (n : nat) (s : string) : nat :=
  match n with
  | O => O
  | S n' => if is_char_boundary s n then n else floor_char_boundary n' s
  end.

(** [s.ceil_char_boundary(n)]: the least boundary not below [n]. *)
Fixpoint ceil_from (n : nat) (tail : string) : nat :=
  match tail with
  | EmptyString => n
  | String a tail' => if is_cont (byte a) then ceil_from (S n) tail' else n
  end.

Definition ceil_char_boundary (n : nat) (s : string) : nat :=
  if Nat.leb (String.length s) n then String.length s else ceil_from n (str_drop n s).

(** [&s[a..b]]. *)
Definition str_slice (a b : nat) (s : string) : string := str_take (b - a) (str_drop a s).

(** [s.chars().count()] and [s.chars().take(n).collect()]: a character is a
    byte that does not continue one, with those that do. *)
Fixpoint char_count (s : string) : nat :=
  match s with
  | EmptyString => O
  | String a s' => if is_cont (byte a) then char_count s' else S (char_count s')
  end.

Fixpoint char_take (n : nat) (s : string) : string :=
  match s with
  | EmptyString => EmptyString
  | String a s' =>
      if is_cont (byte a) then String a (char_take n s')
      else match n with O => EmptyString | S n' => String a (char_take n' s') end
  end.

(** [String::from_utf8_lossy]: every maximal broken sequence becomes the
    replacement character. *)
Definition replacement_char : list Z := [0xEF; 0xBF; 0xBD].

(** The length of the sequence at the head, and whether it is a character. *)
Definition utf8_head (a : Z) (r : list Z) : bool * nat :=
  let second lo hi := match r with b :: _ => (lo <=? b) && (b <=? hi) | [] => false end in
  let cont n := match r !! n with Some b => is_cont b | None => false end in
  if a <? 0x80 then (true, 1%nat)
  else if (0xC2 <=? a) && (a <=? 0xDF) then if cont 0%nat then (true, 2%nat) else (false, 1%nat)
  else if (0xE0 <=? a) && (a <=? 0xEF) then
    if second (if a =? 0xE0 then 0xA0 else 0x80) (if a =? 0xED then 0x9F else 0xBF) then
      if cont 1%nat then (true, 3%nat) else (false, 2%nat)
    else (false, 1%nat)
  else if (0xF0 <=? a) && (a <=? 0xF4) then
    if second (if a =? 0xF0 then 0x90 else 0x80) (if a =? 0xF4 then 0x8F else 0xBF) then
      if cont 1%nat then if cont 2%nat then (true, 4%nat) else (false, 3%nat) else (false, 2%nat)
    else (false, 1%nat)
  else (false, 1%nat).

(** [skip] bytes of the current sequence are still to be dropped. *)
Fixpoint lossy_bytes (skip : nat) (bs : list Z) : list Z :=
  match bs with
  | [] => []
  | a :: r =>
      match skip with
      | S k => lossy_bytes k r
      | O =>
          let '(ok, n) := utf8_head a r in
          (if ok then take n bs else replacement_char) ++ lossy_bytes (n - 1) r
      end
  end.

Definition from_utf8_lossy (s : string) : string := str_of (lossy_bytes 0 (bytes_of s)).

(** ** Lemmas: slices and boundaries *)

Lemma str_drop_length n s : String.length (str_drop n s) = (String.length s - n)%nat.
Proof. revert s. induction n as [|n IH]; intros [|a s]; cbn; auto. Qed.

Lemma str_take_length n s : String.length (str_take n s) = Nat.min n (String.length s).
Proof. revert s. induction n as [|n IH]; intros [|a s]; cbn; auto. Qed.

Lemma str_take_drop n s : str_take n s +:+ str_drop n s = s.
Proof. revert s. induction n as [|n IH]; intros [|a s]; cbn; try done. by rewrite IH. Qed.

Lemma str_slice_length a b s :
  String.length (str_slice a b s) = Nat.min (b - a) (String.length s - a).
Proof. unfold str_slice. by rewrite str_take_length, str_drop_length. Qed.

Lemma ceil_from_bounds tail : forall n, (n <= ceil_from n tail <= n + String.length tail)%nat.
Proof.
  induction tail as [|a tail IH]; intros n; cbn; [lia|].
  destruct (is_cont (byte a)); [pose proof (IH (S n)); lia|lia].
Qed.

Lemma ceil_char_boundary_bounds n s :
  (n <= String.length s -> n <= ceil_char_boundary n s <= String.length s)%nat.
Proof.
  intros Hn. unfold ceil_char_boundary. destruct (Nat.leb_spec (String.length s) n); [lia|].
  pose proof (ceil_from_bounds (str_drop n s) n). rewrite str_drop_length in *. lia.
Qed.

Lemma floor_char_boundary_le n s : (floor_char_boundary n s <= n)%nat.
Proof. induction n as [|n IH]; cbn; [done|]. destruct (is_char_boundary s (S n)); lia. Qed.

Lemma rfind_bound c s i : rfind c s = Some i -> (i < String.length s)%nat.
Proof.
  revert i. induction s as [|a s IH]; intros i; cbn; [done|].
  destruct (rfind c s) as [j|]; [intros [= <-]; specialize (IH j eq_refl); lia|].
  destruct (Ascii.eqb a c); [intros [= <-]; lia|done].
Qed.

Lemma str_drop_cons n s a r : str_drop n s = String a r -> str_drop (S n) s = r.
Proof. revert s. induction n as [|n IH]; intros [|b s] H; cbn in *; try done; [congruence|by apply IH]. Qed.

Lemma rfind_char c s i : rfind c s = Some i -> exists r, str_drop i s = String c r.
Proof.
  revert i. induction s as [|a s IH]; intros i; cbn; [done|].
  destruct (rfind c s) as [j|]; [intros [= <-]; by apply IH|].
  destruct (Ascii.eqb_spec a c) as [->|]; [intros [= <-]; cbn; eauto|done].
Qed.

(** The last occurrence: nothing of it in what follows. *)
Lemma rfind_lacks c s : rfind c s = None <-> contains_char c s = false.
Proof.
  induction s as [|a s IH]; [done|]. cbn. rewrite (Ascii.eqb_sym c a). fold (contains_char c s). destruct (rfind c s) as [j|].
  - split; [done|]. intros [_ ?%IH]%orb_false_iff. done.
  - rewrite orb_false_iff. destruct (Ascii.eqb a c); naive_solver.
Qed.

Lemma rfind_last c a b : contains_char c b = false -> rfind c (a +:+ String c b) = Some (String.length a).
Proof.
  intros Hb. induction a as [|x a IH]; cbn.
  - by rewrite (proj2 (rfind_lacks c b) Hb), Ascii.eqb_refl.
  - cbn in IH. by rewrite IH.
Qed.

Lemma rfind_split c s i : rfind c s = Some i ->
  s = str_take i s +:+ String c (str_drop (i + 1) s) /\ contains_char c (str_drop (i + 1) s) = false.
Proof.
  revert i. induction s as [|a s IH]; intros i; [done|]. cbn. destruct (rfind c s) as [j|] eqn:E.
  - intros [= <-]. destruct (IH j eq_refl) as [Hs Hc]. cbn. split; [|done]. by f_equal.
  - destruct (Ascii.eqb_spec a c) as [->|]; [|done]. intros [= <-]. cbn. split; [done|]. by apply rfind_lacks.
Qed.

(** A byte of the text stays at its place in a slice. *)
Lemma str_take_drop_cons n i s a r :
  str_drop i (str_take n s) = String a r -> exists r', str_drop i s = String a r'.
Proof.
  revert n s. induction i as [|i IH]; intros [|n] [|b s] H; cbn in *; try done; [|by eapply IH].
  injection H as -> _. eauto.
Qed.

Lemma str_drop_drop i n s : str_drop i (str_drop n s) = str_drop (n + i) s.
Proof. revert s. induction n as [|n IH]; intros [|b s]; cbn; try done; by destruct i. Qed.

Lemma str_slice_drop_cons a b i t c r :
  str_drop i (str_slice a b t) = String c r -> exists r', str_drop (a + i) t = String c r'.
Proof.
  unfold str_slice. intros [r' H]%str_take_drop_cons. rewrite str_drop_drop in H. eauto.
Qed.

Lemma floor_char_boundary_ok n s :
  is_char_boundary s 0 = true -> is_char_boundary s (floor_char_boundary n s) = true.
Proof. intros H0. induction n as [|n IH]; cbn; [done|]. by destruct (is_char_boundary s (S n)) eqn:E. Qed.

Lemma ceil_from_ok tail : forall n s, str_drop n s = tail -> (n <= String.length s)%nat ->
  is_char_boundary s (ceil_from n tail) = true.
Proof.
  induction tail as [|a tail IH]; intros n s Hd Hn; cbn [ceil_from].
  - unfold is_char_boundary. rewrite Hd. by apply Nat.leb_le.
  - destruct (is_cont (byte a)) eqn:E.
    + apply IH; [by eapply str_drop_cons|].
      pose proof (str_drop_length n s) as Hl. rewrite Hd in Hl. cbn in Hl. lia.
    + unfold is_char_boundary. rewrite Hd. by rewrite E.
Qed.

Lemma ceil_char_boundary_ok n s : is_char_boundary s (ceil_char_boundary n s) = true.
Proof.
  unfold ceil_char_boundary. destruct (Nat.leb_spec (String.length s) n).
  - unfold is_char_boundary. pose proof (str_drop_length (String.length s) s) as Hl.
    destruct (str_drop _ s); [by apply Nat.leb_le|cbn in Hl; lia].
  - apply ceil_from_ok; [done|lia].
Qed.

(** In valid UTF-8 no character starts with a continuation byte, so the start
    and the place after any ASCII byte are boundaries. *)
Fixpoint no_stray (fresh : bool) (bs : list Z) : bool :=
  match bs with
  | [] => true
  | b :: r => negb (fresh && is_cont b) && no_stray (b <? 0x80) r
  end.

Lemma not_ascii_cont b : is_cont b = true -> (b <? 0x80) = false.
Proof. unfold is_cont. lia. Qed.

Lemma utf8_valid_no_stray bs : forall fresh, utf8_valid bs = true -> no_stray fresh bs = true.
Proof.
  induction bs as [bs IH] using (induction_ltof1 _ (@length Z)). unfold ltof in IH.
  assert (Hlead : forall b, (b <? 0x80) = true \/ (0xC2 <=? b) = true -> is_cont b = false)
    by (unfold is_cont; intros; lia).
  intros fresh. destruct bs as [|a r]; cbn [utf8_valid no_stray]; [done|].
  destruct (a <? 0x80) eqn:Ea.
  { intros Hr. rewrite Hlead by auto. rewrite andb_false_r. cbn. by apply IH; [cbn; lia|]. }
  destruct r as [|b r1]; [done|]. cbn [no_stray].
  destruct ((0xC2 <=? a) && (a <=? 0xDF)) eqn:E2.
  { intros [Hb Hr]%andb_prop. rewrite Hlead by (right; lia). rewrite andb_false_r, (not_ascii_cont b Hb).
    cbn. by apply IH; [cbn; lia|]. }
  destruct r1 as [|c r2]; [done|]. cbn [no_stray].
  destruct ((0xE0 <=? a) && (a <=? 0xEF)) eqn:E3.
  { intros [[Hb Hc]%andb_prop Hr]%andb_prop. rewrite Hlead by (right; lia).
    rewrite andb_false_r, (not_ascii_cont c Hc).
    replace (b <? 0x80) with false by (destruct (a =? 0xE0); lia). cbn. by apply IH; [cbn; lia|]. }
  destruct r2 as [|d r3]; [done|]. cbn [no_stray].
  destruct ((0xF0 <=? a) && (a <=? 0xF4)) eqn:E4; [|done].
  intros [[[Hb Hc]%andb_prop Hd]%andb_prop Hr]%andb_prop. rewrite Hlead by (right; lia).
  rewrite andb_false_r, (not_ascii_cont c Hc), (not_ascii_cont d Hd).
  replace (b <? 0x80) with false by (destruct (a =? 0xF0); lia). cbn. by apply IH; [cbn; lia|].
Qed.

Lemma no_stray_after fresh s i a b r :
  no_stray fresh (bytes_of s) = true -> byte a < 0x80 -> str_drop i s = String a (String b r) ->
  is_cont (byte b) = false.
Proof.
  revert fresh s. induction i as [|i IH]; intros fresh [|c s] Hn Ha Hd; cbn in Hd; try done.
  - injection Hd as -> ->. cbn in Hn. apply andb_prop in Hn as [_ Hn].
    replace (byte a <? 0x80) with true in Hn by lia. cbn in Hn.
    apply andb_prop in Hn as [Hn _]. by apply negb_true_iff in Hn.
  - cbn in Hn. apply andb_prop in Hn as [_ Hn]. by eapply IH.
Qed.

Lemma boundary_start s : utf8_valid (bytes_of s) = true -> is_char_boundary s 0 = true.
Proof.
  intros H%(utf8_valid_no_stray _ true). destruct s as [|a s]; [done|]. cbn in H.
  by apply andb_prop in H as [H _].
Qed.

Lemma boundary_after_ascii s i a r : utf8_valid (bytes_of s) = true -> byte a < 0x80 ->
  str_drop i s = String a r -> is_char_boundary s (S i) = true.
Proof.
  intros H%(utf8_valid_no_stray _ true) Ha Hd. unfold is_char_boundary.
  rewrite (str_drop_cons _ _ _ _ Hd). destruct r as [|b r].
  - pose proof (str_drop_length i s) as Hl. rewrite Hd in Hl. cbn in Hl. apply Nat.leb_le. lia.
  - by rewrite (no_stray_after _ _ _ _ _ _ H Ha Hd).
Qed.

Lemma str_len_length s : str_len s = Z.of_nat (String.length s).
Proof. induction s as [|a s IH]; cbn [str_len String.length]; lia. Qed.

Lemma str_take_all n s : (String.length s <= n)%nat -> str_take n s = s.
Proof. revert s. induction n as [|n IH]; intros [|a s] H; cbn in *; try done; try lia. f_equal. apply IH. lia. Qed.

Lemma char_count_app a b : char_count (a +:+ b) = (char_count a + char_count b)%nat.
Proof. induction a as [|c a IH]; cbn; [done|]. destruct (is_cont (byte c)); lia. Qed.

Lemma char_take_count n s : (char_count (char_take n s) <= n)%nat.
Proof.
  revert n. induction s as [|a s IH]; intros n; cbn; [lia|].
  destruct (is_cont (byte a)) eqn:E; [cbn; rewrite E; apply IH|].
  destruct n as [|n]; cbn; [lia|]. rewrite E. specialize (IH n). lia.
Qed.

Lemma trim_id s : str_forall (fun a => negb (ws_byte a)) s = true -> trim s = s.
Proof.
  intros Hs. destruct (trim_split s) as (a & b & E & Ha & Hb). rewrite E in Hs at 1.
  rewrite !str_forall_app, !andb_true_iff in Hs. destruct Hs as (Hsa & _ & Hsb).
  assert (Hnil : forall x, str_forall ws_byte x = true -> str_forall (fun a => negb (ws_byte a)) x = true ->
    x = EmptyString) by (intros [|c x]; cbn; [done|destruct (ws_byte c); done]).
  rewrite (Hnil _ Ha Hsa), (Hnil _ Hb Hsb), str_app_nil_r in E. by symmetry.
Qed.

Lemma pretty_ne n : 0 <= n -> pretty n <> EmptyString.
Proof.
  intros Hn E. pose proof (parse_unsigned_pretty n n ltac:(lia)) as Hp. by rewrite E in Hp.
Qed.

Lemma pretty_forall f n : 0 <= n -> (forall a, is_digit_char a = true -> f a = true) ->
  str_forall f (pretty n) = true.
Proof. intros Hn Hf. eapply str_forall_impl; [exact Hf|]. by apply pretty_digits. Qed.

Lemma pretty_exists f n : 0 <= n -> (forall a, is_digit_char a = true -> f a = false) ->
  str_exists f (pretty n) = false.
Proof.
  intros Hn Hf. apply str_exists_false, pretty_forall; [done|]. intros a Ha. by rewrite Hf.
Qed.
