(* ===== verification/Errors.v ===== *)
(** * Errors: the application error type and its HTTP mapping
    ([src/src/error.rs])

    [Error] with the source's variants.  A third-party error inside a variant
    is the text its [Display] prints; a [sqlx::Error] keeps what the mapping
    inspects: whether it is a pool timeout, and the SQLSTATE and constraint
    name of a server-returned error. *)

From S2P Require Import Prelude RustStr.

Inductive TorrentKind := SessionExpired | Other.

Inductive SqlxError :=
| PoolTimedOut
| PoolClosed
| DatabaseError (code constraint : option string) (text : string)
| OtherSqlx (text : string).

Inductive Error :=
| Database (e : SqlxError)
| Zim (msg : string)
| ZimDigestMismatch (msg : string)
| Config (msg : string)
| SettingsDecrypt (key : string)
| Http (e : string)
| Io (e : string)
| Json (e : string)
| Torrent (kind : TorrentKind) (msg : string)
| Embedding (msg : string)
| Mcp (msg : string)
| NotFound (msg : string)
| Forbidden (msg : string)
| Conflict (msg : string)
| InvalidInput (msg : string)
| Internal (e : string).

#[global] Instance TorrentKind_eq_dec : EqDecision TorrentKind.
Proof. solve_decision. Defined.
#[global] Instance SqlxError_eq_dec : EqDecision SqlxError.
Proof. solve_decision. Defined.
#[global] Instance Error_eq_dec : EqDecision Error.
Proof. solve_decision. Defined.

(** The crate's [Result<T>]. *)
Abbreviation Result := (result Error).

(** What can happen to a statement or a transaction: it runs, it fails without
    an effect, or it runs and its reply is lost. *)
Inductive Fault :=
| NoFault
| Failed (e : Error)
| ReplyLost (e : Error).

Definition sqlx_display (e : SqlxError) : string :=
  match e with
  | PoolTimedOut => "pool timed out while waiting for an open connection"
  | PoolClosed => "attempted to acquire a connection on a closed pool"
  | DatabaseError _ _ text => "error returned from database: " +:+ text
  | OtherSqlx text => text
  end.

(** [Error]'s [Display] ([#[error(..)]]). *)
Definition error_display (e : Error) : string :=
  match e with
  | Database e => "database error: " +:+ sqlx_display e
  | Zim m => "ZIM error: " +:+ m
  | ZimDigestMismatch m => "content digest mismatch: " +:+ m
  | Config m => "config error: " +:+ m
  | SettingsDecrypt key =>
      "settings key " +:+ key +:+ ": stored value is encrypted with a different "
      +:+ "SECURITY_KEY (or is corrupted) — restore the original "
      +:+ "SECURITY_KEY, or clear the stored value and re-provide it "
      +:+ "(env var, or authenticated PUT /settings for keys that are not "
      +:+ "API-immutable — access.read_only_token is env-only)"
  | Http m => "HTTP error: " +:+ m
  | Io m => "IO error: " +:+ m
  | Json m => "JSON error: " +:+ m
  | Torrent _ m => "torrent error: " +:+ m
  | Embedding m => "embedding error: " +:+ m
  | Mcp m => "MCP error: " +:+ m
  | NotFound m => "not found: " +:+ m
  | Forbidden m => "forbidden: " +:+ m
  | Conflict m => "conflict: " +:+ m
  | InvalidInput m => "invalid input: " +:+ m
  | Internal m => "internal error: " +:+ m
  end.

Definition sqlstate_status (code : option string) : Z :=
  match code with
  | Some c =>
      if String.eqb c "23505" || String.eqb c "23503" then 409
      else if String.eqb c "23502" || String.eqb c "23514" then 400
      else 503
  | None => 503
  end.

Definition sqlstate_message (code : option string) : string :=
  match code with
  | Some c =>
      if String.eqb c "23502" then "missing required value"
      else if String.eqb c "23503" then "referenced row does not exist"
      else if String.eqb c "23514" then "value violates a constraint"
      else "database error"
  | None => "database error"
  end.

Definition CONSTRAINT_FIELDS : list (string * string) :=
  [("zims_pkey", "id"); ("zims_name_key", "name");
   ("articles_pkey", "id"); ("articles_zim_id_path_key", "zim_id_path");
   ("collections_pkey", "id"); ("collections_name_key", "name");
   ("qid_index_pkey", "zim_id_path"); ("settings_pkey", "key");
   ("downloads_pkey", "id"); ("idx_downloads_active_url", "url");
   ("uq_downloads_active_name", "name")].

Definition TABLE_PREFIXES : list string := ["zims_"; "collections_"; "articles_"].

(** [s.strip_suffix(p)]. *)
Definition strip_suffix (p s : string) : option string :=
  str_rev <$> strip_prefix (str_rev p) (str_rev s).

Fixpoint assoc (k : string) (l : list (string * string)) : option string :=
  match l with
  | [] => None
  | (k', v) :: l' => if String.eqb k' k then Some v else assoc k l'
  end.

Fixpoint find_map {A B} (f : A -> option B) (l : list A) : option B :=
  match l with
  | [] => None
  | a :: l' => match f a with Some b => Some b | None => find_map f l' end
  end.

Definition duplicate_field (constraint : string) : string :=
  match assoc constraint CONSTRAINT_FIELDS with
  | Some field => field
  | None =>
      let s := default constraint (strip_suffix "_key" constraint) in
      let f := default s (find_map (fun p => strip_prefix p s) TABLE_PREFIXES) in
      if str_is_empty f then "value" else f
  end.

Definition sqlx_error_status_message (e : SqlxError) : Z * string :=
  match e with
  | PoolTimedOut => (503, "database unavailable")
  | DatabaseError code constraint _ =>
      if decide (code = Some "23505") then
        let field := from_option duplicate_field "value" constraint in
        (409, "duplicate value for '" +:+ field +:+ "'")
      else (sqlstate_status code, sqlstate_message code)
  | PoolClosed | OtherSqlx _ => (503, "database connection closed")
  end.

Definition status_and_message (e : Error) : Z * string :=
  match e with
  | NotFound msg => (404, msg)
  | Forbidden msg => (403, msg)
  | InvalidInput msg => (400, msg)
  | Conflict msg => (409, msg)
  | Database e => sqlx_error_status_message e
  | Torrent _ _ => (502, "upstream torrent service failed")
  | Http _ => (502, "upstream request failed")
  | _ => (500, "internal server error")
  end.

(** Erase every text that must stay server-side: all payloads but those of
    the four client-error variants. *)
Definition erase_internal (e : Error) : Error :=
  match e with
  | Database (DatabaseError c k _) => Database (DatabaseError c k EmptyString)
  | Database (OtherSqlx _) => Database (OtherSqlx EmptyString)
  | Database e => Database e
  | Zim _ => Zim EmptyString
  | ZimDigestMismatch _ => ZimDigestMismatch EmptyString
  | Config _ => Config EmptyString
  | SettingsDecrypt _ => SettingsDecrypt EmptyString
  | Http _ => Http EmptyString
  | Io _ => Io EmptyString
  | Json _ => Json EmptyString
  | Torrent k _ => Torrent k EmptyString
  | Embedding _ => Embedding EmptyString
  | Mcp _ => Mcp EmptyString
  | Internal _ => Internal EmptyString
  | NotFound _ | Forbidden _ | Conflict _ | InvalidInput _ => e
  end.

(** ** Properties *)

(** A client response never depends on server-side text: erasing the
    payload of every internal variant (database text, upstream bodies, file
    paths, settings keys) leaves status and message unchanged; and a server
    status (5xx) never carries client- or server-supplied text. *)
Theorem responses_do_not_leak e :
  status_and_message (erase_internal e) = status_and_message e /\
  (500 <= fst (status_and_message e) ->
   snd (status_and_message e) ∈
     ["internal server error"; "upstream request failed"; "upstream torrent service failed";
      "database unavailable"; "database connection closed"; "database error"]).
Proof.
  assert (Hin : forall code : option string,
    500 <= sqlstate_status code -> sqlstate_message code = "database error").
  { intros [c|]; [|done]. unfold sqlstate_status, sqlstate_message.
    destruct (String.eqb_spec c "23505"); [subst; done|].
    destruct (String.eqb_spec c "23503"); [subst; cbn; lia|].
    destruct (String.eqb_spec c "23502"); [subst; cbn; lia|].
    destruct (String.eqb_spec c "23514"); [subst; cbn; lia|]. done. }
  split; [by destruct e as [d| | | | | | | | | | | | | | |]; [destruct d|..]|].
  destruct e as [d| | | | | | | | | | | | | | |]; [destruct d as [| |code k text|]|..];
    cbn; try lia; intros H; try set_solver.
  destruct (decide (code = Some "23505")); cbn in *; [lia|]. rewrite Hin by done. set_solver.
Qed.

(** Every unique constraint of the schema names its field in a 409, never
    a raw constraint fragment, and the [uq_downloads_active_name] /
    [idx_downloads_active_url] conflicts name [name] and [url]. *)
Theorem unique_violation_names_field k f text :
  (k, f) ∈ CONSTRAINT_FIELDS ->
  status_and_message (Database (DatabaseError (Some "23505") (Some k) text)) =
  (409, "duplicate value for '" +:+ f +:+ "'").
Proof.
  intros H. cbn. rewrite decide_True by done.
  unfold CONSTRAINT_FIELDS in H. rewrite !elem_of_cons in H.
  repeat (destruct H as [[= -> ->]|H]; [reflexivity|]). set_solver.
Qed.

Lemma unique_violation_names_field_witness :
  status_and_message (Database (DatabaseError (Some "23505") (Some "uq_downloads_active_name") "x")) =
  (409, "duplicate value for '" +:+ "name" +:+ "'").
Proof. apply unique_violation_names_field. set_solver. Defined.
