(* ===== verification/Floats.v ===== *)
(** * Floats: IEEE binary64 and binary32

    Rust's [f64] and [f32] as the specification floats of the Standard
    Library, rounded to nearest even, with the conversions and the [max],
    [min], [clamp] and [round] methods the source uses. *)

From Stdlib Require Export SpecFloat.
From S2P Require Import Prelude.

Abbreviation f64 := spec_float.
Abbreviation f32 := spec_float.

#[global] Instance spec_float_eq_dec : EqDecision spec_float.
Proof. solve_decision. Defined.

Definition f64_sub : f64 -> f64 -> f64 := SFsub 53 1024.
Definition f64_div : f64 -> f64 -> f64 := SFdiv 53 1024.
Definition f64_add : f64 -> f64 -> f64 := SFadd 53 1024.
Definition f64_mul : f64 -> f64 -> f64 := SFmul 53 1024.

(** An integer [as f64]. *)
Definition f64_of_Z (z : Z) : f64 := binary_normalize 53 1024 z 0 false.

(** A decimal literal: [m * 10 ^ - k], correctly rounded. *)
Definition f64_decimal (m : positive) (k : nat) : f64 :=
  let '(mz, ez, lz) := SFdiv_core_binary 53 1024 (Zpos m) 0 (10 ^ Z.of_nat k) 0 in
  binary_round_aux 53 1024 false mz ez lz.

(** [x as f32] and [f64::from(x)]. *)
Definition f64_to_f32 (x : f64) : f32 :=
  match x with
  | S754_finite s m e => binary_normalize 24 128 (cond_Zopp s (Zpos m)) e s
  | _ => x
  end.

Definition f32_to_f64 (x : f32) : f64 :=
  match x with
  | S754_finite s m e => binary_normalize 53 1024 (cond_Zopp s (Zpos m)) e s
  | _ => x
  end.

Definition f32_zero : f32 := S754_zero false.
Definition f32_one : f32 := S754_finite false 8388608 (-23).

Definition f64_zero : f64 := S754_zero false.
Definition f64_one : f64 := S754_finite false 4503599627370496 (-52).
Definition f64_0_999 : f64 := S754_finite false 8998192055486251 (-53).
Definition f64_0_01 : f64 := S754_finite false 5764607523034235 (-59).
Definition f64_0_001 : f64 := S754_finite false 4611686018427388 (-62).
Definition f32_max_as_f64 : f64 := S754_finite false 9007198717870080 75.

Definition f64_is_nan (x : f64) : bool := match x with S754_nan => true | _ => false end.

Definition f64_is_finite (x : f64) : bool :=
  match x with S754_nan | S754_infinity _ => false | _ => true end.

(** [x.clamp(lo, hi)]. *)
Definition f64_clamp (lo hi x : f64) : f64 :=
  let x := if SFltb x lo then lo else x in
  if SFltb hi x then hi else x.

(** [a.max(b)] / [a.min(b)]: a NaN yields the other operand. *)
Definition f64_max (a b : f64) : f64 :=
  if f64_is_nan b then a else if SFltb b a then a else b.
Definition f64_min (a b : f64) : f64 :=
  if f64_is_nan b then a else if SFltb a b then a else b.

(** [x.round() as i64]: half away from zero, then saturating; NaN is 0. *)
Definition f64_round_i64 (x : f64) : Z :=
  match x with
  | S754_zero _ | S754_nan => 0
  | S754_infinity s => if s then i64_min else i64_max
  | S754_finite s m e =>
      let r := if 0 <=? e then Zpos m * 2 ^ e else (2 * Zpos m + 2 ^ (- e)) / (2 * 2 ^ (- e)) in
      clamp i64_min i64_max (if s then - r else r)
  end.

Example decimal_0_999 : f64_decimal 999 3 = f64_0_999.
Proof. vm_compute. reflexivity. Qed.

Example decimal_0_01 : f64_decimal 1 2 = f64_0_01.
Proof. vm_compute. reflexivity. Qed.

Example decimal_0_001 : f64_decimal 1 3 = f64_0_001.
Proof. vm_compute. reflexivity. Qed.

(** ** Lemmas: the order on numbers *)

Lemma pos_cont_opp a b c :
  CompOpp (Pos.compare_cont c a b) = Pos.compare_cont (CompOpp c) b a.
Proof. apply Pos.compare_cont_antisym. Qed.

Lemma SFcompare_antisym x y :
  SFcompare y x = match SFcompare x y with Some c => Some (CompOpp c) | None => None end.
Proof.
  destruct x as [[]|[]| |[] m e], y as [[]|[]| |[] m' e']; cbn; try done;
    rewrite (Z.compare_antisym e e'); destruct (Z.compare e e'); cbn; try done;
    f_equal; by rewrite (pos_cont_opp m m' Eq).
Qed.

Lemma SFcompare_some x y :
  f64_is_nan x = false -> f64_is_nan y = false -> exists c, SFcompare x y = Some c.
Proof. destruct x as [[]|[]| |[] m e], y as [[]|[]| |[] m' e']; cbn; try done; eauto; case_match; eauto. Qed.

(** On numbers, not below is at least. *)
Lemma SFltb_false_leb x y :
  f64_is_nan x = false -> f64_is_nan y = false -> SFltb x y = false -> SFleb y x = true.
Proof.
  intros Hx Hy. unfold SFltb, SFleb. rewrite (SFcompare_antisym x y).
  destruct (SFcompare_some x y Hx Hy) as [c ->]. by destruct c.
Qed.

Lemma SFltb_true_leb x y : SFltb x y = true -> SFleb x y = true.
Proof. unfold SFltb, SFleb. by destruct (SFcompare x y) as [[]|]. Qed.

Lemma SFltb_asym x y : SFltb x y = true -> SFltb y x = false.
Proof. unfold SFltb. rewrite (SFcompare_antisym x y). by destruct (SFcompare x y) as [[]|]. Qed.

Lemma f64_clamp_bounds lo hi x :
  f64_is_nan lo = false -> f64_is_nan hi = false -> SFltb hi lo = false -> f64_is_nan x = false ->
  f64_is_nan (f64_clamp lo hi x) = false /\
  SFleb lo (f64_clamp lo hi x) = true /\ SFleb (f64_clamp lo hi x) hi = true.
Proof.
  intros Hlo Hhi Hord Hx. unfold f64_clamp.
  assert (Hrefl : forall y, f64_is_nan y = false -> SFleb y y = true).
  { intros y Hy. apply SFltb_false_leb; [done..|]. destruct (SFltb y y) eqn:E; [|done].
    by rewrite (SFltb_asym _ _ E) in E. }
  destruct (SFltb x lo) eqn:E1.
  - rewrite Hord. auto using SFltb_false_leb.
  - destruct (SFltb hi x) eqn:E2; auto using SFltb_false_leb.
Qed.

Lemma f64_clamp_idem lo hi x :
  f64_is_nan lo = false -> f64_is_nan hi = false -> SFltb hi lo = false -> f64_is_nan x = false ->
  f64_clamp lo hi (f64_clamp lo hi x) = f64_clamp lo hi x.
Proof.
  intros Hlo Hhi Hord Hx. destruct (f64_clamp_bounds lo hi x) as (_ & H1 & H2); try done.
  unfold f64_clamp at 1. set (y := f64_clamp lo hi x) in *.
  assert (E1 : SFltb y lo = false).
  { destruct (SFltb y lo) eqn:E; [|done]. unfold SFltb, SFleb in *.
    rewrite (SFcompare_antisym y lo) in H1. by destruct (SFcompare y lo) as [[]|]. }
  rewrite E1.
  assert (E2 : SFltb hi y = false).
  { destruct (SFltb hi y) eqn:E; [|done]. unfold SFltb, SFleb in *.
    rewrite (SFcompare_antisym hi y) in H2. by destruct (SFcompare hi y) as [[]|]. }
  by rewrite E2.
Qed.

(** ** Lemmas: numbers in order

    The order on numbers is the lexicographic one on this key. *)

Definition order_key (x : f64) : Z * Z * Z :=
  match x with
  | S754_infinity true => (-2, 0, 0)
  | S754_finite true m e => (-1, - e, - Zpos m)
  | S754_zero _ | S754_nan => (0, 0, 0)
  | S754_finite false m e => (1, e, Zpos m)
  | S754_infinity false => (2, 0, 0)
  end.

Definition key_compare (a b : Z * Z * Z) : comparison :=
  let '(a1, a2, a3) := a in
  let '(b1, b2, b3) := b in
  match a1 ?= b1 with
  | Eq => match a2 ?= b2 with Eq => a3 ?= b3 | c => c end
  | c => c
  end.

Lemma SFcompare_key x y : f64_is_nan x = false -> f64_is_nan y = false ->
  SFcompare x y = Some (key_compare (order_key x) (order_key y)).
Proof.
  destruct x as [[]|[]| |[] m e], y as [[]|[]| |[] m' e']; cbn; try done; intros _ _.
  rewrite Z.compare_opp, (Z.compare_antisym e e').
  by destruct (Z.compare e e').
Qed.

Lemma key_compare_lt_trans a b c : key_compare a b <> Gt -> key_compare b c <> Gt -> key_compare a c <> Gt.
Proof.
  destruct a as [[a1 a2] a3], b as [[b1 b2] b3], c as [[c1 c2] c3]. cbn.
  repeat case_match; intros; try congruence; rewrite ?Z.compare_eq_iff, ?Z.compare_lt_iff, ?Z.compare_gt_iff in *; subst; try lia.
Qed.

Lemma key_compare_total a b : key_compare a b <> Gt \/ key_compare b a <> Gt.
Proof.
  destruct a as [[a1 a2] a3], b as [[b1 b2] b3]. cbn.
  destruct (Z.compare_spec a1 b1), (Z.compare_spec b1 a1); try lia; try (by left); try (by right); subst.
  destruct (Z.compare_spec a2 b2), (Z.compare_spec b2 a2); try lia; try (by left); try (by right); subst.
  destruct (Z.compare_spec a3 b3), (Z.compare_spec b3 a3); try lia; try (by left); try (by right).
Qed.

(** At least: [!(a < b)] on numbers. *)
Definition f64_geb (a b : f64) : bool := match SFcompare b a with Some Gt => false | _ => true end.

Lemma f64_geb_key a b : f64_is_nan a = false -> f64_is_nan b = false ->
  f64_geb a b = true <-> key_compare (order_key b) (order_key a) <> Gt.
Proof.
  intros Ha Hb. unfold f64_geb. rewrite SFcompare_key by done. by destruct (key_compare _ _).
Qed.

Lemma f64_geb_total a b : f64_is_nan a = false -> f64_is_nan b = false -> f64_geb a b = true \/ f64_geb b a = true.
Proof. intros Ha Hb. rewrite !f64_geb_key by done. apply key_compare_total. Qed.

Lemma f64_geb_trans a b c : f64_is_nan a = false -> f64_is_nan b = false -> f64_is_nan c = false ->
  f64_geb a b = true -> f64_geb b c = true -> f64_geb a c = true.
Proof. intros Ha Hb Hc. rewrite !f64_geb_key by done. intros H1 H2. by eapply key_compare_lt_trans. Qed.

Lemma f64_geb_refl a : f64_geb a a = true.
Proof.
  destruct (f64_is_nan a) eqn:E; [by destruct a|]. by destruct (f64_geb_total a a E E).
Qed.
