(* ===== verification/JsonValue.v ===== *)
(** * JsonValue: JSON values as [serde_json] holds them

    A number is a non-negative integer, a negative integer or a double; an
    object is a map ordered by key (the crate's default), kept here as the
    sorted association list its iteration yields.  [from_value] is the
    crate's typed decoding at the types the settings use. *)

From S2P Require Import Prelude RustStr Floats.

Inductive number :=
| PosInt (n : N)
| NegInt (p : positive)
| Float (x : f64).

Inductive json :=
| JNull
| JBool (b : bool)
| JNumber (n : number)
| JString (s : string)
| JArray (l : list json)
| JObject (l : list (string * json)).

#[global] Instance number_eq_dec : EqDecision number.
Proof. solve_decision. Defined.

#[global] Instance json_eq_dec : EqDecision json.
Proof.
  unfold EqDecision, Decision. fix go 1. intros x y.
  destruct x as [|b|n|s|l|l], y as [|b'|n'|s'|l'|l']; try (right; discriminate).
  - by left.
  - destruct (decide (b = b')); [left; by subst|right; congruence].
  - destruct (decide (n = n')); [left; by subst|right; congruence].
  - destruct (decide (s = s')); [left; by subst|right; congruence].
  - assert (Hl : Decision (l = l')).
    { revert l'. induction l as [|a l IH]; intros [|a' l']; try (right; discriminate); [by left|].
      destruct (go a a'); [|right; congruence].
      destruct (IH l'); [left; by subst|right; congruence]. }
    destruct Hl; [left; by subst|right; congruence].
  - assert (Hl : Decision (l = l')).
    { revert l'. induction l as [|[k a] l IH]; intros [|[k' a'] l']; try (right; discriminate);
        [by left|].
      destruct (decide (k = k')); [|right; congruence].
      destruct (go a a'); [|right; congruence].
      destruct (IH l'); [left; by subst|right; congruence]. }
    destruct Hl; [left; by subst|right; congruence].
Defined.

(** [serde_json::json!(n)] on an integer and on an [f64]. *)
Definition json_int (z : Z) : json :=
  JNumber (match z with Z0 => PosInt 0 | Zpos p => PosInt (Npos p) | Zneg p => NegInt p end).

Definition json_f64 (x : f64) : json := if f64_is_finite x then JNumber (Float x) else JNull.

Definition as_str (v : json) : option string := match v with JString s => Some s | _ => None end.
Definition as_bool (v : json) : option bool := match v with JBool b => Some b | _ => None end.

Definition as_i64 (v : json) : option Z :=
  match v with
  | JNumber (PosInt n) => if Z.of_N n <=? i64_max then Some (Z.of_N n) else None
  | JNumber (NegInt p) => Some (Zneg p)
  | _ => None
  end.

Definition as_u64 (v : json) : option Z :=
  match v with JNumber (PosInt n) => Some (Z.of_N n) | _ => None end.

Definition as_f64 (v : json) : option f64 :=
  match v with
  | JNumber (PosInt n) => Some (f64_of_Z (Z.of_N n))
  | JNumber (NegInt p) => Some (f64_of_Z (Zneg p))
  | JNumber (Float x) => Some x
  | _ => None
  end.

Definition as_object (v : json) : option (list (string * json)) :=
  match v with JObject l => Some l | _ => None end.

Definition is_string (v : json) : bool := match v with JString _ => true | _ => false end.
Definition is_boolean (v : json) : bool := match v with JBool _ => true | _ => false end.
Definition is_number (v : json) : bool := match v with JNumber _ => true | _ => false end.
Definition is_null (v : json) : bool := match v with JNull => true | _ => false end.
Definition is_i64 (v : json) : bool := match as_i64 v with Some _ => true | None => false end.
Definition is_u64 (v : json) : bool := match as_u64 v with Some _ => true | None => false end.

(** [obj.get(key)]. *)
Fixpoint obj_get {A} (key : string) (l : list (string * A)) : option A :=
  match l with
  | [] => None
  | (k, v) :: l' => if String.eqb k key then Some v else obj_get key l'
  end.

(** [obj.insert(key, v)]. *)
Fixpoint obj_insert {A} (key : string) (v : A) (l : list (string * A)) : list (string * A) :=
  match l with
  | [] => [(key, v)]
  | (k, w) :: l' =>
      match String.compare key k with
      | Lt => (key, v) :: l
      | Eq => (key, v) :: l'
      | Gt => (k, w) :: obj_insert key v l'
      end
  end.

(** [json!({ .. })]. *)
Definition jobj (l : list (string * json)) : json := JObject (foldl (fun m e => obj_insert (fst e) (snd e) m) [] l).

(** ** Typed decoding *)

Inductive prim := TString | TBool | TF64 | TU64 | TU32 | TUsize | TI32.

Definition prim_ty (p : prim) : Type :=
  match p with TString => string | TBool => bool | TF64 => f64 | _ => Z end.

(** An integer visitor: every integer in the range, no float. *)
Definition int_from (lo hi : Z) (v : json) : option Z :=
  let z := match v with
           | JNumber (PosInt n) => Some (Z.of_N n)
           | JNumber (NegInt p) => Some (Zneg p)
           | _ => None
           end in
  match z with
  | Some z => if (lo <=? z) && (z <=? hi) then Some z else None
  | None => None
  end.

(** [serde_json::from_value::<T>(v).ok()]. *)
Definition from_value (p : prim) : json -> option (prim_ty p) :=
  match p with
  | TString => as_str
  | TBool => as_bool
  | TF64 => as_f64
  | TU64 | TUsize => int_from 0 u64_max
  | TU32 => int_from 0 u32_max
  | TI32 => int_from i32_min i32_max
  end.

(** The values the crate can hold: integers fit 64 bits. *)
Definition number_ok (n : number) : Prop :=
  match n with
  | PosInt n => Z.of_N n <= u64_max
  | NegInt p => i64_min <= Zneg p
  | Float x => f64_is_finite x = true
  end.

Definition value_ok (v : json) : Prop := match v with JNumber n => number_ok n | _ => True end.

(** ** Lemmas *)

Lemma json_int_Z z : as_u64 (json_int z) = if 0 <=? z then Some z else None.
Proof. by destruct z. Qed.

Lemma str_compare_refl k : String.compare k k = Eq.
Proof.
  pose proof (String.compare_antisym k k) as H. by destruct (String.compare k k).
Qed.

Lemma obj_get_insert {A} (l : list (string * A)) k k' v :
  obj_get k' (obj_insert k v l) = if String.eqb k k' then Some v else obj_get k' l.
Proof.
  induction l as [|[k0 w] l IH]; cbn; [by destruct (String.eqb k k')|].
  destruct (String.compare k k0) eqn:E; cbn.
  - apply String.compare_eq_iff in E as ->. by destruct (String.eqb k0 k').
  - done.
  - rewrite IH. destruct (String.eqb_spec k0 k') as [->|]; [|done].
    destruct (String.eqb_spec k k') as [->|]; [|done].
    by rewrite str_compare_refl in E.
Qed.
