(* ===== verification/SettingDefs.v ===== *)
(** * SettingDefs: the settings table's definitions

    [src/settings/defs.rs]: the keys, the policy row of every setting, and
    the pure functions over them: type and range checks, redaction, endpoint
    normalisation, environment overrides.  A row of [SETTING_DEFS] lists its
    policy flags in the order of [SettingPolicy]. *)

From S2P Require Import Prelude RustStr Floats JsonValue.

Definition EMBED_DEFAULT_MODEL : string := "nomic-embed-text".
Definition EMBED_DEFAULT_DIMENSION : Z := 768.
Definition EMBED_DEFAULT_HNSW_THRESHOLD : Z := 1000000.
Definition DEFAULT_MAX_BYTES : Z := 512 * 1024 * 1024 * 1024.
Definition ACCESS_MODE_OPEN : string := "open".
Definition ACCESS_MODE_PASSWORD : string := "password".

Inductive JsonType := TyStr | TyInt | TyNum | TyBool.

Record UrlPolicy := mkUrlPolicy {
  private_network_flag : option string;
  allow_loopback : bool
}.

#[global] Instance JsonType_eq_dec : EqDecision JsonType.
Proof. solve_decision. Defined.
#[global] Instance UrlPolicy_eq_dec : EqDecision UrlPolicy.
Proof. solve_decision. Defined.

Record SettingPolicy := mkPolicy {
  security_sensitive : bool;
  env_eligible : bool;
  secret : bool;
  topology : bool;
  api_immutable : bool;
  config_only : bool;
  url_policy : option UrlPolicy
}.

Record SettingDef := mkDef {
  d_key : string;
  d_default : json;
  d_type : JsonType;
  d_range : option (Z * Z);
  d_policy : SettingPolicy
}.

Definition KEY_GENERAL_ZIM_DIR : string := "general.zim_dir".
Definition KEY_GENERAL_HOST : string := "general.host".
Definition KEY_GENERAL_PORT : string := "general.port".
Definition KEY_GENERAL_LOG_LEVEL : string := "general.log_level".
Definition KEY_GENERAL_CORS_ORIGINS : string := "general.cors_origins".
Definition KEY_GENERAL_TRUSTED_PROXY_CIDRS : string := "general.trusted_proxy_cidrs".
Definition KEY_SEARCH_FTS_WEIGHT : string := "search.fts_weight".
Definition KEY_SEARCH_TRGM_WEIGHT : string := "search.trgm_weight".
Definition KEY_SEARCH_VECTOR_WEIGHT : string := "search.vector_weight".
Definition KEY_SEARCH_TRGM_THRESHOLD : string := "search.trgm_threshold".
Definition KEY_SEARCH_DEFAULT_LIMIT : string := "search.default_limit".
Definition KEY_SEARCH_MAX_LIMIT : string := "search.max_limit".
Definition KEY_DOWNLOADS_MAX_BYTES : string := "downloads.max_bytes".
Definition KEY_DOWNLOADS_ALLOW_PRIVATE_NETWORKS : string := "downloads.allow_private_networks".
Definition KEY_TORRENT_ENABLED : string := "torrent.enabled".
Definition KEY_TORRENT_URL : string := "torrent.url".
Definition KEY_TORRENT_USERNAME : string := "torrent.username".
Definition KEY_TORRENT_PASSWORD : string := "torrent.password".
Definition KEY_TORRENT_ALLOW_PRIVATE_NETWORKS : string := "torrent.allow_private_networks".
Definition KEY_TORRENT_SAVE_PATH : string := "torrent.save_path".
Definition KEY_TORRENT_CATEGORY : string := "torrent.category".
Definition KEY_TORRENT_MAX_ACTIVE : string := "torrent.max_active".
Definition KEY_TORRENT_POLL_SECS : string := "torrent.poll_secs".
Definition KEY_TORRENT_FILE_STRATEGY : string := "torrent.file_strategy".
Definition KEY_TORRENT_SEED_RATIO : string := "torrent.seed_ratio".
Definition KEY_TORRENT_KEEP_COMPLETED : string := "torrent.keep_completed".
Definition KEY_TORRENT_OPDS_URL : string := "torrent.opds_url".
Definition KEY_TORRENT_AUTO_UPDATE : string := "torrent.auto_update".
Definition KEY_EMBEDDING_ENABLED : string := "embedding.enabled".
Definition KEY_EMBEDDING_ENDPOINT : string := "embedding.endpoint".
Definition KEY_EMBEDDING_API_KEY : string := "embedding.api_key".
Definition KEY_EMBEDDING_MODEL : string := "embedding.model".
Definition KEY_EMBEDDING_DIMENSION : string := "embedding.dimension".
Definition KEY_EMBEDDING_BATCH_SIZE : string := "embedding.batch_size".
Definition KEY_EMBEDDING_MAX_CONCURRENCY : string := "embedding.max_concurrency".
Definition KEY_EMBEDDING_TIMEOUT_SECS : string := "embedding.timeout_secs".
Definition KEY_EMBEDDING_HNSW_THRESHOLD : string := "embedding.hnsw_threshold".
Definition KEY_ACCESS_MODE : string := "access.mode".
Definition KEY_ACCESS_RATE_LIMIT_RPS : string := "access.rate_limit_rps".
Definition KEY_ACCESS_RATE_LIMIT_BURST : string := "access.rate_limit_burst".
Definition KEY_ACCESS_ADMIN_PASSWORD : string := "access.admin_password".
Definition KEY_ACCESS_READ_ONLY_TOKEN : string := "access.read_only_token".
Definition KEY_ACCESS_REQUIRE_AUTH_FOR_READS : string := "access.require_auth_for_reads".

(** The table, in the source's order, in runs of rows. *)

Definition GENERAL_DEFS : list SettingDef := [
  mkDef KEY_GENERAL_ZIM_DIR (JString "/zims") TyStr None
    (mkPolicy false true false true false true None);
  mkDef KEY_GENERAL_HOST (JString "127.0.0.1") TyStr None
    (mkPolicy false true false false false true None);
  mkDef KEY_GENERAL_PORT (json_int 8899) TyInt None
    (mkPolicy false true false false false true None);
  mkDef KEY_GENERAL_LOG_LEVEL (JString "info") TyStr None
    (mkPolicy false false false false false true None);
  mkDef KEY_GENERAL_CORS_ORIGINS (JString EmptyString) TyStr None
    (mkPolicy false false false false false true None)].

Definition SEARCH_DEFS : list SettingDef := [
  mkDef KEY_SEARCH_FTS_WEIGHT (json_f64 (f64_decimal 6 1)) TyNum None
    (mkPolicy false false false false false false None);
  mkDef KEY_SEARCH_TRGM_WEIGHT (json_f64 (f64_decimal 4 1)) TyNum None
    (mkPolicy false false false false false false None);
  mkDef KEY_SEARCH_VECTOR_WEIGHT (json_f64 (f64_decimal 5 1)) TyNum None
    (mkPolicy false false false false false false None);
  mkDef KEY_SEARCH_TRGM_THRESHOLD (json_f64 (f64_decimal 3 1)) TyNum None
    (mkPolicy false false false false false false None);
  mkDef KEY_SEARCH_DEFAULT_LIMIT (json_int 10) TyInt None
    (mkPolicy false false false false false false None);
  mkDef KEY_SEARCH_MAX_LIMIT (json_int 50) TyInt None
    (mkPolicy false false false false false false None)].

Definition TORRENT_DEFS : list SettingDef := [
  mkDef KEY_DOWNLOADS_MAX_BYTES (json_int DEFAULT_MAX_BYTES) TyInt None
    (mkPolicy true false false false false false None);
  mkDef KEY_DOWNLOADS_ALLOW_PRIVATE_NETWORKS (JBool false) TyBool None
    (mkPolicy true false false false false false None);
  mkDef KEY_TORRENT_ENABLED (JBool false) TyBool None
    (mkPolicy false false false false false false None);
  mkDef KEY_TORRENT_URL (JString EmptyString) TyStr None
    (mkPolicy true true false true false false (Some (mkUrlPolicy (Some KEY_TORRENT_ALLOW_PRIVATE_NETWORKS) true)));
  mkDef KEY_TORRENT_USERNAME (JString EmptyString) TyStr None
    (mkPolicy true true false true false false None);
  mkDef KEY_TORRENT_PASSWORD (JString EmptyString) TyStr None
    (mkPolicy true true true false false false None)].

Definition SEEDING_DEFS : list SettingDef := [
  mkDef KEY_TORRENT_ALLOW_PRIVATE_NETWORKS (JBool false) TyBool None
    (mkPolicy true false false false false false None);
  mkDef KEY_TORRENT_SAVE_PATH (JString "/downloads") TyStr None
    (mkPolicy true false false false false false None);
  mkDef KEY_TORRENT_CATEGORY (JString "zimservice") TyStr None
    (mkPolicy false false false false false false None);
  mkDef KEY_TORRENT_MAX_ACTIVE (json_int 4) TyInt None
    (mkPolicy false false false false false false None);
  mkDef KEY_TORRENT_POLL_SECS (json_int 5) TyInt None
    (mkPolicy false false false false false false None);
  mkDef KEY_TORRENT_FILE_STRATEGY (JString "hardlink") TyStr None
    (mkPolicy false false false false false false None);
  mkDef KEY_TORRENT_SEED_RATIO (json_f64 (f64_of_Z 2)) TyNum None
    (mkPolicy false false false false false false None);
  mkDef KEY_TORRENT_KEEP_COMPLETED (JBool true) TyBool None
    (mkPolicy false false false false false false None);
  mkDef KEY_TORRENT_OPDS_URL (JString "https://opds.kiwix.com/opds_catalog") TyStr None
    (mkPolicy true false false false false false (Some (mkUrlPolicy (Some KEY_DOWNLOADS_ALLOW_PRIVATE_NETWORKS) true)));
  mkDef KEY_TORRENT_AUTO_UPDATE (JBool false) TyBool None
    (mkPolicy true false false false false false None)].

Definition EMBEDDING_DEFS : list SettingDef := [
  mkDef KEY_EMBEDDING_ENABLED (JBool false) TyBool None
    (mkPolicy true false false false false false None);
  mkDef KEY_EMBEDDING_ENDPOINT (JString "http://localhost:11434/v1") TyStr None
    (mkPolicy true true false true false false (Some (mkUrlPolicy (None) true)));
  mkDef KEY_EMBEDDING_API_KEY (JString EmptyString) TyStr None
    (mkPolicy true true true false false false None);
  mkDef KEY_EMBEDDING_MODEL (JString EMBED_DEFAULT_MODEL) TyStr None
    (mkPolicy true true false false false false None);
  mkDef KEY_EMBEDDING_DIMENSION (json_int EMBED_DEFAULT_DIMENSION) TyInt (Some (1, 16000))
    (mkPolicy true true false false false false None);
  mkDef KEY_EMBEDDING_BATCH_SIZE (json_int 64) TyInt (Some (1, 10000))
    (mkPolicy true false false false false false None);
  mkDef KEY_EMBEDDING_MAX_CONCURRENCY (json_int 4) TyInt (Some (1, 10000))
    (mkPolicy false false false false false false None);
  mkDef KEY_EMBEDDING_TIMEOUT_SECS (json_int 60) TyInt (Some (1, 3600))
    (mkPolicy true false false false false false None);
  mkDef KEY_EMBEDDING_HNSW_THRESHOLD (json_int EMBED_DEFAULT_HNSW_THRESHOLD) TyInt None
    (mkPolicy false false false false false false None)].

Definition ACCESS_DEFS : list SettingDef := [
  mkDef KEY_ACCESS_MODE (JString ACCESS_MODE_OPEN) TyStr None
    (mkPolicy false true false false true false None);
  mkDef KEY_ACCESS_RATE_LIMIT_RPS (json_int 100) TyInt None
    (mkPolicy true false false false false false None);
  mkDef KEY_ACCESS_RATE_LIMIT_BURST (json_int 200) TyInt None
    (mkPolicy true false false false false false None);
  mkDef KEY_ACCESS_ADMIN_PASSWORD (JString EmptyString) TyStr None
    (mkPolicy false true true false true false None);
  mkDef KEY_ACCESS_READ_ONLY_TOKEN (JString EmptyString) TyStr None
    (mkPolicy false true true false true false None);
  mkDef KEY_ACCESS_REQUIRE_AUTH_FOR_READS (JBool false) TyBool None
    (mkPolicy false true false false false false None);
  mkDef KEY_GENERAL_TRUSTED_PROXY_CIDRS (JString EmptyString) TyStr None
    (mkPolicy false false false false false true None)].

Definition SETTING_DEFS : list SettingDef :=
  GENERAL_DEFS ++ SEARCH_DEFS ++ TORRENT_DEFS ++ SEEDING_DEFS ++ EMBEDDING_DEFS ++ ACCESS_DEFS.

(** ** Lookups over the table *)

Definition def (key : string) : option SettingDef :=
  List.find (fun d => String.eqb (d_key d) key) SETTING_DEFS.

Definition require_reads_startup_default (host : string) : bool :=
  negb (String.eqb host "127.0.0.1" || String.eqb host "localhost" || String.eqb host "::1").

Definition known_keys : gset string := list_to_set (d_key <$> SETTING_DEFS).

Definition policy_flag (f : SettingPolicy -> bool) (key : string) : bool :=
  match def key with Some d => f (d_policy d) | None => false end.

Definition is_security_sensitive : string -> bool := policy_flag security_sensitive.

Definition default_settings : gmap string json :=
  foldl (fun m d => <[d_key d := d_default d]> m) ∅ SETTING_DEFS.

Definition default_value (key : string) : json := default JNull (default_settings !! key).

(** ** Redaction and normalisation *)

Definition is_secret_key : string -> bool := policy_flag secret.

(** [value.as_str().is_some_and(|s| !s.is_empty())]. *)
Definition nonempty_str (v : json) : bool :=
  match as_str v with Some s => negb (str_is_empty s) | None => false end.

Definition redact (key : string) (value : json) : json :=
  if is_secret_key key && nonempty_str value then JString "***" else value.

Definition EMBEDDINGS_SUFFIX : string := "/embeddings".

(** [v.get(n..)] is [None] off a character boundary; a tail equal to the ASCII
    suffix starts at one, so the comparison alone decides. *)
Definition normalize_embedding_endpoint (value : string) : string :=
  let n := String.length EMBEDDINGS_SUFFIX in
  let v := trim_end_matches "/"%char value in
  let k := (String.length v - n)%nat in
  let stripped := if eq_ignore_ascii_case (str_drop k v) EMBEDDINGS_SUFFIX then str_take k v else v in
  trim_end_matches "/"%char stripped.

(** ** Types and ranges *)

Definition value_type_name (v : json) : string :=
  match v with
  | JNull => "null"
  | JBool _ => "a boolean"
  | JNumber _ => "a number"
  | JString _ => "a string"
  | JArray _ => "an array"
  | JObject _ => "an object"
  end.

Definition has_json_type (t : JsonType) (v : json) : bool :=
  match t with
  | TyStr => is_string v
  | TyInt => is_i64 v || is_u64 v
  | TyNum => is_number v
  | TyBool => is_boolean v
  end.

Definition json_type_name (t : JsonType) : string :=
  match t with
  | TyStr => "a string"
  | TyInt => "an integer"
  | TyNum => "a number"
  | TyBool => "a boolean"
  end.

Definition in_range (range : Z * Z) (v : json) : bool :=
  match as_i64 v with Some n => (fst range <=? n) && (n <=? snd range) | None => false end.

Definition type_mismatch (key : string) (value : json) : option string :=
  match def key with
  | None => None
  | Some d =>
      if negb (has_json_type (d_type d) value)
      then Some (key +:+ ": expected " +:+ json_type_name (d_type d) +:+ ", got "
                 +:+ value_type_name value)
      else
        match d_range d with
        | Some r =>
            if in_range r value then None
            else Some (key +:+ ": out of range — must be in " +:+ pretty (fst r) +:+ "..="
                       +:+ pretty (snd r))
        | None => None
        end
  end.

(** ** The environment snapshot *)

(** [s.parse::<i64>()]: a sign, then digits, within the range. *)
Definition parse_i64 (s : string) : option Z :=
  match s with
  | String a s' =>
      if Ascii.eqb a "-"%char then
        match s' with
        | EmptyString => None
        | _ => Z.opp <$> parse_digits (- i64_min) 0 s'
        end
      else parse_unsigned i64_max s
  | EmptyString => None
  end.

(** The leading decimal digits: their value, their number, the rest. *)
Fixpoint scan_digits (acc : Z) (n : nat) (s : string) : Z * nat * string :=
  match s with
  | String a s' =>
      match digit a with
      | Some d => scan_digits (acc * 10 + d) (S n) s'
      | None => (acc, n, s)
      end
  | EmptyString => (acc, n, EmptyString)
  end.

(** An optional sign: whether it is a minus, and the rest. *)
Definition scan_sign (s : string) : bool * string :=
  match s with
  | String a s' =>
      if Ascii.eqb a "-"%char then (true, s')
      else if Ascii.eqb a "+"%char then (false, s') else (false, s)
  | EmptyString => (false, s)
  end.

(** The exponent part of a float literal, up to the end of the text. *)
Definition scan_exponent (s : string) : option Z :=
  match s with
  | EmptyString => Some 0
  | String a s' =>
      if Ascii.eqb a "e"%char || Ascii.eqb a "E"%char then
        let '(neg, s1) := scan_sign s' in
        match scan_digits 0 0 s1 with
        | (_, O, _) => None
        | (e, _, EmptyString) => Some (if neg then - e else e)
        | _ => None
        end
      else None
  end.

(** [(-1)^s * m * 10^e], correctly rounded. *)
Definition f64_of_decimal (s : bool) (m e : Z) : f64 :=
  match m with
  | Zpos p =>
      if 0 <=? e then binary_normalize 53 1024 (cond_Zopp s (m * 10 ^ e)) 0 s
      else
        let '(mz, ez, lz) := SFdiv_core_binary 53 1024 m 0 (10 ^ (- e)) 0 in
        binary_round_aux 53 1024 s mz ez lz
  | _ => S754_zero s
  end.

(** [s.parse::<f64>()]. *)
Definition parse_f64 (s : string) : option f64 :=
  let '(neg, s1) := scan_sign s in
  let word := to_ascii_lowercase s1 in
  if String.eqb word "inf" || String.eqb word "infinity" then Some (S754_infinity neg)
  else if String.eqb word "nan" then Some S754_nan
  else
    let '(m1, n1, s2) := scan_digits 0 0 s1 in
    let '(m2, n2, s3) :=
      match s2 with
      | String "."%char s2' => scan_digits m1 0 s2'
      | _ => (m1, O, s2)
      end in
    match (n1 + n2)%nat with
    | O => None
    | _ => (fun e => f64_of_decimal neg m2 (e - Z.of_nat n2)) <$> scan_exponent s3
    end.

Definition parse_snapshot_value (key raw : string) : option json :=
  match def key with
  | None => None
  | Some d =>
      match d_type d with
      | TyStr => Some (JString raw)
      | TyBool =>
          if eq_ignore_ascii_case raw "true" then Some (JBool true)
          else if eq_ignore_ascii_case raw "false" then Some (JBool false)
          else None
      | TyInt => json_int <$> parse_i64 raw
      | TyNum => json_f64 <$> parse_f64 raw
      end
  end.

Definition apply_env_snapshot `{HashIter string string} (map : gmap string json)
    (snapshot : gmap string string) : gmap string json :=
  fold_entries (fun key raw => if str_is_empty raw then None else parse_snapshot_value key raw)
    map snapshot.

(** ** Lemmas *)

Example parse_f64_examples :
  parse_f64 "0.3" = Some (f64_decimal 3 1) /\ parse_f64 "-2.5e1" = Some (f64_of_Z (-25)) /\
  parse_f64 "." = None /\ parse_f64 "1e" = None /\ parse_f64 "+Inf" = Some (S754_infinity false) /\
  parse_f64 ".5" = Some (f64_decimal 5 1) /\ parse_f64 "5." = Some (f64_of_Z 5) /\
  parse_f64 "1e400" = Some (S754_infinity false) /\ parse_f64 "1e-400" = Some (S754_zero false).
Proof. vm_compute. done. Qed.

Example normalize_examples :
  normalize_embedding_endpoint "http://h/v1/embeddings/" = "http://h/v1" /\
  normalize_embedding_endpoint "http://h/v1" = "http://h/v1" /\
  normalize_embedding_endpoint "http://h/v1/EMBEDDINGS" = "http://h/v1".
Proof. vm_compute. done. Qed.
