(* ===== verification/Config.v ===== *)
(** * Config: process configuration and the environment

    [src/config.rs]: the configuration record, its environment overrides, and
    the two tables derived from [ENV_SETTING_KEYS]: the settings keys the
    environment locks and the values a reload re-applies.  The environment is
    the injected getter of the source, a function from names to values.  The
    error type has a constructor [Config], so the record is
    [Configuration]. *)

From S2P Require Import Prelude RustStr Errors Floats JsonValue SettingDefs.

Record Configuration := mkConfig {
  zim_dir : string;
  database_url : string;
  read_database_url : option string;
  db_pool_size : Z;
  host : string;
  port : Z;
  log_level : string;
  torrent_url : option string;
  torrent_user : string;
  torrent_pass : string;
  allow_multi_db : bool;
  mcp_auth_password : option string;
  security_key : option string
}.

Definition config_default : Configuration :=
  mkConfig "/zims" "postgres://localhost:5432/zimservice" None 20 "127.0.0.1" 8899 "info"
    None EmptyString EmptyString false None None.

(** [impl Debug for Config]: the fields in order, three of them masked. *)
Definition config_debug_fields (c : Configuration) : list (string * string) :=
  let show (o : option string) := match o with Some s => "Some(" +:+ s +:+ ")" | None => "None" end in
  let mask (o : option string) := match o with Some _ => Some "***" | None => None end in
  [("zim_dir", zim_dir c); ("database_url", database_url c);
   ("read_database_url", show (read_database_url c)); ("db_pool_size", pretty (db_pool_size c));
   ("host", host c); ("port", pretty (port c)); ("log_level", log_level c);
   ("torrent_url", show (torrent_url c)); ("torrent_user", torrent_user c);
   ("torrent_pass", if str_is_empty (torrent_pass c) then EmptyString else "***");
   ("allow_multi_db", if allow_multi_db c then "true" else "false");
   ("mcp_auth_password", show (mask (mcp_auth_password c)));
   ("security_key", show (mask (security_key c)))].

Definition ENV_SETTING_KEYS : list (string * string * bool) := [
  (KEY_GENERAL_ZIM_DIR, "ZIM_DIR", false);
  (KEY_GENERAL_PORT, "PORT", false);
  (KEY_GENERAL_HOST, "HOST", false);
  (KEY_GENERAL_TRUSTED_PROXY_CIDRS, "TRUSTED_PROXY_CIDRS", true);
  (KEY_GENERAL_CORS_ORIGINS, "CORS_ORIGINS", true);
  ("database.url", "DATABASE_URL", false);
  (KEY_TORRENT_URL, "QBITTORRENT_URL", false);
  (KEY_TORRENT_USERNAME, "QBITTORRENT_USER", false);
  (KEY_TORRENT_PASSWORD, "QBITTORRENT_PASS", false);
  (KEY_EMBEDDING_ENDPOINT, "EMBEDDING_ENDPOINT", true);
  (KEY_EMBEDDING_API_KEY, "EMBEDDING_API_KEY", true);
  (KEY_EMBEDDING_MODEL, "EMBEDDING_MODEL", true);
  (KEY_EMBEDDING_DIMENSION, "EMBEDDING_DIM", true);
  (KEY_ACCESS_MODE, "ACCESS_MODE", true);
  (KEY_ACCESS_ADMIN_PASSWORD, "AUTH_PASSWORD", true);
  (KEY_ACCESS_READ_ONLY_TOKEN, "READ_ONLY_TOKEN", true);
  (KEY_ACCESS_REQUIRE_AUTH_FOR_READS, "REQUIRE_AUTH_FOR_READS", true)].

(** The digits of an unsigned number: the first bad character or overflow
    decides the error. *)
Fixpoint parse_digits_err (max acc : Z) (s : string) : result string Z :=
  match s with
  | EmptyString => Ok acc
  | String a s' =>
      match digit a with
      | Some d =>
          if acc * 10 + d <=? max then parse_digits_err max (acc * 10 + d) s'
          else Err "number too large to fit in target type"
      | None => Err "invalid digit found in string"
      end
  end.

(** [v.parse::<uN>()], with [ParseIntError]'s text. *)
Definition parse_uint (max : Z) (s : string) : result string Z :=
  match s with
  | EmptyString => Err "cannot parse integer from empty string"
  | String a s' =>
      if Ascii.eqb a "+"%char then
        match s' with
        | EmptyString => Err "invalid digit found in string"
        | _ => parse_digits_err max 0 s'
        end
      else parse_digits_err max 0 s
  end.

Definition u16_max : Z := 65535.

(** A numeric variable: unset keeps the value, set must parse. *)
Definition env_uint (max : Z) (name : string) (v : option string) (old : Z) : Result Z :=
  match v with
  | None => Ok old
  | Some v =>
      match parse_uint max v with
      | Ok n => Ok n
      | Err e => Err (Config (name +:+ ": " +:+ e))
      end
  end.

Definition env_or (v : option string) (old : string) : string := default old v.
Definition env_some (v : option string) (old : option string) : option string :=
  match v with Some v => Some v | None => old end.

Definition non_empty (v : option string) : option string :=
  match v with
  | Some s => if str_is_empty s then None else Some s
  | None => None
  end.

Definition apply_env (get : string -> option string) (c : Configuration) : Result Configuration :=
  let? pool := env_uint u32_max "DB_POOL_SIZE" (get "DB_POOL_SIZE") (db_pool_size c) in
  let? port' := env_uint u16_max "PORT" (get "PORT") (port c) in
  Ok (mkConfig
    (env_or (get "ZIM_DIR") (zim_dir c))
    (env_or (get "DATABASE_URL") (database_url c))
    (env_some (get "DATABASE_URL_READ") (read_database_url c))
    pool
    (env_or (get "HOST") (host c))
    port'
    (env_or (get "LOG_LEVEL") (log_level c))
    (env_some (get "QBITTORRENT_URL") (torrent_url c))
    (env_or (get "QBITTORRENT_USER") (torrent_user c))
    (env_or (get "QBITTORRENT_PASS") (torrent_pass c))
    (match get "ZIMSERVICE_ALLOW_MULTI_DB" with Some v => String.eqb v "1" | None => false end)
    (env_some (get "MCP_AUTH_PASSWORD") (mcp_auth_password c))
    (env_some (non_empty (get "SECURITY_KEY")) (security_key c))).

Definition load_config (get : string -> option string) : Result Configuration :=
  apply_env get config_default.

Definition locked_env_settings (get : string -> option string) : gmap string string :=
  foldl (fun locked '(key, var, _) =>
      match non_empty (get var) with Some _ => <[key := var]> locked | None => locked end)
    ∅ ENV_SETTING_KEYS.

Definition env_settings_snapshot (get : string -> option string) : gmap string string :=
  foldl (fun snap '(key, var, in_snapshot) =>
      if in_snapshot : bool then
        match non_empty (get var) with Some v => <[key := v]> snap | None => snap end
      else snap)
    ∅ ENV_SETTING_KEYS.

Definition apply_require_reads_default (c : Configuration) (snapshot : gmap string string) :
    gmap string string :=
  match snapshot !! KEY_ACCESS_REQUIRE_AUTH_FOR_READS with
  | None =>
      if require_reads_startup_default (host c)
      then <[KEY_ACCESS_REQUIRE_AUTH_FOR_READS := "true"]> snapshot
      else snapshot
  | Some _ => snapshot
  end.

Definition sync_config_values (c : Configuration) (map : gmap string json) : gmap string json :=
  <[KEY_GENERAL_LOG_LEVEL := JString (log_level c)]>
  (<[KEY_GENERAL_PORT := json_int (port c)]>
  (<[KEY_GENERAL_HOST := JString (host c)]>
  (<[KEY_GENERAL_ZIM_DIR := JString (zim_dir c)]> map))).

(** ** Lemmas *)

Lemma non_empty_Some v s : non_empty v = Some s <-> v = Some s /\ s <> EmptyString.
Proof.
  destruct v as [v|]; cbn; [|naive_solver]. destruct v as [|a v]; cbn; [naive_solver|].
  split; [intros [= <-]; done|naive_solver].
Qed.

(** The two derived tables, as lookups: [ENV_SETTING_KEYS] has no key twice. *)
Lemma env_fold_lookup (f : string -> bool -> option string) l k :
  NoDup ((fun e => fst (fst e)) <$> l) ->
  forall m : gmap string string,
  foldl (fun m '(key, var, b) => match f var b with Some v => <[key := v]> m | None => m end) m l !! k
  = match List.find (fun e => String.eqb (fst (fst e)) k) l with
    | Some (_, var, b) => match f var b with Some v => Some v | None => m !! k end
    | None => m !! k
    end.
Proof.
  induction l as [|[[k0 v0] b0] l IH]; cbn; [done|]. intros [Hn Hnd]%NoDup_cons m.
  rewrite IH by done. destruct (String.eqb_spec k0 k) as [->|Hne].
  - destruct (List.find _ l) as [[[k1 v1] b1]|] eqn:Ef.
    + apply List.find_some in Ef as [Hin Heq]. cbn in Heq. apply String.eqb_eq in Heq as ->.
      destruct Hn. apply list_elem_of_fmap. exists (k, v1, b1).
      split; [done|]. by apply list_elem_of_In.
    + destruct (f v0 b0); [by rewrite lookup_insert_eq|done].
  - assert (Hm : (match f v0 b0 with Some v => <[k0 := v]> m | None => m end) !! k = m !! k).
    { destruct (f v0 b0); [by rewrite lookup_insert_ne|done]. }
    by rewrite Hm.
Qed.

Lemma env_keys_nodup : NoDup ((fun e => fst (fst e)) <$> ENV_SETTING_KEYS).
Proof. apply (bool_decide_unpack _). vm_compute. done. Qed.

Definition env_entry (k : string) : option (string * bool) :=
  (fun e => (snd (fst e), snd e)) <$> List.find (fun e => String.eqb (fst (fst e)) k) ENV_SETTING_KEYS.

Lemma env_table_lookup (f : string -> bool -> option string) k :
  foldl (fun (m : gmap string string) '(key, var, b) =>
      match f var b with Some v => <[key := v]> m | None => m end) ∅ ENV_SETTING_KEYS !! k =
  env_entry k ≫= (fun e => f (fst e) (snd e)).
Proof.
  rewrite env_fold_lookup by apply env_keys_nodup. unfold env_entry.
  destruct (List.find _ _) as [[[k1 v1] b1]|]; cbn; rewrite lookup_empty; [|done].
  by destruct (f v1 b1).
Qed.

Lemma locked_lookup get k :
  locked_env_settings get !! k =
  env_entry k ≫= (fun e => non_empty (get (fst e)) ≫= fun _ => Some (fst e)).
Proof.
  rewrite <- (env_table_lookup (fun var _ => non_empty (get var) ≫= fun _ => Some var)).
  unfold locked_env_settings. f_equal. apply foldl_ext. intros m [[k0 v0] b0].
  by destruct (non_empty _).
Qed.

Lemma snapshot_lookup get k :
  env_settings_snapshot get !! k =
  env_entry k ≫= (fun e : string * bool => if snd e then non_empty (get (fst e)) else None).
Proof.
  rewrite <- (env_table_lookup (fun (var : string) (b : bool) => if b then non_empty (get var) else None)).
  done.
Qed.

(** A snapshot value is non-empty and its key is locked; the bind-based default
    is the only entry without a lock. *)
Lemma snapshot_locked get c k v :
  apply_require_reads_default c (env_settings_snapshot get) !! k = Some v ->
  v <> EmptyString /\
  ((exists var, locked_env_settings get !! k = Some var /\ get var = Some v) \/
   (k = KEY_ACCESS_REQUIRE_AUTH_FOR_READS /\ v = "true" /\
    require_reads_startup_default (host c) = true)).
Proof.
  assert (Hs : env_settings_snapshot get !! k = Some v ->
    v <> EmptyString /\ exists var, locked_env_settings get !! k = Some var /\ get var = Some v).
  { rewrite snapshot_lookup, locked_lookup. destruct (env_entry k) as [[var b]|]; cbn; [|done].
    destruct b; [|done]. intros Hv. rewrite Hv. cbn. apply non_empty_Some in Hv as [? ?]. eauto. }
  unfold apply_require_reads_default. destruct (env_settings_snapshot get !! KEY_ACCESS_REQUIRE_AUTH_FOR_READS) eqn:E.
  - intros [? ?]%Hs. auto.
  - destruct (require_reads_startup_default (host c)) eqn:Eh; [|intros [? ?]%Hs; auto].
    destruct (decide (k = KEY_ACCESS_REQUIRE_AUTH_FOR_READS)) as [->|Hne].
    + rewrite lookup_insert_eq. intros [= <-]. auto.
    + rewrite lookup_insert_ne by done. intros [? ?]%Hs. auto.
Qed.

(** Every settings key of the table has a policy row that fixes it to the
    environment, by the lock flag or as configuration only. *)
Lemma env_keys_fixed :
  Forall (fun e => fst (fst e) = "database.url" \/
    policy_flag env_eligible (fst (fst e)) || policy_flag config_only (fst (fst e)) = true)
    ENV_SETTING_KEYS.
Proof. apply (bool_decide_unpack _). vm_compute. done. Qed.

Lemma parse_digits_err_ok max acc s :
  match parse_digits_err max acc s with Ok n => Some n | Err _ => None end = parse_digits max acc s.
Proof.
  revert acc. induction s as [|a s IH]; intros acc; cbn; [done|].
  destruct (digit a); [|done]. destruct (_ <=? max); [apply IH|done].
Qed.

(** ** Properties *)

(** The masked rendering never depends on a secret: configurations that differ
    only in secret texts (each empty or absent in both or in neither) print
    the same. *)
Theorem config_debug_hides_secrets c pass mcp key :
  str_is_empty pass = str_is_empty (torrent_pass c) ->
  is_Some mcp <-> is_Some (mcp_auth_password c) ->
  is_Some key <-> is_Some (security_key c) ->
  config_debug_fields (mkConfig (zim_dir c) (database_url c) (read_database_url c) (db_pool_size c)
    (host c) (port c) (log_level c) (torrent_url c) (torrent_user c) pass (allow_multi_db c) mcp key)
  = config_debug_fields c.
Proof.
  intros Hp Hm Hk.
  assert (Hmask : forall a b : option string, (is_Some a <-> is_Some b) ->
    match a with Some _ => Some "***" | None => None end = match b with Some _ => Some "***" | None => None end).
  { intros [a|] [b|] [H1 H2]; [reflexivity| | |reflexivity].
    - destruct (H1 (mk_is_Some _ _ eq_refl)) as [? [=]].
    - destruct (H2 (mk_is_Some _ _ eq_refl)) as [? [=]]. }
  unfold config_debug_fields. cbn [zim_dir database_url read_database_url db_pool_size host port log_level
    torrent_url torrent_user torrent_pass allow_multi_db mcp_auth_password security_key].
  rewrite Hp, (Hmask _ _ Hm), (Hmask _ _ Hk). reflexivity.
Qed.
