(* ===== verification/IpAddr.v ===== *)
(** * IpAddr: the standard library's IP addresses

    [std::net::IpAddr]: the two families, the classification predicates the
    source calls and the [FromStr] parser (dotted quad without leading
    zeros; IPv6 groups with at most one [::] and an optional embedded
    quad). *)

From S2P Require Import Prelude RustStr.

Inductive IpAddr :=
| V4 (a b c d : Z)
| V6 (s0 s1 s2 s3 s4 s5 s6 s7 : Z).

#[global] Instance IpAddr_eq_dec : EqDecision IpAddr.
Proof. solve_decision. Defined.

#[global] Instance IpAddr_countable : Countable IpAddr.
Proof.
  refine (inj_countable'
    (fun ip => match ip with
               | V4 a b c d => inl (a, b, c, d)
               | V6 a b c d e f g h => inr (a, b, c, d, (e, f, g, h))
               end)
    (fun x => match x with
              | inl (a, b, c, d) => V4 a b c d
              | inr (a, b, c, d, (e, f, g, h)) => V6 a b c d e f g h
              end) _).
  by intros [].
Defined.

Definition octet (z : Z) : Prop := 0 <= z <= 255.
Definition segment (z : Z) : Prop := 0 <= z <= 65535.

Definition ip_wf (ip : IpAddr) : Prop :=
  match ip with
  | V4 a b c d => octet a /\ octet b /\ octet c /\ octet d
  | V6 a b c d e f g h =>
      segment a /\ segment b /\ segment c /\ segment d /\
      segment e /\ segment f /\ segment g /\ segment h
  end.

(** The address as a number, and its width. *)
Definition v4_num (a b c d : Z) : Z := ((a * 256 + b) * 256 + c) * 256 + d.
Definition v6_num (a b c d e f g h : Z) : Z :=
  ((((((a * 65536 + b) * 65536 + c) * 65536 + d) * 65536 + e) * 65536 + f) * 65536 + g) * 65536 + h.

(** ** Classification ([Ipv4Addr]/[Ipv6Addr] methods) *)

Definition v4_is_link_local (a b c d : Z) : bool := (a =? 169) && (b =? 254).
Definition v4_is_unspecified (a b c d : Z) : bool :=
  (a =? 0) && (b =? 0) && (c =? 0) && (d =? 0).
Definition v4_is_loopback (a b c d : Z) : bool := a =? 127.
Definition v4_is_private (a b c d : Z) : bool :=
  (a =? 10) || ((a =? 172) && (16 <=? b) && (b <=? 31)) || ((a =? 192) && (b =? 168)).

Definition v6_is_unspecified (a b c d e f g h : Z) : bool :=
  v6_num a b c d e f g h =? 0.
Definition v6_is_loopback (a b c d e f g h : Z) : bool :=
  v6_num a b c d e f g h =? 1.

(** [Ipv6Addr::to_ipv4]: the IPv4-mapped and IPv4-compatible blocks. *)
Definition to_ipv4 (a b c d e f g h : Z) : option (Z * Z * Z * Z) :=
  if (a =? 0) && (b =? 0) && (c =? 0) && (d =? 0) && (e =? 0) && ((f =? 0) || (f =? 65535))
  then Some (g / 256, g mod 256, h / 256, h mod 256)
  else None.

(** ** Parsing

    A reader takes the remaining text and returns a value and the rest; it
    consumes nothing when it fails. *)

Definition reader (A : Type) : Type := string -> option (A * string).

Definition hex_digit (a : ascii) : option Z :=
  let z := byte a in
  if (48 <=? z) && (z <=? 57) then Some (z - 48)
  else if (97 <=? z) && (z <=? 102) then Some (z - 87)
  else if (65 <=? z) && (z <=? 70) then Some (z - 55)
  else None.

Definition radix_digit (radix : Z) (a : ascii) : option Z :=
  match hex_digit a with
  | Some d => if d <? radix then Some d else None
  | None => None
  end.

(** The digits at the front of the text (value, count, rest); fails on
    overflow of [max] or on more than [maxd] digits. *)
Fixpoint read_digits (radix max maxd acc n : Z) (s : string) : option (Z * Z * string) :=
  match s with
  | EmptyString => Some (acc, n, EmptyString)
  | String a s' =>
      match radix_digit radix a with
      | None => Some (acc, n, s)
      | Some d =>
          if (acc * radix + d <=? max) && (n + 1 <=? maxd)
          then read_digits radix max maxd (acc * radix + d) (n + 1) s'
          else None
      end
  end.

Definition read_number (radix max maxd : Z) (allow_zero_prefix : bool) : reader Z := fun s =>
  let has_leading_zero := starts_with "0" s in
  match read_digits radix max maxd 0 0 s with
  | Some (v, n, rest) =>
      if n =? 0 then None
      else if negb allow_zero_prefix && has_leading_zero && (1 <? n) then None
      else Some (v, rest)
  | None => None
  end.

Definition read_char (c : ascii) : reader unit := fun s =>
  match s with
  | String a s' => if Ascii.eqb a c then Some (tt, s') else None
  | EmptyString => None
  end.

(** [read_separator(sep, i, inner)]: the separator before every item but the
    first. *)
Definition read_separated {A} (sep : ascii) (i : nat) (inner : reader A) : reader A := fun s =>
  match i with
  | O => inner s
  | S _ =>
      match read_char sep s with
      | Some (_, s') => inner s'
      | None => None
      end
  end.

Definition read_octet (i : nat) : reader Z :=
  read_separated "."%char i (read_number 10 255 3 false).

Definition read_ipv4 : reader (Z * Z * Z * Z) := fun s =>
  match read_octet 0 s with
  | Some (a, s1) =>
      match read_octet 1 s1 with
      | Some (b, s2) =>
          match read_octet 2 s2 with
          | Some (c, s3) =>
              match read_octet 3 s3 with
              | Some (d, s4) => Some ((a, b, c, d), s4)
              | None => None
              end
          | None => None
          end
      | None => None
      end
  | None => None
  end.

(** [read_groups]: up to [limit] groups; also whether the last two came from
    an embedded IPv4 address. *)
Fixpoint read_groups (left i limit : nat) (s : string) : list Z * bool * string :=
  match left with
  | O => ([], false, s)
  | S left' =>
      let v4 := if (i <? limit - 1)%nat then read_separated ":"%char i read_ipv4 s else None in
      match v4 with
      | Some ((a, b, c, d), s') => ([a * 256 + b; c * 256 + d], true, s')
      | None =>
          match read_separated ":"%char i (read_number 16 65535 4 true) s with
          | Some (g, s') =>
              let '(gs, is4, s'') := read_groups left' (S i) limit s' in
              (g :: gs, is4, s'')
          | None => ([], false, s)
          end
      end
  end.

Definition v6_of_groups (gs : list Z) : option IpAddr :=
  match gs with
  | [a; b; c; d; e; f; g; h] => Some (V6 a b c d e f g h)
  | _ => None
  end.

Definition read_ipv6 : reader IpAddr := fun s =>
  let '(head, head_ipv4, s1) := read_groups 8 0 8 s in
  if (length head =? 8)%nat then
    (fun ip => (ip, s1)) <$> v6_of_groups head
  else if head_ipv4 then None
  else
    match read_char ":"%char s1 with
    | None => None
    | Some (_, s2) =>
        match read_char ":"%char s2 with
        | None => None
        | Some (_, s3) =>
            let limit := (8 - (length head + 1))%nat in
            let '(tail, _, s4) := read_groups limit 0 limit s3 in
            let zeros := replicate (8 - length head - length tail) 0 in
            (fun ip => (ip, s4)) <$> v6_of_groups (head ++ zeros ++ tail)
        end
    end.

(** [s.parse::<IpAddr>()]. *)
Definition parse_ip (s : string) : option IpAddr :=
  let r :=
    match read_ipv4 s with
    | Some ((a, b, c, d), rest) => Some (V4 a b c d, rest)
    | None => read_ipv6 s
    end in
  match r with
  | Some (ip, EmptyString) => Some ip
  | _ => None
  end.

(** ** Printing ([Display]) *)

Definition hex_char (d : Z) : ascii := if d <? 10 then chr (48 + d) else chr (87 + d).

(** Lower-case hexadecimal of a segment, without leading zeros. *)
Fixpoint hex_onto (fuel : nat) (z : Z) (acc : string) : string :=
  match fuel with
  | O => acc
  | S fuel' =>
      let acc' := String (hex_char (z mod 16)) acc in
      if z <? 16 then acc' else hex_onto fuel' (z / 16) acc'
  end.

Definition seg_display (z : Z) : string := hex_onto 4 z EmptyString.

Definition v4_display (a b c d : Z) : string :=
  pretty a +:+ "." +:+ pretty b +:+ "." +:+ pretty c +:+ "." +:+ pretty d.

(** The first longest run of zero segments: start and length. *)
Fixpoint zero_runs (i : nat) (cur : nat * nat) (best : nat * nat) (gs : list Z) : nat * nat :=
  match gs with
  | [] => best
  | g :: gs' =>
      if g =? 0 then
        let cur' := (if (snd cur =? 0)%nat then i else fst cur, S (snd cur)) in
        zero_runs (S i) cur' (if (snd best <? snd cur')%nat then cur' else best) gs'
      else zero_runs (S i) (0%nat, 0%nat) best gs'
  end.

Definition v6_display (gs : list Z) : string :=
  match gs with
  | [0; 0; 0; 0; 0; 65535; g; h] =>
      "::ffff:" +:+ v4_display (g / 256) (g mod 256) (h / 256) (h mod 256)
  | _ =>
      let '(start, len) := zero_runs 0 (0%nat, 0%nat) (0%nat, 0%nat) gs in
      if (1 <? len)%nat then
        str_join ":" (seg_display <$> take start gs) +:+ "::"
        +:+ str_join ":" (seg_display <$> drop (start + len) gs)
      else str_join ":" (seg_display <$> gs)
  end.

Definition ip_display (ip : IpAddr) : string :=
  match ip with
  | V4 a b c d => v4_display a b c d
  | V6 a b c d e f g h => v6_display [a; b; c; d; e; f; g; h]
  end.

(** ** Lemmas *)

Lemma read_digits_bound radix max maxd s : forall acc n v m rest,
  0 <= acc <= max -> 0 <= radix ->
  read_digits radix max maxd acc n s = Some (v, m, rest) -> 0 <= v <= max.
Proof.
  induction s as [|a s IH]; intros acc n v m rest Hacc Hr; cbn; [by intros [= <- <- <-]|].
  destruct (radix_digit radix a) as [d|] eqn:Ed; [|by intros [= <- <- <-]].
  destruct (_ && _) eqn:E; [|done]. apply andb_true_iff in E as [?%Z.leb_le _].
  intros Hread. eapply IH; [|done|apply Hread].
  assert (0 <= d); [|nia].
  unfold radix_digit, hex_digit in Ed. pose proof (byte_range a).
  repeat case_match; simplify_eq; lia.
Qed.

Lemma read_number_bound radix max maxd z s v rest :
  0 <= max -> 0 <= radix ->
  read_number radix max maxd z s = Some (v, rest) -> 0 <= v <= max.
Proof.
  intros Hm Hr. unfold read_number.
  destruct (read_digits radix max maxd 0 0 s) as [[[v' n] rest']|] eqn:E; [|done].
  apply read_digits_bound in E; [|lia|done]. repeat case_match; intros; simplify_eq; done.
Qed.

Lemma read_separated_inv {A} sep i (inner : reader A) s v rest :
  read_separated sep i inner s = Some (v, rest) -> exists s', inner s' = Some (v, rest).
Proof. unfold read_separated. repeat case_match; eauto; done. Qed.

Lemma read_octet_wf i s v rest : read_octet i s = Some (v, rest) -> octet v.
Proof. by intros [? ?%read_number_bound]%read_separated_inv. Qed.

Lemma read_ipv4_wf s a b c d rest :
  read_ipv4 s = Some ((a, b, c, d), rest) -> octet a /\ octet b /\ octet c /\ octet d.
Proof.
  unfold read_ipv4. intros H. repeat case_match; simplify_eq.
  split_and!; eauto using read_octet_wf.
Qed.

Lemma read_groups_wf left : forall i limit s gs is4 rest,
  read_groups left i limit s = (gs, is4, rest) -> Forall segment gs.
Proof.
  induction left as [|left IH]; intros i limit s gs is4 rest; cbn [read_groups];
    [by intros [= <- <- <-]|].
  destruct (if (i <? limit - 1)%nat then _ else _) as [[[[[a b] c] d] s']|] eqn:E4.
  - destruct (i <? limit - 1)%nat; [|done].
    apply read_separated_inv in E4 as [? (?&?&?&?)%read_ipv4_wf].
    intros [= <- <- <-]. unfold octet, segment in *. repeat constructor; lia.
  - clear E4. destruct (read_separated _ i (read_number _ _ _ _) s) as [[g s']|] eqn:Eg;
      [|by intros; simplify_eq].
    apply read_separated_inv in Eg as [? ?%read_number_bound]; [|lia|lia].
    destruct (read_groups left (S i) limit s') as [[gs' is4'] s''] eqn:Er.
    intros [= <- <- <-]. constructor; [unfold segment; lia|]. by eapply IH.
Qed.

Lemma v6_of_groups_wf gs ip : Forall segment gs -> v6_of_groups gs = Some ip -> ip_wf ip.
Proof.
  intros Hf. unfold v6_of_groups. repeat case_match; intros ?; simplify_eq.
  repeat match goal with H : Forall _ (_ :: _) |- _ => apply Forall_cons in H as [? H] end.
  cbn. tauto.
Qed.

(** The parser only returns addresses whose parts are in range. *)
Lemma parse_ip_wf s ip : parse_ip s = Some ip -> ip_wf ip.
Proof.
  unfold parse_ip. destruct (read_ipv4 s) as [[[[[a b] c] d] rest]|] eqn:E4.
  - apply read_ipv4_wf in E4. destruct rest; [by intros [= <-]|done].
  - unfold read_ipv6. destruct (read_groups 8 0 8 s) as [[head h4] s1] eqn:Eh.
    apply read_groups_wf in Eh.
    destruct (length head =? 8)%nat.
    { destruct (v6_of_groups head) as [ip'|] eqn:E; [|done]. cbn.
      destruct s1; [|done]. intros [= <-]. by eapply v6_of_groups_wf. }
    destruct h4; [done|].
    destruct (read_char _ s1) as [[? s2]|]; [|done].
    destruct (read_char _ s2) as [[? s3]|]; [|done].
    destruct (read_groups _ 0 _ s3) as [[tail t4] s4] eqn:Et. apply read_groups_wf in Et.
    destruct (v6_of_groups _) as [ip'|] eqn:E; [|done]. cbn. destruct s4; [|done].
    intros [= <-]. eapply v6_of_groups_wf; [|done].
    rewrite !Forall_app. split_and!; [done| |done].
    apply Forall_replicate. unfold segment. lia.
Qed.

#[export] Hint Resolve parse_ip_wf : zims.

Example parse_v4 : parse_ip "169.254.169.254" = Some (V4 169 254 169 254).
Proof. reflexivity. Qed.
Example parse_v4_leading_zero : parse_ip "10.0.0.01" = None.
Proof. reflexivity. Qed.
Example parse_v6_loopback : parse_ip "::1" = Some (V6 0 0 0 0 0 0 0 1).
Proof. reflexivity. Qed.
Example parse_v6_mapped : parse_ip "::ffff:169.254.169.254" = Some (V6 0 0 0 0 0 65535 43518 43518).
Proof. reflexivity. Qed.
Example parse_v6_full : parse_ip "fe80:0:0:0:1:2:3:4" = Some (V6 65152 0 0 0 1 2 3 4).
Proof. reflexivity. Qed.
Example parse_v6_double_gap : parse_ip "1::2::3" = None.
Proof. reflexivity. Qed.
Example display_v6 : ip_display (V6 65152 0 0 0 0 0 0 10) = "fe80::a".
Proof. reflexivity. Qed.
Example display_v6_mapped : ip_display (V6 0 0 0 0 0 65535 43518 43518) = "::ffff:169.254.169.254".
Proof. reflexivity. Qed.
Example display_v6_unspecified : ip_display (V6 0 0 0 0 0 0 0 0) = "::".
Proof. reflexivity. Qed.
