(* ===== verification/NetGuard.v ===== *)
(** * NetGuard: the SSRF guards for outbound HTTP ([src/src/netguard.rs])

    Address classification, host and URL checks, per-hop resolution and
    pinning, and the manual redirect chain.  The [url] crate and the HTTP
    client are interfaces: [UrlApi] is what the guards read of a parsed URL,
    [Network] is what a fetch meets at each hop (the live
    [allow_private] provider, the resolver's answer at that moment, the
    client builder and the server's reply). *)

From S2P Require Import Prelude RustStr Errors IpAddr.

(** ** Addresses *)

Definition is_blocked_v4 (a b c d : Z) (allow_private allow_loopback : bool) : bool :=
  if v4_is_link_local a b c d || v4_is_unspecified a b c d then true
  else if v4_is_loopback a b c d then negb allow_loopback
  else if ((a =? 192) && (b =? 0) && (c =? 2)) || ((a =? 198) && (b =? 51) && (c =? 100))
       || ((a =? 203) && (b =? 0) && (c =? 113)) then true
  else
    let is_cgnat := (a =? 100) && (Z.land b 0xC0 =? 64) in
    negb allow_private && (v4_is_private a b c d || is_cgnat).

Definition is_blocked_ip (ip : IpAddr) (allow_private allow_loopback : bool) : bool :=
  match ip with
  | V4 a b c d => is_blocked_v4 a b c d allow_private allow_loopback
  | V6 s0 s1 s2 s3 s4 s5 s6 s7 =>
      if v6_is_unspecified s0 s1 s2 s3 s4 s5 s6 s7 then true
      else if v6_is_loopback s0 s1 s2 s3 s4 s5 s6 s7 then negb allow_loopback
      else
        match to_ipv4 s0 s1 s2 s3 s4 s5 s6 s7 with
        | Some (a, b, c, d) => is_blocked_v4 a b c d allow_private allow_loopback
        | None =>
            if Z.land s0 0xffc0 =? 0xfe80 then true
            else if ((s0 =? 0x0064) && (s1 =? 0xff9b) && (s2 =? 0) && (s3 =? 0))
                 || ((s0 =? 0x2001) && (s1 =? 0x0db8)) then true
            else negb allow_private && (Z.land s0 0xfe00 =? 0xfc00)
        end
  end.

(** ** URLs *)

(** What the guards use of the [url] crate.  The law is the crate's
    documented round trip: a URL's serialization parses back to it. *)
Class UrlApi := {
  Url : Type;
  url_parse : string -> result string Url;
  url_scheme : Url -> string;
  url_host_str : Url -> option string;
  url_port_or_known_default : Url -> option Z;
  url_join : Url -> string -> option Url;
  url_as_str : Url -> string;
  url_parse_as_str u : url_parse (url_as_str u) = Ok u
}.

Definition SocketAddr : Type := IpAddr * Z.

(** A name lookup: addresses, or the resolver's error text. *)
Definition Dns : Type := string -> Z -> result string (list SocketAddr).

Section Guards.
Context `{UrlApi}.

Definition is_http (scheme : string) : bool :=
  String.eqb scheme "http" || String.eqb scheme "https".

(** The host without the brackets of an IPv6 literal. *)
Definition bare_host (host : string) : string :=
  trim_end_matches "]"%char (trim_start_matches "["%char host).

Definition assert_host_not_blocked (url : string) (allow_private allow_loopback : bool) :
  Result unit :=
  match url_parse url with
  | Err e => Err (InvalidInput ("invalid URL: " +:+ e))
  | Ok parsed =>
      if negb (is_http (url_scheme parsed)) then Ok tt
      else
        match url_host_str parsed with
        | None => Err (InvalidInput "URL has no host")
        | Some host =>
            if eq_ignore_ascii_case host "localhost" && negb allow_loopback then
              Err (InvalidInput "URL host is not allowed (localhost)")
            else
              match parse_ip (bare_host host) with
              | Some ip =>
                  if is_blocked_ip ip allow_private allow_loopback then
                    Err (InvalidInput ("URL host " +:+ host +:+ " is in a blocked range"))
                  else Ok tt
              | None => Ok tt
              end
        end
  end.

Definition validate_download_url (url : string) (allow_private : bool) : Result unit :=
  match url_parse url with
  | Err e => Err (InvalidInput ("invalid download URL: " +:+ e))
  | Ok parsed =>
      if negb (is_http (url_scheme parsed)) then
        Err (InvalidInput ("only http/https download URLs are allowed (got '"
                           +:+ url_scheme parsed +:+ "')"))
      else assert_host_not_blocked url allow_private false
  end.

Definition known_port (u : Url) : Z :=
  if String.eqb (url_scheme u) "https" then default 443 (url_port_or_known_default u)
  else default 80 (url_port_or_known_default u).

(** [redirect_hop_ok]: the check of reqwest's own redirect policy. *)
Definition redirect_hop_ok (dns : Dns) (u : Url) (allow_private allow_loopback : bool) :
  result string unit :=
  if negb (is_http (url_scheme u)) then
    Err ("only http/https redirect targets allowed (got '" +:+ url_scheme u +:+ "')")
  else
    match assert_host_not_blocked (url_as_str u) allow_private allow_loopback with
    | Err e => Err (error_display e)
    | Ok _ =>
        let host := default EmptyString (url_host_str u) in
        if negb (str_is_empty host) && bool_decide (parse_ip (bare_host host) = None) then
          match dns host (known_port u) with
          | Err e => Err ("redirect target " +:+ host +:+ " unresolvable: " +:+ e)
          | Ok addrs =>
              match List.find (fun a => is_blocked_ip (fst a) allow_private allow_loopback) addrs with
              | Some bad => Err ("redirect target " +:+ host +:+ " resolves to blocked address "
                                 +:+ ip_display (fst bad))
              | None => Ok tt
              end
          end
        else Ok tt
    end.

Definition resolve_download_host (dns : Dns) (url : string) (allow_private allow_loopback : bool) :
  Result (option (string * SocketAddr)) :=
  match url_parse url with
  | Err e => Err (InvalidInput ("invalid URL: " +:+ e))
  | Ok parsed =>
      match url_host_str parsed with
      | None => Err (InvalidInput "URL has no host")
      | Some host =>
          match parse_ip (bare_host host) with
          | Some _ => Ok None
          | None =>
              match dns host (known_port parsed) with
              | Err e => Err (Io e)
              | Ok addrs =>
                  match addrs with
                  | [] => Err (InvalidInput ("host " +:+ host +:+ " resolved to no addresses"))
                  | a0 :: _ =>
                      match List.find (fun a => is_blocked_ip (fst a) allow_private allow_loopback) addrs with
                      | Some a => Err (InvalidInput ("host " +:+ host +:+ " resolves to blocked address "
                                                     +:+ ip_display (fst a)))
                      | None => Ok (Some (host, a0))
                      end
                  end
              end
          end
      end
  end.

(** ** The manual redirect chain *)

Definition MAX_REDIRECT_HOPS : nat := 5.

Inductive RedirectStep :=
| Final
| Follow (next : string).

(** A response: status, the [Location] header when present and readable, and
    whatever else the caller interprets. *)
Record Response (B : Type) := mkResponse {
  resp_status : Z;
  resp_location : option string;
  resp_rest : B
}.
Arguments mkResponse {B}.
Arguments resp_status {B}.
Arguments resp_location {B}.
Arguments resp_rest {B}.

Definition is_redirect_status (status : Z) : bool :=
  (status =? 301) || (status =? 302) || (status =? 303) || (status =? 307) || (status =? 308).

Definition redirect_step (current : string) (status : Z) (location : option string) : RedirectStep :=
  if is_redirect_status status then
    match location with
    | Some l =>
        if str_is_empty (trim l) then Final
        else
          match url_parse current with
          | Ok base =>
              match url_join base (trim l) with
              | Some next => Follow (url_as_str next)
              | None => Final
              end
          | Err _ => Final
          end
    | None => Final
    end
  else Final.

Definition Pin : Type := string * SocketAddr.

Definition pin_for_hop (dns : Dns) (url : string) (allow_private : bool) (host_pins : list Pin) :
  Result (option Pin) :=
  match url_parse url with
  | Err e => Err (InvalidInput ("invalid URL: " +:+ e))
  | Ok parsed =>
      match url_host_str parsed with
      | None => Err (InvalidInput "URL has no host")
      | Some host =>
          match parse_ip (bare_host host) with
          | Some _ => Ok None
          | None =>
              match List.find (fun p => eq_ignore_ascii_case (fst p) host) host_pins with
              | Some p => Ok (Some (host, snd p))
              | None => resolve_download_host dns url allow_private false
              end
          end
      end
  end.

(** What the chain meets at hop [n]. *)
Record Network (Client B : Type) := mkNetwork {
  net_allow_private : nat -> bool;
  net_dns : nat -> Dns;
  net_build : option Pin -> Result Client;
  net_send : nat -> Client -> string -> result string (Response B)
}.
Arguments net_allow_private {Client B}.
Arguments net_dns {Client B}.
Arguments net_build {Client B}.
Arguments net_send {Client B}.

Record PinnedResponse (Client B : Type) := mkPinned {
  pr_url : string;
  pr_client : Client;
  pr_response : Response B
}.
Arguments mkPinned {Client B}.
Arguments pr_url {Client B}.
Arguments pr_client {Client B}.
Arguments pr_response {Client B}.

(** One request the chain issued. *)
Record Request := mkRequest {
  rq_hop : nat;
  rq_url : string;
  rq_pin : option Pin
}.

(** The loop of [follow_pinned_get]; [left] is [MAX_REDIRECT_HOPS - followed],
    so the hop-cap test [followed >= MAX_REDIRECT_HOPS] is [left = 0].  The
    requests issued are returned beside the result. *)
Fixpoint follow_from {Client B} (net : Network Client B) (host_pins : list Pin)
  (left hop : nat) (url : string) : list Request * Result (PinnedResponse Client B) :=
  let allow_private := net_allow_private net hop in
  match validate_download_url url allow_private with
  | Err e => ([], Err e)
  | Ok _ =>
      match pin_for_hop (net_dns net hop) url allow_private host_pins with
      | Err e => ([], Err e)
      | Ok pin =>
          match net_build net pin with
          | Err e => ([], Err e)
          | Ok client =>
              let rq := mkRequest hop url pin in
              match net_send net hop client url with
              | Err e => ([rq], Err (Http e))
              | Ok response =>
                  match redirect_step url (resp_status response) (resp_location response) with
                  | Final => ([rq], Ok (mkPinned url client response))
                  | Follow next =>
                      match left with
                      | O => ([rq], Err (InvalidInput ("too many redirects: " +:+ url
                                +:+ " still redirecting after 5 hops")))
                      | S left' =>
                          let '(log, r) := follow_from net host_pins left' (S hop) next in
                          (rq :: log, r)
                      end
                  end
              end
          end
      end
  end.

Definition follow_pinned_get {Client B} (net : Network Client B) (host_pins : list Pin)
  (start_url : string) : list Request * Result (PinnedResponse Client B) :=
  follow_from net host_pins MAX_REDIRECT_HOPS 0 start_url.

(** The address a request connects to: the pinned address (reqwest's
    [ClientBuilder::resolve]), or the URL's IP literal. *)
Definition connect_addr (rq : Request) : option IpAddr :=
  match rq_pin rq with
  | Some (_, (ip, _)) => Some ip
  | None =>
      match url_parse (rq_url rq) with
      | Ok u => h ← url_host_str u; parse_ip (bare_host h)
      | Err _ => None
      end
  end.

End Guards.

Arguments mkResponse {B}.
Arguments resp_status {B}.
Arguments resp_location {B}.
Arguments resp_rest {B}.
Arguments mkNetwork {Client B}.
Arguments net_allow_private {Client B}.
Arguments net_dns {Client B}.
Arguments net_build {Client B}.
Arguments net_send {Client B}.
Arguments mkPinned {Client B}.
Arguments pr_url {Client B}.
Arguments pr_client {Client B}.
Arguments pr_response {Client B}.

(** ** The abstract policy: CIDR blocks and what they mean

    [Never] is fetched under no setting, [Loopback] only when loopback is
    allowed, [Private] only when private networks are, [Public] always. *)

Inductive AddrClass := Never | Loopback | Private | Public.

Definition class_blocked (c : AddrClass) (allow_private allow_loopback : bool) : bool :=
  match c with
  | Never => true
  | Loopback => negb allow_loopback
  | Private => negb allow_private
  | Public => false
  end.

(** [n] is in the block of [2 ^ host_bits] addresses that [base] is in. *)
Definition in_block (n base host_bits : Z) : bool := n / 2 ^ host_bits =? base / 2 ^ host_bits.

Fixpoint classify (table : list (Z * Z * AddrClass)) (n : Z) : AddrClass :=
  match table with
  | [] => Public
  | (base, host_bits, c) :: rest => if in_block n base host_bits then c else classify rest n
  end.

Definition v4_policy : list (Z * Z * AddrClass) :=
  [(v4_num 169 254 0 0, 16, Never);     (* link-local, cloud metadata *)
   (v4_num 0 0 0 0, 0, Never);          (* unspecified *)
   (v4_num 127 0 0 0, 24, Loopback);
   (v4_num 192 0 2 0, 8, Never);        (* documentation *)
   (v4_num 198 51 100 0, 8, Never);
   (v4_num 203 0 113 0, 8, Never);
   (v4_num 10 0 0 0, 24, Private);
   (v4_num 172 16 0 0, 20, Private);
   (v4_num 192 168 0 0, 16, Private);
   (v4_num 100 64 0 0, 22, Private)].   (* CGNAT *)

Definition v6_policy : list (Z * Z * AddrClass) :=
  [(v6_num 0xfe80 0 0 0 0 0 0 0, 118, Never);          (* fe80::/10 *)
   (v6_num 0x64 0xff9b 0 0 0 0 0 0, 64, Never);        (* 64:ff9b::/64 *)
   (v6_num 0x2001 0xdb8 0 0 0 0 0 0, 96, Never);       (* 2001:db8::/32 *)
   (v6_num 0xfc00 0 0 0 0 0 0 0, 121, Private)].       (* fc00::/7 *)

Definition ip_class (ip : IpAddr) : AddrClass :=
  match ip with
  | V4 a b c d => classify v4_policy (v4_num a b c d)
  | V6 a b c d e f g h =>
      let n := v6_num a b c d e f g h in
      if n =? 0 then Never
      else if n =? 1 then Loopback
      else if in_block n (v6_num 0 0 0 0 0 0 0 0) 32 || in_block n (v6_num 0 0 0 0 0 0xffff 0 0) 32
      then classify v4_policy (n mod 2 ^ 32)
      else classify v6_policy n
  end.

(** ** Lemmas *)

Lemma div_pow_digit x y r k : 0 < k -> 0 <= r < k -> x = y * k + r -> x / k = y.
Proof. intros Hk Hr ->. symmetry. apply (Z.div_unique _ _ _ r); lia. Qed.

Lemma v4_num_div24 a b c d : octet b -> octet c -> octet d -> v4_num a b c d / 2 ^ 24 = a.
Proof. unfold octet, v4_num. intros. apply (div_pow_digit _ _ ((b * 256 + c) * 256 + d)); lia. Qed.
Lemma v4_num_div16 a b c d : octet c -> octet d -> v4_num a b c d / 2 ^ 16 = a * 256 + b.
Proof. unfold octet, v4_num. intros. apply (div_pow_digit _ _ (c * 256 + d)); lia. Qed.
Lemma v4_num_div8 a b c d : octet d -> v4_num a b c d / 2 ^ 8 = (a * 256 + b) * 256 + c.
Proof. unfold octet, v4_num. intros. apply (div_pow_digit _ _ d); lia. Qed.
Lemma v4_num_div20 a b c d :
  octet b -> octet c -> octet d -> v4_num a b c d / 2 ^ 20 = a * 16 + b / 16.
Proof.
  unfold octet, v4_num. intros.
  pose proof (Z.div_mod b 16 ltac:(lia)). pose proof (Z.mod_pos_bound b 16 ltac:(lia)).
  apply (div_pow_digit _ _ (((b mod 16) * 256 + c) * 256 + d)); lia.
Qed.
Lemma v4_num_div22 a b c d :
  octet b -> octet c -> octet d -> v4_num a b c d / 2 ^ 22 = a * 4 + b / 64.
Proof.
  unfold octet, v4_num. intros.
  pose proof (Z.div_mod b 64 ltac:(lia)). pose proof (Z.mod_pos_bound b 64 ltac:(lia)).
  apply (div_pow_digit _ _ (((b mod 64) * 256 + c) * 256 + d)); lia.
Qed.

(** Two boolean tests agree when the propositions they decide do. *)
Ltac bool_eq :=
  apply eq_true_iff_eq; rewrite ?andb_true_iff, ?orb_true_iff, ?andb_true_iff, ?Z.eqb_eq, ?Z.leb_le; lia.

Lemma v4_blocked_class a b c d ap al :
  octet a -> octet b -> octet c -> octet d ->
  is_blocked_v4 a b c d ap al = class_blocked (classify v4_policy (v4_num a b c d)) ap al.
Proof.
  intros Ha Hb Hc Hd. cbn [classify v4_policy]. unfold in_block.
  rewrite v4_num_div24, !v4_num_div16, !v4_num_div8, v4_num_div20, v4_num_div22 by done.
  rewrite Z.div_1_r, Z.pow_0_r, Z.div_1_r.
  unfold is_blocked_v4, v4_is_link_local, v4_is_unspecified, v4_is_loopback, v4_is_private.
  change (Z.land b 0xC0) with (Z.land b (2 ^ 8 - 2 ^ 6)).
  unfold octet in *. rewrite land_high_mask by lia. change (2 ^ 6) with 64.
  pose proof (Z.div_mod b 64 ltac:(lia)). pose proof (Z.mod_pos_bound b 64 ltac:(lia)).
  pose proof (Z.div_mod b 16 ltac:(lia)). pose proof (Z.mod_pos_bound b 16 ltac:(lia)).
  change (v4_num 127 0 0 0 / 2 ^ 24) with 127. change (v4_num 10 0 0 0 / 2 ^ 24) with 10.
  change (v4_num 172 16 0 0 / 2 ^ 20) with 2753. change (v4_num 100 64 0 0 / 2 ^ 22) with 401.
  replace (a * 256 + b =? 169 * 256 + 254) with ((a =? 169) && (b =? 254)) by bool_eq.
  replace (v4_num a b c d =? v4_num 0 0 0 0) with ((a =? 0) && (b =? 0) && (c =? 0) && (d =? 0))
    by (unfold v4_num; bool_eq).
  replace ((a * 256 + b) * 256 + c =? (192 * 256 + 0) * 256 + 2)
    with ((a =? 192) && (b =? 0) && (c =? 2)) by bool_eq.
  replace ((a * 256 + b) * 256 + c =? (198 * 256 + 51) * 256 + 100)
    with ((a =? 198) && (b =? 51) && (c =? 100)) by bool_eq.
  replace ((a * 256 + b) * 256 + c =? (203 * 256 + 0) * 256 + 113)
    with ((a =? 203) && (b =? 0) && (c =? 113)) by bool_eq.
  replace (a * 16 + b / 16 =? 2753) with ((a =? 172) && (16 <=? b) && (b <=? 31)) by bool_eq.
  replace (a * 256 + b =? 192 * 256 + 168) with ((a =? 192) && (b =? 168)) by bool_eq.
  replace (a * 4 + b / 64 =? 401) with ((a =? 100) && (b / 64 * 64 =? 64)) by bool_eq.
  generalize ((a =? 169) && (b =? 254)) ((a =? 0) && (b =? 0) && (c =? 0) && (d =? 0)) (a =? 127)
    ((a =? 192) && (b =? 0) && (c =? 2)) ((a =? 198) && (b =? 51) && (c =? 100))
    ((a =? 203) && (b =? 0) && (c =? 113)) (a =? 10) ((a =? 172) && (16 <=? b) && (b <=? 31))
    ((a =? 192) && (b =? 168)) ((a =? 100) && (b / 64 * 64 =? 64)).
  by intros [] [] [] [] [] [] [] [] [] []; destruct ap, al.
Qed.

(** The leading segments of a number. *)
Lemma v6_num_div a b c d e f g h :
  segment b -> segment c -> segment d -> segment e -> segment f -> segment g -> segment h ->
  v6_num a b c d e f g h / 2 ^ 112 = a /\
  v6_num a b c d e f g h / 2 ^ 96 = a * 65536 + b /\
  v6_num a b c d e f g h / 2 ^ 64 = ((a * 65536 + b) * 65536 + c) * 65536 + d /\
  v6_num a b c d e f g h / 2 ^ 32 =
    ((((a * 65536 + b) * 65536 + c) * 65536 + d) * 65536 + e) * 65536 + f /\
  v6_num a b c d e f g h mod 2 ^ 32 = g * 65536 + h.
Proof.
  unfold segment, v6_num. intros.
  assert (Hm : forall x y r k, 0 <= r < k -> x = y * k + r -> x mod k = r).
  { intros x y r k Hr ->. rewrite Z.add_comm, Z_mod_plus_full. apply Z.mod_small. lia. }
  split_and!.
  - apply (div_pow_digit _ _ (((((b * 65536 + c) * 65536 + d) * 65536 + e) * 65536 + f) * 2 ^ 32 + g * 65536 + h)); lia.
  - apply (div_pow_digit _ _ ((((c * 65536 + d) * 65536 + e) * 65536 + f) * 2 ^ 32 + g * 65536 + h)); lia.
  - apply (div_pow_digit _ _ ((e * 65536 + f) * 2 ^ 32 + g * 65536 + h)); lia.
  - apply (div_pow_digit _ _ (g * 65536 + h)); lia.
  - eapply Hm with (y := ((((a * 65536 + b) * 65536 + c) * 65536 + d) * 65536 + e) * 65536 + f); lia.
Qed.

Lemma v6_blocked_class s0 s1 s2 s3 s4 s5 s6 s7 ap al :
  ip_wf (V6 s0 s1 s2 s3 s4 s5 s6 s7) ->
  is_blocked_ip (V6 s0 s1 s2 s3 s4 s5 s6 s7) ap al =
  class_blocked (ip_class (V6 s0 s1 s2 s3 s4 s5 s6 s7)) ap al.
Proof.
  intros (H0 & H1 & H2 & H3 & H4 & H5 & H6 & H7).
  pose proof (v6_num_div s0 s1 s2 s3 s4 s5 s6 s7 H1 H2 H3 H4 H5 H6 H7)
    as (E112 & E96 & E64 & E32 & Em).
  unfold is_blocked_ip, ip_class, v6_is_unspecified, v6_is_loopback.
  set (n := v6_num s0 s1 s2 s3 s4 s5 s6 s7) in *.
  destruct (n =? 0); [done|]. destruct (n =? 1); [done|].
  assert (Hemb : in_block n (v6_num 0 0 0 0 0 0 0 0) 32 || in_block n (v6_num 0 0 0 0 0 0xffff 0 0) 32 =
    (s0 =? 0) && (s1 =? 0) && (s2 =? 0) && (s3 =? 0) && (s4 =? 0) && ((s5 =? 0) || (s5 =? 65535))).
  { unfold in_block. rewrite E32.
    change (v6_num 0 0 0 0 0 0 0 0 / 2 ^ 32) with 0.
    change (v6_num 0 0 0 0 0 0xffff 0 0 / 2 ^ 32) with 65535. unfold segment in *. bool_eq. }
  rewrite Hemb. unfold to_ipv4.
  destruct (_ && ((s5 =? 0) || (s5 =? 65535))) eqn:Ee.
  - pose proof (Z.div_mod s6 256 ltac:(lia)). pose proof (Z.mod_pos_bound s6 256 ltac:(lia)).
    pose proof (Z.div_mod s7 256 ltac:(lia)). pose proof (Z.mod_pos_bound s7 256 ltac:(lia)).
    unfold segment in *.
    rewrite v4_blocked_class by (unfold octet; lia). do 2 f_equal. rewrite Em. unfold v4_num. lia.
  - cbn [classify v6_policy]. unfold in_block.
    change (v6_num 0xfe80 0 0 0 0 0 0 0 / 2 ^ 118) with 0x3fa.
    change (v6_num 0x64 0xff9b 0 0 0 0 0 0 / 2 ^ 64) with (((0x64 * 65536 + 0xff9b) * 65536 + 0) * 65536 + 0).
    change (v6_num 0x2001 0xdb8 0 0 0 0 0 0 / 2 ^ 96) with (0x2001 * 65536 + 0xdb8).
    change (v6_num 0xfc00 0 0 0 0 0 0 0 / 2 ^ 121) with 0x7e.
    assert (E118 : n / 2 ^ 118 = s0 / 2 ^ 6) by (rewrite <- E112, Z.div_div by lia; done).
    assert (E121 : n / 2 ^ 121 = s0 / 2 ^ 9) by (rewrite <- E112, Z.div_div by lia; done).
    rewrite E118, E121, E64, E96. unfold segment in *.
    change (Z.land s0 0xffc0) with (Z.land s0 (2 ^ 16 - 2 ^ 6)).
    change (Z.land s0 0xfe00) with (Z.land s0 (2 ^ 16 - 2 ^ 9)).
    rewrite !land_high_mask by lia.
    replace (s0 / 2 ^ 6 =? 0x3fa) with (s0 / 2 ^ 6 * 2 ^ 6 =? 0xfe80) by bool_eq.
    replace (s0 / 2 ^ 9 =? 0x7e) with (s0 / 2 ^ 9 * 2 ^ 9 =? 0xfc00) by bool_eq.
    replace (((s0 * 65536 + s1) * 65536 + s2) * 65536 + s3 =? _)
      with ((s0 =? 0x64) && (s1 =? 0xff9b) && (s2 =? 0) && (s3 =? 0)) by bool_eq.
    replace (s0 * 65536 + s1 =? _) with ((s0 =? 0x2001) && (s1 =? 0xdb8)) by bool_eq.
    repeat (case_match; try done). all: by destruct ap, al; repeat (case_match; try done).
Qed.

Lemma is_blocked_ip_class ip ap al :
  ip_wf ip -> is_blocked_ip ip ap al = class_blocked (ip_class ip) ap al.
Proof.
  destruct ip; intros Hw; [|by apply v6_blocked_class].
  destruct Hw as (? & ? & ? & ?). by apply v4_blocked_class.
Qed.

Lemma class_open c ap :
  class_blocked c ap false = false <-> c = Public \/ (c = Private /\ ap = true).
Proof. destruct c, ap; cbn; intuition discriminate. Qed.

Lemma find_none_forall {A} (f : A -> bool) l :
  List.find f l = None -> forall x, x ∈ l -> f x = false.
Proof.
  induction l as [|a l IH]; cbn; [set_solver|].
  destruct (f a) eqn:Ea; [done|]. intros H x. rewrite elem_of_cons. intros [->|]; auto.
Qed.

Section ChainLemmas.
Context `{UrlApi}.

Lemma validate_download_url_ok url ap :
  validate_download_url url ap = Ok tt ->
  exists u host, url_parse url = Ok u /\ is_http (url_scheme u) = true /\
    url_host_str u = Some host /\ eq_ignore_ascii_case host "localhost" = false /\
    (forall ip, parse_ip (bare_host host) = Some ip -> is_blocked_ip ip ap false = false).
Proof.
  unfold validate_download_url, assert_host_not_blocked.
  destruct (url_parse url) as [u|] eqn:Eu; [|done].
  destruct (is_http (url_scheme u)) eqn:Eh; cbn; [|done].
  destruct (url_host_str u) as [host|] eqn:Ehost; [|done].
  destruct (eq_ignore_ascii_case host "localhost") eqn:El; cbn; [done|].
  intros Hip. exists u, host. split_and!; auto. intros ip Hp. rewrite Hp in Hip.
  by destruct (is_blocked_ip ip ap false).
Qed.

(** An http(s) URL the host check lets through names no blocked literal. *)
Lemma host_not_blocked_open url ap u host ip :
  assert_host_not_blocked url ap false = Ok tt -> url_parse url = Ok u -> is_http (url_scheme u) = true ->
  url_host_str u = Some host -> parse_ip (bare_host host) = Some ip -> is_blocked_ip ip ap false = false.
Proof.
  unfold assert_host_not_blocked. intros Ha Hu Hs Hh Hp. rewrite Hu, Hs, Hh, Hp in Ha. cbn in Ha.
  destruct (eq_ignore_ascii_case host "localhost"); [done|]. by destruct (is_blocked_ip ip ap false).
Qed.

(** Allowing private networks only admits more. *)
Lemma is_blocked_ip_mono ip al : is_blocked_ip ip true al = true -> is_blocked_ip ip false al = true.
Proof.
  assert (H4 : forall a b c d, is_blocked_v4 a b c d true al = true -> is_blocked_v4 a b c d false al = true).
  { intros a b c d. unfold is_blocked_v4. cbn [negb andb]. by repeat case_match. }
  destruct ip as [a b c d|s0 s1 s2 s3 s4 s5 s6 s7]; [apply H4|].
  unfold is_blocked_ip. repeat (case_match; try done). apply H4.
Qed.

Lemma assert_host_mono url al :
  assert_host_not_blocked url false al = Ok tt -> assert_host_not_blocked url true al = Ok tt.
Proof.
  unfold assert_host_not_blocked. destruct (url_parse url) as [u|]; [|done].
  destruct (negb (is_http (url_scheme u))); [done|]. destruct (url_host_str u); [|done].
  destruct (_ && _); [done|]. destruct (parse_ip _) as [ip|]; [|done].
  destruct (is_blocked_ip ip true al) eqn:E; [|done]. by rewrite (is_blocked_ip_mono _ _ E).
Qed.

Lemma validate_download_url_host url ap :
  validate_download_url url ap = Ok tt -> assert_host_not_blocked url ap false = Ok tt.
Proof. unfold validate_download_url. destruct (url_parse url); [|done]. by destruct (negb _). Qed.

Lemma resolve_download_host_pin dns url ap al h a :
  resolve_download_host dns url ap al = Ok (Some (h, a)) ->
  is_blocked_ip (fst a) ap al = false /\
  exists u addrs, url_parse url = Ok u /\ url_host_str u = Some h /\
    dns h (known_port u) = Ok addrs /\ head addrs = Some a /\
    Forall (fun b => is_blocked_ip (fst b) ap al = false) addrs.
Proof.
  unfold resolve_download_host. intros Hr.
  destruct (url_parse url) as [u|] eqn:Eu; [|done].
  destruct (url_host_str u) as [host|] eqn:Eh; [|done].
  destruct (parse_ip _); [done|].
  destruct (dns host (known_port u)) as [addrs|] eqn:Ed; [|done].
  destruct addrs as [|a0 addrs]; [done|].
  destruct (List.find _ _) eqn:Ef; [done|]. simplify_eq.
  pose proof (find_none_forall _ _ Ef) as Hall. split; [apply (Hall a); set_solver|].
  exists u, (a :: addrs). split_and!; auto. apply Forall_forall. auto.
Qed.

(** A named host is pinned; the pin is a checked address or a caller's. *)
Lemma pin_for_hop_cases dns url ap pins pin u host :
  url_parse url = Ok u -> url_host_str u = Some host ->
  pin_for_hop dns url ap pins = Ok pin ->
  match pin with
  | None => exists ip, parse_ip (bare_host host) = Some ip
  | Some (h, a) =>
      h = host /\ ((exists p, p ∈ pins /\ snd p = a) \/ is_blocked_ip (fst a) ap false = false)
  end.
Proof.
  unfold pin_for_hop. intros Eu Eh. rewrite Eu, Eh.
  destruct (parse_ip (bare_host host)) as [ip|] eqn:Ep; [intros [= <-]; eauto|].
  match goal with |- context [List.find ?f ?l] => destruct (List.find f l) as [p|] eqn:Ef end.
  - intros [= <-]. split; [done|]. left. apply List.find_some in Ef as [Hin _].
    exists p. by rewrite list_elem_of_In.
  - destruct pin as [[h a]|]; intros Hr.
    + apply resolve_download_host_pin in Hr as [Hb (u' & addrs & Eu' & Eh' & _)].
      split; [congruence|by right].
    + unfold resolve_download_host in Hr. rewrite Eu, Eh, Ep in Hr.
      repeat case_match; done.
Qed.

Lemma follow_from_safe {Client B} (net : Network Client B) pins left : forall hop url log r,
  follow_from net pins left hop url = (log, r) ->
  (length log <= S left)%nat /\
  Forall (fun rq =>
    exists ip, connect_addr rq = Some ip /\
      (is_blocked_ip ip (net_allow_private net (rq_hop rq)) false = false \/
       exists p, p ∈ pins /\ fst (snd p) = ip)) log.
Proof.
  induction left as [|left IH]; intros hop url log r Hf; cbn [follow_from] in Hf.
  all: destruct (validate_download_url url _) as [[]|] eqn:Ev; [|simplify_eq; split; [cbn; lia|done]].
  all: destruct (pin_for_hop _ _ _ _) as [pin|] eqn:Ep; [|simplify_eq; split; [cbn; lia|done]].
  all: destruct (net_build net pin) as [client|]; [|simplify_eq; split; [cbn; lia|done]].
  all: assert (Hrq : exists ip, connect_addr (mkRequest hop url pin) = Some ip /\
      (is_blocked_ip ip (net_allow_private net hop) false = false \/
       exists p, p ∈ pins /\ fst (snd p) = ip)).
  1, 3: destruct (validate_download_url_ok _ _ Ev) as (u & host & Eu & _ & Eh & _ & Hlit);
    pose proof (pin_for_hop_cases _ _ _ _ _ _ _ Eu Eh Ep) as Hp;
    unfold connect_addr; cbn; destruct pin as [[h [ip port]]|];
    [destruct Hp as [-> [(p & Hin & Hs)|Hb]]; exists ip; split; auto; right; exists p; split; [done|];
     by destruct p as [? [? ?]]; cbn in *; simplify_eq
    |destruct Hp as [ip Hip]; exists ip; rewrite Eu, Eh; cbn; auto].
  all: destruct (net_send net hop client url) as [response|];
    [|simplify_eq; split; [cbn; lia|by repeat constructor]].
  all: destruct (redirect_step _ _ _) as [|next];
    [simplify_eq; split; [cbn; lia|by repeat constructor]|].
  - simplify_eq. split; [cbn; lia|by repeat constructor].
  - destruct (follow_from net pins left (S hop) next) as [log' r'] eqn:Er. simplify_eq.
    apply IH in Er as [Hlen Hall]. split; [cbn; lia|]. by constructor.
Qed.

End ChainLemmas.

(** A concrete [UrlApi] for evaluation: a URL is its text, the scheme ends at
    the first colon, the host is the authority before the path, and a
    [Location] is absolute. *)
Definition text_url_scheme (u : string) : string :=
  match split_once ":" u with Some (s, _) => s | None => EmptyString end.

Definition text_url_host (u : string) : option string :=
  match split_once "://" u with
  | Some (_, rest) => Some (split_first (Ascii.eqb "/"%char) rest)
  | None => None
  end.

Definition text_url : UrlApi := {|
  Url := string;
  url_parse s := Ok s;
  url_scheme := text_url_scheme;
  url_host_str := text_url_host;
  url_port_or_known_default _ := None;
  url_join _ l := Some l;
  url_as_str u := u;
  url_parse_as_str u := eq_refl
|}.

(** ** Properties *)

(** The guard is the CIDR policy: an address with in-range parts is
    blocked exactly when its block's class says so; the IPv4-mapped and
    IPv4-compatible IPv6 forms get the class of the embedded IPv4 address,
    so none of them is a way around the IPv4 rules. *)
Theorem is_blocked_ip_policy ip allow_private allow_loopback :
  ip_wf ip ->
  is_blocked_ip ip allow_private allow_loopback =
  class_blocked (ip_class ip) allow_private allow_loopback.
Proof. apply is_blocked_ip_class. Qed.

Lemma is_blocked_ip_policy_witness :
  ip_wf (V6 0 0 0 0 0 0xffff 43518 43518) /\
  is_blocked_ip (V6 0 0 0 0 0 0xffff 43518 43518) true true =
  class_blocked (ip_class (V6 0 0 0 0 0 0xffff 43518 43518)) true true /\
  ip_class (V6 0 0 0 0 0 0xffff 43518 43518) = Never.
Proof.
  assert (Hw : ip_wf (V6 0 0 0 0 0 0xffff 43518 43518))
    by (cbn; unfold segment; lia).
  split; [done|]. split; [apply (is_blocked_ip_policy _ true true Hw) | reflexivity].
Defined.

(** C3: a fetch never reaches a blocked address.  Whatever the resolver
    answers from one hop to the next and wherever the servers redirect, every
    request of the chain connects to an address the policy of that very hop
    allows (or one the caller pinned; production passes no pins), and the
    chain issues at most 1 + [MAX_REDIRECT_HOPS] requests. *)
Theorem fetch_never_reaches_blocked `{UrlApi} {Client B} (net : Network Client B) url log r :
  follow_pinned_get net [] url = (log, r) ->
  (length log <= 6)%nat /\
  forall rq, rq ∈ log -> exists ip, connect_addr rq = Some ip /\
    is_blocked_ip ip (net_allow_private net (rq_hop rq)) false = false.
Proof.
  intros Hf. apply follow_from_safe in Hf as [Hlen Hall]. split; [exact Hlen|].
  intros rq Hin. rewrite Forall_forall in Hall.
  destruct (Hall rq Hin) as (ip & Hc & [Hb|(p & Hp & _)]); [eauto|set_solver].
Qed.

(** A rebinding resolver: the first lookup of a name is public, later ones
    point at the metadata service. *)
Definition rebinding_net : Network (option Pin) unit :=
  mkNetwork (fun _ => false)
    (fun hop _ port => Ok [(if Nat.eqb hop 0 then V4 93 184 215 14 else V4 169 254 169 254, port)])
    (fun pin => Ok pin)
    (fun hop _ _ => Ok (mkResponse 302 (Some "http://evil.test/next") tt)).

Lemma fetch_never_reaches_blocked_witness :
  let run := @follow_pinned_get text_url _ _ rebinding_net [] "http://evil.test/a.zim" in
  length (fst run) = 1%nat /\
  (length (fst run) <= 6)%nat /\
  forall rq, rq ∈ fst run -> exists ip, @connect_addr text_url rq = Some ip /\
    is_blocked_ip ip (net_allow_private rebinding_net (rq_hop rq)) false = false.
Proof.
  split; [reflexivity|].
  apply (@fetch_never_reaches_blocked text_url _ _ rebinding_net "http://evil.test/a.zim" _
           (snd (@follow_pinned_get text_url _ _ rebinding_net [] "http://evil.test/a.zim"))).
  reflexivity.
Defined.

(** What a download URL must be to pass: http(s), with a host that is not
    [localhost] in any case and, if an IP literal, not loopback or otherwise
    blocked; [allow_private] opens private ranges and nothing else. *)
Theorem validate_download_url_spec `{UrlApi} url allow_private :
  validate_download_url url allow_private = Ok tt <->
  exists u host, url_parse url = Ok u /\ (url_scheme u = "http" \/ url_scheme u = "https") /\
    url_host_str u = Some host /\ to_ascii_lowercase host <> "localhost" /\
    forall ip, parse_ip (bare_host host) = Some ip ->
      ip_class ip = Public \/ (ip_class ip = Private /\ allow_private = true).
Proof.
  assert (Hclass : forall ip, ip_wf ip -> is_blocked_ip ip allow_private false = false <->
    (ip_class ip = Public \/ (ip_class ip = Private /\ allow_private = true))).
  { intros ip Hw. rewrite is_blocked_ip_class by done. apply class_open. }
  assert (Hhttp : forall s, is_http s = true <-> s = "http" \/ s = "https").
  { intros s. unfold is_http. rewrite orb_true_iff, !String.eqb_eq. done. }
  assert (Hlocal : forall h, eq_ignore_ascii_case h "localhost" = false <-> to_ascii_lowercase h <> "localhost").
  { intros h. unfold eq_ignore_ascii_case. change (to_ascii_lowercase "localhost") with "localhost".
    apply String.eqb_neq. }
  split.
  - intros (u & host & Eu & Hs & Eh & Hl & Hip)%validate_download_url_ok.
    exists u, host. rewrite <- Hhttp, <- Hlocal. split_and!; auto.
    intros ip Hp. apply Hclass; eauto with zims.
  - intros (u & host & Eu & Hs & Eh & Hl & Hip). apply Hhttp in Hs. apply Hlocal in Hl.
    unfold validate_download_url, assert_host_not_blocked. rewrite Eu, Hs, Eh, Hl. cbn.
    destruct (parse_ip (bare_host host)) as [ip|] eqn:Ep; [|done].
    by rewrite (proj2 (Hclass ip (parse_ip_wf _ _ Ep)) (Hip ip eq_refl)).
Qed.

(** The redirect decision follows exactly the five redirect statuses with
    a [Location] that is not blank and joins to the current URL; anything
    else is terminal, so no other response can move the chain. *)
Theorem redirect_step_follows_iff `{UrlApi} current status location next :
  redirect_step current status location = Follow next <->
  (status ∈ [301; 302; 303; 307; 308]) /\
  exists l base u, location = Some l /\ trim l <> EmptyString /\
    url_parse current = Ok base /\ url_join base (trim l) = Some u /\ next = url_as_str u.
Proof.
  assert (Hst : is_redirect_status status = true <-> status ∈ [301; 302; 303; 307; 308]).
  { unfold is_redirect_status. rewrite !orb_true_iff, !Z.eqb_eq. set_solver. }
  unfold redirect_step. rewrite <- Hst. split.
  - intros Hr. repeat case_match; simplify_eq. split; [done|].
    eexists _, _, _. split_and!; eauto.
    match goal with H : str_is_empty _ = false |- _ => by intros E; rewrite E in H end.
  - intros [Hs (l & base & u & -> & Hl & Hp & Hj & ->)]. rewrite Hs, Hp, Hj.
    by destruct (trim l).
Qed.

(** The legacy NAT64 rule is wider than its comment: the code blocks all
    of 64:ff9b::/64, the comment names the well-known prefix 64:ff9b::/96. *)
Theorem nat64_block_is_slash_64 :
  is_blocked_ip (V6 0x64 0xff9b 0 0 1 2 3 4) true true = true /\
  in_block (v6_num 0x64 0xff9b 0 0 1 2 3 4) (v6_num 0x64 0xff9b 0 0 0 0 0 0) 32 = false.
Proof. split; reflexivity. Qed.
