(* ===== verification/RateLimit.v ===== *)
(** * RateLimit: the global token bucket ([src/src/access/ratelimit.rs])

    The bucket ([Bucket], [RateLimiter]) with its operations [new],
    [resized] and [try_acquire]; the runtime handle ([RateLimiterHandle])
    that rebuilds the limiter when the settings generation changes.  An
    [Arc<RateLimiter>] is a pointer into a heap of limiters, so a limiter
    handed out before a rebuild stays reachable by its holder.  The clock is
    an argument of every operation that reads it. *)

From S2P Require Import Prelude.

(** ** Constants *)

Definition SCALE : Z := 1000000.
Definition NS_PER_SEC : Z := 1000000000.
Definition RPS_CEILING : Z := 1000000.
Definition BURST_CEILING : Z := 1000000.

(** One token, in scaled units ([NEED] of [try_acquire]). *)
Definition NEED : Z := SCALE.

(** ** The limiter *)

Record Bucket := mkBucket {
  tokens : Z;
  last_refill : Z
}.

Record RateLimiter := mkLimiter {
  inner : Bucket;
  capacity : Z;
  refill_per_sec : Z
}.

(** [now_ns]: nanoseconds since the epoch, truncated to [u64]; a clock before
    the epoch reads as 0. *)
Definition now_ns (since_epoch : option Z) : Z :=
  match since_epoch with
  | Some d => d mod 2 ^ 64
  | None => 0
  end.

Definition scaled_limits (rps burst : Z) : Z * Z :=
  let rps := clamp 1 RPS_CEILING rps in
  let burst := clamp 1 BURST_CEILING burst in
  let capacity := default (BURST_CEILING * SCALE) (checked_mul u64_max burst SCALE) in
  let refill_per_sec := default (RPS_CEILING * SCALE) (checked_mul u64_max rps SCALE) in
  (capacity, refill_per_sec).

Definition new (rps burst now : Z) : RateLimiter :=
  let '(capacity, refill_per_sec) := scaled_limits rps burst in
  mkLimiter (mkBucket capacity now) capacity refill_per_sec.

Definition resized (old : RateLimiter) (rps burst : Z) : RateLimiter :=
  let '(capacity, refill_per_sec) := scaled_limits rps burst in
  mkLimiter (mkBucket (Z.min (tokens (inner old)) capacity) (last_refill (inner old)))
    capacity refill_per_sec.

(** The refill credited by a call at [now] (scaled units, [u128] arithmetic). *)
Definition refill_at (l : RateLimiter) (now : Z) : Z :=
  let elapsed_ns := saturating_sub now (last_refill (inner l)) in
  saturating_mul u128_max elapsed_ns (refill_per_sec l) / NS_PER_SEC.

Definition try_acquire (l : RateLimiter) (now : Z) : result Z unit * RateLimiter :=
  let b_tokens := Z.min (tokens (inner l) + refill_at l now) (capacity l) in
  let refilled := mkLimiter (mkBucket b_tokens now) (capacity l) (refill_per_sec l) in
  if b_tokens <? NEED then
    let deficit := NEED - b_tokens in
    let wait_ns := deficit * NS_PER_SEC / refill_per_sec l in
    (Err (Z.min (wait_ns / 1000 + 1) 60000), refilled)
  else
    (Ok tt, mkLimiter (mkBucket (b_tokens - NEED) now) (capacity l) (refill_per_sec l)).

Definition ms_to_retry_after_secs (ms : Z) : Z := Z.max (div_ceil ms 1000) 1.

(** A burst of calls at the given times: how many were allowed, and the
    limiter after them. *)
Fixpoint run (l : RateLimiter) (ts : list Z) : Z * RateLimiter :=
  match ts with
  | [] => (0, l)
  | t :: ts' =>
      let '(r, l1) := try_acquire l t in
      let '(n, l2) := run l1 ts' in
      ((if is_ok r then 1 else 0) + n, l2)
  end.

(** Well-formed limiter: limits as [scaled_limits] makes them, balance within
    the capacity. *)
Definition wf (l : RateLimiter) : Prop :=
  (exists rps burst, scaled_limits rps burst = (capacity l, refill_per_sec l)) /\
  0 <= tokens (inner l) <= capacity l /\
  in_u64 (last_refill (inner l)).

(** ** The handle

    What the handle reads of the settings cache: its generation and the two
    typed reads. *)
Class RateSettings (Cfg : Type) := {
  generation : Cfg -> Z;
  rate_limit_rps : Cfg -> option Z;
  rate_limit_burst : Cfg -> option Z
}.

Definition effective_rps {Cfg} `{!RateSettings Cfg} (s : Cfg) : Z := default 100 (rate_limit_rps s).
Definition effective_burst {Cfg} `{!RateSettings Cfg} (s : Cfg) : Z := default 200 (rate_limit_burst s).

Record LimiterSlot := mkSlot {
  slot_gen : Z;
  slot_rps : Z;
  slot_burst : Z;
  slot_limiter : nat
}.

Record RateLimiterHandle := mkHandle {
  heap : list RateLimiter;
  slot : option LimiterSlot
}.

Definition handle_new : RateLimiterHandle := mkHandle [] None.

(** [Arc::new(l)]: allocate. *)
Definition alloc (h : list RateLimiter) (l : RateLimiter) : nat * list RateLimiter :=
  (length h, h ++ [l]).

Definition limiter {Cfg} `{!RateSettings Cfg} (st : RateLimiterHandle) (settings : Cfg) (now : Z) :
  nat * RateLimiterHandle :=
  let cur_gen := generation settings in
  let rebuild :=
    let rps := effective_rps settings in
    let burst := effective_burst settings in
    let '(p, h) :=
      match slot st with
      | Some sl =>
          if (slot_rps sl =? rps) && (slot_burst sl =? burst) then (slot_limiter sl, heap st)
          else
            match heap st !! slot_limiter sl with
            | Some old => alloc (heap st) (resized old rps burst)
            | None => alloc (heap st) (new rps burst now)
            end
      | None => alloc (heap st) (new rps burst now)
      end in
    (p, mkHandle h (Some (mkSlot cur_gen rps burst p))) in
  match slot st with
  | Some sl => if slot_gen sl =? cur_gen then (slot_limiter sl, st) else rebuild
  | None => rebuild
  end.

(** [try_acquire] through an [Arc]: the bucket behind the pointer changes. *)
Definition acquire_at (st : RateLimiterHandle) (p : nat) (now : Z) :
  option (result Z unit * RateLimiterHandle) :=
  match heap st !! p with
  | Some l =>
      let '(r, l') := try_acquire l now in
      Some (r, mkHandle (<[p := l']> (heap st)) (slot st))
  | None => None
  end.

(** Everything that can happen to the handle: a [limiter] call under some
    settings, or a [try_acquire] by the holder of any pointer. *)
Inductive hstep {Cfg} `{!RateSettings Cfg} (hist : Cfg -> Prop) :
  RateLimiterHandle -> RateLimiterHandle -> Prop :=
| hstep_limiter st s now :
    hist s -> in_u64 now -> hstep hist st (snd (limiter st s now))
| hstep_acquire st p now r st' :
    in_u64 now -> acquire_at st p now = Some (r, st') -> hstep hist st st'.

Definition handle_wf {Cfg} `{!RateSettings Cfg} (hist : Cfg -> Prop) (st : RateLimiterHandle) : Prop :=
  Forall wf (heap st) /\
  match slot st with
  | None => True
  | Some sl =>
      (exists s, hist s /\ generation s = slot_gen sl /\
                 effective_rps s = slot_rps sl /\ effective_burst s = slot_burst sl) /\
      exists l, heap st !! slot_limiter sl = Some l /\
                scaled_limits (slot_rps sl) (slot_burst sl) = (capacity l, refill_per_sec l)
  end.

(** ** Lemmas *)

Ltac rl_unfold :=
  unfold SCALE, NS_PER_SEC, NEED, RPS_CEILING, BURST_CEILING, SCALE in *.

Lemma scaled_limits_eq rps burst :
  scaled_limits rps burst =
  (clamp 1 BURST_CEILING burst * SCALE, clamp 1 RPS_CEILING rps * SCALE).
Proof.
  unfold scaled_limits, checked_mul.
  pose proof (clamp_bounds 1 BURST_CEILING burst ltac:(rl_unfold; lia)).
  pose proof (clamp_bounds 1 RPS_CEILING rps ltac:(rl_unfold; lia)).
  rl_unfold. unfold u64_max.
  rewrite !(proj2 (Z.leb_le _ _)) by lia. reflexivity.
Qed.

Lemma wf_limits l :
  wf l -> SCALE <= capacity l <= BURST_CEILING * SCALE /\
          SCALE <= refill_per_sec l <= RPS_CEILING * SCALE.
Proof.
  intros ((rps & burst & Hs) & _). rewrite scaled_limits_eq in Hs. simplify_eq.
  pose proof (clamp_bounds 1 BURST_CEILING burst ltac:(rl_unfold; lia)).
  pose proof (clamp_bounds 1 RPS_CEILING rps ltac:(rl_unfold; lia)).
  rl_unfold. lia.
Qed.

Lemma refill_at_nonneg l now : wf l -> 0 <= refill_at l now.
Proof.
  intros Hw. pose proof (wf_limits l Hw). unfold refill_at. rl_unfold.
  apply Z.div_pos; [|lia]. unfold saturating_mul, saturating_sub, u128_max. nia.
Qed.

(** The [u128] product of [try_acquire] never saturates on a 64-bit clock. *)
Lemma refill_at_exact l now :
  wf l -> in_u64 now ->
  refill_at l now =
  saturating_sub now (last_refill (inner l)) * refill_per_sec l / NS_PER_SEC.
Proof.
  intros Hw Hn. pose proof (wf_limits l Hw) as [_ Hr]. unfold refill_at, saturating_mul.
  rewrite Z.min_r; [done|]. rl_unfold. unfold saturating_sub, u128_max, in_u64, u64_max in *.
  destruct Hw as (_ & _ & Hl). unfold in_u64, u64_max in Hl. nia.
Qed.

Lemma try_acquire_limits l now :
  capacity (snd (try_acquire l now)) = capacity l /\
  refill_per_sec (snd (try_acquire l now)) = refill_per_sec l /\
  last_refill (inner (snd (try_acquire l now))) = now.
Proof. unfold try_acquire. case_match; done. Qed.

Lemma try_acquire_wf l now : wf l -> in_u64 now -> wf (snd (try_acquire l now)).
Proof.
  intros Hw Hn. pose proof (refill_at_nonneg l now Hw). pose proof (wf_limits l Hw).
  destruct (try_acquire_limits l now) as (Hc & Hr & Hl).
  split; [rewrite Hc, Hr; apply Hw|]. split; [|by rewrite Hl].
  destruct Hw as (_ & Ht & _). unfold try_acquire.
  rl_unfold. destruct (Z.ltb_spec (Z.min (tokens (inner l) + refill_at l now) (capacity l)) 1000000);
    cbn [snd inner tokens capacity]; lia.
Qed.

Lemma new_wf rps burst now : in_u64 now -> wf (new rps burst now).
Proof.
  intros Hn. unfold new. destruct (scaled_limits rps burst) as [c r] eqn:Hs.
  split; [exists rps, burst; done|]. split; [|done]. cbn.
  rewrite scaled_limits_eq in Hs. simplify_eq.
  pose proof (clamp_bounds 1 BURST_CEILING burst ltac:(rl_unfold; lia)). rl_unfold. lia.
Qed.

Lemma resized_wf old rps burst : wf old -> wf (resized old rps burst).
Proof.
  intros (_ & Ht & Hl). unfold resized. destruct (scaled_limits rps burst) as [c r] eqn:Hs.
  split; [exists rps, burst; done|]. split; [|done]. cbn.
  rewrite scaled_limits_eq in Hs. simplify_eq.
  pose proof (clamp_bounds 1 BURST_CEILING burst ltac:(rl_unfold; lia)). rl_unfold. lia.
Qed.

#[export] Hint Resolve try_acquire_wf new_wf resized_wf : zims.

(** One call, in nano-units: what it admits and keeps never exceeds what it
    had plus what the elapsed window pays for. *)
Lemma try_acquire_potential l now :
  wf l -> last_refill (inner l) <= now -> in_u64 now ->
  let '(r, l') := try_acquire l now in
  ((if is_ok r then SCALE else 0) + tokens (inner l')) * NS_PER_SEC <=
  tokens (inner l) * NS_PER_SEC + refill_per_sec l * (now - last_refill (inner l)).
Proof.
  intros Hw Hle Hn. pose proof (refill_at_exact l now Hw Hn) as He.
  assert (refill_at l now * NS_PER_SEC <= refill_per_sec l * (now - last_refill (inner l))).
  { rewrite He. unfold saturating_sub. rewrite Z.max_r by lia.
    etrans; [apply div_mul_le; rl_unfold; lia | lia]. }
  unfold try_acquire. rl_unfold.
  destruct (Z.ltb_spec (Z.min (tokens (inner l) + refill_at l now) (capacity l)) 1000000);
    cbn [snd inner tokens capacity is_ok]; lia.
Qed.

(** The hint, in milliseconds, covers a wait of at most a second. *)
Lemma hint_covers_wait D R :
  0 <= D -> 0 < R -> D <= 1000000000 * R ->
  0 <= D / R < Z.min (D / R / 1000 + 1) 60000 * 1000000.
Proof.
  intros HD HR Hw.
  assert (0 <= D / R) by (apply Z.div_pos; lia).
  assert (D / R <= 1000000000) by (apply Z.div_le_upper_bound; lia).
  pose proof (Z.div_mod (D / R) 1000 ltac:(lia)).
  pose proof (Z.mod_pos_bound (D / R) 1000 ltac:(lia)). lia.
Qed.

(** The whole-history form, for the state left behind as well. *)
Lemma run_potential ts : forall l,
  wf l -> Sorted Z.le (last_refill (inner l) :: ts) -> Forall in_u64 ts ->
  let '(n, l') := run l ts in
  wf l' /\
  (n * SCALE + tokens (inner l')) * NS_PER_SEC <=
  tokens (inner l) * NS_PER_SEC +
  refill_per_sec l * (last_refill (inner l') - last_refill (inner l)).
Proof.
  induction ts as [|t ts IH]; intros l Hw Hs Hin; cbn; [split; [done|lia]|].
  apply Forall_cons in Hin as [Ht Hin].
  pose proof (Sorted_inv Hs) as [Hs' Hhd]. inversion Hhd as [|? ? Hlt]; subst.
  pose proof (try_acquire_potential l t Hw Hlt Ht) as Hp.
  pose proof (try_acquire_wf l t Hw Ht) as Hw1.
  destruct (try_acquire_limits l t) as (_ & Hr & Hl).
  destruct (try_acquire l t) as [r l1] eqn:E. cbn [snd] in *.
  specialize (IH l1 Hw1). rewrite Hl in IH. specialize (IH Hs' Hin).
  destruct (run l1 ts) as [n l2] eqn:E2. destruct IH as [Hw2 IH].
  split; [done|]. rewrite Hr in IH. destruct (is_ok r); lia.
Qed.

(** A balance that covers the calls lets them all through. *)
Lemma run_covered ts : forall l, wf l -> Forall in_u64 ts -> Z.of_nat (length ts) * SCALE <= tokens (inner l) ->
  fst (run l ts) = Z.of_nat (length ts).
Proof.
  induction ts as [|t ts IH]; intros l Hw Hin Hb; [done|]. apply Forall_cons in Hin as [Ht Hin]. cbn [length run] in *.
  pose proof (try_acquire_wf l t Hw Ht) as Hw1. pose proof (refill_at_nonneg l t Hw) as Hr. destruct Hw as (_ & Hc & _).
  unfold try_acquire in *. replace (Z.min (tokens (inner l) + refill_at l t) (capacity l) <? NEED) with false in * by (rl_unfold; lia).
  cbn [snd is_ok] in *. pose proof (IH _ Hw1 Hin ltac:(cbn; rl_unfold; lia)) as Hrun.
  destruct (run _ ts) as [n l2]. cbn [fst] in *. lia.
Qed.

Lemma limiter_wf {Cfg} `{!RateSettings Cfg} (hist : Cfg -> Prop) st s now :
  hist s -> in_u64 now -> handle_wf hist st -> handle_wf hist (snd (limiter st s now)).
Proof.
  intros Hs Hn [Hh Hsl]. unfold limiter.
  assert (Hnew : forall l, wf l ->
    scaled_limits (effective_rps s) (effective_burst s) = (capacity l, refill_per_sec l) ->
    handle_wf hist (mkHandle (heap st ++ [l])
      (Some (mkSlot (generation s) (effective_rps s) (effective_burst s) (length (heap st)))))).
  { intros l Hw Hl. split; cbn; [by apply Forall_app; auto|].
    split; [by exists s|]. exists l. split; [|done].
    by rewrite lookup_app_r, Nat.sub_diag by lia. }
  assert (Hfresh : handle_wf hist (mkHandle (heap st ++ [new (effective_rps s) (effective_burst s) now])
      (Some (mkSlot (generation s) (effective_rps s) (effective_burst s) (length (heap st)))))).
  { apply Hnew; [auto with zims|]. unfold new. by destruct (scaled_limits _ _). }
  destruct (slot st) as [sl|] eqn:Esl; [|done]. destruct Hsl as [(s0 & H0 & Hg & Hrps & Hb) (l & Hl & Hsc)].
  destruct (slot_gen sl =? generation s).
  { split; cbn; [done|]. rewrite Esl. eauto 10. }
  destruct ((slot_rps sl =? effective_rps s) && (slot_burst sl =? effective_burst s)) eqn:E.
  - apply andb_true_iff in E as [E1 E2]. apply Z.eqb_eq in E1, E2.
    split; cbn; [done|]. split; [by exists s|]. exists l. by rewrite <- E1, <- E2.
  - rewrite Hl. apply Hnew.
    + apply resized_wf. by apply (Forall_lookup_1 _ _ _ _ Hh Hl).
    + unfold resized. by destruct (scaled_limits _ _).
Qed.

Lemma acquire_wf {Cfg} `{!RateSettings Cfg} (hist : Cfg -> Prop) st p now r st' :
  in_u64 now -> acquire_at st p now = Some (r, st') -> handle_wf hist st -> handle_wf hist st'.
Proof.
  intros Hn Ha [Hh Hsl]. unfold acquire_at in Ha.
  destruct (heap st !! p) as [l|] eqn:Hl; [|done].
  pose proof (Forall_lookup_1 _ _ _ _ Hh Hl) as Hw.
  pose proof (try_acquire_wf l now Hw Hn) as Hw'.
  destruct (try_acquire_limits l now) as (Hc & Hr & _).
  destruct (try_acquire l now) as [r0 l'] eqn:E. simplify_eq/=. split; cbn.
  - by apply Forall_insert.
  - destruct (slot st) as [sl|]; [|done]. destruct Hsl as [Hs (l0 & Hl0 & Hsc)]. split; [done|].
    destruct (decide (p = slot_limiter sl)) as [->|Hne].
    + exists l'. simplify_eq. split; [|by rewrite Hc, Hr].
      apply list_lookup_insert_eq. by eapply lookup_lt_Some.
    + exists l0. by rewrite list_lookup_insert_ne.
Qed.

Lemma hsteps_wf {Cfg} `{!RateSettings Cfg} (hist : Cfg -> Prop) st st' :
  handle_wf hist st -> rtc (hstep hist) st st' -> handle_wf hist st'.
Proof.
  intros Hw Hr. induction Hr as [|st st1 st2 Hstep _ IH]; [done|]. apply IH.
  destruct Hstep; eauto using limiter_wf, acquire_wf.
Qed.

Lemma handle_new_wf {Cfg} `{!RateSettings Cfg} (hist : Cfg -> Prop) :
  handle_wf hist handle_new.
Proof. by split. Qed.

(** A refusal's hint is between 1 and 60000. *)
Lemma hint_range l now ms l' : wf l -> try_acquire l now = (Err ms, l') -> 1 <= ms <= 60000.
Proof.
  intros Hw Ht. pose proof (wf_limits l Hw) as [Hc Hr]. unfold try_acquire in Ht. rl_unfold.
  destruct (Z.ltb_spec (Z.min (tokens (inner l) + refill_at l now) (capacity l)) 1000000) as [Hlt|Hge];
    simplify_eq/=.
  assert (0 <= (1000000 - Z.min (tokens (inner l) + refill_at l now) (capacity l)) * 1000000000
                 / refill_per_sec l / 1000) by (repeat apply Z.div_pos; lia).
  lia.
Qed.

(** [limiter()] returns a live pointer. *)
Lemma limiter_live {Cfg} `{!RateSettings Cfg} (hist : Cfg -> Prop) st s now p st' :
  handle_wf hist st -> limiter st s now = (p, st') -> exists l, heap st' !! p = Some l.
Proof.
  intros [_ Hsl] Hlim. unfold limiter in Hlim.
  assert (Hnew : forall (h : list RateLimiter) l, (h ++ [l]) !! length h = Some l)
    by (intros; by rewrite lookup_app_r, Nat.sub_diag by lia).
  destruct (slot st) as [sl|]; [|simplify_eq/=; eauto].
  destruct Hsl as [_ (l & Hl & _)].
  repeat case_match; unfold alloc in *; simplify_eq/=; eauto.
Qed.

(** ** Properties *)

(** C35: the limiter lets through what it has and what the rate pays for.  Over
    any sequence of calls at non-decreasing times, starting from any state of
    the bucket, the requests allowed cost at most the balance it started with
    (never over [burst] tokens) plus what the refill rate pays for in the
    elapsed time; and as long as the balance covers all the calls, none is
    refused. *)
Theorem rate_bound l ts n l' :
  wf l -> Sorted Z.le (last_refill (inner l) :: ts) -> Forall in_u64 ts ->
  run l ts = (n, l') ->
  n * SCALE * NS_PER_SEC <=
    tokens (inner l) * NS_PER_SEC + refill_per_sec l * (last_refill (inner l') - last_refill (inner l)) /\
  (Z.of_nat (length ts) * SCALE <= tokens (inner l) -> n = Z.of_nat (length ts)).
Proof.
  intros Hw Hs Hin Hrun. pose proof (run_potential ts l Hw Hs Hin) as H.
  rewrite Hrun in H. destruct H as [Hw' H]. split.
  - destruct Hw' as (_ & Ht & _). rl_unfold. lia.
  - intros Hb. pose proof (run_covered ts l Hw Hin Hb) as Hc. by rewrite Hrun in Hc.
Qed.

Lemma rate_bound_witness :
  let l := mkLimiter (mkBucket 1000000 0) 2000000 1000000 in
  let ts := [0; 0; 500000000; 1000000000] in
  run l ts = (2, mkLimiter (mkBucket 0 1000000000) 2000000 1000000) /\
  2 * SCALE * NS_PER_SEC <= 1000000 * NS_PER_SEC + refill_per_sec l * (1000000000 - 0).
Proof.
  split; [reflexivity|].
  apply (rate_bound (mkLimiter (mkBucket 1000000 0) 2000000 1000000) [0; 0; 500000000; 1000000000] 2
           (mkLimiter (mkBucket 0 1000000000) 2000000 1000000)).
  - split; [exists 1, 2; reflexivity|]. cbn. split; int_lia.
  - repeat constructor; cbn; lia.
  - repeat constructor; int_lia.
  - reflexivity.
Defined.

(** More than [burst] requests pass within a second: with a burst of 2 and one
    request per second, three within a second, and with the defaults three
    hundred. *)
Example burst_and_refill_in_one_second :
  fst (run (new 1 2 0) [0; 0; 1000000000]) = 3 /\
  fst (run (new 100 200 0) (repeat 0 200 ++ repeat 1000000000 100)) = 300.
Proof. split; vm_compute; reflexivity. Qed.

(** Every arithmetic step of [try_acquire] stays inside its type: the
    [u128] refill product does not saturate, the refilled sum and the deficit
    product fit [u128], the divisor is positive, the balance left fits [u64]
    and the capacity, and a rejection carries a hint between 1 and 60000. *)
Theorem try_acquire_bounds l now r l' :
  wf l -> in_u64 now -> try_acquire l now = (r, l') ->
  in_u128 (saturating_sub now (last_refill (inner l)) * refill_per_sec l) /\
  in_u128 (tokens (inner l) + refill_at l now) /\
  0 < refill_per_sec l /\
  in_u64 (tokens (inner l')) /\ tokens (inner l') <= capacity l /\
  match r with
  | Ok _ => True
  | Err ms => in_u128 ((NEED - tokens (inner l')) * NS_PER_SEC) /\
              0 < NEED - tokens (inner l') /\ 1 <= ms <= 60000
  end.
Proof.
  intros Hw Hn Ht. pose proof (wf_limits l Hw) as [Hc Hr].
  pose proof (refill_at_nonneg l now Hw) as Hf. pose proof (refill_at_exact l now Hw Hn) as He.
  pose proof (try_acquire_wf l now Hw Hn) as (_ & Ht' & _).
  assert (Hhint : match r with Ok _ => True | Err ms => 1 <= ms <= 60000 end)
    by (destruct r; [done|by eapply hint_range]).
  destruct (try_acquire_limits l now) as (Hc' & _ & _).
  rewrite Ht in Ht', Hc'. cbn [snd] in Ht', Hc'. rewrite Hc' in Ht'.
  destruct Hw as (_ & Htok & Hl).
  assert (Hel : 0 <= saturating_sub now (last_refill (inner l)) <= u64_max) by int_lia.
  assert (Hprod : 0 <= saturating_sub now (last_refill (inner l)) * refill_per_sec l
                    <= u64_max * (RPS_CEILING * SCALE)).
  { rl_unfold. split; [apply Z.mul_nonneg_nonneg | apply Z.mul_le_mono_nonneg]; lia. }
  assert (Href : refill_at l now <= u64_max * (RPS_CEILING * SCALE)).
  { rewrite He. apply Z.div_le_upper_bound; [rl_unfold; lia|].
    etrans; [apply Hprod|]. rl_unfold. unfold u64_max. lia. }
  rl_unfold. unfold in_u128, in_u64, u128_max, u64_max in *.
  split; [lia|]. split; [lia|]. split; [lia|]. split; [lia|]. split; [lia|].
  unfold try_acquire in Ht. rl_unfold.
  destruct (Z.ltb_spec (Z.min (tokens (inner l) + refill_at l now) (capacity l)) 1000000) as [Hlt|Hge];
    simplify_eq/=; [|done].
  split; [lia|]. split; [lia|]. exact Hhint.
Qed.

Lemma try_acquire_bounds_witness :
  let l := mkLimiter (mkBucket 0 0) 1000000 1000000 in
  try_acquire l 0 = (Err 60000, l) /\
  in_u128 (saturating_sub 0 (last_refill (inner l)) * refill_per_sec l).
Proof.
  split; [reflexivity|].
  apply (try_acquire_bounds (mkLimiter (mkBucket 0 0) 1000000 1000000) 0 (Err 60000)
           (mkLimiter (mkBucket 0 0) 1000000 1000000)); [| int_lia | reflexivity].
  split; [exists 1, 1; reflexivity|]. cbn. split; int_lia.
Defined.

(** The retry hint of a rejection, read in milliseconds as its callers
    read it, is long enough: a client that waits it finds a whole token,
    whatever the rejection's balance. *)
Theorem retry_hint_sufficient l now ms l' later :
  wf l -> in_u64 now -> try_acquire l now = (Err ms, l') ->
  now + ms * 1000000 <= later -> in_u64 later ->
  fst (try_acquire l' later) = Ok tt.
Proof.
  intros Hw Hn Ht Hle Hlat. pose proof (wf_limits l Hw) as [Hc Hr].
  pose proof (try_acquire_wf l now Hw Hn) as Hw'. rewrite Ht in Hw'. cbn [snd] in Hw'.
  pose proof (refill_at_exact l' later Hw' Hlat) as He.
  destruct (try_acquire_limits l now) as (Hcl & Hrl & Hll). rewrite Ht in Hcl, Hrl, Hll.
  cbn [snd] in *. rewrite Hrl, Hll in He. clear Hcl Hrl Hll Hw'.
  unfold try_acquire in Ht. destruct (_ <? NEED) eqn:Hlt; [|done].
  injection Ht as <- <-. cbn [inner last_refill] in He.
  set (b := Z.min (tokens (inner l) + refill_at l now) (capacity l)) in *.
  apply Z.ltb_lt in Hlt.
  assert (Hb : 0 <= b).
  { pose proof (refill_at_nonneg l now Hw). destruct Hw as (_ & ? & _). unfold b. rl_unfold. lia. }
  enough (Hneed : NEED - b <= refill_at (mkLimiter (mkBucket b now) (capacity l) (refill_per_sec l)) later).
  { unfold try_acquire. cbn [inner tokens capacity]. rewrite (proj2 (Z.ltb_ge _ _)); [done|].
    rl_unfold. lia. }
  rewrite He. apply Z.div_le_lower_bound; [rl_unfold; lia|].
  set (D := (NEED - b) * NS_PER_SEC) in *. set (R := refill_per_sec l) in *.
  assert (HR : 0 < R) by (rl_unfold; lia).
  pose proof (hint_covers_wait D R ltac:(unfold D; rl_unfold; lia) HR
                ltac:(unfold D; rl_unfold; nia)).
  pose proof (Z.mul_succ_div_gt D R HR).
  unfold saturating_sub. rewrite Z.max_r by nia. nia.
Qed.

Lemma retry_hint_sufficient_witness :
  let l := mkLimiter (mkBucket 0 0) 1000000 1000000 in
  try_acquire l 0 = (Err 60000, l) /\ fst (try_acquire l 60000000000) = Ok tt.
Proof.
  split; [reflexivity|].
  apply (retry_hint_sufficient (mkLimiter (mkBucket 0 0) 1000000 1000000) 0 60000
           (mkLimiter (mkBucket 0 0) 1000000 1000000)); [| int_lia | reflexivity | lia | int_lia].
  split; [exists 1, 1; reflexivity|]. cbn. split; int_lia.
Defined.

(** The hint is not the wait in milliseconds: at 1 request per second a
    drained bucket has its next token after one second (10^9 ns), the hint
    asks for 60000 ms.  The value computed is in microseconds. *)
Theorem retry_hint_is_microseconds :
  let l := mkLimiter (mkBucket 0 0) SCALE SCALE in
  fst (try_acquire l 0) = Err 60000 /\ fst (try_acquire l NS_PER_SEC) = Ok tt /\
  (forall b : Z, 0 <= b < NEED -> forall R : Z, 100 * SCALE <= R ->
     fst (try_acquire (mkLimiter (mkBucket b 0) SCALE R) 0) =
     Err ((NEED - b) * NS_PER_SEC / R / 1000 + 1)).
Proof.
  split; [reflexivity|]. split; [reflexivity|].
  intros b Hb R HR. unfold try_acquire, refill_at, saturating_sub, saturating_mul. cbn.
  rewrite Z.add_0_r. rl_unfold. rewrite Z.min_l by lia. rewrite (proj2 (Z.ltb_lt _ _)) by lia.
  cbn. f_equal. apply Z.min_l.
  assert ((1000000 - b) * 1000000000 / R <= 10000000) by (apply Z.div_le_upper_bound; nia).
  assert ((1000000 - b) * 1000000000 / R / 1000 <= 10000) by (apply Z.div_le_upper_bound; lia).
  lia.
Qed.

(** The generation-gated handle is sound: if the settings generation
    determines the two limits (every mutation bumps it), then after any
    history of rebuilds and acquisitions, the limiter [limiter()] returns was
    built for the settings it was called with, and is well-formed. *)
Theorem limiter_tracks_settings {Cfg} `{!RateSettings Cfg} (hist : Cfg -> Prop) st s now p st' :
  (forall s1 s2, hist s1 -> hist s2 -> generation s1 = generation s2 ->
     effective_rps s1 = effective_rps s2 /\ effective_burst s1 = effective_burst s2) ->
  rtc (hstep hist) handle_new st -> hist s -> in_u64 now ->
  limiter st s now = (p, st') ->
  exists l, heap st' !! p = Some l /\ wf l /\
    scaled_limits (effective_rps s) (effective_burst s) = (capacity l, refill_per_sec l).
Proof.
  intros Hgen Hreach Hs Hn Hlim.
  pose proof (hsteps_wf hist _ _ (handle_new_wf hist) Hreach) as Hw.
  pose proof (limiter_wf hist st s now Hs Hn Hw) as Hw'.
  rewrite Hlim in Hw'. cbn [snd] in Hw'. destruct Hw' as [Hh Hsl].
  assert (Hslot : exists g, slot st' = Some (mkSlot g (effective_rps s) (effective_burst s) p) \/
            (slot st' = slot st /\ exists sl, slot st = Some sl /\ slot_gen sl = generation s /\
              slot_limiter sl = p)).
  { unfold limiter in Hlim. destruct (slot st) as [sl|] eqn:Es.
    - destruct (Z.eqb_spec (slot_gen sl) (generation s)).
      + simplify_eq. exists 0. right. eauto.
      + repeat case_match; simplify_eq/=; eauto.
    - simplify_eq/=; eauto. }
  destruct Hslot as [g [E|(E & sl & Es & Hg & <-)]].
  - rewrite E in Hsl. cbn in Hsl. destruct Hsl as [_ (l & Hl & Hsc)].
    exists l. split_and!; [done | by eapply Forall_lookup_1 | done].
  - rewrite E, Es in Hsl. destruct Hsl as [(s0 & H0 & Hg0 & Hr0 & Hb0) (l & Hl & Hsc)].
    destruct (Hgen s0 s H0 Hs ltac:(congruence)) as [Hr Hb].
    exists l. split_and!; [done | by eapply Forall_lookup_1 | by rewrite <- Hr, <- Hb, Hr0, Hb0].
Qed.

#[local] Instance pair_settings : RateSettings (Z * Z * Z) := {
  generation s := fst (fst s);
  rate_limit_rps s := Some (snd (fst s));
  rate_limit_burst s := Some (snd s)
}.

Lemma limiter_tracks_settings_witness :
  exists l,
    heap (snd (limiter handle_new (2, 5, 5) 7)) !! 0%nat = Some l /\ wf l /\
    scaled_limits (effective_rps (2, 5, 5)) (effective_burst (2, 5, 5)) =
    (capacity l, refill_per_sec l).
Proof.
  apply (limiter_tracks_settings (fun s : Z * Z * Z => s = (1, 10, 20) \/ s = (2, 5, 5))
           handle_new (2, 5, 5) 7 0%nat (snd (limiter handle_new (2, 5, 5) 7))).
  - intros s1 s2 [-> | ->] [-> | ->]; cbn; intros [=]; done.
  - apply rtc_refl.
  - by right.
  - int_lia.
  - reflexivity.
Defined.

(** A runtime resize carries the balance: it never grants tokens (the
    new balance is at most the old one and at most the new capacity), loses
    none that fit, and keeps the refill clock. *)
Theorem resized_carries_balance old rps burst :
  let l := resized old rps burst in
  tokens (inner l) = Z.min (tokens (inner old)) (capacity l) /\
  tokens (inner l) <= tokens (inner old) /\
  last_refill (inner l) = last_refill (inner old) /\
  (capacity l, refill_per_sec l) = (clamp 1 BURST_CEILING burst * SCALE, clamp 1 RPS_CEILING rps * SCALE).
Proof.
  intros l. unfold l, resized. rewrite scaled_limits_eq. cbn [inner tokens capacity last_refill refill_per_sec].
  split_and!; [done | lia | done | done].
Qed.

(** The [Retry-After] header rounds up: it never tells a client to come
    back before the millisecond hint, is at least one second, and overshoots
    by less than a second. *)
Theorem retry_after_rounds_up ms :
  0 <= ms ->
  ms <= ms_to_retry_after_secs ms * 1000 /\ 1 <= ms_to_retry_after_secs ms /\
  (1 <= ms -> ms_to_retry_after_secs ms * 1000 < ms + 1000).
Proof.
  intros H. unfold ms_to_retry_after_secs. pose proof (div_ceil_bounds ms 1000 H ltac:(lia)).
  split_and!; lia.
Qed.

Lemma retry_after_rounds_up_witness :
  1500 <= ms_to_retry_after_secs 1500 * 1000 /\ ms_to_retry_after_secs 1500 = 2.
Proof. split; [apply (retry_after_rounds_up 1500); lia | reflexivity]. Defined.
