(* ===== verification/Cidr.v ===== *)
(** * Cidr: trusted proxies and the client address

    [src/access/cidr.rs]: the comma-separated [general.trusted_proxy_cidrs]
    list, the start-up guards on it and the resolution of the client address
    from the peer and [X-Forwarded-For].  The [ipnet] crate is the interface
    [IpNetApi]; [num_ipnet] is a concrete implementation used to evaluate
    cases. *)

From S2P Require Import Prelude RustStr IpAddr.

Definition is_v4 (ip : IpAddr) : bool :=
  match ip with V4 _ _ _ _ => true | V6 _ _ _ _ _ _ _ _ => false end.

(** The [ipnet::IpNet] operations in use and what the crate documents of
    them: an entry has a slash, and a prefix of length 0 contains every
    address of its family. *)
Class IpNetApi := {
  IpNet : Type;
  ipnet_parse : string -> option IpNet;
  ipnet_is_v4 : IpNet -> bool;
  prefix_len : IpNet -> Z;
  ipnet_contains : IpNet -> IpAddr -> bool;
  ipnet_parse_slash s n : ipnet_parse s = Some n -> contains_char "/"%char s = true;
  ipnet_contains_all n ip :
    prefix_len n = 0 -> is_v4 ip = ipnet_is_v4 n -> ip_wf ip -> ipnet_contains n ip = true
}.

Definition comma : ascii -> bool := Ascii.eqb ","%char.

Section Cidr.
Context `{IpNetApi}.

Definition parse_cidr_entry (s : string) : option IpNet := ipnet_parse (trim s).

Definition cidrs_contains (cidrs : string) (ip : IpAddr) : bool :=
  existsb (fun s =>
    let s := trim s in
    if str_is_empty s then false
    else if negb (contains_char "/"%char s) then bool_decide (parse_ip s = Some ip)
    else
      match parse_cidr_entry s with
      | Some net => ipnet_contains net ip
      | None => false
      end) (split_on comma cidrs).

Definition has_over_broad_cidr (cidrs : string) : bool :=
  if str_is_empty (trim cidrs) then false
  else existsb (fun s =>
    match parse_cidr_entry s with
    | Some net => if ipnet_is_v4 net then prefix_len net <=? 8 else prefix_len net <=? 56
    | None => false
    end) (split_on comma cidrs).

Definition has_zero_prefix_cidr (cidrs : string) : bool :=
  if str_is_empty (trim cidrs) then false
  else existsb (fun s =>
    match parse_cidr_entry s with
    | Some net => prefix_len net =? 0
    | None => false
    end) (split_on comma cidrs).

(** The parseable addresses of the header, left to right. *)
Definition xff_entries (xff : option string) : list IpAddr :=
  match xff with
  | Some s => omap (fun t => parse_ip (trim t)) (split_on comma s)
  | None => []
  end.

Definition client_ip_from_xff (cidrs : string) (xff : option string) (peer : IpAddr) : IpAddr :=
  if negb (cidrs_contains cidrs peer) then peer
  else
    match xff_entries xff with
    | [] => peer
    | (first :: _) as entries =>
        match List.find (fun c => negb (cidrs_contains cidrs c)) (rev entries) with
        | Some c => c
        | None => first
        end
    end.

(** ** Lemmas *)

Lemma xff_entries_wf xff ip : ip ∈ xff_entries xff -> ip_wf ip.
Proof.
  destruct xff as [s|]; cbn; [|set_solver].
  rewrite list_elem_of_omap. intros (t & _ & Ht). eauto with zims.
Qed.

Lemma xff_entries_app a b :
  xff_entries (Some (a +:+ String "," b)) = xff_entries (Some a) ++ xff_entries (Some b).
Proof. unfold xff_entries. rewrite split_on_app by done. apply omap_app. Qed.

Lemma find_app_some {A} (f : A -> bool) l1 l2 x :
  List.find f l1 = Some x -> List.find f (l1 ++ l2) = Some x.
Proof. induction l1 as [|a l1 IH]; cbn; [done|]. by destruct (f a). Qed.

(** The first match of the reversed list is the rightmost match. *)
Lemma find_rev_split {A} (f : A -> bool) l x :
  List.find f (rev l) = Some x ->
  exists l1 l2, l = l1 ++ x :: l2 /\ f x = true /\ Forall (fun y => f y = false) l2.
Proof.
  revert x. induction l as [|a l IH] using rev_ind; intros x; cbn; [done|].
  rewrite rev_app_distr. cbn. destruct (f a) eqn:Ea.
  - intros [= <-]. exists l, []. auto.
  - intros (l1 & l2 & -> & Hx & Hall)%IH. exists l1, (l2 ++ [a]).
    rewrite <- app_assoc. split_and!; auto. apply Forall_app; auto.
Qed.

Lemma find_rev_none {A} (f : A -> bool) l :
  List.find f (rev l) = None -> Forall (fun y => f y = false) l.
Proof.
  induction l as [|a l IH] using rev_ind; cbn; [done|].
  rewrite rev_app_distr. cbn. destruct (f a) eqn:Ea; [done|].
  intros Hl. apply Forall_app; auto.
Qed.

(** A prefix-0 entry trusts its whole family. *)
Lemma zero_prefix_trusts cidrs :
  has_zero_prefix_cidr cidrs = true ->
  exists v4, forall ip, is_v4 ip = v4 -> ip_wf ip -> cidrs_contains cidrs ip = true.
Proof.
  unfold has_zero_prefix_cidr. destruct (str_is_empty (trim cidrs)); [done|].
  rewrite existsb_exists. intros (s & Hin & Hs).
  destruct (parse_cidr_entry s) as [net|] eqn:En; [|done]. apply Z.eqb_eq in Hs.
  exists (ipnet_is_v4 net). intros ip Hf Hw. apply existsb_exists. exists s. split; [done|]. cbn.
  unfold parse_cidr_entry in *. pose proof (ipnet_parse_slash _ _ En) as Hslash.
  rewrite trim_idem, En, Hslash. destruct (trim s); [done|]. cbn.
  by apply ipnet_contains_all.
Qed.

End Cidr.

(** A concrete [IpNetApi]: an address and a decimal prefix length around the
    first slash, containment by comparing the network parts. *)
Record NumNet := mkNumNet { nn_addr : IpAddr; nn_len : Z }.

Definition ip_bits (ip : IpAddr) : Z := if is_v4 ip then 32 else 128.

Definition ip_num (ip : IpAddr) : Z :=
  match ip with
  | V4 a b c d => v4_num a b c d
  | V6 a b c d e f g h => v6_num a b c d e f g h
  end.

Definition num_parse (s : string) : option NumNet :=
  if contains_char "/"%char s then
    match split_once "/" s with
    | Some (a, l) =>
        match parse_ip a, parse_unsigned 255 l with
        | Some ip, Some n => if n <=? ip_bits ip then Some (mkNumNet ip n) else None
        | _, _ => None
        end
    | None => None
    end
  else None.

Definition num_contains (n : NumNet) (ip : IpAddr) : bool :=
  Bool.eqb (is_v4 ip) (is_v4 (nn_addr n)) &&
  ((nn_len n =? 0) ||
   (Z.shiftr (ip_num ip) (ip_bits ip - nn_len n) =?
    Z.shiftr (ip_num (nn_addr n)) (ip_bits ip - nn_len n))).

Lemma num_parse_slash s n : num_parse s = Some n -> contains_char "/"%char s = true.
Proof. unfold num_parse. by destruct (contains_char _ s). Qed.

Lemma num_contains_all n ip :
  nn_len n = 0 -> is_v4 ip = is_v4 (nn_addr n) -> ip_wf ip -> num_contains n ip = true.
Proof. intros Hl Hf _. unfold num_contains. by rewrite Hl, Hf, eqb_reflx. Qed.

Definition num_ipnet : IpNetApi := {|
  IpNet := NumNet;
  ipnet_parse := num_parse;
  ipnet_is_v4 n := is_v4 (nn_addr n);
  prefix_len := nn_len;
  ipnet_contains := num_contains;
  ipnet_parse_slash := num_parse_slash;
  ipnet_contains_all := num_contains_all
|}.

(** ** Properties *)

(** The client key.  An untrusted peer is its own key whatever the header
    says; for a trusted peer the key is the rightmost header entry outside
    the trusted list, the leftmost entry when all of them are trusted, and
    the peer when the header has no address. *)
Theorem client_ip_from_xff_spec `{IpNetApi} cidrs xff peer :
  let ip := client_ip_from_xff cidrs xff peer in
  let trusted c := cidrs_contains cidrs c = true in
  (cidrs_contains cidrs peer = false /\ ip = peer) \/
  (trusted peer /\ xff_entries xff = [] /\ ip = peer) \/
  (trusted peer /\ Forall trusted (xff_entries xff) /\ head (xff_entries xff) = Some ip) \/
  (trusted peer /\ exists l r, xff_entries xff = l ++ ip :: r /\ ~ trusted ip /\ Forall trusted r).
Proof.
  cbn zeta. unfold client_ip_from_xff. destruct (cidrs_contains cidrs peer) eqn:Ep; cbn [negb]; [|by left].
  right. destruct (xff_entries xff) as [|e es] eqn:Ee; [by left|]. right.
  destruct (List.find _ _) as [c|] eqn:Ef.
  - right. split; [done|]. apply find_rev_split in Ef as (l & r & Hl & Hc & Hr).
    exists l, r. split_and!; [done|destruct (cidrs_contains cidrs c); cbn in Hc; congruence|].
    eapply Forall_impl; [exact Hr|]. cbn. intros y. by destruct (cidrs_contains cidrs y).
  - left. apply find_rev_none in Ef. split_and!; [done| |done].
    eapply Forall_impl; [exact Ef|]. cbn. intros y. by destruct (cidrs_contains cidrs y).
Qed.

(** Forging does not move the key.  A client can only prepend to the
    header its proxies wrote; once the part they wrote holds an address
    outside the trusted list, nothing the client prepends changes the key, so
    rotating header values does not escape the per-address lockout. *)
Theorem forged_xff_prefix_ignored `{IpNetApi} cidrs forged real peer :
  (exists ip, ip ∈ xff_entries (Some real) /\ cidrs_contains cidrs ip = false) ->
  client_ip_from_xff cidrs (Some (forged +:+ String "," real)) peer =
  client_ip_from_xff cidrs (Some real) peer.
Proof.
  intros (ip & Hin & Hu). unfold client_ip_from_xff. rewrite xff_entries_app.
  destruct (negb (cidrs_contains cidrs peer)); [done|].
  generalize (xff_entries (Some forged)) as fs. intros fs.
  destruct (xff_entries (Some real)) as [|e es]; [set_solver|].
  destruct (List.find (fun c => negb (cidrs_contains cidrs c)) (rev (e :: es))) as [c|] eqn:Ef.
  - assert (Hf : List.find (fun c => negb (cidrs_contains cidrs c)) (rev (fs ++ e :: es)) = Some c)
      by (rewrite rev_app_distr; by apply find_app_some).
    destruct fs; cbn [app] in *; by rewrite Hf.
  - apply find_rev_none in Ef. rewrite Forall_forall in Ef. apply Ef in Hin.
    by rewrite Hu in Hin.
Qed.

Lemma forged_xff_prefix_ignored_witness :
  @client_ip_from_xff num_ipnet "10.0.0.0/8" (Some "6.6.6.6, 10.9.9.9,203.0.113.7, 10.0.0.2")
    (V4 10 0 0 1) = V4 203 0 113 7 /\
  @client_ip_from_xff num_ipnet "10.0.0.0/8" (Some ("6.6.6.6, 10.9.9.9" +:+ String "," "203.0.113.7, 10.0.0.2"))
    (V4 10 0 0 1) =
  @client_ip_from_xff num_ipnet "10.0.0.0/8" (Some "203.0.113.7, 10.0.0.2") (V4 10 0 0 1).
Proof.
  split; [reflexivity|].
  apply (@forged_xff_prefix_ignored num_ipnet).
  exists (V4 203 0 113 7). split; [|reflexivity].
  vm_compute. apply list_elem_of_here.
Defined.

(** Why a prefix-0 entry is refused at start-up: with one in the list,
    every peer and every header entry of its family is trusted, so the key is
    whatever the client wrote leftmost in the header. *)
Theorem zero_prefix_lets_client_choose_key `{IpNetApi} cidrs :
  has_zero_prefix_cidr cidrs = true ->
  exists v4, forall peer s e es,
    is_v4 peer = v4 -> ip_wf peer -> xff_entries (Some s) = e :: es ->
    Forall (fun c => is_v4 c = v4) (e :: es) ->
    client_ip_from_xff cidrs (Some s) peer = e.
Proof.
  intros (v4 & Hall)%zero_prefix_trusts. exists v4. intros peer s e es Hp Hw He Hes.
  unfold client_ip_from_xff. rewrite He, (Hall peer) by done. cbn [negb].
  destruct (List.find _ _) as [c|] eqn:Ef; [|done].
  apply find_some in Ef as [Hin%in_rev Hc]. apply list_elem_of_In in Hin.
  rewrite (Hall c) in Hc; [done| |].
  - by apply (proj1 (Forall_forall _ _) Hes).
  - apply (xff_entries_wf (Some s)). by rewrite He.
Qed.

Lemma zero_prefix_lets_client_choose_key_witness :
  @has_zero_prefix_cidr num_ipnet "192.168.0.0/16, 1.2.3.4/0" = true /\
  exists v4, forall peer s e es,
    is_v4 peer = v4 -> ip_wf peer -> xff_entries (Some s) = e :: es ->
    Forall (fun c => is_v4 c = v4) (e :: es) ->
    @client_ip_from_xff num_ipnet "192.168.0.0/16, 1.2.3.4/0" (Some s) peer = e.
Proof.
  split; [reflexivity|]. apply (@zero_prefix_lets_client_choose_key num_ipnet). reflexivity.
Defined.
