(* ===== verification/Lockout.v ===== *)
(** * Lockout: the per-address authentication lockout

    [src/access/lockout.rs].  The tracker is the map behind the mutex; every
    operation holds the lock for its whole body, so an operation is one
    atomic step.  Both operations that read the clock can read it twice, so
    they take two instants.  Instants are nanoseconds on the monotonic clock,
    [elapsed] saturates at zero, and subtracting a longer [Duration] from
    [WINDOW] panics. *)

From S2P Require Import Prelude RustStr IpAddr.

Definition MAX_FAILURES : Z := 5.
Definition WINDOW : Z := 15 * 60 * 1000000000.
Definition MAX_TRACKED : Z := 10000.

(** Failure count ([u32]) and first failure of the window, per address. *)
Abbreviation LockoutTracker := (gmap IpAddr (Z * Z)).

Definition elapsed (now first : Z) : Z := saturating_sub now first.

Section Lockout.
Context {Hiter : HashIter IpAddr (Z * Z)}.

(** The filter reads the clock at [now], the subtraction at [now']. *)
Definition lockout_remaining (now now' : Z) (ip : IpAddr) (m : LockoutTracker) :
    may_panic (option Z) :=
  match m !! ip with
  | Some (n, first) =>
      if (MAX_FAILURES <=? n) && (elapsed now first <? WINDOW)
      then if elapsed now' first <=? WINDOW then Ok (Some (WINDOW - elapsed now' first))
           else Err Panicked
      else Ok None
  | None => Ok None
  end.

Definition is_locked_out (now now' : Z) (ip : IpAddr) (m : LockoutTracker) : may_panic bool :=
  let? r := lockout_remaining now now' ip m in
  Ok (match r with Some _ => true | None => false end).

Definition window_active (now : Z) (entry : option (Z * Z)) : bool :=
  match entry with
  | Some (_, first) => elapsed now first <? WINDOW
  | None => false
  end.

Definition bump (n : Z) : Z := (n + 1) mod 2 ^ 32.

(** The window test reads the clock at [now], the insertion at [now']. *)
Definition record_failure (now now' : Z) (ip : IpAddr) (m : LockoutTracker) : LockoutTracker :=
  if window_active now (m !! ip) then
    match m !! ip with
    | Some (n, first) => <[ip := (bump n, first)]> m
    | None => m
    end
  else
    let m := if MAX_TRACKED <=? map_len m then evict_oldest snd m else m in
    <[ip := (1, now')]> m.

Definition record_success (ip : IpAddr) (m : LockoutTracker) : LockoutTracker := delete ip m.

(** ** Traces *)

Inductive Event :=
| Failure (now now' : Z) (ip : IpAddr)
| Success (ip : IpAddr).

Definition event_ip (e : Event) : IpAddr :=
  match e with Failure _ _ ip => ip | Success ip => ip end.

Definition step (m : LockoutTracker) (e : Event) : LockoutTracker :=
  match e with
  | Failure now now' ip => record_failure now now' ip m
  | Success ip => record_success ip m
  end.

Definition run (tr : list Event) (m : LockoutTracker) : LockoutTracker := foldl step m tr.

(** ** The reference: each address counts alone

    The entry of one address, from its own events only. *)

Definition spec_step (ip : IpAddr) (entry : option (Z * Z)) (e : Event) : option (Z * Z) :=
  if bool_decide (event_ip e = ip) then
    match e with
    | Failure now now' _ =>
        match entry with
        | Some (n, first) =>
            if elapsed now first <? WINDOW then Some (bump n, first) else Some (1, now')
        | None => Some (1, now')
        end
    | Success _ => None
    end
  else entry.

Definition spec_entry (ip : IpAddr) (tr : list Event) : option (Z * Z) :=
  foldl (spec_step ip) None tr.

(** ** Lemmas *)

Lemma record_failure_size now now' ip m :
  map_len m <= MAX_TRACKED -> map_len (record_failure now now' ip m) <= MAX_TRACKED.
Proof.
  intros Hs. unfold record_failure. destruct (window_active _ _) eqn:Ew.
  - destruct (m !! ip) as [[n first]|] eqn:E; [|done].
    unfold map_len in *. rewrite map_size_insert_Some by eauto. lia.
  - destruct (Z.leb_spec MAX_TRACKED (map_len m)).
    + pose proof (evict_oldest_len snd m MAX_TRACKED Hs ltac:(unfold MAX_TRACKED; lia)).
      pose proof (map_len_insert (evict_oldest snd m) ip (1, now')). lia.
    + pose proof (map_len_insert m ip (1, now')). lia.
Qed.

Lemma step_size m e : map_len m <= MAX_TRACKED -> map_len (step m e) <= MAX_TRACKED.
Proof.
  destruct e; cbn; [apply record_failure_size|].
  intros Hs. etransitivity; [|exact Hs]. unfold map_len.
  apply inj_le, map_subseteq_size, delete_subseteq.
Qed.

(** Below the cap a step changes the entry of its own address, as the
    reference does, and no other. *)
Lemma step_refines m e ip :
  map_len m < MAX_TRACKED -> step m e !! ip = spec_step ip (m !! ip) e.
Proof.
  intros Hs. unfold spec_step. destruct e as [now now' ip'|ip']; cbn.
  - unfold record_failure. destruct (Z.leb_spec MAX_TRACKED (map_len m)); [lia|].
    case_bool_decide as Hip; [subst ip'|].
    + destruct (m !! ip) as [[n first]|] eqn:E; cbn; [case_match|]; by rewrite lookup_insert_eq.
    + repeat case_match; rewrite ?lookup_insert_ne by done; done.
  - unfold record_success. case_bool_decide as Hip; [subst|]; by simplify_map_eq.
Qed.

(** The addresses of the map come from the trace. *)
Lemma step_dom m e : dom (step m e) ⊆ {[event_ip e]} ∪ dom m.
Proof.
  destruct e as [now now' ip|ip]; cbn; unfold record_failure, record_success; [|set_solver].
  destruct (window_active _ _).
  - case_match; [case_match|]; set_solver.
  - assert (dom (evict_oldest snd m) ⊆ dom m) by apply subseteq_dom, evict_oldest_subseteq.
    case_match; set_solver.
Qed.

Lemma run_dom tr m : dom (run tr m) ⊆ list_to_set (event_ip <$> tr) ∪ dom m.
Proof.
  revert m. induction tr as [|e tr IH]; intros m; cbn; [set_solver|].
  pose proof (IH (step m e)). pose proof (step_dom m e). unfold run in *. set_solver.
Qed.

Lemma run_refines_from tr m ip :
  Z.of_nat (size (list_to_set (event_ip <$> tr) ∪ dom m : gset IpAddr)) < MAX_TRACKED ->
  run tr m !! ip = foldl (spec_step ip) (m !! ip) tr.
Proof.
  revert m. induction tr as [|e tr IH]; intros m Hs; [done|].
  change (run (e :: tr) m) with (run tr (step m e)). rewrite IH.
  - cbn. rewrite step_refines; [done|]. unfold map_len. rewrite <- (size_dom (D := gset IpAddr)).
    eapply Z.le_lt_trans; [|exact Hs]. apply inj_le, subseteq_size. set_solver.
  - eapply Z.le_lt_trans; [|exact Hs]. apply inj_le, subseteq_size.
    pose proof (step_dom m e). cbn. set_solver.
Qed.

(** Failures inside an active window only count. *)
Lemma failures_count ip t0 ts m n :
  m !! ip = Some (n, t0) -> 0 <= n -> n + Z.of_nat (length ts) < 2 ^ 32 ->
  Forall (fun t => t0 <= fst t < t0 + WINDOW) ts ->
  run ((fun t => Failure (fst t) (snd t) ip) <$> ts) m !! ip = Some (n + Z.of_nat (length ts), t0).
Proof.
  revert m n. induction ts as [|[t t'] ts IH]; intros m n Hm Hn Hb Hall; cbn in *.
  - rewrite Hm. do 2 f_equal. lia.
  - inversion_clear Hall as [|? ? Ht Hts]. cbn in Ht. unfold run in IH.
    assert (Hw : window_active t (m !! ip) = true).
    { rewrite Hm. cbn. unfold elapsed, saturating_sub. apply Z.ltb_lt. lia. }
    rewrite (IH _ (n + 1)); [do 2 f_equal; lia| |lia|lia|done].
    unfold record_failure. rewrite Hw, Hm, lookup_insert_eq. unfold bump.
    by rewrite Z.mod_small by lia.
Qed.

(** A run of failures from no active window: one entry, counting them all. *)
Lemma failures_entry ip t t0 ts m :
  window_active t (m !! ip) = false ->
  Forall (fun t => t0 <= fst t < t0 + WINDOW) ts -> Z.of_nat (length ts) < 2 ^ 32 - 1 ->
  run ((fun t => Failure (fst t) (snd t) ip) <$> (t, t0) :: ts) m !! ip =
  Some (1 + Z.of_nat (length ts), t0).
Proof.
  intros Hw Hall Hlen. cbn [fmap list_fmap run foldl step].
  apply (failures_count ip t0 ts); [|lia..|done].
  unfold record_failure. cbn [fst snd]. by rewrite Hw, lookup_insert_eq.
Qed.

Lemma lockout_remaining_entry now now' ip m n t0 :
  m !! ip = Some (n, t0) -> t0 <= now < t0 + WINDOW -> now <= now' <= t0 + WINDOW ->
  lockout_remaining now now' ip m =
  Ok (if MAX_FAILURES <=? n then Some (t0 + WINDOW - now') else None).
Proof.
  intros Hm Hnow Hnow'. unfold lockout_remaining. rewrite Hm. unfold elapsed, saturating_sub.
  destruct (Z.ltb_spec (Z.max 0 (now - t0)) WINDOW); [|lia]. rewrite andb_true_r.
  destruct (Z.leb_spec (Z.max 0 (now' - t0)) WINDOW); [|lia].
  case_match; [do 2 f_equal; lia|done].
Qed.

End Lockout.

(** ** Properties *)

(** The lockout threshold.  From any state in which the address has no
    active window, after [k] failures within fifteen minutes of the first
    (and no success) the address is locked exactly when [k] reaches five, for
    exactly the rest of the window. *)
Theorem fifth_failure_locks {Hi : HashIter IpAddr (Z * Z)} m ip t t0 ts now now' :
  window_active t (m !! ip) = false ->
  Forall (fun t => t0 <= fst t < t0 + WINDOW) ts -> Z.of_nat (length ts) < 2 ^ 32 - 1 ->
  t0 <= now < t0 + WINDOW -> now <= now' <= t0 + WINDOW ->
  lockout_remaining now now' ip
    (run ((fun t => Failure (fst t) (snd t) ip) <$> (t, t0) :: ts) m) =
  Ok (if 5 <=? 1 + Z.of_nat (length ts) then Some (t0 + WINDOW - now') else None).
Proof.
  intros Hw Hall Hlen Hnow Hnow'. apply lockout_remaining_entry; [by apply failures_entry|done..].
Qed.

Lemma fifth_failure_locks_witness :
  let ip := V4 203 0 113 9 in
  let ts := [(1, 1); (2, 3); (4, 4); (5, 6)] in
  lockout_remaining 10 11 ip
    (@run (map_order _ _) ((fun t => Failure (fst t) (snd t) ip) <$> (0, 1) :: ts) ∅) =
  Ok (Some (1 + WINDOW - 11)).
Proof.
  cbn zeta.
  rewrite (@fifth_failure_locks (map_order _ _) ∅ (V4 203 0 113 9) 0 1
             [(1, 1); (2, 3); (4, 4); (5, 6)] 10 11);
    [reflexivity | reflexivity | repeat constructor; unfold WINDOW; cbn; lia
    | cbn; lia | unfold WINDOW; lia..].
Defined.

(** C36: addresses do not interfere.  As long as a trace names fewer than
    10,000 addresses, the tracked entry of every address is the one its own
    events alone give: nobody can lock out, or unlock, someone else. *)
Theorem lockout_per_address {Hi : HashIter IpAddr (Z * Z)} tr ip :
  Z.of_nat (size (list_to_set (event_ip <$> tr) : gset IpAddr)) < MAX_TRACKED ->
  run tr ∅ !! ip = spec_entry ip tr.
Proof.
  intros Hs. rewrite (run_refines_from tr ∅ ip).
  - by rewrite lookup_empty.
  - by rewrite dom_empty_L, union_empty_r_L.
Qed.

Lemma lockout_per_address_witness :
  let a := V4 10 0 0 1 in let b := V4 10 0 0 2 in
  let tr := [Failure 1 1 a; Failure 2 2 b; Failure 3 3 a; Success b] in
  @run (map_order _ _) tr ∅ !! a = spec_entry a tr /\ spec_entry a tr = Some (2, 1).
Proof.
  split; [|reflexivity].
  apply (@lockout_per_address (map_order _ _)). reflexivity.
Defined.

(** The tracker is bounded: no sequence of events makes it hold more than
    10,000 addresses, and when a new address meets the cap the entry given up
    is one with the oldest first failure. *)
Theorem lockout_bounded {Hi : HashIter IpAddr (Z * Z)} tr now now' ip :
  let m := run tr ∅ in
  map_len m <= MAX_TRACKED /\
  (map_len m = MAX_TRACKED -> m !! ip = None ->
   exists k n first, m !! k = Some (n, first) /\
     (forall k' n' first', m !! k' = Some (n', first') -> first <= first') /\
     record_failure now now' ip m = <[ip := (1, now')]> (delete k m)).
Proof.
  cbn zeta. split.
  - assert (Hgen : forall m, map_len m <= MAX_TRACKED -> map_len (run tr m) <= MAX_TRACKED).
    { induction tr as [|e tr IH]; cbn; [done|]. intros m Hm. apply IH, step_size, Hm. }
    apply Hgen. unfold map_len. rewrite map_size_empty. unfold MAX_TRACKED. lia.
  - generalize (run tr ∅) as m. intros m Hm Hip.
    destruct (evict_oldest_spec snd m) as (k & [n first] & Hk & Hev & Hmin).
    { intros ->. rewrite lookup_empty in Hip. unfold map_len in Hm.
      rewrite map_size_empty in Hm. done. }
    exists k, n, first. split_and!; [done|intros k' n' f' Hk'; apply (Hmin _ _ Hk')|].
    unfold record_failure. rewrite Hip. cbn. rewrite Hm, Z.leb_refl. by rewrite Hev.
Qed.

(** A successful authentication clears the address: it is not locked
    afterwards, and the next failure starts a window of its own. *)
Theorem success_clears {Hi : HashIter IpAddr (Z * Z)} tr ip now now' :
  let m := run (tr ++ [Success ip]) ∅ in
  lockout_remaining now now' ip m = Ok None /\
  record_failure now now' ip m !! ip = Some (1, now').
Proof.
  cbn zeta. unfold run. rewrite foldl_app. cbn. unfold record_success. split.
  - unfold lockout_remaining. by rewrite lookup_delete_eq.
  - unfold record_failure. rewrite lookup_delete_eq. cbn. by rewrite lookup_insert_eq.
Qed.

(** The check can panic.  It reads the clock twice, and it panics exactly
    when a locked address's window is still open at the first reading and has
    been over for some time at the second. *)
Theorem lockout_check_panics_iff now now' ip m :
  lockout_remaining now now' ip m = Err Panicked <->
  exists n first, m !! ip = Some (n, first) /\ 5 <= n /\
    elapsed now first < WINDOW < elapsed now' first.
Proof.
  unfold lockout_remaining. destruct (m !! ip) as [[n first]|]; [|naive_solver].
  unfold MAX_FAILURES. destruct (Z.leb_spec 5 n), (Z.ltb_spec (elapsed now first) WINDOW); cbn;
    [destruct (Z.leb_spec (elapsed now' first) WINDOW)| | |];
    (split; [intros [=]|intros (n' & f' & [= <- <-] & ? & ?); lia || done]);
    exists n, first; split_and!; auto; lia.
Qed.
