(* ===== verification/Auth.v ===== *)
(** * Auth: stored credentials, token caches and at-rest encryption

    [src/settings/auth.rs] (password verification, the verified-token
    cache), [src/settings/encrypt.rs] (the secret rows),
    [src/settings/auth_service.rs] and the accessors of
    [src/settings/tokens.rs].  The argon2, SHA-256 and AES-GCM crates are the
    interface [Crypto].  A Rust panic is [Err Panicked]: [hex_decode] slices
    a [str] by byte offsets and can panic.  The KDF runs outside the locks,
    so verification is split at the point where the cache lock is not held
    ([verify_fast_path], [verify_finish]). *)

From S2P Require Import Prelude RustStr Errors JsonValue SettingDefs.

(** The cryptography in use, and what its crates document. *)
Class Crypto := {
  argon2_hash : string -> string -> string;
  argon2_verify : string -> string -> bool;
  sha256 : list Z -> list Z;
  gcm_seal : list Z -> list Z -> list Z -> list Z * list Z;
  gcm_open : list Z -> list Z -> list Z -> option (list Z);
  argon2_phc salt pw : starts_with "$argon2id$" (argon2_hash salt pw) = true;
  argon2_verify_hash salt pw : argon2_verify (argon2_hash salt pw) pw = true;
  sha256_length m : length (sha256 m) = 32%nat;
  sha256_bytes m : Forall is_byte (sha256 m);
  gcm_tag_length k n m : length (snd (gcm_seal k n m)) = 16%nat;
  gcm_seal_bytes k n m : Forall is_byte m ->
    Forall is_byte (fst (gcm_seal k n m)) /\ Forall is_byte (snd (gcm_seal k n m));
  gcm_open_seal k n m :
    gcm_open k n (fst (gcm_seal k n m) ++ snd (gcm_seal k n m)) = Some m
}.

(** ** Hexadecimal *)

Definition hex_char (d : Z) : Z := if d <? 10 then 48 + d else 87 + d.

Definition hex_encode_bytes (b : list Z) : list Z :=
  b ≫= (fun x => [hex_char (x / 16); hex_char (x mod 16)]).

Definition hex_encode (b : list Z) : string := str_of (hex_encode_bytes b).

Definition hex_value (x : Z) : option Z :=
  if (48 <=? x) && (x <=? 57) then Some (x - 48)
  else if (97 <=? x) && (x <=? 102) then Some (x - 87)
  else if (65 <=? x) && (x <=? 70) then Some (x - 55)
  else None.

(** [u8::from_str_radix(_, 16)] of two bytes: a plus sign is a sign. *)
Definition u8_from_hex (x y : Z) : option Z :=
  if x =? 43 then hex_value y
  else
    match hex_value x, hex_value y with
    | Some h, Some l => Some (h * 16 + l)
    | _, _ => None
    end.

(** The pairs in order; the slice of a pair needs a character boundary at
    both ends, and the first pair that does not parse ends the walk. *)
Fixpoint hex_pairs (b : list Z) : may_panic (option (list Z)) :=
  match b with
  | x :: y :: rest =>
      if is_cont x || match rest with z :: _ => is_cont z | [] => false end then Err Panicked
      else
        match u8_from_hex x y with
        | None => Ok None
        | Some v =>
            match hex_pairs rest with
            | Ok (Some vs) => Ok (Some (v :: vs))
            | o => o
            end
        end
  | _ => Ok (Some [])
  end.

Definition hex_decode (s : string) : may_panic (option (list Z)) :=
  let b := bytes_of s in
  if Z.of_nat (length b) mod 2 =? 0 then hex_pairs b else Ok None.

(** ** Password verification *)

Definition SHA2_LEGACY_ITERATION_CAP : Z := 1000000.

(** The loop over the bytes: or-accumulate the differences. *)
Fixpoint ct_diff (diff : Z) (a b : list Z) : Z :=
  match a, b with
  | x :: a', y :: b' => ct_diff (Z.lor diff (Z.lxor x y)) a' b'
  | _, _ => diff
  end.

Definition constant_time_eq (a b : string) : bool :=
  let a := bytes_of a in
  let b := bytes_of b in
  if negb (length a =? length b)%nat then false else ct_diff 0 a b =? 0.

Definition is_legacy_password (stored : string) : bool := negb (starts_with "$argon2id$" stored).

Section Auth.
Context {Cr : Crypto}.

Definition hash_admin_password (salt pw : string) : string := argon2_hash salt pw.

(** The iterated digest: once over salt and password, then [iters] times over
    salt and digest. *)
Fixpoint sha2_iterate (salt : list Z) (n : nat) (out : list Z) : list Z :=
  match n with
  | O => out
  | S n' => sha2_iterate salt n' (sha256 (salt ++ out))
  end.

Definition sha2_digest (salt : list Z) (iters : Z) (pw : string) : list Z :=
  sha2_iterate salt (Z.to_nat iters) (sha256 (salt ++ bytes_of pw)).

Definition dollar : ascii -> bool := Ascii.eqb "$"%char.

Definition verify_sha2 (rest pw : string) : may_panic bool :=
  let parts := split_on dollar rest in
  match head parts ≫= parse_unsigned u32_max with
  | None => Ok false
  | Some iters =>
      if negb (iters <=? SHA2_LEGACY_ITERATION_CAP) then Ok false
      else
        let salt_hex := default EmptyString (parts !! 1%nat) in
        let hash_hex := default EmptyString (parts !! 2%nat) in
        let? salt := hex_decode salt_hex in
        match salt with
        | Some salt =>
            if negb (length salt =? 16)%nat then Ok false
            else
              let? hash := hex_decode hash_hex in
              match hash with
              | Some h =>
                  if negb (length h =? 32)%nat then Ok false
                  else Ok (constant_time_eq (hex_encode (sha2_digest salt iters pw)) hash_hex)
              | None => Ok false
              end
        | None => Ok false
        end
  end.

Definition verify_admin_password (stored pw : string) : may_panic bool :=
  if starts_with "$argon2id$" stored then Ok (argon2_verify stored pw)
  else
    match strip_prefix "sha2:" stored with
    | Some rest => verify_sha2 rest pw
    | None => Ok (constant_time_eq pw stored)
    end.

(** The legacy row format ([hash_sha2_legacy] mints it for the tests). *)
Definition sha2_row (iters : Z) (salt : list Z) (pw : string) : string :=
  "sha2:" +:+ pretty iters +:+ "$" +:+ hex_encode salt +:+ "$" +:+
  hex_encode (sha2_digest salt iters pw).

(** ** At-rest encryption *)

Definition ENC_PREFIX : string := "enc:v1:".

Definition ENCRYPTED_AT_REST_KEYS : list string :=
  [KEY_TORRENT_PASSWORD; KEY_EMBEDDING_API_KEY; KEY_ACCESS_READ_ONLY_TOKEN].

Definition is_encrypted_at_rest_key (key : string) : bool :=
  bool_decide (key ∈ ENCRYPTED_AT_REST_KEYS).

(** [nonce] is the fresh random 12-byte nonce of the call. *)
Definition encrypt_value (kek nonce : list Z) (plaintext : string) : string :=
  let '(ct, tag) := gcm_seal kek nonce (bytes_of plaintext) in
  ENC_PREFIX +:+ hex_encode (nonce ++ ct ++ tag).

Definition decrypt_value (key : string) (kek : list Z) (stored : string) :
    may_panic (Result string) :=
  match strip_prefix ENC_PREFIX stored with
  | None => Ok (Ok stored)
  | Some hex_body =>
      let? buf := hex_decode hex_body in
      match buf with
      | None => Ok (Err (SettingsDecrypt key))
      | Some buf =>
          if Z.of_nat (length buf) <? 12 + 16 then Ok (Err (SettingsDecrypt key))
          else
            match gcm_open kek (take 12 buf) (drop 12 buf) with
            | None => Ok (Err (SettingsDecrypt key))
            | Some plain =>
                if utf8_valid plain then Ok (Ok (str_of plain))
                else Ok (Err (SettingsDecrypt key))
            end
      end
  end.

(** ** The verified-token cache

    Instants are nanoseconds on the monotonic clock. *)

Definition TOKEN_CACHE_TTL : Z := 60 * 1000000000.
Definition TOKEN_NEGATIVE_TTL : Z := 60 * 1000000000.
Definition TOKEN_CACHE_MAX : Z := 256.

Record VerifiedTokenCache := mkTokenCache {
  entries : gmap string Z;
  negatives : gmap string Z;
  positive_ttl : Z;
  negative_ttl : Z
}.

Definition with_ttl (positive negative : Z) : VerifiedTokenCache :=
  mkTokenCache ∅ ∅ positive negative.

Definition default_cache : VerifiedTokenCache := with_ttl TOKEN_CACHE_TTL TOKEN_NEGATIVE_TTL.

Definition fresh_in (now ttl : Z) (token : string) (m : gmap string Z) : bool :=
  match m !! token with
  | Some at_ => saturating_sub now at_ <? ttl
  | None => false
  end.

Definition is_fresh (now : Z) (token : string) (c : VerifiedTokenCache) : bool :=
  fresh_in now (positive_ttl c) token (entries c).

Definition is_negative_fresh (now : Z) (token : string) (c : VerifiedTokenCache) : bool :=
  fresh_in now (negative_ttl c) token (negatives c).

Context {Hiter : HashIter string Z}.

Definition record_in (now : Z) (token : string) (m : gmap string Z) : gmap string Z :=
  let full := match m !! token with Some _ => false | None => TOKEN_CACHE_MAX <=? map_len m end in
  let m := if full then evict_oldest id m else m in
  <[token := now]> m.

Definition record (now : Z) (token : string) (ok : bool) (c : VerifiedTokenCache) :
    VerifiedTokenCache :=
  if ok
  then mkTokenCache (record_in now token (entries c)) (negatives c) (positive_ttl c) (negative_ttl c)
  else mkTokenCache (entries c) (record_in now token (negatives c)) (positive_ttl c) (negative_ttl c).

Definition clear (c : VerifiedTokenCache) : VerifiedTokenCache :=
  mkTokenCache ∅ ∅ (positive_ttl c) (negative_ttl c).

(** ** The settings state

    The in-memory map, the keys the environment locks (with the variable's
    name), the start-up snapshot of the environment, the two token caches, the
    generation counter, the recorded type mismatches, the encryption key, and
    the rows of the [settings] table (key and value; the other columns are
    never read). *)

Record SettingsInner := mkInner {
  cache : gmap string json;
  env_locked : gmap string string;
  env_snapshot : gmap string string;
  token_cache : VerifiedTokenCache;
  ro_token_cache : VerifiedTokenCache;
  generation : Z;
  type_mismatches : gmap string string;
  kek : option (list Z);
  table : gmap string json
}.

Definition with_cache (m : gmap string json) (st : SettingsInner) : SettingsInner :=
  mkInner m (env_locked st) (env_snapshot st) (token_cache st) (ro_token_cache st)
    (generation st) (type_mismatches st) (kek st) (table st).

Definition with_token_cache (c : VerifiedTokenCache) (st : SettingsInner) : SettingsInner :=
  mkInner (cache st) (env_locked st) (env_snapshot st) c (ro_token_cache st)
    (generation st) (type_mismatches st) (kek st) (table st).

Definition with_ro_token_cache (c : VerifiedTokenCache) (st : SettingsInner) : SettingsInner :=
  mkInner (cache st) (env_locked st) (env_snapshot st) (token_cache st) c
    (generation st) (type_mismatches st) (kek st) (table st).

Definition set_type_mismatches (mm : gmap string string) (st : SettingsInner) : SettingsInner :=
  mkInner (cache st) (env_locked st) (env_snapshot st) (token_cache st) (ro_token_cache st)
    (generation st) mm (kek st) (table st).

Definition with_table (t : gmap string json) (st : SettingsInner) : SettingsInner :=
  mkInner (cache st) (env_locked st) (env_snapshot st) (token_cache st) (ro_token_cache st)
    (generation st) (type_mismatches st) (kek st) t.

Definition stored_value_for (nonce : list Z) (key : string) (value : json) (st : SettingsInner) : json :=
  match kek st with
  | Some k =>
      if is_encrypted_at_rest_key key then
        match as_str value with
        | Some s => if negb (str_is_empty s) then JString (encrypt_value k nonce s) else value
        | None => value
        end
      else value
  | None => value
  end.

(** The string under a key; a missing or other value reads as empty. *)
Definition raw_value (key : string) (st : SettingsInner) : string :=
  default EmptyString (cache st !! key ≫= as_str).

Definition get (key : string) (st : SettingsInner) : option json := cache st !! key.

Definition get_typed (p : prim) (key : string) (st : SettingsInner) : option (prim_ty p) :=
  get key st ≫= from_value p.

Definition access_mode (st : SettingsInner) : string :=
  default ACCESS_MODE_OPEN (get_typed TString KEY_ACCESS_MODE st).

Definition require_auth_for_reads (st : SettingsInner) : bool :=
  default false
    (match get_typed TBool KEY_ACCESS_REQUIRE_AUTH_FOR_READS st with
     | Some b => Some b
     | None => as_bool (default_value KEY_ACCESS_REQUIRE_AUTH_FOR_READS)
     end).

Definition admin_password_raw (st : SettingsInner) : string :=
  raw_value KEY_ACCESS_ADMIN_PASSWORD st.

Definition read_only_token_raw (st : SettingsInner) : string :=
  raw_value KEY_ACCESS_READ_ONLY_TOKEN st.

Definition set_cached (key value : string) (st : SettingsInner) : SettingsInner :=
  with_cache (<[key := JString value]> (cache st)) st.

Definition admin_password_set : string -> SettingsInner -> SettingsInner :=
  set_cached KEY_ACCESS_ADMIN_PASSWORD.

Definition read_only_token_set : string -> SettingsInner -> SettingsInner :=
  set_cached KEY_ACCESS_READ_ONLY_TOKEN.

Definition token_record (now : Z) (token : string) (ok : bool) (st : SettingsInner) :=
  with_token_cache (record now token ok (token_cache st)) st.

Definition ro_token_record (now : Z) (token : string) (ok : bool) (st : SettingsInner) :=
  with_ro_token_cache (record now token ok (ro_token_cache st)) st.

Definition token_invalidate_all (st : SettingsInner) : SettingsInner :=
  with_token_cache (clear (token_cache st)) st.

Definition ro_token_invalidate_all (st : SettingsInner) : SettingsInner :=
  with_ro_token_cache (clear (ro_token_cache st)) st.

Definition bump_generation (st : SettingsInner) : SettingsInner :=
  mkInner (cache st) (env_locked st) (env_snapshot st) (token_cache st) (ro_token_cache st)
    ((generation st + 1) mod 2 ^ 64) (type_mismatches st) (kek st) (table st).

(** [UPDATE settings SET value = $1 WHERE key = $2], when the database
    answers. *)
Definition update_row (db_ok : bool) (key : string) (value : json) (st : SettingsInner) : SettingsInner :=
  if db_ok then
    match table st !! key with
    | Some _ =>
        with_table (<[key := value]> (table st)) st
    | None => st
    end
  else st.

(** ** The authentication service *)

Inductive TokenVerifyFast :=
| Verdict (ok : bool)
| RunKdf (stored : string).

Definition verify_fast_path (now : Z) (presented : string) (st : SettingsInner) : TokenVerifyFast :=
  if str_is_empty presented then Verdict false
  else if is_fresh now presented (token_cache st) then Verdict true
  else if is_negative_fresh now presented (token_cache st) then Verdict false
  else RunKdf (admin_password_raw st).

(** After the fast path, at the instant the KDF is done: [permit] says whether
    the concurrency cap granted a slot in time. *)
Definition verify_finish (now : Z) (permit : bool) (presented stored : string)
    (st : SettingsInner) : may_panic bool * SettingsInner :=
  if permit then
    match verify_admin_password stored presented with
    | Ok ok => (Ok ok, token_record now presented ok st)
    | Err p => (Err p, st)
    end
  else (Ok false, token_record now presented false st).

(** Nothing else runs between the fast path and the record. *)
Definition verify_bg (now now' : Z) (permit : bool) (presented : string) (st : SettingsInner) :
    may_panic bool * SettingsInner :=
  match verify_fast_path now presented st with
  | Verdict ok => (Ok ok, st)
  | RunKdf stored => verify_finish now' permit presented stored st
  end.

(** [verify], the synchronous variant. *)
Definition verify (now now' : Z) (presented : string) (st : SettingsInner) :
    may_panic bool * SettingsInner :=
  verify_bg now now' true presented st.

Definition verify_read_only_bg (now now' : Z) (permit : bool) (presented : string)
    (st : SettingsInner) : may_panic bool * SettingsInner :=
  if str_is_empty presented then (Ok false, st)
  else if is_fresh now presented (ro_token_cache st) then (Ok true, st)
  else if is_negative_fresh now presented (ro_token_cache st) then (Ok false, st)
  else
    let stored := read_only_token_raw st in
    if str_is_empty stored then (Ok false, st)
    else if permit then
      match verify_admin_password stored presented with
      | Ok ok => (Ok ok, ro_token_record now' presented ok st)
      | Err p => (Err p, st)
      end
    else (Ok false, ro_token_record now' presented false st).

(** The notification after a successful write is best effort and leaves the
    state alone. *)
Definition upgrade (db_ok : bool) (hashed : string) (st : SettingsInner) : SettingsInner :=
  bump_generation (token_invalidate_all (admin_password_set hashed
    (update_row db_ok KEY_ACCESS_ADMIN_PASSWORD (JString hashed) st))).

Definition upgrade_read_only (db_ok : bool) (nonce : list Z) (hashed : string)
    (st : SettingsInner) : SettingsInner :=
  let val := stored_value_for nonce KEY_ACCESS_READ_ONLY_TOKEN (JString hashed) st in
  bump_generation (ro_token_invalidate_all (token_invalidate_all (read_only_token_set hashed
    (update_row db_ok KEY_ACCESS_READ_ONLY_TOKEN val st)))).

(** The end of [SettingsCache::reload]: swap the map, drop both caches. *)
Definition install_settings (map : gmap string json) (st : SettingsInner) : SettingsInner :=
  bump_generation (ro_token_invalidate_all (token_invalidate_all (with_cache map st))).

(** ** Runs without overlap

    The operations on the credential state, each one finished before the next
    starts. *)
Inductive AuthOp :=
| OpVerify (now now' : Z) (permit : bool) (token : string)
| OpVerifyReadOnly (now now' : Z) (permit : bool) (token : string)
| OpUpgrade (db_ok : bool) (hashed : string)
| OpUpgradeReadOnly (db_ok : bool) (nonce : list Z) (hashed : string)
| OpInstall (map : gmap string json).

Definition auth_step (st : SettingsInner) (op : AuthOp) : SettingsInner :=
  match op with
  | OpVerify now now' permit t => snd (verify_bg now now' permit t st)
  | OpVerifyReadOnly now now' permit t => snd (verify_read_only_bg now now' permit t st)
  | OpUpgrade db_ok h => upgrade db_ok h st
  | OpUpgradeReadOnly db_ok n h => upgrade_read_only db_ok n h st
  | OpInstall m => install_settings m st
  end.

Definition init_inner (m : gmap string json) (k : option (list Z)) (t : gmap string json) :=
  mkInner m ∅ ∅ default_cache default_cache 0 ∅ k t.

(** ** Lemmas: hexadecimal and comparison *)

Lemma ct_diff_zero d a b :
  length a = length b -> ct_diff d a b = 0 <-> d = 0 /\ a = b.
Proof.
  revert d b. induction a as [|x a IH]; intros d [|y b]; cbn; try lia; [naive_solver|].
  intros [= Hl]. rewrite IH by done. rewrite Z.lor_eq_0_iff, Z.lxor_eq_0_iff. naive_solver.
Qed.

Lemma constant_time_eq_spec a b : constant_time_eq a b = bool_decide (a = b).
Proof.
  unfold constant_time_eq. destruct (Nat.eqb_spec (length (bytes_of a)) (length (bytes_of b))) as [Hl|Hl]; cbn.
  - pose proof (ct_diff_zero 0 _ _ Hl) as Hd. case_bool_decide as Hab.
    + subst. by apply Z.eqb_eq, Hd.
    + apply Z.eqb_neq. intros H0. apply Hd in H0 as [_ H0]. by apply bytes_of_inj in H0.
  - case_bool_decide; congruence.
Qed.

Lemma hex_char_value d : 0 <= d < 16 -> hex_value (hex_char d) = Some d.
Proof.
  intros Hd. unfold hex_char, hex_value. destruct (Z.ltb_spec d 10).
  - replace ((48 <=? 48 + d) && (48 + d <=? 57)) with true by (symmetry; lia). f_equal. lia.
  - replace ((48 <=? 87 + d) && (87 + d <=? 57)) with false by (symmetry; lia).
    replace ((97 <=? 87 + d) && (87 + d <=? 102)) with true by (symmetry; lia). f_equal. lia.
Qed.

Lemma hex_char_range d : 0 <= d < 16 -> 48 <= hex_char d <= 102.
Proof. unfold hex_char. case_match; lia. Qed.

Lemma nibbles x : is_byte x -> 0 <= x / 16 < 16 /\ 0 <= x mod 16 < 16 /\ x = x / 16 * 16 + x mod 16.
Proof.
  unfold is_byte. intros Hx. pose proof (Z.div_mod x 16 ltac:(lia)).
  pose proof (Z.mod_pos_bound x 16 ltac:(lia)). lia.
Qed.

Lemma u8_from_hex_char x :
  is_byte x -> u8_from_hex (hex_char (x / 16)) (hex_char (x mod 16)) = Some x.
Proof.
  intros Hx. destruct (nibbles x Hx) as (? & ? & ?).
  unfold u8_from_hex. rewrite !hex_char_value by done.
  pose proof (hex_char_range (x / 16)). destruct (Z.eqb_spec (hex_char (x / 16)) 43); [lia|].
  f_equal. lia.
Qed.

Lemma hex_char_not_cont d : 0 <= d < 16 -> is_cont (hex_char d) = false.
Proof. intros Hd. pose proof (hex_char_range d Hd). unfold is_cont. lia. Qed.

Lemma hex_pairs_encode b : Forall is_byte b -> hex_pairs (hex_encode_bytes b) = Ok (Some b).
Proof.
  induction 1 as [|x b Hx Hb IH]; [done|]. cbn.
  destruct (nibbles x Hx) as (? & ? & ?). rewrite hex_char_not_cont by done. cbn.
  assert (Hn : match hex_encode_bytes b with z :: _ => is_cont z | [] => false end = false).
  { destruct Hb as [|y b Hy _]; cbn; [done|]. apply hex_char_not_cont, (nibbles y Hy). }
  change (mbind _ b) with (hex_encode_bytes b).
  rewrite Hn, u8_from_hex_char by done. by rewrite IH.
Qed.

Lemma hex_encode_bytes_range b : Forall is_byte b -> Forall is_byte (hex_encode_bytes b).
Proof.
  induction 1 as [|x b Hx Hb IH]; cbn; [done|]. destruct (nibbles x Hx) as (? & ? & ?).
  pose proof (hex_char_range (x / 16)). pose proof (hex_char_range (x mod 16)).
  repeat constructor; auto; lia.
Qed.

Lemma hex_encode_bytes_length b : length (hex_encode_bytes b) = (2 * length b)%nat.
Proof. induction b as [|x b IH]; [done|]. cbn in *. unfold hex_encode_bytes in IH. rewrite IH. lia. Qed.

Lemma hex_decode_encode b : Forall is_byte b -> hex_decode (hex_encode b) = Ok (Some b).
Proof.
  intros Hb. unfold hex_decode, hex_encode.
  rewrite bytes_of_str_of by by apply hex_encode_bytes_range.
  rewrite hex_encode_bytes_length.
  rewrite Nat2Z.inj_mul, Z.mul_comm, Z_mod_mult. cbn.
  by apply hex_pairs_encode.
Qed.

Lemma hex_encode_inj a b :
  Forall is_byte a -> Forall is_byte b -> hex_encode a = hex_encode b -> a = b.
Proof.
  intros Ha Hb E. apply (f_equal hex_decode) in E.
  rewrite !hex_decode_encode in E by done. congruence.
Qed.

(** ** Lemmas: the legacy digest row *)

Lemma hex_no_dollar b : Forall is_byte b -> str_exists dollar (hex_encode b) = false.
Proof.
  intros Hb. unfold hex_encode. induction Hb as [|x b Hx _ IH]; [done|].
  destruct (nibbles x Hx) as (? & ? & _).
  assert (Hd : forall d, 0 <= d < 16 -> dollar (chr (hex_char d)) = false).
  { intros d Hd. pose proof (hex_char_range d Hd). unfold dollar. apply Ascii.eqb_neq. intros E.
    apply (f_equal byte) in E. rewrite byte_chr in E by (unfold is_byte; lia).
    change (byte "$"%char) with 36 in E. lia. }
  change (hex_encode_bytes (x :: b))
    with ([hex_char (x / 16); hex_char (x mod 16)] ++ hex_encode_bytes b).
  rewrite str_of_app, str_exists_app, IH.
  unfold str_of; cbn [fmap list_fmap String.string_of_list_ascii].
  cbn [str_exists]. by rewrite !Hd.
Qed.

Lemma sha2_iterate_wf salt n out :
  length out = 32%nat -> Forall is_byte out ->
  length (sha2_iterate salt n out) = 32%nat /\ Forall is_byte (sha2_iterate salt n out).
Proof.
  revert out. induction n as [|n IH]; intros out Hl Hb; cbn; [done|].
  apply IH; [apply sha256_length|apply sha256_bytes].
Qed.

Lemma sha2_digest_wf salt iters pw :
  length (sha2_digest salt iters pw) = 32%nat /\ Forall is_byte (sha2_digest salt iters pw).
Proof. apply sha2_iterate_wf; [apply sha256_length|apply sha256_bytes]. Qed.

Lemma sha2_row_parts iters salt pw :
  0 <= iters -> Forall is_byte salt ->
  split_on dollar (pretty iters +:+ "$" +:+ hex_encode salt +:+ "$" +:+
                   hex_encode (sha2_digest salt iters pw)) =
  [pretty iters; hex_encode salt; hex_encode (sha2_digest salt iters pw)].
Proof.
  intros Hi Hs. cbn [String.append]. rewrite !split_on_app by done.
  rewrite !split_on_none; [done| | |].
  - apply hex_no_dollar, sha2_digest_wf.
  - by apply hex_no_dollar.
  - apply (str_forall_exists is_digit_char); [|by apply pretty_digits].
    intros a Ha. unfold dollar. apply Ascii.eqb_neq. by intros <-.
Qed.

(** ** Lemmas: the caches *)

Lemma record_in_lookup now token m t :
  t <> token -> forall v, record_in now token m !! t = Some v -> m !! t = Some v.
Proof.
  intros Hne v. unfold record_in. rewrite lookup_insert_ne by done.
  destruct (match m !! token with Some _ => false | None => TOKEN_CACHE_MAX <=? map_len m end); [|done].
  intros Hv. eapply lookup_weaken; [exact Hv|apply evict_oldest_subseteq].
Qed.

Lemma record_in_len now token m :
  map_len m <= TOKEN_CACHE_MAX -> map_len (record_in now token m) <= TOKEN_CACHE_MAX.
Proof.
  intros Hm. unfold record_in. destruct (m !! token) eqn:E.
  - unfold map_len in *. rewrite map_size_insert_Some by eauto. done.
  - destruct (Z.leb_spec TOKEN_CACHE_MAX (map_len m)).
    + pose proof (evict_oldest_len id m TOKEN_CACHE_MAX Hm ltac:(unfold TOKEN_CACHE_MAX; lia)).
      pose proof (map_len_insert (evict_oldest id m) token now). lia.
    + pose proof (map_len_insert m token now). lia.
Qed.

Definition cache_bounded (c : VerifiedTokenCache) : Prop :=
  map_len (entries c) <= TOKEN_CACHE_MAX /\ map_len (negatives c) <= TOKEN_CACHE_MAX.

Lemma record_bounded now t ok c : cache_bounded c -> cache_bounded (record now t ok c).
Proof. intros [? ?]. unfold cache_bounded, record. destruct ok; cbn; auto using record_in_len. Qed.

Lemma clear_bounded c : cache_bounded (clear c).
Proof. split; cbn; unfold map_len; rewrite map_size_empty; unfold TOKEN_CACHE_MAX; lia. Qed.

Lemma encrypt_value_prefix k nonce value : starts_with ENC_PREFIX (encrypt_value k nonce value) = true.
Proof. unfold encrypt_value. destruct (gcm_seal _ _ _). apply starts_with_spec. eauto. Qed.

Lemma decrypt_encrypt key k nonce value :
  length nonce = 12%nat -> Forall is_byte nonce -> utf8_valid (bytes_of value) = true ->
  decrypt_value key k (encrypt_value k nonce value) = Ok (Ok value).
Proof.
  intros Hn Hnb Hutf. unfold encrypt_value.
  pose proof (gcm_tag_length k nonce (bytes_of value)) as Htag.
  pose proof (gcm_seal_bytes k nonce (bytes_of value) (bytes_of_range value)) as [Hcb Htb].
  pose proof (gcm_open_seal k nonce (bytes_of value)) as Hopen.
  destruct (gcm_seal k nonce (bytes_of value)) as [ct tag]. cbn [fst snd] in *. unfold decrypt_value.
  rewrite (proj2 (strip_prefix_Some ENC_PREFIX _ _) eq_refl).
  rewrite hex_decode_encode by (rewrite !Forall_app; auto). cbn [rbind].
  rewrite !length_app, Htag, Hn.
  destruct (Z.ltb_spec (Z.of_nat (12 + (length ct + 16))) (12 + 16)); [lia|].
  rewrite take_app_length', drop_app_length' by done. rewrite Hopen, Hutf.
  by rewrite str_of_bytes_of.
Qed.

(** Every remembered success is one against [stored]. *)
Definition entries_sound (stored : string) (c : VerifiedTokenCache) : Prop :=
  forall t at_, entries c !! t = Some at_ ->
    t <> EmptyString /\ verify_admin_password stored t = Ok true.

Lemma clear_sound stored c : entries_sound stored (clear c).
Proof. intros t at_. cbn. by rewrite lookup_empty. Qed.

Lemma record_sound stored now t ok c :
  entries_sound stored c ->
  (ok = true -> t <> EmptyString /\ verify_admin_password stored t = Ok true) ->
  entries_sound stored (record now t ok c).
Proof.
  intros Hc Hok t' at_. unfold record. destruct ok; cbn; [|apply Hc].
  destruct (decide (t' = t)) as [->|Hne]; [auto|].
  intros Hv%record_in_lookup; [eapply Hc; eauto|done].
Qed.

Lemma is_fresh_entry now t c : is_fresh now t c = true -> exists at_, entries c !! t = Some at_.
Proof. unfold is_fresh, fresh_in. destruct (entries c !! t); [eauto|done]. Qed.

(** The invariant of the credential state. *)
Definition auth_inv (st : SettingsInner) : Prop :=
  entries_sound (admin_password_raw st) (token_cache st) /\
  entries_sound (read_only_token_raw st) (ro_token_cache st) /\
  cache_bounded (token_cache st) /\ cache_bounded (ro_token_cache st).

Lemma str_is_empty_false s : str_is_empty s = false -> s <> EmptyString.
Proof. by destruct s. Qed.

Lemma verify_bg_sound now now' permit t st :
  auth_inv st ->
  auth_inv (snd (verify_bg now now' permit t st)) /\
  (fst (verify_bg now now' permit t st) = Ok true ->
   t <> EmptyString /\ verify_admin_password (admin_password_raw st) t = Ok true).
Proof.
  intros Hinv. pose proof Hinv as (Hs & Hro & Hb & Hrb). unfold verify_bg, verify_fast_path.
  destruct (str_is_empty t) eqn:Et; [done|]. apply str_is_empty_false in Et.
  destruct (is_fresh now t (token_cache st)) eqn:Ef.
  { split; [done|]. intros _. apply is_fresh_entry in Ef as [at_ Ha]. eapply Hs; eauto. }
  destruct (is_negative_fresh now t (token_cache st)); [done|]. cbn.
  assert (Hrec : forall ok, (ok = true -> t <> EmptyString /\
      verify_admin_password (admin_password_raw st) t = Ok true) ->
    auth_inv (token_record now' t ok st)).
  { intros ok Hok. split_and!; cbn; auto using record_bounded. by apply record_sound. }
  unfold verify_finish. destruct permit; [|split; [by apply Hrec|done]].
  destruct (verify_admin_password _ t) as [ok|p] eqn:Ev; cbn; [|done].
  split; [apply Hrec; intros ->; auto|]. intros [= ->]. auto.
Qed.

Lemma verify_read_only_sound now now' permit t st :
  auth_inv st ->
  auth_inv (snd (verify_read_only_bg now now' permit t st)) /\
  (fst (verify_read_only_bg now now' permit t st) = Ok true ->
   t <> EmptyString /\ verify_admin_password (read_only_token_raw st) t = Ok true).
Proof.
  intros Hinv. pose proof Hinv as (Hs & Hro & Hb & Hrb). unfold verify_read_only_bg.
  destruct (str_is_empty t) eqn:Et; [done|]. apply str_is_empty_false in Et.
  destruct (is_fresh now t (ro_token_cache st)) eqn:Ef.
  { split; [done|]. intros _. apply is_fresh_entry in Ef as [at_ Ha]. eapply Hro; eauto. }
  destruct (is_negative_fresh now t (ro_token_cache st)); [done|].
  destruct (str_is_empty (read_only_token_raw st)); [done|].
  assert (Hrec : forall ok, (ok = true -> t <> EmptyString /\
      verify_admin_password (read_only_token_raw st) t = Ok true) ->
    auth_inv (ro_token_record now' t ok st)).
  { intros ok Hok. split_and!; cbn; auto using record_bounded. by apply record_sound. }
  destruct permit; [|split; [by apply Hrec|done]].
  destruct (verify_admin_password _ t) as [ok|p] eqn:Ev; cbn; [|done].
  split; [apply Hrec; intros ->; auto|]. intros [= ->]. auto.
Qed.

Lemma verify_bg_cache now now' p t s : cache (snd (verify_bg now now' p t s)) = cache s.
Proof. unfold verify_bg, verify_finish. repeat (case_match; cbn; try done). Qed.

Lemma verify_read_only_cache now now' p t s : cache (snd (verify_read_only_bg now now' p t s)) = cache s.
Proof. unfold verify_read_only_bg. repeat (case_match; cbn; try done). Qed.

Lemma auth_step_inv st op : auth_inv st -> auth_inv (auth_step st op).
Proof.
  intros Hinv. pose proof Hinv as (Hs & Hro & Hb & Hrb).
  destruct op; cbn [auth_step].
  - by apply verify_bg_sound.
  - by apply verify_read_only_sound.
  - unfold upgrade, update_row. repeat case_match;
      (split_and!; cbn; auto using clear_sound, clear_bounded;
       unfold read_only_token_raw, raw_value in *; cbn; by rewrite lookup_insert_ne).
  - unfold upgrade_read_only, update_row. repeat case_match;
      split_and!; cbn; auto using clear_sound, clear_bounded.
  - split_and!; cbn; auto using clear_sound, clear_bounded.
Qed.

Lemma init_inv m k t : auth_inv (init_inner m k t).
Proof.
  assert (cache_bounded default_cache) by apply (clear_bounded default_cache).
  assert (forall s, entries_sound s default_cache) by (intros s; apply (clear_sound s default_cache)).
  by split_and!; cbn.
Qed.

Lemma auth_run_inv ops st : auth_inv st -> auth_inv (foldl auth_step st ops).
Proof. revert st. induction ops as [|op ops IH]; intros st Hst; [done|]. by apply IH, auth_step_inv. Qed.

End Auth.

(** ** A concrete [Crypto] for evaluation: the hash keeps the password, the
    digest is the byte sum, the cipher is the identity with a zero tag. *)

Definition sum_digest (m : list Z) : list Z := replicate 32 (foldr Z.add 0 m mod 256).

Lemma sum_digest_bytes m : Forall is_byte (sum_digest m).
Proof. apply Forall_replicate. apply Z.mod_pos_bound. lia. Qed.

Lemma zero_tag_bytes (m : list Z) :
  Forall is_byte m -> Forall is_byte m /\ Forall is_byte (replicate 16 0).
Proof. intros Hm. split; [done|]. apply Forall_replicate. unfold is_byte. lia. Qed.

Definition open_toy (k n c : list Z) : option (list Z) := Some (take (length c - 16) c).

Lemma open_toy_seal (k n m : list Z) : open_toy k n (m ++ replicate 16 0) = Some m.
Proof.
  unfold open_toy. rewrite length_app, length_replicate.
  replace (length m + 16 - 16)%nat with (length m) by lia. by rewrite take_app_length.
Qed.

Lemma toy_phc pw : starts_with "$argon2id$" ("$argon2id$" +:+ pw) = true.
Proof. apply starts_with_spec. eauto. Qed.

Definition toy_crypto : Crypto := {|
  argon2_hash _ pw := "$argon2id$" +:+ pw;
  argon2_verify s pw := String.eqb s ("$argon2id$" +:+ pw);
  sha256 := sum_digest;
  gcm_seal _ _ m := (m, replicate 16 0);
  gcm_open := open_toy;
  argon2_phc _ := toy_phc;
  argon2_verify_hash _ pw := String.eqb_refl _;
  sha256_length m := eq_refl;
  sha256_bytes := sum_digest_bytes;
  gcm_tag_length _ _ _ := eq_refl;
  gcm_seal_bytes _ _ := zero_tag_bytes;
  gcm_open_seal := open_toy_seal
|}.

(** ** Properties *)

(** C37: a cached verdict is a current verdict.  After any sequence of
    completed verifications, credential upgrades and settings reloads, a
    token is accepted (from the cache or by the KDF) only if it is non-empty
    and verifies against the credential stored at that moment, for the admin
    password and for the read-only token; and neither cache ever holds more
    than 256 entries a side. *)
Theorem verdicts_match_stored {Cr : Crypto} {Hi : HashIter string Z} m k tbl ops now now' permit t :
  let st := foldl auth_step (init_inner m k tbl) ops in
  (fst (verify_bg now now' permit t st) = Ok true ->
   t <> EmptyString /\ verify_admin_password (admin_password_raw st) t = Ok true) /\
  (fst (verify_read_only_bg now now' permit t st) = Ok true ->
   t <> EmptyString /\ verify_admin_password (read_only_token_raw st) t = Ok true) /\
  cache_bounded (token_cache st) /\ cache_bounded (ro_token_cache st).
Proof.
  cbn zeta. pose proof (auth_run_inv ops _ (init_inv m k tbl)) as Hinv.
  split_and!; [by apply verify_bg_sound|by apply verify_read_only_sound|apply Hinv..].
Qed.

(** A verification that overlaps a password change outlives it.  If a
    token's KDF run starts against the old password, the settings are
    replaced and both caches dropped, and the run then finishes, its success
    is recorded anyway: the token is accepted until the record expires,
    whatever the new password is.  (The documentation says that a password
    change is picked up immediately.) *)
Theorem overlapping_verify_survives_change {Cr : Crypto} {Hi : HashIter string Z}
    st map t stored now now1 now2 now3 permit :
  verify_fast_path now t st = RunKdf stored ->
  verify_admin_password stored t = Ok true ->
  saturating_sub now2 now1 < positive_ttl (token_cache st) ->
  let st1 := install_settings map st in
  let st2 := snd (verify_finish now1 true t stored st1) in
  admin_password_raw st2 = default EmptyString (map !! KEY_ACCESS_ADMIN_PASSWORD ≫= as_str) /\
  fst (verify_bg now2 now3 permit t st2) = Ok true.
Proof.
  intros Hfast Hv Httl. cbn zeta. unfold verify_finish. rewrite Hv. cbn [fst snd].
  split; [done|]. unfold verify_fast_path in Hfast. unfold verify_bg, verify_fast_path.
  destruct (str_is_empty t); [done|].
  unfold is_fresh at 1, fresh_in. cbn. unfold record_in. rewrite lookup_insert_eq.
  by rewrite (proj2 (Z.ltb_lt _ _) Httl).
Qed.

Lemma overlapping_verify_survives_change_witness :
  let old := {[ KEY_ACCESS_ADMIN_PASSWORD := JString "old" ]} : gmap string json in
  let new := {[ KEY_ACCESS_ADMIN_PASSWORD := JString "new" ]} : gmap string json in
  let st1 := install_settings new (init_inner old None ∅) in
  let st2 := snd (@verify_finish toy_crypto (map_order _ _) 5 true "old" "old" st1) in
  admin_password_raw st2 = default EmptyString (new !! KEY_ACCESS_ADMIN_PASSWORD ≫= as_str) /\
  fst (@verify_bg toy_crypto (map_order _ _) 6 7 true "old" st2) = Ok true.
Proof.
  apply (@overlapping_verify_survives_change toy_crypto (map_order _ _)
    (init_inner {[ KEY_ACCESS_ADMIN_PASSWORD := JString "old" ]} None ∅)
    {[ KEY_ACCESS_ADMIN_PASSWORD := JString "new" ]} "old" "old" 0 5 6 7 true); reflexivity.
Defined.

(** The constant-time comparison decides string equality. *)
Theorem constant_time_eq_is_equality a b : constant_time_eq a b = true <-> a = b.
Proof. rewrite constant_time_eq_spec. apply bool_decide_eq_true. Qed.

(** Legacy digest rows.  A row in the [sha2:] format with at most the
    capped iteration count accepts exactly the passwords with the same
    iterated digest; above the cap nothing is accepted, whatever the row
    says. *)
Theorem legacy_row_accepts {Cr : Crypto} iters salt pw0 pw :
  0 <= iters <= u32_max -> length salt = 16%nat -> Forall is_byte salt ->
  verify_admin_password (sha2_row iters salt pw0) pw =
  Ok (bool_decide (iters <= SHA2_LEGACY_ITERATION_CAP /\
                   sha2_digest salt iters pw = sha2_digest salt iters pw0)).
Proof.
  intros Hi Hl Hs. unfold sha2_row.
  set (row := pretty iters +:+ "$" +:+ hex_encode salt +:+ "$" +:+ _).
  change (verify_admin_password ("sha2:" +:+ row) pw) with (verify_sha2 row pw).
  unfold verify_sha2. subst row. rewrite sha2_row_parts by (lia || done). cbn [head mbind option_bind].
  rewrite parse_unsigned_pretty by lia.
  destruct (Z.leb_spec iters SHA2_LEGACY_ITERATION_CAP) as [Hc|Hc]; cbn [negb].
  2:{ rewrite bool_decide_eq_false_2; [done|]. lia. }
  destruct (sha2_digest_wf salt iters pw0) as [Hl0 Hb0].
  destruct (sha2_digest_wf salt iters pw) as [_ Hb].
  cbn [lookup list_lookup default]. cbn [from_option id].
  rewrite !hex_decode_encode by done. cbn [rbind]. rewrite Hl, Hl0. cbn [Nat.eqb negb]. f_equal.
  rewrite constant_time_eq_spec. apply bool_decide_ext. split.
  - intros E. split; [done|]. by apply hex_encode_inj.
  - by intros [_ ->].
Qed.

Lemma legacy_row_accepts_witness :
  length (replicate 16 7) = 16%nat /\
  @verify_admin_password toy_crypto (@sha2_row toy_crypto 3 (replicate 16 7) "pw") "pw" = Ok true.
Proof.
  split; [reflexivity|].
  rewrite (@legacy_row_accepts toy_crypto 3 (replicate 16 7) "pw" "pw"); [reflexivity|..].
  - unfold u32_max. lia.
  - reflexivity.
  - apply Forall_replicate. unfold is_byte. lia.
Defined.

(** At-rest encryption round-trips: what the settings boundary stores for
    a non-empty secret is marked as encrypted, and decrypting it with the
    same key gives the secret back. *)
Theorem secret_rows_roundtrip {Cr : Crypto} st k nonce key value :
  kek st = Some k -> is_encrypted_at_rest_key key = true -> value <> EmptyString ->
  length nonce = 12%nat -> Forall is_byte nonce -> utf8_valid (bytes_of value) = true ->
  exists stored, stored_value_for nonce key (JString value) st = JString stored /\
    starts_with ENC_PREFIX stored = true /\ decrypt_value key k stored = Ok (Ok value).
Proof.
  intros Hk Hkey Hne Hn Hnb Hutf. unfold stored_value_for. rewrite Hk, Hkey. cbn [as_str].
  destruct (str_is_empty value) eqn:Ee; [by destruct value|]. cbn [negb]. eexists. split; [done|].
  split; [apply encrypt_value_prefix|by apply decrypt_encrypt].
Qed.

Lemma secret_rows_roundtrip_witness :
  let st := init_inner ∅ (Some []) ∅ in
  exists stored,
    @stored_value_for toy_crypto (replicate 12 0) KEY_TORRENT_PASSWORD (JString "hunter2") st = JString stored /\
    starts_with ENC_PREFIX stored = true /\
    decrypt_value (Cr := toy_crypto) KEY_TORRENT_PASSWORD [] stored = Ok (Ok "hunter2").
Proof.
  apply (@secret_rows_roundtrip toy_crypto (init_inner ∅ (Some []) ∅) [] (replicate 12 0)
    KEY_TORRENT_PASSWORD "hunter2"); try reflexivity; [done|].
  apply Forall_replicate. unfold is_byte. lia.
Defined.

(** The hex decoder is not total on text: a sign counts as a digit
    position, so [+a] decodes to one byte, and a multi-byte character that
    straddles a pair makes the slice panic.  (Its documentation says any
    non-hex input gives [None].) *)
Theorem hex_decode_sign_and_panic :
  hex_decode "+a" = Ok (Some [10]) /\
  hex_decode (str_of [97; 0xE2; 0x82; 0xAC]) = Err Panicked.
Proof. split; reflexivity. Qed.
