(* ===== verification/Settings.v ===== *)
(** * Settings: the settings cache

    [src/settings/cache.rs] with the record and redaction helpers of
    [src/settings/tokens.rs]: loading and reloading from the table, the
    validated update, the grouped read, per-archive settings.  The table is a
    map from keys to values; a transaction takes a [Fault], and [ReloadEnv]
    holds what the database and the other instances do during one reload.
    Nonces are functions of the key, fresh per call. *)

From S2P Require Import Prelude RustStr Errors Floats JsonValue SettingDefs Config NetGuard Auth.

(** One transaction: it happens, it does not, or it happens and the caller is
    told it did not. *)
Definition run_tx {T} (f : Fault) (write : T -> T) (t : T) : option Error * T :=
  match f with
  | NoFault => (None, write t)
  | Failed e => (Some e, t)
  | ReplyLost e => (Some e, write t)
  end.

Definition effective_private_flag (pending : option json) (cached : bool) : bool :=
  match pending with
  | Some v => default false (as_bool v)
  | None => cached
  end.

Definition check_zim_update_affected (affected : list Z) (zim_name : string) : Result unit :=
  if existsb (Z.eqb 0) affected then Err (NotFound ("ZIM '" +:+ zim_name +:+ "' not found")) else Ok tt.

(** [key.split('.').next()] and [key.split('.').nth(1)]. *)
Definition key_category (key : string) : string := split_first (Ascii.eqb "."%char) key.
Definition key_short (key : string) : string :=
  default key (split_on (Ascii.eqb "."%char) key !! 1%nat).

(** ** Reads *)

Definition downloads_allow_private_networks (st : SettingsInner) : bool :=
  default false (get_typed TBool KEY_DOWNLOADS_ALLOW_PRIVATE_NETWORKS st).
Definition torrent_enabled (st : SettingsInner) : bool :=
  default false (get_typed TBool KEY_TORRENT_ENABLED st).
Definition torrent_max_active (st : SettingsInner) : Z :=
  default 4 (get_typed TI32 KEY_TORRENT_MAX_ACTIVE st).
Definition embedding_enabled (st : SettingsInner) : bool :=
  default false (get_typed TBool KEY_EMBEDDING_ENABLED st).

(** The entries of a [BTreeMap], in key order. *)
Definition btree_iter (m : gmap string string) : list (string * string) :=
  foldr (fun kv l => obj_insert (fst kv) (snd kv) l) [] (map_to_list m).

Definition type_mismatch_report (st : SettingsInner) : list string :=
  (fun kv => fst kv +:+ ": " +:+ snd kv) <$> btree_iter (type_mismatches st).

Definition clear_type_mismatches (keys : list string) (st : SettingsInner) : SettingsInner :=
  set_type_mismatches (foldl (fun mm key => delete key mm) (type_mismatches st) keys) st.

(** One entry of the grouped read.  The object is written in the order of the
    source; [serde_json]'s map sorts it. *)
Definition redacted_value (key : string) (value : json) (authenticated : bool) : json :=
  if negb authenticated && policy_flag topology key && nonempty_str value
  then JString "[redacted]"
  else redact key value.

Definition lock_note (key : string) (env_var : option string) : option string :=
  match env_var with
  | Some v => Some v
  | None =>
      if policy_flag api_immutable key then Some "set via environment at startup"
      else if policy_flag config_only key then Some "environment (not runtime)"
      else None
  end.

Definition redacted_entry (key : string) (value : json) (authenticated : bool)
    (env_var : option string) : json :=
  let entry := obj_insert "value" (redacted_value key value authenticated) [] in
  JObject
    (match lock_note key env_var with
     | Some by_ => obj_insert "locked_by" (JString by_) (obj_insert "locked" (JBool true) entry)
     | None => entry
     end).

(** [grouped.entry(category).or_default().insert(short, entry)]. *)
Definition group_insert (category short : string) (entry : json)
    (grouped : list (string * list (string * json))) : list (string * list (string * json)) :=
  obj_insert category (obj_insert short entry (default [] (obj_get category grouped))) grouped.

Section Settings.
Context {Ua : UrlApi} {Cr : Crypto} {Hj : HashIter string json} {Hs : HashIter string string}.

Definition snapshot_type_mismatches (map : gmap string json) : gmap string string :=
  fold_entries type_mismatch ∅ map.

Definition all_grouped_for (authenticated : bool) (st : SettingsInner) : json :=
  JObject (prod_map id JObject <$>
    foldl (fun grouped kv =>
        group_insert (key_category (fst kv)) (key_short (fst kv))
          (redacted_entry (fst kv) (snd kv) authenticated (env_locked st !! fst kv)) grouped)
      [] (hash_iter (cache st))).

(** ** Reload *)

Record ReloadEnv := mkReloadEnv {
  r_select : option Error;
  r_peer1 : gmap string json -> gmap string json;
  r_seed : Fault;
  r_seed_nonce : string -> list Z;
  r_peer2 : gmap string json -> gmap string json;
  r_reencrypt : Fault;
  r_nonce : string -> list Z
}.

(** The decrypt pass over the target rows; unmarked non-empty ones are
    collected. *)
Fixpoint decrypt_pass (k : list Z) (l : list (string * json)) (map : gmap string json)
    (legacy : list (string * string)) :
    may_panic (Result (gmap string json * list (string * string))) :=
  match l with
  | [] => Ok (Ok (map, legacy))
  | (key, value) :: l' =>
      if negb (is_encrypted_at_rest_key key) then decrypt_pass k l' map legacy
      else
        match as_str value with
        | None => decrypt_pass k l' map legacy
        | Some s =>
            if starts_with ENC_PREFIX s then
              let? r := decrypt_value key k s in
              match r with
              | Err e => Ok (Err e)
              | Ok plain => decrypt_pass k l' (<[key := JString plain]> map) legacy
              end
            else if negb (str_is_empty s) then decrypt_pass k l' map (legacy ++ [(key, s)])
            else decrypt_pass k l' map legacy
        end
  end.

Definition decrypt_rows (kek : option (list Z)) (map : gmap string json) :
    may_panic (Result (gmap string json * list (string * string))) :=
  match kek with
  | Some k => decrypt_pass k (hash_iter map) map []
  | None => Ok (Ok (map, []))
  end.

Definition seed_missing (map : gmap string json) : gmap string json * list (string * json) :=
  foldl (fun '(m, seeded) '(key, value) =>
      match m !! key with
      | None => (<[key := value]> m, seeded ++ [(key, value)])
      | Some _ => (m, seeded)
      end)
    (map, []) (hash_iter default_settings).

(** [INSERT .. ON CONFLICT (key) DO NOTHING], the seeded rows in one
    statement. *)
Definition insert_seeded (nonce : string -> list Z) (st : SettingsInner)
    (seeded : list (string * json)) (t : gmap string json) : gmap string json :=
  foldl (fun t '(key, value) =>
      match t !! key with
      | Some _ => t
      | None => <[key := stored_value_for (nonce key) key value st]> t
      end)
    t seeded.

(** [UPDATE settings SET value = $1 WHERE key = $2 AND value = $3], one per
    collected row, in one transaction. *)
Definition reencrypt_legacy (k : list Z) (nonce : string -> list Z)
    (legacy : list (string * string)) (t : gmap string json) : gmap string json :=
  foldl (fun t '(key, stored) =>
      if bool_decide (t !! key = Some (JString stored))
      then <[key := JString (encrypt_value k (nonce key) stored)]> t else t)
    t legacy.

Definition seed_tx (e : ReloadEnv) (st : SettingsInner) (seeded : list (string * json))
    (t : gmap string json) : option Error * gmap string json :=
  match seeded with
  | [] => (None, t)
  | _ => run_tx (r_seed e) (insert_seeded (r_seed_nonce e) st seeded) t
  end.

Definition reencrypt_tx (e : ReloadEnv) (st : SettingsInner) (legacy : list (string * string))
    (t : gmap string json) : option Error * gmap string json :=
  match kek st, legacy with
  | Some k, _ :: _ => run_tx (r_reencrypt e) (reencrypt_legacy k (r_nonce e) legacy) t
  | _, _ => (None, t)
  end.

Definition reload (e : ReloadEnv) (st : SettingsInner) : may_panic (Result unit) * SettingsInner :=
  match r_select e with
  | Some err => (Ok (Err err), st)
  | None =>
      match decrypt_rows (kek st) (table st) with
      | Err p => (Err p, st)
      | Ok (Err err) => (Ok (Err err), st)
      | Ok (Ok (map, legacy)) =>
          let '(map1, seeded) := seed_missing map in
          match seed_tx e st seeded (r_peer1 e (table st)) with
          | (Some err, t) => (Ok (Err err), with_table t st)
          | (None, t) =>
              match reencrypt_tx e st legacy (r_peer2 e t) with
              | (Some err, t) => (Ok (Err err), with_table t st)
              | (None, t) =>
                  let map2 := apply_env_snapshot map1 (env_snapshot st) in
                  (Ok (Ok tt),
                   install_settings map2
                     (set_type_mismatches (snapshot_type_mismatches map2) (with_table t st)))
              end
          end
      end
  end.

(** [load_with_security_key]: a fresh state over the table, then a reload. *)
Definition load (e : ReloadEnv) (locked snapshot : gmap string string) (k : option (list Z))
    (t : gmap string json) : may_panic (Result unit) * SettingsInner :=
  reload e (mkInner ∅ locked snapshot default_cache default_cache 0 ∅ k t).

Definition sync_from_config (c : Configuration) (st : SettingsInner) : SettingsInner :=
  with_cache (sync_config_values c (cache st)) st.

(** ** Update *)

Definition url_check (updates : gmap string json) (st : SettingsInner) (key : string) (value : json) :
    option string :=
  match def key ≫= (fun d => url_policy (d_policy d)), as_str value with
  | Some up, Some url_str =>
      if str_is_empty url_str then None
      else
        let allow_private :=
          match private_network_flag up with
          | Some flag_key =>
              effective_private_flag (updates !! flag_key)
                (default false (get_typed TBool flag_key st))
          | None => false
          end in
        match assert_host_not_blocked url_str allow_private (allow_loopback up) with
        | Err e => Some (key +:+ ": " +:+ error_display e)
        | Ok _ => None
        end
  | _, _ => None
  end.

Definition stored_form (key : string) (value : json) : json :=
  if String.eqb key KEY_EMBEDDING_ENDPOINT then
    match as_str value with
    | Some url_str => JString (normalize_embedding_endpoint url_str)
    | None => value
    end
  else value.

(** The guards of one entry, in order: its error, or the value to store. *)
Definition update_check (updates : gmap string json) (authenticated : bool) (st : SettingsInner)
    (key : string) (value : json) : result string json :=
  if policy_flag api_immutable key
  then Err (key +:+ ": not changeable via API — set it via environment at startup "
            +:+ "(GET /settings names the locking variable)")
  else if policy_flag config_only key
  then Err (key +:+ ": set via environment at startup, not changeable at runtime")
  else if negb (bool_decide (key ∈ known_keys)) then Err (key +:+ ": unknown setting")
  else
    match type_mismatch key value with
    | Some err => Err err
    | None =>
        if negb authenticated && is_security_sensitive key
        then Err (key +:+ ": security-sensitive — requires authentication")
        else
          match url_check updates st key value with
          | Some err => Err err
          | None =>
              match env_locked st !! key with
              | Some _ => Err (key +:+ ": locked by environment variable, cannot change")
              | None => Ok (stored_form key value)
              end
          end
    end.

Definition update_validate (updates : gmap string json) (authenticated : bool) (st : SettingsInner) :
    list string * list (string * json) :=
  foldl (fun '(errors, to_update) '(key, value) =>
      match update_check updates authenticated st key value with
      | Err err => (errors ++ [err], to_update)
      | Ok v => (errors, to_update ++ [(key, v)])
      end)
    ([], []) (hash_iter updates).

(** The upserts of the transaction. *)
Definition upsert_rows (nonce : string -> list Z) (st : SettingsInner) (to_update : list (string * json))
    (t : gmap string json) : gmap string json :=
  foldl (fun t '(key, value) => <[key := stored_value_for (nonce key) key value st]> t) t to_update.

Definition cache_rows (to_update : list (string * json)) (m : gmap string json) : gmap string json :=
  foldl (fun m '(key, value) => <[key := value]> m) m to_update.

Definition update_commit (f : Fault) (nonce : string -> list Z) (to_update : list (string * json))
    (st : SettingsInner) : Result unit * SettingsInner :=
  match run_tx f (upsert_rows nonce st to_update) (table st) with
  | (Some err, t) => (Err err, with_table t st)
  | (None, t) =>
      (Ok tt,
       bump_generation (ro_token_invalidate_all (token_invalidate_all
         (clear_type_mismatches (fst <$> to_update)
           (with_cache (cache_rows to_update (cache st)) (with_table t st))))))
  end.

(** Nothing else runs between the validation and the write. *)
Definition update (f : Fault) (nonce : string -> list Z) (updates : gmap string json)
    (authenticated : bool) (st : SettingsInner) : Result (list string) * SettingsInner :=
  let '(errors, to_update) := update_validate updates authenticated st in
  match to_update with
  | [] => (Ok errors, st)
  | _ =>
      match update_commit f nonce to_update st with
      | (Ok _, st') => (Ok errors, st')
      | (Err e, st') => (Err e, st')
      end
  end.

End Settings.

(** ** Per-archive settings: two columns of [zims], by name *)

Record ZimPrefs := mkPrefs {
  embed_enabled : bool;
  category : option string
}.

Definition get_zim_settings (fault : option Error) (zims : gmap string ZimPrefs) (zim_name : string) :
    Result (option json) :=
  match fault with
  | Some e => Err e
  | None =>
      Ok ((fun p => JObject [("category", match category p with Some c => JString c | None => JNull end);
                             ("embed_enabled", JBool (embed_enabled p))]) <$> zims !! zim_name)
  end.

Definition zim_problem (kv : string * json) : option string :=
  let '(k, v) := kv in
  if String.eqb k "embed_enabled" then
    match as_bool v with Some _ => None | None => Some "'embed_enabled' must be a boolean" end
  else if String.eqb k "category" then
    if is_string v || is_null v then None else Some "'category' must be a string or null"
  else Some ("unknown key '" +:+ k +:+ "'").

(** An [UPDATE .. WHERE name = $1]: the rows touched and the table. *)
Definition zim_update (zim_name : string) (f : ZimPrefs -> ZimPrefs) (zims : gmap string ZimPrefs) :
    Z * gmap string ZimPrefs :=
  match zims !! zim_name with
  | Some p => (1, <[zim_name := f p]> zims)
  | None => (0, zims)
  end.

Definition zim_writes (updates : list (string * json)) : list (ZimPrefs -> ZimPrefs) :=
  match obj_get "embed_enabled" updates ≫= as_bool with
  | Some b => [fun p => mkPrefs b (category p)]
  | None => []
  end ++
  match obj_get "category" updates with
  | Some (JString c) => [fun p => mkPrefs (embed_enabled p) (Some c)]
  | Some JNull => [fun p => mkPrefs (embed_enabled p) None]
  | _ => []
  end.

Fixpoint zim_run_writes (zim_name : string) (ws : list (ZimPrefs -> ZimPrefs))
    (zims : gmap string ZimPrefs) : list Z * gmap string ZimPrefs :=
  match ws with
  | [] => ([], zims)
  | w :: ws' =>
      let '(n, z1) := zim_update zim_name w zims in
      let '(ns, z2) := zim_run_writes zim_name ws' z1 in
      (n :: ns, z2)
  end.

(** [count_fault]: the existence query fails; [peer]: what other sessions do
    before the transaction; [exec_fault]: one of its statements fails;
    [f]: its commit. *)
Definition update_zim_settings (count_fault : option Error)
    (peer : gmap string ZimPrefs -> gmap string ZimPrefs) (exec_fault : option Error) (f : Fault)
    (zim_name : string) (updates : json) (zims : gmap string ZimPrefs) :
    Result unit * gmap string ZimPrefs :=
  let fields := default [] (as_object updates) in
  let problems := omap zim_problem fields in
  match problems with
  | _ :: _ => (Err (InvalidInput (str_join "; " problems)), zims)
  | [] =>
      match count_fault with
      | Some e => (Err e, zims)
      | None =>
          match zims !! zim_name with
          | None => (Err (NotFound ("ZIM '" +:+ zim_name +:+ "' not found")), zims)
          | Some _ =>
              let zims1 := peer zims in
              let '(affected, zims2) := zim_run_writes zim_name (zim_writes fields) zims1 in
              match exec_fault, check_zim_update_affected affected zim_name with
              | Some e, _ => (Err e, zims1)
              | None, Err e => (Err e, zims1)
              | None, Ok _ =>
                  match run_tx f (fun _ => zims2) zims1 with
                  | (Some e, z) => (Err e, z)
                  | (None, z) => (Ok tt, z)
                  end
              end
          end
      end
  end.

(** ** Lemmas: the definitions table *)

Lemma setting_keys_nodup : NoDup (d_key <$> SETTING_DEFS).
Proof. apply (bool_decide_unpack _). vm_compute. done. Qed.

Lemma find_default_lookup l k : NoDup (d_key <$> l) -> forall m : gmap string json,
  foldl (fun m d => <[d_key d := d_default d]> m) m l !! k =
  match List.find (fun d => String.eqb (d_key d) k) l with
  | Some d => Some (d_default d)
  | None => m !! k
  end.
Proof.
  induction l as [|d l IH]; cbn [fmap list_fmap foldl List.find]; [done|].
  intros [Hn Hnd]%NoDup_cons m. rewrite IH by done.
  destruct (String.eqb_spec (d_key d) k) as [<-|Hne].
  - destruct (List.find _ l) as [d'|] eqn:Ef; [|by rewrite lookup_insert_eq].
    apply List.find_some in Ef as [Hin Heq]. apply String.eqb_eq in Heq. destruct Hn.
    rewrite <- Heq. apply list_elem_of_fmap_2. by apply list_elem_of_In.
  - by rewrite lookup_insert_ne.
Qed.

Lemma default_settings_lookup k : default_settings !! k = d_default <$> def k.
Proof.
  unfold default_settings. rewrite find_default_lookup by apply setting_keys_nodup.
  unfold def. by destruct (List.find _ _).
Qed.

Lemma def_key k d : def k = Some d -> d_key d = k /\ d ∈ SETTING_DEFS.
Proof.
  intros [Hin Heq]%List.find_some. apply String.eqb_eq in Heq. by apply list_elem_of_In in Hin.
Qed.

Lemma known_keys_def k : k ∈ known_keys <-> is_Some (def k).
Proof.
  unfold known_keys. rewrite elem_of_list_to_set, list_elem_of_fmap. split.
  - intros (d & -> & Hd). unfold def. destruct (List.find _ _) eqn:E; [done|].
    eapply List.find_none in E; [|by apply list_elem_of_In in Hd]. by rewrite String.eqb_refl in E.
  - intros [d [Hk Hd]%def_key]. eauto.
Qed.

(** Every default has its declared type and range. *)
Lemma defaults_well_typed : Forall (fun d => type_mismatch (d_key d) (d_default d) = None) SETTING_DEFS.
Proof. apply (bool_decide_unpack _). vm_compute. done. Qed.

Lemma type_mismatch_default k v : default_settings !! k = Some v -> type_mismatch k v = None.
Proof.
  rewrite default_settings_lookup. destruct (def k) as [d|] eqn:E; [|done]. intros [= <-].
  apply def_key in E as [<- Hd]. by apply (proj1 (Forall_forall _ _) defaults_well_typed).
Qed.

(** ** Lemmas: reload *)

Section ReloadLemmas.
Context {Ua : UrlApi} {Cr : Crypto} {Hj : HashIter string json} {Hs : HashIter string string}.

(** What a row reads as; [None] when it cannot be decrypted. *)
Definition plain_of (kek : option (list Z)) (key : string) (v : json) : option json :=
  match kek, as_str v with
  | Some k, Some s =>
      if is_encrypted_at_rest_key key && starts_with ENC_PREFIX s then
        match decrypt_value key k s with Ok (Ok p) => Some (JString p) | _ => None end
      else Some v
  | _, _ => Some v
  end.

Definition readable (kek : option (list Z)) (t : gmap string json) : Prop :=
  forall key v, t !! key = Some v -> is_Some (plain_of kek key v).

(** What the pass collects of a row. *)
Definition legacy_of (key : string) (v : json) : list (string * string) :=
  match as_str v with
  | Some s =>
      if is_encrypted_at_rest_key key && negb (starts_with ENC_PREFIX s) && negb (str_is_empty s)
      then [(key, s)] else []
  | None => []
  end.

Lemma decrypt_pass_step k key v p l map legacy :
  map !! key = Some v -> plain_of (Some k) key v = Some p ->
  decrypt_pass k ((key, v) :: l) map legacy =
  decrypt_pass k l (<[key := p]> map) (legacy ++ legacy_of key v).
Proof.
  intros Hm. unfold plain_of, legacy_of. cbn [decrypt_pass].
  destruct (as_str v) as [s|]; destruct (is_encrypted_at_rest_key key); cbn [negb andb];
    try (by intros [= <-]; rewrite insert_id, app_nil_r).
  destruct (starts_with ENC_PREFIX s); cbn [negb andb].
  - destruct (decrypt_value key k s) as [[p'|]|]; [|done..]. intros [= <-]. by rewrite app_nil_r.
  - intros [= <-]. rewrite insert_id by done. by destruct (str_is_empty s); cbn; rewrite ?app_nil_r.
Qed.

Lemma decrypt_pass_bad k key v l map legacy r :
  plain_of (Some k) key v = None -> decrypt_pass k ((key, v) :: l) map legacy <> Ok (Ok r).
Proof.
  unfold plain_of. cbn [decrypt_pass]. destruct (as_str v) as [s|]; [|done].
  destruct (is_encrypted_at_rest_key key), (starts_with ENC_PREFIX s); cbn; try done.
  by destruct (decrypt_value key k s) as [[p'|]|].
Qed.

Lemma insert_lookup_others (map : gmap string json) key p l :
  key ∉ l.*1 -> (forall k v, (k, v) ∈ l -> map !! k = Some v) ->
  forall k v, (k, v) ∈ l -> <[key := p]> map !! k = Some v.
Proof.
  intros Hn Hm k v Hin. rewrite lookup_insert_ne; [auto|]. intros ->.
  destruct Hn. by apply (list_elem_of_fmap_2 fst l (k, v)).
Qed.

Lemma decrypt_pass_ok k l : forall map legacy,
  NoDup (l.*1) -> (forall key v, (key, v) ∈ l -> map !! key = Some v) ->
  (forall key v, (key, v) ∈ l -> is_Some (plain_of (Some k) key v)) ->
  decrypt_pass k l map legacy =
  Ok (Ok (foldl (fun m kv => match plain_of (Some k) (fst kv) (snd kv) with
                             | Some w => <[fst kv := w]> m | None => m end) map l,
          legacy ++ (l ≫= fun kv => legacy_of (fst kv) (snd kv)))).
Proof.
  induction l as [|[key v] l IH]; intros map legacy Hnd Hm Hp; [by cbn; rewrite app_nil_r|].
  apply NoDup_cons in Hnd as [Hn Hnd]. destruct (Hp key v) as [p Hpv]; [left|].
  erewrite decrypt_pass_step; [|apply Hm; left|exact Hpv]. cbn [foldl fst snd mbind list_bind].
  rewrite Hpv, IH; [by rewrite app_assoc|done| |].
  - apply insert_lookup_others; [done|]. intros; apply Hm; by right.
  - intros; apply Hp; by right.
Qed.

Lemma decrypt_pass_readable k l : forall map legacy r,
  NoDup (l.*1) -> (forall key v, (key, v) ∈ l -> map !! key = Some v) ->
  decrypt_pass k l map legacy = Ok (Ok r) ->
  forall key v, (key, v) ∈ l -> is_Some (plain_of (Some k) key v).
Proof.
  induction l as [|[key v] l IH]; intros map legacy r Hnd Hm Hd; [set_solver|].
  apply NoDup_cons in Hnd as [Hn Hnd].
  destruct (plain_of (Some k) key v) as [p|] eqn:Hpv; [|by eapply decrypt_pass_bad in Hpv].
  erewrite decrypt_pass_step in Hd; [|apply Hm; left|exact Hpv].
  intros key' v' [[= -> ->]|Hin]%elem_of_cons; [eauto|].
  eapply IH; [done| |exact Hd|done]. apply insert_lookup_others; [done|]. intros; apply Hm; by right.
Qed.

Definition legacy_rows (kek : option (list Z)) (t : gmap string json) : list (string * string) :=
  match kek with Some _ => hash_iter t ≫= fun kv => legacy_of (fst kv) (snd kv) | None => [] end.

(** The decrypt pass succeeds exactly on readable tables. *)
Lemma decrypt_rows_ok kek t : readable kek t ->
  decrypt_rows kek t = Ok (Ok (fold_entries (plain_of kek) t t, legacy_rows kek t)).
Proof.
  intros Hr. unfold decrypt_rows, legacy_rows. destruct kek as [k|].
  - rewrite decrypt_pass_ok; [done|apply hash_iter_nodup| |].
    + intros key v. apply elem_of_hash_iter.
    + intros key v Hin. by apply Hr, elem_of_hash_iter.
  - do 3 f_equal. apply map_eq. intros key. rewrite fold_entries_lookup.
    destruct (t !! key) as [v|] eqn:E; cbn; [|done]. by destruct (as_str v).
Qed.

Lemma decrypt_rows_readable kek t r : decrypt_rows kek t = Ok (Ok r) -> readable kek t.
Proof.
  unfold decrypt_rows. destruct kek as [k|].
  - intros Hd key v Hv. eapply decrypt_pass_readable; [apply hash_iter_nodup| |exact Hd|].
    + intros ? ?. apply elem_of_hash_iter.
    + by apply elem_of_hash_iter.
  - intros _ key v _. unfold plain_of. eauto.
Qed.

Lemma seed_fold l : forall (m : gmap string json) acc, NoDup (l.*1) ->
  let r := foldl (fun '(m, seeded) '(key, value) =>
      match m !! key with
      | None => (<[key := value]> m, seeded ++ [(key, value)])
      | Some _ => (m, seeded)
      end) (m, acc) l in
  (forall k, fst r !! k = match m !! k with Some v => Some v | None => (list_to_map l : gmap string json) !! k end) /\
  snd r = acc ++ filter (fun kv => m !! fst kv = None) l.
Proof.
  induction l as [|[key v] l IH]; intros m acc Hnd; cbn [foldl].
  { cbn. split; [|by rewrite app_nil_r]. intros k. rewrite lookup_empty. by destruct (m !! k). }
  apply NoDup_cons in Hnd as [Hn Hnd]. rewrite filter_cons. cbn [fst].
  destruct (m !! key) as [w|] eqn:E.
  - destruct (IH m acc Hnd) as [H1 H2]. split.
    + intros k. rewrite H1. destruct (m !! k) eqn:Ek; [done|]. cbn. by rewrite lookup_insert_ne by congruence.
    + by rewrite H2, decide_False.
  - destruct (IH (<[key := v]> m) (acc ++ [(key, v)]) Hnd) as [H1 H2]. split.
    + intros k. rewrite H1. cbn. destruct (decide (k = key)) as [->|Hne].
      * by rewrite !lookup_insert_eq, E.
      * by rewrite !lookup_insert_ne.
    + rewrite H2, decide_True, <- app_assoc by done. cbn. f_equal. f_equal.
      apply filter_ext_in. intros [k w] Hin. cbn.
      rewrite lookup_insert_ne; [done|]. intros <-. destruct Hn. by apply (list_elem_of_fmap_2 fst l (key, w)).
Qed.

Lemma seed_missing_spec m :
  (forall k, fst (seed_missing m) !! k =
     match m !! k with Some v => Some v | None => default_settings !! k end) /\
  snd (seed_missing m) = filter (fun kv => m !! fst kv = None) (hash_iter default_settings).
Proof.
  destruct (seed_fold (hash_iter default_settings) m [] (hash_iter_nodup _)) as [H1 H2].
  split; [|exact H2]. intros k. etransitivity; [exact (H1 k)|]. by rewrite hash_iter_list_to_map.
Qed.

(** The value a reload installs under a key: the environment's, else the
    stored one, else the default. *)
Definition env_override (st : SettingsInner) (k : string) : option json :=
  env_snapshot st !! k ≫= (fun raw => if str_is_empty raw then None else parse_snapshot_value k raw).

Definition effective_value (st : SettingsInner) (k : string) : option json :=
  match env_override st k with
  | Some v => Some v
  | None =>
      match table st !! k with
      | Some v => plain_of (kek st) k v
      | None => default_settings !! k
      end
  end.

Definition settings_of (st : SettingsInner) : gmap string json :=
  apply_env_snapshot (fst (seed_missing (fold_entries (plain_of (kek st)) (table st) (table st))))
    (env_snapshot st).

Lemma settings_of_lookup st k : readable (kek st) (table st) -> settings_of st !! k = effective_value st k.
Proof.
  intros Hr. unfold settings_of, apply_env_snapshot, effective_value, env_override.
  rewrite fold_entries_lookup. destruct (_ ≫= _); [done|].
  rewrite (proj1 (seed_missing_spec _)), fold_entries_lookup.
  destruct (table st !! k) as [v|] eqn:E; cbn; [|done].
  destruct (Hr k v E) as [p ->]. done.
Qed.

(** The outcomes of a reload: it fails and only the table may have changed, or
    the table was readable and the map above is installed. *)
Lemma reload_cases e st :
  (exists t, snd (reload e st) = with_table t st /\ fst (reload e st) <> Ok (Ok tt)) \/
  (readable (kek st) (table st) /\ exists t,
     reload e st = (Ok (Ok tt), install_settings (settings_of st)
       (set_type_mismatches (snapshot_type_mismatches (settings_of st)) (with_table t st)))).
Proof.
  assert (Hst : with_table (table st) st = st) by by destruct st.
  unfold reload. destruct (r_select e); [left; by exists (table st)|].
  destruct (decrypt_rows (kek st) (table st)) as [[[map legacy]|err]|p] eqn:Ed;
    [|left; by exists (table st)..].
  pose proof (decrypt_rows_readable _ _ _ Ed) as Hr. rewrite (decrypt_rows_ok _ _ Hr) in Ed.
  injection Ed as <- <-. unfold settings_of. destruct (seed_missing _) as [map1 seeded]. cbn [fst].
  destruct (seed_tx e st seeded _) as [[err|] t]; [left; by exists t|].
  destruct (reencrypt_tx e st _ _) as [[err|] t']; [left; by exists t'|].
  right. split; [done|]. by exists t'.
Qed.

End ReloadLemmas.

(** ** Lemmas: update *)

Section UpdateLemmas.
Context {Ua : UrlApi} {Cr : Crypto} {Hj : HashIter string json} {Hs : HashIter string string}.

(** The entries of a batch that pass, with the values to store. *)
Definition accepted (updates : gmap string json) (authenticated : bool) (st : SettingsInner) :
    gmap string json :=
  map_imap (fun k v => match update_check updates authenticated st k v with
                       | Ok w => Some w | Err _ => None end) updates.

Lemma accepted_Some updates a st k w :
  accepted updates a st !! k = Some w <->
  exists v, updates !! k = Some v /\ update_check updates a st k v = Ok w.
Proof.
  unfold accepted. rewrite map_lookup_imap. destruct (updates !! k) as [v|]; cbn.
  - split; [|by intros (v0 & [= <-] & ->)]. intros E. exists v. split; [done|].
    destruct (update_check updates a st k v); congruence.
  - split; [done|]. by intros (v & [=] & _).
Qed.

Definition err_of (updates : gmap string json) (a : bool) (st : SettingsInner) (kv : string * json) :=
  match update_check updates a st (fst kv) (snd kv) with Err e => Some e | Ok _ => None end.

Definition ok_of (updates : gmap string json) (a : bool) (st : SettingsInner) (kv : string * json) :=
  match update_check updates a st (fst kv) (snd kv) with
  | Ok w => Some (fst kv, w) | Err _ => None end.

Lemma validate_fold updates a st l : forall errs tu,
  foldl (fun '(errors, to_update) '(key, value) =>
      match update_check updates a st key value with
      | Err err => (errors ++ [err], to_update)
      | Ok v => (errors, to_update ++ [(key, v)])
      end) (errs, tu) l =
  (errs ++ omap (err_of updates a st) l, tu ++ omap (ok_of updates a st) l).
Proof.
  induction l as [|[k v] l IH]; intros errs tu; cbn [foldl]; [by rewrite !app_nil_r|].
  unfold err_of, ok_of in *. cbn [omap list_omap fst snd].
  destruct (update_check updates a st k v); rewrite IH, <- app_assoc; done.
Qed.

Lemma omap_ok_keys updates a st l : (omap (ok_of updates a st) l).*1 `sublist_of` l.*1.
Proof.
  induction l as [|[k v] l IH]; [done|]. cbn. unfold ok_of at 1. cbn.
  destruct (update_check updates a st k v); cbn; by constructor.
Qed.

Lemma omap_split_length updates a st l :
  (length (omap (err_of updates a st) l) + length (omap (ok_of updates a st) l) = length l)%nat.
Proof.
  induction l as [|[k v] l IH]; [done|]. cbn. unfold err_of at 1, ok_of at 1. cbn.
  destruct (update_check updates a st k v); cbn; lia.
Qed.

Lemma ok_list_to_map updates a st :
  list_to_map (omap (ok_of updates a st) (hash_iter updates)) = accepted updates a st.
Proof.
  assert (Hnd : NoDup (omap (ok_of updates a st) (hash_iter updates)).*1).
  { eapply sublist_NoDup; [apply (hash_iter_nodup updates)|apply omap_ok_keys]. }
  apply map_eq. intros k. apply option_eq. intros w.
  rewrite <- elem_of_list_to_map by done. rewrite accepted_Some, list_elem_of_omap. split.
  - intros ([k0 v] & Hin%elem_of_hash_iter & Ho). unfold ok_of in Ho. cbn in Ho.
    destruct (update_check updates a st k0 v) eqn:E; [|done]. injection Ho as -> ->. eauto.
  - intros (v & Hv & E). exists (k, v). split; [by apply elem_of_hash_iter|]. unfold ok_of. cbn. by rewrite E.
Qed.

Lemma foldl_insert_union {V} (l : list (string * V)) (m : gmap string V) :
  NoDup (l.*1) -> foldl (fun m '(key, value) => <[key := value]> m) m l = list_to_map l ∪ m.
Proof.
  intros Hnd. apply map_eq. intros k.
  pose proof (foldl_insert_lookup (fun (_ : string) (v : V) => Some v) l m k Hnd) as E.
  cbn beta iota in E. rewrite lookup_union. etransitivity; [etransitivity; [|exact E]|].
  { f_equal. apply foldl_ext. by intros ? []. }
  destruct (list_to_map l !! k); cbn; [|by destruct (m !! k)]. by destruct (m !! k).
Qed.

Definition stored_rows (nonce : string -> list Z) (st : SettingsInner) (m : gmap string json) :
    gmap string json :=
  map_imap (fun k w => Some (stored_value_for (nonce k) k w st)) m.

Lemma stored_rows_lookup nonce st m k :
  stored_rows nonce st m !! k = (fun w => stored_value_for (nonce k) k w st) <$> m !! k.
Proof. unfold stored_rows. rewrite map_lookup_imap. by destruct (m !! k). Qed.

Lemma upsert_rows_union nonce st tu t :
  NoDup (tu.*1) -> upsert_rows nonce st tu t = stored_rows nonce st (list_to_map tu) ∪ t.
Proof.
  intros Hnd. unfold upsert_rows.
  transitivity (foldl (fun t '(key, value) => <[key := value]> t) t
    ((fun kv => (fst kv, stored_value_for (nonce (fst kv)) (fst kv) (snd kv) st)) <$> tu)).
  { clear Hnd. revert t. induction tu as [|[k v] tu IH]; intros t; cbn; [done|]. apply IH. }
  rewrite foldl_insert_union.
  2:{ rewrite <- list_fmap_compose. by rewrite (list_fmap_ext _ fst) by done. }
  f_equal. induction tu as [|[k v] tu IH]; cbn; [by unfold stored_rows; rewrite map_imap_empty|].
  apply NoDup_cons in Hnd as [Hn Hnd]. rewrite IH by done. apply map_eq. intros k0.
  rewrite stored_rows_lookup. destruct (decide (k0 = k)) as [->|].
  - by rewrite !lookup_insert_eq.
  - by rewrite !lookup_insert_ne, stored_rows_lookup by done.
Qed.

(** What a batch does, as one statement: nothing passes and nothing happens, or
    the transaction decides between the write and an error. *)
Lemma update_spec f nonce updates a st :
  let acc := accepted updates a st in
  exists errors, Z.of_nat (length errors) = map_len updates - map_len acc /\
  (acc = ∅ -> update f nonce updates a st = (Ok errors, st)) /\
  (acc <> ∅ -> exists to_update, NoDup (to_update.*1) /\ list_to_map to_update = acc /\
    let t' := stored_rows nonce st acc ∪ table st in
    update f nonce updates a st =
    match f with
    | NoFault =>
        (Ok errors, bump_generation (ro_token_invalidate_all (token_invalidate_all
           (clear_type_mismatches (fst <$> to_update)
             (with_cache (acc ∪ cache st) (with_table t' st))))))
    | Failed e => (Err e, st)
    | ReplyLost e => (Err e, with_table t' st)
    end).
Proof.
  intros acc. unfold update, update_validate. rewrite validate_fold. cbn [app].
  set (tu := omap (ok_of updates a st) (hash_iter updates)).
  assert (Hnd : NoDup (tu.*1)).
  { eapply sublist_NoDup; [apply (hash_iter_nodup updates)|apply omap_ok_keys]. }
  assert (Htu : list_to_map tu = acc) by apply ok_list_to_map.
  exists (omap (err_of updates a st) (hash_iter updates)). split_and!.
  - pose proof (omap_split_length updates a st (hash_iter updates)) as Hl. fold tu in Hl.
    unfold map_len. rewrite <- Htu, map_size_list_to_map by done.
    rewrite <- length_map_to_list, <- (hash_iter_perm updates). lia.
  - intros He. destruct tu as [|[k w] tu]; [done|]. cbn in Htu. rewrite He in Htu.
    by apply (f_equal (lookup k)) in Htu; rewrite lookup_insert_eq, lookup_empty in Htu.
  - intros Hne. exists tu. split_and!; [done..|]. cbn zeta.
    assert (Hcase : forall X : Result (list string) * SettingsInner, tu <> [] -> forall Y,
      match tu with [] => X | _ :: _ => Y end = Y) by by destruct tu.
    rewrite Hcase. 2:{ intros ->. by apply Hne. }
    unfold update_commit, run_tx. rewrite upsert_rows_union, Htu by done.
    unfold cache_rows. rewrite foldl_insert_union, Htu by done.
    destruct f; [done| |done]. by destruct st.
Qed.

(** Deleting the records of a list of keys. *)
Lemma clear_mismatches_lookup keys mm k :
  foldl (fun (mm : gmap string string) key => delete key mm) mm keys !! k =
  if decide (k ∈ keys) then None else mm !! k.
Proof.
  revert mm. induction keys as [|k0 keys IH]; intros mm; cbn; [done|].
  rewrite IH. destruct (decide (k ∈ keys)), (decide (k ∈ k0 :: keys)) as [Hin|Hin]; try set_solver.
  - apply elem_of_cons in Hin as [->|]; [by rewrite lookup_delete_eq|done].
  - rewrite lookup_delete_ne by set_solver. done.
Qed.

(** Why an entry passes. *)
Lemma update_check_ok updates a st k v w :
  update_check updates a st k v = Ok w ->
  policy_flag api_immutable k = false /\ policy_flag config_only k = false /\ k ∈ known_keys /\
  type_mismatch k v = None /\ (a = true \/ is_security_sensitive k = false) /\
  url_check updates st k v = None /\ env_locked st !! k = None /\ w = stored_form k v.
Proof.
  unfold update_check. destruct (policy_flag api_immutable k); [discriminate|].
  destruct (policy_flag config_only k); [discriminate|].
  case_bool_decide as Hk; cbn [negb]; [|discriminate].
  destruct (type_mismatch k v); [discriminate|].
  destruct (negb a && is_security_sensitive k) eqn:Ea; [discriminate|].
  destruct (url_check updates st k v); [discriminate|].
  destruct (env_locked st !! k); [discriminate|]. intros [= <-].
  split_and!; try reflexivity; [exact Hk|].
  destruct a; [by left|]. right. exact Ea.
Qed.

Lemma stored_form_typed k v : type_mismatch k v = None -> type_mismatch k (stored_form k v) = None.
Proof.
  unfold stored_form. destruct (String.eqb_spec k KEY_EMBEDDING_ENDPOINT) as [->|]; [|done].
  destruct v; done.
Qed.

End UpdateLemmas.
