(* ===== verification/SettingsRun.v ===== *)
(** * SettingsRun: the settings under sequences of operations

    What reloads, updates, credential upgrades and other instances' writes do
    to the settings one after the other, and the properties of
    [src/settings/cache.rs] that hold through them. *)

From S2P Require Import Prelude RustStr Errors Floats JsonValue SettingDefs Config NetGuard Auth Settings RateLimit.

#[local] Opaque SETTING_DEFS known_keys default_settings.

(** ** Operations *)

Inductive SettingsOp :=
| OpReload (e : ReloadEnv)
| OpUpdate (f : Fault) (nonce : string -> list Z) (updates : gmap string json) (authenticated : bool)
| OpAuth (op : AuthOp)
| OpPeer (t : gmap string json).

Section Run.
Context {Ua : UrlApi} {Cr : Crypto} {Hj : HashIter string json} {Hs : HashIter string string}
  {Hz : HashIter string Z}.

(** Of the credential operations, verification and upgrades; another instance
    may leave the table in any state. *)
Definition settings_step (st : SettingsInner) (op : SettingsOp) : SettingsInner :=
  match op with
  | OpReload e => snd (reload e st)
  | OpUpdate f nonce updates a => snd (update f nonce updates a st)
  | OpAuth (OpInstall _) => st
  | OpAuth op => auth_step st op
  | OpPeer t => with_table t st
  end.

Definition settings_run : SettingsInner -> list SettingsOp -> SettingsInner := foldl settings_step.

(** ** What each operation keeps *)

Ltac auth_cases :=
  unfold verify_bg, verify_finish, verify_read_only_bg, update_row; repeat (case_match; try done).

Lemma update_cases f nonce updates a st :
  let acc := accepted updates a st in
  (exists t, snd (update f nonce updates a st) = with_table t st) \/
  (acc <> ∅ /\ exists to_update, NoDup (to_update.*1) /\ list_to_map to_update = acc /\
   snd (update f nonce updates a st) =
   bump_generation (ro_token_invalidate_all (token_invalidate_all
     (clear_type_mismatches (fst <$> to_update)
       (with_cache (acc ∪ cache st) (with_table (stored_rows nonce st acc ∪ table st) st)))))).
Proof.
  intros acc. assert (Hst : with_table (table st) st = st) by by destruct st.
  destruct (update_spec f nonce updates a st) as (errors & _ & H0 & H1). fold acc in H0, H1.
  destruct (decide (acc = ∅)) as [He|Hne].
  - rewrite (H0 He). left. by exists (table st).
  - destruct (H1 Hne) as (tu & Hnd & Htu & ->). destruct f; cbn [snd].
    + right. split; [done|]. by exists tu.
    + left. by exists (table st).
    + left. by eexists.
Qed.

(** The maps after a batch that reported no failure. *)
Lemma update_ok_maps f nonce updates a st errors st' :
  update f nonce updates a st = (Ok errors, st') ->
  cache st' = accepted updates a st ∪ cache st /\
  table st' = stored_rows nonce st (accepted updates a st) ∪ table st.
Proof.
  destruct (update_spec f nonce updates a st) as (errs & _ & H0 & H1).
  destruct (decide (accepted updates a st = ∅)) as [He|Hne].
  - rewrite (H0 He), He. intros [= _ <-]. unfold stored_rows.
    by rewrite map_imap_empty, !map_empty_union.
  - destruct (H1 Hne) as (tu & _ & _ & ->). destruct f; [|done..]. by intros [= _ <-].
Qed.

(** The fixed parts of the state. *)
Lemma settings_step_fixed st op :
  env_locked (settings_step st op) = env_locked st /\
  env_snapshot (settings_step st op) = env_snapshot st /\ kek (settings_step st op) = kek st.
Proof.
  destruct op as [e|f nonce updates a|op|t]; cbn [settings_step]; [| | |done].
  - destruct (reload_cases e st) as [(t & -> & _)|(_ & t & ->)]; done.
  - destruct (update_cases f nonce updates a st) as [[t ->]|(_ & tu & _ & _ & ->)]; done.
  - destruct op; cbn; try done.
    all: auth_cases.
Qed.

(** The cache under one operation: a reload installs the effective values, an
    update writes the accepted ones, an upgrade writes a credential. *)
Lemma settings_step_cache st op k :
  cache (settings_step st op) !! k = cache st !! k \/
  (exists e, op = OpReload e /\ readable (kek st) (table st) /\
     cache (settings_step st op) !! k = effective_value st k) \/
  (exists f nonce updates a w, op = OpUpdate f nonce updates a /\
     accepted updates a st !! k = Some w /\ cache (settings_step st op) !! k = Some w) \/
  k = KEY_ACCESS_ADMIN_PASSWORD \/ k = KEY_ACCESS_READ_ONLY_TOKEN.
Proof.
  destruct op as [e|f nonce updates a|op|t]; cbn [settings_step]; [| | |by left].
  - destruct (reload_cases e st) as [(t & -> & _)|(Hr & t & ->)]; [by left|].
    right; left. exists e. split_and!; [done..|]. by apply settings_of_lookup.
  - destruct (update_cases f nonce updates a st) as [[t ->]|(Hne & tu & Hnd & Htu & ->)]; [by left|].
    cbn. destruct (accepted updates a st !! k) as [w|] eqn:E.
    + right; right; left. exists f, nonce, updates, a, w. split_and!; [done..|].
      rewrite lookup_union, E. by destruct (cache st !! k).
    + left. rewrite lookup_union, E. by destruct (cache st !! k).
  - destruct (decide (k = KEY_ACCESS_ADMIN_PASSWORD)); [by auto|].
    destruct (decide (k = KEY_ACCESS_READ_ONLY_TOKEN)); [by auto 10|]. left.
    destruct op; cbn; try done.
    all: rewrite ?lookup_insert_ne by done; auth_cases.
Qed.

(** A key the environment overrides and locks keeps the environment's value. *)
Lemma locked_value_stable st op k v :
  env_override st k = Some v -> is_Some (env_locked st !! k) ->
  k <> KEY_ACCESS_ADMIN_PASSWORD -> k <> KEY_ACCESS_READ_ONLY_TOKEN ->
  cache st !! k = Some v -> cache (settings_step st op) !! k = Some v.
Proof.
  intros Ho [var Hl] Ha Hro Hc.
  destruct (settings_step_cache st op k) as [->|[(e & _ & Hr & ->)|[(f & nonce & u & a & w & _ & Hacc & _)|[|]]]];
    [done| | |done..].
  - unfold effective_value. by rewrite Ho.
  - apply accepted_Some in Hacc as (v0 & _ & Hok). apply update_check_ok in Hok as (_ & _ & _ & _ & _ & _ & E & _).
    congruence.
Qed.

Lemma locked_value_run ops : forall st k v,
  env_override st k = Some v -> is_Some (env_locked st !! k) ->
  k <> KEY_ACCESS_ADMIN_PASSWORD -> k <> KEY_ACCESS_READ_ONLY_TOKEN ->
  cache st !! k = Some v -> cache (settings_run st ops) !! k = Some v.
Proof.
  induction ops as [|op ops IH]; intros st k v Ho Hl Ha Hro Hc; [done|]. cbn.
  destruct (settings_step_fixed st op) as (E1 & E2 & _).
  apply IH; try done.
  - unfold env_override. rewrite E2. exact Ho.
  - by rewrite E1.
  - by apply locked_value_stable.
Qed.

(** ** The URL guard of an update *)

(** The rows with a URL policy: gated by a boolean that an authenticated
    update may set, and themselves security-sensitive. *)
Definition url_row_ok (d : SettingDef) : bool :=
  match url_policy (d_policy d) with
  | None => true
  | Some up =>
      match private_network_flag up with
      | None => true
      | Some fk =>
          security_sensitive (d_policy d) && negb (String.eqb fk KEY_EMBEDDING_ENDPOINT) &&
          (String.eqb fk KEY_TORRENT_ALLOW_PRIVATE_NETWORKS ||
           String.eqb fk KEY_DOWNLOADS_ALLOW_PRIVATE_NETWORKS) &&
          match def fk with
          | Some fd =>
              bool_decide (d_type fd = TyBool) && bool_decide (d_range fd = None) &&
              negb (api_immutable (d_policy fd)) && negb (config_only (d_policy fd)) &&
              bool_decide (url_policy (d_policy fd) = None)
          | None => false
          end
      end
  end.

Lemma url_rows_ok : forallb url_row_ok SETTING_DEFS = true.
Proof. vm_compute. reflexivity. Qed.

Lemma url_row_flag k d up fk :
  def k = Some d -> url_policy (d_policy d) = Some up -> private_network_flag up = Some fk ->
  is_security_sensitive k = true /\ (fk =? KEY_EMBEDDING_ENDPOINT)%string = false /\
  (fk = KEY_TORRENT_ALLOW_PRIVATE_NETWORKS \/ fk = KEY_DOWNLOADS_ALLOW_PRIVATE_NETWORKS) /\
  exists fd, def fk = Some fd /\ d_type fd = TyBool /\ d_range fd = None /\
    api_immutable (d_policy fd) = false /\ config_only (d_policy fd) = false /\
    url_policy (d_policy fd) = None.
Proof.
  intros Hd Hu Hf. pose proof (def_key k d Hd) as [_ Hin].
  pose proof (proj1 (forallb_forall _ _) url_rows_ok d (proj1 (list_elem_of_In _ _) Hin)) as Hok.
  unfold url_row_ok in Hok. rewrite Hu, Hf in Hok.
  apply andb_true_iff in Hok as [[[Hsec He]%andb_true_iff Hfk]%andb_true_iff Hfd].
  apply orb_true_iff in Hfk. rewrite !String.eqb_eq in Hfk.
  unfold is_security_sensitive, policy_flag. rewrite Hd.
  destruct (def fk) as [fd|]; [|discriminate].
  apply andb_true_iff in Hfd as [[[[Ht Hr]%andb_true_iff Ha]%andb_true_iff Hc]%andb_true_iff Hup].
  apply bool_decide_eq_true in Ht, Hr, Hup. apply negb_true_iff in He, Ha, Hc. eauto 10.
Qed.

(** A pending boolean under such a flag passes. *)
Lemma flag_update_accepted updates st fk fd b :
  def fk = Some fd -> d_type fd = TyBool -> d_range fd = None ->
  api_immutable (d_policy fd) = false -> config_only (d_policy fd) = false ->
  url_policy (d_policy fd) = None -> (fk =? KEY_EMBEDDING_ENDPOINT)%string = false ->
  env_locked st !! fk = None -> updates !! fk = Some (JBool b) ->
  accepted updates true st !! fk = Some (JBool b).
Proof.
  intros Hd Ht Hr Ha Hc Hu He Hl Hup. apply accepted_Some. exists (JBool b). split; [done|].
  unfold update_check, policy_flag, type_mismatch, url_check. rewrite Hd. cbn [mbind option_bind].
  rewrite Ha, Hc, Ht, Hr, Hu, Hl, bool_decide_eq_true_2 by (apply known_keys_def; eauto).
  cbn. unfold stored_form. by rewrite He.
Qed.

(** The flag in force after the batch admits what the check admitted. *)
Lemma url_check_after updates st k d up url fk t :
  def k = Some d -> url_policy (d_policy d) = Some up -> private_network_flag up = Some fk ->
  env_locked st !! fk = None -> url <> EmptyString ->
  url_check updates st k (JString url) = None ->
  assert_host_not_blocked url
    (default false (get_typed TBool fk (with_table t (with_cache (accepted updates true st ∪ cache st) st))))
    (allow_loopback up) = Ok tt.
Proof.
  intros Hd Hu Hf Hl Hne. destruct (url_row_flag k d up fk Hd Hu Hf) as (_ & He & _ & fd & Hfd & Ht & Hr & Ha & Hc & Hup).
  unfold url_check. rewrite Hd. cbn [mbind option_bind as_str]. rewrite Hu, Hf.
  destruct (str_is_empty url) eqn:Ee; [by destruct url|].
  unfold get_typed, get. cbn [cache with_table with_cache].
  destruct (updates !! fk) as [v|] eqn:Ev; cbn [effective_private_flag].
  - destruct v as [|b| | | |] eqn:Evv.
    2:{ rewrite lookup_union, (flag_update_accepted updates st fk fd b) by done.
        intros Hok. destruct (cache st !! fk); cbn in *;
          by destruct (assert_host_not_blocked url b (allow_loopback up)) as [[]|]. }
    all: cbn [as_bool default]; intros Hok;
      assert (Hno : assert_host_not_blocked url false (allow_loopback up) = Ok tt)
        by (cbn in Hok; by destruct (assert_host_not_blocked url false (allow_loopback up)) as [[]|]);
      match goal with |- assert_host_not_blocked _ ?b _ = _ => destruct b end;
      auto using assert_host_mono.
  - assert (Hacc : accepted updates true st !! fk = None).
    { destruct (accepted updates true st !! fk) eqn:E; [|done].
      apply accepted_Some in E as (? & ? & _). congruence. }
    rewrite lookup_union, Hacc. intros Hok. destruct (cache st !! fk); cbn in *;
      match goal with |- ?x = _ => by destruct x as [[]|] end.
Qed.

(** ** Memory and table agree *)

(** The map in memory is the one a reload would install. *)
Definition coherent (st : SettingsInner) : Prop :=
  readable (kek st) (table st) /\ forall k, cache st !! k = effective_value st k.

(** The strings the rows hold are UTF-8, the nonces twelve bytes. *)
Definition utf8_value (v : json) : Prop :=
  forall s, v = JString s -> utf8_valid (bytes_of s) = true.

Definition nonce_ok (n : list Z) : Prop := length n = 12%nat /\ Forall is_byte n.

Lemma defaults_utf8 k v : default_settings !! k = Some v -> utf8_value v.
Proof.
  rewrite default_settings_lookup. destruct (def k) as [d|] eqn:E; [|done]. intros [= <-].
  apply def_key in E as [_ Hin]. revert d Hin. apply Forall_forall.
  assert (Hall : forallb (fun d => match d_default d with JString s => utf8_valid (bytes_of s) | _ => true end)
    SETTING_DEFS = true) by (vm_compute; reflexivity).
  apply Forall_forall. intros d Hin%list_elem_of_In s Hs1.
  apply (proj1 (forallb_forall _ _) Hall) in Hin. by rewrite Hs1 in Hin.
Qed.

Lemma plain_of_stored st n k w :
  nonce_ok n -> utf8_value w -> plain_of (kek st) k (stored_value_for n k w st) = Some w.
Proof.
  intros [Hl Hb] Hu. unfold stored_value_for, plain_of. destruct (kek st) as [kk|]; [|by destruct (as_str w)].
  destruct (is_encrypted_at_rest_key k); cbn [andb]; [|by destruct (as_str w)].
  destruct w as [| | |s| |]; cbn [as_str]; try done.
  destruct s as [|ch s]; [done|]. cbn [str_is_empty negb as_str].
  rewrite encrypt_value_prefix, decrypt_encrypt; auto.
Qed.

Lemma stored_rows_readable nonce st acc :
  (forall k, nonce_ok (nonce k)) -> (forall k w, acc !! k = Some w -> utf8_value w) ->
  readable (kek st) (table st) -> readable (kek st) (stored_rows nonce st acc ∪ table st).
Proof.
  intros Hn Hu Hr key v. rewrite lookup_union, stored_rows_lookup.
  destruct (acc !! key) as [w|] eqn:E; cbn.
  - destruct (table st !! key); cbn; intros [= <-]; rewrite plain_of_stored; eauto.
  - destruct (table st !! key) eqn:Et; cbn; [|done]. intros [= <-]. by apply Hr.
Qed.

(** A successful batch keeps the agreement, if no accepted key is one the
    environment overrides. *)
Lemma update_coherent nonce updates a st :
  coherent st -> (forall k, nonce_ok (nonce k)) ->
  (forall k w, accepted updates a st !! k = Some w -> utf8_value w /\ env_override st k = None) ->
  coherent (snd (update NoFault nonce updates a st)).
Proof.
  intros Hco Hn Hacc. destruct (update_spec NoFault nonce updates a st) as (errors & _ & H0 & H1).
  destruct (decide (accepted updates a st = ∅)) as [He|Hne]; [by rewrite (H0 He)|].
  destruct (H1 Hne) as (tu & _ & _ & ->). destruct Hco as [Hr Hc].
  set (acc := accepted updates a st) in *. split; cbn.
  - apply stored_rows_readable; [done| |done]. intros k w Hw. by apply (Hacc k w).
  - intros k. unfold effective_value, env_override. cbn.
    rewrite !lookup_union, stored_rows_lookup.
    destruct (acc !! k) as [w|] eqn:E; cbn.
    + destruct (Hacc k w E) as [Hu Ho]. unfold env_override in Ho. rewrite Ho.
      destruct (cache st !! k), (table st !! k); cbn; rewrite plain_of_stored; done.
    + pose proof (Hc k) as Hck. unfold effective_value, env_override in Hck.
      destruct (cache st !! k), (table st !! k); exact Hck.
Qed.

Definition faultless (e : ReloadEnv) : Prop :=
  r_select e = None /\ r_seed e = NoFault /\ r_reencrypt e = NoFault.

Lemma reload_faultless e st : faultless e -> readable (kek st) (table st) ->
  exists t, reload e st = (Ok (Ok tt), install_settings (settings_of st)
       (set_type_mismatches (snapshot_type_mismatches (settings_of st)) (with_table t st))).
Proof.
  intros (H1 & H2 & H3) Hr. destruct (reload_cases e st) as [(t & _ & Hne)|(_ & Ht)]; [|done].
  exfalso. apply Hne. unfold reload, seed_tx, reencrypt_tx. rewrite H1, H2, H3, (decrypt_rows_ok _ _ Hr).
  destruct (seed_missing _) as [map1 seeded]. unfold run_tx.
  destruct seeded; (destruct (kek st); [|done]); by destruct (legacy_rows _ _).
Qed.

Lemma coherent_settings_of st : coherent st -> settings_of st = cache st.
Proof. intros [Hr Hc]. apply map_eq. intros k. by rewrite settings_of_lookup. Qed.

Lemma insert_seeded_lookup nonce st l : forall t k, NoDup (l.*1) ->
  insert_seeded nonce st l t !! k =
  match t !! k with
  | Some v => Some v
  | None => (fun v => stored_value_for (nonce k) k v st) <$> (list_to_map l : gmap string json) !! k
  end.
Proof.
  induction l as [|[k0 v0] l IH]; intros t k Hnd.
  { cbn. rewrite lookup_empty. by destruct (t !! k). }
  apply NoDup_cons in Hnd as [Hn Hnd]. cbn [insert_seeded foldl list_to_map foldr fst snd uncurry].
  change (foldl _ ?t0 l) with (insert_seeded nonce st l t0). rewrite IH by done.
  destruct (decide (k = k0)) as [->|Hne].
  - cbn. rewrite lookup_insert_eq. destruct (t !! k0) eqn:E; [by rewrite E|by rewrite lookup_insert_eq].
  - cbn. rewrite (lookup_insert_ne _ k0 k) by done. destruct (t !! k0); [done|]. by rewrite lookup_insert_ne.
Qed.

Lemma reencrypt_lookup kk nonce l : forall t k, NoDup (l.*1) ->
  reencrypt_legacy kk nonce l t !! k =
  match (list_to_map l : gmap string string) !! k with
  | Some s => if bool_decide (t !! k = Some (JString s))
              then Some (JString (encrypt_value kk (nonce k) s)) else t !! k
  | None => t !! k
  end.
Proof.
  induction l as [|[k0 s0] l IH]; intros t k Hnd; [done|].
  apply NoDup_cons in Hnd as [Hn Hnd]. cbn [reencrypt_legacy foldl].
  change (foldl _ ?t0 l) with (reencrypt_legacy kk nonce l t0). rewrite IH by done. cbn.
  destruct (decide (k = k0)) as [->|Hne].
  - rewrite lookup_insert_eq, not_elem_of_list_to_map_1 by done.
    case_bool_decide; [by rewrite lookup_insert_eq|done].
  - rewrite lookup_insert_ne by done. case_bool_decide; [|done]. by rewrite lookup_insert_ne.
Qed.

Lemma legacy_rows_spec kk t :
  NoDup ((legacy_rows (Some kk) t).*1) /\
  forall k s, (list_to_map (legacy_rows (Some kk) t) : gmap string string) !! k = Some s ->
    t !! k = Some (JString s) /\ is_encrypted_at_rest_key k = true /\ starts_with ENC_PREFIX s = false.
Proof.
  cbn [legacy_rows].
  assert (Hsub : forall l : list (string * json),
    ((l ≫= fun kv => legacy_of (fst kv) (snd kv)).*1) `sublist_of` l.*1).
  { induction l as [|[k v] l IH]; [done|]. cbn. rewrite fmap_app. unfold legacy_of at 1.
    destruct (as_str v); [|by constructor]. destruct (_ && _ && _); cbn; by constructor. }
  assert (Hnd : NoDup ((hash_iter t ≫= fun kv => legacy_of (fst kv) (snd kv)).*1)).
  { eapply sublist_NoDup; [apply (hash_iter_nodup t)|apply Hsub]. }
  split; [done|]. intros k s Hks%elem_of_list_to_map_2.
  apply list_elem_of_bind in Hks as ([k0 v] & Hin & Hkv%elem_of_hash_iter). cbn in Hin.
  unfold legacy_of in Hin. destruct v as [| | |s0| |]; cbn in Hin; try by apply elem_of_nil in Hin.
  destruct (is_encrypted_at_rest_key k0) eqn:Ek, (starts_with ENC_PREFIX s0) eqn:Ep; cbn in Hin;
    try by apply elem_of_nil in Hin.
  destruct (str_is_empty s0); cbn in Hin; [by apply elem_of_nil in Hin|].
  apply list_elem_of_singleton in Hin as [= -> ->]. done.
Qed.

(** The table a reload nobody interferes with leaves. *)
Definition seeded_table (e : ReloadEnv) (st : SettingsInner) : gmap string json :=
  insert_seeded (r_seed_nonce e) st
    (snd (seed_missing (fold_entries (plain_of (kek st)) (table st) (table st)))) (table st).

Definition final_table (e : ReloadEnv) (st : SettingsInner) : gmap string json :=
  match kek st with
  | Some kk => reencrypt_legacy kk (r_nonce e) (legacy_rows (kek st) (table st)) (seeded_table e st)
  | None => seeded_table e st
  end.

Lemma reload_quiet e st :
  faultless e -> r_peer1 e = id -> r_peer2 e = id -> readable (kek st) (table st) ->
  reload e st = (Ok (Ok tt), install_settings (settings_of st)
    (set_type_mismatches (snapshot_type_mismatches (settings_of st)) (with_table (final_table e st) st))).
Proof.
  intros (Hsel & Hseed & Hree) Hp1 Hp2 Hr. unfold reload, seed_tx, reencrypt_tx, final_table, seeded_table, settings_of.
  rewrite Hsel, (decrypt_rows_ok _ _ Hr), Hseed, Hree, Hp1, Hp2.
  destruct (seed_missing _) as [map1 seeded]. cbn [fst snd run_tx].
  destruct seeded; (destruct (kek st); [|done]); by destruct (legacy_rows _ _).
Qed.

Lemma seeded_table_lookup e st k : readable (kek st) (table st) ->
  seeded_table e st !! k =
  match table st !! k with
  | Some v => Some v
  | None => (fun v => stored_value_for (r_seed_nonce e k) k v st) <$> default_settings !! k
  end.
Proof.
  intros Hr. unfold seeded_table. set (m := fold_entries _ _ _).
  assert (Hm : m !! k = None <-> table st !! k = None).
  { unfold m. rewrite fold_entries_lookup. destruct (table st !! k) as [v|] eqn:E; cbn; [|done].
    by destruct (Hr k v E) as [p ->]. }
  rewrite (proj2 (seed_missing_spec m)).
  assert (Hnd : NoDup ((filter (fun kv => m !! kv.1 = None) (hash_iter default_settings)).*1)).
  { eapply sublist_NoDup; [apply (hash_iter_nodup default_settings)|]. apply fmap_sublist, sublist_filter. }
  rewrite insert_seeded_lookup by done. destruct (table st !! k) eqn:Et; [done|]. f_equal.
  apply option_eq. intros v. rewrite <- elem_of_list_to_map, list_elem_of_filter, elem_of_hash_iter by done.
  cbn. rewrite Hm. split; [by intros [_ ?]|by intros ?].
Qed.

(** Every row of it reads as before, a new one as its default. *)
Lemma final_table_reads e st k :
  (forall k, nonce_ok (r_seed_nonce e k)) -> (forall k, nonce_ok (r_nonce e k)) ->
  (forall k v, table st !! k = Some v -> utf8_value v) -> readable (kek st) (table st) ->
  match final_table e st !! k with
  | Some v => is_Some (plain_of (kek st) k v) /\
      plain_of (kek st) k v =
      match table st !! k with Some v => plain_of (kek st) k v | None => default_settings !! k end
  | None => table st !! k = None /\ default_settings !! k = None
  end.
Proof.
  intros Hn1 Hn2 Hutf Hr. pose proof (seeded_table_lookup e st k Hr) as Hst.
  assert (Hseed : match seeded_table e st !! k with
    | Some v => is_Some (plain_of (kek st) k v) /\
        plain_of (kek st) k v =
        match table st !! k with Some v => plain_of (kek st) k v | None => default_settings !! k end
    | None => table st !! k = None /\ default_settings !! k = None
    end).
  { rewrite Hst. destruct (table st !! k) as [v|] eqn:E; [by eauto|].
    destruct (default_settings !! k) as [v|] eqn:Ed; [|done]. cbn.
    rewrite plain_of_stored; [by eauto|done|by apply (defaults_utf8 k)]. }
  unfold final_table. destruct (kek st) as [kk|] eqn:Ek; [|exact Hseed].
  destruct (legacy_rows_spec kk (table st)) as [Hnd Hleg]. rewrite reencrypt_lookup by done.
  destruct (list_to_map _ !! k) as [s|] eqn:Es; [|exact Hseed].
  case_bool_decide as Hb; [|exact Hseed]. destruct (Hleg k s Es) as (Et & Hkey & Hpre).
  rewrite Et. unfold plain_of. cbn [as_str]. rewrite Hkey, Hpre, encrypt_value_prefix. cbn [andb].
  destruct (Hn2 k) as [Hl Hby]. rewrite decrypt_encrypt; eauto. by apply (Hutf k _ Et).
Qed.

(** Such a reload brings memory and table into agreement. *)
Lemma reload_coherent e st :
  faultless e -> r_peer1 e = id -> r_peer2 e = id ->
  (forall k, nonce_ok (r_seed_nonce e k)) -> (forall k, nonce_ok (r_nonce e k)) ->
  (forall k v, table st !! k = Some v -> utf8_value v) ->
  readable (kek st) (table st) -> coherent (snd (reload e st)).
Proof.
  intros Hf Hp1 Hp2 Hn1 Hn2 Hutf Hr. rewrite reload_quiet by done. cbn [snd].
  assert (Hrd := fun k => final_table_reads e st k Hn1 Hn2 Hutf Hr). split; cbn.
  - intros k v Hv. specialize (Hrd k). rewrite Hv in Hrd. apply Hrd.
  - intros k. rewrite settings_of_lookup by done. unfold effective_value, env_override. cbn.
    destruct (_ ≫= _); [done|]. specialize (Hrd k).
    destruct (final_table e st !! k); [by destruct Hrd|]. by destruct Hrd as [-> ->].
Qed.

(** ** The generation counter *)

(** An operation leaves the cache and the counter alone, or bumps the
    counter. *)
Lemma settings_step_generation st op :
  (cache (settings_step st op) = cache st /\
   Auth.generation (settings_step st op) = Auth.generation st) \/
  Auth.generation (settings_step st op) = (Auth.generation st + 1) mod 2 ^ 64.
Proof.
  destruct op as [e|f nonce updates a|op|t]; cbn [settings_step]; [| | |by left].
  - destruct (reload_cases e st) as [(t & -> & _)|(_ & t & ->)]; [by left|by right].
  - destruct (update_cases f nonce updates a st) as [[t ->]|(_ & tu & _ & _ & ->)]; [by left|by right].
  - destruct op; cbn; try by left.
    + left. auth_cases.
    + left. auth_cases.
    + right. auth_cases.
    + right. auth_cases.
Qed.

(** Over fewer than [2 ^ 64] operations, an unmoved counter is an unmoved
    cache. *)
Lemma settings_run_generation ops : forall st,
  exists n, 0 <= n <= Z.of_nat (length ops) /\
    (n <> 0 -> Auth.generation (settings_run st ops) = (Auth.generation st + n) mod 2 ^ 64) /\
    (n = 0 -> cache (settings_run st ops) = cache st /\
       Auth.generation (settings_run st ops) = Auth.generation st).
Proof.
  induction ops as [|op ops IH]; intros st; [exists 0; cbn; split_and!; lia || done|].
  destruct (IH (settings_step st op)) as (n & Hn & H1 & H0). cbn [settings_run foldl length].
  change (foldl settings_step (settings_step st op) ops) with (settings_run (settings_step st op) ops).
  destruct (settings_step_generation st op) as [[Hc Hg]|Hg].
  - exists n. rewrite Hc, Hg in H0. rewrite Hg in H1. split_and!; [lia..|done|done].
  - exists (n + 1). split_and!; [lia..| |lia]. intros _. destruct (Z.eq_dec n 0) as [->|Hne].
    + destruct (H0 eq_refl) as [_ ->]. by rewrite Hg.
    + rewrite (H1 Hne), Hg, Zplus_mod_idemp_l. f_equal. lia.
Qed.

Lemma same_generation_same_cache ops st :
  Z.of_nat (length ops) < 2 ^ 64 -> 0 <= Auth.generation st < 2 ^ 64 ->
  Auth.generation (settings_run st ops) = Auth.generation st ->
  cache (settings_run st ops) = cache st.
Proof.
  intros Hl Hg He. destruct (settings_run_generation ops st) as (n & Hn & H1 & H0).
  destruct (Z.eq_dec n 0) as [->|Hne]; [by apply H0|]. exfalso. rewrite (H1 Hne) in He.
  destruct (Z_lt_ge_dec (Auth.generation st + n) (2 ^ 64)).
  - rewrite Z.mod_small in He by lia. lia.
  - replace (Auth.generation st + n) with (Auth.generation st + n - 2 ^ 64 + 1 * 2 ^ 64) in He by lia.
    rewrite Z.mod_add, Z.mod_small in He by lia. lia.
Qed.

Lemma settings_run_gen_range ops st :
  0 <= Auth.generation st < 2 ^ 64 -> 0 <= Auth.generation (settings_run st ops) < 2 ^ 64.
Proof.
  intros Hg. destruct (settings_run_generation ops st) as (n & _ & H1 & H0).
  destruct (Z.eq_dec n 0) as [->|Hne]; [by destruct (H0 eq_refl) as [_ ->]|].
  rewrite (H1 Hne). apply Z.mod_pos_bound. lia.
Qed.

(** ** Recorded type mismatches *)

Definition credential_key (k : string) : Prop :=
  k = KEY_ACCESS_ADMIN_PASSWORD \/ k = KEY_ACCESS_READ_ONLY_TOKEN.

(** Every known key has a value; a value of the wrong type is on record, and
    but for the credentials a record is of a value of the wrong type. *)
Definition reported (st : SettingsInner) : Prop :=
  (forall k, k ∈ known_keys -> is_Some (cache st !! k)) /\
  (forall k v r, cache st !! k = Some v -> type_mismatch k v = Some r -> type_mismatches st !! k = Some r) /\
  (forall k r, ~ credential_key k -> type_mismatches st !! k = Some r ->
     exists v, cache st !! k = Some v /\ type_mismatch k v = Some r).

Lemma reload_reports e st st' : reload e st = (Ok (Ok tt), st') -> reported st'.
Proof.
  intros Hrel. destruct (reload_cases e st) as [(t & _ & Hne)|(Hr & t & E)]; [by rewrite Hrel in Hne|].
  rewrite Hrel in E. injection E as ->. unfold reported. cbn.
  assert (Hmm : forall k, snapshot_type_mismatches (settings_of st) !! k
    = settings_of st !! k ≫= type_mismatch k).
  { intros k. unfold snapshot_type_mismatches. rewrite fold_entries_lookup, lookup_empty.
    by destruct (_ ≫= _). }
  split_and!.
  - intros k Hk. rewrite settings_of_lookup by done. unfold effective_value.
    destruct (env_override st k); [done|]. destruct (table st !! k) as [v|] eqn:E; [by apply Hr|].
    rewrite default_settings_lookup. apply known_keys_def in Hk as [d ->]. eauto.
  - intros k v r Hv Hm. by rewrite Hmm, Hv.
  - intros k r _. rewrite Hmm. destruct (settings_of st !! k) as [v|]; cbn; [eauto|done].
Qed.

Lemma update_reports f nonce updates a st :
  reported st -> reported (snd (update f nonce updates a st)).
Proof.
  intros (H1 & H2 & H3).
  destruct (update_cases f nonce updates a st) as [[t ->]|(_ & tu & Hnd & Htu & ->)]; [by split_and!|].
  set (acc := accepted updates a st) in *.
  assert (Hkeys : forall k, k ∈ fst <$> tu <-> is_Some (acc !! k)).
  { intros k. rewrite <- Htu. split.
    - intros ([k0 w] & -> & Hin)%list_elem_of_fmap. exists w. by apply elem_of_list_to_map_1.
    - intros [w Hw%elem_of_list_to_map_2]. by apply (list_elem_of_fmap_2 fst tu (k, w)). }
  assert (Htyped : forall k w, acc !! k = Some w -> type_mismatch k w = None).
  { intros k w (v & _ & Hok)%accepted_Some. apply update_check_ok in Hok as (_ & _ & _ & Ht & _ & _ & _ & ->).
    by apply stored_form_typed. }
  unfold reported. cbn. split_and!.
  - intros k Hk. rewrite lookup_union. destruct (H1 k Hk) as [v ->]. by destruct (acc !! k).
  - intros k v r. rewrite lookup_union, clear_mismatches_lookup.
    destruct (acc !! k) as [w|] eqn:E.
    + intros Hv Hm. assert (v = w) as -> by (destruct (cache st !! k); cbn in Hv; congruence).
      by rewrite (Htyped k w E) in Hm.
    + rewrite decide_False by (rewrite Hkeys, E; by intros [? ?]). pose proof (H2 k v r). by destruct (cache st !! k).
  - intros k r Hk. rewrite clear_mismatches_lookup. destruct (decide _) as [|Hn]; [done|].
    intros Hr. rewrite lookup_union. destruct (acc !! k) as [w|] eqn:E; [destruct Hn; apply Hkeys; eauto|].
    destruct (H3 k r Hk Hr) as (v & -> & Hm). by exists v.
Qed.

Lemma reported_credentials st st' :
  reported st -> type_mismatches st' = type_mismatches st ->
  (forall k, ~ credential_key k -> cache st' !! k = cache st !! k) ->
  (forall k, credential_key k -> cache st' !! k = cache st !! k \/ exists s, cache st' !! k = Some (JString s)) ->
  reported st'.
Proof.
  intros (H1 & H2 & H3) Hm Hn Hc.
  assert (Hd : forall k, credential_key k \/ ~ credential_key k).
  { intros k. unfold credential_key. destruct (decide (k = KEY_ACCESS_ADMIN_PASSWORD)); [by auto|].
    destruct (decide (k = KEY_ACCESS_READ_ONLY_TOKEN)); [by auto|]. right. by intros [|]. }
  assert (Hstr : forall k s, credential_key k -> type_mismatch k (JString s) = None).
  { intros k s [-> | ->]; reflexivity. }
  unfold reported. rewrite Hm. split_and!.
  - intros k Hk. destruct (Hd k) as [Hck|Hck]; [|rewrite Hn by done; auto].
    destruct (Hc k Hck) as [->|[s ->]]; [auto|done].
  - intros k v r Hv Ht. destruct (Hd k) as [Hck|Hck]; [|rewrite Hn in Hv by done; eauto].
    destruct (Hc k Hck) as [E|[s E]]; rewrite E in Hv; [eauto|]. injection Hv as <-.
    by rewrite (Hstr k s Hck) in Ht.
  - intros k r Hck Hr. rewrite Hn by done. auto.
Qed.

Lemma settings_step_reported st op : reported st -> reported (settings_step st op).
Proof.
  intros Hrep. destruct op as [e|f nonce updates a|op|t]; cbn [settings_step]; [| | |done].
  - destruct (reload_cases e st) as [(t & -> & _)|(_ & t & E)]; [done|].
    rewrite E. by eapply reload_reports.
  - by apply update_reports.
  - assert (Hmm : type_mismatches (settings_step st (OpAuth op)) = type_mismatches st).
    { destruct op; cbn; try done; auth_cases. }
    apply (reported_credentials st); [done|by destruct op| |].
    + intros k Hk. destruct (settings_step_cache st (OpAuth op) k) as [E|[(e & [=] & _)|[(f & n & u & a & w & [=] & _)|Hc]]].
      * by destruct op.
      * by destruct Hk.
    + intros k _. destruct op; cbn; try by left.
      * left. by rewrite verify_bg_cache.
      * left. by rewrite verify_read_only_cache.
      * destruct (decide (k = KEY_ACCESS_ADMIN_PASSWORD)) as [->|].
        -- right. rewrite lookup_insert_eq. eauto.
        -- left. rewrite lookup_insert_ne by done. auth_cases.
      * destruct (decide (k = KEY_ACCESS_READ_ONLY_TOKEN)) as [->|].
        -- right. rewrite lookup_insert_eq. eauto.
        -- left. rewrite lookup_insert_ne by done. auth_cases.
Qed.

End Run.

(** ** The settings as the rate limiter reads them *)

#[export] Instance settings_rates : RateSettings SettingsInner := {
  RateLimit.generation := Auth.generation;
  rate_limit_rps st := get_typed TU64 KEY_ACCESS_RATE_LIMIT_RPS st;
  rate_limit_burst st := get_typed TU64 KEY_ACCESS_RATE_LIMIT_BURST st
}.

(** A quiet reload, for evaluation. *)
Definition quiet : ReloadEnv :=
  mkReloadEnv None id NoFault (fun _ => replicate 12 0) id NoFault (fun _ => replicate 12 0).

Definition demo_load (locked snapshot : gmap string string) (k : option (list Z)) (t : gmap string json) :=
  snd (@load toy_crypto (map_order _ _) (map_order _ _) quiet locked snapshot k t).

Abbreviation demo_update :=
  (@update text_url toy_crypto (map_order _ _) NoFault (fun _ => replicate 12 0)).

(** ** Properties *)

Section Properties.
Context {Ua : UrlApi} {Cr : Crypto} {Hj : HashIter string json} {Hs : HashIter string string}
  {Hz : HashIter string Z}.

(** C23: what a reload does.  When it reports success every key has its
    effective value in memory, the environment's if it parses, else the
    stored row's (decrypted), else the default; all rows were readable, both
    token caches are empty and the generation moved.  On any failure,
    a database error at any statement, an undecryptable row, a panic, the
    memory is what it was. *)
Theorem reload_outcome e st :
  (fst (reload e st) = Ok (Ok tt) /\ readable (kek st) (table st) /\
   let st' := snd (reload e st) in
   (forall k, cache st' !! k = effective_value st k) /\
   token_cache st' = clear (token_cache st) /\ ro_token_cache st' = clear (ro_token_cache st) /\
   Auth.generation st' = (Auth.generation st + 1) mod 2 ^ 64) \/
  (fst (reload e st) <> Ok (Ok tt) /\ exists t, snd (reload e st) = with_table t st).
Proof.
  destruct (reload_cases e st) as [(t & Hst & Hne)|(Hr & t & ->)]; [right; eauto|left].
  split; [done|]. split; [done|]. cbn zeta. split_and!; try done. intros k. by apply settings_of_lookup.
Qed.

(** C12: what an update does.  It reports one error per rejected entry and
    stores the others: the count the handler derives is exact, every accepted
    value is in memory in plain and in the table in its at-rest form, nothing
    else changes.  A database error leaves the memory as it was, and the table
    too unless only the reply was lost. *)
Theorem update_outcome f nonce updates a st :
  let acc := accepted updates a st in
  let st' := snd (update f nonce updates a st) in
  match fst (update f nonce updates a st) with
  | Ok errors =>
      map_len updates - Z.of_nat (length errors) = map_len acc /\
      cache st' = acc ∪ cache st /\ table st' = stored_rows nonce st acc ∪ table st
  | Err e =>
      acc <> ∅ /\
      ((f = Failed e /\ st' = st) \/
       (f = ReplyLost e /\ st' = with_table (stored_rows nonce st acc ∪ table st) st))
  end.
Proof.
  intros acc st'. subst st'. destruct (update_spec f nonce updates a st) as (errors & Hl & H0 & H1).
  fold acc in Hl, H0, H1. destruct (decide (acc = ∅)) as [He|Hne].
  - rewrite (H0 He). cbn [fst snd]. rewrite He in *. split_and!; [lia|by rewrite map_empty_union|].
    unfold stored_rows. by rewrite map_imap_empty, map_empty_union.
  - destruct (H1 Hne) as (tu & _ & _ & ->). destruct f; cbn; [split_and!; [lia|done..]|by auto..].
Qed.

(** Every change an update makes is permitted.  A key whose value changed
    in memory or in the table was in the batch with that value, has a policy
    row that is neither API-immutable nor configuration-only, is not locked
    by the environment, needed and had authentication if it is
    security-sensitive, and has its declared type and range; and a URL names
    no blocked host under the private-network flag in force after the
    update. *)
Theorem update_changes_permitted f nonce updates a st st' errors k :
  env_locked st !! KEY_TORRENT_ALLOW_PRIVATE_NETWORKS = None ->
  env_locked st !! KEY_DOWNLOADS_ALLOW_PRIVATE_NETWORKS = None ->
  update f nonce updates a st = (Ok errors, st') ->
  cache st' !! k <> cache st !! k \/ table st' !! k <> table st !! k ->
  exists d v, def k = Some d /\ updates !! k = Some v /\ cache st' !! k = Some (stored_form k v) /\
    api_immutable (d_policy d) = false /\ config_only (d_policy d) = false /\
    env_locked st !! k = None /\ (security_sensitive (d_policy d) = true -> a = true) /\
    type_mismatch k (stored_form k v) = None /\
    (forall up url, url_policy (d_policy d) = Some up -> v = JString url -> url <> EmptyString ->
       assert_host_not_blocked url
         (match private_network_flag up with
          | Some fk => default false (get_typed TBool fk st')
          | None => false
          end) (allow_loopback up) = Ok tt).
Proof.
  intros Hl1 Hl2 Hup Hch. apply update_ok_maps in Hup as [Hc Ht].
  set (acc := accepted updates a st) in *.
  destruct (acc !! k) as [w|] eqn:Ew.
  2:{ exfalso. rewrite Hc, Ht, !lookup_union, stored_rows_lookup, Ew in Hch. cbn in Hch.
      destruct Hch as [Hch|Hch]; [by destruct (cache st !! k)|by destruct (table st !! k)]. }
  pose proof Ew as (v & Hv & Hok)%accepted_Some.
  apply update_check_ok in Hok as (Hi & Hco & Hk & Hty & Hs' & Hurl & Hlk & ->).
  apply known_keys_def in Hk as [d Hd]. unfold policy_flag in Hi, Hco. rewrite Hd in Hi, Hco.
  unfold is_security_sensitive, policy_flag in Hs'. rewrite Hd in Hs'.
  exists d, v. split_and!; try done.
  - rewrite Hc, lookup_union, Ew. by destruct (cache st !! k).
  - intros Hsec. destruct Hs' as [|]; congruence.
  - by apply stored_form_typed.
  - intros up url Hu -> Hne. destruct (private_network_flag up) as [fk|] eqn:Ef.
    + destruct (url_row_flag k d up fk Hd Hu Ef) as (Hsec & _ & Hfk & _).
      unfold is_security_sensitive, policy_flag in Hsec. rewrite Hd in Hsec.
      assert (a = true) as -> by (destruct Hs'; congruence).
      assert (Hlf : env_locked st !! fk = None) by (destruct Hfk as [-> | ->]; done).
      pose proof (url_check_after updates st k d up url fk (table st) Hd Hu Ef Hlf Hne Hurl) as Hafter.
      unfold get_typed, get in *. cbn [cache with_table with_cache] in Hafter. rewrite Hc. exact Hafter.
    + unfold url_check in Hurl. rewrite Hd in Hurl. cbn [mbind option_bind as_str] in Hurl.
      rewrite Hu, Ef in Hurl. destruct (str_is_empty url) eqn:Ee; [by destruct url|].
      by destruct (assert_host_not_blocked url false (allow_loopback up)) as [[]|].
Qed.

(** C40: an update survives a reload.  When memory and table agree and every
    key the environment overrides is locked, then after a successful update
    a reload (of this or of another instance) succeeds and installs exactly
    the map already in memory: secrets come back through their encryption,
    nothing accepted is lost or altered. *)
Theorem update_reload_roundtrip nonce updates a st st' errors e :
  coherent st -> (forall k, is_Some (env_override st k) -> is_Some (env_locked st !! k)) ->
  (forall k, nonce_ok (nonce k)) -> (forall k v, updates !! k = Some v -> utf8_value (stored_form k v)) ->
  update NoFault nonce updates a st = (Ok errors, st') -> faultless e ->
  fst (reload e st') = Ok (Ok tt) /\ cache (snd (reload e st')) = cache st'.
Proof.
  intros Hco Hlk Hn Hu Hup He.
  assert (Hco' : coherent st').
  { pose proof (update_coherent nonce updates a st Hco Hn) as H'. rewrite Hup in H'. apply H'.
    intros k w (v & Hv & Hok)%accepted_Some.
    apply update_check_ok in Hok as (_ & _ & _ & _ & _ & _ & Hl & ->). split; [by apply Hu|].
    destruct (env_override st k) eqn:Eo; [|done]. destruct (Hlk k) as [? E]; [eauto|]. congruence. }
  destruct (reload_faultless e st' He (proj1 Hco')) as [t ->]. split; [done|]. cbn.
  by apply coherent_settings_of.
Qed.

(** C39: mistyped settings are reported.  After a successful load and any
    sequence of reloads, updates, verifications, upgrades and writes of other
    instances, every known key has a value in memory; a value without its
    declared type or range is in the mismatch record, and, the two
    credentials apart, the record names only such keys.  In particular with
    an empty record every setting has its type. *)
Theorem mistyped_settings_reported e locked snapshot k0 t st ops :
  load e locked snapshot k0 t = (Ok (Ok tt), st) ->
  let st' := settings_run st ops in
  (forall k, k ∈ known_keys -> exists v, cache st' !! k = Some v /\
     (type_mismatch k v = None \/ is_Some (type_mismatches st' !! k))) /\
  (forall k r, ~ credential_key k -> type_mismatches st' !! k = Some r ->
     exists v, cache st' !! k = Some v /\ type_mismatch k v = Some r).
Proof.
  intros Hload st'. assert (Hrep : reported st').
  { apply reload_reports in Hload. subst st'. revert st Hload. induction ops as [|op ops IH]; intros st Hst; [done|].
    by apply IH, settings_step_reported. }
  destruct Hrep as (H1 & H2 & H3). split; [|done]. intros k Hk. destruct (H1 k Hk) as [v Hv].
  exists v. split; [done|]. destruct (type_mismatch k v) eqn:E; [right; eauto|by left].
Qed.

(** The limiter follows the settings.  Along any run of fewer than [2^64]
    settings operations, with limiter look-ups and acquisitions at any points
    of it, the limiter handed out for a state of the run has the rate and
    burst of that state's settings: the generation counter never hides a
    change. *)
Theorem limiter_follows_settings st0 ops n h now p h' :
  0 <= Auth.generation st0 < 2 ^ 64 -> Z.of_nat (length ops) < 2 ^ 64 -> (n <= length ops)%nat ->
  let hist s := exists i, (i <= length ops)%nat /\ s = settings_run st0 (take i ops) in
  let s := settings_run st0 (take n ops) in
  rtc (hstep hist) handle_new h -> in_u64 now -> limiter h s now = (p, h') ->
  exists l, heap h' !! p = Some l /\ wf l /\
    scaled_limits (effective_rps s) (effective_burst s) = (capacity l, refill_per_sec l).
Proof.
  intros Hg Hl Hn hist s Hrun Hnow Hlim.
  apply (limiter_tracks_settings hist h s now p h'); [|done|by exists n|done|done].
  assert (Hord : forall i j, (i <= j <= length ops)%nat ->
    RateLimit.generation (settings_run st0 (take i ops)) = RateLimit.generation (settings_run st0 (take j ops)) ->
    cache (settings_run st0 (take j ops)) = cache (settings_run st0 (take i ops))).
  { intros i j Hij Hgen. cbn in Hgen.
    assert (Hsplit : take j ops = take i ops ++ take (j - i) (drop i ops)).
    { rewrite <- (take_drop i ops) at 1. rewrite take_app, length_take, take_take.
      replace (j `min` i)%nat with i by lia. replace (j - i `min` length ops)%nat with (j - i)%nat by lia. done. }
    unfold settings_run in *. rewrite Hsplit, foldl_app in *.
    apply same_generation_same_cache.
    - rewrite length_take, length_drop. lia.
    - by apply settings_run_gen_range.
    - symmetry. exact Hgen. }
  intros s1 s2 (i & Hi & ->) (j & Hle & ->) Hgen.
  assert (Hc : cache (settings_run st0 (take i ops)) = cache (settings_run st0 (take j ops))).
  { destruct (Nat.le_ge_cases i j); [symmetry|]; apply Hord; auto; lia. }
  unfold effective_rps, effective_burst. cbn. unfold get_typed, get. by rewrite Hc.
Qed.

End Properties.

(** ** Witnesses *)

(** A first start without environment overrides. *)
Definition demo_settings : SettingsInner := demo_load ∅ ∅ (Some []) ∅.

(** One save that opts in to private networks and sets a LAN endpoint. *)
Definition lan_batch : gmap string json :=
  {[ KEY_TORRENT_URL := JString "http://192.168.1.2:8080";
     KEY_TORRENT_ALLOW_PRIVATE_NETWORKS := JBool true ]}.

Lemma update_changes_permitted_witness :
  let st' := snd (demo_update lan_batch true demo_settings) in
  cache st' !! KEY_TORRENT_URL <> cache demo_settings !! KEY_TORRENT_URL /\
  exists d v, def KEY_TORRENT_URL = Some d /\ lan_batch !! KEY_TORRENT_URL = Some v /\
    cache st' !! KEY_TORRENT_URL = Some (stored_form KEY_TORRENT_URL v).
Proof.
  cbn zeta. split; [vm_compute; discriminate|].
  destruct (@update_changes_permitted text_url toy_crypto (map_order _ _) NoFault (fun _ => replicate 12 0)
    lan_batch true demo_settings (snd (demo_update lan_batch true demo_settings)) [] KEY_TORRENT_URL)
    as (d & v & Hd & Hv & Hc & _).
  - vm_compute. reflexivity.
  - vm_compute. reflexivity.
  - apply pair_of_fst. vm_compute. reflexivity.
  - left. vm_compute. discriminate.
  - exists d, v. auto.
Defined.

Definition agreeing_settings : SettingsInner := init_inner default_settings (Some []) ∅.

Lemma zero_nonce_ok (k : string) : nonce_ok (replicate 12 0).
Proof. split; [done|]. apply Forall_replicate. unfold is_byte. lia. Qed.

Lemma update_reload_roundtrip_witness :
  let updates := {[ KEY_TORRENT_PASSWORD := JString "hunter2" ]} in
  let st' := snd (demo_update updates true agreeing_settings) in
  cache st' !! KEY_TORRENT_PASSWORD = Some (JString "hunter2") /\
  table st' !! KEY_TORRENT_PASSWORD <> Some (JString "hunter2") /\
  cache (snd (@reload toy_crypto (map_order _ _) (map_order _ _) quiet st')) = cache st'.
Proof.
  cbn zeta. split; [vm_compute; reflexivity|]. split; [vm_compute; discriminate|].
  apply (@update_reload_roundtrip text_url toy_crypto (map_order _ _) (map_order _ _) (fun _ => replicate 12 0)
    {[ KEY_TORRENT_PASSWORD := JString "hunter2" ]} true agreeing_settings
    (snd (demo_update {[ KEY_TORRENT_PASSWORD := JString "hunter2" ]} true agreeing_settings)) [] quiet).
  - split; [|done]. intros k v [=].
  - intros k [v [=]].
  - apply zero_nonce_ok.
  - intros k v [<- <-]%lookup_singleton_Some s [= <-]. reflexivity.
  - apply pair_of_fst. vm_compute. reflexivity.
  - done.
Defined.

Lemma mistyped_settings_reported_witness :
  let t := {[ KEY_TORRENT_MAX_ACTIVE := JString "four" ]} : gmap string json in
  let st := demo_load ∅ ∅ None t in
  is_Some (type_mismatches st !! KEY_TORRENT_MAX_ACTIVE) /\
  exists v, cache st !! KEY_TORRENT_MAX_ACTIVE = Some v /\
     (type_mismatch KEY_TORRENT_MAX_ACTIVE v = None \/ is_Some (type_mismatches st !! KEY_TORRENT_MAX_ACTIVE)).
Proof.
  cbn zeta. split; [vm_compute; eauto|].
  apply (@mistyped_settings_reported text_url toy_crypto (map_order _ _) (map_order _ _) (map_order _ _)
    quiet ∅ ∅ None {[ KEY_TORRENT_MAX_ACTIVE := JString "four" ]}
    (demo_load ∅ ∅ None {[ KEY_TORRENT_MAX_ACTIVE := JString "four" ]}) []).
  - apply pair_of_fst. vm_compute. reflexivity.
  - apply known_keys_def. vm_compute. eauto.
Defined.

Lemma limiter_follows_settings_witness :
  let ops := [OpUpdate NoFault (fun _ => replicate 12 0) {[ KEY_ACCESS_RATE_LIMIT_RPS := json_int 7 ]} true] in
  let s := @settings_run text_url toy_crypto (map_order _ _) (map_order _ _) (map_order _ _) demo_settings (take 1 ops) in
  effective_rps s = 7 /\
  exists l, heap (snd (limiter handle_new s 5)) !! 0%nat = Some l /\ wf l /\
    scaled_limits (effective_rps s) (effective_burst s) = (capacity l, refill_per_sec l).
Proof.
  cbn zeta. split; [vm_compute; reflexivity|].
  apply (@limiter_follows_settings text_url toy_crypto (map_order _ _) (map_order _ _) (map_order _ _) demo_settings
    [OpUpdate NoFault (fun _ => replicate 12 0) {[ KEY_ACCESS_RATE_LIMIT_RPS := json_int 7 ]} true] 1%nat
    handle_new 5 0%nat).
  - vm_compute. split; [discriminate|reflexivity].
  - cbn. lia.
  - cbn. lia.
  - apply rtc_refl.
  - int_lia.
  - apply surjective_pairing.
Defined.
