(* ===== verification/Middleware.v ===== *)
(** * Middleware: the request gate

    [src/serve/middleware.rs]: which requests need a credential, the
    credential decision with its lockout and upgrade effects, the rate-limit
    gate and the log sanitiser.  The client components are the lockout
    tracker, the trusted-proxy resolution, the credential state and the
    limiter handle; form decoding is the [url] crate's, the interface
    [FormUrl].  A response is its status, [Retry-After] and hint; [Forwarded]
    is a call to the next layer. *)

From S2P Require Import Prelude RustStr IpAddr RateLimit Cidr Lockout JsonValue SettingDefs Auth.

(** [url::form_urlencoded]: decoding a query into pairs, and the serializer;
    what is serialized decodes to the same pairs, and only the empty list
    serializes to the empty text. *)
Class FormUrl := {
  form_parse : string -> list (string * string);
  form_serialize : list (string * string) -> string;
  form_parse_serialize l : form_parse (form_serialize l) = l;
  form_serialize_empty l : form_serialize l = EmptyString -> l = []
}.

Record Request := mkReq {
  method : string;
  path : string;
  query : option string;
  peer : option IpAddr;
  x_forwarded_for : option string;
  authorization : option string
}.

Inductive Response :=
| Forwarded
| Misconfigured
| TooManyFailures (retry_after : Z)
| RateLimited (retry_after : Z)
| ReadOnlyForbidden
| Unauthorized (hint : string).

Definition response_status (r : Response) : option Z :=
  match r with
  | Forwarded => None
  | Misconfigured => Some 503
  | TooManyFailures _ | RateLimited _ => Some 429
  | ReadOnlyForbidden => Some 403
  | Unauthorized _ => Some 401
  end.

Inductive AuthOutcome := Full | ReadOnly | NoAuth.

(** ** Predicates *)

Definition is_health_path (p : string) : bool :=
  String.eqb p "/health" || starts_with "/health/" p.

Definition is_read_verb (m : string) : bool :=
  String.eqb m "GET" || String.eqb m "HEAD" || String.eqb m "OPTIONS".

Definition READ_ONLY_ROUTES : list string :=
  ["/search"; "/suggest"; "/read"; "/snippet"; "/random"; "/chunks"; "/interlanguage";
   "/list"; "/openapi.json"].

Definition read_only_allowed (m p : string) : bool :=
  is_read_verb m &&
  (is_health_path p || existsb (String.eqb p) READ_ONLY_ROUTES || starts_with "/w/" p).

Definition auth_required (m access_mode admin_password : string) (require_reads : bool) : bool :=
  String.eqb access_mode ACCESS_MODE_PASSWORD && negb (str_is_empty admin_password) &&
  (require_reads || negb (String.eqb m "GET" || String.eqb m "HEAD" || String.eqb m "OPTIONS")).

Definition bearer_token (authorization : option string) : option string :=
  match authorization with
  | None => None
  | Some a =>
      match split_once " " a with
      | None => None
      | Some (scheme, token) =>
          if eq_ignore_ascii_case scheme "bearer" then Some token else None
      end
  end.

Section Middleware.
Context {Fu : FormUrl} {Ip : IpNetApi} {Cr : Crypto}
  {Hs : HashIter string Z} {Hl : HashIter IpAddr (Z * Z)}.

Definition query_token (q : option string) : option string :=
  match q with
  | None => None
  | Some q =>
      snd <$> List.find (fun kv => String.eqb (fst kv) "access_token" && negb (str_is_empty (snd kv)))
        (form_parse q)
  end.

(** The loop of the sanitiser: the kept pairs, and whether something went. *)
Fixpoint sanitize_pairs (l : list (string * string)) : bool * list (string * string) :=
  match l with
  | [] => (false, [])
  | (k, v) :: l' =>
      let '(stripped, kept) := sanitize_pairs l' in
      if String.eqb k "access_token" then (true, kept)
      else if contains "access_token=" v then (true, (k, "[redacted]") :: kept)
      else (stripped, (k, v) :: kept)
  end.

Definition sanitize_uri_for_logs (p : string) (q : option string) : string :=
  match q with
  | None => p
  | Some q =>
      let '(stripped, kept) := sanitize_pairs (form_parse q) in
      if negb stripped then p +:+ "?" +:+ q
      else
        let new_q := form_serialize kept in
        if str_is_empty new_q then p else p +:+ "?" +:+ new_q
  end.

(** ** The shared state *)

Record AppState := mkApp {
  settings : SettingsInner;
  auth_lockout : LockoutTracker
}.

Definition set_settings (s : SettingsInner) (st : AppState) : AppState :=
  mkApp s (auth_lockout st).

Definition set_lockout (l : LockoutTracker) (st : AppState) : AppState :=
  mkApp (settings st) l.

(** What the surroundings give one run of the gate: the instants its clock
    reads return, the KDF permits, the random salt and nonce, and whether the
    database takes the upgrade write. *)
Record Ambient := mkAmbient {
  t_lock : Z; t_rem : Z; t_fast : Z; t_kdf : Z; t_ro_fast : Z; t_ro_kdf : Z;
  t_fail : Z; t_start : Z;
  kdf_permit : bool; ro_permit : bool;
  salt : string; nonce : list Z; db_ok : bool
}.

(** The lockout check of a request's key; no key, no check. *)
Definition check_lockout (a : Ambient) (ip : option IpAddr) (st : AppState) : may_panic (option Z) :=
  match ip with
  | Some ip => lockout_remaining (t_lock a) (t_rem a) ip (auth_lockout st)
  | None => Ok None
  end.

(** The lockout key of a request. *)
Definition client_key (st : AppState) (req : Request) : option IpAddr :=
  match peer req with
  | None => None
  | Some ip =>
      match x_forwarded_for req with
      | Some x =>
          Some (client_ip_from_xff (raw_value KEY_GENERAL_TRUSTED_PROXY_CIDRS (settings st)) (Some x) ip)
      | None => Some ip
      end
  end.

(** The presented token: the header first, the query form on read verbs. *)
Definition presented_token (req : Request) : option string :=
  let q := if is_read_verb (method req) then query_token (query req) else None in
  let presented := match bearer_token (authorization req) with Some t => Some t | None => q end in
  match presented with
  | Some t => if str_is_empty t then None else Some t
  | None => None
  end.

(** [rem.as_secs_f64().ceil().clamp(1.0, ..) as u64]: a remainder is at most
    fifteen minutes of nanoseconds, which a double represents far below one
    nanosecond, so the ceiling is the integer one. *)
Definition lockout_retry_secs (rem : Z) : Z := Z.max 1 (div_ceil rem 1000000000).

Definition decide_outcome (a : Ambient) (presented : option string) (read_only_password : string)
    (s : SettingsInner) : may_panic AuthOutcome * SettingsInner :=
  match presented with
  | None => (Ok NoAuth, s)
  | Some t =>
      match verify_bg (t_fast a) (t_kdf a) (kdf_permit a) t s with
      | (Err p, s1) => (Err p, s1)
      | (Ok true, s1) => (Ok Full, s1)
      | (Ok false, s1) =>
          if str_is_empty read_only_password then (Ok NoAuth, s1)
          else
            match verify_read_only_bg (t_ro_fast a) (t_ro_kdf a) (ro_permit a) t s1 with
            | (Err p, s2) => (Err p, s2)
            | (Ok true, s2) => (Ok ReadOnly, s2)
            | (Ok false, s2) => (Ok NoAuth, s2)
            end
      end
  end.

Definition on_key (f : IpAddr -> LockoutTracker -> LockoutTracker) (ip : option IpAddr)
    (st : AppState) : AppState :=
  match ip with
  | Some ip => set_lockout (f ip (auth_lockout st)) st
  | None => st
  end.

Definition UNAUTHORIZED_READ_HINT : string :=
  "send Authorization: Bearer <password> or ?access_token=<password>".
Definition UNAUTHORIZED_WRITE_HINT : string := "send Authorization: Bearer <password>".

Definition auth_middleware (a : Ambient) (st : AppState) (req : Request) :
    may_panic Response * AppState :=
  let mode := access_mode (settings st) in
  let password := admin_password_raw (settings st) in
  let is_health := is_health_path (path req) in
  if negb is_health && String.eqb mode ACCESS_MODE_PASSWORD && str_is_empty password
  then (Ok Misconfigured, st)
  else
    let health_probe := is_health && is_read_verb (method req) in
    if health_probe || negb (auth_required (method req) mode password (require_auth_for_reads (settings st)))
    then (Ok Forwarded, st)
    else
      let ip := client_key st req in
      match check_lockout a ip st with
      | Err p => (Err p, st)
      | Ok (Some rem) => (Ok (TooManyFailures (lockout_retry_secs rem)), st)
      | Ok None =>
          let read_only_password := read_only_token_raw (settings st) in
          let '(outcome, s1) :=
            decide_outcome a (presented_token req) read_only_password (settings st) in
          let st1 := set_settings s1 st in
          match outcome with
          | Err p => (Err p, st1)
          | Ok Full =>
              let st2 := on_key record_success ip st1 in
              let st3 :=
                if is_legacy_password password
                then set_settings (upgrade (db_ok a) (hash_admin_password (salt a) password)
                                     (settings st2)) st2
                else st2 in
              (Ok Forwarded, st3)
          | Ok ReadOnly =>
              let st2 := on_key record_success ip st1 in
              let st3 :=
                if is_legacy_password read_only_password
                then set_settings (upgrade_read_only (db_ok a) (nonce a)
                                     (hash_admin_password (salt a) read_only_password)
                                     (settings st2)) st2
                else st2 in
              if read_only_allowed (method req) (path req) then (Ok Forwarded, st3)
              else (Ok ReadOnlyForbidden, st3)
          | Ok NoAuth =>
              (Ok (Unauthorized (if is_read_verb (method req) then UNAUTHORIZED_READ_HINT
                                 else UNAUTHORIZED_WRITE_HINT)),
               on_key (record_failure (t_fail a) (t_start a)) ip st1)
          end
      end.

(** The verdict the settings handlers and the [AuthContext] extractor use. *)
Definition settings_authed (a : Ambient) (st : AppState) (m : string) (auth : option string)
    (q : option string) : may_panic bool * AppState :=
  if negb (String.eqb (access_mode (settings st)) ACCESS_MODE_PASSWORD) then (Ok false, st)
  else
    match presented_token (mkReq m EmptyString q None None auth) with
    | Some t =>
        let '(r, s) := verify_bg (t_fast a) (t_kdf a) (kdf_permit a) t (settings st) in
        (r, set_settings s st)
    | None => (Ok false, st)
    end.

(** ** The rate-limit gate *)

Definition rate_limit {Cfg} `{!RateSettings Cfg} (now1 now2 : Z) (h : RateLimiterHandle) (cfg : Cfg)
    (p : string) : option Response * RateLimiterHandle :=
  if is_health_path p then (Some Forwarded, h)
  else
    let '(ptr, h1) := limiter h cfg now1 in
    match acquire_at h1 ptr now2 with
    | Some (Ok _, h2) => (Some Forwarded, h2)
    | Some (Err ms, h2) => (Some (RateLimited (ms_to_retry_after_secs ms)), h2)
    | None => (None, h1)
    end.

End Middleware.
(** ** Lemmas *)

Section MiddlewareLemmas.
Context {Fu : FormUrl} {Ip : IpNetApi} {Cr : Crypto}
  {Hs : HashIter string Z} {Hl : HashIter IpAddr (Z * Z)}.

Lemma read_only_raw_cache s s' : cache s' = cache s -> read_only_token_raw s' = read_only_token_raw s.
Proof. unfold read_only_token_raw, raw_value. by intros ->. Qed.

(** What an outcome means, and that the credential invariant survives. *)
Lemma decide_outcome_sound a pt ro s o s1 :
  auth_inv s -> decide_outcome a pt ro s = (Ok o, s1) ->
  auth_inv s1 /\ cache s1 = cache s /\
  match o with
  | Full => exists t, pt = Some t /\ verify_admin_password (admin_password_raw s) t = Ok true
  | ReadOnly => ro <> EmptyString /\ exists t, pt = Some t /\
      verify_admin_password (read_only_token_raw s) t = Ok true
  | NoAuth => True
  end.
Proof.
  intros Hinv. unfold decide_outcome. destruct pt as [t|]; [|by intros [= <- <-]].
  pose proof (verify_bg_sound (t_fast a) (t_kdf a) (kdf_permit a) t s Hinv) as [Hi Hv].
  pose proof (verify_bg_cache (t_fast a) (t_kdf a) (kdf_permit a) t s) as Hc.
  destruct (verify_bg _ _ _ t s) as [[[]|] s2]; cbn in *; [|..|done].
  { intros [= <- <-]. destruct Hv; [done|]. eauto 10. }
  destruct (str_is_empty ro) eqn:Er; [by intros [= <- <-]|].
  pose proof (verify_read_only_sound (t_ro_fast a) (t_ro_kdf a) (ro_permit a) t s2 Hi) as [Hi' Hv'].
  pose proof (verify_read_only_cache (t_ro_fast a) (t_ro_kdf a) (ro_permit a) t s2) as Hc'.
  destruct (verify_read_only_bg _ _ _ t s2) as [[[]|] s3]; cbn in *; intros [= <- <-]; rewrite Hc', Hc.
  - destruct Hv' as [_ Hv']; [done|]. rewrite (read_only_raw_cache s s2 Hc) in Hv'.
    split_and!; auto; [by apply str_is_empty_false|eauto].
  - done.
Qed.

(** The gate is active for this request. *)
Definition gated (st : AppState) (req : Request) : Prop :=
  access_mode (settings st) = ACCESS_MODE_PASSWORD /\ admin_password_raw (settings st) <> EmptyString /\
  (is_read_verb (method req) = false \/
   (require_auth_for_reads (settings st) = true /\ is_health_path (path req) = false)).

Lemma gated_not_open st req :
  gated st req ->
  negb (is_health_path (path req)) && String.eqb (access_mode (settings st)) ACCESS_MODE_PASSWORD &&
    str_is_empty (admin_password_raw (settings st)) = false /\
  is_health_path (path req) && is_read_verb (method req) ||
    negb (auth_required (method req) (access_mode (settings st)) (admin_password_raw (settings st))
            (require_auth_for_reads (settings st))) = false.
Proof.
  intros (Hm & Hp & Hv). unfold auth_required. rewrite Hm, String.eqb_refl.
  assert (Hne : str_is_empty (admin_password_raw (settings st)) = false)
    by by destruct (admin_password_raw (settings st)).
  rewrite Hne. split; [by rewrite !andb_false_r|]. cbn [negb andb].
  change (String.eqb (method req) "GET" || String.eqb (method req) "HEAD" ||
          String.eqb (method req) "OPTIONS") with (is_read_verb (method req)).
  destruct Hv as [-> | [-> ->]]; [|done]. by rewrite andb_false_r, orb_true_r.
Qed.

(** The gate on a gated request: locked out, or decided by the credential. *)
Lemma auth_middleware_gated a st req r st' :
  auth_inv (settings st) -> gated st req -> auth_middleware a st req = (Ok r, st') ->
  let key := client_key st req in
  (exists rem, check_lockout a key st = Ok (Some rem) /\
     r = TooManyFailures (lockout_retry_secs rem) /\ st' = st) \/
  (check_lockout a key st = Ok None /\
   match r with
   | Forwarded =>
       auth_lockout st' = auth_lockout (on_key record_success key st) /\
       exists t, presented_token req = Some t /\
         (verify_admin_password (admin_password_raw (settings st)) t = Ok true \/
          (read_only_allowed (method req) (path req) = true /\
           read_only_token_raw (settings st) <> EmptyString /\
           verify_admin_password (read_only_token_raw (settings st)) t = Ok true))
   | ReadOnlyForbidden => read_only_allowed (method req) (path req) = false
   | Unauthorized _ =>
       auth_lockout st' = auth_lockout (on_key (record_failure (t_fail a) (t_start a)) key st) /\
       cache (settings st') = cache (settings st) /\
       auth_inv (settings st')
   | _ => False
   end).
Proof.
  intros Hinv Hg. destruct (gated_not_open st req Hg) as [H1 H2].
  unfold auth_middleware. rewrite H1, H2. cbn zeta.
  destruct (check_lockout a _ st) as [[rem|]|]; [intros [= <- <-]; left; eauto| |done].
  destruct (decide_outcome a _ _ _) as [o s1] eqn:Ed.
  destruct o as [o|p]; [|done]. pose proof (decide_outcome_sound _ _ _ _ _ _ Hinv Ed) as (Hi & Hc & Ho).
  destruct o; intros E; right; (split; [done|]).
  - simplify_eq. split; [|naive_solver]. case_match; by destruct (client_key st req).
  - destruct Ho as (Hro & t & Ht & Hv).
    destruct (read_only_allowed (method req) (path req)) eqn:Ea; simplify_eq; [|done].
    split; [case_match; by destruct (client_key st req)|]. naive_solver.
  - simplify_eq. destruct (client_key st req); by split_and!; cbn.
Qed.

Lemma auth_middleware_locked a st req rem :
  gated st req -> check_lockout a (client_key st req) st = Ok (Some rem) ->
  auth_middleware a st req = (Ok (TooManyFailures (lockout_retry_secs rem)), st).
Proof.
  intros Hg Hlk. destruct (gated_not_open st req Hg) as [H1 H2].
  unfold auth_middleware. rewrite H1, H2. cbn zeta. by rewrite Hlk.
Qed.

Lemma presented_nonempty req t : presented_token req = Some t -> t <> EmptyString.
Proof. unfold presented_token. repeat case_match; try done; intros [= ->]; by apply str_is_empty_false. Qed.

(** On a mutating verb only the header counts. *)
Lemma presented_write req t :
  is_read_verb (method req) = false -> presented_token req = Some t ->
  bearer_token (authorization req) = Some t.
Proof. unfold presented_token. intros ->. repeat case_match; naive_solver. Qed.

Lemma misconfigured_gate a st req :
  access_mode (settings st) = ACCESS_MODE_PASSWORD -> admin_password_raw (settings st) = EmptyString ->
  auth_middleware a st req =
  (Ok (if is_health_path (path req) then Forwarded else Misconfigured), st).
Proof.
  intros Hm Hp. unfold auth_middleware, auth_required. rewrite Hm, Hp, String.eqb_refl.
  destruct (is_health_path (path req)); cbn; [|done]. by rewrite orb_true_r.
Qed.

(** A served request leaves the credential state in order, whatever its
    outcome, a panic included. *)
Lemma decide_outcome_inv a pt ro s : auth_inv s -> auth_inv (snd (decide_outcome a pt ro s)).
Proof.
  intros Hinv. unfold decide_outcome. destruct pt as [t|]; [|done].
  pose proof (verify_bg_sound (t_fast a) (t_kdf a) (kdf_permit a) t s Hinv) as [Hi _].
  destruct (verify_bg _ _ _ t s) as [[[]|] s2]; cbn in *; [done| |done].
  destruct (str_is_empty ro); [done|].
  pose proof (verify_read_only_sound (t_ro_fast a) (t_ro_kdf a) (ro_permit a) t s2 Hi) as [Hi' _].
  by destruct (verify_read_only_bg _ _ _ t s2) as [[[]|] s3].
Qed.

Lemma on_key_settings f ip st : settings (on_key f ip st) = settings st.
Proof. by destruct ip. Qed.

Lemma auth_middleware_inv a st req :
  auth_inv (settings st) -> auth_inv (settings (snd (auth_middleware a st req))).
Proof.
  intros Hinv. unfold auth_middleware. case_match; [done|]. case_match; [done|].
  destruct (check_lockout a _ st) as [[rem|]|]; [done| |done].
  pose proof (decide_outcome_inv a (presented_token req) (read_only_token_raw (settings st)) _ Hinv) as Hi.
  destruct (decide_outcome a _ _ _) as [[[]|p] s1]; cbn [snd] in *; [..|done].
  - case_match; cbn [snd settings set_settings]; rewrite on_key_settings; [|done].
    exact (auth_step_inv s1 (OpUpgrade _ _) Hi).
  - case_match; cbn [snd]; case_match; cbn [snd settings set_settings]; rewrite ?on_key_settings; try done;
      exact (auth_step_inv s1 (OpUpgradeReadOnly _ _ _) Hi).
  - by rewrite on_key_settings.
Qed.

(** The sanitiser's loop keeps no token. *)
Definition pair_clean (kv : string * string) : Prop :=
  fst kv <> "access_token" /\ contains "access_token=" (snd kv) = false.

Lemma sanitize_pairs_clean l stripped kept :
  sanitize_pairs l = (stripped, kept) -> Forall pair_clean kept /\ (stripped = false -> kept = l).
Proof.
  revert stripped kept. induction l as [|[k v] l IH]; intros stripped kept; cbn; [by intros [= <- <-]|].
  destruct (sanitize_pairs l) as [s0 k0]. destruct (IH _ _ eq_refl) as [Hk Hs0].
  destruct (String.eqb_spec k "access_token"); [by intros [= <- <-]|].
  destruct (contains "access_token=" v) eqn:Ec; intros [= <- <-].
  - split; [|done]. by constructor.
  - split; [by constructor|]. intros ->. by rewrite Hs0.
Qed.

End MiddlewareLemmas.

(** ** Sequences of requests *)

Section Sequences.
Context {Fu : FormUrl} {Ip : IpNetApi} {Cr : Crypto}
  {Hs : HashIter string Z} {Hl : HashIter IpAddr (Z * Z)}.

(** ** The life of a server *)

(** What changes the state the gate reads: a request, served whole, and any
    other write of the settings (a reload, an upgrade, a verification of a
    handler's own). *)
Inductive ServerOp :=
| OnRequest (a : Ambient) (req : Request)
| OnSettings (op : AuthOp).

Definition server_step (st : AppState) (op : ServerOp) : AppState :=
  match op with
  | OnRequest a req => snd (auth_middleware a st req)
  | OnSettings op => set_settings (auth_step (settings st) op) st
  end.

(** A server started on the settings [m], the key [k] and the table [t],
    after [ops]. *)
Definition served_state (m : gmap string json) (k : option (list Z)) (t : gmap string json)
    (ops : list ServerOp) : AppState :=
  foldl server_step (mkApp (init_inner m k t) ∅) ops.

Lemma served_state_inv m k t ops : auth_inv (settings (served_state m k t ops)).
Proof.
  unfold served_state. assert (H0 : auth_inv (settings (mkApp (init_inner m k t) ∅))) by apply init_inv.
  revert H0. generalize (mkApp (init_inner m k t) ∅) as st.
  induction ops as [|op ops IH]; intros st Hst; [done|]. apply IH. destruct op; cbn [server_step].
  - by apply auth_middleware_inv.
  - by apply auth_step_inv.
Qed.

(** The requests one after the other: the responses and the final state. *)
Fixpoint serve (st : AppState) (rs : list (Ambient * Request)) :
    list (may_panic Response) * AppState :=
  match rs with
  | [] => ([], st)
  | (a, req) :: rs' =>
      let '(r, st1) := auth_middleware a st req in
      let '(rest, st2) := serve st1 rs' in
      (r :: rest, st2)
  end.

Definition is_unauthorized (r : may_panic Response) : bool :=
  match r with Ok (Unauthorized _) => true | _ => false end.

Lemma same_cache_gate st st' req :
  cache (settings st') = cache (settings st) ->
  client_key st' req = client_key st req /\ (gated st req -> gated st' req).
Proof.
  intros Hc. unfold client_key, gated, access_mode, admin_password_raw, raw_value,
    require_auth_for_reads, get_typed, get. by rewrite Hc.
Qed.

(** Rejected requests of one client: the tracker has seen one failure each,
    and the settings are as they were. *)
Lemma rejections_recorded ip rs : forall st rsps st',
  auth_inv (settings st) ->
  Forall (fun ar => gated st (snd ar) /\ client_key st (snd ar) = Some ip) rs ->
  serve st rs = (rsps, st') -> Forall (fun r => is_unauthorized r = true) rsps ->
  auth_lockout st' = Lockout.run ((fun ar => Failure (t_fail (fst ar)) (t_start (fst ar)) ip) <$> rs)
                        (auth_lockout st) /\
  cache (settings st') = cache (settings st) /\
  auth_inv (settings st').
Proof.
  induction rs as [|[a req] rs IH]; intros st rsps st' Hinv Hall Hrun Hun; cbn in Hrun; [by simplify_eq|].
  apply Forall_cons in Hall as [[Hg Hk] Hall]. cbn in Hg, Hk.
  destruct (auth_middleware a st req) as [r st1] eqn:Em. destruct (serve st1 rs) as [rest st2] eqn:Es.
  simplify_eq. apply Forall_cons in Hun as [Hr Hun].
  destruct r as [r|]; [|done]. apply auth_middleware_gated in Em; [|done..].
  destruct Em as [(rem & _ & -> & _)|[_ Hm]]; [done|].
  destruct r; try done. destruct Hm as (Hlk & Hc & Hi).
  assert (Hrest : Forall (fun ar => gated st1 (snd ar) /\ client_key st1 (snd ar) = Some ip) rs).
  { eapply Forall_impl; [exact Hall|]. intros [a' req'] [Hg' Hk']. cbn in *.
    destruct (same_cache_gate st st1 req' Hc) as [-> Hgg]. auto. }
  destruct (IH _ _ _ Hi Hrest Es Hun) as (Hl2 & Hc2 & Hi2).
  rewrite Hl2, Hlk, Hc2, Hc, Hk. done.
Qed.

End Sequences.

(** ** A concrete [FormUrl]

    [application/x-www-form-urlencoded]: pairs at ampersands, percent escapes
    and plus signs decoded; the serializer escapes every byte. *)

Fixpoint pct_decode (s : string) : string :=
  match s with
  | EmptyString => EmptyString
  | String a r =>
      if Ascii.eqb a "%"%char then
        match r with
        | String x (String y r') =>
            match hex_value (byte x), hex_value (byte y) with
            | Some h, Some l => String (chr (h * 16 + l)) (pct_decode r')
            | _, _ => String a (pct_decode r)
            end
        | _ => String a (pct_decode r)
        end
      else String (if Ascii.eqb a "+"%char then " "%char else a) (pct_decode r)
  end.

Fixpoint pct_encode (s : string) : string :=
  match s with
  | EmptyString => EmptyString
  | String a r =>
      String "%" (String (chr (hex_char (byte a / 16))) (String (chr (hex_char (byte a mod 16)))
        (pct_encode r)))
  end.

Definition pct_pair (kv : string * string) : string :=
  pct_encode (fst kv) +:+ "=" +:+ pct_encode (snd kv).

Definition pct_serialize (l : list (string * string)) : string := str_join "&" (pct_pair <$> l).

Definition pct_piece (w : string) : option (string * string) :=
  if str_is_empty w then None
  else
    match split_once "=" w with
    | Some (k, v) => Some (pct_decode k, pct_decode v)
    | None => Some (pct_decode w, EmptyString)
    end.

Definition pct_parse (q : string) : list (string * string) :=
  omap pct_piece (split_on (Ascii.eqb "&"%char) q).

Lemma pct_decode_encode s : pct_decode (pct_encode s) = s.
Proof.
  induction s as [|a s IH]; [done|]. cbn [pct_encode pct_decode].
  destruct (nibbles (byte a) (byte_range a)) as (Hh & Hlo & Hb).
  rewrite Ascii.eqb_refl, !byte_chr by (unfold is_byte; pose proof (hex_char_range (byte a / 16));
    pose proof (hex_char_range (byte a mod 16)); lia).
  rewrite !hex_char_value by done. by rewrite <- Hb, chr_byte, IH.
Qed.

Lemma pct_encode_clean c s :
  byte c < 37 \/ 102 < byte c \/ 37 < byte c < 48 \/ byte c = 61 ->
  str_exists (Ascii.eqb c) (pct_encode s) = false.
Proof.
  intros Hc. induction s as [|a s IH]; [done|]. cbn [pct_encode str_exists]. rewrite IH.
  destruct (nibbles (byte a) (byte_range a)) as (Hh & Hlo & _).
  assert (Hx : forall d, 0 <= d < 16 -> Ascii.eqb c (chr (hex_char d)) = false).
  { intros d Hd. apply Ascii.eqb_neq. intros ->.
    assert (is_byte (hex_char d)) by (pose proof (hex_char_range d Hd); unfold is_byte; lia).
    rewrite byte_chr in Hc by done. unfold hex_char in Hc. case_match; lia. }
  rewrite !Hx by done. rewrite !orb_false_r. apply Ascii.eqb_neq. intros ->.
  change (byte "%"%char) with 37 in Hc. lia.
Qed.

Lemma pct_pair_piece kv : pct_piece (pct_pair kv) = Some kv.
Proof.
  destruct kv as [k v]. unfold pct_piece, pct_pair. cbn [fst snd String.append].
  assert (Hne : str_is_empty (pct_encode k +:+ String "=" (pct_encode v)) = false)
    by by destruct (pct_encode k).
  rewrite Hne, split_once_char by (apply pct_encode_clean; by do 3 right).
  by rewrite !pct_decode_encode.
Qed.

Lemma pct_parse_serialize l : pct_parse (pct_serialize l) = l.
Proof.
  unfold pct_parse, pct_serialize. destruct (decide (l = [])) as [->|Hne]; [done|].
  rewrite split_on_join.
  - clear Hne. induction l as [|kv l IH]; [done|]. cbn. rewrite pct_pair_piece. by rewrite IH.
  - by destruct l.
  - apply Forall_fmap, Forall_true. intros [k v]. unfold pct_pair. cbn.
    rewrite str_exists_app. cbn [str_exists].
    by rewrite !pct_encode_clean by (right; right; left; done).
Qed.

Lemma pct_serialize_empty l : pct_serialize l = EmptyString -> l = [].
Proof. intros E. by rewrite <- (pct_parse_serialize l), E. Qed.

Definition pct_form : FormUrl := {|
  form_parse := pct_parse;
  form_serialize := pct_serialize;
  form_parse_serialize := pct_parse_serialize;
  form_serialize_empty := pct_serialize_empty
|}.

(** A password-mode deployment behind one trusted proxy. *)
Definition demo_state : AppState :=
  mkApp (init_inner (list_to_map [(KEY_ACCESS_MODE, JString "password");
                                  (KEY_ACCESS_ADMIN_PASSWORD, JString "secret");
                                  (KEY_ACCESS_READ_ONLY_TOKEN, JString "reader");
                                  (KEY_GENERAL_TRUSTED_PROXY_CIDRS, JString "10.0.0.0/8");
                                  (KEY_ACCESS_REQUIRE_AUTH_FOR_READS, JBool true)]) None ∅) ∅.

Definition demo_ambient (t : Z) : Ambient := mkAmbient t t t t t t t t true true EmptyString [] true.

Definition demo_req (m p : string) (token : option string) : Request :=
  mkReq m p None (Some (V4 10 0 0 1)) (Some "203.0.113.7")
    ((fun t => "Bearer " +:+ t) <$> token).

Abbreviation demo_gate :=
  (@auth_middleware pct_form num_ipnet toy_crypto (map_order _ _) (map_order _ _)).

Example demo_write_ok : fst (demo_gate (demo_ambient 1) demo_state (demo_req "POST" "/settings" (Some "secret"))) = Ok Forwarded.
Proof. vm_compute. reflexivity. Qed.

Example demo_write_reader :
  fst (demo_gate (demo_ambient 1) demo_state (demo_req "POST" "/settings" (Some "reader"))) = Ok ReadOnlyForbidden.
Proof. vm_compute. reflexivity. Qed.

Example demo_read_reader : fst (demo_gate (demo_ambient 1) demo_state (demo_req "GET" "/search" (Some "reader"))) = Ok Forwarded.
Proof. vm_compute. reflexivity. Qed.

(** ** Properties *)

(** C4: nothing passes the gate without a credential.  Take a server started
    on any settings and any sequence of served requests, reloads, credential
    upgrades and verifications (each completed before the next begins).  In
    password mode, when a mutating request, or with reads gated any request
    off the health path, is forwarded, then either no admin password is set
    and the path is a health path (which stays reachable by every verb then),
    or its client was not locked out and it presented a non-empty token that
    verifies against the stored admin password, or, for an allow-listed read,
    against the stored read-only token, which is not empty; and a mutating
    request needs the admin password, in the [Authorization] header:
    [?access_token=] does not count there, although the doc comment of
    [auth_middleware] and the settings page offer it. *)
Theorem gate_admits_only_credentials {Fu : FormUrl} {Ip : IpNetApi} {Cr : Crypto}
    {Hs : HashIter string Z} {Hl : HashIter IpAddr (Z * Z)} m k tbl ops a req st' :
  let st := served_state m k tbl ops in
  access_mode (settings st) = ACCESS_MODE_PASSWORD ->
  is_read_verb (method req) = false \/
    (require_auth_for_reads (settings st) = true /\ is_health_path (path req) = false) ->
  auth_middleware a st req = (Ok Forwarded, st') ->
  (admin_password_raw (settings st) = EmptyString /\ is_health_path (path req) = true) \/
  ((forall ip, client_key st req = Some ip ->
     is_locked_out (t_lock a) (t_rem a) ip (auth_lockout st) = Ok false) /\
   exists t, presented_token req = Some t /\ t <> EmptyString /\
    (verify_admin_password (admin_password_raw (settings st)) t = Ok true \/
     (is_read_verb (method req) = true /\ read_only_allowed (method req) (path req) = true /\
      read_only_token_raw (settings st) <> EmptyString /\
      verify_admin_password (read_only_token_raw (settings st)) t = Ok true)) /\
    (is_read_verb (method req) = false ->
     bearer_token (authorization req) = Some t /\
     verify_admin_password (admin_password_raw (settings st)) t = Ok true)).
Proof.
  intros st Hmode Hv Hm. pose proof (served_state_inv m k tbl ops) as Hinv. fold st in Hinv.
  destruct (decide (admin_password_raw (settings st) = EmptyString)) as [He|Hne].
  { left. rewrite misconfigured_gate in Hm by done. by destruct (is_health_path (path req)). }
  right. apply auth_middleware_gated in Hm as [(rem & _ & [=] & _)|[Hk [_ (t & Ht & Hcr)]]]; [|done..].
  split.
  - intros ip Hip. unfold is_locked_out. rewrite Hip in Hk. unfold check_lockout in Hk. by rewrite Hk.
  - exists t. split_and!; [done|by eapply presented_nonempty| |].
    + destruct Hcr as [|(Ha & Hne' & Hcr)]; [by left|right].
      split_and!; [|done..]. by apply andb_true_iff in Ha as [? _].
    + intros Hw. split; [by apply presented_write|]. destruct Hcr as [|(Ha & _)]; [done|].
      unfold read_only_allowed in Ha. by rewrite Hw in Ha.
Qed.

(** A reader's token is verified and cached, the settings are reloaded with
    a new password, and a write arrives with it. *)
Definition demo_settings : gmap string json := cache (settings demo_state).

Definition demo_ops : list ServerOp :=
  [OnRequest (demo_ambient 1) (demo_req "GET" "/search" (Some "reader"));
   OnSettings (OpInstall (<[KEY_ACCESS_ADMIN_PASSWORD := JString "changed"]> demo_settings))].

Lemma gate_admits_only_credentials_witness :
  let st := @served_state pct_form num_ipnet toy_crypto (map_order _ _) (map_order _ _) demo_settings None ∅ demo_ops in
  let req := demo_req "POST" "/settings" (Some "changed") in
  fst (demo_gate (demo_ambient 2) st (demo_req "POST" "/settings" (Some "secret"))) <> Ok Forwarded /\
  exists t, @presented_token pct_form req = Some t /\ bearer_token (authorization req) = Some t /\
    @verify_admin_password toy_crypto (admin_password_raw (settings st)) t = Ok true.
Proof.
  set (st := @served_state pct_form num_ipnet toy_crypto (map_order _ _) (map_order _ _) demo_settings None ∅ demo_ops).
  set (req := demo_req "POST" "/settings" (Some "changed")).
  split; [vm_compute; discriminate|].
  destruct (@gate_admits_only_credentials pct_form num_ipnet toy_crypto (map_order _ _) (map_order _ _)
    demo_settings None ∅ demo_ops (demo_ambient 2) req (snd (demo_gate (demo_ambient 2) st req)))
    as [[He _]|(_ & t & Ht & _ & _ & Hw)].
  - vm_compute. reflexivity.
  - left. reflexivity.
  - vm_compute. reflexivity.
  - exfalso. revert He. vm_compute. discriminate.
  - exists t. split; [done|]. by apply Hw.
Defined.

(** Misconfiguration fails closed.  In password mode with no admin
    password set every request off the health path is answered 503, health
    paths are forwarded, and neither the credentials nor the lockout tracker
    change. *)
Theorem misconfigured_fails_closed {Fu : FormUrl} {Ip : IpNetApi} {Cr : Crypto}
    {Hs : HashIter string Z} {Hl : HashIter IpAddr (Z * Z)} a st req :
  access_mode (settings st) = ACCESS_MODE_PASSWORD -> admin_password_raw (settings st) = EmptyString ->
  auth_middleware a st req =
  (Ok (if is_health_path (path req) then Forwarded else Misconfigured), st).
Proof. apply misconfigured_gate. Qed.

Lemma misconfigured_fails_closed_witness :
  let st := mkApp (init_inner {[ KEY_ACCESS_MODE := JString "password" ]} None ∅) ∅ in
  demo_gate (demo_ambient 1) st (demo_req "GET" "/search" None) = (Ok Misconfigured, st).
Proof.
  apply (@misconfigured_fails_closed pct_form num_ipnet toy_crypto (map_order _ _) (map_order _ _)
    (demo_ambient 1) (mkApp (init_inner {[ KEY_ACCESS_MODE := JString "password" ]} None ∅) ∅)
    (demo_req "GET" "/search" None)); reflexivity.
Defined.

(** Five rejections shut the client out.  When one client's last five (or
    more) gated requests were all rejected within a quarter of an hour of the
    first, its next gated request in that window is answered 429 with a
    [Retry-After] between 1 and 900 seconds whatever credential it carries,
    and changes nothing. *)
Theorem five_rejections_lock_out {Fu : FormUrl} {Ip : IpNetApi} {Cr : Crypto}
    {Hs : HashIter string Z} {Hl : HashIter IpAddr (Z * Z)} st ip a0 req0 rs rsps st' a req :
  auth_inv (settings st) ->
  Forall (fun ar => gated st (snd ar) /\ client_key st (snd ar) = Some ip) ((a0, req0) :: rs) ->
  window_active (t_fail a0) (auth_lockout st !! ip) = false ->
  Forall (fun ar => t_start a0 <= t_fail (fst ar) < t_start a0 + WINDOW) rs ->
  4 <= Z.of_nat (length rs) < 2 ^ 32 - 1 ->
  serve st ((a0, req0) :: rs) = (rsps, st') -> Forall (fun x => is_unauthorized x = true) rsps ->
  gated st req -> client_key st req = Some ip ->
  t_start a0 <= t_lock a < t_start a0 + WINDOW -> t_lock a <= t_rem a <= t_start a0 + WINDOW ->
  exists secs, auth_middleware a st' req = (Ok (TooManyFailures secs), st') /\ 1 <= secs <= 900.
Proof.
  intros Hinv Hall Hw Hts Hlen Hrun Hun Hg Hk Ht Ht'.
  destruct (rejections_recorded ip _ _ _ _ Hinv Hall Hrun Hun) as (Hlk & Hc & Hi).
  destruct (same_cache_gate st st' req Hc) as [Hk' Hg']. rewrite Hk in Hk'.
  assert (Hent : auth_lockout st' !! ip = Some (1 + Z.of_nat (length rs), t_start a0)).
  { set (f := fun ar : Ambient * Request => (t_fail (fst ar), t_start (fst ar))).
    rewrite Hlk, <- (length_fmap f rs).
    rewrite <- (failures_entry ip (t_fail a0) _ (f <$> rs) (auth_lockout st));
      [|done|by rewrite Forall_fmap|rewrite length_fmap; lia].
    cbn [fmap list_fmap]. rewrite <- list_fmap_compose. done. }
  pose proof (lockout_remaining_entry (t_lock a) (t_rem a) ip _ _ _ Hent Ht Ht') as Hrem.
  destruct (Z.leb_spec MAX_FAILURES (1 + Z.of_nat (length rs))); [|unfold MAX_FAILURES in *; lia].
  eexists. split; [by apply auth_middleware_locked; [auto|rewrite Hk'; apply Hrem]|].
  unfold lockout_retry_secs. set (x := t_start a0 + WINDOW - t_rem a).
  pose proof (div_ceil_bounds x 1000000000). unfold WINDOW in *. lia.
Qed.

(** Five wrong passwords, then the right one. *)
Definition demo_rejected : list (Ambient * Request) :=
  (fun t => (demo_ambient t, demo_req "POST" "/settings" (Some "wrong"))) <$> [2; 3; 4; 5].

Lemma five_rejections_lock_out_witness :
  let bad := (demo_ambient 1, demo_req "POST" "/settings" (Some "wrong")) in
  let st' := snd (@serve pct_form num_ipnet toy_crypto (map_order _ _) (map_order _ _)
                    demo_state (bad :: demo_rejected)) in
  let good := demo_req "POST" "/settings" (Some "secret") in
  exists secs, demo_gate (demo_ambient 9) st' good = (Ok (TooManyFailures secs), st') /\
    1 <= secs <= 900.
Proof.
  set (bad := demo_req "POST" "/settings" (Some "wrong")).
  set (run5 := @serve pct_form num_ipnet toy_crypto (map_order _ _) (map_order _ _)
                 demo_state ((demo_ambient 1, bad) :: demo_rejected)).
  apply (@five_rejections_lock_out pct_form num_ipnet toy_crypto (map_order _ _) (map_order _ _)
    demo_state (V4 203 0 113 7) (demo_ambient 1) bad demo_rejected (fst run5) (snd run5)
    (demo_ambient 9) (demo_req "POST" "/settings" (Some "secret"))).
  - apply init_inv.
  - repeat constructor; try discriminate; left; reflexivity.
  - reflexivity.
  - repeat constructor; unfold WINDOW; cbn; lia.
  - cbn. lia.
  - vm_compute. reflexivity.
  - vm_compute. repeat constructor.
  - split_and!; [reflexivity|discriminate|left; reflexivity].
  - reflexivity.
  - unfold WINDOW. cbn. lia.
  - unfold WINDOW. cbn. lia.
Defined.

(** Logs carry no token.  The sanitised form of a request target is its
    path, or its path with a query none of whose decoded pairs is an
    [access_token] or has a value embedding one; a query with nothing to hide
    is logged verbatim. *)
Theorem sanitized_query_is_clean {Fu : FormUrl} p q :
  sanitize_uri_for_logs p (Some q) = p \/
  exists q', sanitize_uri_for_logs p (Some q) = p +:+ "?" +:+ q' /\
    Forall pair_clean (form_parse q') /\ (Forall pair_clean (form_parse q) -> q' = q).
Proof.
  unfold sanitize_uri_for_logs. destruct (sanitize_pairs (form_parse q)) as [stripped kept] eqn:E.
  pose proof (sanitize_pairs_clean _ _ _ E) as [Hk Hs]. destruct stripped; cbn [negb].
  - destruct (str_is_empty (form_serialize kept)) eqn:Ee; [by left|]. right.
    exists (form_serialize kept). rewrite form_parse_serialize. split_and!; [done..|].
    intros Hclean. exfalso. revert kept E Hk Hs Ee Hclean. generalize (form_parse q) as l.
    assert (Hgen : forall l kept, sanitize_pairs l = (true, kept) -> ~ Forall pair_clean l).
    { induction l as [|[k v] l IH]; cbn; [done|]. intros kept E Hall.
      apply Forall_cons in Hall as [[Hk Hv] Hall]. cbn in Hk, Hv.
      destruct (sanitize_pairs l) as [s0 k0]. destruct (String.eqb_spec k "access_token"); [done|].
      rewrite Hv in E. simplify_eq. by eapply IH. }
    intros l kept E _ _ _ Hclean. by eapply Hgen.
  - right. exists q. split_and!; [done|by rewrite <- Hs|done].
Qed.

(** The rate gate answers every request: health paths pass untouched
    (probes are never throttled), and elsewhere the request is forwarded or
    refused with a [Retry-After] between 1 and 60 seconds, keeping the
    limiter handle well formed. *)
Theorem rate_limit_total {Cfg} `{!RateSettings Cfg} (hist : Cfg -> Prop) h cfg p now1 now2 :
  handle_wf hist h -> hist cfg -> in_u64 now1 -> in_u64 now2 ->
  exists r h', rate_limit now1 now2 h cfg p = (Some r, h') /\ handle_wf hist h' /\
    if is_health_path p then r = Forwarded /\ h' = h
    else r = Forwarded \/ exists secs, r = RateLimited secs /\ 1 <= secs <= 60.
Proof.
  intros Hw Hc H1 H2. unfold rate_limit. destruct (is_health_path p); [by eexists _, _|].
  pose proof (limiter_wf hist h cfg now1 Hc H1 Hw) as Hw1.
  destruct (limiter h cfg now1) as [ptr h1] eqn:El. cbn [snd] in Hw1.
  destruct (limiter_live hist h cfg now1 ptr h1 Hw El) as [l Hl].
  assert (Hacq : acquire_at h1 ptr now2 =
    Some (fst (try_acquire l now2), mkHandle (<[ptr := snd (try_acquire l now2)]> (heap h1)) (slot h1))).
  { unfold acquire_at. rewrite Hl. by destruct (try_acquire l now2). }
  pose proof (acquire_wf hist _ _ _ _ _ H2 Hacq Hw1) as Hw2.
  rewrite Hacq.
  destruct (try_acquire l now2) as [[[]|ms] l'] eqn:Et; cbn [fst snd] in *; [by eauto 10|].
  eexists _, _. split_and!; [done|done|]. right. eexists. split; [done|].
  assert (1 <= ms <= 60000) by (by eapply hint_range; [|exact Et]; eapply Forall_lookup_1; [apply Hw1|]).
  unfold ms_to_retry_after_secs. pose proof (div_ceil_bounds ms 1000). lia.
Qed.

#[local] Instance fixed_settings : RateSettings (Z * Z) := {
  generation _ := 0;
  rate_limit_rps s := Some (fst s);
  rate_limit_burst s := Some (snd s)
}.

Lemma rate_limit_total_witness :
  exists r h', rate_limit 5 6 handle_new (1, 1) "/search" = (Some r, h') /\
    handle_wf (fun _ : Z * Z => True) h' /\
    (r = Forwarded \/ exists secs, r = RateLimited secs /\ 1 <= secs <= 60).
Proof.
  apply (rate_limit_total (fun _ : Z * Z => True) handle_new (1, 1) "/search" 5 6).
  - apply handle_new_wf.
  - done.
  - unfold in_u64, u64_max. lia.
  - unfold in_u64, u64_max. lia.
Defined.
