(* ===== verification/SettingsApi.v ===== *)
(** * SettingsApi: the settings handlers

    [src/serve/handlers/settings.rs]: the grouped read, the bulk update and
    the per-archive settings, over the settings state and the credential
    verdict of the middleware. *)

From S2P Require Import Prelude RustStr Errors Floats JsonValue SettingDefs Config IpAddr NetGuard Lockout Cidr Auth Settings SettingsRun Middleware.

#[local] Opaque SETTING_DEFS known_keys default_settings.

Record SettingsUpdateResponse := mkUpdated {
  updated : Z;
  errors : list string;
  settings_json : json
}.

Section SettingsApi.
Context {Fu : FormUrl} {Ip : IpNetApi} {Ua : UrlApi} {Cr : Crypto}
  {Hj : HashIter string json} {Hs : HashIter string string} {Hz : HashIter string Z}
  {Hl : HashIter IpAddr (Z * Z)}.

Definition get_settings (a : Ambient) (st : AppState) (auth q : option string) :
    may_panic json * AppState :=
  match settings_authed a st "GET" auth q with
  | (Ok authenticated, st1) => (Ok (all_grouped_for authenticated (settings st1)), st1)
  | (Err p, st1) => (Err p, st1)
  end.

(** The body's entries as a map. *)
Definition body_updates (obj : list (string * json)) : gmap string json :=
  foldl (fun m '(k, v) => <[k := v]> m) ∅ obj.

Definition rejected_keys (updates : gmap string json) : list string :=
  List.filter is_security_sensitive ((hash_iter updates).*1).

Definition put_settings (a : Ambient) (f : Fault) (nonces : string -> list Z) (st : AppState)
    (auth : option string) (body : json) :
    may_panic (Result SettingsUpdateResponse) * AppState :=
  match as_object body with
  | None => (Ok (Err (InvalidInput "expected a JSON object")), st)
  | Some obj =>
      let updates := body_updates obj in
      match settings_authed a st "PUT" auth None with
      | (Err p, st1) => (Err p, st1)
      | (Ok authenticated, st1) =>
          let rejected := rejected_keys updates in
          if negb authenticated && negb (bool_decide (rejected = []))
          then (Ok (Err (Forbidden (str_join ", " rejected +:+
                 ": security-sensitive — requires authentication"))), st1)
          else
            match update f nonces updates authenticated (settings st1) with
            | (Err e, s2) => (Ok (Err e), set_settings s2 st1)
            | (Ok errs, s2) =>
                (Ok (Ok (mkUpdated (saturating_sub (map_len updates) (Z.of_nat (length errs))) errs
                           (all_grouped_for authenticated s2))),
                 set_settings s2 st1)
            end
      end
  end.

Definition get_zim_settings_handler (fault : option Error) (zims : gmap string ZimPrefs) (name : string) :
    Result json :=
  match get_zim_settings fault zims name with
  | Err e => Err e
  | Ok (Some s) => Ok s
  | Ok None => Err (NotFound ("ZIM '" +:+ name +:+ "' not found"))
  end.

Definition put_zim_settings (count_fault : option Error)
    (other : gmap string ZimPrefs -> gmap string ZimPrefs) (exec_fault : option Error) (f : Fault)
    (name : string) (body : json) (zims : gmap string ZimPrefs) : Result string * gmap string ZimPrefs :=
  match as_object body with
  | None => (Err (InvalidInput "expected a JSON object"), zims)
  | Some _ =>
      match update_zim_settings count_fault other exec_fault f name body zims with
      | (Err e, z) => (Err e, z)
      | (Ok _, z) => (Ok name, z)
      end
  end.

(** ** Lemmas: the grouped read *)

(** What the response shows for a key. *)
Definition grouped_get (c s : string) (g : list (string * list (string * json))) : option json :=
  obj_get c g ≫= obj_get s.

Lemma group_insert_get c s entry g c' s' :
  grouped_get c' s' (group_insert c s entry g) =
  if String.eqb c c' && String.eqb s s' then Some entry else grouped_get c' s' g.
Proof.
  unfold grouped_get, group_insert. rewrite obj_get_insert.
  destruct (String.eqb_spec c c') as [->|]; cbn [andb]; [|done]. cbn [mbind option_bind].
  rewrite obj_get_insert. destruct (String.eqb s s'); [done|]. by destruct (obj_get c' g).
Qed.

Definition same_group (k k' : string) : Prop :=
  key_category k = key_category k' /\ key_short k = key_short k'.

Lemma group_fold_get (entry : string -> json -> json) k l : forall g,
  NoDup (l.*1) -> (forall k' v', (k', v') ∈ l -> same_group k' k -> k' = k) ->
  grouped_get (key_category k) (key_short k)
    (foldl (fun g kv => group_insert (key_category (fst kv)) (key_short (fst kv))
              (entry (fst kv) (snd kv)) g) g l) =
  match (list_to_map l : gmap string json) !! k with
  | Some v => Some (entry k v)
  | None => grouped_get (key_category k) (key_short k) g
  end.
Proof.
  induction l as [|[k0 v0] l IH]; intros g Hnd Huniq; [done|].
  apply NoDup_cons in Hnd as [Hn Hnd]. cbn [foldl]. rewrite IH; [|done|intros; eapply Huniq; [by right|done]].
  cbn. rewrite group_insert_get. destruct (decide (k = k0)) as [->|Hne].
  - by rewrite lookup_insert_eq, not_elem_of_list_to_map_1, !String.eqb_refl by done.
  - rewrite lookup_insert_ne by done.
    destruct (String.eqb_spec (key_category k0) (key_category k)) as [E1|], (String.eqb_spec (key_short k0) (key_short k)) as [E2|];
      cbn [andb]; try done.
    destruct Hne. symmetry. eapply Huniq; [by left|by split].
Qed.

(** Where a key is in the response object. *)
Definition shown (k : string) (response : json) : option json :=
  as_object response ≫= (fun o => obj_get (key_category k) o ≫=
    (fun g => as_object g ≫= obj_get (key_short k))).

Lemma obj_get_map_snd {A B} (f : A -> B) k (l : list (string * A)) :
  obj_get k (prod_map id f <$> l) = f <$> obj_get k l.
Proof. induction l as [|[k0 v] l IH]; cbn; [done|]. by destruct (String.eqb k0 k). Qed.

Lemma known_groups_unique k k' : k ∈ known_keys -> k' ∈ known_keys -> same_group k k' -> k = k'.
Proof.
  assert (Hnd : NoDup ((fun d => (key_category (d_key d), key_short (d_key d))) <$> SETTING_DEFS)).
  { apply (bool_decide_unpack _). vm_compute. done. }
  intros [d [Hk Hd]%def_key]%known_keys_def [d' [Hk' Hd']%def_key]%known_keys_def [Hc Hsh].
  apply list_elem_of_lookup in Hd as [i Hi], Hd' as [j Hd'].
  assert (i = j) as <-.
  { eapply (NoDup_lookup _ i j); [exact Hnd| |]; rewrite list_lookup_fmap, ?Hi, ?Hd'; [done|].
    cbn. by rewrite Hk, Hk', Hc, Hsh. }
  congruence.
Qed.

Lemma shown_all_grouped a st k :
  (forall k', is_Some (cache st !! k') -> k' ∈ known_keys) -> k ∈ known_keys ->
  shown k (all_grouped_for a st) =
  (fun v => redacted_entry k v a (env_locked st !! k)) <$> cache st !! k.
Proof.
  intros Hkn Hk. unfold shown, all_grouped_for. cbn [as_object mbind option_bind].
  rewrite obj_get_map_snd.
  pose proof (group_fold_get (fun k v => redacted_entry k v a (env_locked st !! k)) k (hash_iter (cache st)) []
    (hash_iter_nodup _)) as E. rewrite hash_iter_list_to_map in E.
  transitivity (grouped_get (key_category k) (key_short k)
    (foldl (fun grouped kv => group_insert (key_category (fst kv)) (key_short (fst kv))
          (redacted_entry (fst kv) (snd kv) a (env_locked st !! fst kv)) grouped) [] (hash_iter (cache st)))).
  - unfold grouped_get. by destruct (obj_get _ _).
  - rewrite E; [by destruct (cache st !! k)|]. intros k' v' Hin%elem_of_hash_iter Hg.
    apply known_groups_unique; eauto.
Qed.

(** ** Lemmas: who may change what *)

Lemma settings_authed_maps a st m auth q :
  cache (settings (snd (settings_authed a st m auth q))) = cache (settings st) /\
  table (settings (snd (settings_authed a st m auth q))) = table (settings st).
Proof.
  unfold settings_authed, verify_bg, verify_finish. repeat (case_match; simplify_eq/=; try done).
Qed.

Lemma settings_authed_true a st m auth q st1 :
  auth_inv (settings st) -> settings_authed a st m auth q = (Ok true, st1) ->
  access_mode (settings st) = ACCESS_MODE_PASSWORD /\
  exists t, presented_token (mkReq m EmptyString q None None auth) = Some t /\
    verify_admin_password (admin_password_raw (settings st)) t = Ok true.
Proof.
  intros Hinv. unfold settings_authed.
  destruct (String.eqb_spec (access_mode (settings st)) ACCESS_MODE_PASSWORD) as [Em|]; [|done].
  cbn [negb]. destruct (presented_token _) as [t|]; [|done].
  pose proof (verify_bg_sound (t_fast a) (t_kdf a) (kdf_permit a) t (settings st) Hinv) as [_ Hv].
  destruct (verify_bg _ _ _ t _) as [r s]. intros [= -> <-]. destruct Hv; [done|]. eauto.
Qed.

Lemma update_untouched f nonce updates a st k :
  accepted updates a st !! k = None ->
  cache (snd (update f nonce updates a st)) !! k = cache st !! k /\
  table (snd (update f nonce updates a st)) !! k = table st !! k.
Proof.
  intros Hk. destruct (update_spec f nonce updates a st) as (errs & _ & H0 & H1).
  destruct (decide (accepted updates a st = ∅)) as [He|Hne]; [by rewrite (H0 He)|].
  assert (Hu : forall m m0 : gmap string json, m !! k = None -> (m ∪ m0) !! k = m0 !! k).
  { intros m m0 E. rewrite lookup_union, E. by destruct (m0 !! k). }
  destruct (H1 Hne) as (tu & _ & _ & ->). destruct f; cbn; split; try done;
    apply Hu; rewrite ?stored_rows_lookup, Hk; done.
Qed.

Lemma unauthenticated_sensitive updates st k :
  is_security_sensitive k = true -> accepted updates false st !! k = None.
Proof.
  intros Hsec. destruct (accepted updates false st !! k) as [w|] eqn:E; [|done].
  apply accepted_Some in E as (v & _ & Hok). apply update_check_ok in Hok as (_ & _ & _ & _ & Ha & _).
  destruct Ha; congruence.
Qed.

(** ** Properties *)

(** Two values a caller cannot tell apart by the rules: equal, or both
    non-empty strings under a secret key, or under a topology key for a
    caller without a credential. *)
Definition indistinct (authenticated : bool) (k : string) (o1 o2 : option json) : Prop :=
  o1 = o2 \/
  exists v1 v2, o1 = Some v1 /\ o2 = Some v2 /\ nonempty_str v1 = true /\ nonempty_str v2 = true /\
    (is_secret_key k = true \/ (authenticated = false /\ policy_flag topology k = true)).

(** The settings read hides secrets.  What a response shows under every
    key is the same for two settings states that differ only in non-empty
    secrets, and, for a caller without a credential, in non-empty topology
    values: the response carries no information about them beyond that they
    are set. *)
Theorem settings_read_hides_secrets authenticated st1 st2 k :
  (forall k', is_Some (cache st1 !! k') -> k' ∈ known_keys) ->
  (forall k', is_Some (cache st2 !! k') -> k' ∈ known_keys) ->
  env_locked st1 = env_locked st2 ->
  (forall k', indistinct authenticated k' (cache st1 !! k') (cache st2 !! k')) ->
  k ∈ known_keys ->
  shown k (all_grouped_for authenticated st1) = shown k (all_grouped_for authenticated st2).
Proof.
  intros Hk1 Hk2 Hlk Hi Hk. rewrite !shown_all_grouped by done. rewrite Hlk.
  destruct (Hi k) as [->|(v1 & v2 & -> & -> & Hn1 & Hn2 & Hh)]; [done|]. cbn. f_equal.
  unfold redacted_entry. f_equal.
  assert (Hv : redacted_value k v1 authenticated = redacted_value k v2 authenticated); [|by rewrite Hv].
  unfold redacted_value, redact. rewrite Hn1, Hn2.
  destruct Hh as [->|[-> ->]]; [|done]. by destruct (_ && _).
Qed.

(** Only the administrator changes security-sensitive settings.  Whatever
    a [PUT /settings] does, if a security-sensitive key's value changes in
    memory or in the table, the server is in password mode and the request
    carried in its [Authorization] header a non-empty token that verifies
    against the stored admin password. *)
Theorem sensitive_changes_need_password a f nonces st auth body k :
  auth_inv (settings st) -> is_security_sensitive k = true ->
  let st' := snd (put_settings a f nonces st auth body) in
  cache (settings st') !! k <> cache (settings st) !! k \/
  table (settings st') !! k <> table (settings st) !! k ->
  access_mode (settings st) = ACCESS_MODE_PASSWORD /\
  exists t, bearer_token auth = Some t /\ t <> EmptyString /\
    verify_admin_password (admin_password_raw (settings st)) t = Ok true.
Proof.
  intros Hinv Hsec. cbn zeta. unfold put_settings. destruct (as_object body) as [obj|]; [|by intros []].
  pose proof (settings_authed_maps a st "PUT" auth None) as [Hc Ht].
  destruct (settings_authed a st "PUT" auth None) as [[authed|p] st1] eqn:Ea; cbn [snd] in Hc, Ht.
  2:{ cbn. rewrite Hc, Ht. by intros []. }
  destruct authed.
  - intros _. destruct (settings_authed_true _ _ _ _ _ _ Hinv Ea) as (Hm & t & Hp & Hv). split; [done|].
    exists t. split_and!; [by apply presented_write in Hp|by eapply presented_nonempty|done].
  - destruct (_ && _); [cbn; rewrite Hc, Ht; by intros []|].
    destruct (update_untouched f nonces (body_updates obj) false (settings st1) k) as [H1 H2];
      [by apply unauthenticated_sensitive|].
    destruct (update _ _ _ _ _) as [[errs|e] s2]; cbn in *; rewrite H1, H2, Hc, Ht; by intros [].
Qed.

(** The per-archive update is all or nothing: an error leaves the rows as the
    other sessions left them (or, with a lost reply, fully written), success
    has written every field of the body to the archive's row. *)
Theorem zim_settings_atomic count_fault other exec_fault f name updates zims :
  let r := update_zim_settings count_fault other exec_fault f name updates zims in
  let ws := zim_writes (default [] (as_object updates)) in
  match fst r with
  | Ok _ =>
      ws = [] /\ snd r = other zims \/
      exists p, other zims !! name = Some p /\ snd r = <[name := foldl (fun p w => w p) p ws]> (other zims)
  | Err e => snd r = zims \/ snd r = other zims \/ f = ReplyLost e
  end.
Proof.
  cbn zeta. unfold update_zim_settings. destruct (omap zim_problem _); [|by left].
  destruct count_fault; [by left|]. destruct (zims !! name); [|by left].
  set (ws := zim_writes _).
  assert (Hrun : forall ws z, (forall p, z !! name = Some p -> zim_run_writes name ws z =
      (replicate (length ws) 1, <[name := foldl (fun p w => w p) p ws]> z)) /\
    (z !! name = None -> zim_run_writes name ws z = (replicate (length ws) 0, z))).
  { clear. induction ws as [|w ws IH]; intros z; cbn.
    - split; [|done]. intros p Hp. by rewrite insert_id.
    - unfold zim_update. split.
      + intros p Hp. rewrite Hp. destruct (IH (<[name := w p]> z)) as [IH1 _].
        rewrite (IH1 (w p)) by apply lookup_insert_eq. by rewrite insert_insert_eq.
      + intros Hn. rewrite Hn. destruct (IH z) as [_ IH2]. by rewrite IH2. }
  destruct (Hrun ws (other zims)) as [H1 H2]. destruct (other zims !! name) as [p|] eqn:Eo.
  - rewrite (H1 p eq_refl). destruct exec_fault; [by right; left|].
    unfold check_zim_update_affected.
    assert (Hex : existsb (Z.eqb 0) (replicate (length ws) 1) = false) by (clear; induction (length ws); cbn; auto).
    rewrite Hex. unfold run_tx. destruct f; cbn; [right; eauto|by auto|by auto].
  - rewrite (H2 eq_refl). destruct exec_fault; [by right; left|]. unfold check_zim_update_affected.
    destruct ws as [|w ws]; cbn; [|by auto]. unfold run_tx. destruct f; cbn; auto.
Qed.

End SettingsApi.

(** ** Witnesses *)

Abbreviation demo_grouped := (@all_grouped_for (map_order _ _)).

Lemma settings_read_hides_secrets_witness :
  let m1 := {[ KEY_TORRENT_PASSWORD := JString "hunter2"; KEY_TORRENT_URL := JString "http://10.0.0.2" ]} : gmap string json in
  let m2 := {[ KEY_TORRENT_PASSWORD := JString "swordfish"; KEY_TORRENT_URL := JString "http://10.0.0.3" ]} : gmap string json in
  shown KEY_TORRENT_URL (demo_grouped false (init_inner m1 None ∅)) =
  shown KEY_TORRENT_URL (demo_grouped false (init_inner m2 None ∅)).
Proof.
  assert (Hkn : forall a b : string, forall k', is_Some (({[ KEY_TORRENT_PASSWORD := JString a; KEY_TORRENT_URL := JString b ]}
      : gmap string json) !! k') -> k' ∈ known_keys).
  { intros a b k' [v [[<- _]|[_ [<- _]%lookup_singleton_Some]]%lookup_insert_Some]; apply known_keys_def; vm_compute; eauto. }
  apply (@settings_read_hides_secrets (map_order _ _) false
    (init_inner {[ KEY_TORRENT_PASSWORD := JString "hunter2"; KEY_TORRENT_URL := JString "http://10.0.0.2" ]} None ∅)
    (init_inner {[ KEY_TORRENT_PASSWORD := JString "swordfish"; KEY_TORRENT_URL := JString "http://10.0.0.3" ]} None ∅)).
  - apply Hkn.
  - apply Hkn.
  - reflexivity.
  - intros k'. cbn [cache init_inner]. destruct (decide (k' = KEY_TORRENT_PASSWORD)) as [->|].
    + right. exists (JString "hunter2"), (JString "swordfish"). rewrite !lookup_insert_eq.
      split_and!; [reflexivity..|]. left. vm_compute. reflexivity.
    + destruct (decide (k' = KEY_TORRENT_URL)) as [->|].
      * right. exists (JString "http://10.0.0.2"), (JString "http://10.0.0.3").
        split_and!; [reflexivity..|]. right. split; [reflexivity|]. vm_compute. reflexivity.
      * left. rewrite !lookup_insert_ne, !lookup_singleton_ne by congruence. reflexivity.
  - apply known_keys_def. vm_compute. eauto.
Defined.

Abbreviation demo_put :=
  (@put_settings pct_form text_url toy_crypto (map_order _ _) (map_order _ _) (demo_ambient 1) NoFault
     (fun _ => replicate 12 0)).

Lemma sensitive_changes_need_password_witness :
  let body := JObject [(KEY_EMBEDDING_ENABLED, JBool true)] in
  let st' := snd (demo_put demo_state (Some "Bearer secret") body) in
  cache (settings st') !! KEY_EMBEDDING_ENABLED = Some (JBool true) /\
  exists t, bearer_token (Some "Bearer secret") = Some t /\ t <> EmptyString /\
    @verify_admin_password toy_crypto (admin_password_raw (settings demo_state)) t = Ok true.
Proof.
  cbn zeta. split; [vm_compute; reflexivity|].
  destruct (@sensitive_changes_need_password pct_form text_url toy_crypto (map_order _ _) (map_order _ _)
    (demo_ambient 1) NoFault (fun _ => replicate 12 0) demo_state (Some "Bearer secret")
    (JObject [(KEY_EMBEDDING_ENABLED, JBool true)]) KEY_EMBEDDING_ENABLED) as [_ Ht].
  - apply init_inv.
  - vm_compute. reflexivity.
  - left. vm_compute. discriminate.
  - exact Ht.
Defined.
