(* ===== verification/Startup.v ===== *)
(** * Startup: from the environment to a serving state

    The settings part of [build_state] and the policy checks of [cmd_serve]
    ([src/startup/mod.rs], [src/main.rs]): the environment becomes the lock
    map and the reload snapshot, the settings are loaded, the password and
    network policy are checked.  Key derivation from [SECURITY_KEY] is a
    parameter. *)

From S2P Require Import Prelude RustStr Errors Floats JsonValue SettingDefs Config IpAddr NetGuard Lockout Cidr Auth Settings SettingsRun Middleware.

#[local] Opaque SETTING_DEFS known_keys default_settings.

Definition dquote : string := Eval cbv in str_of [34].
Definition newline : string := Eval cbv in str_of [10].

Definition admin_password_startup_check (mode password : string) : result string unit :=
  if String.eqb mode ACCESS_MODE_PASSWORD && str_is_empty password
  then Err ("access.mode is " +:+ dquote +:+ "password" +:+ dquote
    +:+ " but access.admin_password is empty — set the AUTH_PASSWORD environment variable (or set "
    +:+ "access.mode back to " +:+ dquote +:+ "open" +:+ dquote +:+ " in the settings table)")
  else if String.eqb password "CHANGE_ME"
  then Err ("access.admin_password is the placeholder " +:+ dquote +:+ "CHANGE_ME" +:+ dquote
    +:+ " — set a real password before starting")
  else Ok tt.

Definition legacy_password_startup_warn (mode password : string) : bool :=
  String.eqb mode ACCESS_MODE_PASSWORD && negb (str_is_empty password) && is_legacy_password password.

Inductive WarnLevel := Warn | Info.

Record StartupWarning := mkWarning {
  message : string;
  level : WarnLevel
}.

Definition is_loopback_host (host : string) : bool :=
  String.eqb host "127.0.0.1" || String.eqb host "localhost" || String.eqb host "::1".

Definition security_key_plaintext_warning (key_set secret_stored : bool) : option StartupWarning :=
  if key_set || negb secret_stored then None
  else
    let bar := "======================================================================" in
    Some (mkWarning (str_join newline
      [bar; "SECURITY_KEY is not set — the settings table stores";
       "torrent.password / embedding.api_key / access.read_only_token";
       "in PLAINTEXT at rest. A database dump, a backup file, or";
       "any read access to the DB exposes those secrets in the clear.";
       "Set SECURITY_KEY to enable AES-256-GCM encryption at rest.";
       "It is REQUIRED for any deployment reachable beyond loopback";
       "(README 'At-rest encryption (SECURITY_KEY)')."; bar]) Warn).

Section Startup.
Context {Ip : IpNetApi} {Cr : Crypto} {Hj : HashIter string json} {Hs : HashIter string string}.

(** [salt] is the fresh salt of the hash. *)
Definition hash_legacy_env_seeded_password (salt : string) (snapshot : gmap string string) :
    gmap string string :=
  match snapshot !! KEY_ACCESS_ADMIN_PASSWORD with
  | None => snapshot
  | Some raw =>
      if str_is_empty raw || String.eqb raw "CHANGE_ME" || starts_with "sha2:" raw
         || negb (is_legacy_password raw)
      then snapshot
      else <[KEY_ACCESS_ADMIN_PASSWORD := hash_admin_password salt raw]> snapshot
  end.

(** [b] adds the warning. *)
Definition warn_if (b : bool) (msg : string) : list StartupWarning :=
  if b then [mkWarning msg Warn] else [].

Definition serve_policy_checks (host access_mode : string) (require_auth_for_reads : bool)
    (trusted_proxy_cidrs : string) : result string (list StartupWarning) :=
  let loopback := is_loopback_host host in
  let open := String.eqb access_mode ACCESS_MODE_OPEN in
  let password := String.eqb access_mode ACCESS_MODE_PASSWORD in
  if open && negb loopback
  then Err ("access.mode=open requires a loopback bind (host=127.0.0.1 or ::1); set "
    +:+ "access.mode=password (with AUTH_PASSWORD) for network-facing deployments")
  else
    let w1 := warn_if (password && negb loopback)
      ("access.mode=password with non-loopback bind (" +:+ host +:+ "): ensure TLS termination "
       +:+ "(reverse proxy) to protect AUTH_PASSWORD in transit. See the README 'Security' section.") in
    let w2 := warn_if (password && negb loopback && require_auth_for_reads)
      ("access.require_auth_for_reads is effective-true on non-loopback bind (" +:+ host
       +:+ "): GET/HEAD/OPTIONS require the admin password (M-1 default). Set "
       +:+ "REQUIRE_AUTH_FOR_READS=false to restore open reads — see the README 'Security' section.") in
    let w3 := warn_if (password && negb loopback && negb require_auth_for_reads)
      ("access.require_auth_for_reads is false on non-loopback bind (" +:+ host
       +:+ "): reads (GET/HEAD/OPTIONS) stay open — full article content is exposed to any network "
       +:+ "peer. Set REQUIRE_AUTH_FOR_READS=true to gate reads.") in
    if has_zero_prefix_cidr trusted_proxy_cidrs
    then Err ("general.trusted_proxy_cidrs contains a /0 CIDR (prefix length 0, e.g. 0.0.0.0/0 or "
      +:+ "::/0): a /0 entry matches every address, so it would trust every X-Forwarded-For value "
      +:+ "and defeat the per-IP auth-failure lockout. Restrict the list to your actual proxy IPs.")
    else
      let proxied := negb (str_is_empty (trim trusted_proxy_cidrs)) in
      let w4 := warn_if (has_over_broad_cidr trusted_proxy_cidrs)
        ("general.trusted_proxy_cidrs contains an over-broad CIDR (≥ /8 IPv4 or ≥ /56 IPv6): this "
         +:+ "allows X-Forwarded-For lockout bypass. Restrict to your actual proxy IPs.") in
      let w5 := warn_if (open && proxied)
        ("access.mode=open with general.trusted_proxy_cidrs set: if a public reverse proxy fronts "
         +:+ "this loopback instance, the loopback-only guarantee is defeated and the full library "
         +:+ "is exposed to network peers with no password to gate reads. For network-facing "
         +:+ "deployments use access.mode=password (with AUTH_PASSWORD) and terminate TLS at the "
         +:+ "proxy — see the README 'Security' section.") in
      let w6 := warn_if (password && negb loopback && proxied)
        ("access.mode=password with non-loopback bind (" +:+ host +:+ ") and "
         +:+ "general.trusted_proxy_cidrs set: the last-resort ?access_token= query-string "
         +:+ "credential channel passes through the proxy (proxy access logs, Referer headers, "
         +:+ "browser history are outside the app's control). Prefer the Bearer Authorization "
         +:+ "header; keep ?access_token= for clients that cannot set headers.") in
      Ok (w1 ++ w2 ++ w3 ++ w4 ++ w5 ++ w6).

(** The reload snapshot of a start. *)
Definition startup_snapshot (getenv : string -> option string) (c : Configuration) (salt : string) :
    gmap string string :=
  hash_legacy_env_seeded_password salt (apply_require_reads_default c (env_settings_snapshot getenv)).

(** [build_state], the settings: load, display keys, password check. *)
Definition build_settings (derive_kek : string -> list Z) (getenv : string -> option string)
    (c : Configuration) (salt : string) (e : ReloadEnv) (t : gmap string json) :
    may_panic (result string SettingsInner) :=
  match load e (locked_env_settings getenv) (startup_snapshot getenv c salt)
          (derive_kek <$> security_key c) t with
  | (Err p, _) => Err p
  | (Ok (Err err), _) => Ok (Err (error_display err))
  | (Ok (Ok _), st) =>
      let st := sync_from_config c st in
      match admin_password_startup_check (access_mode st)
              (default EmptyString (get_typed TString KEY_ACCESS_ADMIN_PASSWORD st)) with
      | Err msg => Ok (Err msg)
      | Ok _ => Ok (Ok st)
      end
  end.

Definition secret_stored (st : SettingsInner) : bool :=
  existsb (fun key => match get_typed TString key st with
                      | Some s => negb (str_is_empty s) | None => false end)
    [KEY_TORRENT_PASSWORD; KEY_EMBEDDING_API_KEY; KEY_ACCESS_READ_ONLY_TOKEN].

(** [cmd_serve] up to the listening socket: the settings and the warnings. *)
Definition serve_settings (derive_kek : string -> list Z) (getenv : string -> option string)
    (c : Configuration) (salt : string) (e : ReloadEnv) (t : gmap string json) :
    may_panic (result string (SettingsInner * list StartupWarning)) :=
  match build_settings derive_kek getenv c salt e t with
  | Err p => Err p
  | Ok (Err msg) => Ok (Err msg)
  | Ok (Ok st) =>
      let cidrs_raw := default EmptyString (get_typed TString KEY_GENERAL_TRUSTED_PROXY_CIDRS st) in
      match serve_policy_checks (host c) (access_mode st) (require_auth_for_reads st) cidrs_raw with
      | Err msg => Ok (Err msg)
      | Ok warnings =>
          Ok (Ok (st, warnings ++
            match security_key_plaintext_warning
                    (match security_key c with Some _ => true | None => false end) (secret_stored st) with
            | Some w => [w]
            | None => []
            end))
      end
  end.

(** ** Lemmas *)

Lemma require_reads_default_host host :
  require_reads_startup_default host = negb (is_loopback_host host).
Proof. done. Qed.

Lemma snapshot_other getenv c salt k :
  k <> KEY_ACCESS_ADMIN_PASSWORD ->
  startup_snapshot getenv c salt !! k = apply_require_reads_default c (env_settings_snapshot getenv) !! k.
Proof.
  intros Hk. unfold startup_snapshot, hash_legacy_env_seeded_password.
  repeat case_match; try done. by rewrite lookup_insert_ne.
Qed.

Lemma load_ok_cache e locked snapshot kk t st :
  load e locked snapshot kk t = (Ok (Ok tt), st) ->
  env_locked st = locked /\ env_snapshot st = snapshot /\
  (forall k v, snapshot !! k ≫= (fun raw => if str_is_empty raw then None else parse_snapshot_value k raw) = Some v ->
     cache st !! k = Some v) /\
  auth_inv st.
Proof.
  unfold load. set (st0 := mkInner ∅ _ _ _ _ _ _ _ _). intros Hl.
  destruct (reload_cases e st0) as [(t0 & _ & Hne)|(Hr & t0 & E)]; [by rewrite Hl in Hne|].
  rewrite Hl in E. injection E as ->. split_and!; [done..| |].
  - intros k v Hv. cbn. rewrite settings_of_lookup by done. unfold effective_value, env_override. cbn.
    by rewrite Hv.
  - split_and!; cbn; auto using clear_sound, clear_bounded.
Qed.

Lemma build_settings_ok dk getenv c salt e t st :
  build_settings dk getenv c salt e t = Ok (Ok st) ->
  exists st0, load e (locked_env_settings getenv) (startup_snapshot getenv c salt) (dk <$> security_key c) t
      = (Ok (Ok tt), st0) /\ st = sync_from_config c st0 /\
    (access_mode st = ACCESS_MODE_PASSWORD -> admin_password_raw st <> EmptyString).
Proof.
  unfold build_settings. destruct (load _ _ _ _ _) as [[[[]|err]|p] st0] eqn:El; [|done..].
  destruct (admin_password_startup_check _ _) as [[]|] eqn:Ea; [|done]. intros [= <-].
  exists st0. split_and!; [done..|]. intros Hm. rewrite Hm in Ea. unfold admin_password_startup_check in Ea.
  rewrite String.eqb_refl in Ea. cbn [andb] in Ea. unfold admin_password_raw, raw_value.
  unfold get_typed, get in Ea. cbn [from_value] in Ea.
  destruct (default EmptyString _); [done|done].
Qed.
Lemma sync_cache_other c st k var :
  env_entry k = Some (var, true) -> cache (sync_from_config c st) !! k = cache st !! k.
Proof.
  intros He. cbn. unfold sync_config_values.
  rewrite !lookup_insert_ne; [done| | | |]; intros <-; by vm_compute in He.
Qed.

Lemma sync_reads c st : require_auth_for_reads (sync_from_config c st) = require_auth_for_reads st.
Proof.
  unfold require_auth_for_reads, get_typed, get.
  by rewrite (sync_cache_other c st _ "REQUIRE_AUTH_FOR_READS") by (vm_compute; reflexivity).
Qed.

Lemma sync_auth_inv c st : auth_inv st -> auth_inv (sync_from_config c st).
Proof.
  intros (H1 & H2 & H3 & H4). split_and!; [| |exact H3|exact H4];
    unfold admin_password_raw, read_only_token_raw, raw_value in *.
  - by rewrite (sync_cache_other c st _ "AUTH_PASSWORD") by (vm_compute; reflexivity).
  - by rewrite (sync_cache_other c st _ "READ_ONLY_TOKEN") by (vm_compute; reflexivity).
Qed.

(** A network bind without an explicit choice gates reads. *)
Lemma startup_reads_gated dk getenv c salt e t st :
  build_settings dk getenv c salt e t = Ok (Ok st) -> is_loopback_host (host c) = false ->
  non_empty (getenv "REQUIRE_AUTH_FOR_READS") = None -> require_auth_for_reads st = true.
Proof.
  intros (st0 & Hl & -> & _)%build_settings_ok Hh He. rewrite sync_reads.
  destruct (load_ok_cache _ _ _ _ _ _ Hl) as (_ & _ & Hc & _).
  unfold require_auth_for_reads, get_typed, get. rewrite (Hc _ (JBool true)); [done|].
  rewrite snapshot_other by (vm_compute; discriminate). unfold apply_require_reads_default.
  rewrite snapshot_lookup. change (env_entry KEY_ACCESS_REQUIRE_AUTH_FOR_READS) with (Some ("REQUIRE_AUTH_FOR_READS", true)).
  cbn [mbind option_bind fst snd]. rewrite He, require_reads_default_host, Hh. cbn [negb].
  rewrite lookup_insert_eq. vm_compute. reflexivity.
Qed.

End Startup.

(** ** Properties *)

(** The environment has the last word.  After a successful start, a
    variable that the reload snapshot carries and that parses decides the
    value of its settings key for the life of the process: no sequence of
    updates by any caller, reloads with any failures, verifications,
    credential upgrades and table writes of other instances changes what is
    read under the key.  (The two credential keys are apart: their text is
    replaced by its hash.) *)
Theorem environment_values_hold {Ua : UrlApi} {Cr : Crypto} {Hj : HashIter string json}
    {Hs : HashIter string string} {Hz : HashIter string Z}
    dk getenv c salt e t st k var raw v ops :
  build_settings dk getenv c salt e t = Ok (Ok st) ->
  env_entry k = Some (var, true) -> ~ credential_key k ->
  getenv var = Some raw -> raw <> EmptyString -> parse_snapshot_value k raw = Some v ->
  get k (settings_run st ops) = Some v.
Proof.
  intros (st0 & Hl & -> & _)%build_settings_ok He Hk Hg Hne Hp.
  destruct (load_ok_cache _ _ _ _ _ _ Hl) as (Hlk & Hsn & Hc & _).
  assert (Hka : k <> KEY_ACCESS_ADMIN_PASSWORD) by (intros ->; apply Hk; by left).
  assert (Hkr : k <> KEY_ACCESS_READ_ONLY_TOKEN) by (intros ->; apply Hk; by right).
  assert (Hn : non_empty (getenv var) = Some raw) by by apply non_empty_Some.
  assert (Hs1 : env_settings_snapshot getenv !! k = Some raw) by (rewrite snapshot_lookup, He; exact Hn).
  assert (Hsnap : startup_snapshot getenv c salt !! k = Some raw).
  { rewrite snapshot_other by done. unfold apply_require_reads_default.
    destruct (env_settings_snapshot getenv !! KEY_ACCESS_REQUIRE_AUTH_FOR_READS) eqn:Er; [done|].
    destruct (require_reads_startup_default _); [|done]. rewrite lookup_insert_ne by congruence. done. }
  assert (Hov : startup_snapshot getenv c salt !! k ≫=
      (fun raw => if str_is_empty raw then None else parse_snapshot_value k raw) = Some v).
  { rewrite Hsnap. cbn. by destruct raw. }
  apply locked_value_run; [| |done..|].
  - unfold env_override. cbn. rewrite Hsn. exact Hov.
  - cbn. rewrite Hlk, locked_lookup, He. cbn [mbind option_bind fst]. rewrite Hn. eauto.
  - rewrite (sync_cache_other c st0 k var He). auto.
Qed.

(** A network-facing server asks for a credential.  If [serve] starts on an
    address that is not loopback then the access mode is not open; and in
    password mode, unless the operator set [REQUIRE_AUTH_FOR_READS], the gate
    forwards a request off the health path, read or write, only with a
    non-empty token that verifies against the admin password or, on an
    allow-listed read, against the read-only token. *)
Theorem network_start_needs_credentials {Fu : FormUrl} {Ip : IpNetApi} {Cr : Crypto}
    {Hj : HashIter string json} {Hs : HashIter string string} {Hz : HashIter string Z}
    {Hl : HashIter IpAddr (Z * Z)} dk getenv c salt e t st ws :
  serve_settings dk getenv c salt e t = Ok (Ok (st, ws)) -> is_loopback_host (host c) = false ->
  access_mode st <> ACCESS_MODE_OPEN /\
  (access_mode st = ACCESS_MODE_PASSWORD -> non_empty (getenv "REQUIRE_AUTH_FOR_READS") = None ->
   forall a lockout req st', is_health_path (path req) = false ->
     auth_middleware a (mkApp st lockout) req = (Ok Forwarded, st') ->
     exists tok, presented_token req = Some tok /\ tok <> EmptyString /\
       (verify_admin_password (admin_password_raw st) tok = Ok true \/
        (read_only_allowed (method req) (path req) = true /\
         verify_admin_password (read_only_token_raw st) tok = Ok true))).
Proof.
  unfold serve_settings. destruct (build_settings dk getenv c salt e t) as [[st0|msg]|p] eqn:Eb; [|done..].
  destruct (serve_policy_checks _ _ _ _) as [w|msg] eqn:Ep; [|done]. intros [= <- _] Hh. split.
  - intros Hm. unfold serve_policy_checks in Ep. rewrite Hm, Hh in Ep. by cbn in Ep.
  - intros Hm He a lockout req st' Hp Hfwd.
    pose proof (startup_reads_gated _ _ _ _ _ _ _ Eb Hh He) as Hreads.
    pose proof (build_settings_ok _ _ _ _ _ _ _ Eb) as (st1 & Hload & E & Hpw).
    destruct (load_ok_cache _ _ _ _ _ _ Hload) as (_ & _ & _ & Hinv).
    assert (Hinv0 : auth_inv st0) by (rewrite E; by apply sync_auth_inv).
    apply auth_middleware_gated in Hfwd as [(rem & _ & [=] & _)|[_ [_ (tok & Ht & Hv)]]]; [|done|].
    + exists tok. split_and!; [done|by eapply presented_nonempty|]. cbn in Hv. naive_solver.
    + split_and!; [done|by apply Hpw|]. right. done.
Qed.

(** A misspelt mode is no mode.  The policy checks refuse a network bind
    only for the exact text [open], and the gate acts only on the exact text
    [password]: with any other value of [access.mode] (say [Password]), the
    server starts on any address and forwards every request of every client
    without a credential.  (The documentation gives two values and says an
    open network bind is refused.) *)
Theorem unknown_mode_serves_open {Fu : FormUrl} {Ip : IpNetApi} {Cr : Crypto}
    {Hs : HashIter string Z} {Hl : HashIter IpAddr (Z * Z)} m host reads cidrs :
  m <> ACCESS_MODE_OPEN -> m <> ACCESS_MODE_PASSWORD -> has_zero_prefix_cidr cidrs = false ->
  admin_password_startup_check m EmptyString = Ok tt /\
  is_ok (serve_policy_checks host m reads cidrs) = true /\
  forall a st req, access_mode (settings st) = m -> auth_middleware a st req = (Ok Forwarded, st).
Proof.
  intros Ho Hp Hz. unfold admin_password_startup_check, serve_policy_checks.
  rewrite (proj2 (String.eqb_neq _ _) Ho), (proj2 (String.eqb_neq _ _) Hp), Hz. split_and!; [done..|].
  intros a st req Hm. unfold auth_middleware, auth_required. rewrite Hm, (proj2 (String.eqb_neq _ _) Hp).
  cbn [andb negb]. by rewrite andb_false_r, orb_true_r.
Qed.

(** ** Concrete starts *)

Definition env_of (l : list (string * string)) (name : string) : option string :=
  snd <$> List.find (fun kv => String.eqb (fst kv) name) l.

Definition demo_serve (env : list (string * string)) : option SettingsInner :=
  match load_config (env_of env) with
  | Ok c =>
      match @serve_settings num_ipnet toy_crypto (map_order _ _) (map_order _ _) (fun _ => [])
              (env_of env) c EmptyString quiet ∅ with
      | Ok (Ok (st, _)) => Some st
      | _ => None
      end
  | Err _ => None
  end.

(** Fail-open read gating: an explicit [REQUIRE_AUTH_FOR_READS] that is not
    [true] or [false], such as [1], suppresses the bind-based default and then
    fails to parse, so a network bind serves reads openly. *)
Theorem unparsable_reads_flag_opens_reads :
  (require_auth_for_reads <$> demo_serve
     [("HOST", "0.0.0.0"); ("ACCESS_MODE", "password"); ("AUTH_PASSWORD", "pw")]) = Some true /\
  (require_auth_for_reads <$> demo_serve
     [("HOST", "0.0.0.0"); ("ACCESS_MODE", "password"); ("AUTH_PASSWORD", "pw");
      ("REQUIRE_AUTH_FOR_READS", "1")]) = Some false.
Proof. split; vm_compute; reflexivity. Qed.

(** The display keys of the configuration do not survive a reload: after a
    start with [PORT=9000] the settings show 9000, and after the first reload
    (every settings write notifies this process too) the table's seeded
    8899. *)
Theorem reload_reverts_config_display :
  let port st := cache st !! KEY_GENERAL_PORT in
  (port <$> demo_serve [("PORT", "9000")]) = Some (Some (json_int 9000)) /\
  (port ∘ snd ∘ @reload toy_crypto (map_order _ _) (map_order _ _) quiet <$> demo_serve [("PORT", "9000")])
  = Some (Some (json_int 8899)).
Proof. split; vm_compute; reflexivity. Qed.

(** The bind-based default is not locked: a [PUT] without a credential check
    of its own can turn read gating off until the next reload turns it back
    on. *)
Theorem bind_default_is_not_locked :
  let st := demo_serve [("HOST", "0.0.0.0"); ("ACCESS_MODE", "password"); ("AUTH_PASSWORD", "pw")] in
  let off := {[ KEY_ACCESS_REQUIRE_AUTH_FOR_READS := JBool false ]} : gmap string json in
  (fun s => require_auth_for_reads (snd (demo_update off false s))) <$> st = Some false /\
  (fun s => require_auth_for_reads
     (snd (@reload toy_crypto (map_order _ _) (map_order _ _) quiet (snd (demo_update off false s))))) <$> st
  = Some true.
Proof. split; vm_compute; reflexivity. Qed.

(** ** Witnesses *)

Definition demo_env : string -> option string :=
  env_of [("HOST", "0.0.0.0"); ("ACCESS_MODE", "password"); ("AUTH_PASSWORD", "pw")].

Definition demo_config : Configuration :=
  match load_config demo_env with Ok c => c | Err _ => config_default end.

Definition demo_built : SettingsInner :=
  match @build_settings toy_crypto (map_order _ _) (map_order _ _) (fun _ => []) demo_env demo_config
          EmptyString quiet ∅ with
  | Ok (Ok st) => st
  | _ => init_inner ∅ None ∅
  end.

Lemma demo_built_ok :
  @build_settings toy_crypto (map_order _ _) (map_order _ _) (fun _ => []) demo_env demo_config
    EmptyString quiet ∅ = Ok (Ok demo_built).
Proof.
  assert (H : match @build_settings toy_crypto (map_order _ _) (map_order _ _) (fun _ => []) demo_env
      demo_config EmptyString quiet ∅ with Ok (Ok _) => true | _ => false end = true)
    by (vm_compute; reflexivity).
  unfold demo_built. by destruct (build_settings _ _ _ _ _ _) as [[st|]|].
Qed.

Lemma environment_values_hold_witness :
  let ops := [OpUpdate NoFault (fun _ => []) {[ KEY_ACCESS_MODE := JString "open" ]} true;
              OpPeer {[ KEY_ACCESS_MODE := JString "open" ]}; OpReload quiet] in
  get KEY_ACCESS_MODE
    (@settings_run text_url toy_crypto (map_order _ _) (map_order _ _) (map_order _ _) demo_built ops)
  = Some (JString "password").
Proof.
  apply (@environment_values_hold text_url toy_crypto (map_order _ _) (map_order _ _) (map_order _ _)
    (fun _ => []) demo_env demo_config EmptyString quiet ∅ demo_built KEY_ACCESS_MODE "ACCESS_MODE" "password").
  - apply demo_built_ok.
  - vm_compute. reflexivity.
  - intros [[=]|[=]].
  - reflexivity.
  - discriminate.
  - vm_compute. reflexivity.
Defined.

Lemma network_start_needs_credentials_witness :
  exists ws, @serve_settings num_ipnet toy_crypto (map_order _ _) (map_order _ _) (fun _ => []) demo_env
      demo_config EmptyString quiet ∅ = Ok (Ok (demo_built, ws)) /\
    access_mode demo_built = ACCESS_MODE_PASSWORD /\ access_mode demo_built <> ACCESS_MODE_OPEN.
Proof.
  assert (H : exists ws, @serve_settings num_ipnet toy_crypto (map_order _ _) (map_order _ _) (fun _ => [])
    demo_env demo_config EmptyString quiet ∅ = Ok (Ok (demo_built, ws))).
  { assert (Hp : is_ok (@serve_policy_checks num_ipnet (host demo_config) (access_mode demo_built)
      (require_auth_for_reads demo_built)
      (default EmptyString (get_typed TString KEY_GENERAL_TRUSTED_PROXY_CIDRS demo_built))) = true)
      by (vm_compute; reflexivity).
    unfold serve_settings. rewrite demo_built_ok. destruct (serve_policy_checks _ _ _ _); [eauto|done]. }
  destruct H as [ws Hws]. exists ws. split; [exact Hws|]. split; [vm_compute; reflexivity|].
  apply (@network_start_needs_credentials pct_form num_ipnet toy_crypto (map_order _ _) (map_order _ _)
    (map_order _ _) (map_order _ _) (fun _ => []) demo_env demo_config EmptyString quiet ∅ demo_built ws Hws).
  reflexivity.
Defined.

Lemma unknown_mode_serves_open_witness :
  is_ok (@serve_policy_checks num_ipnet "0.0.0.0" "Password" false EmptyString) = true /\
  forall a st req, access_mode (settings st) = "Password" -> demo_gate a st req = (Ok Forwarded, st).
Proof.
  apply (@unknown_mode_serves_open pct_form num_ipnet toy_crypto (map_order _ _) (map_order _ _)
    "Password" "0.0.0.0" false EmptyString); [discriminate..|reflexivity].
Defined.
