(* ===== verification/Snapshots.v ===== *)
(** * Snapshots: the settings one pass reads

    [src/settings/snapshots.rs]: the values a search and a poller tick take
    from the settings map in one pass, with their clamps and fallbacks.
    [FastRead] is the class of the types with a clone-free read; a Rust panic
    is [None] of [seed_default]. *)

From S2P Require Import Prelude RustStr Floats JsonValue SettingDefs Auth Settings.

#[local] Opaque SETTING_DEFS default_settings.

Definition TRGM_THRESHOLD_FLOOR : f64 := Eval vm_compute in f64_decimal 3 1.

Definition floor_trgm_threshold (v : f64) : f64 := f64_max v TRGM_THRESHOLD_FLOOR.

Definition f64_ten : f64 := Eval vm_compute in f64_of_Z 10.

Definition clamp_weight (v : option f64) (dflt : f64) : f64 :=
  match v with
  | Some x => if f64_is_finite x then f64_clamp f64_zero f64_ten x else dflt
  | None => dflt
  end.

(** The generic read. *)
Definition read (p : prim) (cache : gmap string json) (key : string) : option (prim_ty p) :=
  cache !! key ≫= from_value p.

(** [FastRead::from_cached], per type. *)
Definition from_cached (p : prim) : json -> option (prim_ty p) :=
  match p with
  | TString => as_str
  | TBool => as_bool
  | TF64 => as_f64
  | TU64 => as_u64
  | TU32 => fun v => match as_u64 v with
                     | Some n => if n <=? u32_max then Some n else None
                     | None => None
                     end
  | TUsize => fun v => match as_u64 v with
                       | Some n => if n <=? u64_max then Some n else None
                       | None => None
                       end
  | TI32 => fun _ => None
  end.

Definition read_fast (p : prim) (cache : gmap string json) (key : string) : option (prim_ty p) :=
  match cache !! key with
  | Some v => match from_cached p v with Some x => Some x | None => read p cache key end
  | None => None
  end.

(** [None] is the panic on a broken seed. *)
Definition seed_default (p : prim) (key : string) : option (prim_ty p) := from_value p (default_value key).

Definition read_fast_or_seed (p : prim) (cache : gmap string json) (key : string) : option (prim_ty p) :=
  match read_fast p cache key with Some x => Some x | None => seed_default p key end.

Record SearchParamsSnapshot := mkSearchParams {
  s_generation : Z;
  default_limit : Z;
  max_limit : Z;
  fts_weight : f64;
  trgm_weight : f64;
  vector_weight : f64;
  trgm_threshold : f64;
  s_embedding_enabled : bool;
  embed_endpoint : string;
  embed_api_key : string;
  embed_model : string;
  embed_dimension : Z;
  embed_batch_size : Z
}.

Definition clamped_weight (cache : gmap string json) (key : string) : option f64 :=
  clamp_weight (read_fast TF64 cache key) <$> seed_default TF64 key.

Definition search_params_snapshot (st : SettingsInner) : option SearchParamsSnapshot :=
  let c := cache st in
  threshold ← read_fast_or_seed TF64 c KEY_SEARCH_TRGM_THRESHOLD;
  dl ← read_fast_or_seed TUsize c KEY_SEARCH_DEFAULT_LIMIT;
  ml ← read_fast_or_seed TUsize c KEY_SEARCH_MAX_LIMIT;
  fw ← clamped_weight c KEY_SEARCH_FTS_WEIGHT;
  tw ← clamped_weight c KEY_SEARCH_TRGM_WEIGHT;
  vw ← clamped_weight c KEY_SEARCH_VECTOR_WEIGHT;
  en ← read_fast_or_seed TBool c KEY_EMBEDDING_ENABLED;
  ep ← read_fast_or_seed TString c KEY_EMBEDDING_ENDPOINT;
  bs ← read_fast_or_seed TUsize c KEY_EMBEDDING_BATCH_SIZE;
  Some (mkSearchParams (generation st) dl ml fw tw vw (floor_trgm_threshold threshold) en ep
    (default EmptyString (read_fast TString c KEY_EMBEDDING_API_KEY))
    (default EMBED_DEFAULT_MODEL (read_fast TString c KEY_EMBEDDING_MODEL))
    (default EMBED_DEFAULT_DIMENSION (read_fast TU32 c KEY_EMBEDDING_DIMENSION)) bs).

Record PollerParams := mkParams {
  p_qbit_url : option string;
  p_category : string;
  p_save_path : string;
  p_seed_ratio : option f64;
  p_file_strategy : string;
  p_keep_completed : bool;
  p_opds_auto_update : bool;
  p_opds_url : string;
  p_allow_private_networks : bool;
  p_qbit_allow_private : bool;
  p_max_bytes : Z
}.

(** The closure [str_v]. *)
Definition str_v (c : gmap string json) (k : string) : string :=
  default EmptyString
    (match read_fast TString c k with Some s => Some s | None => from_value TString (default_value k) end).

Definition poller_params_snapshot (st : SettingsInner) : option PollerParams :=
  let c := cache st in
  kc ← read_fast_or_seed TBool c KEY_TORRENT_KEEP_COMPLETED;
  au ← read_fast_or_seed TBool c KEY_TORRENT_AUTO_UPDATE;
  ap ← read_fast_or_seed TBool c KEY_DOWNLOADS_ALLOW_PRIVATE_NETWORKS;
  qp ← read_fast_or_seed TBool c KEY_TORRENT_ALLOW_PRIVATE_NETWORKS;
  Some (mkParams
    (let url := str_v c KEY_TORRENT_URL in if str_is_empty url then None else Some url)
    (str_v c KEY_TORRENT_CATEGORY) (str_v c KEY_TORRENT_SAVE_PATH)
    (read_fast TF64 c KEY_TORRENT_SEED_RATIO) (str_v c KEY_TORRENT_FILE_STRATEGY) kc au
    (str_v c KEY_TORRENT_OPDS_URL) ap qp
    (Z.max 1 (default DEFAULT_MAX_BYTES
       (match read_fast TU64 c KEY_DOWNLOADS_MAX_BYTES with
        | Some n => Some n
        | None => from_value TU64 (default_value KEY_DOWNLOADS_MAX_BYTES)
        end)))).

Definition torrent_poll_secs (st : SettingsInner) : option Z :=
  Z.max 1 <$> (match get_typed TU64 KEY_TORRENT_POLL_SECS st with
               | Some n => Some n
               | None => as_u64 (default_value KEY_TORRENT_POLL_SECS)
               end).

(** ** Lemmas *)

(** The fast read agrees with the generic one on every value the map can
    hold: the fallback is never what decides. *)
Lemma from_cached_from_value p v :
  p <> TI32 -> value_ok v -> from_cached p v = from_value p v.
Proof.
  intros Hp Hv. destruct p; try done; destruct v as [|b|[n|q|x]|s|l|l]; cbn in *; try done.
  all: unfold int_from, u32_max, u64_max in *; cbn.
  all: repeat match goal with
    | |- context [?a <=? ?b] => destruct (Z.leb_spec a b); cbn; try done; try lia end.
Qed.

Lemma read_fast_read p c k :
  p <> TI32 -> (forall v, c !! k = Some v -> value_ok v) -> read_fast p c k = read p c k.
Proof.
  intros Hp Hv. unfold read_fast, read. destruct (c !! k) as [v|]; [|done]. cbn.
  rewrite from_cached_from_value by auto. by destruct (from_value p v).
Qed.

Lemma seed_default_of p k : seed_default p k = def k ≫= (fun d => from_value p (d_default d)) \/
  seed_default p k = from_value p JNull.
Proof.
  unfold seed_default, default_value. rewrite default_settings_lookup.
  destruct (def k); [by left|by right].
Qed.

(** The seeds the snapshots fall back on. *)
Lemma seeds_ok :
  (is_Some (seed_default TF64 KEY_SEARCH_TRGM_THRESHOLD) /\ is_Some (seed_default TUsize KEY_SEARCH_DEFAULT_LIMIT) /\
   is_Some (seed_default TUsize KEY_SEARCH_MAX_LIMIT) /\ is_Some (seed_default TBool KEY_EMBEDDING_ENABLED) /\
   is_Some (seed_default TString KEY_EMBEDDING_ENDPOINT) /\ is_Some (seed_default TUsize KEY_EMBEDDING_BATCH_SIZE)) /\
  (is_Some (seed_default TBool KEY_TORRENT_KEEP_COMPLETED) /\ is_Some (seed_default TBool KEY_TORRENT_AUTO_UPDATE) /\
   is_Some (seed_default TBool KEY_DOWNLOADS_ALLOW_PRIVATE_NETWORKS) /\
   is_Some (seed_default TBool KEY_TORRENT_ALLOW_PRIVATE_NETWORKS)).
Proof. split_and!; vm_compute; eauto. Qed.

Lemma read_or_seed_some p c k : is_Some (seed_default p k) -> is_Some (read_fast_or_seed p c k).
Proof. unfold read_fast_or_seed. intros. destruct (read_fast p c k); eauto. Qed.

Definition in_unit_ten (w : f64) : Prop := SFleb f64_zero w = true /\ SFleb w f64_ten = true.

Lemma clamp_weight_bounds v dflt : in_unit_ten dflt -> in_unit_ten (clamp_weight v dflt).
Proof.
  intros Hd. unfold clamp_weight. destruct v as [x|]; [|done].
  destruct (f64_is_finite x) eqn:Ef; [|done].
  destruct (f64_clamp_bounds f64_zero f64_ten x) as (_ & H1 & H2); try done. by destruct x.
Qed.

Lemma clamped_weight_ok c k :
  k = KEY_SEARCH_FTS_WEIGHT \/ k = KEY_SEARCH_TRGM_WEIGHT \/ k = KEY_SEARCH_VECTOR_WEIGHT ->
  exists w, clamped_weight c k = Some w /\ in_unit_ten w.
Proof.
  intros Hk. unfold clamped_weight.
  assert (Hs : exists d, seed_default TF64 k = Some d /\ in_unit_ten d).
  { assert (Hb : match seed_default TF64 k with
                 | Some d => SFleb f64_zero d && SFleb d f64_ten | None => false end = true)
      by (destruct Hk as [->|[->| ->]]; vm_compute; reflexivity).
    destruct (seed_default TF64 k) as [d|]; [|done]. exists d. split; [done|].
    by apply andb_true_iff in Hb. }
  destruct Hs as (d & -> & Hd). cbn. eauto using clamp_weight_bounds.
Qed.

Lemma floor_threshold_bound v : SFleb TRGM_THRESHOLD_FLOOR (floor_trgm_threshold v) = true.
Proof.
  unfold floor_trgm_threshold, f64_max. change (f64_is_nan TRGM_THRESHOLD_FLOOR) with false. cbn [negb].
  destruct (SFltb TRGM_THRESHOLD_FLOOR v) eqn:E; [by apply SFltb_true_leb|done].
Qed.

Lemma search_snapshot_ok st :
  exists s, search_params_snapshot st = Some s /\ s_generation s = generation st /\
    in_unit_ten (fts_weight s) /\ in_unit_ten (trgm_weight s) /\ in_unit_ten (vector_weight s) /\
    SFleb TRGM_THRESHOLD_FLOOR (trgm_threshold s) = true.
Proof.
  destruct seeds_ok as [(H1 & H2 & H3 & H4 & H5 & H6) _]. unfold search_params_snapshot.
  destruct (read_or_seed_some _ (cache st) _ H1) as [? ->], (read_or_seed_some _ (cache st) _ H2) as [? ->],
    (read_or_seed_some _ (cache st) _ H3) as [? ->], (read_or_seed_some _ (cache st) _ H4) as [? ->],
    (read_or_seed_some _ (cache st) _ H5) as [? ->], (read_or_seed_some _ (cache st) _ H6) as [? ->].
  destruct (clamped_weight_ok (cache st) KEY_SEARCH_FTS_WEIGHT) as (? & -> & ?); [by auto|].
  destruct (clamped_weight_ok (cache st) KEY_SEARCH_TRGM_WEIGHT) as (? & -> & ?); [by auto|].
  destruct (clamped_weight_ok (cache st) KEY_SEARCH_VECTOR_WEIGHT) as (? & -> & ?); [by auto|].
  eexists. split; [reflexivity|]. split_and!; try done. apply floor_threshold_bound.
Qed.

(** ** Properties *)

(** A snapshot is always taken and always in range.  Whatever the settings
    map holds, missing keys, values of the wrong type, huge or negative
    numbers, the search snapshot and the poller's parameters exist (no seed
    is broken), every ranking weight is in [0, 10], the trigram threshold is
    at least 0.3, the download limit and the poll interval are at least
    one. *)
Theorem snapshots_total_and_bounded st :
  (exists s, search_params_snapshot st = Some s /\ s_generation s = generation st /\
     in_unit_ten (fts_weight s) /\ in_unit_ten (trgm_weight s) /\ in_unit_ten (vector_weight s) /\
     SFleb TRGM_THRESHOLD_FLOOR (trgm_threshold s) = true) /\
  (exists p, poller_params_snapshot st = Some p /\ 1 <= p_max_bytes p /\ p_qbit_url p <> Some EmptyString) /\
  (exists n, torrent_poll_secs st = Some n /\ 1 <= n).
Proof.
  destruct seeds_ok as [_ (H7 & H8 & H9 & H10)]. split_and!.
  - apply search_snapshot_ok.
  - unfold poller_params_snapshot.
    destruct (read_or_seed_some _ (cache st) _ H7) as [? ->], (read_or_seed_some _ (cache st) _ H8) as [? ->],
      (read_or_seed_some _ (cache st) _ H9) as [? ->], (read_or_seed_some _ (cache st) _ H10) as [? ->].
    eexists. split; [reflexivity|]. cbn [p_max_bytes p_qbit_url mbind option_bind]. split; [lia|].
    destruct (str_v _ KEY_TORRENT_URL); done.
  - unfold torrent_poll_secs. destruct (get_typed TU64 KEY_TORRENT_POLL_SECS st) as [n|].
    + exists (Z.max 1 n). split; [done|lia].
    + exists 5. split; [vm_compute; reflexivity|lia].
Qed.

(** The clone-free read is the generic read: at every type the snapshots
    read and on every map whose numbers fit 64 bits, it gives the same
    result, so its fallback never decides. *)
Theorem read_fast_is_read p cache key :
  p <> TI32 -> (forall k v, cache !! k = Some v -> value_ok v) ->
  read_fast p cache key = read p cache key.
Proof. intros Hp Hv. by apply read_fast_read; [|apply Hv]. Qed.

Lemma read_fast_is_read_witness :
  read_fast TU32 {[ KEY_EMBEDDING_DIMENSION := json_int (2 ^ 32) ]} KEY_EMBEDDING_DIMENSION =
  read TU32 {[ KEY_EMBEDDING_DIMENSION := json_int (2 ^ 32) ]} KEY_EMBEDDING_DIMENSION.
Proof.
  apply (read_fast_is_read TU32 {[ KEY_EMBEDDING_DIMENSION := json_int (2 ^ 32) ]}); [discriminate|].
  intros k v [_ <-]%lookup_singleton_Some. vm_compute. discriminate.
Defined.
