(* ===== verification/Lifecycle.v ===== *)
(** * Lifecycle: the downloads table and its state machine

    [src/db/downloads_lifecycle.rs] and [src/db/downloads.rs], over the
    schema of the migrations: the table is a map from ids to rows with the
    two partial unique indexes on active rows ([idx_downloads_active_url],
    [uq_downloads_active_name]), a serial counter and the server clock.  Each
    SQL statement is one atomic step; a statement can fail before it runs or
    lose its reply after it ran ([Fault]).  The status column holds the text
    [as_str] renders; the rows keep the enum. *)

From stdpp Require Import sorting.
From S2P Require Import Prelude RustStr Errors Floats.

(** ** The status graph *)

Inductive DownloadStatus :=
| Queued | Downloading | Complete | Seeding | StError | Cancelled.

#[global] Instance DownloadStatus_eq_dec : EqDecision DownloadStatus.
Proof. solve_decision. Defined.

Definition ALL_STATUSES : list DownloadStatus :=
  [Queued; Downloading; Complete; Seeding; StError; Cancelled].

Definition as_str (s : DownloadStatus) : string :=
  match s with
  | Queued => "queued"
  | Downloading => "downloading"
  | Complete => "complete"
  | Seeding => "seeding"
  | StError => "error"
  | Cancelled => "cancelled"
  end.

Definition parse_status (s : string) : option DownloadStatus :=
  List.find (fun st => String.eqb (as_str st) s) ALL_STATUSES.

Definition can_transition_to (a b : DownloadStatus) : bool :=
  match a, b with
  | Queued, (Downloading | StError | Cancelled) => true
  | Downloading, (Complete | Seeding | StError | Cancelled | Queued) => true
  | StError, Queued => true
  | Seeding, Complete => true
  | _, _ => false
  end.

Definition in_list (statuses : list DownloadStatus) : string :=
  "(" +:+ str_join ", " ((fun s => "'" +:+ as_str s +:+ "'") <$> statuses) +:+ ")".

Definition status_in (s : DownloadStatus) (l : list DownloadStatus) : bool := bool_decide (s ∈ l).

(** ** Rows and the table *)

Record Row := mkRow {
  name : string;
  url : string;
  hash : option string;
  status : DownloadStatus;
  progress : f32;
  speed_bps : option Z;
  eta_secs : option Z;
  file_path : option string;
  error : option string;
  created_at : Z;
  updated_at : Z;
  ratio : option f32;
  up_speed_bps : option Z;
  num_seeds : option Z;
  sha256 : option string
}.

Definition set_status (s : DownloadStatus) (r : Row) : Row :=
  mkRow (name r) (url r) (hash r) s (progress r) (speed_bps r) (eta_secs r) (file_path r) (error r)
    (created_at r) (updated_at r) (ratio r) (up_speed_bps r) (num_seeds r) (sha256 r).
Definition set_hash (h : option string) (r : Row) : Row :=
  mkRow (name r) (url r) h (status r) (progress r) (speed_bps r) (eta_secs r) (file_path r) (error r)
    (created_at r) (updated_at r) (ratio r) (up_speed_bps r) (num_seeds r) (sha256 r).
Definition set_progress (p : f32) (r : Row) : Row :=
  mkRow (name r) (url r) (hash r) (status r) p (speed_bps r) (eta_secs r) (file_path r) (error r)
    (created_at r) (updated_at r) (ratio r) (up_speed_bps r) (num_seeds r) (sha256 r).
Definition set_speed (s : option Z) (r : Row) : Row :=
  mkRow (name r) (url r) (hash r) (status r) (progress r) s (eta_secs r) (file_path r) (error r)
    (created_at r) (updated_at r) (ratio r) (up_speed_bps r) (num_seeds r) (sha256 r).
Definition set_eta (e : option Z) (r : Row) : Row :=
  mkRow (name r) (url r) (hash r) (status r) (progress r) (speed_bps r) e (file_path r) (error r)
    (created_at r) (updated_at r) (ratio r) (up_speed_bps r) (num_seeds r) (sha256 r).
Definition set_path (p : option string) (r : Row) : Row :=
  mkRow (name r) (url r) (hash r) (status r) (progress r) (speed_bps r) (eta_secs r) p (error r)
    (created_at r) (updated_at r) (ratio r) (up_speed_bps r) (num_seeds r) (sha256 r).
Definition set_error (e : option string) (r : Row) : Row :=
  mkRow (name r) (url r) (hash r) (status r) (progress r) (speed_bps r) (eta_secs r) (file_path r) e
    (created_at r) (updated_at r) (ratio r) (up_speed_bps r) (num_seeds r) (sha256 r).
Definition set_updated (t : Z) (r : Row) : Row :=
  mkRow (name r) (url r) (hash r) (status r) (progress r) (speed_bps r) (eta_secs r) (file_path r) (error r)
    (created_at r) t (ratio r) (up_speed_bps r) (num_seeds r) (sha256 r).
Definition set_seed_stats (ra : option f32) (up seeds : option Z) (r : Row) : Row :=
  mkRow (name r) (url r) (hash r) (status r) (progress r) (speed_bps r) (eta_secs r) (file_path r) (error r)
    (created_at r) (updated_at r) ra up seeds (sha256 r).
Definition set_sha256 (d : option string) (r : Row) : Row :=
  mkRow (name r) (url r) (hash r) (status r) (progress r) (speed_bps r) (eta_secs r) (file_path r) (error r)
    (created_at r) (updated_at r) (ratio r) (up_speed_bps r) (num_seeds r) d.

Record Db := mkDb {
  rows : gmap Z Row;
  next_id : Z;
  clock : Z
}.

Definition set_rows (m : gmap Z Row) (db : Db) : Db := mkDb m (next_id db) (clock db).

Definition is_active (s : DownloadStatus) : bool := status_in s [Queued; Downloading].

(** ** The partial unique indexes *)

Definition active_rows (m : gmap Z Row) : list (Z * Row) :=
  List.filter (fun kv => is_active (status (snd kv))) (map_to_list m).

Definition urls_unique (m : gmap Z Row) : bool :=
  bool_decide (NoDup ((fun kv => url (snd kv)) <$> active_rows m)).

Definition names_unique (m : gmap Z Row) : bool :=
  bool_decide (NoDup ((fun kv => name (snd kv)) <$> active_rows m)).

Definition unique_violation (constraint : string) : Error :=
  Database (DatabaseError (Some "23505") (Some constraint)
    ("duplicate key value violates unique constraint " +:+ constraint)).

Definition check_unique (m : gmap Z Row) : option Error :=
  if negb (urls_unique m) then Some (unique_violation "idx_downloads_active_url")
  else if negb (names_unique m) then Some (unique_violation "uq_downloads_active_name")
  else None.

(** ** Statements *)

Definition run_stmt {A} (f : Fault) (stmt : Db -> Result A * Db) (db : Db) : Result A * Db :=
  match f with
  | NoFault => stmt db
  | Failed e => (Err e, db)
  | ReplyLost e => (Err e, snd (stmt db))
  end.

(** [UPDATE downloads SET .. WHERE p]: the affected count, or a unique
    violation with the table untouched. *)
Definition update_where (p : Z -> Row -> bool) (g : Row -> Row) (db : Db) : Result Z * Db :=
  let m := map_imap (fun i r => Some (if p i r then g r else r)) (rows db) in
  match check_unique m with
  | Some e => (Err e, db)
  | None => (Ok (map_len (filter (fun kv => p (fst kv) (snd kv) = true) (rows db))), set_rows m db)
  end.

Definition execute (f : Fault) (p : Z -> Row -> bool) (g : Db -> Row -> Row) (db : Db) :
    Result Z * Db :=
  run_stmt f (fun db => update_where p (g db) db) db.

(** [SELECT .. WHERE p] (no order). *)
Definition select (p : Z -> Row -> bool) (db : Db) : list (Z * Row) :=
  List.filter (fun kv => p (fst kv) (snd kv)) (map_to_list (rows db)).

Definition query {A} (f : Fault) (q : Db -> A) (db : Db) : Result A :=
  match f with NoFault => Ok (q db) | Failed e | ReplyLost e => Err e end.

Definition by_id (id : Z) (i : Z) (r : Row) : bool := i =? id.

(** The assignments that set [updated_at = now()]. *)
Definition touching (g : Row -> Row) (db : Db) (r : Row) : Row := set_updated (clock db) (g r).

(** Pool exhaustion propagates, other failures count as no row. *)
Definition execute_best_effort (r : Result Z) : Result Z :=
  match r with
  | Ok n => Ok n
  | Err (Database PoolTimedOut) => Err (Database PoolTimedOut)
  | Err (Database PoolClosed) => Err (Database PoolClosed)
  | Err _ => Ok 0
  end.

Definition best_effort (c : Result Z * Db) : Result Z * Db := (execute_best_effort (fst c), snd c).
Definition to_unit {A} (c : Result A * Db) : Result unit * Db :=
  (match fst c with Ok _ => Ok tt | Err e => Err e end, snd c).

(** ** Status probes *)

Definition select_status (id : Z) (db : Db) : option string :=
  (fun r => as_str (status r)) <$> rows db !! id.

Definition status_of (f : Fault) (id : Z) (db : Db) : option string :=
  match query f (select_status id) db with Ok s => s | Err _ => None end.

Definition status_checked (f : Fault) (id : Z) (db : Db) : Result string :=
  let? s := query f (select_status id) db in
  match s with
  | Some s => Ok s
  | None => Err (NotFound ("download " +:+ pretty id +:+ " does not exist"))
  end.

Definition status_if_changed (f : Fault) (id : Z) (expected : string) (db : Db) : option string :=
  match status_checked f id db with
  | Ok s => if String.eqb s expected then None else Some s
  | Err _ => None
  end.

Definition no_longer_downloading (s : string) : option string :=
  if String.eqb s (as_str Downloading) then None else Some s.

Definition status_no_longer_downloading (f : Fault) (id : Z) (db : Db) : option string :=
  status_of f id db ≫= no_longer_downloading.

(** ** Transitions *)

Definition claim_direct (f : Fault) (id : Z) (part : string) : Db -> Result Z * Db :=
  execute f (fun i r => by_id id i r && bool_decide (status r = Queued))
    (touching (fun r => set_path (Some part) (set_status Downloading r))).

Definition mark_error (f : Fault) (id : Z) (msg : string) (db : Db) : Db :=
  snd (execute f
    (fun i r => by_id id i r && negb (status_in (status r) [Cancelled; Complete; Seeding; StError]))
    (touching (fun r => set_error (Some msg) (set_status StError r))) db).

Definition fatal_guard_statuses : list DownloadStatus := [Queued; Downloading].

Definition mark_fatal_error (f : Fault) (id : Z) (msg : string) (db : Db) : Result Z * Db :=
  best_effort (execute f (fun i r => by_id id i r && status_in (status r) fatal_guard_statuses)
    (touching (fun r => set_error (Some msg) (set_status StError r))) db).

Definition requeue_stale_errors (f : Fault) (ids : list Z) (db : Db) : Result Z * Db :=
  match ids with
  | [] => (Ok 0, db)
  | _ =>
      execute f (fun i r => bool_decide (i ∈ ids) && bool_decide (status r = StError))
        (touching (fun r => set_error None (set_status Queued r))) db
  end.

Definition finalize_direct (f : Fault) (id : Z) (dst : string) (sha : option string) :
    Db -> Result Z * Db :=
  execute f (fun i r => by_id id i r && bool_decide (status r = Downloading))
    (touching (fun r => set_sha256 sha (set_path (Some dst) (set_progress f32_one (set_status Complete r))))).

Definition claim_digest (f : Fault) (id : Z) (db : Db) : Result (option string) :=
  query f (fun db => rows db !! id ≫= sha256) db.

(** [ORDER BY updated_at DESC, id DESC LIMIT 1]. *)
Definition newer (a b : Z * Row) : bool :=
  (updated_at (snd b) <? updated_at (snd a)) ||
  ((updated_at (snd a) =? updated_at (snd b)) && (fst b <? fst a)).

Definition latest (l : list (Z * Row)) : option (Z * Row) :=
  match l with
  | [] => None
  | x :: l' => Some (foldl (fun m y => if newer y m then y else m) x l')
  end.

Definition prior_where (id : Z) (p : Row -> bool) (db : Db) : option string :=
  latest (select (fun i r => p r && negb (i =? id) &&
                             match sha256 r with Some _ => true | None => false end &&
                             status_in (status r) [Complete; Seeding]) db) ≫= (fun kv => sha256 (snd kv)).

Definition prior_observed_digest_by_url (f : Fault) (id : Z) (u : string) (db : Db) :
    Result (option string) :=
  query f (prior_where id (fun r => String.eqb (url r) u)) db.

Definition prior_observed_digest_by_hash (f : Fault) (id : Z) (h : string) (db : Db) :
    Result (option string) :=
  query f (prior_where id (fun r => bool_decide (hash r = Some h))) db.

Definition drift_decision (prev : option string) (current : string) : bool :=
  match prev with
  | Some p => negb (eq_ignore_ascii_case p current)
  | None => false
  end.

Definition record_observed_digest (f : Fault) (id : Z) (sha : string) : Db -> Result Z * Db :=
  execute f (fun i r => by_id id i r && status_in (status r) [Complete; Seeding])
    (touching (set_sha256 (Some sha))).

Definition completion_guard_statuses : list DownloadStatus := [Downloading; Complete].

Definition mark_complete (f : Fault) (id : Z) (dst : string) (new_status : DownloadStatus)
    (ra : option f32) (up seeds : option Z) : Db -> Result Z * Db :=
  let guard i r := by_id id i r && status_in (status r) completion_guard_statuses in
  match new_status with
  | Seeding =>
      execute f guard (touching (fun r => set_error None (set_seed_stats ra up seeds
        (set_path (Some dst) (set_progress f32_one (set_status Seeding r))))))
  | _ =>
      execute f guard (touching (fun r => set_error None (set_seed_stats None None None
        (set_path (Some dst) (set_progress f32_one (set_status Complete r))))))
  end.

Definition mark_downloading (f : Fault) (id : Z) (db : Db) : Result Z * Db :=
  best_effort (execute f (fun i r => by_id id i r && bool_decide (status r = Queued))
    (touching (set_status Downloading)) db).

Definition bind_hash (f : Fault) (id : Z) (h : string) (db : Db) : Result unit * Db :=
  to_unit (best_effort (execute f (by_id id) (touching (set_hash (Some h))) db)).

Definition touch_downloading (f : Fault) (id : Z) (db : Db) : Result Z * Db :=
  best_effort (execute f (fun i r => by_id id i r && bool_decide (status r = Downloading))
    (touching (fun r => r)) db).

Definition clear_hash (f : Fault) (id : Z) (db : Db) : Db :=
  snd (execute f (by_id id) (touching (set_hash None)) db).

Definition drain_cancelled_hashes (f : Fault) : Db -> Result Z * Db :=
  execute f (fun _ r => bool_decide (status r = Cancelled) &&
                        match hash r with Some _ => true | None => false end)
    (fun _ => set_hash None).

Definition settle_seeding (f : Fault) (id : Z) (err : option string) (db : Db) : Result unit * Db :=
  let guard i r := by_id id i r && bool_decide (status r = Seeding) in
  match err with
  | Some msg =>
      to_unit (best_effort (execute f guard
        (touching (fun r => set_error (Some msg) (set_status Complete r))) db))
  | None => to_unit (best_effort (execute f guard (touching (set_status Complete)) db))
  end.

Definition refresh_seeding_stats (f : Fault) (id : Z) (ra : f32) (up seeds speed : Z) (db : Db) :
    Result unit * Db :=
  to_unit (best_effort (execute f (fun i r => by_id id i r && bool_decide (status r = Seeding))
    (touching (fun r => set_speed (Some speed) (set_seed_stats (Some ra) (Some up) (Some seeds) r))) db)).

Definition refresh_progress (f : Fault) (id : Z) (p : f32) (speed : Z) (db : Db) : Result unit * Db :=
  to_unit (best_effort (execute f (by_id id)
    (touching (fun r => set_speed (Some speed) (set_progress p r))) db)).

(** PostgreSQL's [lower]: the ASCII mapping on ASCII text. *)
Class SqlLower := {
  sql_lower : string -> string;
  sql_lower_ascii s : is_ascii s = true -> sql_lower s = to_ascii_lowercase s
}.

(** [trim(s)] in SQL removes spaces. *)
Definition sql_trim (s : string) : string := trim_end_matches " " (trim_start_matches " " s).

(** [split_part(s, sep, 1)]. *)
Definition sql_split_part1 (sep : ascii) (s : string) : string := split_first (Ascii.eqb sep) s.

(** [ZIM_URL_PREDICATE]. *)
Definition zim_url_text `{SqlLower} (u : string) : string :=
  sql_lower (sql_trim (sql_split_part1 "#"%char (sql_split_part1 "?"%char u))).

(** [(pred) LIKE '%.zim']. *)
Definition sql_is_zim_url `{SqlLower} (u : string) : bool := ends_with ".zim" (zim_url_text u).

Definition retry_interrupted_directs `{SqlLower} (f : Fault) : Db -> Result Z * Db :=
  execute f (fun _ r => bool_decide (status r = Downloading) && sql_is_zim_url (url r))
    (touching (fun r => set_error None (set_path None (set_status Queued r)))).

(** ** Inserts *)

Definition fresh_row (n u : string) (h : option string) (s : DownloadStatus) (p : f32) (now : Z) : Row :=
  mkRow n u h s p None None None None now now None None None None.

(** [INSERT .. RETURNING id]; the serial is consumed even when an index
    refuses the row. *)
Definition insert_row (r : Row) (db : Db) : Result Z * Db :=
  let id := next_id db in
  if i32_max <? id then
    (Err (Database (DatabaseError (Some "2200H") None "nextval: reached maximum value of sequence")), db)
  else
    let m := <[id := r]> (rows db) in
    match check_unique m with
    | Some e => (Err e, mkDb (rows db) (id + 1) (clock db))
    | None => (Ok id, mkDb m (id + 1) (clock db))
    end.

Definition has_hash (h : string) (db : Db) : bool :=
  existsb (fun kv => bool_decide (hash (snd kv) = Some h)) (map_to_list (rows db)).

Definition adopt_torrent (f : Fault) (n h : string) (s : DownloadStatus) (p : f32) (db : Db) :
    Result unit * Db :=
  to_unit (best_effort (run_stmt f (fun db =>
    if has_hash h db then (Ok 0, db)
    else
      match insert_row (fresh_row n ("qbt://" +:+ h) (Some h) s p (clock db)) db with
      | (Ok _, db') => (Ok 1, db')
      | (Err e, db') => (Err e, db')
      end) db)).

(** ** [db/downloads.rs] *)

Definition fetch_downloads_by_statuses (f : Fault) (s1 s2 : DownloadStatus) (db : Db) :
    Result (list (Z * Row)) :=
  query f (select (fun _ r => status_in (status r) [s1; s2])) db.

Definition newest_first (a b : Z * Row) : Prop := created_at (snd b) <= created_at (snd a).

#[global] Instance newest_first_dec a b : Decision (newest_first a b).
Proof. unfold newest_first. apply _. Defined.

Definition list_downloads (f : Fault) (db : Db) : Result (list (Z * Row)) :=
  query f (fun db => take 500 (merge_sort newest_first (map_to_list (rows db)))) db.

Definition LIVE : list DownloadStatus := [Queued; Downloading; Complete; Seeding].

Definition first_id (l : list (Z * Row)) : option Z := fst <$> head l.

Definition find_same_name_live_row (f : Fault) (n : string) (exclude : Z) (db : Db) :
    Result (option Z) :=
  query f (fun db => first_id (select (fun i r =>
    String.eqb (name r) n && negb (i =? exclude) && status_in (status r) LIVE) db)) db.

Definition find_live_row_owns_path (f : Fault) (path : string) (exclude : Z) (db : Db) :
    Result (option Z) :=
  query f (fun db => first_id (select (fun i r =>
    bool_decide (file_path r = Some path) && negb (i =? exclude) && status_in (status r) LIVE) db)) db.

Inductive InsertOutcome := Inserted (id : Z) | Duplicate.

(** The duplicate probe of [insert_download]. *)
Definition probe_duplicate (n u : string) (db : Db) : option Z :=
  first_id (select (fun _ r =>
    (String.eqb (url r) u || String.eqb (name r) n) && status_in (status r) [Queued; Downloading]) db).

Definition is_unique_violation (e : SqlxError) : bool :=
  match e with DatabaseError (Some c) _ _ => String.eqb c "23505" | _ => false end.

(** The insert of [insert_download], with the mapping of its outcome. *)
Definition insert_queued (f : Fault) (n u : string) (db : Db) : Result InsertOutcome * Db :=
  match run_stmt f (fun db => insert_row (fresh_row n u None Queued f32_zero (clock db)) db) db with
  | (Ok id, db') => (Ok (Inserted id), db')
  | (Err (Database e), db') =>
      if is_unique_violation e then (Ok Duplicate, db') else (Err (Database e), db')
  | (Err e, db') => (Err e, db')
  end.

(** The insert of [queue_opds_updates] ([poller/opds.rs]): a queued row with
    the catalog's digest claim. *)
Definition insert_claimed (f : Fault) (n u : string) (claim : option string) : Db -> Result Z * Db :=
  run_stmt f (fun db => insert_row (set_sha256 claim (fresh_row n u None Queued f32_zero (clock db))) db).

(** [insert_download]: [between] is what other sessions do to the table
    between the probe and the insert. *)
Definition insert_download (f1 f2 : Fault) (between : Db -> Db) (n u : string) (db : Db) :
    Result InsertOutcome * Db :=
  match query f1 (probe_duplicate n u) db with
  | Err e => (Err e, db)
  | Ok (Some _) => (Ok Duplicate, db)
  | Ok None => insert_queued f2 n u (between db)
  end.

Inductive CancelOutcome := CancelledId (id : Z) | CancelNotFound | NotCancellable (status : string).

Definition cancel_stmt (f : Fault) (id : Z) : Db -> Result Z * Db :=
  execute f (fun i r => by_id id i r && status_in (status r) [Queued; Downloading])
    (touching (set_status Cancelled)).

Definition cancel_download (f1 f2 : Fault) (between : Db -> Db) (id : Z) (db : Db) :
    Result CancelOutcome * Db :=
  match cancel_stmt f1 id db with
  | (Err e, db1) => (Err e, db1)
  | (Ok n, db1) =>
      if 0 <? n then (Ok (CancelledId id), db1)
      else
        let db2 := between db1 in
        match query f2 (select_status id) db2 with
        | Err e => (Err e, db2)
        | Ok (Some s) => (Ok (NotCancellable s), db2)
        | Ok None => (Ok CancelNotFound, db2)
        end
  end.

(** ** The stats batch ([poller/stats.rs]) *)

Record StatsRow := mkStats {
  st_id : Z; st_progress : f32; st_speed : Z; st_eta : option Z; st_ratio : option f32;
  st_up : Z; st_seeds : Z
}.

Definition apply_stats (now : Z) (v : StatsRow) (r : Row) : Row :=
  set_updated now (set_seed_stats (st_ratio v) (Some (st_up v)) (Some (st_seeds v))
    (set_eta (st_eta v) (set_speed (Some (st_speed v)) (set_progress (st_progress v) r)))).

(** [UPDATE .. FROM unnest(..) v WHERE d.id = v.id]: a row joined to several
    entries takes one of them. *)
Definition apply_stats_batch (f : Fault) (changed : list StatsRow) (db : Db) : Result unit * Db :=
  match changed with
  | [] => (Ok tt, db)
  | _ =>
      to_unit (run_stmt f (fun db =>
        (Ok 0, set_rows (map_imap (fun i r =>
           Some (match List.find (fun v => st_id v =? i) changed with
                 | Some v => apply_stats (clock db) v r
                 | None => r
                 end)) (rows db)) db)) db)
  end.

(** ** Every write to the table, as one step *)

Inductive DbOp :=
| OpClaimDirect (id : Z) (part : string)
| OpMarkError (id : Z) (msg : string)
| OpMarkFatal (id : Z) (msg : string)
| OpRequeue (ids : list Z)
| OpFinalize (id : Z) (dst : string) (sha : option string)
| OpRecordDigest (id : Z) (sha : string)
| OpMarkComplete (id : Z) (dst : string) (s : DownloadStatus) (ra : option f32) (up seeds : option Z)
| OpMarkDownloading (id : Z)
| OpBindHash (id : Z) (h : string)
| OpTouch (id : Z)
| OpClearHash (id : Z)
| OpDrain
| OpSettle (id : Z) (err : option string)
| OpRefreshSeeding (id : Z) (ra : f32) (up seeds speed : Z)
| OpRefreshProgress (id : Z) (p : f32) (speed : Z)
| OpRetryInterrupted
| OpAdopt (n h : string) (s : DownloadStatus) (p : f32)
| OpInsert (n u : string)
| OpQueueUpdate (n u : string) (claim : option string)
| OpCancel (id : Z)
| OpStats (changed : list StatsRow)
| OpClock (now : Z).

Definition db_step `{SqlLower} (f : Fault) (op : DbOp) (db : Db) : Db :=
  match op with
  | OpClaimDirect id part => snd (claim_direct f id part db)
  | OpMarkError id msg => mark_error f id msg db
  | OpMarkFatal id msg => snd (mark_fatal_error f id msg db)
  | OpRequeue ids => snd (requeue_stale_errors f ids db)
  | OpFinalize id dst sha => snd (finalize_direct f id dst sha db)
  | OpRecordDigest id sha => snd (record_observed_digest f id sha db)
  | OpMarkComplete id dst s ra up seeds => snd (mark_complete f id dst s ra up seeds db)
  | OpMarkDownloading id => snd (mark_downloading f id db)
  | OpBindHash id h => snd (bind_hash f id h db)
  | OpTouch id => snd (touch_downloading f id db)
  | OpClearHash id => clear_hash f id db
  | OpDrain => snd (drain_cancelled_hashes f db)
  | OpSettle id err => snd (settle_seeding f id err db)
  | OpRefreshSeeding id ra up seeds speed => snd (refresh_seeding_stats f id ra up seeds speed db)
  | OpRefreshProgress id p speed => snd (refresh_progress f id p speed db)
  | OpRetryInterrupted => snd (retry_interrupted_directs f db)
  | OpAdopt n h s p => snd (adopt_torrent f n h s p db)
  | OpInsert n u => snd (insert_queued f n u db)
  | OpQueueUpdate n u claim => snd (insert_claimed f n u claim db)
  | OpCancel id => snd (cancel_stmt f id db)
  | OpStats changed => snd (apply_stats_batch f changed db)
  | OpClock now => mkDb (rows db) (next_id db) now
  end.

(** Sessions interleave their statements in any order. *)
Definition db_run `{SqlLower} (ops : list (Fault * DbOp)) (db : Db) : Db :=
  foldl (fun db fo => db_step (fst fo) (snd fo) db) db ops.

(** ** Lemmas: the unique indexes *)

Definition uniq_active (m : gmap Z Row) : Prop :=
  forall i j r r', m !! i = Some r -> m !! j = Some r' ->
    is_active (status r) = true -> is_active (status r') = true ->
    url r = url r' \/ name r = name r' -> i = j.

Lemma NoDup_fmap_on {A B} (f : A -> B) (l : list A) :
  NoDup l -> NoDup (f <$> l) <-> forall x y, x ∈ l -> y ∈ l -> f x = f y -> x = y.
Proof.
  induction 1 as [|a l Ha Hl IH]; cbn.
  - split; [set_solver|constructor].
  - rewrite NoDup_cons, IH. split.
    + intros [Hfa Hinj] x y Hx Hy Hf. rewrite elem_of_cons in Hx, Hy.
      destruct Hx as [->|Hx], Hy as [->|Hy]; auto; destruct Hfa.
      * rewrite Hf. by apply list_elem_of_fmap_2.
      * rewrite <- Hf. by apply list_elem_of_fmap_2.
    + intros Hinj. split.
      * intros (y & Hy & Hin)%list_elem_of_fmap. destruct Ha.
        rewrite (Hinj a y); set_solver.
      * set_solver.
Qed.

Lemma elem_of_filter_bool {A} (f : A -> bool) l x : x ∈ List.filter f l <-> f x = true /\ x ∈ l.
Proof. rewrite !list_elem_of_In, List.filter_In. tauto. Qed.

Lemma NoDup_filter_bool {A} (f : A -> bool) l : NoDup l -> NoDup (List.filter f l).
Proof. rewrite !NoDup_ListNoDup. apply List.NoDup_filter. Qed.

Lemma elem_of_active m i r :
  (i, r) ∈ active_rows m <-> m !! i = Some r /\ is_active (status r) = true.
Proof. unfold active_rows. rewrite elem_of_filter_bool, elem_of_map_to_list. naive_solver. Qed.

Lemma key_unique_iff (key : Row -> string) m :
  NoDup ((fun kv => key (snd kv)) <$> active_rows m) <->
  forall i j r r', m !! i = Some r -> m !! j = Some r' ->
    is_active (status r) = true -> is_active (status r') = true -> key r = key r' -> i = j.
Proof.
  rewrite NoDup_fmap_on by apply NoDup_filter_bool, NoDup_map_to_list. split.
  - intros H i j r r' Hi Hj Hr Hr' Hk.
    assert (E : (i, r) = (j, r')) by (apply H; [apply elem_of_active; done..|done]). congruence.
  - intros H [i r] [j r'] [Hi Hr]%elem_of_active [Hj Hr']%elem_of_active Hk. cbn in Hk.
    assert (i = j) by eauto. subst. congruence.
Qed.

Lemma check_unique_none m : check_unique m = None <-> uniq_active m.
Proof.
  unfold check_unique, urls_unique, names_unique, uniq_active.
  pose proof (key_unique_iff url m) as Hu. pose proof (key_unique_iff name m) as Hn.
  split.
  - intros Hc i j r r' Hi Hj Hr Hr' [Hk|Hk].
    + case_bool_decide as Hd; [|done]. eapply Hu; eauto.
    + case_bool_decide; [|done]. cbn in Hc. case_bool_decide; [|done]. eapply Hn; eauto.
  - intros H. rewrite !bool_decide_eq_true_2; [done|apply Hn|apply Hu]; intros; eapply H; eauto.
Qed.

(** ** Lemmas: what a statement does to a row *)

Lemma update_where_ok p g db n db' :
  update_where p g db = (Ok n, db') ->
  uniq_active (rows db') /\ next_id db' = next_id db /\ clock db' = clock db /\
  forall i, rows db' !! i = (fun r => if p i r then g r else r) <$> rows db !! i.
Proof.
  unfold update_where. destruct (check_unique _) eqn:Ec; [done|]. intros [= _ <-].
  apply check_unique_none in Ec. split_and!; [done..|]. intros i. cbn.
  rewrite map_lookup_imap. by destruct (rows db !! i).
Qed.

Lemma update_where_err p g db e db' : update_where p g db = (Err e, db') -> db' = db.
Proof. unfold update_where. destruct (check_unique _); naive_solver. Qed.

(** The statement either leaves the table alone or applies the assignment to
    the selected rows and leaves the indexes satisfied. *)
Lemma execute_cases f p g db :
  snd (execute f p g db) = db \/
  (uniq_active (rows (snd (execute f p g db))) /\
   next_id (snd (execute f p g db)) = next_id db /\
   forall i, rows (snd (execute f p g db)) !! i = (fun r => if p i r then g db r else r) <$> rows db !! i).
Proof.
  unfold execute, run_stmt. destruct (update_where p (g db) db) as [[n|e] db'] eqn:E.
  - apply update_where_ok in E as (Hu & Hn & _ & Hr). destruct f; cbn; eauto.
  - apply update_where_err in E as ->. destruct f; cbn; eauto.
Qed.

(** ** The transition relation on rows *)

Definition edge (a b : DownloadStatus) : bool :=
  can_transition_to a b || bool_decide (a = Complete /\ b = Seeding).

Definition row_step (r r' : Row) : Prop :=
  name r' = name r /\ url r' = url r /\ created_at r' = created_at r /\
  (status r' = status r \/ edge (status r) (status r') = true).

Definition evolves (db db' : Db) : Prop :=
  forall i r, rows db !! i = Some r -> exists r', rows db' !! i = Some r' /\ row_step r r'.

(** The table's invariant: both indexes hold and ids come from the serial. *)
Definition db_inv (db : Db) : Prop :=
  uniq_active (rows db) /\ forall i r, rows db !! i = Some r -> i < next_id db.

Lemma evolves_refl db : evolves db db.
Proof. intros i r Hr. exists r. unfold row_step. eauto 10. Qed.

Lemma execute_evolves f p g db :
  (forall i r, p i r = true -> row_step r (g db r)) -> evolves db (snd (execute f p g db)).
Proof.
  intros Hg. destruct (execute_cases f p g db) as [->|(_ & _ & Hr)]; [apply evolves_refl|].
  intros i r Hi. rewrite Hr, Hi. cbn. eexists. split; [done|].
  destruct (p i r) eqn:Ep; [by apply (Hg i)|]. unfold row_step. eauto 10.
Qed.

Lemma execute_inv f p g db : db_inv db -> db_inv (snd (execute f p g db)).
Proof.
  intros [Hu Hn]. destruct (execute_cases f p g db) as [->|(Hu' & Hn' & Hr)]; [done|].
  split; [done|]. intros i r Hi. rewrite Hn'. rewrite Hr in Hi.
  destruct (rows db !! i) eqn:E; [|done]. eauto.
Qed.

Lemma insert_row_cases r db :
  (rows (snd (insert_row r db)) = rows db /\ next_id db <= next_id (snd (insert_row r db)) /\
   exists e, fst (insert_row r db) = Err e) \/
  (fst (insert_row r db) = Ok (next_id db) /\ next_id (snd (insert_row r db)) = next_id db + 1 /\
   rows (snd (insert_row r db)) = <[next_id db := r]> (rows db) /\
   uniq_active (rows (snd (insert_row r db)))).
Proof.
  unfold insert_row. destruct (i32_max <? next_id db); cbn; [left; split_and!; eauto; lia|].
  destruct (check_unique _) eqn:Ec; cbn; [left; split_and!; eauto; lia|].
  right. apply check_unique_none in Ec. done.
Qed.

Lemma insert_row_evolves r db : db_inv db -> evolves db (snd (insert_row r db)).
Proof.
  intros [_ Hn] i r0 Hi.
  destruct (insert_row_cases r db) as [(Hr & _)|(_ & _ & Hr & _)]; rewrite Hr.
  - apply (evolves_refl db _ _ Hi).
  - exists r0. rewrite lookup_insert_ne by (apply Hn in Hi; lia). unfold row_step. eauto 10.
Qed.

Lemma insert_row_inv r db : db_inv db -> db_inv (snd (insert_row r db)).
Proof.
  intros [Hu Hn].
  destruct (insert_row_cases r db) as [(Hr & Hle & _)|(_ & Hid & Hr & Hu')].
  - split; rewrite Hr; [done|]. intros i r0 Hi. apply Hn in Hi. lia.
  - split; [done|]. rewrite Hr, Hid. intros i r0 [[<- _]|[_ Hi]]%lookup_insert_Some; [lia|].
    apply Hn in Hi. lia.
Qed.

Lemma run_stmt_snd {A} f (stmt : Db -> Result A * Db) db (P : Db -> Prop) :
  P db -> P (snd (stmt db)) -> P (snd (run_stmt f stmt db)).
Proof. by destruct f. Qed.

Lemma status_in_spec s l : status_in s l = true <-> s ∈ l.
Proof. apply bool_decide_eq_true. Qed.

(** Close the side condition of [execute_evolves]: the guard names the old
    status, the assignment the new one. *)
Ltac edge_solver :=
  let i := fresh "i" in let r := fresh "r" in let H := fresh "H" in
  intros i r H; unfold touching, row_step; cbn; split_and!; try done;
  repeat (apply andb_prop in H as [? H] || apply andb_prop in H as [H ?]);
  rewrite ?bool_decide_eq_true in *; rewrite ?status_in_spec in *;
  destruct (status r); try (by left); try (by right); try set_solver.

Section Steps.
Context `{SqlLower}.

Lemma mark_complete_evolves f id dst s ra up seeds db :
  evolves db (snd (mark_complete f id dst s ra up seeds db)).
Proof. unfold mark_complete. destruct s; apply execute_evolves; edge_solver. Qed.

Lemma db_step_evolves f op db : db_inv db -> evolves db (db_step f op db).
Proof.
  intros Hinv. destruct op; cbn [db_step];
    unfold claim_direct, mark_error, mark_fatal_error, finalize_direct, record_observed_digest,
      mark_downloading, bind_hash, touch_downloading, clear_hash, drain_cancelled_hashes,
      refresh_seeding_stats, refresh_progress, retry_interrupted_directs, cancel_stmt,
      best_effort, to_unit, settle_seeding; cbn [snd fst];
    try (apply execute_evolves; edge_solver).
  - unfold requeue_stale_errors. destruct ids; [apply evolves_refl|]. apply execute_evolves. edge_solver.
  - apply mark_complete_evolves.
  - destruct err; cbn [snd fst]; apply execute_evolves; edge_solver.
  - unfold adopt_torrent, to_unit, best_effort. cbn [snd].
    apply run_stmt_snd; [apply evolves_refl|]. destruct (has_hash h db); [apply evolves_refl|].
    pose proof (insert_row_evolves (fresh_row n ("qbt://" +:+ h) (Some h) s p (clock db)) db Hinv).
    by destruct (insert_row _ db) as [[]].
  - unfold insert_queued.
    assert (Hi : evolves db (snd (run_stmt f (fun db => insert_row (fresh_row n u None Queued f32_zero (clock db)) db) db))).
    { apply run_stmt_snd; [apply evolves_refl|]. by apply insert_row_evolves. }
    destruct (run_stmt _ _ _) as [[|[]] ?]; cbn in *; try done. by case_match.
  - unfold insert_claimed. apply run_stmt_snd; [apply evolves_refl|]. by apply insert_row_evolves.
  - unfold apply_stats_batch. destruct changed as [|v l]; [apply evolves_refl|]. unfold to_unit. cbn [snd].
    apply run_stmt_snd; [apply evolves_refl|]. intros i r Hi. cbn [rows snd set_rows].
    rewrite map_lookup_imap, Hi. cbn [option_bind mbind]. eexists. split; [done|].
    case_match; unfold row_step; cbn; eauto 10.
  - intros i r Hi. apply (evolves_refl db _ _ Hi).
Qed.

Lemma stats_inv f changed db : db_inv db -> db_inv (snd (apply_stats_batch f changed db)).
Proof.
  intros Hinv. unfold apply_stats_batch. destruct changed as [|v l]; [done|]. unfold to_unit. cbn [snd].
  apply run_stmt_snd; [done|]. destruct Hinv as [Hu Hn]. cbn [snd].
  assert (Hback : forall i r', map_imap (fun i r =>
           Some (match List.find (fun v => st_id v =? i) (v :: l) with
                 | Some v => apply_stats (clock db) v r | None => r end)) (rows db) !! i = Some r' ->
    exists r, rows db !! i = Some r /\ status r' = status r /\ url r' = url r /\ name r' = name r).
  { intros i r'. rewrite map_lookup_imap. destruct (rows db !! i) as [r|]; [|done].
    cbn [option_bind mbind]. intros [= <-]. exists r. split; [done|]. by case_match. }
  split; cbn [rows set_rows next_id].
  - intros i j r r' (r0 & Hi & Es & Eu & En)%Hback (r0' & Hj & Es' & Eu' & En')%Hback.
    rewrite Es, Es', Eu, Eu', En, En'. eauto.
  - intros i r (r0 & Hi & _)%Hback. eauto.
Qed.

Lemma db_step_inv f op db : db_inv db -> db_inv (db_step f op db).
Proof.
  intros Hinv. destruct op; cbn [db_step]; try (by apply execute_inv); try (by apply stats_inv).
  - unfold requeue_stale_errors. destruct ids; [done|]. by apply execute_inv.
  - unfold mark_complete. destruct s; by apply execute_inv.
  - unfold settle_seeding. destruct err; by apply execute_inv.
  - unfold adopt_torrent, to_unit, best_effort. cbn [snd].
    apply run_stmt_snd; [done|]. destruct (has_hash h db); [done|].
    pose proof (insert_row_inv (fresh_row n ("qbt://" +:+ h) (Some h) s p (clock db)) db Hinv).
    by destruct (insert_row _ db) as [[]].
  - unfold insert_queued.
    assert (Hi : db_inv (snd (run_stmt f (fun db => insert_row (fresh_row n u None Queued f32_zero (clock db)) db) db))).
    { apply run_stmt_snd; [done|]. by apply insert_row_inv. }
    destruct (run_stmt _ _ _) as [[|[]] ?]; cbn in *; try done. by case_match.
  - unfold insert_claimed. apply run_stmt_snd; [done|]. by apply insert_row_inv.
  - exact Hinv.
Qed.

Lemma db_run_inv ops db : db_inv db -> db_inv (db_run ops db).
Proof.
  revert db. induction ops as [|[f op] ops IH]; intros db Hdb; [done|].
  apply IH, db_step_inv, Hdb.
Qed.

End Steps.

(** Along any statements a row stays, keeps its name and URL, and its status
    walks the graph. *)
Lemma db_run_walk `{SqlLower} ops db i r :
  db_inv db -> rows db !! i = Some r ->
  exists r', rows (db_run ops db) !! i = Some r' /\ name r' = name r /\ url r' = url r /\
    rtc (fun a b => edge a b = true) (status r) (status r').
Proof.
  revert db r. induction ops as [|[f op] ops IH]; intros db r Hinv Hi; [exists r; eauto using rtc_refl|].
  destruct (db_step_evolves f op db Hinv i r Hi) as (r1 & H1 & Hn & Hu & _ & Hst).
  destruct (IH (db_step f op db) r1) as (r' & Hr' & Hn' & Hu' & Hw); [by apply db_step_inv|done|].
  exists r'. split_and!; [done|congruence|congruence|]. destruct Hst as [<-|Hst]; [done|]. by eapply rtc_l.
Qed.

Lemma cancelled_stuck b : rtc (fun a b => edge a b = true) Cancelled b -> b = Cancelled.
Proof. inversion 1 as [|? y ? Hy]; [done|]. by destruct y. Qed.

(** ** More lemmas on the single statements *)

Definition empty_db : Db := mkDb ∅ 1 0.

Lemma empty_db_inv : db_inv empty_db.
Proof. split; intros ?; cbn; intros; by simplify_map_eq. Qed.

(** The ASCII instance of [lower]. *)
Definition ascii_sql : SqlLower := {| sql_lower := to_ascii_lowercase; sql_lower_ascii s _ := eq_refl |}.

Lemma elem_of_select p db i r : (i, r) ∈ select p db <-> rows db !! i = Some r /\ p i r = true.
Proof. unfold select. rewrite elem_of_filter_bool, elem_of_map_to_list. cbn. tauto. Qed.

Lemma first_id_some p db i : first_id (select p db) = Some i -> exists r, rows db !! i = Some r /\ p i r = true.
Proof.
  unfold first_id. destruct (select p db) as [|[j r] l] eqn:E; cbn; [done|]. intros [= ->].
  exists r. apply elem_of_select. rewrite E. set_solver.
Qed.

Lemma first_id_none p db i r : first_id (select p db) = None -> rows db !! i = Some r -> p i r = false.
Proof.
  unfold first_id. destruct (select p db) as [|[j r'] l] eqn:E; cbn; [|done]. intros _ Hi.
  destruct (p i r) eqn:Ep; [|done].
  assert (Hin : (i, r) ∈ select p db) by by apply elem_of_select. rewrite E in Hin. set_solver.
Qed.

(** If adding an active row breaks an index, an active row already has its
    URL or its name. *)
Lemma not_uniq_insert m k r :
  uniq_active m -> ~ uniq_active (<[k := r]> m) ->
  exists i r', m !! i = Some r' /\ is_active (status r') = true /\ (url r' = url r \/ name r' = name r).
Proof.
  intros Hu Hn.
  destruct (decide (Exists (fun kv => is_active (status (snd kv)) = true /\
    (url (snd kv) = url r \/ name (snd kv) = name r)) (map_to_list m))) as [He|He].
  - apply Exists_exists in He as ([i r'] & Hin & Hr). exists i, r'.
    apply elem_of_map_to_list in Hin. naive_solver.
  - destruct Hn. rewrite Exists_exists in He.
    assert (Hno : forall i r', m !! i = Some r' -> is_active (status r') = true ->
      ~ (url r' = url r \/ name r' = name r)).
    { intros i r' Hi Ha Hk. apply He. exists (i, r'). by rewrite elem_of_map_to_list. }
    intros i j ri rj Hi Hj Ha Ha' Hk.
    apply lookup_insert_Some in Hi as [[-> ->]|[Hi0 Hi]];
      apply lookup_insert_Some in Hj as [[-> ->]|[Hj0 Hj]]; [done| | |by eapply (Hu i j)].
    + destruct (Hno _ _ Hj Ha'). destruct Hk; auto.
    + destruct (Hno _ _ Hi Ha Hk).
Qed.

Lemma check_unique_code m e :
  check_unique m = Some e -> exists x, e = Database x /\ is_unique_violation x = true.
Proof. unfold check_unique. intros Hc. repeat case_match; simplify_eq; by eexists. Qed.

(** A guarded update of one row by id.  If it keeps the row out of the
    indexes, or the row was in them with the same URL and name, it never trips
    one: it reports one row and changes that row, or reports none. *)
Lemma execute_by_id id (guard : Row -> bool) g db :
  db_inv db ->
  (forall r, rows db !! id = Some r -> guard r = true -> is_active (status (g db r)) = true ->
     is_active (status r) = true /\ name (g db r) = name r /\ url (g db r) = url r) ->
  execute NoFault (fun i r => by_id id i r && guard r) g db =
  match rows db !! id with
  | Some r => if guard r then (Ok 1, set_rows (<[id := g db r]> (rows db)) db) else (Ok 0, db)
  | None => (Ok 0, db)
  end.
Proof.
  intros [Hu Hid] Hg. unfold execute, run_stmt, update_where.
  set (m := map_imap _ (rows db)). set (sel := filter _ (rows db)).
  assert (Hm : m = match rows db !! id with
                   | Some r => if guard r then <[id := g db r]> (rows db) else rows db
                   | None => rows db end /\
               sel = match rows db !! id with
                     | Some r => if guard r then {[id := r]} else ∅
                     | None => ∅ end).
  { split; apply map_eq; intros i; subst m sel.
    - rewrite map_lookup_imap. unfold by_id. destruct (decide (i = id)) as [->|Hne].
      + rewrite Z.eqb_refl. destruct (rows db !! id) as [r|] eqn:Er; cbn; [|done].
        destruct (guard r); by rewrite ?lookup_insert_eq.
      + rewrite (proj2 (Z.eqb_neq _ _) Hne). cbn.
        destruct (rows db !! id) as [r|]; [destruct (guard r)|]; rewrite ?lookup_insert_ne by done;
          by destruct (rows db !! i).
    - rewrite map_lookup_filter. unfold by_id. destruct (decide (i = id)) as [->|Hne].
      + destruct (rows db !! id) as [r|] eqn:Er; cbn; [|done]. rewrite Z.eqb_refl. cbn.
        destruct (guard r); cbn; [by rewrite lookup_singleton_eq|done].
      + destruct (rows db !! i) as [x|]; cbn; rewrite ?(proj2 (Z.eqb_neq _ _) Hne); cbn;
          destruct (rows db !! id) as [r|]; try destruct (guard r);
          by rewrite ?lookup_singleton_ne, ?lookup_empty. }
  destruct Hm as [-> ->].
  assert (Hc : check_unique (match rows db !! id with
                   | Some r => if guard r then <[id := g db r]> (rows db) else rows db
                   | None => rows db end) = None).
  { apply check_unique_none. destruct (rows db !! id) as [r|] eqn:Er; [|done]. destruct (guard r) eqn:Eg; [|done].
    assert (Hback : forall i x, <[id := g db r]> (rows db) !! i = Some x -> is_active (status x) = true ->
      exists y, rows db !! i = Some y /\ is_active (status y) = true /\ name x = name y /\ url x = url y).
    { intros i x. destruct (decide (i = id)) as [->|Hne].
      - rewrite lookup_insert_eq. intros [= <-] Ha. destruct (Hg r eq_refl Eg Ha) as (? & ? & ?). eauto.
      - rewrite lookup_insert_ne by done. eauto 6. }
    intros i j x x' Hi Hj Ha Ha'. apply Hback in Hi as (y & Hy & Hay & Hn & Hu'); [|done].
    apply Hback in Hj as (y' & Hy' & Hay' & Hn' & Hu''); [|done]. rewrite Hn, Hn', Hu', Hu''. by apply Hu. }
  rewrite Hc. unfold map_len. destruct (rows db !! id) as [r|]; [destruct (guard r)|];
    rewrite ?map_size_singleton, ?map_size_empty; [done|by destruct db..].
Qed.

Lemma cancel_stmt_ok id db :
  db_inv db ->
  exists n db', cancel_stmt NoFault id db = (Ok n, db') /\ next_id db' = next_id db /\
    (forall i, i <> id -> rows db' !! i = rows db !! i) /\
    match rows db !! id with
    | Some r => if is_active (status r)
                then n = 1 /\ (status <$> rows db' !! id) = Some Cancelled
                else n = 0 /\ rows db' !! id = Some r
    | None => n = 0 /\ rows db' !! id = None
    end.
Proof.
  intros Hinv. unfold cancel_stmt.
  rewrite (execute_by_id id (fun r => status_in (status r) [Queued; Downloading])); [|done|by intros r _ _ [=]].
  destruct (rows db !! id) as [r|] eqn:Er; [change (status_in (status r) [Queued; Downloading]) with (is_active (status r));
    destruct (is_active (status r))|]; eexists _, _; split_and!; try done.
  - intros i Hi. cbn. by rewrite lookup_insert_ne.
  - cbn. by rewrite lookup_insert_eq.
Qed.

(** ** Properties *)

(** C2: every write obeys the state graph.  Whatever statements the sessions
    have run, with whatever failures, the next statement never deletes a row
    or changes its name or URL, and if it changes the status then along an
    edge of [can_transition_to], or from complete to seeding. *)
Theorem writes_follow_graph `{SqlLower} ops f op i r :
  let db := db_run ops empty_db in
  rows db !! i = Some r ->
  exists r', rows (db_step f op db) !! i = Some r' /\
    name r' = name r /\ url r' = url r /\
    (status r' = status r \/ can_transition_to (status r) (status r') = true \/
     (status r = Complete /\ status r' = Seeding)).
Proof.
  cbn zeta. intros Hi.
  destruct (db_step_evolves f op _ (db_run_inv ops _ empty_db_inv) i r Hi) as (r' & Hr' & Hn & Hu & _ & Hs).
  exists r'. split_and!; try done. unfold edge in Hs. destruct Hs as [|Hs]; [by left|right].
  apply orb_true_iff in Hs as [Hs|Hs]; [by left|]. apply bool_decide_eq_true in Hs. by right.
Qed.

Lemma writes_follow_graph_witness :
  let db := @db_run ascii_sql [(NoFault, OpInsert "wiki" "http://x/wiki.zim"); (NoFault, OpClaimDirect 1 "/z/wiki.part")] empty_db in
  status <$> rows db !! 1 = Some Downloading /\
  exists r r', rows db !! 1 = Some r /\ rows (@db_step ascii_sql NoFault (OpFinalize 1 "/z/wiki.zim" None) db) !! 1 = Some r' /\
    name r' = name r.
Proof.
  cbn zeta. split; [vm_compute; reflexivity|].
  set (ops := [(NoFault, OpInsert "wiki" "http://x/wiki.zim"); (NoFault, OpClaimDirect 1 "/z/wiki.part")]).
  set (r := mkRow "wiki" "http://x/wiki.zim" None Downloading f32_zero None None (Some "/z/wiki.part") None 0 0 None None None None).
  destruct (@writes_follow_graph ascii_sql ops NoFault (OpFinalize 1 "/z/wiki.zim" None) 1 r) as (r' & Hr' & Hn & _).
  - vm_compute. reflexivity.
  - exists r, r'. split; [vm_compute; reflexivity|]. split; [exact Hr'|exact Hn].
Defined.

(** Cancelling is final.  A row that is cancelled stays cancelled under
    every later sequence of statements of every session: no late claim,
    completion, error mark or re-queue brings it back. *)
Theorem cancelled_is_final `{SqlLower} ops ops' i r :
  rows (db_run ops empty_db) !! i = Some r -> status r = Cancelled ->
  exists r', rows (db_run ops' (db_run ops empty_db)) !! i = Some r' /\ status r' = Cancelled.
Proof.
  intros Hi Hs. destruct (db_run_walk ops' _ i r (db_run_inv ops _ empty_db_inv) Hi) as (r' & Hr' & _ & _ & Hw).
  exists r'. split; [done|]. rewrite Hs in Hw. by apply cancelled_stuck.
Qed.

Lemma cancelled_is_final_witness :
  let db := @db_run ascii_sql [(NoFault, OpInsert "w" "http://x/w.zim"); (NoFault, OpCancel 1)] empty_db in
  exists r', rows (@db_run ascii_sql [(NoFault, OpMarkDownloading 1); (NoFault, OpFinalize 1 "/z" None);
                                      (NoFault, OpRequeue [1])] db) !! 1 = Some r' /\ status r' = Cancelled.
Proof.
  apply (@cancelled_is_final ascii_sql [(NoFault, OpInsert "w" "http://x/w.zim"); (NoFault, OpCancel 1)]
    [(NoFault, OpMarkDownloading 1); (NoFault, OpFinalize 1 "/z" None); (NoFault, OpRequeue [1])] 1
    (mkRow "w" "http://x/w.zim" None Cancelled f32_zero None None None None 0 0 None None None None)).
  - vm_compute. reflexivity.
  - reflexivity.
Defined.

(** Enqueueing is race-free.  With any statements of other sessions
    between its duplicate probe and its insert, [insert_download] either adds
    one queued row under a fresh id, or reports a duplicate and adds nothing,
    and then an active row with the URL or the name was really there (at the
    probe or at the insert); either way the indexes still hold. *)
Theorem insert_download_outcomes `{SqlLower} ops ops' n u out db' :
  let db := db_run ops empty_db in
  insert_download NoFault NoFault (db_run ops') n u db = (Ok out, db') ->
  db_inv db' /\
  match out with
  | Inserted id =>
      rows (db_run ops' db) !! id = None /\
      rows db' = <[id := fresh_row n u None Queued f32_zero (clock (db_run ops' db))]> (rows (db_run ops' db))
  | Duplicate =>
      (rows db' = rows db \/ rows db' = rows (db_run ops' db)) /\
      exists mid i r, (mid = db \/ mid = db_run ops' db) /\ rows mid !! i = Some r /\
        is_active (status r) = true /\ (url r = u \/ name r = n)
  end.
Proof.
  cbn zeta. pose proof (db_run_inv ops _ empty_db_inv) as Hinv. set (db := db_run ops empty_db) in *.
  pose proof (db_run_inv ops' db Hinv) as Hinv'. set (mid := db_run ops' db) in *.
  unfold insert_download, query. destruct (probe_duplicate n u db) as [i|] eqn:Ep.
  - intros [= <- <-]. split; [done|]. apply first_id_some in Ep as (r & Hr & Hp).
    split; [by left|]. exists db, i, r. apply andb_prop in Hp as [Hk Hs].
    split_and!; [by left|done|done|].
    apply orb_prop in Hk as [Hk|Hk]; apply String.eqb_eq in Hk; auto.
  - unfold insert_queued, run_stmt. fold mid.
    pose proof (insert_row_inv (fresh_row n u None Queued f32_zero (clock mid)) mid Hinv') as Hi.
    unfold insert_row in *. destruct (i32_max <? next_id mid); [done|].
    destruct (check_unique _) as [e|] eqn:Ec.
    + destruct (check_unique_code _ _ Ec) as (x & -> & Hx). rewrite Hx. cbn [snd] in Hi.
      intros [= <- <-]. split; [done|]. split; [by right|].
      destruct (not_uniq_insert (rows mid) (next_id mid) (fresh_row n u None Queued f32_zero (clock mid)))
        as (i & r & Hr & Ha & Hk); [apply Hinv'| |by exists mid, i, r; auto].
      intros Hu%check_unique_none. congruence.
    + intros [= <- <-]. split; [done|]. split; [|done].
      destruct (rows mid !! next_id mid) as [r|] eqn:Er; [|done].
      apply Hinv' in Er. lia.
Qed.

(** Another session takes the name between the probe and the insert. *)
Lemma insert_download_outcomes_witness :
  let other := [(NoFault, OpInsert "w" "http://y/w.zim")] in
  let res := insert_download NoFault NoFault (@db_run ascii_sql other) "w" "http://x/w.zim"
               (@db_run ascii_sql [] empty_db) in
  fst res = Ok Duplicate /\ db_inv (snd res).
Proof.
  cbn zeta. split; [vm_compute; reflexivity|].
  eapply (@insert_download_outcomes ascii_sql [] [(NoFault, OpInsert "w" "http://y/w.zim")] "w" "http://x/w.zim" Duplicate).
  vm_compute. reflexivity.
Defined.

(** Cancelling.  A cancel reports success exactly for an active row and
    leaves it cancelled, reports the status of any other row and leaves it
    alone, reports a missing id as such, and never touches another row. *)
Theorem cancel_download_outcomes `{SqlLower} ops id :
  let db := db_run ops empty_db in
  exists out db', cancel_download NoFault NoFault (fun db => db) id db = (Ok out, db') /\
    (forall i, i <> id -> rows db' !! i = rows db !! i) /\
    match rows db !! id with
    | None => out = CancelNotFound /\ rows db' !! id = None
    | Some r =>
        if is_active (status r) then out = CancelledId id /\ (status <$> rows db' !! id) = Some Cancelled
        else out = NotCancellable (as_str (status r)) /\ rows db' !! id = Some r
    end.
Proof.
  cbn zeta. pose proof (db_run_inv ops _ empty_db_inv) as Hinv.
  destruct (cancel_stmt_ok id _ Hinv) as (n & db' & Hc & _ & Hoth & Hid).
  unfold cancel_download. rewrite Hc.
  destruct (rows (db_run ops empty_db) !! id) as [r|] eqn:Er; [destruct (is_active (status r))|];
    destruct Hid as [-> Hid]; cbn [Z.ltb Z.compare]; unfold query, select_status;
    rewrite ?Hid; eexists _, _; split_and!; try done.
Qed.

(** The completion statement has an edge the graph does not list: with
    seeding kept it moves an already complete row back to seeding (the
    re-install at start-up), although [can_transition_to] denies it. *)
Theorem completion_reopens_complete_rows :
  can_transition_to Complete Seeding = false /\
  let db := @db_run ascii_sql
    [(NoFault, OpInsert "w" "http://x/w"); (NoFault, OpMarkDownloading 1);
     (NoFault, OpMarkComplete 1 "/z/w.zim" Complete None None None)] empty_db in
  status <$> rows db !! 1 = Some Complete /\
  status <$> rows (snd (mark_complete NoFault 1 "/z/w.zim" Seeding None None None db)) !! 1 = Some Seeding.
Proof. split; [reflexivity|]. split; vm_compute; reflexivity. Qed.

Lemma latest_spec l kv : latest l = Some kv -> kv ∈ l /\ Forall (fun x => newer x kv = false) l.
Proof.
  destruct l as [|x l]; cbn; [done|]. intros [= <-]. revert x.
  induction l as [|y l IH]; intros x; cbn.
  - split; [set_solver|]. repeat constructor. unfold newer. lia.
  - destruct (newer y x) eqn:Ey.
    + destruct (IH y) as [Hin Hall]. split; [set_solver|]. constructor; [|done].
      apply Forall_cons in Hall as [Hy _]. unfold newer in *. lia.
    + destruct (IH x) as [Hin Hall]. split; [set_solver|].
      apply Forall_cons in Hall as [Hx Hl]. constructor; [done|]. constructor; [|done].
      unfold newer in *. lia.
Qed.

(** Drift detection compares with the newest observation: the digest
    [prior_observed_digest_by_url] returns belongs to another finished row of
    the same URL, and no finished row of that URL with a digest was updated
    later. *)
Theorem prior_digest_is_newest id u db d :
  prior_observed_digest_by_url NoFault id u db = Ok (Some d) ->
  exists i r, rows db !! i = Some r /\ i <> id /\ url r = u /\ sha256 r = Some d /\
    (status r = Complete \/ status r = Seeding) /\
    forall j r' d', rows db !! j = Some r' -> j <> id -> url r' = u -> sha256 r' = Some d' ->
      status r' = Complete \/ status r' = Seeding -> updated_at r' <= updated_at r.
Proof.
  unfold prior_observed_digest_by_url, query, prior_where. set (p := fun i r => _).
  intros [= Hd]. destruct (latest (select p db)) as [[i r]|] eqn:El; [|done]. cbn in Hd.
  apply latest_spec in El as [Hin Hall]. apply elem_of_select in Hin as [Hi Hp].
  assert (Hguard : forall j r', p j r' = true <-> url r' = u /\ j <> id /\
    (exists d', sha256 r' = Some d') /\ (status r' = Complete \/ status r' = Seeding)).
  { intros j r'. unfold p. rewrite !andb_true_iff, String.eqb_eq, negb_true_iff, Z.eqb_neq, status_in_spec.
    destruct (sha256 r') eqn:E; set_solver. }
  apply Hguard in Hp as (Hu & Hne & _ & Hs). exists i, r. split_and!; try done.
  intros j r' d' Hj Hjne Hju Hjd Hjs. rewrite Forall_forall in Hall.
  specialize (Hall (j, r')). unfold newer in Hall. cbn in Hall.
  assert ((j, r') ∈ select p db) by (apply elem_of_select; split; [done|]; apply Hguard; eauto).
  specialize (Hall H). lia.
Qed.

Lemma prior_digest_is_newest_witness :
  let row t d := mkRow "w" "http://x/w.zim" None Complete f32_one None None None None 0 t None None None (Some d) in
  let db := mkDb (list_to_map [(1, row 5 "aa"); (2, row 9 "bb"); (3, row 7 "cc")]) 4 10 in
  exists i r, rows db !! i = Some r /\ i <> 3 /\ url r = "http://x/w.zim" /\ sha256 r = Some "bb".
Proof.
  cbn zeta.
  edestruct (prior_digest_is_newest 3 "http://x/w.zim"
    (mkDb (list_to_map
      [(1, mkRow "w" "http://x/w.zim" None Complete f32_one None None None None 0 5 None None None (Some "aa"));
       (2, mkRow "w" "http://x/w.zim" None Complete f32_one None None None None 0 9 None None None (Some "bb"));
       (3, mkRow "w" "http://x/w.zim" None Complete f32_one None None None None 0 7 None None None (Some "cc"))]) 4 10)
    "bb") as (i & r & Hi & Hne & Hu & Hd & _).
  - vm_compute. reflexivity.
  - exists i, r. split_and!; [exact Hi|exact Hne|exact Hu|exact Hd].
Defined.
