(* ===== verification/Torrent.v ===== *)
(** * Torrent: the qBittorrent client and its data

    [src/torrent/mod.rs], [src/util.rs], [src/serve/handlers/downloads.rs]
    (the default name) and the pure helpers of [src/torrent/poller/stats.rs].
    An HTTP exchange is its reply: the status and body, or the transport
    error's text. *)

From S2P Require Import Prelude RustStr Errors Floats Auth Lifecycle.

(** ** URLs *)

Definition strip_query_fragment (u : string) : string :=
  split_first (fun c => Ascii.eqb c "?"%char || Ascii.eqb c "#"%char) u.

Definition is_direct_zim_url `{CaseFold} (u : string) : bool :=
  ends_with ".zim" (strip_query_fragment (to_lowercase (trim u))).

(** [src/util.rs]. *)
Definition redact_url (u : string) : string :=
  match split_once "://" u with
  | Some (scheme, rest) =>
      let authority := split_first (Ascii.eqb "/"%char) rest in
      match rfind "@"%char authority with
      | Some at_ => scheme +:+ "://***@" +:+ str_drop (at_ + 1) rest
      | None => u
      end
  | None => u
  end.

(** ** Torrents *)

Record TorrentInfo := mkTorrent {
  t_hash : string;
  t_name : string;
  t_progress : f64;
  t_state : string;
  t_dlspeed : Z;
  t_upspeed : Z;
  t_ratio : f64;
  t_category : option string;
  t_save_path : option string;
  t_content_path : option string;
  t_size : Z;
  t_downloaded : Z;
  t_num_seeds : Z;
  t_err_str : option string
}.

Definition one_of (s : string) (l : list string) : bool := existsb (String.eqb s) l.

Definition is_complete (t : TorrentInfo) : bool :=
  SFleb f64_0_999 (t_progress t) &&
  one_of (t_state t) ["uploading"; "stalledUP"; "pausedUP"; "forcedUP"].

Definition is_active_download (t : TorrentInfo) : bool :=
  one_of (t_state t) ["downloading"; "forcedDL"; "stalledDL"; "metaDL"; "forcedMetaDL";
                      "checking"; "allocating"; "moving"].

Definition is_fatal (t : TorrentInfo) : bool := one_of (t_state t) ["error"; "missingFiles"].

Definition sanitize (t : TorrentInfo) : TorrentInfo :=
  mkTorrent (t_hash t) (t_name t)
    (if f64_is_nan (t_progress t) then f64_zero else f64_clamp f64_zero f64_one (t_progress t))
    (t_state t) (Z.max (t_dlspeed t) 0) (Z.max (t_upspeed t) 0)
    (if f64_is_nan (t_ratio t) then f64_zero else f64_clamp f64_zero f32_max_as_f64 (t_ratio t))
    (t_category t) (t_save_path t) (t_content_path t)
    (Z.max (t_size t) 0) (Z.max (t_downloaded t) 0) (Z.max (t_num_seeds t) 0) (t_err_str t).

(** ** The REST client *)

(** The reply to a request: status and body, or the transport error. *)
Abbreviation HttpReply := (result string (Z * string)).

Definition is_success (status : Z) : bool := (200 <=? status) && (status <=? 299).
Definition is_auth_failure (status : Z) : bool := (status =? 401) || (status =? 403).

(** The http crate's reason phrases. *)
Class HttpReasons := { canonical_reason : Z -> option string }.

(** [format!("HTTP {status}")]. *)
Definition http_status `{HttpReasons} (s : Z) : string :=
  "HTTP " +:+ pretty s +:+ " " +:+ default "<unknown status code>" (canonical_reason s).

Section Client.
Context `{HttpReasons}.

Definition qbit_auth (reply : HttpReply) : Result unit :=
  match reply with
  | Err e => Err (Http e)
  | Ok (status, _) =>
      if negb (is_success status)
      then Err (Torrent Other ("qBittorrent auth failed: " +:+ http_status status))
      else Ok tt
  end.

Definition add_torrent (reply : HttpReply) : Result string :=
  match reply with
  | Err e => Err (Http e)
  | Ok (status, text) =>
      if negb (is_success status)
      then Err (Torrent Other ("add_torrent failed: " +:+ http_status status))
      else Ok text
  end.

(** [decode] is the JSON decoding of the body (serde). *)
Definition get_torrents (decode : string -> result string (list TorrentInfo)) (reply : HttpReply) :
    Result (list TorrentInfo) :=
  match reply with
  | Err e => Err (Http e)
  | Ok (status, body) =>
      if negb (is_success status) then
        if is_auth_failure status
        then Err (Torrent SessionExpired ("qBittorrent session expired (" +:+ http_status status +:+ ")"))
        else Err (Torrent Other ("get_torrents failed: " +:+ http_status status))
      else
        match decode body with
        | Err e => Err (Http e)
        | Ok l => Ok (sanitize <$> l)
        end
  end.

Definition qbit_version (reply : HttpReply) : Result string :=
  match reply with
  | Err e => Err (Http e)
  | Ok (status, text) =>
      if negb (is_success status) then
        if is_auth_failure status
        then Err (Torrent SessionExpired ("qBittorrent session expired (" +:+ http_status status +:+ ")"))
        else Err (Torrent Other ("version probe failed: " +:+ http_status status))
      else Ok (trim text)
  end.

Definition qbit_delete (reply : HttpReply) : Result unit :=
  match reply with
  | Err e => Err (Http e)
  | Ok (status, _) => if negb (is_success status) then Err (Torrent Other "delete failed") else Ok tt
  end.

Definition set_ratio_limit (reply : HttpReply) : Result unit :=
  match reply with
  | Err e => Err (Http e)
  | Ok (status, _) =>
      if negb (is_success status) then Err (Torrent Other "set_ratio_limit failed") else Ok tt
  end.

End Client.

(** ** The client cache *)

Definition fingerprint_input (u user pass : string) (allow_private : bool) : list Z :=
  bytes_of u ++ bytes_of "|" ++ bytes_of user ++ bytes_of "|" ++ bytes_of pass ++ bytes_of "|" ++
  bytes_of (if allow_private then "true" else "false").

Definition qbit_fingerprint `{Crypto} (u user pass : string) (allow_private : bool) : string :=
  hex_encode (Auth.sha256 (fingerprint_input u user pass allow_private)).

Definition resolve_qbit_inputs (torrent_url url_override : option string) (user pass : string) :
    option (string * string * string) :=
  match (match url_override with Some u => Some u | None => torrent_url end) with
  | None => None
  | Some u => if str_is_empty (trim u) then None else Some (u, user, pass)
  end.

Section Cache.
Context {Client : Type}.

Abbreviation QbitCell := (option (string * Client)).

Definition cache_current (cell : QbitCell) : option Client := snd <$> cell.
Definition cache_invalidate (cell : QbitCell) : QbitCell := None.
Definition cache_store (fp : string) (c : Client) (cell : QbitCell) : QbitCell := Some (fp, c).

(** [ensure]: the lock is not held while the client is built; [between] is
    what others do to the cell meanwhile. *)
Definition ensure (fp : string) (build : option Client) (between : QbitCell -> QbitCell)
    (cell : QbitCell) : option Client * QbitCell :=
  let miss :=
    match build with
    | Some c => (Some c, Some (fp, c))
    | None => (None, between cell)
    end in
  match cell with
  | Some (fp', c) => if String.eqb fp' fp then (Some c, cell) else miss
  | None => miss
  end.

End Cache.

(** ** Per-tick statistics ([poller/stats.rs]) *)

Definition kibs_to_bps (kibs : Z) : Z := saturating_mul_i64 kibs 1024.

Definition eta_secs_of (remaining dlspeed_kibs : Z) : option Z :=
  if 0 <? dlspeed_kibs then Some (Z.quot remaining (saturating_mul_i64 dlspeed_kibs 1024)) else None.

Definition stats_changed (old_progress : f32) (old_ratio : option f32) (old_num_seeds : option Z)
    (t : TorrentInfo) : bool :=
  SFleb f64_0_01 (SFabs (f64_sub (t_progress t) (f32_to_f64 old_progress))) ||
  negb (SFeqb (f64_to_f32 (t_ratio t)) (default f32_zero old_ratio)) ||
  negb (t_num_seeds t =? default 0 old_num_seeds) ||
  negb (t_dlspeed t =? 0) || negb (t_upspeed t =? 0).

(** ** Lemmas: URLs *)

Lemma split_first_cons f a s :
  split_first f (String a s) = if f a then EmptyString else String a (split_first f s).
Proof.
  unfold split_first. cbn. destruct (split_on_ne f s) as (w & ws & ->). by destruct (f a).
Qed.

Lemma split_first_two f g s :
  split_first g (split_first f s) = split_first (fun c => f c || g c) s.
Proof.
  induction s as [|a s IH]; [done|]. rewrite !split_first_cons.
  destruct (f a) eqn:Ef; cbn [orb]; [done|]. rewrite split_first_cons, IH. done.
Qed.

Lemma ascii_lower_sep a :
  (Ascii.eqb (ascii_lower_char a) "?"%char || Ascii.eqb (ascii_lower_char a) "#"%char) =
  (Ascii.eqb a "?"%char || Ascii.eqb a "#"%char).
Proof. destruct a as [[] [] [] [] [] [] [] []]; reflexivity. Qed.

Lemma strip_lower s : strip_query_fragment (to_ascii_lowercase s) = to_ascii_lowercase (strip_query_fragment s).
Proof.
  unfold strip_query_fragment. induction s as [|a s IH]; [done|]. cbn [to_ascii_lowercase].
  rewrite !split_first_cons, ascii_lower_sep, IH.
  by destruct (Ascii.eqb a "?"%char || Ascii.eqb a "#"%char).
Qed.

Lemma split_first_forall f g s : str_forall f s = true -> str_forall f (split_first g s) = true.
Proof.
  induction s as [|a s IH]; [done|]. rewrite split_first_cons. cbn. rewrite andb_true_iff.
  intros [Ha Hs]. destruct (g a); cbn; [done|]. by rewrite Ha, IH.
Qed.

(** A string without white-space bytes is its own trim. *)
Lemma trim_none s : str_exists ws_byte s = false -> trim s = s.
Proof.
  intros Hs. destruct (trim_split s) as (a & b & E & Ha & Hb).
  rewrite E in Hs. rewrite !str_exists_app in Hs.
  apply orb_false_iff in Hs as [Hsa Hs]. apply orb_false_iff in Hs as [_ Hsb].
  assert (Hnil : forall x, str_forall ws_byte x = true -> str_exists ws_byte x = false -> x = EmptyString).
  { intros [|c x]; [done|]. cbn. intros [-> _]%andb_true_iff. done. }
  rewrite (Hnil a Ha Hsa), (Hnil b Hb Hsb) in E. cbn in E. by rewrite str_app_nil_r in E.
Qed.

Lemma trim_start_matches_none c s : str_exists (Ascii.eqb c) s = false -> trim_start_matches c s = s.
Proof.
  destruct s as [|a s]; [done|]. cbn. rewrite orb_false_iff, Ascii.eqb_sym. by intros [-> _].
Qed.

Lemma str_exists_rev f s : str_exists f (str_rev s) = str_exists f s.
Proof.
  induction s as [|a s IH]; [done|]. rewrite str_rev_cons, str_exists_app, IH. cbn.
  by rewrite orb_false_r, orb_comm.
Qed.

Lemma sql_trim_none s : str_exists (Ascii.eqb " "%char) s = false -> sql_trim s = s.
Proof.
  intros Hs. unfold sql_trim, trim_end_matches. rewrite (trim_start_matches_none " " s Hs).
  rewrite trim_start_matches_none by by rewrite str_exists_rev. apply str_rev_involutive.
Qed.

Lemma str_exists_impl f g s :
  (forall a, g a = true -> f a = true) -> str_exists f s = false -> str_exists g s = false.
Proof.
  intros Hfg. induction s as [|a s IH]; cbn; [done|]. rewrite !orb_false_iff. intros [Ha Hs].
  split; [|auto]. destruct (g a) eqn:E; [|done]. rewrite (Hfg a E) in Ha. done.
Qed.

Lemma split_first_exists f g s : str_exists f s = false -> str_exists f (split_first g s) = false.
Proof.
  induction s as [|a s IH]; [done|]. rewrite split_first_cons. cbn. rewrite orb_false_iff.
  intros [Ha Hs]. destruct (g a); cbn; [done|]. by rewrite Ha, IH.
Qed.

Lemma split_first_app f a b :
  str_exists f a = false -> split_first f (a +:+ b) = a +:+ split_first f b.
Proof.
  induction a as [|x a IH]; [done|]. cbn [String.append str_exists]. rewrite orb_false_iff.
  intros [Hx Ha]. rewrite split_first_cons, Hx, IH by done. done.
Qed.

Lemma str_drop_app a c b : str_drop (String.length a + 1) (a +:+ String c b) = b.
Proof. induction a as [|x a IH]; [done|]. cbn. exact IH. Qed.

(** The ASCII instance of [to_lowercase]. *)
Definition ascii_fold : CaseFold :=
  {| to_lowercase := to_ascii_lowercase; to_lowercase_ascii s _ := eq_refl |}.

(** ** Properties *)

(** Sanitised torrents are in range.  Whatever floats and integers the
    Web API reports (NaN, infinities, negatives), a sanitised torrent has its
    progress in [0, 1], its ratio between 0 and the largest [f32], no
    negative counter, and sanitising again changes nothing. *)
Theorem sanitize_in_range t :
  let t' := sanitize t in
  SFleb f64_zero (t_progress t') = true /\ SFleb (t_progress t') f64_one = true /\
  SFleb f64_zero (t_ratio t') = true /\ SFleb (t_ratio t') f32_max_as_f64 = true /\
  Forall (fun z => 0 <= z) [t_dlspeed t'; t_upspeed t'; t_size t'; t_downloaded t'; t_num_seeds t'] /\
  sanitize t' = t'.
Proof.
  assert (Hone : forall x hi, f64_is_nan hi = false -> SFltb hi f64_zero = false ->
    let y := if f64_is_nan x then f64_zero else f64_clamp f64_zero hi x in
    SFleb f64_zero y = true /\ SFleb y hi = true /\
    (if f64_is_nan y then f64_zero else f64_clamp f64_zero hi y) = y).
  { intros x hi Hhi Hord. cbn zeta. destruct (f64_is_nan x) eqn:Ex.
    - split_and!; [done|by apply SFltb_false_leb|]. cbn. unfold f64_clamp.
      change (SFltb f64_zero f64_zero) with false. cbn iota. by rewrite Hord.
    - destruct (f64_clamp_bounds f64_zero hi x) as (Hn & H1 & H2); try done.
      rewrite Hn. split_and!; auto. by apply f64_clamp_idem. }
  destruct (Hone (t_progress t) f64_one) as (Hp1 & Hp2 & Hp3); [done..|].
  destruct (Hone (t_ratio t) f32_max_as_f64) as (Hr1 & Hr2 & Hr3); [done..|].
  cbn zeta in *. split_and!; cbn [sanitize t_progress t_ratio t_dlspeed t_upspeed t_size t_downloaded t_num_seeds]; try done.
  - repeat constructor; lia.
  - unfold sanitize at 1. cbn [sanitize t_progress t_ratio t_dlspeed t_upspeed t_size t_downloaded
      t_num_seeds t_hash t_name t_state t_category t_save_path t_content_path t_err_str].
    unfold sanitize. f_equal; try done; lia.
Qed.

(** The Rust and the SQL test for a direct download agree on every ASCII
    URL without white space. *)
Theorem direct_tests_agree `{CaseFold, SqlLower} u :
  is_ascii u = true -> str_exists ws_byte u = false ->
  is_direct_zim_url u = sql_is_zim_url u.
Proof.
  intros Ha Hw. unfold is_direct_zim_url, sql_is_zim_url, zim_url_text, sql_split_part1.
  rewrite trim_none by done. rewrite to_lowercase_ascii by done. rewrite strip_lower.
  assert (E : split_first (Ascii.eqb "#"%char) (split_first (Ascii.eqb "?"%char) u) = strip_query_fragment u).
  { rewrite split_first_two. unfold strip_query_fragment, split_first.
    assert (Hext : forall s, split_on (fun c => Ascii.eqb "?" c || Ascii.eqb "#" c) s =
      split_on (fun c => Ascii.eqb c "?" || Ascii.eqb c "#") s).
    { induction s as [|c s IH]; [done|]. cbn [split_on].
      by rewrite IH, (Ascii.eqb_sym "?" c), (Ascii.eqb_sym "#" c). }
    by rewrite Hext. }
  rewrite E, sql_trim_none.
  - rewrite sql_lower_ascii; [done|]. unfold is_ascii, strip_query_fragment in *. by apply split_first_forall.
  - apply split_first_exists. eapply str_exists_impl; [|exact Hw].
    intros a Ea. apply Ascii.eqb_eq in Ea. by subst a.
Qed.

Lemma direct_tests_agree_witness :
  @is_direct_zim_url ascii_fold "https://h/Wiki.ZIM?token=a#b" = true /\
  @is_direct_zim_url ascii_fold "https://h/Wiki.ZIM?token=a#b" =
  @sql_is_zim_url ascii_sql "https://h/Wiki.ZIM?token=a#b".
Proof. split; [reflexivity|]. apply (@direct_tests_agree ascii_fold ascii_sql); reflexivity. Defined.

(** With a space before the query the two tests part: SQL trims what is
    left after cutting the query, Rust trims first, so the row is a torrent
    for the poller loop and a direct download for its SQL filters.  (The
    comment calls the SQL text the mirror of the Rust test.) *)
Theorem direct_tests_disagree_on_space :
  @is_direct_zim_url ascii_fold "http://h/a.zim ?x" = false /\
  @sql_is_zim_url ascii_sql "http://h/a.zim ?x" = true.
Proof. split; reflexivity. Qed.

(** Redaction hides the credentials: whatever the userinfo of a URL, the
    redacted text is the same, with the host and the rest preserved. *)
Theorem redact_url_hides_userinfo scheme user host rest :
  split_once "://" (scheme +:+ "://" +:+ user +:+ "@" +:+ host +:+ rest) =
    Some (scheme, user +:+ "@" +:+ host +:+ rest) ->
  str_exists (Ascii.eqb "/"%char) user = false -> str_exists (Ascii.eqb "/"%char) host = false ->
  str_exists (Ascii.eqb "@"%char) host = false -> (rest = EmptyString \/ starts_with "/" rest = true) ->
  redact_url (scheme +:+ "://" +:+ user +:+ "@" +:+ host +:+ rest) = scheme +:+ "://***@" +:+ host +:+ rest.
Proof.
  intros Hsp Hu Hh Hat Hr. unfold redact_url. rewrite Hsp. cbn [String.append].
  assert (Ea : split_first (Ascii.eqb "/"%char) (user +:+ String "@" (host +:+ rest)) = user +:+ String "@" host).
  { rewrite split_first_app by done. f_equal. rewrite split_first_cons. cbn. f_equal.
    rewrite split_first_app by done. destruct Hr as [->|Hr]; [by rewrite str_app_nil_r|].
    apply starts_with_spec in Hr as [r ->]. cbn [String.append]. rewrite split_first_cons.
    by rewrite Ascii.eqb_refl, str_app_nil_r. }
  rewrite Ea, rfind_last by done. by rewrite str_drop_app.
Qed.

Lemma redact_url_hides_userinfo_witness :
  redact_url "http://user:p@ss@example.com/qb@x" = "http://***@example.com/qb@x".
Proof.
  apply (redact_url_hides_userinfo "http" "user:p@ss" "example.com" "/qb@x"); try reflexivity.
  right. reflexivity.
Defined.

(** A session is reported expired exactly on HTTP 401 and 403, and a
    list is returned only on a success status, with every torrent
    sanitised. *)
Theorem get_torrents_outcomes `{HttpReasons} decode reply :
  match get_torrents decode reply with
  | Ok l => exists status body raw, reply = Ok (status, body) /\ is_success status = true /\
              decode body = Ok raw /\ l = sanitize <$> raw
  | Err (Torrent SessionExpired _) => exists status body, reply = Ok (status, body) /\ (status = 401 \/ status = 403)
  | Err (Torrent Other _) => exists status body, reply = Ok (status, body) /\ is_success status = false /\
              status <> 401 /\ status <> 403
  | Err (Http e) => reply = Err e \/ exists status body, reply = Ok (status, body) /\ decode body = Err e
  | Err _ => False
  end.
Proof.
  unfold get_torrents. destruct reply as [[status body]|e]; [|by left].
  destruct (is_success status) eqn:Es; cbn [negb].
  - destruct (decode body) as [raw|e] eqn:Ed; [eauto 10|right; eauto].
  - destruct (is_auth_failure status) eqn:Ea; eexists _, _; (split; [done|]).
    + unfold is_auth_failure in Ea. apply orb_true_iff in Ea as [?%Z.eqb_eq|?%Z.eqb_eq]; auto.
    + unfold is_auth_failure in Ea. apply orb_false_iff in Ea as [?%Z.eqb_neq ?%Z.eqb_neq]. auto.
Qed.

(** The client cache serves a client only for the fingerprint it was
    built for: if every cached client belongs to its fingerprint and a build
    gives a client of the asked one, so does what [ensure] returns and
    keeps. *)
Theorem ensure_matches_fingerprint {Client} (built_for : Client -> string) fp build between cell :
  (forall fp' c, cell = Some (fp', c) -> built_for c = fp') ->
  (forall c, build = Some c -> built_for c = fp) ->
  (forall fp' c, between cell = Some (fp', c) -> built_for c = fp') ->
  let '(got, cell') := ensure fp build between cell in
  (forall c, got = Some c -> built_for c = fp) /\
  (forall fp' c, cell' = Some (fp', c) -> built_for c = fp').
Proof.
  intros Hc Hb Hbt. unfold ensure. destruct cell as [[fp' c]|].
  - destruct (String.eqb_spec fp' fp) as [->|]; [naive_solver|]. destruct build; naive_solver.
  - destruct build; naive_solver.
Qed.

Lemma ensure_matches_fingerprint_witness :
  let built_for (c : string * Z) := fst c in
  let '(got, cell') := ensure "new" (Some ("new", 2)) (fun c => c) (Some ("old", ("old", 1))) in
  got = Some ("new", 2) /\ (forall c, got = Some c -> built_for c = "new").
Proof.
  cbn. split; [reflexivity|].
  apply (ensure_matches_fingerprint (fun c : string * Z => fst c) "new" (Some ("new", 2)) (fun c => c)
    (Some ("old", ("old", 1)))); naive_solver.
Defined.

(** The fingerprint does not separate its fields: a bar moved from the
    user name to the password gives the same fingerprint, so such a change of
    credentials keeps the old client. *)
Theorem fingerprint_fields_run_together `{Crypto} u a b c p :
  qbit_fingerprint u (a +:+ "|" +:+ b) c p = qbit_fingerprint u a (b +:+ "|" +:+ c) p.
Proof.
  unfold qbit_fingerprint, fingerprint_input. by rewrite !bytes_of_app, <- !app_assoc.
Qed.

(** Speeds saturate instead of overflowing, and the ETA divides by a
    positive number; but with more bytes downloaded than the size (which
    re-downloaded pieces make possible) the stored ETA is negative. *)
Theorem speed_and_eta_bounds kibs remaining :
  in_i64 kibs -> in_i64 remaining ->
  in_i64 (kibs_to_bps kibs) /\
  match eta_secs_of remaining kibs with
  | Some e => 0 < kibs_to_bps kibs /\ in_i64 e /\ (0 <= remaining -> 0 <= e)
  | None => kibs <= 0
  end /\
  eta_secs_of (saturating_sub_i64 100 5220) 1 = Some (-5).
Proof.
  intros Hk Hr. split; [unfold kibs_to_bps; int_lia|]. split; [|reflexivity].
  unfold eta_secs_of. destruct (Z.ltb_spec 0 kibs) as [Hpos|]; [|done].
  assert (Hd : 0 < saturating_mul_i64 kibs 1024) by int_lia.
  split; [done|]. set (d := saturating_mul_i64 kibs 1024) in *.
  split; [|intros; by apply Z.quot_pos; lia].
  assert (Z.abs (Z.quot remaining d) <= Z.abs remaining).
  { rewrite <- Z.quot_abs by lia. rewrite (Z.abs_eq d) by lia.
    rewrite Z.quot_div_nonneg by lia. apply Z.div_le_upper_bound; nia. }
  unfold in_i64, i64_min, i64_max in *.
  destruct (decide (remaining = - 2 ^ 63)) as [->|]; [|lia].
  assert (Hq : Z.quot (- 2 ^ 63) d = - (2 ^ 63 / d))
    by (rewrite Z.quot_opp_l by lia; by rewrite Z.quot_div_nonneg by lia).
  rewrite Hq in *. pose proof (Z.div_pos (2 ^ 63) d). lia.
Qed.

Lemma speed_and_eta_bounds_witness :
  in_i64 (kibs_to_bps (2 ^ 62)) /\ kibs_to_bps (2 ^ 62) = i64_max.
Proof.
  split; [|reflexivity].
  apply (speed_and_eta_bounds (2 ^ 62) 10); unfold in_i64, i64_min, i64_max; lia.
Defined.
