(* ===== verification/Requeue.v ===== *)
(** * Requeue: the bounded-retry guard

    [src/torrent/poller/requeue.rs] and the re-queue pass of
    [src/torrent/poller/mod.rs].  The guard map is process memory keyed by row
    id; the tables it reads and writes are those of [Lifecycle]. *)

From S2P Require Import Prelude RustStr Errors Floats Lifecycle.

Definition REQUEUE_GIVE_UP_AFTER : Z := 3.
Definition MAX_LAST_ERROR_TRACKED : Z := 10000.
Definition GUARD_STALE_AFTER_PASSES : Z := 100.

Definition REQUEUE_ERROR_PATTERN : list string :=
  ["connect"; "timeout"; "refused"; "unreachable"; "connection"].

(** [error ~* pattern]: one of the alternatives, in any ASCII case. *)
Definition matches_requeue_pattern (msg : string) : bool :=
  existsb (fun w => contains w (to_ascii_lowercase msg)) REQUEUE_ERROR_PATTERN.

(** Splitting at characters that are not alphanumeric: Unicode's table, which
    is the ASCII one on ASCII text. *)
Class AlnumSplit := {
  alnum_tokens : string -> list string;
  alnum_tokens_ascii s :
    is_ascii s = true -> alnum_tokens s = split_on (fun a => negb (is_ascii_alnum a)) s
}.

Definition is_auth_error `{AlnumSplit} (msg : string) : bool :=
  existsb (fun code => existsb (fun tok => String.eqb tok code) (alnum_tokens msg)) ["401"; "403"].

Definition should_give_up (prev : option (string * Z)) (msg : string) (is_auth : bool) : bool :=
  if is_auth then false
  else
    match prev with
    | Some (pm, n) => String.eqb pm msg && (REQUEUE_GIVE_UP_AFTER - 1 <=? n)
    | None => false
    end.

Record GuardEntry := mkGuard { prev_msg : string; count : Z; last_seen : Z }.

Definition sweep_stale_guard_entries (pass : Z) (guard : gmap Z GuardEntry) : gmap Z GuardEntry :=
  let horizon := saturating_sub pass GUARD_STALE_AFTER_PASSES in
  filter (fun kv => ~ last_seen (snd kv) < horizon) guard.

Inductive RequeueDecision := Requeue | GiveUp.

#[global] Instance RequeueDecision_eq_dec : EqDecision RequeueDecision.
Proof. solve_decision. Defined.

Definition requeue_guard_step `{AlnumSplit} (id : Z) (msg : string) (pass : Z)
    (guard : gmap Z GuardEntry) : RequeueDecision * gmap Z GuardEntry :=
  let is_auth := is_auth_error msg in
  let prev := (fun e => (prev_msg e, count e)) <$> guard !! id in
  if should_give_up prev msg is_auth then
    (GiveUp,
     match guard !! id with
     | Some e => <[id := mkGuard (prev_msg e) (count e) pass]> guard
     | None => guard
     end)
  else
    let n :=
      match prev with
      | Some (m, n) => if String.eqb m msg then (n + 1) mod 2 ^ 32 else 1
      | None => 1
      end in
    let entry := mkGuard msg n pass in
    let guard' :=
      match guard !! id with
      | Some _ => <[id := entry]> guard
      | None =>
          if MAX_LAST_ERROR_TRACKED <=? map_len guard then
            let swept := sweep_stale_guard_entries pass guard in
            if map_len swept <? MAX_LAST_ERROR_TRACKED then <[id := entry]> swept else swept
          else <[id := entry]> guard
      end in
    (Requeue, guard').

(** ** The name-collision filter *)

Abbreviation StaleRow := (Z * string * string)%type.

Definition row_id (r : StaleRow) : Z := fst (fst r).
Definition row_name (r : StaleRow) : string := snd (fst r).
Definition row_error (r : StaleRow) : string := snd r.

Definition best_step (active_names : gset string) (best : gmap string Z) (r : StaleRow) : gmap string Z :=
  if bool_decide (row_name r ∈ active_names) then best
  else
    match best !! row_name r with
    | Some prev => <[row_name r := Z.max prev (row_id r)]> best
    | None => <[row_name r := row_id r]> best
    end.

Definition filter_requeue_name_collisions (stale : list StaleRow) (active_names : gset string) :
    list StaleRow :=
  let best := foldl (best_step active_names) ∅ stale in
  List.filter (fun r => bool_decide (best !! row_name r = Some (row_id r))) stale.

(** ** The pass ([DownloadPoller::requeue_stale_errors]) *)

Definition TEN_MINUTES : Z := 10 * 60 * 1000000.

Definition is_stale_row (now : Z) (_ : Z) (r : Row) : bool :=
  bool_decide (status r = StError) && (updated_at r <? now - TEN_MINUTES) &&
  match error r with Some m => matches_requeue_pattern m | None => false end.

Definition select_stale (db : Db) : list StaleRow :=
  (fun kv => (fst kv, name (snd kv), default EmptyString (error (snd kv)))) <$>
  select (is_stale_row (clock db)) db.

Definition select_active_names (db : Db) : gset string :=
  list_to_set ((fun kv => name (snd kv)) <$>
    select (fun _ r => status_in (status r) [Queued; Downloading]) db).

(** The guard loop over the candidates: the ids to re-queue. *)
Fixpoint guard_pass `{AlnumSplit} (pass : Z) (cands : list StaleRow) (guard : gmap Z GuardEntry) :
    list Z * gmap Z GuardEntry :=
  match cands with
  | [] => ([], guard)
  | r :: cands' =>
      let '(d, guard1) := requeue_guard_step (row_id r) (row_error r) pass guard in
      let '(ids, guard2) := guard_pass pass cands' guard1 in
      (match d with Requeue => row_id r :: ids | GiveUp => ids end, guard2)
  end.

Record PollerGuard := mkPG { passes : Z; last_error : gmap Z GuardEntry }.

(** The three statements with what other sessions do between them. *)
Definition requeue_pass `{AlnumSplit} (f1 f2 f3 : Fault) (between1 between2 : Db -> Db)
    (pg : PollerGuard) (db : Db) : Result unit * PollerGuard * Db :=
  let pass := (passes pg + 1) mod 2 ^ 64 in
  let pg := mkPG pass (last_error pg) in
  match query f1 select_stale db with
  | Err e => (Err e, pg, db)
  | Ok [] => (Ok tt, pg, db)
  | Ok stale =>
      let db1 := between1 db in
      match query f2 select_active_names db1 with
      | Err e => (Err e, pg, db1)
      | Ok active =>
          match filter_requeue_name_collisions stale active with
          | [] => (Ok tt, pg, db1)
          | cands =>
              let '(ids, guard) := guard_pass pass cands (last_error pg) in
              let pg := mkPG pass guard in
              match ids with
              | [] => (Ok tt, pg, db1)
              | _ =>
                  match requeue_stale_errors f3 ids (between2 db1) with
                  | (Ok _, db2) => (Ok tt, pg, db2)
                  | (Err e, db2) => (Err e, pg, db2)
                  end
              end
          end
      end
  end.

(** ** Lemmas *)

Section Guard.
Context `{AlnumSplit}.

Lemma sweep_subseteq pass guard : sweep_stale_guard_entries pass guard ⊆ guard.
Proof. apply map_filter_subseteq. Qed.

(** A step of another row leaves the entry alone while there is room. *)
Lemma step_other id id' msg pass guard :
  id <> id' -> map_len guard < MAX_LAST_ERROR_TRACKED ->
  snd (requeue_guard_step id' msg pass guard) !! id = guard !! id.
Proof.
  intros Hne Hroom. unfold requeue_guard_step.
  destruct (Z.leb_spec MAX_LAST_ERROR_TRACKED (map_len guard)); [lia|].
  repeat case_match; cbn; rewrite ?lookup_insert_ne by done; done.
Qed.

(** Own steps with one non-auth message: the count, then the give-up. *)
Lemma step_own id msg pass guard :
  is_auth_error msg = false -> map_len guard < MAX_LAST_ERROR_TRACKED ->
  let seen := match guard !! id with
              | Some e => if String.eqb (prev_msg e) msg then count e else 0
              | None => 0 end in
  0 <= seen < 2 ^ 32 - 1 ->
  fst (requeue_guard_step id msg pass guard) = (if 2 <=? seen then GiveUp else Requeue) /\
  exists e', snd (requeue_guard_step id msg pass guard) !! id = Some e' /\ prev_msg e' = msg /\
    count e' = if 2 <=? seen then seen else seen + 1.
Proof.
  intros Hauth Hroom. cbn zeta. unfold requeue_guard_step, should_give_up, REQUEUE_GIVE_UP_AFTER.
  rewrite Hauth. destruct (Z.leb_spec MAX_LAST_ERROR_TRACKED (map_len guard)); [lia|].
  destruct (guard !! id) as [[pm n l]|]; cbn [fmap option_fmap option_map prev_msg count fst snd].
  - destruct (String.eqb_spec pm msg) as [->|]; cbn [andb].
    + intros Hn. change (3 - 1) with 2. destruct (Z.leb_spec 2 n); cbn [fst snd]; (split; [done|]).
      * rewrite lookup_insert_eq. eexists. split_and!; done.
      * rewrite lookup_insert_eq. eexists. split_and!; [done..|]. cbn. rewrite Z.mod_small; lia.
    + intros _. cbn. split; [done|]. rewrite lookup_insert_eq. eexists. split_and!; done.
  - intros _. cbn. split; [done|]. rewrite lookup_insert_eq. eexists. split_and!; done.
Qed.

Lemma step_len id msg pass guard :
  map_len guard <= MAX_LAST_ERROR_TRACKED ->
  map_len (snd (requeue_guard_step id msg pass guard)) <= MAX_LAST_ERROR_TRACKED.
Proof.
  intros Hl. unfold requeue_guard_step.
  assert (Hins : forall (g : gmap Z GuardEntry) e e', g !! id = Some e -> map_len (<[id := e']> g) = map_len g).
  { intros g e e' He. unfold map_len. by rewrite map_size_insert_Some by eauto. }
  assert (Hsw : map_len (sweep_stale_guard_entries pass guard) <= map_len guard).
  { unfold map_len. apply inj_le, map_subseteq_size, sweep_subseteq. }
  destruct (should_give_up _ _ _); cbn [snd].
  - destruct (guard !! id) eqn:E; [|done]. by erewrite Hins.
  - destruct (guard !! id) eqn:E; [by erewrite Hins|].
    destruct (Z.leb_spec MAX_LAST_ERROR_TRACKED (map_len guard)).
    + case_match eqn:Ec; [|lia]. apply Z.ltb_lt in Ec.
      match goal with |- map_len (<[_ := ?e]> ?g) <= _ => pose proof (map_len_insert g id e) end. lia.
    + match goal with |- map_len (<[_ := ?e]> ?g) <= _ => pose proof (map_len_insert g id e) end. lia.
Qed.

Lemma guard_step_dom id msg pass guard :
  dom (snd (requeue_guard_step id msg pass guard)) ⊆ {[id]} ∪ dom guard.
Proof.
  unfold requeue_guard_step.
  assert (dom (sweep_stale_guard_entries pass guard) ⊆ dom guard) by apply subseteq_dom, sweep_subseteq.
  repeat case_match; cbn [snd]; set_solver.
Qed.

End Guard.

(** ** Histories of observations *)

Section History.
Context `{AlnumSplit}.

(** Error rows observed one after the other: row id, message, pass. *)
Fixpoint run_guard (tr : list (Z * string * Z)) (guard : gmap Z GuardEntry) :
    list (Z * RequeueDecision) * gmap Z GuardEntry :=
  match tr with
  | [] => ([], guard)
  | (i, m, p) :: tr' =>
      let '(d, guard1) := requeue_guard_step i m p guard in
      let '(ds, guard2) := run_guard tr' guard1 in
      ((i, d) :: ds, guard2)
  end.

Definition decisions_of (id : Z) (ds : list (Z * RequeueDecision)) : list RequeueDecision :=
  snd <$> List.filter (fun x => fst x =? id) ds.

Definition observations_of (id : Z) (tr : list (Z * string * Z)) : list (Z * string * Z) :=
  List.filter (fun x => fst (fst x) =? id) tr.

Fixpoint expected (seen : Z) (k : nat) : list RequeueDecision :=
  match k with
  | O => []
  | S k' => if 2 <=? seen then GiveUp :: expected seen k' else Requeue :: expected (seen + 1) k'
  end.

Lemma expected_give_up seen k : 2 <= seen -> expected seen k = replicate k GiveUp.
Proof.
  intros Hs. induction k as [|k IH]; cbn [expected replicate]; [done|].
  destruct (Z.leb_spec 2 seen); [by rewrite IH|lia].
Qed.

Lemma expected_from_zero k : expected 0 k = take k (Requeue :: Requeue :: replicate k GiveUp).
Proof.
  destruct k as [|[|k]]; [done..|].
  change (expected 0 (S (S k))) with (Requeue :: Requeue :: expected 2 k).
  rewrite expected_give_up by lia. cbn [take]. do 2 f_equal. rewrite take_replicate. f_equal. lia.
Qed.

Lemma run_guard_expected id msg tr : forall guard,
  is_auth_error msg = false ->
  Forall (fun x => fst (fst x) = id -> snd (fst x) = msg) tr ->
  Z.of_nat (size (list_to_set (fst ∘ fst <$> tr) ∪ dom guard : gset Z)) < MAX_LAST_ERROR_TRACKED ->
  let seen := match guard !! id with
              | Some e => if String.eqb (prev_msg e) msg then count e else 0
              | None => 0 end in
  0 <= seen -> seen + Z.of_nat (length tr) < 2 ^ 32 - 1 ->
  decisions_of id (fst (run_guard tr guard)) = expected seen (length (observations_of id tr)).
Proof.
  intros guard Hauth. revert guard. induction tr as [|[[i m] p] tr IH]; intros guard Hall Hsize; cbn zeta; [done|].
  intros Hseen Hlen. apply Forall_cons in Hall as [Hm Hall]. cbn [fst snd] in Hm.
  assert (Hroom : map_len guard < MAX_LAST_ERROR_TRACKED).
  { unfold map_len. rewrite <- (size_dom (D := gset Z)).
    eapply Z.le_lt_trans; [|exact Hsize]. apply inj_le, subseteq_size. set_solver. }
  pose proof (guard_step_dom i m p guard) as Hd. cbn [run_guard].
  pose proof (step_other id i m p guard) as Hoth. pose proof (step_own id m p guard) as Hown.
  destruct (requeue_guard_step i m p guard) as [d g1] eqn:Es. cbn [fst snd] in Hd, Hoth.
  assert (Hsize1 : Z.of_nat (size (list_to_set (fst ∘ fst <$> tr) ∪ dom g1 : gset Z)) < MAX_LAST_ERROR_TRACKED).
  { eapply Z.le_lt_trans; [|exact Hsize]. apply inj_le, subseteq_size. cbn. set_solver. }
  specialize (IH g1 Hall Hsize1). cbn zeta in IH.
  destruct (run_guard tr g1) as [ds g2]. cbn [fst] in *. unfold decisions_of, observations_of in *.
  cbn [List.filter fst length].
  destruct (Z.eqb_spec i id) as [->|Hne].
  - rewrite (Hm eq_refl) in *. rewrite Es in Hown. cbn [fst snd] in Hown. cbn [length] in Hlen.
    destruct (Hown Hauth Hroom) as (Hdec & e' & He' & Hpm & Hcnt); [lia|].
    rewrite He' in IH. rewrite Hpm, String.eqb_refl in IH. cbn [fmap list_fmap snd length expected].
    destruct (2 <=? _) eqn:E2; rewrite Hcnt in IH; rewrite IH by lia; by rewrite Hdec.
  - rewrite Hoth in IH by done. cbn [length] in Hlen. apply IH; lia.
Qed.

End History.

(** ** Lemmas: the filter *)

Lemma best_fold_spec active l : forall best n,
  foldl (best_step active) best l !! n =
  if bool_decide (n ∈ active) then best !! n
  else foldl (fun acc r => if String.eqb (row_name r) n
                           then Some (match acc with Some p => Z.max p (row_id r) | None => row_id r end)
                           else acc) (best !! n) l.
Proof.
  induction l as [|r l IH]; intros best n; cbn [foldl]; [by case_bool_decide|].
  rewrite IH. unfold best_step. case_bool_decide as Hn.
  - case_bool_decide; [done|]. assert (row_name r <> n) by congruence.
    case_match; by rewrite lookup_insert_ne.
  - destruct (String.eqb_spec (row_name r) n) as [<-|Hne].
    + rewrite bool_decide_eq_false_2 by done. f_equal. case_match; by rewrite lookup_insert_eq.
    + case_bool_decide; [done|]. f_equal. case_match; by rewrite lookup_insert_ne.
Qed.

(** The fold over the ids of one name is their maximum. *)
Lemma max_fold_spec n l : forall acc m,
  foldl (fun acc r => if String.eqb (row_name r) n
                      then Some (match acc with Some p => Z.max p (row_id r) | None => row_id r end)
                      else acc) acc l = Some m ->
  (forall r, r ∈ l -> row_name r = n -> row_id r <= m) /\
  (forall p, acc = Some p -> p <= m) /\
  (acc = Some m \/ exists r, r ∈ l /\ row_name r = n /\ row_id r = m).
Proof.
  induction l as [|r l IH]; intros acc m; cbn [foldl].
  - intros ->. split_and!; [set_solver|naive_solver lia|by left].
  - intros (Hall & Hacc & Hwho)%IH. destruct (String.eqb_spec (row_name r) n) as [Hn|Hn].
    + assert (Hr : row_id r <= m /\ forall p, acc = Some p -> p <= m).
      { destruct acc as [p|]; specialize (Hacc _ eq_refl); split; [lia|naive_solver lia|lia|done]. }
      destruct Hr as [Hr Hp]. split_and!; [|done|].
      * intros r' Hin. rewrite elem_of_cons in Hin. destruct Hin as [->|]; auto.
      * destruct Hwho as [Hw|(r' & Hin & Hn' & Hid)]; [|right; exists r'; set_solver].
        destruct acc as [p|].
        -- injection Hw as Hw. destruct (Z.max_spec p (row_id r)) as [[? E]|[? E]]; rewrite E in Hw.
           ++ right. exists r. split_and!; [set_solver|done|done].
           ++ left. by f_equal.
        -- injection Hw as Hw. right. exists r. split_and!; [set_solver|done|done].
    + split_and!; [|done|].
      * intros r' Hin. rewrite elem_of_cons in Hin. destruct Hin as [->|]; [done|auto].
      * destruct Hwho as [|(r' & Hin & Hn' & Hid)]; [by left|right; exists r'; set_solver].
Qed.

Lemma max_fold_some n l : forall acc,
  is_Some acc \/ (exists r, r ∈ l /\ row_name r = n) ->
  is_Some (foldl (fun acc r => if String.eqb (row_name r) n
                      then Some (match acc with Some p => Z.max p (row_id r) | None => row_id r end)
                      else acc) acc l).
Proof.
  induction l as [|r l IH]; intros acc; cbn [foldl]; [intros [|(r & Hin & _)]; [done|set_solver]|].
  intros Hex. apply IH. destruct (String.eqb_spec (row_name r) n); [by left|].
  destruct Hex as [|(r' & Hin & Hn)]; [by left|]. right. exists r'. set_solver.
Qed.

(** A kept row is the newest of its name, and its name is free. *)
Lemma filter_kept stale active r :
  r ∈ filter_requeue_name_collisions stale active ->
  r ∈ stale /\ (row_name r ∉ active) /\
  forall r', r' ∈ stale -> row_name r' = row_name r -> row_id r' <= row_id r.
Proof.
  unfold filter_requeue_name_collisions. rewrite elem_of_filter_bool, bool_decide_eq_true.
  rewrite best_fold_spec, lookup_empty. case_bool_decide as Ha; [naive_solver|].
  intros [(Hall & _ & _)%max_fold_spec Hin]. auto.
Qed.

Lemma filter_names_nodup stale active :
  NoDup (row_id <$> stale) -> NoDup (row_name <$> filter_requeue_name_collisions stale active).
Proof.
  intros Hnd. pose proof (NoDup_fmap_1 _ _ Hnd) as Hst.
  pose proof (proj1 (NoDup_fmap_on row_id stale Hst) Hnd) as Hinj.
  apply NoDup_fmap_on; [by apply NoDup_filter_bool|].
  intros x y (Hx & _ & Hmx)%filter_kept (Hy & _ & Hmy)%filter_kept Hxy.
  apply Hinj; [done..|]. pose proof (Hmx y Hy (eq_sym Hxy)). pose proof (Hmy x Hx Hxy). lia.
Qed.

(** ** Lemmas: the pass against the table *)

Lemma elem_of_stale db r :
  r ∈ select_stale db <->
  exists row, rows db !! row_id r = Some row /\ is_stale_row (clock db) (row_id r) row = true /\
    row_name r = name row /\ row_error r = default EmptyString (error row).
Proof.
  unfold select_stale. rewrite list_elem_of_fmap. split.
  - intros ([i row] & -> & [Hi Hs]%elem_of_select). exists row. auto.
  - intros (row & Hi & Hs & Hn & He). exists (row_id r, row). rewrite elem_of_select. split; [|done].
    destruct r as [[i n] e]. unfold row_id, row_name, row_error in *. cbn in *. by subst.
Qed.

Lemma stale_ids_nodup db : NoDup (row_id <$> select_stale db).
Proof.
  unfold select_stale. rewrite <- list_fmap_compose. apply NoDup_fmap_on.
  - apply NoDup_filter_bool, NoDup_map_to_list.
  - intros [i r] [j r'] [Hi _]%elem_of_select [Hj _]%elem_of_select. cbn. unfold row_id. cbn.
    intros ->. congruence.
Qed.

Lemma elem_of_active_names db n :
  n ∈ select_active_names db <-> exists i r, rows db !! i = Some r /\ is_active (status r) = true /\ name r = n.
Proof.
  unfold select_active_names. rewrite elem_of_list_to_set, list_elem_of_fmap. split.
  - intros ([i r] & -> & [Hi Hs]%elem_of_select). eauto.
  - intros (i & r & Hi & Ha & <-). exists (i, r). by rewrite elem_of_select.
Qed.

Lemma guard_pass_ids `{AlnumSplit} pass cands : forall guard id,
  id ∈ fst (guard_pass pass cands guard) -> id ∈ row_id <$> cands.
Proof.
  induction cands as [|r cands IH]; intros guard id; cbn; [set_solver|].
  destruct (requeue_guard_step _ _ _ _) as [d g1]. specialize (IH g1 id).
  destruct (guard_pass pass cands g1) as [ids g2]. cbn in *.
  destruct d; rewrite ?elem_of_cons; naive_solver.
Qed.

(** Re-queueing filtered rows keeps the names of active rows unique. *)
Lemma requeue_names_unique db (ids : list Z) :
  db_inv db ->
  (forall id, id ∈ ids -> id ∈ row_id <$> filter_requeue_name_collisions (select_stale db) (select_active_names db)) ->
  names_unique (map_imap (fun i r => Some (if bool_decide (i ∈ ids) && bool_decide (status r = StError)
    then touching (fun r => set_error None (set_status Queued r)) db r else r)) (rows db)) = true.
Proof.
  intros [Hu _] Hids. unfold names_unique. apply bool_decide_eq_true_2, key_unique_iff.
  set (kept := filter_requeue_name_collisions _ _) in *.
  assert (Hback : forall i r', map_imap (fun i r => Some (if bool_decide (i ∈ ids) && bool_decide (status r = StError)
      then touching (fun r => set_error None (set_status Queued r)) db r else r)) (rows db) !! i = Some r' ->
    is_active (status r') = true ->
    (rows db !! i = Some r') \/ exists k, k ∈ kept /\ row_id k = i /\ row_name k = name r').
  { intros i r'. rewrite map_lookup_imap. destruct (rows db !! i) as [r|] eqn:Er; [|done].
    cbn [mbind option_bind]. intros [= <-].
    destruct (bool_decide (i ∈ ids) && bool_decide (status r = StError)) eqn:Eg; [|by left].
    intros _. right. apply andb_prop in Eg as [Hi _]. apply bool_decide_eq_true in Hi.
    apply Hids, list_elem_of_fmap in Hi as (k & -> & Hk). exists k. split_and!; [done..|].
    apply filter_kept in Hk as (Hst & _). apply elem_of_stale in Hst as (row & Hrow & _ & Hn & _).
    rewrite Er in Hrow. simplify_eq. by rewrite Hn. }
  intros i j r r' Hi Hj Ha Ha' Hn.
  destruct (Hback _ _ Hi Ha) as [Hi'|(k & Hk & Hki & Hkn)], (Hback _ _ Hj Ha') as [Hj'|(k' & Hk' & Hkj & Hkn')].
  - eapply Hu; eauto.
  - apply filter_kept in Hk' as (_ & Hna & _). destruct Hna. apply elem_of_active_names. exists i, r.
    split_and!; [done..|congruence].
  - apply filter_kept in Hk as (_ & Hna & _). destruct Hna. apply elem_of_active_names. exists j, r'.
    split_and!; [done..|congruence].
  - pose proof (filter_names_nodup _ (select_active_names db) (stale_ids_nodup db)) as Hnd. fold kept in Hnd.
    rewrite NoDup_fmap_on in Hnd by by eapply NoDup_fmap_1.
    assert (k = k') by (apply Hnd; [done..|congruence]). congruence.
Qed.

(** The ASCII instance of [AlnumSplit]. *)
Definition ascii_alnum : AlnumSplit :=
  {| alnum_tokens := split_on (fun a => negb (is_ascii_alnum a)); alnum_tokens_ascii s _ := eq_refl |}.

(** ** Properties *)

(** Retries are bounded and giving up is sticky.  However the passes
    interleave a row with other rows (fewer than 10,000 of them in all), a
    row that keeps failing with the same message, not an authentication one,
    is re-queued twice and left alone from the third observation on. *)
Theorem bounded_retry `{AlnumSplit} id msg tr :
  is_auth_error msg = false ->
  Forall (fun x => fst (fst x) = id -> snd (fst x) = msg) tr ->
  Z.of_nat (size (list_to_set (fst ∘ fst <$> tr) : gset Z)) < MAX_LAST_ERROR_TRACKED ->
  Z.of_nat (length tr) < 2 ^ 32 - 1 ->
  let k := length (observations_of id tr) in
  decisions_of id (fst (run_guard tr ∅)) = take k (Requeue :: Requeue :: replicate k GiveUp).
Proof.
  intros Hauth Hall Hsize Hlen. cbn zeta. rewrite <- expected_from_zero.
  rewrite (run_guard_expected id msg tr ∅); try done; rewrite ?lookup_empty; try lia.
  by rewrite dom_empty_L, union_empty_r_L.
Qed.

Lemma bounded_retry_witness :
  let tr := [(7, "connection refused: port 40152", 1); (8, "timeout", 1); (7, "connection refused: port 40152", 2);
             (7, "connection refused: port 40152", 3); (7, "connection refused: port 40152", 4)] in
  decisions_of 7 (fst (@run_guard ascii_alnum tr ∅)) = [Requeue; Requeue; GiveUp; GiveUp].
Proof.
  apply (@bounded_retry ascii_alnum 7 "connection refused: port 40152"
    [(7, "connection refused: port 40152", 1); (8, "timeout", 1); (7, "connection refused: port 40152", 2);
     (7, "connection refused: port 40152", 3); (7, "connection refused: port 40152", 4)]).
  - reflexivity.
  - repeat constructor; cbn; congruence.
  - vm_compute. reflexivity.
  - vm_compute. reflexivity.
Defined.

(** Session expiry is exempt and memory is bounded: a 401 or 403 message
    is always re-queued, no step takes the guard above 10,000 entries, and
    what a full guard sweeps was not seen for more than 100 passes. *)
Theorem guard_exempts_auth_and_is_bounded `{AlnumSplit} id msg pass guard :
  map_len guard <= MAX_LAST_ERROR_TRACKED ->
  let '(d, guard') := requeue_guard_step id msg pass guard in
  (is_auth_error msg = true -> d = Requeue) /\ map_len guard' <= MAX_LAST_ERROR_TRACKED /\
  forall i e, guard !! i = Some e -> guard' !! i = None ->
    last_seen e < saturating_sub pass GUARD_STALE_AFTER_PASSES.
Proof.
  intros Hl. pose proof (step_len id msg pass guard Hl) as Hl'.
  destruct (requeue_guard_step id msg pass guard) as [d guard'] eqn:E. cbn [snd] in Hl'.
  split_and!; [|done|].
  - unfold requeue_guard_step, should_give_up in E. intros Ha. rewrite Ha in E. by simplify_eq.
  - intros i e Hi Hn. unfold requeue_guard_step in E.
    assert (Hsw : sweep_stale_guard_entries pass guard !! i = None ->
      last_seen e < saturating_sub pass GUARD_STALE_AFTER_PASSES).
    { unfold sweep_stale_guard_entries. rewrite map_lookup_filter_None. intros [|Hf]; [congruence|].
      specialize (Hf e Hi). cbn in Hf.
      destruct (decide (last_seen e < saturating_sub pass GUARD_STALE_AFTER_PASSES)); tauto. }
    repeat case_match; simplify_eq; try congruence;
      repeat match goal with H : <[_ := _]> _ !! _ = None |- _ => apply lookup_insert_None in H as [? ?] end;
      solve [congruence | auto].
Qed.

Lemma guard_exempts_auth_and_is_bounded_witness :
  fst (@requeue_guard_step ascii_alnum 1 "HTTP 401 Unauthorized" 9
         {[ 1 := mkGuard "HTTP 401 Unauthorized" 8 8 ]}) = Requeue.
Proof.
  assert (Hb : map_len ({[ 1 := mkGuard "HTTP 401 Unauthorized" 8 8 ]} : gmap Z GuardEntry) <= MAX_LAST_ERROR_TRACKED)
    by (vm_compute; discriminate).
  pose proof (@guard_exempts_auth_and_is_bounded ascii_alnum 1 "HTTP 401 Unauthorized" 9
    {[ 1 := mkGuard "HTTP 401 Unauthorized" 8 8 ]} Hb) as Hg.
  destruct (requeue_guard_step _ _ _ _) as [d g]. apply (proj1 Hg). reflexivity.
Defined.

(** The collision filter keeps one row per free name: every kept row is
    one of the batch whose name no active row has and which is the newest of
    its name, no two kept rows share a name, and every free name of the batch
    keeps a row. *)
Theorem filter_one_row_per_name stale active :
  NoDup (row_id <$> stale) ->
  let kept := filter_requeue_name_collisions stale active in
  (forall r, r ∈ kept -> r ∈ stale /\ (row_name r ∉ active) /\
     forall r', r' ∈ stale -> row_name r' = row_name r -> row_id r' <= row_id r) /\
  NoDup (row_name <$> kept) /\
  (forall r, r ∈ stale -> row_name r ∉ active -> exists r', r' ∈ kept /\ row_name r' = row_name r).
Proof.
  intros Hnd. cbn zeta. split_and!; [apply filter_kept|by apply filter_names_nodup|].
  intros r Hr Ha.
  assert (Hs : is_Some (foldl (best_step active) ∅ stale !! row_name r)).
  { rewrite best_fold_spec, bool_decide_eq_false_2 by done. apply max_fold_some. right. eauto. }
  destruct Hs as [m Hm]. pose proof Hm as Hm'.
  rewrite best_fold_spec, bool_decide_eq_false_2 in Hm' by done.
  apply max_fold_spec in Hm' as (_ & _ & [Hw|(r' & Hin & Hn & Hid)]); [by rewrite lookup_empty in Hw|].
  exists r'. split; [|done]. unfold filter_requeue_name_collisions. apply elem_of_filter_bool. split; [|done].
  apply bool_decide_eq_true. by rewrite Hn, Hm, Hid.
Qed.

Lemma filter_one_row_per_name_witness :
  NoDup (row_name <$> filter_requeue_name_collisions
    [(1, "a", "timeout"); (2, "b", "timeout"); (3, "a", "timeout")] {[ "b" ]}) /\
  filter_requeue_name_collisions [(1, "a", "timeout"); (2, "b", "timeout"); (3, "a", "timeout")] {[ "b" ]} =
    [(3, "a", "timeout")].
Proof.
  split; [|vm_compute; reflexivity].
  apply (filter_one_row_per_name [(1, "a", "timeout"); (2, "b", "timeout"); (3, "a", "timeout")] {[ "b" ]}).
  apply (bool_decide_unpack _). vm_compute. exact I.
Defined.

(** An undisturbed pass never trips the name index: the only index error
    it can meet is the one on URLs, which the filter does not look at. *)
Theorem requeue_pass_name_safe `{AlnumSplit} pg db e pg' db' :
  db_inv db ->
  requeue_pass NoFault NoFault NoFault (fun db => db) (fun db => db) pg db = (Err e, pg', db') ->
  e = unique_violation "idx_downloads_active_url" /\ db' = db.
Proof.
  intros Hinv. unfold requeue_pass, query. destruct (select_stale db) as [|s0 stale] eqn:Es; [done|].
  rewrite <- Es. destruct (filter_requeue_name_collisions _ _) as [|c0 cands] eqn:Ec; [done|].
  pose proof (guard_pass_ids ((passes pg + 1) mod 2 ^ 64) (c0 :: cands) (last_error pg)) as Hids.
  cbn [last_error passes] in *.
  destruct (guard_pass _ (c0 :: cands) (last_error pg)) as [ids guard] eqn:Eg. cbn [fst] in Hids.
  destruct ids as [|id0 ids]; [done|].
  pose proof (requeue_names_unique db (id0 :: ids) Hinv) as Hn. rewrite Ec in Hn. specialize (Hn Hids).
  unfold requeue_stale_errors, execute, run_stmt, update_where, check_unique.
  destruct (urls_unique _) eqn:Eu; cbn [negb].
  - rewrite Hn. cbn. done.
  - intros [= <- <- <-]. done.
Qed.

(** Row 2 failed under its own name while row 1 is downloading its URL. *)
Definition url_clash : Db :=
  mkDb (list_to_map
    [(1, fresh_row "a" "http://h/x" None Downloading f32_zero 0);
     (2, set_error (Some "connect timeout") (fresh_row "b" "http://h/x" None StError f32_zero 0));
     (3, set_error (Some "connect timeout") (fresh_row "c" "http://h/y" None StError f32_zero 0))]) 4 (20 * 60 * 1000000).

Lemma requeue_pass_name_safe_witness :
  snd (@requeue_pass ascii_alnum NoFault NoFault NoFault (fun db => db) (fun db => db) (mkPG 0 ∅) url_clash) = url_clash.
Proof.
  eapply (@requeue_pass_name_safe ascii_alnum (mkPG 0 ∅) url_clash
    (unique_violation "idx_downloads_active_url")
    (snd (fst (@requeue_pass ascii_alnum NoFault NoFault NoFault (fun db => db) (fun db => db) (mkPG 0 ∅) url_clash)))).
  - split; [apply check_unique_none; vm_compute; reflexivity|].
    intros i r Hi. destruct (decide (i < next_id url_clash)) as [|Hge]; [done|].
    cbn in Hge. assert (Hn : rows url_clash !! i = None); [|congruence].
    cbn. rewrite !lookup_insert_ne by lia. apply lookup_empty.
  - vm_compute. reflexivity.
Defined.

(** A failed row whose URL is active under another name blocks the pass:
    the re-queue statement is refused by the URL index, its error aborts the
    tick, and an unrelated failed row of the batch is not re-queued either.
    (The comments say the filter keeps the statement from ever seeing a
    collision.) *)
Theorem url_clash_blocks_requeue :
  let '(res, _, db') :=
    @requeue_pass ascii_alnum NoFault NoFault NoFault (fun db => db) (fun db => db) (mkPG 0 ∅) url_clash in
  res = Err (unique_violation "idx_downloads_active_url") /\
  status <$> rows db' !! 3 = Some StError.
Proof. vm_compute. split; reflexivity. Qed.
