(* ===== verification/Files.v ===== *)
(** * Files: names, paths and installing archives

    [src/torrent/files.rs].  Paths are texts with [std::path] semantics for
    the operations in use; a directory tree is [Entry] (what [read_dir]
    shows, in its order), the flat file system of an installation a map from
    paths to files.  The operating system's answers to one installation are
    the record [InstallEnv]; the ZIM parser is not under the sources. *)

From stdpp Require Import sorting.
From S2P Require Import Prelude RustStr Errors.

#[local] Set Warnings "-register-all".

(** ** Paths *)

Definition slash : ascii -> bool := Ascii.eqb "/"%char.

(** The normal components: empty and [.] segments vanish. *)
Definition components (p : string) : list string :=
  List.filter (fun c => negb (str_is_empty c) && negb (String.eqb c ".")) (split_on slash p).

Definition file_name (p : string) : option string :=
  match last (components p) with
  | Some c => if String.eqb c ".." then None else Some c
  | None => None
  end.

(** Split a file name around its last dot, if that is not its first byte. *)
Definition split_extension (f : string) : string * option string :=
  match rfind "."%char f with
  | Some (S i) => (str_take (S i) f, Some (str_drop (S (S i)) f))
  | _ => (f, None)
  end.

Definition path_extension (p : string) : option string :=
  file_name p ≫= (fun f => snd (split_extension f)).

(** [dir.join(name)] for a relative name. *)
Definition path_join (dir name : string) : string :=
  if str_is_empty dir then name
  else if ends_with "/" dir then dir +:+ name else dir +:+ "/" +:+ name.

(** [dir.join(file).with_extension(ext)]. *)
Definition join_with_extension (dir file ext : string) : string :=
  path_join dir (fst (split_extension file) +:+ "." +:+ ext).

Definition is_zim_path (p : string) : bool :=
  match path_extension p with
  | Some e => eq_ignore_ascii_case e "zim"
  | None => false
  end.

(** The order of [PathBuf]: componentwise. *)
Fixpoint components_leb (a b : list string) : bool :=
  match a, b with
  | [], _ => true
  | _ :: _, [] => false
  | x :: a', y :: b' =>
      match String.compare x y with
      | Lt => true
      | Eq => components_leb a' b'
      | Gt => false
      end
  end.

Definition path_le (a b : string) : Prop := components_leb (components a) (components b) = true.

#[global] Instance path_le_dec a b : Decision (path_le a b).
Proof. unfold path_le. apply _. Defined.

(** ** Finding archives *)

Inductive Entry :=
| FileE
| DirE (children : list (string * Entry)).

(** [walk]: [out] grows in traversal order; a directory below [max_depth] or
    a full [out] ends the descent. *)
Fixpoint walk (e : Entry) (path : string) (depth max_depth cap : nat) (out : list string) : list string :=
  match e with
  | FileE => out
  | DirE children =>
      if (cap <=? length out)%nat || (max_depth <? depth)%nat then out
      else
        (fix go (cs : list (string * Entry)) (out : list string) : list string :=
           match cs with
           | [] => out
           | (n, c) :: cs' =>
               if (cap <=? length out)%nat then out
               else
                 let p := path_join path n in
                 let out' :=
                   match c with
                   | DirE _ => walk c p (S depth) max_depth cap out
                   | FileE => if is_zim_path p then out ++ [p] else out
                   end in
                 go cs' out'
           end) children out
  end.

Definition find_zim_files (root : Entry) (path : string) (max_files : nat) : list string :=
  merge_sort path_le (walk root path 0 8 max_files []).

Definition locate_torrent_zim (root : Entry) (path : string) : Result string :=
  match root with
  | FileE =>
      if negb (is_zim_path path)
      then Err (Torrent Other ("expected a .zim file, got " +:+ path))
      else Ok path
  | DirE _ =>
      let found := find_zim_files root path 10 in
      match found with
      | [p] => Ok p
      | [] => Err (Torrent Other ("no .zim file found in " +:+ path))
      | _ =>
          let names := (fun p => default EmptyString (file_name p)) <$> found in
          Err (Torrent Other ("torrent produced " +:+ pretty (Z.of_nat (length found)) +:+
            " .zim files, expected exactly one (" +:+ str_join ", " names +:+
            "); multi-file torrents with several ZIMs are not supported"))
      end
  end.

(** ** Installing *)

Record FileNode := mkFile { content : string; mtime : Z }.

Abbreviation Fs := (gmap string FileNode).

Definition STALE_TMP_AGE : Z := 3600 * 1000000000.

(** Times are nanoseconds since the epoch. *)
Definition is_stale_tmp (fs : Fs) (p current_tmp : string) (now : Z) : bool :=
  if String.eqb p current_tmp then false
  else
    match file_name p with
    | None => false
    | Some n =>
        if negb (contains ".zim.tmp-" n) then false
        else
          match fs !! p with
          | None => false
          | Some f =>
              if (now <? 0) || (mtime f <? 0) then false
              else (STALE_TMP_AGE <=? now) && (mtime f <? now - STALE_TMP_AGE)
          end
    end.

(** The direct children of a directory. *)
Definition in_dir (dir p : string) : bool :=
  match file_name p with Some n => String.eqb p (path_join dir n) | None => false end.

Definition remove_stale_tmps (dir current_tmp : string) (now : Z) (fs : Fs) : Fs :=
  filter (fun kv => ~ (in_dir dir (fst kv) && is_stale_tmp fs (fst kv) current_tmp now = true)) fs.

Inductive LinkResult := Linked | CrossesDevices | LinkFailed (e : string).

(** What the system answers: the pid and sequence number of the temporary
    name, the clock, the link, the copy (an error leaves the bytes written so
    far, if the file was created) and the rename. *)
Record InstallEnv := mkInstallEnv {
  ie_pid : Z; ie_seq : Z; ie_now : Z;
  ie_link : LinkResult;
  ie_copy : option (string * option string);
  ie_rename : option string
}.

(** [copy_file_buffered]: a copy is a new file with the source's bytes. *)
Definition copy_file_buffered (env : InstallEnv) (src dst : string) (fs : Fs) : result string unit * Fs :=
  match fs !! src with
  | None => (Err "No such file or directory", fs)
  | Some f =>
      match ie_copy env with
      | None => (Ok tt, <[dst := mkFile (content f) (ie_now env)]> fs)
      | Some (e, Some partial) => (Err e, <[dst := mkFile partial (ie_now env)]> fs)
      | Some (e, None) => (Err e, fs)
      end
  end.

Definition hard_link (env : InstallEnv) (src dst : string) (fs : Fs) : LinkResult * Fs :=
  match ie_link env with
  | Linked =>
      match fs !! src, fs !! dst with
      | Some f, None => (Linked, <[dst := f]> fs)
      | None, _ => (LinkFailed "No such file or directory", fs)
      | Some _, Some _ => (LinkFailed "File exists", fs)
      end
  | r => (r, fs)
  end.

Definition rename (env : InstallEnv) (src dst : string) (fs : Fs) : result string unit * Fs :=
  match ie_rename env with
  | Some e => (Err e, fs)
  | None =>
      match fs !! src with
      | None => (Err "No such file or directory", fs)
      | Some f => (Ok tt, <[dst := f]> (delete src fs))
      end
  end.

Definition install_tmp (env : InstallEnv) (dir file : string) : string :=
  join_with_extension dir file ("zim.tmp-" +:+ pretty (ie_pid env) +:+ "-" +:+ pretty (ie_seq env)).

(** The link or copy step. *)
Definition fill_tmp (env : InstallEnv) (src tmp strategy : string) (fs : Fs) : Result unit * Fs :=
  let copied fs :=
    match copy_file_buffered env src tmp fs with
    | (Ok _, fs') => (Ok tt, fs')
    | (Err e, fs') => (Err (Io e), fs')
    end in
  if String.eqb strategy "hardlink" then
    match hard_link env src tmp fs with
    | (Linked, fs') => (Ok tt, fs')
    | (CrossesDevices, fs') => copied fs'
    | (LinkFailed e, fs') => (Err (Io e), fs')
    end
  else copied fs.

Definition install_zim (env : InstallEnv) (src zim_dir strategy : string) (fs : Fs) : Result string * Fs :=
  match file_name src with
  | None => (Err (InvalidInput ("no file name in " +:+ src)), fs)
  | Some file =>
      let dst := path_join zim_dir file in
      let tmp := install_tmp env zim_dir file in
      let fs1 := remove_stale_tmps zim_dir tmp (ie_now env) fs in
      let '(install_result, fs2) := fill_tmp env src tmp strategy fs1 in
      match install_result with
      | Err e => (Err e, delete tmp fs2)
      | Ok _ =>
          match rename env tmp dst fs2 with
          | (Ok _, fs3) => (Ok dst, fs3)
          | (Err e, fs3) => (Err (Io e), fs3)
          end
      end
  end.

(** ** Names *)

Definition nul : ascii := Ascii.ascii_of_nat 0.

Definition validate_download_name (name : string) : Result unit :=
  let name := trim name in
  if str_is_empty name then Err (InvalidInput "download name is empty")
  else if 255 <? str_len name then Err (InvalidInput "download name exceeds 255 characters")
  else if str_exists (fun c => Ascii.eqb c "/"%char || Ascii.eqb c "\"%char || Ascii.eqb c nul) name
  then Err (InvalidInput "download name must not contain path separators")
  else if contains ".." name then Err (InvalidInput "download name must not contain `..`")
  else if starts_with "." name then Err (InvalidInput "download name must not start with a dot")
  else Ok tt.

(** The temporary file of a direct download. *)
Definition part_path (zim_dir name : string) : string := path_join zim_dir (name +:+ ".part").

(** ** Lemmas: paths *)

Definition is_component (n : string) : Prop :=
  str_exists slash n = false /\ n <> EmptyString /\ n <> ".".

Lemma components_wf p : Forall is_component (components p).
Proof.
  unfold components. apply Forall_forall. intros c Hc. apply list_elem_of_In, List.filter_In in Hc as [Hin Hc].
  apply andb_prop in Hc as [H1 H2]. pose proof (split_on_pieces slash p) as Hp.
  rewrite Forall_forall in Hp. split_and!.
  - apply Hp. by apply list_elem_of_In.
  - intros ->. done.
  - intros ->. done.
Qed.

Lemma components_slash p n :
  is_component n -> components (p +:+ String "/" n) = components p ++ [n].
Proof.
  intros (Hs & Hne & Hdot). unfold components. rewrite split_on_app by done.
  rewrite List.filter_app, (split_on_none slash n) by done. f_equal. cbn.
  destruct (String.eqb_spec n "."); [done|]. by destruct n.
Qed.

Lemma components_join dir n : is_component n -> components (path_join dir n) = components dir ++ [n].
Proof.
  intros Hn. unfold path_join. destruct (str_is_empty dir) eqn:Ed.
  - destruct dir; [|done]. destruct Hn as (Hs & Hne & Hdot). unfold components.
    rewrite (split_on_none slash n) by done. cbn. destruct (String.eqb_spec n "."); [done|]. by destruct n.
  - destruct (ends_with "/" dir) eqn:Ee; [|by apply components_slash].
    apply ends_with_spec in Ee as [d ->]. rewrite str_app_assoc. cbn [String.append].
    rewrite components_slash by done. f_equal. unfold components. rewrite split_on_app by done.
    rewrite List.filter_app. cbn. by rewrite app_nil_r.
Qed.

Lemma file_name_component p n : file_name p = Some n -> is_component n /\ n <> "..".
Proof.
  unfold file_name. destruct (last (components p)) as [c|] eqn:El; [|done].
  destruct (String.eqb_spec c ".."); [done|]. intros [= <-]. split; [|done].
  pose proof (components_wf p) as Hw. apply last_Some in El as [l El]. rewrite El in Hw.
  apply Forall_app in Hw as [_ Hw]. by inversion Hw.
Qed.

Lemma file_name_join dir n : is_component n -> n <> ".." -> file_name (path_join dir n) = Some n.
Proof.
  intros Hn Hd. unfold file_name. rewrite components_join by done. rewrite last_snoc.
  destruct (String.eqb_spec n ".."); congruence.
Qed.

Lemma path_join_inj dir a b : path_join dir a = path_join dir b -> a = b.
Proof.
  assert (Hinj : forall p x y, p +:+ x = p +:+ y -> x = y).
  { intros p x y. induction p as [|c p IH]; cbn; [done|]. intros [=]. auto. }
  unfold path_join. destruct (str_is_empty dir); [done|].
  destruct (ends_with "/" dir); [apply Hinj|]. intros E%Hinj. by injection E.
Qed.

Lemma rfind_spec c s i :
  rfind c s = Some i ->
  s = str_take i s +:+ String c (str_drop (S i) s) /\ str_exists (Ascii.eqb c) (str_drop (S i) s) = false.
Proof.
  assert (Hnone : forall s, rfind c s = None -> str_exists (Ascii.eqb c) s = false).
  { induction s0 as [|a s0 IH]; [done|]. cbn. destruct (rfind c s0); [done|].
    destruct (Ascii.eqb_spec a c) as [|Hne]; [done|]. intros _. rewrite IH by done.
    destruct (Ascii.eqb_spec c a) as [->|]; [by destruct Hne|done]. }
  revert i. induction s as [|a s IH]; intros i; [done|]. cbn [rfind].
  destruct (rfind c s) as [j|] eqn:Er.
  - intros [= <-]. destruct (IH j eq_refl) as [E H]. cbn [str_take str_drop String.append] in *.
    split; [by f_equal|done].
  - destruct (Ascii.eqb_spec a c) as [->|]; [|done]. intros [= <-].
    split; [destruct s; done|]. change (str_drop 1 (String c s)) with (str_drop 0 s).
    replace (str_drop 0 s) with s by by destruct s. auto.
Qed.

(** The temporary name is never the installed name. *)
Lemma install_tmp_ne env dir file : install_tmp env dir file <> path_join dir file.
Proof.
  unfold install_tmp, join_with_extension. intros E%path_join_inj. revert E.
  set (ext := "zim.tmp-" +:+ _). unfold split_extension.
  assert (Hlen : forall f x, f +:+ "." +:+ x <> f).
  { intros f x E. apply (f_equal String.length) in E. rewrite str_length_app in E. cbn in E. lia. }
  destruct (rfind "."%char file) as [[|i]|] eqn:Er; [apply Hlen| |apply Hlen].
  apply rfind_spec in Er as [Ef Hnd]. cbn [fst]. rewrite Ef at 2. intros E.
  assert (Hx : ext = str_drop (S (S i)) file).
  { revert E. generalize (str_take (S i) file) as p, (str_drop (S (S i)) file) as x.
    intros p x. induction p as [|a p IH]; cbn; intros [=]; auto. }
  rewrite <- Hx in Hnd. done.
Qed.

(** Clean-up only removes files with the temporary name shape. *)
Lemma remove_stale_keep dir tmp now fs p :
  match file_name p with Some n => contains ".zim.tmp-" n = false | None => True end ->
  remove_stale_tmps dir tmp now fs !! p = fs !! p.
Proof.
  intros Hn. unfold remove_stale_tmps. destruct (fs !! p) as [f|] eqn:Ep.
  - apply map_lookup_filter_Some. split; [done|]. cbn. rewrite andb_true_iff. intros [_ Hs].
    unfold is_stale_tmp in Hs. destruct (String.eqb p tmp); [done|].
    destruct (file_name p); [|done]. by rewrite Hn in Hs.
  - apply map_lookup_filter_None. by left.
Qed.

(** ** Lemmas: the walk *)

Definition Entry_rect_nested (P : Entry -> Prop) (HF : P FileE)
    (HD : forall cs, Forall (fun nc => P (snd nc)) cs -> P (DirE cs)) : forall e, P e :=
  fix rec (e : Entry) : P e :=
    match e with
    | FileE => HF
    | DirE cs =>
        HD cs ((fix all (cs : list (string * Entry)) : Forall (fun nc => P (snd nc)) cs :=
                  match cs with
                  | [] => Forall_nil_2 _
                  | nc :: cs' => Forall_cons_2 _ nc cs' (rec (snd nc)) (all cs')
                  end) cs)
    end.

(** The reference: every archive at most [levels] directories deep, in
    traversal order. *)
Fixpoint zims_under (e : Entry) (path : string) (levels : nat) : list string :=
  match e, levels with
  | DirE children, S levels' =>
      (fix go (cs : list (string * Entry)) : list string :=
         match cs with
         | [] => []
         | (n, c) :: cs' =>
             let p := path_join path n in
             (match c with
              | DirE _ => zims_under c p levels'
              | FileE => if is_zim_path p then [p] else []
              end) ++ go cs'
         end) children
  | _, _ => []
  end.

Lemma take_take_app {A} n (a b : list A) : take n (take n a ++ b) = take n (a ++ b).
Proof.
  destruct (decide (length a <= n)%nat).
  - by rewrite (take_ge a).
  - rewrite !take_app_le; [by rewrite take_take, Nat.min_id|lia|rewrite length_take; lia].
Qed.

Lemma walk_spec e : forall path depth max_depth cap out,
  (length out <= cap)%nat ->
  walk e path depth max_depth cap out = take cap (out ++ zims_under e path (S max_depth - depth)).
Proof.
  induction e as [|cs IH] using Entry_rect_nested; intros path depth max_depth cap out Hout.
  { cbn [walk zims_under]. rewrite app_nil_r, take_ge by done. by destruct (S max_depth - depth)%nat. }
  cbn [walk]. destruct (Nat.leb_spec cap (length out)) as [Hfull|Hroom]; cbn [orb].
  { rewrite take_app_le, take_ge by lia. done. }
  destruct (Nat.ltb_spec max_depth depth) as [Hdeep|Hok].
  { replace (S max_depth - depth)%nat with 0%nat by lia. cbn [zims_under].
    by rewrite app_nil_r, take_ge by lia. }
  replace (S max_depth - depth)%nat with (S (max_depth - depth))%nat by lia. cbn [zims_under].
  revert out Hout Hroom. induction IH as [|[n c] cs Hc _ IHcs]; intros out Hout Hroom.
  { by rewrite app_nil_r, take_ge by lia. }
  destruct (Nat.leb_spec cap (length out)) as [|_]; [lia|]. cbn [snd] in Hc.
  set (piece := match c with
                | DirE _ => zims_under c (path_join path n) (max_depth - depth)
                | FileE => if is_zim_path (path_join path n) then [path_join path n] else []
                end).
  set (out' := match c with
               | DirE _ => walk c (path_join path n) (S depth) max_depth cap out
               | FileE => if is_zim_path (path_join path n) then out ++ [path_join path n] else out
               end).
  assert (Hp : out' = take cap (out ++ piece)).
  { subst out' piece. destruct c as [|cc].
    - destruct (is_zim_path (path_join path n)).
      + rewrite take_ge; [done|]. rewrite length_app. cbn. lia.
      + by rewrite app_nil_r, take_ge by lia.
    - rewrite Hc by lia. do 3 f_equal. }
  rewrite app_assoc, <- take_take_app, <- Hp.
  assert (Hlen : (length out' <= cap)%nat) by (rewrite Hp, length_take; lia).
  destruct (decide (length out' < cap)%nat) as [Hlt|Hge]; [by apply IHcs|].
  rewrite take_app_le, take_ge by lia.
  destruct cs as [|[n' c'] cs']; [done|]. destruct (Nat.leb_spec cap (length out')); [done|lia].
Qed.

(** What the link or the copy leaves: the temporary file holds the source's
    bytes, or an error; nothing else changes. *)
Lemma fill_tmp_spec env src tmp strategy fs f :
  fs !! src = Some f -> fs !! tmp = None ->
  let '(r, fs2) := fill_tmp env src tmp strategy fs in
  (forall p, p <> tmp -> fs2 !! p = fs !! p) /\
  match r with Ok _ => content <$> fs2 !! tmp = Some (content f) | Err _ => True end.
Proof.
  intros Hsrc Htmp. unfold fill_tmp, hard_link, copy_file_buffered.
  destruct (String.eqb strategy "hardlink"), (ie_link env), (ie_copy env) as [[ce [partial|]]|];
    rewrite ?Hsrc, ?Htmp; (split; [|by rewrite ?lookup_insert_eq]); intros p Hp;
    by rewrite ?lookup_insert_ne.
Qed.

(** What the name check guarantees for the [.part] file. *)
Lemma valid_name_confined dir name :
  validate_download_name name = Ok tt ->
  components (part_path dir name) = components dir ++ [name +:+ ".part"] /\
  file_name (part_path dir name) = Some (name +:+ ".part") /\
  contains_char nul name = false /\ contains_char "\"%char name = false.
Proof.
  unfold validate_download_name. intros Hv.
  destruct (str_is_empty (trim name)) eqn:Ee; [done|]. destruct (255 <? str_len (trim name)); [done|].
  destruct (str_exists _ (trim name)) eqn:Es; [done|]. clear Hv.
  assert (Hch : forall c, (c = "/"%char \/ c = "\"%char \/ c = nul) -> str_exists (Ascii.eqb c) name = false).
  { intros c Hc. destruct (trim_split name) as (a & b & E & Ha & Hb). rewrite E, !str_exists_app.
    assert (Hws : forall x, str_forall ws_byte x = true -> str_exists (Ascii.eqb c) x = false).
    { intros x. apply str_forall_exists. intros y Hy. apply Ascii.eqb_neq. intros <-.
      by destruct Hc as [->|[->| ->]]. }
    rewrite (Hws a Ha), (Hws b Hb), orb_false_r. cbn [orb].
    revert Es. generalize (trim name) as t. intros t. induction t as [|y t IH]; [done|].
    cbn [str_exists]. rewrite !orb_false_iff. intros [[[H1 H2] H3] Ht]. split; [|by apply IH].
    rewrite Ascii.eqb_sym. by destruct Hc as [->|[->| ->]]. }
  assert (Hcomp : is_component (name +:+ ".part")).
  { split_and!.
    - unfold slash. rewrite str_exists_app, (Hch "/"%char) by auto. done.
    - by destruct name.
    - intros E. apply (f_equal String.length) in E. rewrite str_length_app in E. cbn in E. lia. }
  assert (Hdd : name +:+ ".part" <> "..").
  { intros E. apply (f_equal String.length) in E. rewrite str_length_app in E. cbn in E. lia. }
  unfold part_path. rewrite components_join, file_name_join by done.
  split_and!; [done|done|apply Hch; auto|apply Hch; auto].
Qed.

(** What an installation does, step failures included. *)
Lemma install_zim_spec env src dir strategy fs f file r fs' :
  file_name src = Some file -> contains ".zim.tmp-" file = false ->
  fs !! src = Some f -> fs !! install_tmp env dir file = None ->
  install_zim env src dir strategy fs = (r, fs') ->
  let dst := path_join dir file in
  match r with
  | Ok d => d = dst /\ content <$> fs' !! dst = Some (content f)
  | Err _ => fs' !! dst = fs !! dst
  end /\
  forall p, p <> dst -> p <> install_tmp env dir file ->
    match file_name p with Some n => contains ".zim.tmp-" n = false | None => True end ->
    fs' !! p = fs !! p.
Proof.
  intros Hfile Hshape Hsrc Htmp Hi. cbn zeta. unfold install_zim in Hi. rewrite Hfile in Hi.
  set (tmp := install_tmp env dir file) in *. set (dst := path_join dir file) in *.
  assert (Hne : tmp <> dst) by apply install_tmp_ne.
  destruct (file_name_component _ _ Hfile) as [Hcomp Hdd].
  set (fs1 := remove_stale_tmps dir tmp (ie_now env) fs) in *.
  assert (Hkeep : forall p, match file_name p with Some n => contains ".zim.tmp-" n = false | None => True end ->
    fs1 !! p = fs !! p) by (intros; by apply remove_stale_keep).
  assert (Hdst : fs1 !! dst = fs !! dst) by (apply Hkeep; unfold dst; by rewrite file_name_join).
  assert (Hsrc1 : fs1 !! src = Some f) by (rewrite Hkeep; [done|by rewrite Hfile]).
  assert (Htmp1 : fs1 !! tmp = None) by (apply map_lookup_filter_None; by left).
  pose proof (fill_tmp_spec env src tmp strategy fs1 f Hsrc1 Htmp1) as Hfill.
  destruct (fill_tmp env src tmp strategy fs1) as [ir fs2]. destruct Hfill as [Hoth Hok]. destruct ir as [[]|e].
  - unfold rename in Hi. destruct (ie_rename env); [simplify_eq; split|].
    + by rewrite Hoth.
    + intros p Hp1 Hp2 Hp3. by rewrite Hoth, Hkeep.
    + destruct (fs2 !! tmp) as [g|]; [|done]. cbn in Hok.
      injection Hi as <- <-. split; [split; [done|by rewrite lookup_insert_eq]|].
      intros p Hp1 Hp2 Hp3. rewrite lookup_insert_ne, lookup_delete_ne, Hoth, Hkeep by done. done.
  - simplify_eq. split.
    + by rewrite lookup_delete_ne, Hoth by done.
    + intros p Hp1 Hp2 Hp3. by rewrite lookup_delete_ne, Hoth, Hkeep by done.
Qed.

(** Whatever happens, only the destination, the temporary file and stale
    temporary files change. *)
Lemma install_zim_frame env src dir strategy fs r fs' p :
  install_zim env src dir strategy fs = (r, fs') ->
  (forall file, file_name src = Some file -> p <> path_join dir file /\ p <> install_tmp env dir file) ->
  match file_name p with Some n => contains ".zim.tmp-" n = false | None => True end ->
  fs' !! p = fs !! p.
Proof.
  unfold install_zim. destruct (file_name src) as [file|]; [|by intros [= <- <-]].
  intros Hi Hne Hshape. destruct (Hne file eq_refl) as [Hd Ht]. clear Hne.
  set (tmp := install_tmp env dir file) in *. set (fs1 := remove_stale_tmps dir tmp (ie_now env) fs) in *.
  assert (Hfill : forall ir fs2, fill_tmp env src tmp strategy fs1 = (ir, fs2) -> fs2 !! p = fs !! p).
  { intros ir fs2. rewrite <- (remove_stale_keep dir tmp (ie_now env) fs p Hshape). fold fs1.
    unfold fill_tmp, hard_link, copy_file_buffered.
    destruct (String.eqb strategy "hardlink"), (ie_link env), (ie_copy env) as [[ce [partial|]]|],
      (fs1 !! src), (fs1 !! tmp); intros [= <- <-]; by rewrite ?lookup_insert_ne. }
  destruct (fill_tmp env src tmp strategy fs1) as [[[]|e] fs2]; specialize (Hfill _ _ eq_refl).
  - unfold rename in Hi. destruct (ie_rename env); [by simplify_eq|].
    destruct (fs2 !! tmp); simplify_eq; by rewrite ?lookup_insert_ne, ?lookup_delete_ne.
  - simplify_eq. by rewrite lookup_delete_ne.
Qed.

(** ** Properties *)

(** An accepted download name is one path component: the untrimmed name
    the download uses is not empty and has no separator, no dot-dot and no
    NUL, so its [.part] file is a direct child of the ZIM directory whatever
    that directory is. *)
Theorem accepted_name_confined dir name :
  validate_download_name name = Ok tt ->
  components (part_path dir name) = components dir ++ [name +:+ ".part"] /\
  file_name (part_path dir name) = Some (name +:+ ".part") /\
  contains_char nul name = false /\ contains_char "\"%char name = false.
Proof. apply valid_name_confined. Qed.

Lemma accepted_name_confined_witness :
  components (part_path "/srv/zim" "wiki_en") = ["srv"; "zim"; "wiki_en.part"].
Proof. apply (accepted_name_confined "/srv/zim" "wiki_en"). reflexivity. Defined.

(** The length cap does not cover the file: a name of 255 bytes passes
    the check (whose documentation cites the file-name limit), but the file
    created is [.part] longer. *)
Theorem name_cap_misses_suffix :
  let name := str_of (replicate 255 97) in
  validate_download_name name = Ok tt /\
  str_len <$> file_name (part_path "/zim" name) = Some 260.
Proof. cbn zeta. split; vm_compute; reflexivity. Qed.

(** Locating a torrent's archive: for a file, the file itself when it has
    the extension; for a directory, an archive is returned exactly when one
    and only one lies at most nine levels down, and no archive or several are
    reported as errors. *)
Theorem locate_finds_the_only_zim root path p :
  locate_torrent_zim root path = Ok p <->
  match root with
  | FileE => is_zim_path path = true /\ p = path
  | DirE _ => zims_under root path 9 = [p]
  end.
Proof.
  unfold locate_torrent_zim. destruct root as [|cs].
  - destruct (is_zim_path path); cbn [negb]; naive_solver.
  - unfold find_zim_files. rewrite walk_spec by (cbn; lia). cbn [app Nat.sub].
    set (z := zims_under (DirE cs) path 9).
    pose proof (merge_sort_Permutation path_le (take 10 z)) as Hp.
    assert (Hone : forall x, merge_sort path_le (take 10 z) = [x] <-> z = [x]).
    { intros x. split.
      - intros E. rewrite E in Hp. apply Permutation_singleton_l in Hp.
        destruct z as [|a [|b z']]; cbn in Hp; congruence.
      - intros ->. done. }
    specialize (Hone p). destruct (merge_sort path_le (take 10 z)) as [|x [|y l]]; naive_solver.
Qed.

(** Installing is atomic.  With a fresh temporary name, an installation
    that succeeds leaves the source's bytes at the destination; one that
    fails, at whatever step, leaves the destination as it was; and no other
    file outside the temporary name shape is touched. *)
Theorem install_atomic env src dir strategy fs f file r fs' :
  file_name src = Some file -> contains ".zim.tmp-" file = false ->
  fs !! src = Some f -> fs !! install_tmp env dir file = None ->
  install_zim env src dir strategy fs = (r, fs') ->
  let dst := path_join dir file in
  match r with
  | Ok d => d = dst /\ content <$> fs' !! dst = Some (content f)
  | Err _ => fs' !! dst = fs !! dst
  end /\
  forall p, p <> dst -> p <> install_tmp env dir file ->
    match file_name p with Some n => contains ".zim.tmp-" n = false | None => True end ->
    fs' !! p = fs !! p.
Proof. apply install_zim_spec. Qed.

Lemma install_atomic_witness :
  let env := mkInstallEnv 42 0 7 CrossesDevices (Some ("No space left on device", Some "ha")) None in
  let fs := {[ "/dl/a.zim" := mkFile "half" 1; "/zim/a.zim" := mkFile "old" 1 ]} : Fs in
  snd (install_zim env "/dl/a.zim" "/zim" "hardlink" fs) !! "/zim/a.zim" = fs !! "/zim/a.zim".
Proof.
  cbn zeta.
  refine (proj1 (install_atomic
    (mkInstallEnv 42 0 7 CrossesDevices (Some ("No space left on device", Some "ha")) None)
    "/dl/a.zim" "/zim" "hardlink"
    {[ "/dl/a.zim" := mkFile "half" 1; "/zim/a.zim" := mkFile "old" 1 ]} (mkFile "half" 1) "a.zim"
    (Err (Io "No space left on device")) _ _ _ _ _ _)); vm_compute; reflexivity.
Defined.
