(* ===== verification/DownloadApi.v ===== *)
(** * DownloadApi: the download-queue handlers

    [src/serve/handlers/downloads.rs]: listing with redaction, enqueueing
    (the guards in their order, then the insert) and cancelling, over the
    table of [Lifecycle] and the guards of [NetGuard] and [Files]. *)

From stdpp Require Import sorting.
From S2P Require Import Prelude RustStr Errors Floats IpAddr NetGuard Lifecycle Torrent Files.

Definition MAX_DOWNLOAD_URL_BYTES : Z := 2048.

(** The JSON item; the timestamp is rendered by the chrono crate. *)
Record Download := mkDownload {
  d_id : Z; d_name : string; d_url : string; d_status : string; d_progress : f64;
  d_speed_bps : option Z; d_eta_secs : option Z; d_ratio : option f64;
  d_up_speed_bps : option Z; d_num_seeds : option Z; d_error : option string; d_created_at : string
}.

Definition default_download_name (u : string) : string :=
  strip_query_fragment (split_last (Ascii.eqb "/"%char) u).

Section Api.
Context {Ua : UrlApi} {Cf : CaseFold} {to_rfc3339 : Z -> string}.

Definition download_view (authenticated : bool) (kv : Z * Row) : Download :=
  let r := snd kv in
  mkDownload (fst kv)
    (if authenticated then name r else "[redacted]")
    (if authenticated then redact_url (url r) else "[redacted]")
    (as_str (status r)) (f32_to_f64 (progress r)) (speed_bps r) (eta_secs r)
    (f32_to_f64 <$> ratio r) (up_speed_bps r) (num_seeds r)
    (if authenticated then error r else (fun _ => "[redacted]") <$> error r)
    (to_rfc3339 (created_at r)).

Definition list_downloads_handler (f : Fault) (authenticated : bool) (db : Db) : Result (list Download) :=
  let? rows := list_downloads f db in
  Ok (download_view authenticated <$> rows).

(** The checks of [add_download], to the point of the insert: the URL and the
    name to queue. *)
Definition add_checks (has_torrent allow_private : bool) (body_url : string) (body_name : option string) :
    Result (string * string) :=
  let u := trim body_url in
  if str_is_empty u then Err (InvalidInput "url is required")
  else if MAX_DOWNLOAD_URL_BYTES <? str_len u
  then Err (InvalidInput ("url is too long (" +:+ pretty (str_len u) +:+ " bytes, max " +:+
                          pretty MAX_DOWNLOAD_URL_BYTES +:+ ")"))
  else
    let is_direct := is_direct_zim_url u in
    if negb is_direct && negb has_torrent
    then Err (InvalidInput "qBittorrent is not configured — only direct .zim URLs are supported")
    else
      let? _ := (if is_direct then validate_download_url u allow_private
                 else assert_host_not_blocked u allow_private false) in
      let n := default (default_download_name u) body_name in
      let? _ := validate_download_name n in
      Ok (n, u).

Definition add_download (f1 f2 : Fault) (between : Db -> Db) (has_torrent allow_private : bool)
    (body_url : string) (body_name : option string) (db : Db) : Result Z * Db :=
  match add_checks has_torrent allow_private body_url body_name with
  | Err e => (Err e, db)
  | Ok (n, u) =>
      match insert_download f1 f2 between n u db with
      | (Err e, db') => (Err e, db')
      | (Ok (Inserted id), db') => (Ok id, db')
      | (Ok Duplicate, db') =>
          (Err (Conflict "a download for this URL or name is already in progress"), db')
      end
  end.

Definition cancel_handler (f1 f2 : Fault) (between : Db -> Db) (id : Z) (db : Db) : Result Z * Db :=
  match cancel_download f1 f2 between id db with
  | (Err e, db') => (Err e, db')
  | (Ok (CancelledId id), db') => (Ok id, db')
  | (Ok (NotCancellable s), db') =>
      (Err (Conflict ("download " +:+ pretty id +:+ " is not cancellable (status: " +:+ s +:+ ")")), db')
  | (Ok CancelNotFound, db') => (Err (NotFound ("download " +:+ pretty id +:+ " not found")), db')
  end.

End Api.

(** ** Lemmas *)

Section ApiLemmas.
Context {Ua : UrlApi} {Cf : CaseFold}.

(** What the checks before the insert establish. *)
Lemma add_checks_ok ht ap bu bn n u :
  add_checks ht ap bu bn = Ok (n, u) ->
  u = trim bu /\ n = default (default_download_name u) bn /\ (u <> EmptyString) /\
  str_len u <= MAX_DOWNLOAD_URL_BYTES /\ (is_direct_zim_url u = true \/ ht = true) /\
  (is_direct_zim_url u = true -> validate_download_url u ap = Ok tt) /\
  assert_host_not_blocked u ap false = Ok tt /\ validate_download_name n = Ok tt.
Proof.
  unfold add_checks. destruct (str_is_empty (trim bu)) eqn:Ee; [done|].
  destruct (Z.ltb_spec MAX_DOWNLOAD_URL_BYTES (str_len (trim bu))) as [?|Hlen]; [done|].
  destruct (negb _ && _) eqn:Ed; [done|].
  intros ([] & Hc & ([] & Hn & [= <- <-])%rbind_ok)%rbind_ok.
  split_and!; auto.
  - by intros E; rewrite E in Ee.
  - by destruct (is_direct_zim_url (trim bu)), ht; auto.
  - intros Hd. by rewrite Hd in Hc.
  - destruct (is_direct_zim_url (trim bu)); [by apply validate_download_url_host|done].
Qed.

Lemma insert_queued_ok f n u db id db' :
  insert_queued f n u db = (Ok (Inserted id), db') ->
  rows db' = <[id := fresh_row n u None Queued f32_zero (clock db)]> (rows db).
Proof.
  unfold insert_queued, run_stmt, insert_row. destruct f; cbn.
  - destruct (i32_max <? next_id db); [by cbn; intros|].
    destruct (check_unique _) as [e|] eqn:Ec; [|by intros [= <- <-]].
    destruct (check_unique_code _ _ Ec) as (x & -> & Hx). by rewrite Hx.
  - destruct e; try done. by destruct (is_unique_violation _).
  - destruct e; try done. by destruct (is_unique_violation _).
Qed.

End ApiLemmas.

(** ** Properties *)

Lemma StronglySorted_firstn {A} (R : relation A) n l : StronglySorted R l -> StronglySorted R (take n l).
Proof.
  intros Hl. revert n. induction Hl as [|x l _ IH Hx]; intros [|n]; cbn; try constructor; auto.
  by apply Forall_take.
Qed.

(** What a row shows besides its three texts. *)
Definition without_text (kv : Z * Row) : Z * Row :=
  let r := snd kv in
  (fst kv, mkRow EmptyString EmptyString (hash r) (status r) (progress r) (speed_bps r) (eta_secs r)
     (file_path r) ((fun _ => EmptyString) <$> error r) (created_at r) (updated_at r) (ratio r)
     (up_speed_bps r) (num_seeds r) (sha256 r)).

(** The listing.  It shows at most 500 rows of the table, newest first;
    and for an unauthenticated caller two tables whose listed rows differ
    only in names, URLs and error texts give the same reply, so nothing of
    these texts can be read from it. *)
Theorem listing_bounded_and_private {to_rfc3339 : Z -> string} db l :
  list_downloads NoFault db = Ok l ->
  (length l <= 500)%nat /\ l ⊆ map_to_list (rows db) /\ StronglySorted newest_first l /\
  forall db' l', list_downloads NoFault db' = Ok l' -> without_text <$> l' = without_text <$> l ->
    list_downloads_handler (to_rfc3339 := to_rfc3339) NoFault false db' =
    list_downloads_handler (to_rfc3339 := to_rfc3339) NoFault false db.
Proof.
  unfold list_downloads_handler. intros Hl. pose proof Hl as Hl'.
  unfold list_downloads, query in Hl'. injection Hl' as <-. split_and!.
  - rewrite length_take. lia.
  - intros kv Hin. apply elem_of_take in Hin as (i & Hi & _). apply list_elem_of_lookup_2 in Hi.
    by rewrite merge_sort_Permutation in Hi.
  - apply StronglySorted_firstn, StronglySorted_merge_sort; [intros a b c|intros a b]; unfold newest_first; lia.
  - intros db' l' Hdb' Heq. rewrite Hl, Hdb'. cbn [rbind]. f_equal.
    transitivity (download_view (to_rfc3339 := to_rfc3339) false <$> (without_text <$> l')).
    + rewrite <- list_fmap_compose. apply list_fmap_ext. intros ? [i r] _; cbn. unfold download_view; cbn. by destruct (error r).
    + rewrite Heq, <- list_fmap_compose. apply list_fmap_ext. intros ? [i r] _; cbn. unfold download_view; cbn. by destruct (error r).
Qed.

Lemma listing_bounded_and_private_witness :
  let view ops := list_downloads_handler (to_rfc3339 := fun _ => "2026") NoFault false (@db_run ascii_sql ops empty_db) in
  view [(NoFault, OpInsert "alpine" "http://x/a.zim")] = view [(NoFault, OpInsert "zoo" "http://y/z.zim")].
Proof.
  cbn zeta. symmetry.
  eapply (listing_bounded_and_private (to_rfc3339 := fun _ => "2026")
            (@db_run ascii_sql [(NoFault, OpInsert "alpine" "http://x/a.zim")] empty_db)
            [(1, fresh_row "alpine" "http://x/a.zim" None Queued f32_zero 0)]);
    [vm_compute; reflexivity..|reflexivity].
Defined.

(** What an accepted enqueue request queues.  Whatever the request says
    and whatever other sessions do meanwhile, an accepted URL is the trimmed
    one, at most 2048 bytes; an http(s) URL whose host is an IP literal names
    an open address under the policy; it is a direct archive URL or a torrent
    client is configured; the name is one path component of the ZIM
    directory; and exactly one queued row is added. *)
Theorem enqueued_request_is_safe `{UrlApi, CaseFold} f1 f2 between has_torrent allow_private body_url body_name db id db' :
  add_download f1 f2 between has_torrent allow_private body_url body_name db = (Ok id, db') ->
  exists n, let u := trim body_url in
    (u <> EmptyString) /\ (str_len u <= 2048) /\ (is_direct_zim_url u = true \/ has_torrent = true) /\
    (forall p host ip, url_parse u = Ok p -> is_http (url_scheme p) = true -> url_host_str p = Some host ->
       parse_ip (bare_host host) = Some ip ->
       ip_class ip = Public \/ (ip_class ip = Private /\ allow_private = true)) /\
    (forall dir, components (part_path dir n) = components dir ++ [n +:+ ".part"]) /\
    (body_name = Some n \/ (body_name = None /\ n = default_download_name u)) /\
    rows db' = <[id := fresh_row n u None Queued f32_zero (clock (between db))]> (rows (between db)).
Proof.
  unfold add_download. destruct (add_checks _ _ _ _) as [[n u]|] eqn:Ec; [|done].
  apply add_checks_ok in Ec as (-> & Hn & Hne & Hlen & Hd & _ & Ha & Hv).
  unfold insert_download. destruct (query _ _ _) as [[|]|]; [done| |done].
  destruct (insert_queued _ _ _ _) as [[[i|]|] d] eqn:Ei; [|done..]. intros [= <- <-].
  apply insert_queued_ok in Ei. exists n. split_and!; auto.
  - intros p host ip Hp Hs Hh Hip. apply class_open. rewrite <- is_blocked_ip_class by eauto with zims.
    by eapply host_not_blocked_open.
  - intros dir. by apply valid_name_confined.
  - destruct body_name; cbn in Hn; subst; auto.
Qed.

Lemma enqueued_request_is_safe_witness :
  let res := @add_download text_url ascii_fold NoFault NoFault (fun db => db) false false
               " http://93.184.215.14/wiki.zim#top " None empty_db in
  fst res = Ok 1 /\ exists n, rows (snd res) =
    <[1 := fresh_row n "http://93.184.215.14/wiki.zim#top" None Queued f32_zero 0]> ∅.
Proof.
  cbn zeta. split; [vm_compute; reflexivity|].
  destruct (@enqueued_request_is_safe text_url ascii_fold NoFault NoFault (fun db => db) false false
    " http://93.184.215.14/wiki.zim#top " None empty_db 1
    (snd (@add_download text_url ascii_fold NoFault NoFault (fun db => db) false false
            " http://93.184.215.14/wiki.zim#top " None empty_db))) as (n & Hn).
  - vm_compute. reflexivity.
  - exists n. apply Hn.
Defined.

(** The default name splits before it strips, unlike the direct-URL test
    it cites: a slash in the query becomes the name. *)
Theorem default_name_takes_query_segment :
  let u := "http://h/wiki.zim?mirror=/latest" in
  @is_direct_zim_url ascii_fold u = true /\ default_download_name u = "latest".
Proof. vm_compute. done. Qed.
