(* ===== verification/World.v ===== *)
(** * World: the effects of the download poller

    The code under [src/torrent/poller/] runs statements against the
    downloads table, moves files, and talks to qBittorrent, while other
    sessions run their own statements in between.  A computation is a
    function of an environment (what the outside answers, indexed by the
    number of effects so far) and the state it changes.  Before each
    statement the environment runs any sequence of statements of other
    sessions ([e_others]), and the statement itself may fail or lose its
    reply ([e_fault]).  [let*] sequences effects; [let!] is the [?] operator.

    [DbSafe] is what the components promise about the table: everything a
    computation does to it is a sequence of the statements of [Lifecycle]. *)

From S2P Require Import Prelude RustStr Errors Floats Lifecycle Torrent Files.

(** ** State and environment *)

(** What is observable outside the table and the file system. *)
Inductive Event :=
| EvList
| EvAdd (url category : string)
| EvDelete (hash : string)
| EvRatio (hash : string)
| EvSpawn (id : Z) (url part : string)
| EvInvalidate
| EvResync
| EvIndex (name : string)
| EvDigest (name digest : string) (claim : option string) (drift : bool).

#[global] Instance Event_eq_dec : EqDecision Event.
Proof. solve_decision. Defined.

Record World := mkWorld {
  w_db : Db;
  w_fs : Fs;
  w_step : nat;
  w_log : list Event
}.

(** [e_clock] is the wall clock in microseconds, [e_instant] the monotonic
    clock in nanoseconds, [e_http] what qBittorrent answers, [e_io] a failing
    file operation with the number of bytes already written, [e_task] the
    outcome of the library calls whose effect is outside the downloads table
    (resync, indexing, digest recording), [e_tree] the directory entries
    under a torrent's content path, [e_zim] the archive parser, [e_connect]
    whether a client for qBittorrent is there or can be built. *)
Record Env := mkEnv {
  e_others : nat -> list (Fault * DbOp);
  e_fault : nat -> Fault;
  e_clock : nat -> Z;
  e_instant : nat -> Z;
  e_http : nat -> HttpReply;
  e_io : nat -> option (string * nat);
  e_task : nat -> Result unit;
  e_install : nat -> InstallEnv;
  e_tree : nat -> string -> Entry;
  e_zim : string -> result string unit;
  e_connect : nat -> bool
}.

Definition M (A : Type) : Type := Env -> World -> A * World.

Definition ret {A} (a : A) : M A := fun _ w => (a, w).

Definition bind {A B} (c : M A) (k : A -> M B) : M B :=
  fun env w => let '(a, w') := c env w in k a env w'.

Definition ebind {A B} (c : M (Result A)) (k : A -> M (Result B)) : M (Result B) :=
  bind c (fun r => match r with Ok a => k a | Err e => ret (Err e) end).

Notation "'let*' x := c 'in' k" :=
  (bind c (fun x => k))
  (at level 10, x pattern, c at level 100, k at level 200,
   format "'[v' 'let*'  x  :=  c  'in' '/' k ']'") : rust_scope.

Notation "'let!' x := c 'in' k" :=
  (ebind c (fun x => k))
  (at level 10, x pattern, c at level 100, k at level 200,
   format "'[v' 'let!'  x  :=  c  'in' '/' k ']'") : rust_scope.

(** ** Effects *)

Definition tick_step (w : World) : World := mkWorld (w_db w) (w_fs w) (S (w_step w)) (w_log w).
Definition with_db (d : Db) (w : World) : World := mkWorld d (w_fs w) (w_step w) (w_log w).
Definition with_fs (fs : Fs) (w : World) : World := mkWorld (w_db w) fs (w_step w) (w_log w).
Definition log_event (ev : Event) (w : World) : World :=
  mkWorld (w_db w) (w_fs w) (w_step w) (w_log w ++ [ev]).

Definition emit (ev : Event) : M unit := fun _ w => (tt, log_event ev w).

(** Read an answer of the environment at this point. *)
Definition ask {A} (q : Env -> nat -> A) : M A := fun env w => (q env (w_step w), tick_step w).

Section Statements.
Context `{SqlLower}.

(** One statement, after what other sessions did since the last one. *)
Definition db_call {A} (stmt : Fault -> Db -> A * Db) : M A := fun env w =>
  let n := w_step w in
  let '(a, db') := stmt (e_fault env n) (db_run (e_others env n) (w_db w)) in
  (a, tick_step (with_db db' w)).

(** A read-only statement. *)
Definition db_read {A} (q : Fault -> Db -> A) : M A := db_call (fun f db => (q f db, db)).

(** A statement whose outcome is not reported. *)
Definition db_exec (stmt : Fault -> Db -> Db) : M unit := db_call (fun f db => (tt, stmt f db)).

End Statements.

(** ** Files *)

Definition file_exists (p : string) : M bool :=
  fun _ w => (match w_fs w !! p with Some _ => true | None => false end, w).

Definition file_content (p : string) : M (option string) := fun _ w => (content <$> w_fs w !! p, w).

(** [let _ = std::fs::remove_file(p)]. *)
Definition remove_file (p : string) : M unit := fun env w =>
  (tt, tick_step (match e_io env (w_step w) with
                  | Some _ => w
                  | None => with_fs (delete p (w_fs w)) w
                  end)).

(** [std::fs::rename(a, b)?]. *)
Definition rename_file (a b : string) : M (Result unit) := fun env w =>
  match e_io env (w_step w), w_fs w !! a with
  | Some (e, _), _ => (Err (Io e), tick_step w)
  | None, None => (Err (Io "No such file or directory"), tick_step w)
  | None, Some f => (Ok tt, tick_step (with_fs (<[b := f]> (delete a (w_fs w))) w))
  end.

(** Open for writing, truncating or appending. *)
Definition create_file (p : string) : M (Result unit) := fun env w =>
  match e_io env (w_step w) with
  | Some (e, _) => (Err (Io e), tick_step w)
  | None => (Ok tt, tick_step (with_fs (<[p := mkFile EmptyString 0]> (w_fs w)) w))
  end.

Definition open_append (p : string) : M (Result unit) := fun env w =>
  match e_io env (w_step w) with
  | Some (e, _) => (Err (Io e), tick_step w)
  | None =>
      (Ok tt, tick_step (match w_fs w !! p with
                         | Some _ => w
                         | None => with_fs (<[p := mkFile EmptyString 0]> (w_fs w)) w
                         end))
  end.

(** Write through an open handle: a file that was unlinked meanwhile takes
    the bytes but is no longer in the directory. *)
Definition append_bytes (p bs : string) (fs : Fs) : Fs :=
  match fs !! p with
  | Some f => <[p := mkFile (content f +:+ bs) (mtime f)]> fs
  | None => fs
  end.

Definition write_handle (p bs : string) : M (Result unit) := fun env w =>
  match e_io env (w_step w) with
  | Some (e, k) => (Err (Io e), tick_step (with_fs (append_bytes p (str_take k bs) (w_fs w)) w))
  | None => (Ok tt, tick_step (with_fs (append_bytes p bs (w_fs w)) w))
  end.

(** ** Library calls whose effect is outside the downloads table *)

Definition task (ev : Event) : M (Result unit) := let* _ := emit ev in ask (fun env n => e_task env n).

Definition zims_resync : M (Result unit) := task EvResync.

(** ** qBittorrent *)

Section Qbit.
Context `{HttpReasons} (decode : string -> result string (list TorrentInfo)).

Definition q_get_torrents : M (Result (list TorrentInfo)) :=
  let* _ := emit EvList in
  ask (fun env n => get_torrents decode (e_http env n)).

Definition q_add_torrent (url category : string) : M (Result string) :=
  let* _ := emit (EvAdd url category) in
  ask (fun env n => add_torrent (e_http env n)).

Definition q_delete (hash : string) : M (Result unit) :=
  let* _ := emit (EvDelete hash) in
  ask (fun env n => qbit_delete (e_http env n)).

Definition q_set_ratio_limit (hash : string) : M (Result unit) :=
  let* _ := emit (EvRatio hash) in
  ask (fun env n => set_ratio_limit (e_http env n)).

End Qbit.

(** ** What a computation does to the table *)

(** Everything done to the table is a sequence of lifecycle statements. *)
Class DbSafe `{SqlLower} {A} (c : M A) : Prop :=
  db_safe : forall env w, exists ops, w_db (snd (c env w)) = db_run ops (w_db w).

(** The table is left alone. *)
Class DbFree {A} (c : M A) : Prop := db_free : forall env w, w_db (snd (c env w)) = w_db w.

Create HintDb dbsafe discriminated.
#[export] Hint Constants Opaque : dbsafe.

Section SafeLemmas.
Context `{SqlLower}.

Lemma db_run_app a b db : db_run (a ++ b) db = db_run b (db_run a db).
Proof. apply foldl_app. Qed.

Lemma ret_safe {A} (a : A) : DbSafe (ret a).
Proof. intros env w. by exists []. Qed.

Lemma free_safe {A} (c : M A) : DbFree c -> DbSafe c.
Proof. intros Hf env w. exists []. apply Hf. Qed.

Lemma bind_safe {A B} (c : M A) (k : A -> M B) :
  DbSafe c -> (forall a, DbSafe (k a)) -> DbSafe (bind c k).
Proof.
  intros Hc Hk env w. unfold bind. destruct (Hc env w) as [ops Hops].
  destruct (c env w) as [a w']. destruct (Hk a env w') as [ops' Hops'].
  exists (ops ++ ops'). rewrite db_run_app, <- Hops. exact Hops'.
Qed.

Lemma ebind_safe {A B} (c : M (Result A)) (k : A -> M (Result B)) :
  DbSafe c -> (forall a, DbSafe (k a)) -> DbSafe (ebind c k).
Proof. intros Hc Hk. apply bind_safe; [done|]. intros [a|e]; [apply Hk|apply ret_safe]. Qed.

(** A statement that is one of the lifecycle steps. *)
Lemma db_call_safe {A} (stmt : Fault -> Db -> A * Db) (op : DbOp) :
  (forall f db, snd (stmt f db) = db_step f op db) -> DbSafe (db_call stmt).
Proof.
  intros Hs env w. unfold db_call. specialize (Hs (e_fault env (w_step w)) (db_run (e_others env (w_step w)) (w_db w))).
  destruct (stmt _ _) as [a db']. cbn in *. subst db'.
  exists (e_others env (w_step w) ++ [(e_fault env (w_step w), op)]). by rewrite db_run_app.
Qed.

Lemma db_read_safe {A} (q : Fault -> Db -> A) : DbSafe (db_read q).
Proof. intros env w. by exists (e_others env (w_step w)). Qed.

Lemma db_exec_safe (stmt : Fault -> Db -> Db) (op : DbOp) :
  (forall f db, stmt f db = db_step f op db) -> DbSafe (db_exec stmt).
Proof. intros Hs. apply db_call_safe with op. intros f db. apply Hs. Qed.

End SafeLemmas.

Lemma emit_free ev : DbFree (emit ev).
Proof. done. Qed.
Lemma ask_free {A} (q : Env -> nat -> A) : DbFree (ask q).
Proof. done. Qed.
Lemma file_exists_free p : DbFree (file_exists p).
Proof. done. Qed.
Lemma file_content_free p : DbFree (file_content p).
Proof. done. Qed.
Lemma remove_file_free p : DbFree (remove_file p).
Proof. intros env w. unfold remove_file. by destruct (e_io env (w_step w)). Qed.
Lemma rename_file_free a b : DbFree (rename_file a b).
Proof. intros env w. unfold rename_file. by destruct (e_io env (w_step w)) as [[]|], (w_fs w !! a). Qed.
Lemma create_file_free p : DbFree (create_file p).
Proof. intros env w. unfold create_file. by destruct (e_io env (w_step w)) as [[]|]. Qed.
Lemma open_append_free p : DbFree (open_append p).
Proof. intros env w. unfold open_append. by destruct (e_io env (w_step w)) as [[]|], (w_fs w !! p). Qed.
Lemma write_handle_free p bs : DbFree (write_handle p bs).
Proof. intros env w. unfold write_handle. by destruct (e_io env (w_step w)) as [[]|]. Qed.
Lemma task_free ev : DbFree (task ev).
Proof. done. Qed.

#[export] Hint Resolve emit_free ask_free file_exists_free file_content_free remove_file_free
  rename_file_free create_file_free open_append_free write_handle_free task_free : dbsafe.
#[export] Hint Resolve ret_safe bind_safe ebind_safe db_read_safe : dbsafe.

(** Walk a computation down to its statements; [db_op op] closes a
    statement by the lifecycle step it is. *)
Ltac dbsafe_step :=
  match goal with
  | |- DbSafe (ret _) => apply ret_safe
  | |- DbSafe (bind _ _) => apply bind_safe; [|intros ?]
  | |- DbSafe (ebind _ _) => apply ebind_safe; [|intros ?]
  | |- DbSafe (db_read _) => apply db_read_safe
  | |- DbSafe (match ?x with _ => _ end) => destruct x
  | |- DbSafe (let '_ := ?x in _) => destruct x
  | |- DbSafe _ => solve [eauto with dbsafe | apply free_safe; eauto with dbsafe]
  end.
Ltac dbsafe := repeat dbsafe_step.
Ltac db_op op := first [apply (db_call_safe _ op) | apply (db_exec_safe _ op)]; done.

(** ** Taking a run apart *)

Lemma bind_inv {A B} (c : M A) (k : A -> M B) env w b w' :
  bind c k env w = (b, w') -> exists a w1, c env w = (a, w1) /\ k a env w1 = (b, w').
Proof. unfold bind. destruct (c env w) as [a w1]. eauto. Qed.

Lemma ebind_inv {A B} (c : M (Result A)) (k : A -> M (Result B)) env w r w' :
  ebind c k env w = (r, w') ->
  (exists a w1, c env w = (Ok a, w1) /\ k a env w1 = (r, w')) \/
  (exists e, c env w = (Err e, w') /\ r = Err e).
Proof.
  unfold ebind, bind. destruct (c env w) as [[a|e] w1]; cbn; [left; eauto|].
  intros [= <- <-]. right. eauto.
Qed.

(** The files are left alone. *)
Class FsFree {A} (c : M A) : Prop := fs_free : forall env w, w_fs (snd (c env w)) = w_fs w.

Lemma fs_free_run {A} (c : M A) `{!FsFree c} env w a w' : c env w = (a, w') -> w_fs w' = w_fs w.
Proof. intros E. pose proof (fs_free env w) as H. by rewrite E in H. Qed.

#[export] Instance ret_fs {A} (a : A) : FsFree (ret a).
Proof. done. Qed.
#[export] Instance emit_fs ev : FsFree (emit ev).
Proof. done. Qed.
#[export] Instance ask_fs {A} (q : Env -> nat -> A) : FsFree (ask q).
Proof. done. Qed.
#[export] Instance file_exists_fs p : FsFree (file_exists p).
Proof. done. Qed.
#[export] Instance file_content_fs p : FsFree (file_content p).
Proof. done. Qed.
#[export] Instance db_call_fs `{SqlLower} {A} (stmt : Fault -> Db -> A * Db) : FsFree (db_call stmt).
Proof. intros env w. unfold db_call. by destruct (stmt _ _). Qed.
#[export] Instance db_read_fs `{SqlLower} {A} (q : Fault -> Db -> A) : FsFree (db_read q).
Proof. apply db_call_fs. Qed.
#[export] Instance db_exec_fs `{SqlLower} (stmt : Fault -> Db -> Db) : FsFree (db_exec stmt).
Proof. apply db_call_fs. Qed.
#[export] Instance task_fs ev : FsFree (task ev).
Proof. done. Qed.
#[export] Instance bind_fs {A B} (c : M A) (k : A -> M B) :
  FsFree c -> (forall a, FsFree (k a)) -> FsFree (bind c k).
Proof.
  intros Hc Hk env w. unfold bind. specialize (Hc env w). destruct (c env w) as [a w1]. cbn in Hc.
  by rewrite (Hk a env w1).
Qed.
#[export] Instance ebind_fs {A B} (c : M (Result A)) (k : A -> M (Result B)) :
  FsFree c -> (forall a, FsFree (k a)) -> FsFree (ebind c k).
Proof. intros Hc Hk. apply bind_fs; [done|]. intros [a|e]; apply _. Qed.

(** Invert the first step of a run in hypothesis [H]. *)
Ltac run_step H :=
  let a := fresh "a" in let w1 := fresh "w" in let e := fresh "e" in
  let E := fresh "E" in let Er := fresh "Er" in
  lazymatch type of H with
  | bind _ _ _ _ = _ => apply bind_inv in H as (a & w1 & E & H)
  | ebind _ _ _ _ = _ => apply ebind_inv in H as [(a & w1 & E & H)|(e & H & Er)]; [|try (discriminate Er); try (subst)]
  end.

(** The effect of [remove_file] on the directory. *)
Lemma remove_file_fs p env w a w' :
  remove_file p env w = (a, w') -> w_fs w' = w_fs w \/ w_fs w' = delete p (w_fs w).
Proof. unfold remove_file. intros [= <- <-]. destruct (e_io env (w_step w)); auto. Qed.

Lemma remove_file_gone p env w :
  e_io env (w_step w) = None -> w_fs (snd (remove_file p env w)) = delete p (w_fs w).
Proof. unfold remove_file. by intros ->. Qed.

(** An environment where nothing else happens and nothing fails, with the
    given qBittorrent replies and torrent directories. *)
Definition quiet_env (http : nat -> HttpReply) (tree : string -> Entry) : Env :=
  mkEnv (fun _ => []) (fun _ => NoFault) (fun _ => 0) (fun _ => 0) http (fun _ => None) (fun _ => Ok tt)
    (fun _ => mkInstallEnv 1 1 0 Linked None None) (fun _ => tree) (fun _ => Ok tt) (fun _ => true).

Definition bare_reasons : HttpReasons := {| canonical_reason _ := None |}.

(** Nobody else runs, nothing fails. *)
Record quiet (env : Env) : Prop := {
  quiet_others n : e_others env n = [];
  quiet_fault n : e_fault env n = NoFault;
  quiet_io n : e_io env n = None;
  quiet_task n : e_task env n = Ok tt
}.

Lemma quiet_env_quiet http tree : quiet (quiet_env http tree).
Proof. by constructor. Qed.

Section QuietRuns.
Context `{SqlLower} (env : Env) (Hq : quiet env).

Lemma db_call_quiet {A} (stmt : Fault -> Db -> A * Db) w :
  db_call stmt env w = (fst (stmt NoFault (w_db w)), tick_step (with_db (snd (stmt NoFault (w_db w))) w)).
Proof.
  unfold db_call. rewrite (quiet_others env Hq), (quiet_fault env Hq). cbn.
  by destruct (stmt NoFault (w_db w)).
Qed.

Lemma db_read_quiet {A} (q : Fault -> Db -> A) w : db_read q env w = (q NoFault (w_db w), tick_step w).
Proof. unfold db_read. rewrite db_call_quiet. cbn. by destruct w. Qed.

Lemma db_exec_quiet (stmt : Fault -> Db -> Db) w :
  db_exec stmt env w = (tt, tick_step (with_db (stmt NoFault (w_db w)) w)).
Proof. unfold db_exec. by rewrite db_call_quiet. Qed.

Lemma remove_file_quiet p w : remove_file p env w = (tt, tick_step (with_fs (delete p (w_fs w)) w)).
Proof. unfold remove_file. by rewrite (quiet_io env Hq). Qed.

Lemma rename_file_quiet a b w f :
  w_fs w !! a = Some f -> rename_file a b env w = (Ok tt, tick_step (with_fs (<[b := f]> (delete a (w_fs w))) w)).
Proof. intros Hf. unfold rename_file. by rewrite (quiet_io env Hq), Hf. Qed.

Lemma task_quiet ev w : task ev env w = (Ok tt, tick_step (log_event ev w)).
Proof. unfold task, bind, emit, ask. by rewrite (quiet_task env Hq). Qed.

End QuietRuns.

Lemma bind_run {A B} (c : M A) (k : A -> M B) env w a w1 : c env w = (a, w1) -> bind c k env w = k a env w1.
Proof. unfold bind. by intros ->. Qed.

Lemma ebind_run {A B} (c : M (Result A)) (k : A -> M (Result B)) env w a w1 :
  c env w = (Ok a, w1) -> ebind c k env w = k a env w1.
Proof. unfold ebind, bind. by intros ->. Qed.

(** No other session runs (statements may still fail). *)
Definition alone (env : Env) : Prop := forall n, e_others env n = [].

Lemma db_read_alone `{SqlLower} {A} (q : Fault -> Db -> A) env w a w' :
  alone env -> db_read q env w = (a, w') ->
  w_db w' = w_db w /\ w_fs w' = w_fs w /\ a = q (e_fault env (w_step w)) (w_db w).
Proof. intros Ha. unfold db_read, db_call. rewrite Ha. by intros [= <- <-]. Qed.

Lemma db_free_run {A} (c : M A) env w a w' : DbFree c -> c env w = (a, w') -> w_db w' = w_db w.
Proof. intros Hc E. pose proof (Hc env w) as H. by rewrite E in H. Qed.
