(* ===== verification/Direct.v ===== *)
(** * Direct: downloads over plain HTTP

    [src/torrent/poller/direct.rs]: the resume decision from the [.part]
    file, the dispatch on the response, the body loop with its byte cap,
    progress writes and cancel checks, and the finalisation (digest claim,
    archive check, ownership check, rename, guarded row update).  The bytes
    go through the source's buffered writer, so an error path leaves what was
    flushed and not more. *)

From S2P Require Import Prelude RustStr Errors Floats IpAddr NetGuard Auth Lifecycle Torrent Files World.

(** ** The progress sample *)

(** [Duration::as_secs_f64] of a duration in nanoseconds. *)
Definition as_secs_f64 (d : Z) : f64 :=
  f64_add (f64_of_Z (d / 1000000000)) (f64_div (f64_of_Z (d mod 1000000000)) (f64_of_Z 1000000000)).

Definition window_speed (window_bytes elapsed : Z) : Z :=
  f64_round_i64 (f64_div (f64_of_Z window_bytes) (f64_max (as_secs_f64 elapsed) f64_0_001)).

(** ** Content-Range *)

Definition content_range_parts (val : string) : option (option Z * Z) :=
  '(range, full) ← split_once "/" val;
  full ← parse_u64 (trim full);
  '(unit, spec) ← split_once " " range;
  if negb (String.eqb unit "bytes") then None
  else if String.eqb spec "*" then Some (None, full)
  else
    '(s, t) ← split_once "-" spec;
    s ← parse_u64 s;
    _ ← parse_u64 t;
    Some (Some s, full).

(** The readable part of a response: its declared length, the [Content-Range]
    header when present and readable, and the body as it arrives. *)
Record Body := mkBody {
  content_length : option Z;
  content_range : option string;
  chunks : list (result string string)
}.

Definition content_range_total (b : Body) : option Z :=
  val ← content_range b; snd <$> content_range_parts val.

Definition content_range_start (b : Body) : option Z :=
  val ← content_range b; p ← content_range_parts val; fst p.

Inductive Resume206Decision := Append | FallbackFresh.

Definition resume_206_decision (b : Body) (from : Z) : Resume206Decision :=
  match content_range_start b with
  | Some s => if s =? from then Append else FallbackFresh
  | None => FallbackFresh
  end.

(** ** Streaming *)

Record StreamOutcome := mkOutcome { size : Z; total : option Z; cancelled : bool }.

Inductive FileStream :=
| AppendStream (from : Z) (total : option Z) (body : Body)
| FreshStream (total : option Z) (body : Body).

Definition PROGRESS_WINDOW : Z := 2 * 1000000000.
Definition CANCEL_CHECK_WINDOW : Z := 5 * 1000000000.
Definition BUF_CAPACITY : Z := 2 ^ 20.

Record Loop := mkLoop {
  received : Z; window_bytes : Z; window_start : Z; last_cancel_check : Z; buf : string
}.

Definition limit_msg (t max_bytes : Z) : string :=
  "file is " +:+ pretty t +:+ " bytes, exceeds the " +:+ pretty max_bytes +:+ "-byte limit".

Definition over (t : option Z) (max_bytes : Z) : option Z :=
  match t with Some t => if max_bytes <? t then Some t else None | None => None end.

Section Direct.
Context `{SqlLower, HttpReasons, UrlApi, Crypto}.

Definition resume_plan (part : string) : M (option Z) := fun _ w =>
  (match w_fs w !! part with
   | Some f => let len := str_len (content f) in if 0 <? len then Some len else None
   | None => None
   end, w).

(** [mark_error(..).await; return Err(Error::Torrent { .. })]. *)
Definition fail_row {A} (id : Z) (msg : string) : M (Result A) :=
  let* _ := db_exec (fun f => mark_error f id msg) in
  ret (Err (Torrent Other msg)).

Definition observe_cancel (id : Z) (part : string) : M (option string) :=
  let* st := db_read (fun f => status_if_changed f id "downloading") in
  match st with
  | None => ret None
  | Some status =>
      let* _ := (if String.eqb status (as_str Cancelled) then remove_file part else ret tt) in
      ret (Some status)
  end.

(** The reissued request, answered by [refetch]. *)
Definition fresh_fallback (refetch : result string (Response Body)) (part : string) (max_bytes id : Z) :
    M (Result FileStream) :=
  match refetch with
  | Err e => ret (Err (Http e))
  | Ok resp2 =>
      if negb (is_success (resp_status resp2)) then
        let* _ := remove_file part in
        fail_row id ("HTTP " +:+ http_status (resp_status resp2))
      else
        match over (content_length (resp_rest resp2)) max_bytes with
        | Some t => fail_row id (limit_msg t max_bytes)
        | None =>
            let* _ := remove_file part in
            let! _ := create_file part in
            ret (Ok (FreshStream (content_length (resp_rest resp2)) (resp_rest resp2)))
        end
  end.

(** The response-shape dispatch of [stream_part]. *)
Definition open_stream (refetch : result string (Response Body)) (resp : Response Body) (part : string)
    (resume_from : option Z) (max_bytes id : Z) : M (Result FileStream) :=
  let s := resp_status resp in
  let body := resp_rest resp in
  let fresh :=
    if is_success s then
      match over (content_length body) max_bytes with
      | Some t => fail_row id (limit_msg t max_bytes)
      | None =>
          let! _ := create_file part in
          ret (Ok (FreshStream (content_length body) body))
      end
    else fail_row id ("HTTP " +:+ http_status s) in
  match resume_from with
  | Some from =>
      if s =? 206 then
        match resume_206_decision body from with
        | FallbackFresh => fresh_fallback refetch part max_bytes id
        | Append =>
            let total :=
              match content_range_total body with
              | Some t => Some t
              | None => saturating_add u64_max from <$> content_length body
              end in
            match over total max_bytes with
            | Some t => fail_row id (limit_msg t max_bytes)
            | None =>
                let! _ := open_append part in
                ret (Ok (AppendStream from total body))
            end
        end
      else if s =? 416 then
        match content_range_total body with
        | Some full =>
            if full =? from then
              if max_bytes <? full then fail_row id (limit_msg full max_bytes)
              else
                let! _ := open_append part in
                ret (Ok (AppendStream from (Some full) body))
            else fresh_fallback refetch part max_bytes id
        | None => fresh_fallback refetch part max_bytes id
        end
      else fresh
  | None => fresh
  end.

(** [BufWriter::write_all] with a buffer of [BUF_CAPACITY] bytes: a write that
    does not fit flushes first, a write of at least the capacity bypasses the
    buffer.  Returns the new buffer. *)
Definition flush_buf (part buf : string) : M (Result unit) :=
  if str_is_empty buf then ret (Ok tt) else write_handle part buf.

Definition buf_write (part buf chunk : string) : M (Result string) :=
  let! buf := (if BUF_CAPACITY <? str_len buf + str_len chunk
               then let! _ := flush_buf part buf in ret (Ok EmptyString)
               else ret (Ok buf)) in
  if BUF_CAPACITY <=? str_len chunk
  then let! _ := write_handle part chunk in ret (Ok buf)
  else ret (Ok (buf +:+ chunk)).

Definition progress_of (received : Z) (total : option Z) : f32 :=
  match total with
  | Some t => if 0 <? t then f64_to_f32 (f64_min (f64_div (f64_of_Z received) (f64_of_Z t)) f64_one)
              else f32_zero
  | None => f32_zero
  end.

(** The progress write of one iteration: the new window. *)
Definition progress_sample (id : Z) (total : option Z) (received window start : Z) : M (Result (Z * Z)) :=
  let* t := ask e_instant in
  if PROGRESS_WINDOW <=? saturating_sub t start then
    let* now := ask e_instant in
    let speed := window_speed window (saturating_sub now start) in
    let! _ := db_call (fun f => refresh_progress f id (progress_of received total) speed) in
    ret (Ok (0, now))
  else ret (Ok (window, start)).

(** The body loop; the flag is [cancelled_observed]. *)
Fixpoint stream_loop (id max_bytes : Z) (part : string) (total : option Z)
    (body : list (result string string)) (s : Loop) : M (Result (Loop * bool)) :=
  match body with
  | [] => ret (Ok (s, false))
  | Err e :: _ => ret (Err (Http e))
  | Ok chunk :: rest =>
      let chunk_bytes := str_len chunk in
      if max_bytes <? saturating_add u64_max (received s) chunk_bytes then
        fail_row id ("download exceeds the " +:+ pretty max_bytes +:+ "-byte limit")
      else
        let! buf' := buf_write part (buf s) chunk in
        let received' := received s + chunk_bytes in
        let! (window', start') :=
          progress_sample id total received' (window_bytes s + chunk_bytes) (window_start s) in
        let* t := ask e_instant in
        if CANCEL_CHECK_WINDOW <=? saturating_sub t (last_cancel_check s) then
          let* check' := ask e_instant in
          let* st := observe_cancel id part in
          let s' := mkLoop received' window' start' check' buf' in
          match st with
          | Some status => ret (Ok (s', String.eqb status (as_str Cancelled)))
          | None => stream_loop id max_bytes part total rest s'
          end
        else
          stream_loop id max_bytes part total rest
            (mkLoop received' window' start' (last_cancel_check s) buf')
  end.

Definition total_msg (received t : Z) : string :=
  if received <? t
  then "stream ended at " +:+ pretty received +:+ " of " +:+ pretty t +:+ " bytes (truncated)"
  else "stream delivered " +:+ pretty received +:+ " of " +:+ pretty t +:+ " declared bytes (oversized body)".

Definition stream_part (refetch : result string (Response Body)) (resp : Response Body) (part : string)
    (resume_from : option Z) (max_bytes id : Z) : M (Result StreamOutcome) :=
  let! fs := open_stream refetch resp part resume_from max_bytes id in
  let '(received0, total, body) :=
    match fs with
    | AppendStream from total body => (from, total, body)
    | FreshStream total body => (0, total, body)
    end in
  let* start := ask e_instant in
  let* check := ask e_instant in
  let! (s, cancelled_observed) :=
    stream_loop id max_bytes part total (chunks body) (mkLoop received0 0 start check EmptyString) in
  let! _ := flush_buf part (buf s) in
  match total with
  | Some t =>
      if negb (received s =? t) && negb cancelled_observed then fail_row id (total_msg (received s) t)
      else ret (Ok (mkOutcome (received s) total cancelled_observed))
  | None => ret (Ok (mkOutcome (received s) total cancelled_observed))
  end.

(** ** Finalising *)

Definition discard_if_unowned (id : Z) (dst : string) : M unit :=
  let* owner := db_read (fun f => find_live_row_owns_path f dst id) in
  let* _ := (match owner with
             | Ok (Some _) => ret tt
             | Ok None => remove_file dst
             | Err _ => ret tt
             end) in
  let* _ := zims_resync in
  ret tt.

Definition sha256_hex (bs : string) : string := hex_encode (Auth.sha256 (bytes_of bs)).

Definition sha256_file (path : string) : M (Result string) :=
  let* c := file_content path in
  match c with
  | Some bs => ret (Ok (sha256_hex bs))
  | None => ret (Err (Io "No such file or directory"))
  end.

(** [Zim::new] on the file's bytes. *)
Definition verify_zim (path : string) : M (Result unit) := fun env w =>
  match w_fs w !! path with
  | Some f =>
      match e_zim env (content f) with
      | Ok _ => (Ok tt, w)
      | Err e => (Err (Zim (path +:+ ": " +:+ e)), w)
      end
  | None => (Err (Zim (path +:+ ": No such file or directory")), w)
  end.

(** [part.file_stem()]. *)
Definition file_stem (p : string) : option string := (fun f => fst (split_extension f)) <$> file_name p.

(** The blocking check: the digest, and the claim it contradicts if any. *)
Definition check_staged (part : string) (claim : option string) : M (Result (string * option string)) :=
  let! digest := sha256_file part in
  match claim with
  | Some c =>
      if negb (eq_ignore_ascii_case digest c) then ret (Ok (digest, Some c))
      else let! _ := verify_zim part in ret (Ok (digest, None))
  | None => let! _ := verify_zim part in ret (Ok (digest, None))
  end.

Definition select_url (id : Z) (db : Db) : option string := url <$> rows db !! id.

(** The provenance record and the index run after a finalised download. *)
Definition record_and_index (id : Z) (name digest : string) (claim : option string) : M unit :=
  let* u := db_read (fun f db => query f (select_url id) db) in
  let* drift :=
    (match u with
     | Ok (Some u) =>
         let* prev := db_read (fun f => prior_observed_digest_by_url f id u) in
         ret (match prev with Ok (Some p) => drift_decision (Some p) digest | _ => false end)
     | _ => ret false
     end) in
  let* _ := task (EvDigest name digest claim drift) in
  let* _ := task (EvIndex name) in
  ret tt.

(** The second half of the finalisation: ownership check, rename, resync, the
    guarded row update and what follows it. *)
Definition install_staged (zim_dir : string) (id : Z) (part digest : string) (claim : option string) :
    M (Result unit) :=
  match file_stem part with
  | None => ret (Err (InvalidInput ("bad part file name: " +:+ part)))
  | Some stem =>
      let dst := path_join zim_dir stem in
      let! owner := db_read (fun f => find_live_row_owns_path f dst id) in
      match owner with
      | Some other =>
          let msg := "install skipped: destination already owned by live row " +:+ pretty other in
          let* _ := db_exec (fun f => mark_error f id msg) in
          let* _ := remove_file part in
          ret (Ok tt)
      | None =>
          let! _ := rename_file part dst in
          let! _ := zims_resync in
          let! updated := db_call (fun f => finalize_direct f id dst (Some digest)) in
          if updated =? 0 then
            let* _ := discard_if_unowned id dst in ret (Ok tt)
          else
            let name := default EmptyString (file_stem dst) in
            let* _ := (if str_is_empty name then ret tt else record_and_index id name digest claim) in
            ret (Ok tt)
      end
  end.

Definition finalize_direct_download (zim_dir : string) (id : Z) (part : string) : M (Result unit) :=
  let* st := db_read (fun f => status_if_changed f id "downloading") in
  match st with
  | Some _ => let* _ := remove_file part in ret (Ok tt)
  | None =>
      let! claim := db_read (fun f => claim_digest f id) in
      let! (digest, mismatch) := check_staged part claim in
      match mismatch with
      | Some c =>
          let err := ZimDigestMismatch ("file is " +:+ digest +:+ ", catalog declared " +:+ c) in
          let* _ := db_exec (fun f => mark_error f id (error_display err)) in
          let* _ := remove_file part in
          ret (Ok tt)
      | None =>
          let! status := db_read (fun f => status_checked f id) in
          if String.eqb status (as_str Cancelled) then
            let* _ := remove_file part in ret (Ok tt)
          else install_staged zim_dir id part digest claim
      end
  end.

(** The whole transfer.  [net] is the network the redirect chain meets, with
    the [Range: bytes={resume_from}-] header on its requests; [refetch] what
    the pinned final server answers to a request without the header. *)
Definition direct_download {Client} (net : option Z -> Network Client Body)
    (refetch : Client -> string -> result string (Response Body))
    (zim_dir : string) (allow_private : bool) (max_bytes : Z) (id : Z) (u part : string) : M (Result unit) :=
  match validate_download_url u allow_private with
  | Err e => ret (Err e)
  | Ok _ =>
      let* resume_from := resume_plan part in
      match snd (follow_pinned_get (net resume_from) [] u) with
      | Err e => ret (Err e)
      | Ok pr =>
          let! outcome := stream_part (refetch (pr_client pr) (pr_url pr)) (pr_response pr) part resume_from max_bytes id in
          if cancelled outcome then ret (Ok tt)
          else finalize_direct_download zim_dir id part
      end
  end.

(** The spawned task: its failure marks the row. *)
Definition direct_task {Client} (net : option Z -> Network Client Body)
    (refetch : Client -> string -> result string (Response Body))
    (zim_dir : string) (allow_private : bool) (max_bytes : Z) (id : Z) (u part : string) : M unit :=
  let* r := direct_download net refetch zim_dir allow_private max_bytes id u part in
  match r with
  | Ok _ => ret tt
  | Err e => db_exec (fun f => mark_error f id (error_display e))
  end.

End Direct.

(** ** Lemmas: the buffered writer *)

Lemma str_len_app a b : str_len (a +:+ b) = str_len a + str_len b.
Proof. induction a as [|c a IH]; [done|]. cbn. rewrite IH. lia. Qed.

Lemma str_len_nonneg a : 0 <= str_len a.
Proof. induction a as [|c a IH]; cbn; lia. Qed.

Definition is_prefix (a b : string) : Prop := exists z, b = a +:+ z.

Lemma is_prefix_refl a : is_prefix a a.
Proof. exists EmptyString. by rewrite str_app_nil_r. Qed.

Lemma is_prefix_app a b c : is_prefix a b -> is_prefix a (b +:+ c).
Proof. intros [z ->]. exists (z +:+ c). by rewrite str_app_assoc. Qed.

Lemma str_take_prefix k s : is_prefix (str_take k s) s.
Proof.
  revert k. induction s as [|a s IH]; intros [|k]; try by eexists.
  destruct (IH k) as [z Hz]. exists z. cbn. by rewrite <- Hz.
Qed.

Lemma prefix_app_l a b c : is_prefix b c -> is_prefix (a +:+ b) (a +:+ c).
Proof. intros [z ->]. exists z. by rewrite str_app_assoc. Qed.

(** From [w] to [w'] only the file [p] changed; it was [c] and is [c']. *)
Definition file_step (p c c' : string) (w w' : World) : Prop :=
  (exists f, w_fs w !! p = Some f /\ content f = c) ->
  (exists f, w_fs w' !! p = Some f /\ content f = c') /\ forall q, q <> p -> w_fs w' !! q = w_fs w !! q.

Lemma file_step_same p c w w' : w_fs w' = w_fs w -> file_step p c c w w'.
Proof. intros E Hc. by rewrite E. Qed.

Lemma file_step_trans p c1 c2 c3 w1 w2 w3 :
  file_step p c1 c2 w1 w2 -> file_step p c2 c3 w2 w3 -> file_step p c1 c3 w1 w3.
Proof.
  intros H1 H2 Hc. destruct (H1 Hc) as [Hm Hf]. destruct (H2 Hm) as [Ho Hf']. split; [done|].
  intros q Hq. by rewrite Hf', Hf.
Qed.

Lemma write_handle_step p bs env w r w' c :
  write_handle p bs env w = (r, w') ->
  exists c', file_step p c c' w w' /\ is_prefix c' (c +:+ bs) /\ is_prefix c c' /\
    (r = Ok tt -> c' = c +:+ bs).
Proof.
  unfold write_handle. intros Hw.
  assert (Hs : forall x, file_step p c (c +:+ x) w (tick_step (with_fs (append_bytes p x (w_fs w)) w))).
  { intros x (f & Hf & <-). unfold append_bytes. cbn. rewrite Hf. split.
    - eexists. by rewrite lookup_insert_eq.
    - intros q Hq. by rewrite lookup_insert_ne. }
  destruct (e_io env (w_step w)) as [[e k]|]; injection Hw as <- <-; eexists; (split; [apply Hs|]).
  - split_and!; [apply prefix_app_l, str_take_prefix|by eexists|done].
  - split_and!; [apply is_prefix_refl|by eexists|done].
Qed.

Lemma flush_buf_step p bs env w r w' c :
  flush_buf p bs env w = (r, w') ->
  exists c', file_step p c c' w w' /\ is_prefix c' (c +:+ bs) /\ is_prefix c c' /\
    (r = Ok tt -> c' = c +:+ bs).
Proof.
  unfold flush_buf. destruct bs as [|a bs]; [|apply write_handle_step].
  intros [= <- <-]. exists c. rewrite str_app_nil_r.
  split_and!; [by apply file_step_same|apply is_prefix_refl..|done].
Qed.

(** The file and the buffer together always hold the bytes so far. *)
Lemma buf_write_step p b chunk env w r w' c :
  buf_write p b chunk env w = (r, w') ->
  exists c', file_step p c c' w w' /\ is_prefix c' (c +:+ b +:+ chunk) /\
    forall b', r = Ok b' -> c' +:+ b' = c +:+ b +:+ chunk.
Proof.
  unfold buf_write. intros Hr. run_step Hr.
  - assert (Hflush : exists c1, file_step p c c1 w w0 /\ is_prefix c1 (c +:+ b) /\ c1 +:+ a = c +:+ b).
    { destruct (BUF_CAPACITY <? str_len b + str_len chunk).
      - run_step E. injection E as <- <-.
        destruct (flush_buf_step _ _ _ _ _ _ c E0) as (c1 & Hs & Hp & _ & Hok).
        exists c1. rewrite str_app_nil_r. split_and!; [done|done|]. apply Hok. by destruct a0.
      - injection E as <- <-. exists c. split_and!; [by apply file_step_same|by eexists|done]. }
    destruct Hflush as (c1 & Hs & Hp & Heq). rewrite <- str_app_assoc, <- Heq.
    destruct (BUF_CAPACITY <=? str_len chunk) eqn:Ecap.
    + assert (Ha : a = EmptyString \/ a = b).
      { clear Hr. destruct (BUF_CAPACITY <? str_len b + str_len chunk); [run_step E|]; injection E as <- <-; auto. }
      assert (Hempty : a = EmptyString).
      { destruct Ha as [|Ha]; [done|]. subst a. destruct (BUF_CAPACITY <? str_len b + str_len chunk) eqn:Ef.
        - run_step E. by injection E as <- <-.
        - apply Z.leb_le in Ecap. apply Z.ltb_ge in Ef. destruct b; [done|].
          cbn [str_len] in Ef. pose proof (str_len_nonneg b). lia. }
      subst a. rewrite str_app_nil_r. run_step Hr.
      * injection Hr as <- <-. destruct a.
        destruct (write_handle_step _ _ _ _ _ _ c1 E0) as (c2 & Hs2 & Hp2 & _ & Hok2).
        exists c2. split_and!; [by eapply file_step_trans|done|].
        intros b' [= <-]. rewrite str_app_nil_r. by apply Hok2.
      * destruct (write_handle_step _ _ _ _ _ _ c1 Hr) as (c2 & Hs2 & Hp2 & _ & _).
        exists c2. split_and!; [by eapply file_step_trans|done|done].
    + injection Hr as <- <-. exists c1. split_and!; [done| |].
      * rewrite str_app_assoc. by exists (a +:+ chunk).
      * intros b' [= <-]. by rewrite str_app_assoc.
  - destruct (BUF_CAPACITY <? str_len b + str_len chunk); [|done]. run_step Hr; [done|].
    destruct (flush_buf_step _ _ _ _ _ _ c Hr) as (c1 & Hs & Hp & _ & _).
    exists c1. rewrite <- str_app_assoc. split_and!; [done|by apply is_prefix_app|done].
Qed.

(** ** Lemmas: the body loop *)

Definition chunk_text (c : result string string) : string := match c with Ok b => b | Err _ => EmptyString end.

Fixpoint body_text (l : list (result string string)) : string :=
  match l with [] => EmptyString | c :: l' => chunk_text c +:+ body_text l' end.

Section Loop.
Context `{SqlLower}.

#[local] Instance fail_row_fs {A} id msg : FsFree (fail_row (A := A) id msg).
Proof. unfold fail_row. apply _. Qed.

#[local] Instance progress_sample_fs id tot rec win start : FsFree (progress_sample id tot rec win start).
Proof. unfold progress_sample. apply bind_fs; [apply _|]. intros t. destruct (_ <=? _); apply _. Qed.

Lemma observe_cancel_spec id part env w st w' :
  observe_cancel id part env w = (st, w') ->
  w_fs w' = w_fs w \/ (w_fs w' = delete part (w_fs w) /\ st = Some (as_str Cancelled)).
Proof.
  unfold observe_cancel. intros Hr. run_step Hr. apply fs_free_run in E; [|apply _].
  destruct a as [status|]; [|by injection Hr as <- <-; left].
  run_step Hr. injection Hr as <- <-.
  destruct (String.eqb_spec status (as_str Cancelled)) as [->|].
  - apply remove_file_fs in E0 as [E0|E0]; rewrite E0, E; auto.
  - injection E0 as <- <-. by left.
Qed.

(** What a run of the loop leaves: the file holds a prefix of what it held
    followed by the body, or a cancel removed it; nothing else changed; and a
    run that ends without error accounts for every byte, within the cap. *)
Definition loop_post (part : string) (base : string) (max_bytes : Z) (body : list (result string string))
    (w : World) (r : Result (Loop * bool)) (w' : World) : Prop :=
  (forall q, q <> part -> w_fs w' !! q = w_fs w !! q) /\
  (forall f, w_fs w' !! part = Some f -> exists k, is_prefix (content f) (base +:+ body_text (take k body))) /\
  (w_fs w' !! part = None -> exists s', r = Ok (s', true)) /\
  forall s' c, r = Ok (s', c) -> exists k,
    received s' = str_len (base +:+ body_text (take k body)) /\
    received s' <= Z.max max_bytes (str_len base) /\
    forall f, w_fs w' !! part = Some f -> content f +:+ buf s' = base +:+ body_text (take k body).

Lemma loop_post_cons part base max_bytes chunk body w w0 r w' :
  (forall q, q <> part -> w_fs w0 !! q = w_fs w !! q) -> str_len (base +:+ chunk) <= max_bytes ->
  loop_post part (base +:+ chunk) max_bytes body w0 r w' -> loop_post part base max_bytes (Ok chunk :: body) w r w'.
Proof.
  intros Hq Hcap (Hf & Hp & Hn & Hr).
  assert (Hk : forall k, base +:+ body_text (take (S k) (Ok chunk :: body)) = (base +:+ chunk) +:+ body_text (take k body)).
  { intros k. cbn. by rewrite str_app_assoc. }
  split_and!.
  - intros q Hne. by rewrite Hf, Hq.
  - intros f Hfile. destruct (Hp f Hfile) as [k Hpre]. exists (S k). by rewrite Hk.
  - done.
  - intros s' c Hs. destruct (Hr s' c Hs) as (k & H1 & H2 & H3). exists (S k). rewrite Hk. split_and!; [done|lia|done].
Qed.

(** The run stops here with an error, the file holding [c1]. *)
Lemma loop_post_stop part c c1 b max_bytes k body w r w' :
  (exists f, w_fs w !! part = Some f /\ content f = c) -> file_step part c c1 w w' ->
  is_prefix c1 (c +:+ b +:+ body_text (take k body)) -> is_err r = true ->
  loop_post part (c +:+ b) max_bytes body w r w'.
Proof.
  intros Hc Hs Hp He. destruct (Hs Hc) as [(f1 & Hf1 & <-) Hoth]. split_and!; [done| | |].
  - intros f Hf. exists k. rewrite str_app_assoc. by replace f with f1 by congruence.
  - congruence.
  - by intros s' c' ->.
Qed.

(** The run ends here without error, no byte of the body taken; the file is
    unchanged or was removed by a cancel. *)
Lemma loop_post_here part f base max_bytes body w s' c w' :
  w_fs w !! part = Some f -> content f +:+ buf s' = base ->
  received s' = str_len base ->
  w_fs w' = w_fs w \/ (w_fs w' = delete part (w_fs w) /\ c = true) ->
  loop_post part base max_bytes body w (Ok (s', c)) w'.
Proof.
  intros Hf Hb Hrec Hfs.
  assert (Hfile : forall f', w_fs w' !! part = Some f' -> f' = f).
  { intros f' Hf'. destruct Hfs as [E|[E _]]; rewrite E, ?lookup_delete_eq in Hf'; congruence. }
  split_and!.
  - intros q Hq. by destruct Hfs as [E|[E _]]; rewrite E, ?lookup_delete_ne.
  - intros f' ->%Hfile. exists 0%nat. cbn. rewrite str_app_nil_r, <- Hb. by eexists.
  - destruct Hfs as [E|[E ->]]; [rewrite E; congruence|by eauto].
  - intros s1 c1 [= <- <-]. exists 0%nat. cbn [take body_text]. rewrite str_app_nil_r.
    split_and!; [done|lia|]. by intros f' ->%Hfile.
Qed.

Lemma stream_loop_post id max_bytes part tot body : forall s env w r w' c,
  stream_loop id max_bytes part tot body s env w = (r, w') ->
  (exists f, w_fs w !! part = Some f /\ content f = c) ->
  received s = str_len (c +:+ buf s) -> max_bytes < u64_max ->
  loop_post part (c +:+ buf s) max_bytes body w r w'.
Proof.
  induction body as [|[chunk|e] body IH]; intros s env w r w' c Hr Hc Hrec Hmax; cbn in Hr.
  - injection Hr as <- <-. destruct Hc as (f0 & Hf0 & <-). eapply loop_post_here; eauto.
  - assert (Htext : chunk = body_text (take 1 (Ok chunk :: body))) by (cbn; by rewrite str_app_nil_r).
    destruct (max_bytes <? saturating_add u64_max (received s) (str_len chunk)) eqn:Eover.
    { pose proof Hr as Hfs. apply fs_free_run in Hfs; [|apply _].
      eapply (loop_post_stop part c c _ _ 0); [done|by apply file_step_same|by eexists|].
      unfold fail_row in Hr. run_step Hr. by injection Hr as <- <-. }
    apply Z.ltb_ge in Eover. unfold saturating_add in Eover. pose proof (str_len_nonneg chunk).
    run_step Hr.
    2:{ destruct (buf_write_step _ _ _ _ _ _ _ c Hr) as (c1 & Hs & Hp & _). rewrite Htext in Hp.
        by apply (loop_post_stop part c c1 _ _ 1). }
    destruct (buf_write_step _ _ _ _ _ _ _ c E) as (c1 & Hs & Hp & Hok). specialize (Hok a eq_refl).
    run_step Hr.
    2:{ apply fs_free_run in Hr; [|apply _]. rewrite Htext in Hp.
        apply (loop_post_stop part c c1 _ _ 1); [done| |done|done].
        eapply file_step_trans; [done|]. by apply file_step_same. }
    destruct a0 as [win' start']. apply fs_free_run in E0; [|apply _].
    run_step Hr. apply fs_free_run in E1; [|apply _].
    destruct (Hs Hc) as [(f1 & Hf1 & <-) Hoth].
    assert (Hlen : received s + str_len chunk = str_len (content f1 +:+ a)).
    { rewrite Hok, <- str_app_assoc, str_len_app. lia. }
    assert (Hnext : forall w3 s', w_fs w3 = w_fs w0 ->
      received s' = received s + str_len chunk -> buf s' = a ->
      stream_loop id max_bytes part tot body s' env w3 = (r, w') ->
      loop_post part (c +:+ buf s) max_bytes (Ok chunk :: body) w r w').
    { intros w3 s' Ew Er Eb Hrun. apply loop_post_cons with w3; [by intros q Hq; rewrite Ew, Hoth|rewrite str_app_assoc, <- Hok; lia|].
      rewrite str_app_assoc, <- Hok, <- Eb.
      eapply IH; [done|exists f1; by rewrite Ew|by rewrite Er, Eb, Hlen|done]. }
    destruct (_ <=? saturating_sub _ _) in Hr; [|by eapply (Hnext w2); [congruence|..|exact Hr]].
    run_step Hr. apply fs_free_run in E2; [|apply _]. run_step Hr. apply observe_cancel_spec in E3.
    destruct a2 as [status|]; [|destruct E3 as [E3|[_ [=]]]; by eapply (Hnext w4); [congruence|..|exact Hr]].
    injection Hr as <- <-. apply loop_post_cons with w0; [done|rewrite str_app_assoc, <- Hok; lia|]. rewrite str_app_assoc, <- Hok.
    eapply loop_post_here; [done|done|done|].
    rewrite E2, E1, E0 in E3. destruct E3 as [|[? [= ->]]]; auto.
  - injection Hr as <- <-.
    eapply (loop_post_stop part c c _ _ 0); [done|by apply file_step_same|by eexists|done].
Qed.

End Loop.

(** ** Lemmas: opening the stream *)

Section Opening.
Context `{SqlLower, HttpReasons}.
Variables (refetch : result string (Response Body)) (resp : Response Body) (part : string).

(** Where the bytes of the file come from and the size its server declared: a
    fresh body from its start, whose [Content-Length] is the size, or the
    bytes already there followed by a body whose server said it starts (or
    that the file ends) exactly there, the size being the total of the
    [Content-Range]. *)
Definition source_of (w : World) (base : string) (body : Body) (declared : option Z) : Prop :=
  (base = EmptyString /\ declared = content_length body /\
   (body = resp_rest resp \/ exists r2, refetch = Ok r2 /\ body = resp_rest r2)) \/
  (exists f, w_fs w !! part = Some f /\ base = content f /\ body = resp_rest resp /\
     declared = content_range_total body /\ is_Some declared /\
     (content_range_start body = Some (str_len base) \/ content_range_total body = Some (str_len base))).

Definition stream_base (fs : FileStream) : Z * option Z * Body :=
  match fs with
  | AppendStream from tot body => (from, tot, body)
  | FreshStream tot body => (0, tot, body)
  end.

(** An error leaves the file as it was, removed, or freshly truncated; success
    leaves it holding [base], ready for [body]. *)
Definition open_post (max_bytes : Z) (w : World) (r : Result FileStream) (w' : World) : Prop :=
  (forall q, q <> part -> w_fs w' !! q = w_fs w !! q) /\
  match r with
  | Err _ => w_fs w' !! part = w_fs w !! part \/ w_fs w' !! part = None
  | Ok fs =>
      exists base f, w_fs w' !! part = Some f /\ content f = base /\
        source_of w base (snd (stream_base fs)) (snd (fst (stream_base fs))) /\ fst (fst (stream_base fs)) = str_len base /\
        (base = EmptyString \/ exists t, snd (fst (stream_base fs)) = Some t /\ t <= max_bytes)
  end.

Lemma over_none t max_bytes x : over t max_bytes = None -> t = Some x -> x <= max_bytes.
Proof. unfold over. intros Ho ->. destruct (Z.ltb_spec max_bytes x); [done|lia]. Qed.

Lemma fail_row_post {A} id msg env w (r : Result A) w' :
  fail_row id msg env w = (r, w') -> is_err r = true /\ w_fs w' = w_fs w.
Proof.
  unfold fail_row. intros Hr. run_step Hr. apply fs_free_run in E; [|apply _].
  by injection Hr as <- <-.
Qed.

(** Opening with [create], the file perhaps removed before. *)
Lemma create_post max_bytes body w0 env w r w' :
  (forall q, q <> part -> w_fs w !! q = w_fs w0 !! q) ->
  (w_fs w !! part = w_fs w0 !! part \/ w_fs w !! part = None) ->
  (body = resp_rest resp \/ exists r2, refetch = Ok r2 /\ body = resp_rest r2) ->
  (let! _ := create_file part in ret (Ok (FreshStream (content_length body) body))) env w = (r, w') ->
  open_post max_bytes w0 r w'.
Proof.
  intros Hoth Hpart Hbody Hr. unfold ebind, bind, create_file in Hr.
  destruct (e_io env (w_step w)) as [[e k]|]; cbn in Hr; injection Hr as <- <-.
  - split; [done|]. done.
  - split; [intros q Hq; cbn; rewrite lookup_insert_ne; auto|].
    eexists EmptyString, _. cbn [tick_step with_fs w_fs]. rewrite lookup_insert_eq.
    split_and!; [done|done|by left|done|by left].
Qed.

Lemma fresh_fallback_post max_bytes id env w r w' :
  fresh_fallback refetch part max_bytes id env w = (r, w') -> open_post max_bytes w r w'.
Proof.
  unfold fresh_fallback. intros Hr.
  destruct refetch as [resp2|e] eqn:Eref; [|by injection Hr as <- <-; split; auto].
  destruct (is_success (resp_status resp2)); cbn [negb] in Hr.
  - destruct (over _ _) as [t|] eqn:Eo.
    + apply fail_row_post in Hr as [He Hfs]. destruct r; [done|]. split; rewrite Hfs; auto.
    + run_step Hr. eapply create_post; [| |right; exists resp2; split; [exact Eref|reflexivity]|exact Hr].
      * intros q Hq. apply remove_file_fs in E as [-> | ->]; rewrite ?lookup_delete_ne; done.
      * apply remove_file_fs in E as [-> | ->]; rewrite ?lookup_delete_eq; auto.
  - run_step Hr. apply fail_row_post in Hr as [He Hfs]. destruct r; [done|].
    split; rewrite Hfs; apply remove_file_fs in E as [E|E]; rewrite E.
    + done.
    + intros q Hq. by rewrite lookup_delete_ne.
    + auto.
    + rewrite lookup_delete_eq. auto.
Qed.

(** Opening with [append] an existing file of [from] bytes. *)
Lemma append_post max_bytes from tot f env w r w' :
  w_fs w !! part = Some f -> str_len (content f) = from ->
  (content_range_start (resp_rest resp) = Some from \/ content_range_total (resp_rest resp) = Some from) ->
  (exists t, tot = Some t /\ t <= max_bytes) -> tot = content_range_total (resp_rest resp) ->
  (let! _ := open_append part in ret (Ok (AppendStream from tot (resp_rest resp)))) env w = (r, w') ->
  open_post max_bytes w r w'.
Proof.
  intros Hf Hlen Hrange Htot Hdecl Hr. unfold ebind, bind, open_append in Hr. rewrite Hf in Hr.
  destruct (e_io env (w_step w)) as [[e k]|]; cbn in Hr; injection Hr as <- <-.
  - split; auto.
  - split; [done|]. exists (content f), f. cbn. rewrite Hlen.
    split_and!; [done|done| |done|by right]. right. exists f. rewrite Hlen.
    destruct Htot as (t & -> & _). split_and!; auto.
Qed.

Lemma open_stream_post resume_from max_bytes id env w r w' :
  (forall from, resume_from = Some from -> exists f, w_fs w !! part = Some f /\ str_len (content f) = from) ->
  open_stream refetch resp part resume_from max_bytes id env w = (r, w') -> open_post max_bytes w r w'.
Proof.
  intros Hres Hr. unfold open_stream in Hr. set (fresh := if is_success _ then _ else _) in Hr.
  assert (Hfail : forall msg, fail_row id msg env w = (r, w') -> open_post max_bytes w r w').
  { intros msg H1. apply fail_row_post in H1 as [He Hfs]. destruct r; [done|]. split; rewrite Hfs; auto. }
  assert (Hfresh : fresh env w = (r, w') -> open_post max_bytes w r w').
  { subst fresh. destruct (is_success _); [|by eauto]. destruct (over _ _); [by eauto|].
    apply create_post; auto. }
  clearbody fresh. destruct resume_from as [from|]; [|by apply Hfresh]. destruct (Hres from eq_refl) as (f & Hf & Hlen).
  destruct (resp_status resp =? 206).
  - unfold resume_206_decision in Hr. destruct (content_range_start (resp_rest resp)) as [s|] eqn:Es;
      [|by eapply fresh_fallback_post].
    destruct (Z.eqb_spec s from) as [->|]; [|by eapply fresh_fallback_post].
    destruct (content_range_total (resp_rest resp)) as [full|] eqn:Et.
    2:{ exfalso. unfold content_range_start, content_range_total in *.
        destruct (content_range (resp_rest resp)) as [v|]; [cbn in *|done]. by destruct (content_range_parts v). }
    destruct (over _ _) eqn:Eo; [by eauto|]. eapply (append_post max_bytes from (Some full)); [done|done|by left| |by rewrite Et|exact Hr].
    exists full. split; [done|]. cbn in Eo. destruct (Z.ltb_spec max_bytes full); [done|lia].
  - destruct (resp_status resp =? 416); [|by apply Hfresh].
    destruct (content_range_total (resp_rest resp)) as [full|] eqn:Et; [|by eapply fresh_fallback_post].
    destruct (Z.eqb_spec full from) as [->|]; [|by eapply fresh_fallback_post].
    destruct (Z.ltb_spec max_bytes from); [by eauto|].
    eapply (append_post max_bytes from (Some from)); [done|done|by right| |by rewrite Et|exact Hr]. eauto with lia.
Qed.

End Opening.

(** ** Lemmas: the end of a transfer *)

Lemma flush_buf_gone part b env w r w' :
  w_fs w !! part = None -> flush_buf part b env w = (r, w') -> w_fs w' = w_fs w.
Proof.
  intros Hn. unfold flush_buf. destruct (str_is_empty b); [by intros [= <- <-]|].
  unfold write_handle, append_bytes. rewrite Hn.
  destruct (e_io env (w_step w)) as [[]|]; by intros [= <- <-].
Qed.

Section Transfer.
Context `{SqlLower, HttpReasons}.
Variables (refetch : result string (Response Body)) (resp : Response Body) (part : string).

(** What the disk may look like at any end of a transfer started in [w]. *)
Definition disk_post (w w' : World) : Prop :=
  (forall q, q <> part -> w_fs w' !! q = w_fs w !! q) /\
  (w_fs w' !! part = w_fs w !! part \/ w_fs w' !! part = None \/
   exists f base body declared k, w_fs w' !! part = Some f /\ source_of refetch resp part w base body declared /\
     is_prefix (content f) (base +:+ body_text (take k (chunks body)))).

(** The loop and the final flush keep the disk consistent. *)
Lemma transfer_disk w w1 w2 base body declared :
  source_of refetch resp part w base body declared ->
  (forall q, q <> part -> w_fs w1 !! q = w_fs w !! q) ->
  (forall q, q <> part -> w_fs w2 !! q = w_fs w1 !! q) ->
  (forall f, w_fs w2 !! part = Some f -> exists k, is_prefix (content f) (base +:+ body_text (take k (chunks body)))) ->
  disk_post w w2.
Proof.
  intros Hsrc H1 H2 Hp. split; [intros q Hq; by rewrite H2, H1|].
  destruct (w_fs w2 !! part) as [f|]; [|by auto]. destruct (Hp f eq_refl) as [k Hk].
  right; right. by exists f, base, body, declared, k.
Qed.

Lemma flush_after_loop w1 w2 w3 base body max_bytes s cflag k env r :
  loop_post part base max_bytes body w1 (Ok (s, cflag)) w2 ->
  (forall f, w_fs w2 !! part = Some f -> content f +:+ buf s = base +:+ body_text (take k body)) ->
  flush_buf part (buf s) env w2 = (r, w3) ->
  (forall q, q <> part -> w_fs w3 !! q = w_fs w1 !! q) /\
  (forall f, w_fs w3 !! part = Some f -> is_prefix (content f) (base +:+ body_text (take k body)) /\
     (r = Ok tt -> content f = base +:+ body_text (take k body))) /\
  (w_fs w3 !! part = None -> cflag = true).
Proof.
  intros (Hoth & _ & Hn & _) Hbuf Hfl. destruct (w_fs w2 !! part) as [f1|] eqn:Ef1.
  - destruct (flush_buf_step _ _ _ _ _ _ (content f1) Hfl) as (c' & Hs & Hpre & _ & Hsame).
    rewrite (Hbuf f1 eq_refl) in *. destruct Hs as [(f & Hf & <-) Hq]; [by eauto|]. split_and!.
    + intros q Hne. by rewrite Hq, Hoth.
    + intros f' Hf'. by replace f' with f by congruence.
    + congruence.
  - apply flush_buf_gone in Hfl as ->; [|done]. rewrite Ef1. split_and!; [done|done|].
    intros _. by destruct (Hn eq_refl) as [s' [= -> ->]].
Qed.

(** A transfer that ended well, with the bytes it put on disk. *)
Definition complete_post (max_bytes : Z) (w w' : World) (received : Z) (tot : option Z) : Prop :=
  exists f base body k, w_fs w' !! part = Some f /\ source_of refetch resp part w base body tot /\
    content f = base +:+ body_text (take k (chunks body)) /\
    received = str_len (content f) /\ received <= max_bytes /\ (forall t, tot = Some t -> received = t).

End Transfer.

(** ** Lemmas: finalising *)

Lemma str_take_app a b : str_take (String.length a) (a +:+ b) = a.
Proof. induction a as [|c a IH]; cbn; [by destruct b|by rewrite IH]. Qed.

Lemma valid_name_ne n : validate_download_name n = Ok tt -> n <> EmptyString.
Proof. by intros Hv ->. Qed.

(** The [.part] suffix is what the stem drops. *)
Lemma file_stem_part dir n : validate_download_name n = Ok tt -> file_stem (part_path dir n) = Some n.
Proof.
  intros Hv. unfold file_stem. destruct (valid_name_confined dir n Hv) as (_ & -> & _).
  cbn [fmap option_fmap option_map]. f_equal. unfold split_extension.
  change (n +:+ ".part") with (n +:+ String "." "part"). rewrite rfind_last by done.
  apply valid_name_ne in Hv. destruct (String.length n) as [|k] eqn:El; [by destruct n|].
  cbn [fst]. rewrite <- El. apply str_take_app.
Qed.

Lemma part_path_ne dir n : path_join dir n <> part_path dir n.
Proof.
  unfold part_path. intros E%path_join_inj. apply (f_equal String.length) in E.
  rewrite str_length_app in E. cbn in E. lia.
Qed.

Section Finalize.
Context `{SqlLower, Crypto}.

Lemma discard_spec id dst env w a w' :
  discard_if_unowned id dst env w = (a, w') -> w_fs w' = w_fs w \/ w_fs w' = delete dst (w_fs w).
Proof.
  unfold discard_if_unowned. intros Hr. run_step Hr. apply fs_free_run in E; [|apply _].
  run_step Hr. run_step Hr. apply fs_free_run in E1; [|apply _]. injection Hr as <- <-. rewrite E1.
  destruct a0 as [[o|]|]; [injection E0 as <- <-|apply remove_file_fs in E0 as [E0|E0]|injection E0 as <- <-];
    rewrite ?E0, E; auto.
Qed.

#[local] Instance record_and_index_fs id name digest claim : FsFree (record_and_index id name digest claim).
Proof.
  unfold record_and_index. apply bind_fs; [apply _|]. intros u. apply bind_fs; [|apply _].
  destruct u as [[u|]|]; apply _.
Qed.

(** The staged bytes pass the check only if the archive parses and the claim,
    when there is one, is their digest. *)
Lemma check_staged_ok part claim env w r w' :
  check_staged part claim env w = (r, w') ->
  w' = w /\
  forall digest, r = Ok (digest, None) -> exists f, w_fs w !! part = Some f /\ digest = sha256_hex (content f) /\
    e_zim env (content f) = Ok tt /\ forall c, claim = Some c -> eq_ignore_ascii_case digest c = true.
Proof.
  intros Hr. unfold check_staged, sha256_file, file_content, verify_zim, ebind, bind in Hr.
  destruct (w_fs w !! part) as [f|] eqn:Ef; cbn in Hr; [|by injection Hr as <- <-].
  destruct claim as [c|]; [destruct (eq_ignore_ascii_case (sha256_hex (content f)) c) eqn:Ec; cbn in Hr|];
    rewrite ?Ef in Hr; try destruct (e_zim env (content f)) as [[]|] eqn:Ez; injection Hr as <- <-;
    (split; [done|]); intros digest [= <-]; exists f; split_and!; auto; by intros ? [= <-].
Qed.

(** The world after one read, and the table the [k]-th of the reads in a row
    started in [w] sees (from 0): the other sessions' statements up to it. *)
Definition next_read (env : Env) (w : World) : World :=
  tick_step (with_db (db_run (e_others env (w_step w)) (w_db w)) w).

Definition db_seen (env : Env) (w : World) (k : nat) : Db := w_db (Nat.iter (S k) (next_read env) w).

Lemma db_read_run {A} (q : Fault -> Db -> A) env w a w' :
  db_read q env w = (a, w') -> w' = next_read env w /\ a = q (e_fault env (w_step w)) (db_seen env w 0).
Proof. by intros [= <- <-]. Qed.

Lemma query_ok {A} f (q : Db -> A) db a : query f q db = Ok a -> a = q db.
Proof. by destruct f; cbn; intros [= <-]. Qed.

(** Nothing is published: the staged file is gone, or still there because of
    an error or because its removal failed. *)
Definition not_published (part : string) (env : Env) (r : Result unit) (w w' : World) : Prop :=
  w_fs w' = delete part (w_fs w) \/
  (w_fs w' = w_fs w /\ (is_err r = true \/ exists k, is_Some (e_io env k))).

Lemma not_published_removed part env r w0 w a w' :
  w_fs w = w_fs w0 -> remove_file part env w = (a, w') -> not_published part env r w0 w'.
Proof.
  unfold remove_file, not_published. intros <- [= <- <-].
  destruct (e_io env (w_step w)) eqn:E; cbn; [right; split; [done|right; by eexists]|by left].
Qed.

Lemma not_published_err part env e w w' : w_fs w' = w_fs w -> not_published part env (Err e) w w'.
Proof. intros Hfs. right. auto. Qed.

Lemma not_published_pre part env r w0 w w' :
  w_fs w = w_fs w0 -> not_published part env r w w' -> not_published part env r w0 w'.
Proof. unfold not_published. by intros ->. Qed.

(** The staged file [f] moved to [dst], perhaps discarded there again. *)
Definition moved (part dst : string) (f : FileNode) (w w' : World) : Prop :=
  w_fs w' = <[dst := f]> (delete part (w_fs w)) \/ w_fs w' = delete dst (delete part (w_fs w)).

(** Installing leaves the destination alone unless no other live row owned it
    when that was asked. *)
Lemma install_staged_spec zim_dir n id digest claim env w r w' :
  validate_download_name n = Ok tt ->
  install_staged zim_dir id (part_path zim_dir n) digest claim env w = (r, w') ->
  not_published (part_path zim_dir n) env r w w' \/
  exists f, w_fs w !! part_path zim_dir n = Some f /\
    moved (part_path zim_dir n) (path_join zim_dir n) f w w' /\
    find_live_row_owns_path NoFault (path_join zim_dir n) id (db_seen env w 0) = Ok None.
Proof.
  intros Hv Hr. unfold install_staged in Hr. rewrite (file_stem_part zim_dir n Hv) in Hr.
  set (part := part_path zim_dir n) in *. set (dst := path_join zim_dir n) in *.
  run_step Hr. 2:{ apply db_read_run in Hr as (-> & _). left; by apply not_published_err. }
  apply db_read_run in E as (Ew & Howner). apply eq_sym, query_ok in Howner.
  assert (E : w_fs w0 = w_fs w) by by rewrite Ew.
  destruct a as [other|].
  { left. run_step Hr. apply fs_free_run in E0; [|apply _]. run_step Hr. injection Hr as <- <-.
    eapply not_published_removed; [|done]. congruence. }
  run_step Hr.
  2:{ left; apply not_published_err. unfold rename_file in Hr. destruct (e_io _ _) as [[]|], (w_fs (next_read env w) !! part); by simplify_eq. }
  right. unfold rename_file in E0. rewrite E in E0.
  destruct (e_io _ _) as [[]|], (w_fs w !! part) as [f|] eqn:Ef; try done.
  assert (Ew1 : w_fs w1 = <[dst := f]> (delete part (w_fs w))) by by simplify_eq.
  exists f. split; [done|].
  split; [|unfold find_live_row_owns_path, query; by f_equal].
  run_step Hr. 2:{ left. apply fs_free_run in Hr; [|apply _]. congruence. }
  apply fs_free_run in E1; [|apply _]. run_step Hr. 2:{ left. apply fs_free_run in Hr; [|apply _]. congruence. }
  apply fs_free_run in E2; [|apply _]. destruct (a1 =? 0).
  - run_step Hr. injection Hr as <- <-. apply discard_spec in E3 as [E3|E3]; rewrite E2, E1, Ew1 in E3; [by left|right].
    by rewrite delete_insert_eq in E3.
  - left. apply fs_free_run in Hr; [by rewrite Hr, E2, E1, Ew1|]. apply bind_fs; [|apply _].
    destruct (str_is_empty _); apply _.
Qed.

(** The conditions under which [dst] may appear, at the four reads of the
    call: the row was [downloading] at the first (or its status could not be
    read), the digest of the staged bytes is the claim it had at the second,
    it was not cancelled at the third, and no other live row owned the
    destination at the fourth; and the bytes parse as an archive. *)
Definition publishable (env : Env) (id : Z) (dst : string) (f : FileNode) (w : World) : Prop :=
  status_if_changed (e_fault env (w_step w)) id "downloading" (db_seen env w 0) = None /\
  (forall c, rows (db_seen env w 1) !! id ≫= Lifecycle.sha256 = Some c ->
     eq_ignore_ascii_case (sha256_hex (content f)) c = true) /\
  e_zim env (content f) = Ok tt /\
  (exists st, select_status id (db_seen env w 2) = Some st /\ st <> as_str Cancelled) /\
  find_live_row_owns_path NoFault dst id (db_seen env w 3) = Ok None.

Lemma status_checked_ok f id db st : status_checked f id db = Ok st -> select_status id db = Some st.
Proof. unfold status_checked. destruct f; cbn; [|done..]. destruct (select_status id db); by intros [= <-]. Qed.

Lemma finalize_cases zim_dir n id env w r w' :
  validate_download_name n = Ok tt ->
  finalize_direct_download zim_dir id (part_path zim_dir n) env w = (r, w') ->
  not_published (part_path zim_dir n) env r w w' \/
  exists f, w_fs w !! part_path zim_dir n = Some f /\ publishable env id (path_join zim_dir n) f w /\
    moved (part_path zim_dir n) (path_join zim_dir n) f w w'.
Proof.
  intros Hv Hr. unfold finalize_direct_download in Hr. run_step Hr. apply db_read_run in E as (-> & Hst).
  destruct a as [st|].
  { left. run_step Hr. injection Hr as <- <-. by eapply not_published_removed; [|done]. }
  run_step Hr. 2:{ apply db_read_run in Hr as (-> & _). left; by apply not_published_err. }
  apply db_read_run in E as (-> & Hclaim). apply eq_sym, query_ok in Hclaim.
  run_step Hr. 2:{ apply check_staged_ok in Hr as [-> _]. left; by apply not_published_err. }
  apply check_staged_ok in E as [-> Hchk]. destruct a0 as [digest [c|]].
  { left. run_step Hr. apply fs_free_run in E; [|apply _]. run_step Hr. injection Hr as <- <-.
    eapply not_published_removed; [|done]. exact E. }
  destruct (Hchk digest eq_refl) as (f & Hf & -> & Hz & Hc).
  run_step Hr. 2:{ apply db_read_run in Hr as (-> & _). left; by apply not_published_err. }
  apply db_read_run in E as (-> & Hlast). apply eq_sym, status_checked_ok in Hlast.
  destruct (String.eqb_spec a0 (as_str Cancelled)) as [|Hnc].
  { left. run_step Hr. injection Hr as <- <-. by eapply not_published_removed; [|done]. }
  apply install_staged_spec in Hr as [Hr|(f' & Hf' & Hm & Ho)]; [left; by eapply not_published_pre; [|done]| |done].
  right. exists f'. assert (f' = f) as -> by (cbn in Hf, Hf'; congruence). split_and!; [done| |done].
  split_and!; [done| |done| |done].
  - intros c Hcl. apply Hc. by rewrite Hclaim, <- Hcl.
  - eauto.
Qed.

Lemma record_and_index_quiet id name digest claim env w :
  quiet env -> exists w', record_and_index id name digest claim env w = (tt, w') /\ w_db w' = w_db w /\ w_fs w' = w_fs w.
Proof.
  intros Hq. unfold record_and_index. erewrite bind_run by (by apply db_read_quiet).
  destruct (query _ _ _) as [[u|]|]; [erewrite bind_run by (erewrite bind_run by (by apply db_read_quiet); reflexivity)|
    erewrite bind_run by reflexivity..];
    erewrite bind_run by (by apply task_quiet); erewrite bind_run by (by apply task_quiet); by eexists.
Qed.

(** Installing when nothing interferes and the destination is free. *)
Lemma install_staged_quiet zim_dir n id digest claim env w row f :
  quiet env -> db_inv (w_db w) -> validate_download_name n = Ok tt ->
  rows (w_db w) !! id = Some row -> status row = Downloading ->
  w_fs w !! part_path zim_dir n = Some f ->
  find_live_row_owns_path NoFault (path_join zim_dir n) id (w_db w) = Ok None ->
  exists w', install_staged zim_dir id (part_path zim_dir n) digest claim env w = (Ok tt, w') /\
    rows (w_db w') = <[id := touching (fun r => set_sha256 (Some digest) (set_path (Some (path_join zim_dir n))
                      (set_progress f32_one (set_status Complete r)))) (w_db w) row]> (rows (w_db w)) /\
    w_fs w' = <[path_join zim_dir n := f]> (delete (part_path zim_dir n) (w_fs w)).
Proof.
  intros Hq Hinv Hv Hrow Hst Hf Ho. unfold install_staged. rewrite (file_stem_part zim_dir n Hv).
  erewrite ebind_run by (rewrite db_read_quiet by done; rewrite Ho; reflexivity). cbn beta iota.
  erewrite ebind_run by (by apply rename_file_quiet). cbn beta iota.
  erewrite ebind_run by (unfold zims_resync; by apply task_quiet). cbn beta iota.
  erewrite ebind_run.
  2:{ rewrite db_call_quiet by done. unfold finalize_direct. cbn [w_db tick_step with_fs log_event].
      rewrite (execute_by_id id (fun r => bool_decide (status r = Downloading))), Hrow, bool_decide_true
        by (done || by intros r _ _ [=]). reflexivity. }
  cbn [Z.eqb]. destruct (str_is_empty _); [by eexists|].
  edestruct record_and_index_quiet as (w' & Hrun & Hdb & Hfs); [done|].
  erewrite bind_run by exact Hrun. eexists. split; [done|]. by rewrite Hdb, Hfs.
Qed.

End Finalize.

(** ** What the transfer does to the table *)

Section DirectSafe.
Context `{SqlLower, HttpReasons, UrlApi, Crypto}.

Lemma mark_error_safe id msg : DbSafe (db_exec (fun f => mark_error f id msg)).
Proof. db_op (OpMarkError id msg). Qed.

Lemma fail_row_safe {A} id msg : DbSafe (fail_row (A := A) id msg).
Proof. unfold fail_row. pose proof (mark_error_safe id msg). dbsafe. Qed.

Lemma observe_cancel_safe id part : DbSafe (observe_cancel id part).
Proof. unfold observe_cancel. dbsafe. Qed.

Lemma flush_buf_safe part b : DbSafe (flush_buf part b).
Proof. unfold flush_buf. dbsafe. Qed.

Lemma buf_write_safe part b chunk : DbSafe (buf_write part b chunk).
Proof. unfold buf_write. pose proof (flush_buf_safe part b). dbsafe. Qed.

Lemma progress_sample_safe id tot rec win start : DbSafe (progress_sample id tot rec win start).
Proof.
  unfold progress_sample. dbsafe. db_op (OpRefreshProgress id (progress_of rec tot) (window_speed win (saturating_sub a0 start))).
Qed.

#[local] Hint Resolve mark_error_safe fail_row_safe observe_cancel_safe flush_buf_safe buf_write_safe progress_sample_safe : dbsafe.

Lemma open_stream_safe refetch resp part resume_from max_bytes id :
  DbSafe (open_stream refetch resp part resume_from max_bytes id).
Proof.
  assert (Hf : DbSafe (fresh_fallback refetch part max_bytes id)) by (unfold fresh_fallback; dbsafe).
  unfold open_stream. dbsafe.
Qed.

Lemma stream_loop_safe id max_bytes part tot body : forall s, DbSafe (stream_loop id max_bytes part tot body s).
Proof. induction body as [|[chunk|e] body IH]; intros s; cbn; dbsafe. Qed.

#[local] Hint Resolve open_stream_safe stream_loop_safe : dbsafe.

Lemma discard_if_unowned_safe id dst : DbSafe (discard_if_unowned id dst).
Proof. unfold discard_if_unowned, zims_resync. dbsafe. Qed.

Lemma sha256_file_safe p : DbSafe (sha256_file p).
Proof. unfold sha256_file. dbsafe. Qed.

Lemma verify_zim_safe p : DbSafe (verify_zim p).
Proof. apply free_safe. intros env w. unfold verify_zim. repeat case_match; done. Qed.

#[local] Hint Resolve discard_if_unowned_safe sha256_file_safe verify_zim_safe : dbsafe.

Lemma finalize_direct_download_safe zim_dir id part : DbSafe (finalize_direct_download zim_dir id part).
Proof.
  assert (Hr : forall n d c, DbSafe (record_and_index id n d c)) by (intros; unfold record_and_index; dbsafe).
  assert (Hi : forall d c, DbSafe (install_staged zim_dir id part d c)).
  { intros d c. unfold install_staged, zims_resync. dbsafe. db_op (OpFinalize id (path_join zim_dir s) (Some d)). }
  assert (Hc : forall c, DbSafe (check_staged part c)) by (intros; unfold check_staged; dbsafe).
  unfold finalize_direct_download. dbsafe.
Qed.

#[local] Hint Resolve finalize_direct_download_safe : dbsafe.

(** A direct download, whatever the servers answer, only runs lifecycle
    statements. *)
Lemma direct_task_safe {Client} (net : option Z -> Network Client Body) refetch zim_dir ap max_bytes id u part :
  DbSafe (direct_task net refetch zim_dir ap max_bytes id u part).
Proof.
  assert (Hs : forall rf resp res, DbSafe (stream_part rf resp part res max_bytes id)) by (intros; unfold stream_part; dbsafe).
  assert (Hp : DbSafe (resume_plan part)) by (apply free_safe; done).
  unfold direct_task, direct_download. dbsafe.
Qed.

End DirectSafe.

(** ** Properties *)

(** The [Content-Range] of a 206 reply is read back exactly: for every
    range in [u64] the parser returns its first byte and its total, and the
    unsatisfied form [bytes */N] returns the total without a start. *)
Theorem content_range_roundtrip s t full :
  0 <= s <= u64_max -> 0 <= t <= u64_max -> 0 <= full <= u64_max ->
  content_range_parts ("bytes " +:+ pretty s +:+ "-" +:+ pretty t +:+ "/" +:+ pretty full) = Some (Some s, full) /\
  content_range_parts ("bytes */" +:+ pretty full) = Some (None, full).
Proof.
  intros Hs Ht Hf.
  assert (Hd : forall n c, 0 <= n -> digit c = None -> str_exists (Ascii.eqb c) (pretty n) = false).
  { intros n c Hn Hc. eapply str_forall_exists; [|by apply pretty_digits]. intros a Ha.
    apply Ascii.eqb_neq. intros <-. unfold is_digit_char in Ha. by rewrite Hc in Ha. }
  assert (Htrim : trim (pretty full) = pretty full).
  { apply trim_none. eapply str_forall_exists; [|apply pretty_digits; lia]. intros a. unfold is_digit_char, digit, ws_byte.
    destruct ((48 <=? byte a) && (byte a <=? 57)) eqn:E; [|done]. apply andb_prop in E as [?%Z.leb_le ?%Z.leb_le].
    intros _. repeat rewrite orb_false_iff. repeat rewrite andb_false_iff. rewrite !Z.leb_gt, Z.eqb_neq. lia. }
  assert (Hp : forall n, 0 <= n <= u64_max -> parse_u64 (pretty n) = Some n) by (intros; by apply parse_unsigned_pretty).
  unfold content_range_parts. split.
  - replace ("bytes " +:+ pretty s +:+ "-" +:+ pretty t +:+ "/" +:+ pretty full)
      with (("bytes " +:+ pretty s +:+ "-" +:+ pretty t) +:+ String "/" (pretty full))
      by by rewrite !str_app_assoc.
    rewrite split_once_char.
    2:{ cbn. rewrite !str_exists_app. cbn. by rewrite !Hd by (done || lia). }
    cbn [mbind option_bind]. rewrite Htrim, Hp by done. cbn [mbind option_bind].
    change ("bytes " +:+ pretty s +:+ "-" +:+ pretty t) with ("bytes" +:+ String " " (pretty s +:+ String "-" (pretty t))).
    rewrite split_once_char by done. cbn [mbind option_bind negb String.eqb Ascii.eqb Bool.eqb].
    rewrite split_once_char by (by apply Hd; [lia|]).
    destruct (String.eqb_spec (pretty s +:+ String "-" (pretty t)) "*") as [E|_].
    { exfalso. destruct (pretty s); cbn in E; [done|]. injection E as _ E. by destruct s0. }
    cbn [mbind option_bind]. by rewrite !Hp.
  - change ("bytes */" +:+ pretty full) with ("bytes *" +:+ String "/" (pretty full)).
    rewrite split_once_char by done. cbn [mbind option_bind]. by rewrite Htrim, Hp.
Qed.

Lemma content_range_roundtrip_witness :
  content_range_parts "bytes 5-9/18446744073709551615" = Some (Some 5, 18446744073709551615).
Proof. apply (content_range_roundtrip 5 9 18446744073709551615); int_lia. Defined.

(** C5: streaming integrity.  For a byte cap below [u64::MAX] and a resume
    point that is the length of the [.part] file (what [resume_plan] returns),
    whatever the server sends and whatever fails, only the [.part] file
    changes, and it is always untouched, gone, or a prefix of one consistent
    source: a fresh body from its first byte, or the bytes already on disk
    followed by a body whose server confirmed that the range starts exactly
    there (or that the file is complete).  A transfer that ends well and was
    not cancelled has every received byte on disk, within the byte cap; the
    total it reports is what that source declared, the [Content-Length] of a
    fresh body or the total of the [Content-Range] of a resumed one, and when
    there is one the file has exactly that many bytes. *)
Theorem stream_part_integrity `{SqlLower, HttpReasons} refetch resp part resume_from max_bytes id env w r w' :
  stream_part refetch resp part resume_from max_bytes id env w = (r, w') ->
  0 <= max_bytes < u64_max ->
  (forall from, resume_from = Some from -> exists f, w_fs w !! part = Some f /\ str_len (content f) = from) ->
  disk_post refetch resp part w w' /\
  forall out, r = Ok out -> cancelled out = false ->
    complete_post refetch resp part max_bytes w w' (size out) (total out).
Proof.
  intros Hr Hmax Hres. unfold stream_part in Hr. run_step Hr.
  2:{ eapply open_stream_post in Hr as [Hoth Hpart]; [|done]. split; [split; [done|tauto]|done]. }
  eapply open_stream_post in E as [Hoth (base & f0 & Hf0 & Hc & Hsrc & Hrec & Htot)]; [|done].
  change (match a with AppendStream from tot body => (from, tot, body) | FreshStream tot body => (0, tot, body) end)
    with (stream_base a) in Hr.
  destruct (stream_base a) as [[rec0 tot] body]. cbn [fst snd] in *. subst rec0.
  run_step Hr. apply fs_free_run in E; [|apply _]. run_step Hr. apply fs_free_run in E0; [|apply _].
  rewrite <- E, <- E0 in Hf0, Hoth. clear E E0.
  assert (Hpost : forall r1 w3, stream_loop id max_bytes part tot (chunks body) (mkLoop (str_len base) 0 a0 a1 EmptyString) env w2 = (r1, w3) ->
    loop_post part base max_bytes (chunks body) w2 r1 w3).
  { intros r1 w3 H1. eapply stream_loop_post in H1; [|by eauto|cbn; by rewrite str_app_nil_r|lia].
    cbn in H1. by rewrite str_app_nil_r in H1. }
  run_step Hr.
  2:{ apply Hpost in Hr as (Hq & Hp & _). split; [by eapply transfer_disk|done]. }
  apply Hpost in E as Hl. destruct a2 as [s cflag]. pose proof Hl as (_ & _ & _ & Hok).
  destruct (Hok s cflag eq_refl) as (k & Hrec & Hcap & Hbuf).
  assert (Hdisk : forall r1 w4, flush_buf part (buf s) env w3 = (r1, w4) -> disk_post refetch resp part w w4).
  { intros r1 w4 Hfl. destruct (flush_after_loop _ _ _ _ _ _ _ _ _ _ _ _ Hl Hbuf Hfl) as (Hq & Hp & _).
    eapply transfer_disk; [done..|]. intros f Hf. exists k. by apply Hp. }
  run_step Hr; [|by split; [eapply Hdisk|]]. destruct (flush_after_loop _ _ _ _ _ _ _ _ _ _ _ _ Hl Hbuf E0) as (_ & Hp & Hnone).
  apply Hdisk in E0. destruct a2.
  assert (Hgood : (forall t, tot = Some t -> received s = t) -> cflag = false ->
    complete_post refetch resp part max_bytes w w4 (received s) tot).
  { intros Ht Hcf. destruct (w_fs w4 !! part) as [f|] eqn:Ef; [|by rewrite Hnone in Hcf].
    destruct (Hp f eq_refl) as [_ Hsame]. specialize (Hsame eq_refl). exists f, base, body, k. rewrite Hsame.
    split_and!; auto. destruct Htot as [->|(t & Ht' & Hle)]; [cbn [str_len] in Hcap; lia|].
    by rewrite (Ht t Ht'). }
  destruct tot as [t|].
  - destruct (negb (received s =? t) && negb cflag) eqn:Ebad.
    + apply fail_row_post in Hr as [Her Hfs]. split; [|by intros out ->]. unfold disk_post. by rewrite Hfs.
    + injection Hr as <- <-. split; [done|]. intros out [= <-]. cbn. intros Hcf. apply Hgood; [|done].
      intros t' [= <-]. subst cflag. rewrite andb_true_r, negb_false_iff in Ebad. by apply Z.eqb_eq.
  - injection Hr as <- <-. split; [done|]. intros out [= <-]. cbn. intros Hcf. by apply Hgood.
Qed.

(** Five bytes on disk, the server confirms the range and sends the rest. *)
Definition resumed_world : World :=
  mkWorld empty_db {["/zim/w.zim.part" := mkFile "hello" 0]} 0 [].
Definition resumed_reply : Response Body :=
  mkResponse 206 None (mkBody (Some 6) (Some "bytes 5-10/11") [Ok " wor"; Ok "ld"]).
Definition idle : Env := quiet_env (fun _ => Err EmptyString) (fun _ => FileE).

Lemma stream_part_integrity_witness :
  let run := @stream_part ascii_sql bare_reasons (Err "unused") resumed_reply "/zim/w.zim.part" (Some 5) 100 1
               idle resumed_world in
  fst run = Ok (mkOutcome 11 (Some 11) false) /\
  w_fs (snd run) !! "/zim/w.zim.part" = Some (mkFile "hello world" 0) /\
  complete_post (Err "unused") resumed_reply "/zim/w.zim.part" 100 resumed_world (snd run) 11 (Some 11).
Proof.
  cbn zeta. split; [vm_compute; reflexivity|]. split; [vm_compute; reflexivity|].
  refine (proj2 (@stream_part_integrity ascii_sql bare_reasons (Err "unused") resumed_reply "/zim/w.zim.part" (Some 5) 100 1
            idle resumed_world (Ok (mkOutcome 11 (Some 11) false)) _ _ _ _) _ eq_refl eq_refl).
  - vm_compute. reflexivity.
  - int_lia.
  - intros from [= <-]. eexists. split; vm_compute; reflexivity.
Defined.

(** C6: what finalising may publish.  With any statements of other sessions
    before each of the call's own and any failure, only the [.part] file and
    its destination change; and if the destination ends up with new content,
    that is the staged file, it parsed as an archive, its digest is the
    catalog claim the row carried when the call read it (if it carried one),
    the row was not cancelled when the call looked again after the check, and
    no other live row owned the destination when the call asked, each read
    against the table as it was at that point of the call ([db_seen]).  When
    the call succeeds and the disk works, the [.part] file is gone on every
    path, the cancelled ones included. *)
Theorem finalize_publishes_checked `{SqlLower, Crypto} zim_dir n id env w r w' :
  let part := part_path zim_dir n in
  let dst := path_join zim_dir n in
  validate_download_name n = Ok tt ->
  finalize_direct_download zim_dir id part env w = (r, w') ->
  (forall q, q <> part -> q <> dst -> w_fs w' !! q = w_fs w !! q) /\
  (w_fs w' !! dst = w_fs w !! dst \/ w_fs w' !! dst = None \/
   exists f, w_fs w !! part = Some f /\ w_fs w' !! dst = Some f /\ w_fs w' !! part = None /\
     publishable env id dst f w) /\
  (r = Ok tt -> (forall k, e_io env k = None) -> w_fs w' !! part = None).
Proof.
  intros part dst Hv Hr. subst part dst. pose proof (part_path_ne zim_dir n) as Hne.
  apply finalize_cases in Hr as [[Hr|[Hr Hbad]]|(f & Hf & Hp & [Hr|Hr])]; [..|done]; rewrite Hr; split_and!.
  - intros q Hq _. by rewrite lookup_delete_ne.
  - left. by rewrite lookup_delete_ne.
  - by rewrite lookup_delete_eq.
  - done.
  - by left.
  - intros -> Hio. destruct Hbad as [|[k [x Hk]]]; [done|]. by rewrite Hio in Hk.
  - intros q Hq Hqd. by rewrite lookup_insert_ne, lookup_delete_ne.
  - right; right. exists f. rewrite lookup_insert_eq, lookup_insert_ne, lookup_delete_eq by done. done.
  - by rewrite lookup_insert_ne, lookup_delete_eq.
  - intros q Hq Hqd. by rewrite !lookup_delete_ne.
  - right; left. by rewrite lookup_delete_eq.
  - by rewrite lookup_delete_ne, lookup_delete_eq.
Qed.

(** C22: finalising without interference.  A downloading row whose staged file
    parses and whose destination is free ends complete with its path and
    measured digest, the file moved to its destination; but if the catalog
    claimed another digest the row ends in error, the staged bytes are
    deleted and nothing is published. *)
Theorem finalize_outcome `{SqlLower, Crypto} zim_dir n id env w row f :
  let part := part_path zim_dir n in
  let dst := path_join zim_dir n in
  let digest := sha256_hex (content f) in
  quiet env -> db_inv (w_db w) -> validate_download_name n = Ok tt ->
  rows (w_db w) !! id = Some row -> status row = Downloading ->
  w_fs w !! part = Some f -> e_zim env (content f) = Ok tt ->
  find_live_row_owns_path NoFault dst id (w_db w) = Ok None ->
  exists w', finalize_direct_download zim_dir id part env w = (Ok tt, w') /\
    if match Lifecycle.sha256 row with Some c => eq_ignore_ascii_case digest c | None => true end
    then w_fs w' = <[dst := f]> (delete part (w_fs w)) /\
         exists row', rows (w_db w') = <[id := row']> (rows (w_db w)) /\ status row' = Complete /\
           file_path row' = Some dst /\ Lifecycle.sha256 row' = Some digest /\ url row' = url row /\ name row' = name row
    else w_fs w' = delete part (w_fs w) /\
         exists row', rows (w_db w') = <[id := row']> (rows (w_db w)) /\ status row' = StError.
Proof.
  intros part dst digest Hq Hinv Hv Hrow Hst Hf Hz Ho.
  assert (Hstat : forall f, status_checked f id (w_db w) = match f with NoFault => Ok "downloading" | Failed e | ReplyLost e => Err e end).
  { intros []; [|done..]. unfold status_checked, query, select_status. rewrite Hrow. cbn. by rewrite Hst. }
  unfold finalize_direct_download.
  erewrite bind_run by (by apply db_read_quiet). unfold status_if_changed. rewrite Hstat. cbn [String.eqb Ascii.eqb Bool.eqb].
  erewrite ebind_run by (rewrite db_read_quiet by done; unfold claim_digest, query; cbn [w_db tick_step]; rewrite Hrow; reflexivity).
  cbn [mbind option_bind].
  assert (Hsha : sha256_file part env (tick_step (tick_step w)) = (Ok digest, tick_step (tick_step w))).
  { unfold sha256_file, bind, file_content. cbn. by rewrite Hf. }
  assert (Hver : verify_zim part env (tick_step (tick_step w)) = (Ok tt, tick_step (tick_step w))).
  { unfold verify_zim. cbn [w_fs tick_step]. by rewrite Hf, Hz. }
  set (good := match Lifecycle.sha256 row with Some c => eq_ignore_ascii_case digest c | None => true end).
  assert (Hchk : check_staged part (Lifecycle.sha256 row) env (tick_step (tick_step w)) =
    (Ok (digest, if good then None else Lifecycle.sha256 row), tick_step (tick_step w))).
  { unfold check_staged. rewrite (ebind_run _ _ _ _ _ _ Hsha). subst good.
    destruct (Lifecycle.sha256 row) as [c|]; [destruct (eq_ignore_ascii_case digest c); cbn [negb]|];
      rewrite ?(ebind_run _ _ _ _ _ _ Hver); done. }
  rewrite (ebind_run _ _ _ _ _ _ Hchk). destruct good eqn:Egood; subst good.
  - erewrite ebind_run by (rewrite db_read_quiet by done; cbn [w_db tick_step]; rewrite Hstat; reflexivity).
    cbn [String.eqb Ascii.eqb Bool.eqb as_str].
    edestruct (install_staged_quiet zim_dir n id digest (Lifecycle.sha256 row) env) as (w' & -> & Hdb & Hfs); eauto.
    exists w'. split; [done|]. split; [exact Hfs|]. eexists. by rewrite Hdb.
  - destruct (Lifecycle.sha256 row) as [c|] eqn:Ec; [|done]. cbn beta iota.
    erewrite bind_run by (by apply db_exec_quiet). erewrite bind_run by (by apply remove_file_quiet).
    eexists. split; [done|]. split; [done|]. cbn [w_db tick_step with_fs with_db].
    unfold mark_error. rewrite (execute_by_id id (fun r => negb (status_in (status r) [Cancelled; Complete; Seeding; StError])));
      [|done|by intros r _ _ [=]]. rewrite Hrow, Hst. eexists. split; reflexivity.
Qed.

(** A claimed download whose staged file is complete. *)
Definition staged_world (bytes : string) : World :=
  mkWorld (@db_run ascii_sql
      [(NoFault, OpInsert "w.zim" "http://x/w.zim"); (NoFault, OpClaimDirect 1 "/zim/w.zim.part")] empty_db)
    {["/zim/w.zim.part" := mkFile bytes 0]} 0 [].

(** Another session cancels the row just before the final update. *)
Definition cancelled_at_the_end : Env :=
  mkEnv (fun n => if Nat.eqb n 6 then [(NoFault, OpCancel 1)] else []) (fun _ => NoFault) (fun _ => 0) (fun _ => 0)
    (fun _ => Err EmptyString) (fun _ => None) (fun _ => Ok tt) (fun _ => mkInstallEnv 1 1 0 Linked None None)
    (fun _ _ => FileE) (fun _ => Ok tt) (fun _ => true).

Lemma finalize_publishes_checked_witness :
  let cut := @finalize_direct_download ascii_sql toy_crypto "/zim" 1 "/zim/w.zim.part" cancelled_at_the_end (staged_world "zim") in
  (status <$> rows (w_db (snd cut)) !! 1 = Some Cancelled /\
   w_fs (snd cut) !! "/zim/w.zim" = None /\ w_fs (snd cut) !! "/zim/w.zim.part" = None) /\
  @publishable ascii_sql toy_crypto idle 1 "/zim/w.zim" (mkFile "zim" 0) (staged_world "zim").
Proof.
  cbn zeta. split; [split; [vm_compute; reflexivity|split; [vm_compute; reflexivity|]]|].
  - apply (@finalize_publishes_checked ascii_sql toy_crypto "/zim" "w.zim" 1 cancelled_at_the_end (staged_world "zim") (Ok tt));
      [vm_compute; reflexivity..|done].
  - set (run := @finalize_direct_download ascii_sql toy_crypto "/zim" 1 "/zim/w.zim.part" idle (staged_world "zim")).
    destruct (@finalize_publishes_checked ascii_sql toy_crypto "/zim" "w.zim" 1 idle (staged_world "zim") (fst run) (snd run))
      as (_ & [E|[E|(f & Hf & _ & _ & Hp)]] & _).
    + vm_compute. reflexivity.
    + vm_compute. reflexivity.
    + exfalso. revert E. vm_compute. discriminate.
    + exfalso. revert E. vm_compute. discriminate.
    + assert (Ef : f = mkFile "zim" 0) by (revert Hf; vm_compute; by intros [= <-]).
      rewrite <- Ef. exact Hp.
Defined.

Lemma finalize_outcome_witness :
  exists w', @finalize_direct_download ascii_sql toy_crypto "/zim" 1 "/zim/w.zim.part" idle (staged_world "zim") = (Ok tt, w') /\
    w_fs w' = {["/zim/w.zim" := mkFile "zim" 0]}.
Proof.
  destruct (@finalize_outcome ascii_sql toy_crypto "/zim" "w.zim" 1 idle (staged_world "zim")
    (set_path (Some "/zim/w.zim.part") (set_status Downloading (fresh_row "w.zim" "http://x/w.zim" None Queued f32_zero 0)))
    (mkFile "zim" 0)) as (w' & Hrun & Hfs & _).
  - apply quiet_env_quiet.
  - apply db_run_inv, empty_db_inv.
  - reflexivity.
  - vm_compute. reflexivity.
  - reflexivity.
  - vm_compute. reflexivity.
  - reflexivity.
  - vm_compute. reflexivity.
  - exists w'. split; [exact Hrun|]. rewrite Hfs. vm_compute. reflexivity.
Defined.
