(* ===== verification/Inflight.v ===== *)
(** * Inflight: in-flight rows and the completion of torrents

    [src/torrent/poller/inflight.rs] and [src/torrent/poller/complete.rs]: the
    hash-first, name-fallback match of a row with a qBittorrent entry, the
    seeding branch, and the completion handler with its ownership checks,
    install, guarded row update and digest record. *)

From S2P Require Import Prelude RustStr Errors Floats Auth Snapshots Lifecycle Torrent Files World Direct.

Definition MISSING_TORRENT_GRACE : Z := 10 * 60 * 1000000.
Definition VISIBILITY_TOUCH_AFTER : Z := 60 * 1000000.

(** ** The seeding decision ([poller/mod.rs]) *)

Inductive SeedingAction := Refresh | Done | FatalDone | Pending.

#[global] Instance SeedingAction_eq_dec : EqDecision SeedingAction.
Proof. solve_decision. Defined.

Definition seeding_row_action (t : option TorrentInfo) (grace_expired : bool) : SeedingAction :=
  match t with
  | Some t => if is_fatal t then FatalDone else Refresh
  | None => if grace_expired then Done else Pending
  end.

Definition visibility_touch_due (updated_at now : Z) : bool := VISIBILITY_TOUCH_AFTER <? now - updated_at.

(** ** Matching *)

(** [iter.collect::<HashMap<_, _>>()]: the last entry of a key stays. *)
Definition collect_by {A} (key : A -> string) (l : list A) : gmap string A :=
  foldl (fun m t => <[key t := t]> m) ∅ l.

Section Inflight.
Context `{SqlLower, HttpReasons, Crypto, CaseFold} (decode : string -> result string (list TorrentInfo))
  (zim_dir : string).

Definition torrent_identity (t : TorrentInfo) : string :=
  if str_is_empty (t_hash t) then "name:" +:+ to_lowercase (t_name t) else t_hash t.

Definition index_by_hash (torrents : list TorrentInfo) : gmap string TorrentInfo := collect_by t_hash torrents.
Definition index_by_name (torrents : list TorrentInfo) : gmap string TorrentInfo :=
  collect_by (fun t => to_lowercase (t_name t)) torrents.

Definition or_else {A} (a b : option A) : option A := match a with Some x => Some x | None => b end.

Definition opt_filter {A} (f : A -> bool) (o : option A) : option A :=
  match o with Some x => if f x then Some x else None | None => None end.

(** The name-or-URL fallback, skipping what an earlier row took. *)
Definition match_by_name (name url : string) (by_name : gmap string TorrentInfo) (consumed : gset string) :
    option TorrentInfo :=
  opt_filter (fun t => negb (bool_decide (torrent_identity t ∈ consumed)))
    (or_else (by_name !! to_lowercase name) (by_name !! to_lowercase url)).

Definition match_inflight_torrent (h : option string) (name url : string)
    (by_hash by_name : gmap string TorrentInfo) (consumed : gset string) : option TorrentInfo :=
  match h with
  | Some h => by_hash !! h
  | None => match_by_name name url by_name consumed
  end.

Definition consume (t : option TorrentInfo) (consumed : gset string) : gset string :=
  match t with Some t => {[ torrent_identity t ]} ∪ consumed | None => consumed end.

(** ** Completion ([poller/complete.rs]) *)

Definition content_dir (t : TorrentInfo) : string := default EmptyString (or_else (t_content_path t) (t_save_path t)).

Definition locate_content (t : TorrentInfo) : M (Result string) :=
  ask (fun env n => locate_torrent_zim (e_tree env n (content_dir t)) (content_dir t)).

(** Verify, then install. *)
Definition verify_and_install (zim_file strategy : string) : M (Result string) :=
  let! _ := verify_zim zim_file in
  fun env w =>
    let '(r, fs) := install_zim (e_install env (w_step w)) zim_file zim_dir strategy (w_fs w) in
    (r, tick_step (with_fs fs w)).

(** Record the observed digest of an installed torrent file. *)
Definition record_torrent_digest (id : Z) (dst h : string) : M unit :=
  let* d := sha256_file dst in
  match d with
  | Err _ => ret tt
  | Ok digest =>
      let* _ := db_call (fun f => record_observed_digest f id digest) in
      let* prev := db_read (fun f => prior_observed_digest_by_hash f id h) in
      let drift := match prev with Ok (Some p) => drift_decision (Some p) digest | _ => false end in
      let zname := default EmptyString (file_stem dst) in
      if str_is_empty zname then ret tt
      else let* _ := task (EvDigest zname digest None drift) in ret tt
  end.

(** What follows the install: the guarded row update; a miss after an install
    discards the file, otherwise the digest, the removal from qBittorrent and
    the index run. *)
Definition settle_complete (id : Z) (t : TorrentInfo) (qbit : bool) (p : PollerParams) (skipped : bool)
    (dst : string) : M (Result unit) :=
  let! _ := zims_resync in
  let keep_seeding := p_keep_completed p && qbit in
  let opt {A} (x : A) := if keep_seeding then Some x else None in
  let! updated := db_call (fun f => mark_complete f id dst (if keep_seeding then Seeding else Complete)
                             (opt (f64_to_f32 (t_ratio t))) (opt (kibs_to_bps (t_upspeed t))) (opt (t_num_seeds t))) in
  if (updated =? 0) && negb skipped then
    let* _ := discard_if_unowned id dst in ret (Ok tt)
  else
    let! row_digest := db_read (fun f => claim_digest f id) in
    let needs_digest := if skipped then match row_digest with None => true | Some _ => false end else true in
    let* _ := (if needs_digest then record_torrent_digest id dst (t_hash t) else ret tt) in
    let* _ := (if negb (p_keep_completed p) && qbit then let* _ := q_delete (t_hash t) in ret tt else ret tt) in
    let* _ := (match file_stem dst with
               | Some n => if str_is_empty n then ret tt else emit (EvIndex n)
               | None => ret tt
               end) in
    ret (Ok tt).

Definition skip_install (id : Z) (msg : string) : M (Result unit) :=
  let* _ := db_exec (fun f => mark_error f id msg) in
  ret (Ok tt).

Definition handle_complete (id : Z) (name : string) (t : TorrentInfo) (qbit : bool) (p : PollerParams)
    (file_path : option string) : M (Result unit) :=
  let* skipped := (match file_path with Some fp => file_exists fp | None => ret false end) in
  let* expected_dst :=
    (if skipped then ret file_path
     else let* z := locate_content t in
          ret (match z with Ok z => path_join zim_dir <$> file_name z | Err _ => None end)) in
  let! same := db_read (fun f => find_same_name_live_row f name id) in
  match same with
  | Some other =>
      skip_install id ("install skipped: same-named download already active/installed (row " +:+ pretty other +:+ ")")
  | None =>
      let! owner := (match expected_dst with
                     | Some d => db_read (fun f => find_live_row_owns_path f d id)
                     | None => ret (Ok None)
                     end) in
      match owner with
      | Some other => skip_install id ("install skipped: destination already owned by live row " +:+ pretty other)
      | None =>
          let* _ := (match p_seed_ratio p with
                     | Some ratio => if qbit && SFltb f64_zero ratio
                                     then let* _ := q_set_ratio_limit (t_hash t) in ret tt else ret tt
                     | None => ret tt
                     end) in
          let! dst := (if skipped then ret (Ok (default EmptyString file_path))
                       else let! z := locate_content t in verify_and_install z (p_file_strategy p)) in
          settle_complete id t qbit p skipped dst
      end
  end.

(** ** The in-flight loop ([poller/inflight.rs]) *)

Definition fatal_message (t : TorrentInfo) : string :=
  default ("torrent state: " +:+ t_state t) (t_err_str t).

Definition seeding_row (id : Z) (r : Row) (t : option TorrentInfo) (qb_available : bool) : M (Result unit) :=
  let* now := ask e_clock in
  let grace_expired := (match t with None => true | Some _ => false end) && qb_available &&
                       (MISSING_TORRENT_GRACE <? now - updated_at r) in
  match seeding_row_action t grace_expired, t with
  | FatalDone, Some t => db_call (fun f => settle_seeding f id (Some (fatal_message t)))
  | Refresh, Some t =>
      if stats_changed (progress r) (ratio r) (num_seeds r) t
      then db_call (fun f => refresh_seeding_stats f id (f64_to_f32 (t_ratio t)) (kibs_to_bps (t_upspeed t))
                               (t_num_seeds t) (kibs_to_bps (t_dlspeed t)))
      else ret (Ok tt)
  | Done, _ => db_call (fun f => settle_seeding f id None)
  | _, _ => ret (Ok tt)
  end.

(** [mark_fatal_error(..).await?]. *)
Definition mark_fatal (id : Z) (msg : string) : M (Result unit) :=
  let! _ := db_call (fun f => mark_fatal_error f id msg) in
  ret (Ok tt).

(** A downloading row: the stats row to write, if any. *)
Definition downloading_row (id : Z) (r : Row) (t : option TorrentInfo) (qbit qb_available : bool)
    (p : PollerParams) : M (Result (list StatsRow)) :=
  let* now := ask e_clock in
  match t with
  | Some t =>
      let! _ := (if visibility_touch_due (updated_at r) now then db_call (fun f => touch_downloading f id)
                 else ret (Ok 0)) in
      let! _ := (if bool_decide (hash r = Some (t_hash t)) then ret (Ok tt)
                 else db_call (fun f => bind_hash f id (t_hash t))) in
      if is_fatal t then
        let! _ := mark_fatal id (fatal_message t) in ret (Ok [])
      else if is_complete t then
        let* c := handle_complete id (name r) t qbit p (file_path r) in
        match c with
        | Ok _ => ret (Ok [])
        | Err e => let! _ := mark_fatal id (error_display e) in ret (Ok [])
        end
      else if stats_changed (progress r) (ratio r) (num_seeds r) t then
        let eta := eta_secs_of (saturating_sub_i64 (t_size t) (t_downloaded t)) (t_dlspeed t) in
        ret (Ok [mkStats id (f64_to_f32 (t_progress t)) (kibs_to_bps (t_dlspeed t)) eta
                   (Some (f64_to_f32 (t_ratio t))) (kibs_to_bps (t_upspeed t)) (t_num_seeds t)])
      else ret (Ok [])
  | None =>
      if qb_available && (MISSING_TORRENT_GRACE <? now - updated_at r) then
        let! _ := mark_fatal id "torrent not found in qBittorrent" in ret (Ok [])
      else ret (Ok [])
  end.

(** The match of each row that is not a direct download, in order, with the
    entries earlier rows took; nothing the loop does changes it. *)
Fixpoint inflight_matches (by_hash by_name : gmap string TorrentInfo) (rs : list (Z * Row))
    (consumed : gset string) : list (Z * Row * option TorrentInfo) :=
  match rs with
  | [] => []
  | (id, r) :: rest =>
      if is_direct_zim_url (url r) then inflight_matches by_hash by_name rest consumed
      else
        let t := match_inflight_torrent (hash r) (name r) (url r) by_hash by_name consumed in
        (id, r, t) :: inflight_matches by_hash by_name rest (consume t consumed)
  end.

Fixpoint inflight_loop (qbit qb_available : bool) (p : PollerParams)
    (ms : list (Z * Row * option TorrentInfo)) : M (Result (list StatsRow)) :=
  match ms with
  | [] => ret (Ok [])
  | (id, r, t) :: rest =>
      let! changed := (if bool_decide (status r = Seeding)
                       then let! _ := seeding_row id r t qb_available in ret (Ok [])
                       else downloading_row id r t qbit qb_available p) in
      let! more := inflight_loop qbit qb_available p rest in
      ret (Ok (changed ++ more))
  end.

Definition process_inflight (by_hash by_name : gmap string TorrentInfo) (qbit qb_available : bool)
    (p : PollerParams) (rs : list (Z * Row)) : M (Result (list StatsRow)) :=
  inflight_loop qbit qb_available p (if qbit then inflight_matches by_hash by_name rs ∅ else []).

Definition flush_stats (changed : list StatsRow) : M unit :=
  let* _ := db_call (fun f => apply_stats_batch f changed) in
  ret tt.

End Inflight.

(** ** Lemmas: matching *)

Lemma collect_by_key {A} (key : A -> string) l k t : collect_by key l !! k = Some t -> key t = k /\ t ∈ l.
Proof.
  unfold collect_by. cut (forall m : gmap string A, (forall k t, m !! k = Some t -> key t = k) ->
    foldl (fun m t => <[key t := t]> m) m l !! k = Some t -> key t = k /\ (t ∈ l \/ m !! k = Some t)).
  { intros Hc Hl. destruct (Hc ∅) as [? [|]]; [done|done|done|done]. }
  induction l as [|x l IH]; intros m Hm; cbn; [by eauto|].
  intros Hl. apply IH in Hl as [Hk [Hin|Hin]].
  - split; [done|]. left. by right.
  - split; [done|]. destruct (decide (key x = k)) as [<-|Hne].
    + rewrite lookup_insert_eq in Hin. injection Hin as ->. left. by left.
    + rewrite lookup_insert_ne in Hin by done. auto.
  - intros k' t'. destruct (decide (key x = k')) as [<-|Hne].
    + rewrite lookup_insert_eq. by intros [= ->].
    + rewrite lookup_insert_ne by done. apply Hm.
Qed.

Section Matching.
Context `{CaseFold}.

Lemma match_by_name_fresh n u by_name consumed t :
  match_by_name n u by_name consumed = Some t -> torrent_identity t ∉ consumed.
Proof.
  unfold match_by_name, opt_filter. destruct (or_else _ _) as [x|]; [|done].
  case_bool_decide as Hb; [done|]. by intros [= <-].
Qed.

(** What a row matched earlier is taken from then on. *)
Lemma matches_consumed by_hash by_name rs : forall consumed i id r t,
  inflight_matches by_hash by_name rs consumed !! i = Some (id, r, Some t) ->
  hash r = None -> torrent_identity t ∉ consumed.
Proof.
  induction rs as [|[id0 r0] rs IH]; intros consumed i id r t Hi Hh; [done|]. cbn in Hi.
  destruct (is_direct_zim_url (url r0)); [by eapply IH|].
  destruct i as [|i]; cbn in Hi.
  - injection Hi as -> -> Ht. rewrite Hh in Ht. by eapply match_by_name_fresh.
  - apply IH in Hi; [|done]. unfold consume in Hi. destruct (match_inflight_torrent _ _ _ _ _ _); set_solver.
Qed.

Lemma matches_distinct by_hash by_name rs : forall consumed i j id r t id' r' t',
  (i < j)%nat ->
  inflight_matches by_hash by_name rs consumed !! i = Some (id, r, Some t) ->
  inflight_matches by_hash by_name rs consumed !! j = Some (id', r', Some t') ->
  hash r' = None -> torrent_identity t <> torrent_identity t'.
Proof.
  induction rs as [|[id0 r0] rs IH]; intros consumed i j id r t id' r' t' Hij Hi Hj Hh; [done|].
  cbn in Hi, Hj. destruct (is_direct_zim_url (url r0)); [by eapply IH|].
  destruct j as [|j]; [lia|]. destruct i as [|i]; cbn in Hi, Hj; [|eapply IH; [|done..]; lia].
  injection Hi as -> -> Ht. apply matches_consumed in Hj; [|done]. rewrite Ht in Hj. cbn in Hj. set_solver.
Qed.

End Matching.

(** ** Lemmas: the completion handler *)

Section Completion.
Context `{SqlLower, Crypto} (zim_dir : string).

#[local] Instance sha256_file_fs path : FsFree (sha256_file path).
Proof. unfold sha256_file. apply bind_fs; [apply _|]. intros []; apply _. Qed.

#[local] Instance record_torrent_digest_fs id dst h : FsFree (record_torrent_digest id dst h).
Proof.
  unfold record_torrent_digest. apply bind_fs; [apply _|]. intros [d|e]; [|apply _].
  apply bind_fs; [apply _|]. intros _. apply bind_fs; [apply _|]. intros prev. destruct (str_is_empty _); apply _.
Qed.

#[local] Instance q_delete_fs h : FsFree (q_delete h).
Proof. unfold q_delete. apply _. Qed.

#[local] Instance skip_install_fs id msg : FsFree (skip_install id msg).
Proof. unfold skip_install. apply _. Qed.

#[local] Instance verify_zim_fs path : FsFree (verify_zim path).
Proof. intros env w. unfold verify_zim. repeat case_match; done. Qed.

#[local] Instance locate_content_fs t : FsFree (locate_content t).
Proof. unfold locate_content. apply _. Qed.

(** Settling moves no file; it only may discard the one just installed. *)
Lemma settle_complete_fs id t qbit p skipped dst env w r w' :
  settle_complete id t qbit p skipped dst env w = (r, w') ->
  w_fs w' = w_fs w \/ (w_fs w' = delete dst (w_fs w) /\ skipped = false).
Proof.
  unfold settle_complete. intros Hr. run_step Hr; [|left; by apply fs_free_run in Hr; [|unfold zims_resync; apply _]].
  apply fs_free_run in E; [|unfold zims_resync; apply _].
  run_step Hr; [|left; apply fs_free_run in Hr; [congruence|apply _]].
  apply fs_free_run in E0; [|apply _]. rewrite <- E, <- E0. destruct ((a0 =? 0) && negb skipped) eqn:Em.
  - run_step Hr. injection Hr as <- <-. apply discard_spec in E1 as [E1|E1]; [by left|right].
    split; [done|]. apply andb_prop in Em as [_ Hs]. by destruct skipped.
  - left. apply fs_free_run in Hr; [done|]. apply ebind_fs; [apply _|]. intros d.
    apply bind_fs; [destruct skipped, d; apply _|]. intros _.
    apply bind_fs; [destruct (negb _ && _); apply _|]. intros _.
    apply bind_fs; [|apply _]. destruct (file_stem dst); [destruct (str_is_empty _)|]; apply _.
Qed.

(** Installing from a torrent. *)
Lemma verify_and_install_fs z strategy env w r w' q :
  verify_and_install zim_dir z strategy env w = (r, w') ->
  (forall file n, file_name z = Some file -> q <> path_join zim_dir file /\ q <> install_tmp (e_install env n) zim_dir file) ->
  match file_name q with Some n => contains ".zim.tmp-" n = false | None => True end ->
  w_fs w' !! q = w_fs w !! q /\ forall dst, r = Ok dst -> exists file, file_name z = Some file /\ dst = path_join zim_dir file.
Proof.
  intros Hr Hne Hq. unfold verify_and_install in Hr. run_step Hr.
  2:{ apply fs_free_run in Hr; [|apply _]. split; [by rewrite Hr|done]. }
  apply fs_free_run in E; [|apply _].
  destruct (install_zim _ _ _ _ _) as [r0 fs] eqn:Ei. injection Hr as <- <-. cbn. rewrite <- E. split.
  - eapply install_zim_frame; [done|by intros file Hf; apply Hne|done].
  - intros dst ->. unfold install_zim in Ei. destruct (file_name z) as [file|]; [|done]. exists file. split; [done|].
    destruct (fill_tmp _ _ _ _ _) as [[[]|] ?]; [|done]. destruct (rename _ _ _ _) as [[[]|] ?]; by simplify_eq.
Qed.

Lemma find_live_none f dst id db j row :
  find_live_row_owns_path f dst id db = Ok None -> rows db !! j = Some row -> j <> id ->
  status_in (status row) LIVE = true -> file_path row <> Some dst.
Proof.
  intros Hf%query_ok Hj Hne Hl Hp. symmetry in Hf.
  apply (first_id_none _ _ _ _ Hf) in Hj. rewrite Hl, andb_true_r, (bool_decide_true _ Hp) in Hj.
  by rewrite (proj2 (Z.eqb_neq _ _) Hne) in Hj.
Qed.

(** Locating and installing leaves alone every file that is not the expected
    destination. *)
Lemma install_step_fs t strategy env w r w' q :
  (forall n, e_tree env n = e_tree env 0%nat) ->
  match locate_torrent_zim (e_tree env 0%nat (content_dir t)) (content_dir t) with
  | Ok z => path_join zim_dir <$> file_name z | Err _ => None end <> Some q ->
  (forall n file, q <> install_tmp (e_install env n) zim_dir file) ->
  match file_name q with Some f => contains ".zim.tmp-" f = false | None => True end ->
  (let! z := locate_content t in verify_and_install zim_dir z strategy) env w = (r, w') ->
  w_fs w' !! q = w_fs w !! q /\ r <> Ok q.
Proof.
  intros Htree Hwant Htmp Hshape Hr. unfold ebind, bind, locate_content, ask in Hr. rewrite Htree in Hr.
  destruct (locate_torrent_zim _ _) as [z|e]; [|by injection Hr as <- <-].
  assert (Hfile : forall file n, file_name z = Some file -> q <> path_join zim_dir file /\ q <> install_tmp (e_install env n) zim_dir file).
  { intros file n Hf. rewrite Hf in Hwant. split; [intros ->; by apply Hwant|apply Htmp]. }
  eapply verify_and_install_fs in Hr as [Hfs Hdst]; [|done|done]. split; [done|]. intros ->.
  destruct (Hdst q eq_refl) as (file & Hf & ->). by destruct (Hfile file 0%nat Hf).
Qed.

End Completion.

(** ** Lemmas: completion without interference *)

(** Only events other than a deletion are logged. *)
Definition quiet_log (h : string) (w w' : World) : Prop :=
  EvDelete h ∈ w_log w' <-> EvDelete h ∈ w_log w.

(** The row [id] ends with this path and status; the table keeps its invariant. *)
Definition settled (id : Z) (dst : string) (s : DownloadStatus) (w : World) : Prop :=
  db_inv (w_db w) /\ exists row, rows (w_db w) !! id = Some row /\ file_path row = Some dst /\ status row = s.

Section QuietCompletion.
Context `{SqlLower, Crypto} (env : Env) (Hq : quiet env).

Lemma task_quiet_log ev w h : (forall h, ev <> EvDelete h) ->
  exists w', task ev env w = (Ok tt, w') /\ w_db w' = w_db w /\ w_fs w' = w_fs w /\ quiet_log h w w'.
Proof.
  intros Hev. rewrite task_quiet by done. eexists. split; [done|]. split_and!; [done|done|].
  unfold quiet_log. cbn. rewrite elem_of_app, list_elem_of_singleton. naive_solver.
Qed.

Lemma record_digest_stmt_quiet id d dst s w :
  settled id dst s w -> s = Seeding \/ s = Complete ->
  exists n, fst (record_observed_digest NoFault id d (w_db w)) = Ok n /\
    settled id dst s (tick_step (with_db (snd (record_observed_digest NoFault id d (w_db w))) w)).
Proof.
  intros (Hinv & row & Hrow & Hpath & Hs) Hsc.
  pose proof (db_step_inv NoFault (OpRecordDigest id d) (w_db w) Hinv) as Hinv'. cbn [db_step] in Hinv'. revert Hinv'.
  unfold record_observed_digest. rewrite (execute_by_id id (fun r => status_in (status r) [Complete; Seeding]));
    [|done|intros r Hr; rewrite Hrow in Hr; injection Hr as <-; cbn; rewrite Hs; by destruct Hsc as [-> | ->]].
  rewrite Hrow, Hs. replace (status_in s [Complete; Seeding]) with true by by destruct Hsc as [-> | ->].
  intros Hinv'. eexists. split; [done|]. split; [done|]. eexists. cbn. rewrite lookup_insert_eq. done.
Qed.

Lemma record_torrent_digest_quiet id dst h h' s w :
  settled id dst s w -> s = Seeding \/ s = Complete ->
  exists w', record_torrent_digest id dst h env w = (tt, w') /\ settled id dst s w' /\ w_fs w' = w_fs w /\ quiet_log h' w w'.
Proof.
  intros Hset Hs. unfold record_torrent_digest, sha256_file.
  destruct (w_fs w !! dst) as [f|] eqn:Ef.
  2:{ erewrite bind_run by (unfold bind, file_content; rewrite Ef; reflexivity). by eexists. }
  erewrite bind_run by (unfold bind, file_content; rewrite Ef; reflexivity). cbn beta iota.
  erewrite bind_run by (by apply db_call_quiet). erewrite bind_run by (by apply db_read_quiet).
  destruct (record_digest_stmt_quiet id (sha256_hex (content f)) dst s w Hset Hs) as (n & _ & Hset').
  destruct (str_is_empty _); [by eexists|].
  match goal with |- context [task ?ev] => destruct (task_quiet_log ev
    (tick_step (tick_step (with_db (snd (record_observed_digest NoFault id (sha256_hex (content f)) (w_db w))) w))) h')
    as (w' & Hrun & Hdb & Hfs & Hlog); [done|] end.
  erewrite bind_run by exact Hrun. exists w'. split; [done|]. unfold settled. rewrite Hdb, Hfs. done.
Qed.

(** The guarded row update of a downloading row. *)
Lemma mark_complete_quiet id dst s ra up seeds w row :
  db_inv (w_db w) -> rows (w_db w) !! id = Some row -> status row = Downloading -> s = Seeding \/ s = Complete ->
  exists w', db_call (fun f => mark_complete f id dst s ra up seeds) env w = (Ok 1, w') /\
    settled id dst s w' /\ w_fs w' = w_fs w /\ w_log w' = w_log w.
Proof.
  intros Hinv Hrow Hst Hs. rewrite db_call_quiet by done.
  pose proof (db_step_inv NoFault (OpMarkComplete id dst s ra up seeds) (w_db w) Hinv) as Hinv'. cbn [db_step] in Hinv'. revert Hinv'.
  unfold mark_complete. destruct Hs as [-> | ->];
    (rewrite (execute_by_id id (fun r => status_in (status r) completion_guard_statuses)); [|done|by intros ? _ _ [=]]);
    rewrite Hrow, Hst; cbn [status_in completion_guard_statuses fst snd]; intros Hinv'; (eexists; split; [done|]); (split; [|done]);
    (split; [done|]); eexists; (split; [apply lookup_insert_eq|done]).
Qed.

(** The whole of [settle_complete] after an install. *)
Lemma settle_complete_quiet id t p dst w row :
  db_inv (w_db w) -> rows (w_db w) !! id = Some row -> status row = Downloading ->
  exists w', settle_complete id t true p false dst env w = (Ok tt, w') /\ w_fs w' = w_fs w /\
    settled id dst (if p_keep_completed p then Seeding else Complete) w' /\
    (EvDelete (t_hash t) ∈ w_log w' <-> EvDelete (t_hash t) ∈ w_log w \/ p_keep_completed p = false).
Proof.
  intros Hinv Hrow Hst. unfold settle_complete.
  destruct (task_quiet_log EvResync w (t_hash t)) as (w1 & Hr1 & Hdb1 & Hfs1 & Hlog1); [done|].
  erewrite ebind_run by (exact Hr1). cbn beta iota. rewrite andb_true_r.
  set (s := if p_keep_completed p then Seeding else Complete).
  assert (Hs : s = Seeding \/ s = Complete) by (subst s; destruct (p_keep_completed p); auto).
  edestruct (mark_complete_quiet id dst s) as (w2 & Hr2 & Hset2 & Hfs2 & Hlog2); [by rewrite Hdb1|by rewrite Hdb1|done|done|].
  erewrite ebind_run by (exact Hr2). cbn [Z.eqb andb].
  erewrite ebind_run by (rewrite db_read_quiet by done; reflexivity). cbn beta iota.
  destruct (record_torrent_digest_quiet id dst (t_hash t) (t_hash t) s (tick_step w2) Hset2 Hs) as (w3 & Hr3 & Hset3 & Hfs3 & Hlog3).
  erewrite bind_run by exact Hr3.
  assert (Hbase : EvDelete (t_hash t) ∈ w_log w3 <-> EvDelete (t_hash t) ∈ w_log w).
  { unfold quiet_log in Hlog1, Hlog3. cbn [w_log tick_step] in Hlog3. rewrite Hlog2 in Hlog3. by rewrite Hlog3. }
  assert (Hidx : forall w4, exists w5,
    (let* _ := (match file_stem dst with Some n => if str_is_empty n then ret tt else emit (EvIndex n) | None => ret tt end) in
     ret (Ok tt)) env w4 = (Ok tt : Result unit, w5) /\ w_db w5 = w_db w4 /\ w_fs w5 = w_fs w4 /\ quiet_log (t_hash t) w4 w5).
  { intros w4. destruct (file_stem dst) as [n|]; [destruct (str_is_empty n)|]; eexists; (split; [reflexivity|]); split_and!; try done.
    unfold quiet_log. cbn. rewrite elem_of_app, list_elem_of_singleton. naive_solver. }
  destruct (p_keep_completed p); cbn [negb andb].
  - erewrite bind_run by reflexivity. destruct (Hidx w3) as (w5 & -> & Hdb5 & Hfs5 & Hlog5). exists w5.
    split; [done|]. unfold settled. rewrite Hdb5, Hfs5, Hfs3. cbn. rewrite Hfs2, Hfs1. split; [done|]. split; [done|].
    unfold quiet_log in Hlog5. rewrite Hlog5, Hbase. naive_solver.
  - erewrite bind_run by (unfold q_delete; reflexivity).
    edestruct Hidx as (w5 & -> & Hdb5 & Hfs5 & Hlog5). exists w5.
    split; [done|]. unfold settled. rewrite Hdb5, Hfs5. cbn. rewrite Hfs3. cbn. rewrite Hfs2, Hfs1. split; [done|]. split; [done|].
    unfold quiet_log in Hlog5. rewrite Hlog5. cbn. rewrite elem_of_app, list_elem_of_singleton. naive_solver.
Qed.

End QuietCompletion.

(** ** What the pass does to the table *)

Section InflightSafe.
Context `{SqlLower, Crypto, CaseFold} (zim_dir : string).

Lemma q_delete_safe h : DbSafe (q_delete h).
Proof. unfold q_delete. dbsafe. Qed.

#[local] Hint Resolve mark_error_safe discard_if_unowned_safe sha256_file_safe verify_zim_safe q_delete_safe : dbsafe.

Lemma handle_complete_safe id name t qbit p fp : DbSafe (handle_complete zim_dir id name t qbit p fp).
Proof.
  assert (Hd : forall dst h, DbSafe (record_torrent_digest id dst h)).
  { intros dst h. unfold record_torrent_digest. dbsafe. db_op (OpRecordDigest id a). }
  assert (Hs : forall skipped dst, DbSafe (settle_complete id t qbit p skipped dst)).
  { intros skipped dst. unfold settle_complete, zims_resync. apply ebind_safe; [dbsafe|intros _].
    apply ebind_safe; [|intros n; dbsafe]. destruct (p_keep_completed p && qbit);
      [db_op (OpMarkComplete id dst Seeding (Some (f64_to_f32 (t_ratio t))) (Some (kibs_to_bps (t_upspeed t))) (Some (t_num_seeds t)))
      |db_op (OpMarkComplete id dst Complete None None None)]. }
  assert (Hi : forall z st, DbSafe (verify_and_install zim_dir z st)).
  { intros z st. unfold verify_and_install. apply ebind_safe; [dbsafe|]. intros _. apply free_safe.
    intros env w. by destruct (install_zim _ _ _ _ _). }
  unfold handle_complete, skip_install, locate_content, q_set_ratio_limit. dbsafe.
Qed.

#[local] Hint Resolve handle_complete_safe : dbsafe.

Lemma mark_fatal_safe id msg : DbSafe (mark_fatal id msg).
Proof. unfold mark_fatal. apply ebind_safe; [db_op (OpMarkFatal id msg)|]. intros _. dbsafe. Qed.

Lemma seeding_row_safe id r t qa : DbSafe (seeding_row id r t qa).
Proof.
  unfold seeding_row. apply bind_safe; [dbsafe|]. intros now.
  destruct (seeding_row_action _ _), t as [t|]; try apply ret_safe.
  - destruct (stats_changed _ _ _ _); [|apply ret_safe].
    db_op (OpRefreshSeeding id (f64_to_f32 (t_ratio t)) (kibs_to_bps (t_upspeed t)) (t_num_seeds t) (kibs_to_bps (t_dlspeed t))).
  - db_op (OpSettle id None).
  - db_op (OpSettle id None).
  - db_op (OpSettle id (Some (fatal_message t))).
Qed.

#[local] Hint Resolve mark_fatal_safe seeding_row_safe : dbsafe.

Lemma downloading_row_safe id r t qbit qa p : DbSafe (downloading_row zim_dir id r t qbit qa p).
Proof.
  unfold downloading_row. dbsafe.
  - db_op (OpTouch id).
  - db_op (OpBindHash id (t_hash t)).
Qed.

#[local] Hint Resolve downloading_row_safe : dbsafe.

Lemma process_inflight_safe by_hash by_name qbit qa p rs : DbSafe (process_inflight zim_dir by_hash by_name qbit qa p rs).
Proof.
  unfold process_inflight. generalize (if qbit then inflight_matches by_hash by_name rs ∅ else []) as ms.
  induction ms as [|[[id r] t] ms IH]; cbn [inflight_loop]; dbsafe.
Qed.

Lemma flush_stats_safe changed : DbSafe (flush_stats changed).
Proof. unfold flush_stats. apply bind_safe; [db_op (OpStats changed)|]. intros _. dbsafe. Qed.

End InflightSafe.

(** ** Properties *)

(** Matching is exclusive.  A row bound to a hash matches only the entry
    with that hash; a row without one never gets an entry an earlier row of
    the pass already matched, so two unbound rows of one name never install
    the same torrent. *)
Theorem inflight_matching_exclusive `{CaseFold} torrents rs :
  let ms := inflight_matches (index_by_hash torrents) (index_by_name torrents) rs ∅ in
  (forall i id r t h, ms !! i = Some (id, r, Some t) -> hash r = Some h -> t_hash t = h /\ t ∈ torrents) /\
  forall i j id r t id' r' t', (i < j)%nat -> ms !! i = Some (id, r, Some t) -> ms !! j = Some (id', r', Some t') ->
    hash r' = None -> torrent_identity t <> torrent_identity t'.
Proof.
  cbn zeta. split; [|intros; by eapply matches_distinct].
  generalize (∅ : gset string) as consumed. induction rs as [|[id0 r0] rs IH]; intros consumed i id r t h Hi Hh; [done|].
  cbn in Hi. destruct (is_direct_zim_url (url r0)); [by eapply IH|]. destruct i as [|i]; [|by eapply IH].
  injection Hi as -> -> Ht. rewrite Hh in Ht. by apply collect_by_key in Ht.
Qed.

Definition demo_torrent (h n : string) : TorrentInfo :=
  mkTorrent h n f64_one "uploading" 0 0 f64_zero None None None 0 0 0 None.

Lemma inflight_matching_exclusive_witness :
  let ts := [demo_torrent "aa" "Wiki"; demo_torrent "bb" "News"] in
  let row n := fresh_row n "magnet:x" None Downloading f32_zero 0 in
  @inflight_matches ascii_fold (index_by_hash ts) (@index_by_name ascii_fold ts) [(1, row "wiki"); (2, row "WIKI"); (3, row "news")] ∅
  = [(1, row "wiki", Some (demo_torrent "aa" "Wiki")); (2, row "WIKI", None); (3, row "news", Some (demo_torrent "bb" "News"))] /\
  @torrent_identity ascii_fold (demo_torrent "aa" "Wiki") <> @torrent_identity ascii_fold (demo_torrent "bb" "News").
Proof.
  cbn zeta. split; [vm_compute; reflexivity|].
  eapply (proj2 (@inflight_matching_exclusive ascii_fold [demo_torrent "aa" "Wiki"; demo_torrent "bb" "News"]
    [(1, fresh_row "wiki" "magnet:x" None Downloading f32_zero 0); (2, fresh_row "WIKI" "magnet:x" None Downloading f32_zero 0);
     (3, fresh_row "news" "magnet:x" None Downloading f32_zero 0)]) 0%nat 2%nat);
    [lia|vm_compute; reflexivity..].
Defined.

(** The guarantee does not cover the other order: an unbound row that is
    processed first takes the entry by name, and the row bound to its hash
    then matches the same entry in the same pass. *)
Theorem bound_row_matches_taken_entry :
  let t := demo_torrent "aa" "Wiki" in
  let unbound := fresh_row "wiki" "magnet:x" None Downloading f32_zero 0 in
  let bound := fresh_row "other" "magnet:y" (Some "aa") Downloading f32_zero 0 in
  @inflight_matches ascii_fold (index_by_hash [t]) (@index_by_name ascii_fold [t]) [(1, unbound); (2, bound)] ∅
  = [(1, unbound, Some t); (2, bound, Some t)].
Proof. vm_compute. reflexivity. Qed.

(** An outage is not an absence.  When the torrent list could not be
    fetched (no entries, not available), the in-flight pass changes nothing,
    whatever the age of the rows, and the statistics it hands on write
    nothing. *)
Theorem outage_leaves_rows_alone `{SqlLower, Crypto, CaseFold} zim_dir qbit p rs env w :
  exists w', process_inflight zim_dir ∅ ∅ qbit false p rs env w = (Ok [], w') /\
    w_db w' = w_db w /\ w_fs w' = w_fs w /\ w_log w' = w_log w /\
    forall f db, apply_stats_batch f [] db = (Ok tt, db).
Proof.
  assert (Hnone : Forall (fun m => snd m = None) (inflight_matches ∅ ∅ rs ∅)).
  { generalize (∅ : gset string) as consumed. induction rs as [|[id r] rs IH]; intros consumed; cbn; [constructor|].
    destruct (is_direct_zim_url (url r)); [done|]. constructor; [|apply IH].
    unfold match_inflight_torrent, match_by_name. cbn. destruct (hash r); by rewrite !lookup_empty. }
  unfold process_inflight. destruct qbit; [|by eexists]. revert w Hnone.
  generalize (inflight_matches ∅ ∅ rs ∅) as ms. intros ms w Hms. revert w.
  induction Hms as [|[[id r] t] ms Ht _ IH]; intros w; [by eexists|]. cbn in Ht. subst t.
  cbn [inflight_loop]. destruct (IH (tick_step w)) as (w' & Hrun & Hdb & Hfs & Hlog & Hst).
  exists w'. split; [|done]. erewrite ebind_run by (case_bool_decide; reflexivity). cbn beta.
  by rewrite (ebind_run _ _ _ _ _ _ Hrun).
Qed.

(** C34: completion never touches another row's file.  When a live row owns the
    path [q], completing any other torrent leaves [q] as it is: at most the
    row is refused.  Statements, files and the install may fail at any point;
    no other session runs, and the torrent's directory does not change
    between the two lookups. *)
Theorem completion_keeps_live_files `{SqlLower, Crypto} zim_dir id name t qbit p fp env w r w' j row q :
  alone env -> (forall n, e_tree env n = e_tree env 0%nat) ->
  rows (w_db w) !! j = Some row -> j <> id -> status_in (status row) LIVE = true -> file_path row = Some q ->
  (forall n file, q <> install_tmp (e_install env n) zim_dir file) ->
  match file_name q with Some f => contains ".zim.tmp-" f = false | None => True end ->
  handle_complete zim_dir id name t qbit p fp env w = (r, w') ->
  w_fs w' !! q = w_fs w !! q.
Proof.
  intros Ha Htree Hj Hne Hlive Hq Htmp Hshape Hr. unfold handle_complete in Hr.
  run_step Hr. assert (Ew : w0 = w) by (destruct fp; by injection E as <- <-). subst w0. clear E. rename a into skipped.
  set (loc := locate_torrent_zim (e_tree env 0%nat (content_dir t)) (content_dir t)).
  set (want := if skipped then fp else match loc with Ok z => path_join zim_dir <$> file_name z | Err _ => None end).
  run_step Hr. assert (Hexp : a = want /\ w_fs w0 = w_fs w /\ w_db w0 = w_db w).
  { subst want loc. destruct skipped; [by injection E as <- <-|]. unfold locate_content in E. cbn in E.
    rewrite Htree in E. by injection E as <- <-. }
  destruct Hexp as (-> & Efs & Edb). clear E. rewrite <- Efs.
  run_step Hr; [|by apply fs_free_run in Hr as ->; [|apply _]].
  apply db_read_alone in E as (Edb1 & Efs1 & _); [|done]. rewrite <- Efs1.
  destruct a as [other|]; [by apply fs_free_run in Hr as ->; [|apply _]|].
  run_step Hr; [|by destruct want; apply fs_free_run in Hr as ->; [|apply _|done|apply _]].
  destruct a as [other|]; [apply fs_free_run in Hr as ->; [|apply _]; destruct want; by apply fs_free_run in E as ->; [|apply _]|].
  assert (Hown : want <> Some q /\ w_fs w2 = w_fs w1).
  { destruct want as [d|] eqn:Ewant; [|by injection E as <-].
    apply db_read_alone in E as (_ & Efs2 & Hfind); [|done]. split; [|done]. intros [= ->].
    rewrite Edb1, Edb in Hfind. by eapply find_live_none. }
  clear E. destruct Hown as [Hown Efs2]. rewrite <- Efs2.
  run_step Hr. apply fs_free_run in E; [|destruct (p_seed_ratio p); [destruct (qbit && _)|]; apply _]. rewrite <- E. clear E.
  destruct skipped.
  - run_step Hr; [|done]. injection E as <- <-. by apply settle_complete_fs in Hr as [->|[_ ?]].
  - run_step Hr; [|by eapply install_step_fs in Hr as [-> _]].
    edestruct install_step_fs as [Hsame Hdst]; [done..|]. apply settle_complete_fs in Hr as [->|[-> _]]; [done|].
    rewrite lookup_delete_ne; [done|]. intros ->. by eapply Hdst.
Qed.

(** Row 1 owns the installed file; torrent row 2 would install over it. *)
Definition contested_world : World :=
  mkWorld (@db_run ascii_sql
      [(NoFault, OpInsert "a.zim" "http://x/a.zim"); (NoFault, OpClaimDirect 1 "/zim/a.zim.part");
       (NoFault, OpFinalize 1 "/zim/a.zim" None); (NoFault, OpInsert "b" "magnet:b"); (NoFault, OpMarkDownloading 2)] empty_db)
    {["/zim/a.zim" := mkFile "mine" 0; "/dl/a.zim" := mkFile "theirs" 0]} 0 [].
Definition seed_torrent : TorrentInfo :=
  mkTorrent "bb" "b" f64_one "uploading" 0 0 f64_zero None None (Some "/dl/a.zim") 0 0 0 None.
Definition seed_params : PollerParams := mkParams None "zim" "/dl" None "copy" true false EmptyString false false 1000.

Lemma completion_keeps_live_files_witness :
  let run := @handle_complete ascii_sql toy_crypto "/zim" 2 "b" seed_torrent true seed_params None
               idle contested_world in
  (status <$> rows (w_db (snd run)) !! 2) = Some StError /\
  w_fs (snd run) !! "/zim/a.zim" = w_fs contested_world !! "/zim/a.zim".
Proof.
  cbn zeta. split; [vm_compute; reflexivity|].
  eapply (@completion_keeps_live_files ascii_sql toy_crypto "/zim" 2 "b" seed_torrent true seed_params None
    idle contested_world (Ok tt) _ 1 (set_path (Some "/zim/a.zim") (set_progress f32_one (set_status Complete
      (fresh_row "a.zim" "http://x/a.zim" None Queued f32_zero 0))))).
  - done.
  - done.
  - vm_compute. reflexivity.
  - done.
  - reflexivity.
  - reflexivity.
  - intros n file E. unfold install_tmp, join_with_extension in E. change "/zim/a.zim" with (path_join "/zim" "a.zim") in E.
    apply path_join_inj, (f_equal String.length) in E. rewrite str_length_app in E. cbn in E. lia.
  - reflexivity.
  - vm_compute. reflexivity.
Defined.

(** C18: completion without interference.  A finished torrent whose archive is
    found, parses and installs, with no live row of its name and a free
    destination, ends with the archive's bytes installed and the row seeding
    or complete at that path; the torrent is deleted from qBittorrent exactly
    when completed downloads are not kept. *)
Theorem completion_outcome `{SqlLower, Crypto} zim_dir id name t p env w row z file f :
  let dst := path_join zim_dir file in
  quiet env -> db_inv (w_db w) -> rows (w_db w) !! id = Some row -> status row = Downloading ->
  (forall n, locate_torrent_zim (e_tree env n (content_dir t)) (content_dir t) = Ok z) ->
  file_name z = Some file -> contains ".zim.tmp-" file = false -> w_fs w !! z = Some f ->
  e_zim env (content f) = Ok tt ->
  (forall n, w_fs w !! install_tmp (e_install env n) zim_dir file = None) ->
  (forall n, fst (install_zim (e_install env n) z zim_dir (p_file_strategy p) (w_fs w)) = Ok dst) ->
  find_same_name_live_row NoFault name id (w_db w) = Ok None ->
  find_live_row_owns_path NoFault dst id (w_db w) = Ok None ->
  exists w', handle_complete zim_dir id name t true p None env w = (Ok tt, w') /\
    content <$> w_fs w' !! dst = Some (content f) /\
    (exists row', rows (w_db w') !! id = Some row' /\ file_path row' = Some dst /\
       status row' = (if p_keep_completed p then Seeding else Complete)) /\
    (EvDelete (t_hash t) ∈ w_log w' <-> EvDelete (t_hash t) ∈ w_log w \/ p_keep_completed p = false).
Proof.
  intros dst Hq Hinv Hrow Hst Hloc Hfile Hshape Hf Hz Htmp Hinst Hsame Hown. unfold handle_complete.
  erewrite bind_run by reflexivity. cbn beta iota.
  assert (Hl : forall w0, locate_content t env w0 = (Ok z, tick_step w0)).
  { intros w0. unfold locate_content, ask. by rewrite Hloc. }
  erewrite bind_run by (erewrite bind_run by apply Hl; reflexivity). rewrite Hfile. cbn [fmap option_fmap option_map]. fold dst.
  erewrite ebind_run by (rewrite db_read_quiet by done; cbn [w_db tick_step]; rewrite Hsame; reflexivity). cbn beta iota.
  erewrite ebind_run by (rewrite db_read_quiet by done; cbn [w_db tick_step]; rewrite Hown; reflexivity). cbn beta iota.
  set (w0 := tick_step (tick_step (tick_step w))).
  assert (Hratio : exists w1, (match p_seed_ratio p with
      | Some ratio => if true && SFltb f64_zero ratio then let* _ := q_set_ratio_limit (t_hash t) in ret tt else ret tt
      | None => ret tt end) env w0 = (tt, w1) /\ w_db w1 = w_db w /\ w_fs w1 = w_fs w /\ quiet_log (t_hash t) w w1).
  { destruct (p_seed_ratio p) as [x|]; [destruct (true && _)|]; eexists; (split; [reflexivity|]); split_and!; try done.
    unfold quiet_log. cbn. rewrite elem_of_app, list_elem_of_singleton. naive_solver. }
  destruct Hratio as (w1 & Hr1 & Hdb1 & Hfs1 & Hlog1). erewrite bind_run by exact Hr1.
  assert (Hi : exists fs', install_zim (e_install env (w_step (tick_step w1))) z zim_dir (p_file_strategy p) (w_fs w) = (Ok dst, fs')).
  { specialize (Hinst (w_step (tick_step w1))). destruct (install_zim _ _ _ _ _) as [r fs']. cbn in Hinst. subst r. by exists fs'. }
  destruct Hi as [fs' Ei]. pose proof Ei as Hspec. eapply install_zim_spec in Hspec as [[_ Hdst] _]; [|done..].
  erewrite ebind_run.
  2:{ erewrite ebind_run by apply Hl. unfold verify_and_install.
      erewrite ebind_run by (unfold verify_zim; cbn; rewrite Hfs1, Hf, Hz; reflexivity).
      cbn [w_fs w_step tick_step]. cbn [w_step tick_step] in Ei. rewrite Hfs1, Ei. reflexivity. }
  edestruct (settle_complete_quiet env Hq id t p dst) as (w' & -> & Hfs' & [_ (row' & Hset)] & Hlog'); [| | |exists w'].
  - cbn. by rewrite Hdb1.
  - cbn. by rewrite Hdb1.
  - done.
  - split; [done|]. split; [by rewrite Hfs'|]. split; [by exists row'|]. unfold quiet_log in Hlog1. rewrite Hlog'. cbn. by rewrite Hlog1.
Qed.

Definition finished_world : World :=
  mkWorld (@db_run ascii_sql [(NoFault, OpInsert "b" "magnet:b"); (NoFault, OpMarkDownloading 1)] empty_db)
    {["/dl/a.zim" := mkFile "zim" 0]} 0 [].

Lemma completion_outcome_witness :
  exists w', @handle_complete ascii_sql toy_crypto "/zim" 1 "b" seed_torrent true seed_params None idle finished_world = (Ok tt, w') /\
    content <$> w_fs w' !! "/zim/a.zim" = Some "zim" /\
    exists row, rows (w_db w') !! 1 = Some row /\ file_path row = Some "/zim/a.zim" /\ status row = Seeding.
Proof.
  destruct (@completion_outcome ascii_sql toy_crypto "/zim" 1 "b" seed_torrent seed_params idle finished_world
    (set_status Downloading (fresh_row "b" "magnet:b" None Queued f32_zero 0)) "/dl/a.zim" "a.zim" (mkFile "zim" 0))
    as (w' & Hrun & Hfile & Hrow & _).
  - apply quiet_env_quiet.
  - apply db_run_inv, empty_db_inv.
  - vm_compute. reflexivity.
  - reflexivity.
  - intros n. vm_compute. reflexivity.
  - vm_compute. reflexivity.
  - vm_compute. reflexivity.
  - vm_compute. reflexivity.
  - reflexivity.
  - intros n. vm_compute. reflexivity.
  - intros n. vm_compute. reflexivity.
  - vm_compute. reflexivity.
  - vm_compute. reflexivity.
  - exists w'. auto.
Defined.
