(* ===== verification/Discovery.v ===== *)
(** * Discovery: scanning the ZIM directory

    [src/zim/discovery.rs]: the scan that decides which files of the ZIM
    directory are archives, with their names and stat data. *)

From stdpp Require Import sorting.
From S2P Require Import Prelude RustStr Errors Files Direct.

(** Name, path and [(mtime, size)]. *)
Abbreviation ScanEntry := (string * string * option (Z * Z))%type.

Definition snapshot_entry (fs : Fs) (p : string) : option (Z * Z) :=
  (fun f => (mtime f, str_len (content f))) <$> fs !! p.

Definition scan_name_le (a b : ScanEntry) : Prop := String.leb (fst (fst a)) (fst (fst b)) = true.

#[global] Instance scan_name_le_dec a b : Decision (scan_name_le a b).
Proof. unfold scan_name_le. apply _. Defined.

(** One directory entry. *)
Definition scan_entry (fs : Fs) (dir p : string) : option ScanEntry :=
  if in_dir dir p && is_zim_path p then
    (fun stem => (stem, p, snapshot_entry fs p)) <$> file_stem p
  else None.

(** The files of a flat directory; [read_dir] gives them in any order. *)
Definition scan_snapshot_blocking (dir : string) (fs : Fs) : list ScanEntry :=
  merge_sort scan_name_le (omap (fun kv => scan_entry fs dir (fst kv)) (map_to_list fs)).

Definition scan_directory (dir : string) (fs : Fs) : list string :=
  (fun e => fst (fst e)) <$> scan_snapshot_blocking dir fs.

(** ** Lemmas *)

Lemma elem_of_scan dir fs n p st :
  (n, p, st) ∈ scan_snapshot_blocking dir fs <->
  is_Some (fs !! p) /\ in_dir dir p = true /\ is_zim_path p = true /\ file_stem p = Some n /\ st = snapshot_entry fs p.
Proof.
  unfold scan_snapshot_blocking. rewrite merge_sort_Permutation, list_elem_of_omap. split.
  - intros ([p' f] & Hin & Hs). apply elem_of_map_to_list in Hin. unfold scan_entry in Hs. cbn [fst] in Hs.
    destruct (in_dir dir p' && is_zim_path p') eqn:E; [|done]. apply andb_prop in E as [? ?].
    destruct (file_stem p') as [stem|] eqn:Es; [|done]. injection Hs as <- <- <-. split_and!; eauto.
  - intros ([f Hf] & Hd & Hz & Hs & ->). exists (p, f). split; [by apply elem_of_map_to_list|].
    unfold scan_entry. cbn [fst]. by rewrite Hd, Hz, Hs.
Qed.

Lemma in_dir_join dir n : is_component n -> n <> ".." -> in_dir dir (path_join dir n) = true.
Proof. intros Hc Hd. unfold in_dir. rewrite file_name_join by done. apply String.eqb_refl. Qed.

(** A valid download name is one component of the directory. *)
Lemma valid_name_component n : validate_download_name n = Ok tt -> is_component n /\ n <> "..".
Proof.
  intros Hv. pose proof (valid_name_ne n Hv) as Hne.
  assert (Hdd : contains ".." (trim n) = false /\ starts_with "." (trim n) = false).
  { unfold validate_download_name in Hv. repeat (case_match; try done). }
  assert (Hslash : str_exists slash n = false).
  { destruct (valid_name_confined EmptyString n Hv) as (Hc & _).
    change (components (n +:+ ".part") = [n +:+ ".part"]) in Hc.
    pose proof (components_wf (n +:+ ".part")) as Hw. rewrite Hc in Hw. apply Forall_singleton in Hw as (Hs & _).
    rewrite str_exists_app, orb_false_iff in Hs. apply Hs. }
  split; [split_and!; [done|done|]|]; intros ->; by destruct Hdd.
Qed.

(** ** Properties *)

(** Which installed downloads the library sees.  After a direct download
    is installed under its name, the directory scan reports it exactly when
    the name itself ends in the archive extension; a name without a dot is
    never reported, although the row is complete.  The names derived from the
    catalog have their extension removed. *)
Theorem installed_is_discovered_iff dir n fs f :
  validate_download_name n = Ok tt ->
  ((exists stem st, (stem, path_join dir n, st) ∈ scan_snapshot_blocking dir (<[path_join dir n := f]> fs)) <->
   is_zim_path (path_join dir n) = true) /\
  (contains_char "."%char n = false -> is_zim_path (path_join dir n) = false).
Proof.
  intros Hv. destruct (valid_name_component n Hv) as [Hc Hd]. split.
  - setoid_rewrite elem_of_scan. split; [by intros (? & ? & _ & _ & ? & _)|]. intros Hz.
    eexists (fst (split_extension n)), _. rewrite lookup_insert_eq, in_dir_join by done.
    unfold file_stem. rewrite file_name_join by done. split_and!; eauto.
  - intros Hdot. unfold is_zim_path, path_extension. rewrite file_name_join by done. cbn.
    unfold split_extension. by rewrite (proj2 (rfind_lacks _ _)).
Qed.

Lemma installed_is_discovered_iff_witness :
  is_zim_path (path_join "/zim" "wikipedia_en_all_maxi_2024-06") = false /\
  (exists stem st, (stem, "/zim/w.zim", st) ∈ scan_snapshot_blocking "/zim" (<["/zim/w.zim" := mkFile "zim" 0]> ∅)).
Proof.
  split.
  - apply (installed_is_discovered_iff "/zim" "wikipedia_en_all_maxi_2024-06" ∅ (mkFile "zim" 0)); reflexivity.
  - apply (installed_is_discovered_iff "/zim" "w.zim" ∅ (mkFile "zim" 0)); reflexivity.
Defined.
