(* ===== verification/Opds.v ===== *)
(** * Opds: the catalog and its updates

    [src/torrent/opds.rs] and [src/torrent/poller/opds.rs]: reading a catalog
    feed (a fold over the events of the XML reader), the digest claim of an
    entry, the date tag of an archive name, the choice of one update per
    local archive, and the queueing of updates keyed by URL and claim.  What the
    choice promises is stated over the entries themselves ([update_spec]): the
    date in a name, the age and the rank are relations of their own. *)

From S2P Require Import Prelude RustStr Errors Floats NetGuard Auth Lifecycle Torrent Files World Direct Discovery.

(** ** Entries *)

Record OpdsLink := mkLink {
  l_rel : option string; l_href : option string; l_media_type : option string;
  l_hash : option string; l_digest : option string
}.

Record OpdsEntry := mkEntry {
  en_id : option string; en_title : option string; en_updated : option string; en_links : list OpdsLink
}.

Record OpdsUpdate := mkUpdate {
  u_local_name : string; u_catalog_name : string; u_title : option string;
  u_download_url : string; u_digest : option string
}.

Definition opt_test {A} (f : A -> bool) (o : option A) : bool :=
  match o with Some x => f x | None => false end.

Definition download_link (e : OpdsEntry) : option OpdsLink :=
  List.find (fun l =>
    match l_href l with
    | None => false
    | Some href =>
        opt_test (contains "acquisition") (l_rel l) ||
        (ends_with ".zim" href || opt_test (contains "zim") (l_media_type l))
    end) (en_links e).

Definition download_url (e : OpdsEntry) : option string := download_link e ≫= l_href.

(** ** Digests *)

Definition is_hex_digit (a : ascii) : bool :=
  match hex_value (byte a) with Some _ => true | None => false end.

Definition hex_sha256 (s : string) : option string :=
  let lower := to_ascii_lowercase s in
  if negb (str_len lower =? 64) || negb (str_forall is_hex_digit lower) then None else Some lower.

Definition is_ascii_whitespace (a : ascii) : bool :=
  let z := byte a in (z =? 9) || (z =? 10) || (z =? 12) || (z =? 13) || (z =? 32).

Fixpoint str_filter (f : ascii -> bool) (s : string) : string :=
  match s with
  | EmptyString => EmptyString
  | String a s' => if f a then String a (str_filter f s') else str_filter f s'
  end.

Section Digest.
(** The base64 crate's standard engine. *)
Context {b64_engine : string -> option (list Z)}.

Definition b64_decode (s : string) : option (list Z) :=
  b64_engine (str_filter (fun a => negb (is_ascii_whitespace a)) s).

Definition b64_decode_32 (s : string) : option (list Z) :=
  bs ← b64_decode s;
  if Nat.eqb (length bs) 32 then Some bs else None.

Definition non_empty (s : string) : option string := if str_is_empty s then None else Some s.

Definition parse_digest (hash digest : option string) : option string :=
  let hex_val := h ← hash; h ← non_empty (trim h); hex_sha256 h in
  let b64_val := d ← digest; d ← non_empty (trim d); hex_encode <$> b64_decode_32 d in
  match hex_val, b64_val with
  | Some a, Some b => if String.eqb a b then Some a else None
  | Some a, None => Some a
  | None, b => b
  end.

Definition download_digest (e : OpdsEntry) : option string :=
  l ← download_link e; parse_digest (l_hash l) (l_digest l).

End Digest.

(** ** Reading the feed *)

(** The events of the XML reader the loop distinguishes: local names as text
    (empty when not UTF-8), attribute pairs that parsed, text as read and as
    unescaped ([None] when unescaping fails). *)
Inductive XmlEvent :=
| XStart (name : string)
| XEmpty (name : string) (attrs : list (string * string))
| XEnd (name : string)
| XText (raw : string) (unescaped : option string)
| XEof
| XError
| XOther.

Inductive TextTarget := TId | TTitle | TUpdated.

Record Parser := mkParser { entries : list OpdsEntry; cur : option OpdsEntry; target : option TextTarget }.

Definition text_target (name : string) : option TextTarget :=
  if String.eqb name "id" then Some TId
  else if String.eqb name "title" then Some TTitle
  else if String.eqb name "updated" then Some TUpdated
  else None.

Definition link_attr (l : OpdsLink) (kv : string * string) : OpdsLink :=
  let '(k, v) := kv in
  if String.eqb k "rel" then mkLink (Some v) (l_href l) (l_media_type l) (l_hash l) (l_digest l)
  else if String.eqb k "href" then mkLink (l_rel l) (Some v) (l_media_type l) (l_hash l) (l_digest l)
  else if String.eqb k "type" then mkLink (l_rel l) (l_href l) (Some v) (l_hash l) (l_digest l)
  else if String.eqb k "hash" then mkLink (l_rel l) (l_href l) (l_media_type l) (Some v) (l_digest l)
  else if String.eqb k "digest" then mkLink (l_rel l) (l_href l) (l_media_type l) (l_hash l) (Some v)
  else l.

Definition set_text (t : TextTarget) (s : string) (e : OpdsEntry) : OpdsEntry :=
  match t with
  | TId => mkEntry (Some s) (en_title e) (en_updated e) (en_links e)
  | TTitle => mkEntry (en_id e) (Some s) (en_updated e) (en_links e)
  | TUpdated => mkEntry (en_id e) (en_title e) (Some s) (en_links e)
  end.

Definition is_some {A} (o : option A) : bool := match o with Some _ => true | None => false end.

(** One event; [None] leaves the loop. *)
Definition parse_event (p : Parser) (ev : XmlEvent) : option Parser :=
  match ev with
  | XStart name =>
      if String.eqb name "entry" then Some (mkParser (entries p) (Some (mkEntry None None None [])) (target p))
      else match text_target name with
           | Some t => if is_some (cur p) then Some (mkParser (entries p) (cur p) (Some t)) else Some p
           | None => Some p
           end
  | XEmpty name attrs =>
      match String.eqb name "link", cur p with
      | true, Some e =>
          let l := foldl link_attr (mkLink None None None None None) attrs in
          if is_some (l_rel l) || is_some (l_href l)
          then Some (mkParser (entries p) (Some (mkEntry (en_id e) (en_title e) (en_updated e) (en_links e ++ [l]))) (target p))
          else Some p
      | _, _ => Some p
      end
  | XEnd name =>
      if String.eqb name "entry" then
        let done := match cur p with
                    | Some e => if is_some (en_id e) || is_some (en_title e) then [e] else []
                    | None => []
                    end in
        Some (mkParser (entries p ++ done) None None)
      else match text_target name with
           | Some _ => Some (mkParser (entries p) (cur p) None)
           | None => Some p
           end
  | XText raw unescaped =>
      match target p, cur p with
      | Some t, Some e =>
          let s := default raw unescaped in
          if str_is_empty (trim s) then Some p else Some (mkParser (entries p) (Some (set_text t s e)) (target p))
      | _, _ => Some p
      end
  | XEof | XError => None
  | XOther => Some p
  end.

Fixpoint parse_events (evs : list XmlEvent) (p : Parser) : list OpdsEntry :=
  match evs with
  | [] => entries p
  | ev :: evs' =>
      match parse_event p ev with
      | Some p' => parse_events evs' p'
      | None => entries p
      end
  end.

Definition parse_catalog (evs : list XmlEvent) : list OpdsEntry := parse_events evs (mkParser [] None None).

Definition MAX_OPDS_BYTES : Z := 10 * 1024 * 1024.

Definition check_opds_budget (declared : option Z) (actual : Z) : Result unit :=
  let post :=
    if MAX_OPDS_BYTES <? actual
    then Err (Torrent Other ("OPDS catalog response is " +:+ pretty actual +:+ " bytes (budget " +:+ pretty MAX_OPDS_BYTES +:+ ")"))
    else Ok tt in
  match declared with
  | Some cl =>
      if MAX_OPDS_BYTES <? cl
      then Err (Torrent Other ("OPDS catalog response exceeds the " +:+ pretty MAX_OPDS_BYTES +:+
                               "-byte budget (Content-Length: " +:+ pretty cl +:+ ")"))
      else post
  | None => post
  end.

(** ** Names and versions *)

Definition parse_u32 : string -> option Z := parse_unsigned u32_max.

Definition parse_date_tag (s : string) : option (Z * Z) :=
  match split_on (Ascii.eqb "-"%char) s with
  | [y; m] =>
      if (str_len y =? 4) && (str_len m =? 2)
      then y ← parse_u32 y; m ← parse_u32 m; Some (y, m) else None
  | [y; m; d] =>
      if (str_len y =? 4) && (str_len m =? 2) && (str_len d =? 2)
      then y ← parse_u32 y; m ← parse_u32 m; Some (y, m) else None
  | [y] =>
      if (str_len y =? 6) && str_forall is_digit_char y
      then a ← parse_u32 (str_take 4 y); b ← parse_u32 (str_drop 4 y); Some (a, b) else None
  | _ => None
  end.

Definition base_and_version (name : string) : string * option (Z * Z) :=
  match rfind "_"%char name with
  | Some pos =>
      match parse_date_tag (str_drop (pos + 1) name) with
      | Some v => (str_take pos name, Some v)
      | None => (name, None)
      end
  | None => (name, None)
  end.

Definition catalog_name_from_url (u : string) : option string :=
  let file := strip_query_fragment (split_last (Ascii.eqb "/"%char) u) in
  name ← strip_suffix ".zim" (to_ascii_lowercase file);
  non_empty name.

(** [&s[..s.floor_char_boundary(s.len().min(7))]]. *)
Definition prefix7 (s : string) : string := str_take (floor_char_boundary (Nat.min (String.length s) 7) s) s.

Definition candidate_rank (cat_version : option (Z * Z)) (updated : option string) : Z * Z :=
  match cat_version with
  | Some v => v
  | None =>
      match updated with
      | None => (0, 0)
      | Some u =>
          match split_on (Ascii.eqb "-"%char) (prefix7 u) with
          | [y; m] =>
              if (str_len y =? 4) && (str_len m =? 2)
              then (default 0 (parse_u32 y), default 0 (parse_u32 m)) else (0, 0)
          | _ => (0, 0)
          end
      end
  end.

(** [a < b] on pairs. *)
Definition version_lt (a b : Z * Z) : bool :=
  (fst a <? fst b) || ((fst a =? fst b) && (snd a <? snd b)).

(** ** Choosing updates *)

Record UpdateCandidate := mkCandidate {
  c_rank : Z * Z; c_entry : OpdsEntry; c_version : option (Z * Z);
  c_name : string; c_url : string; c_digest : option string
}.

Section Updates.
Context {b64_engine : string -> option (list Z)}.

(** The candidate of an entry and its key, unless it has no archive URL. *)
Definition candidate_of (e : OpdsEntry) : option (string * UpdateCandidate) :=
  u ← download_url e;
  name ← catalog_name_from_url u;
  let '(base, v) := base_and_version name in
  Some (to_ascii_lowercase base,
        mkCandidate (candidate_rank v (en_updated e)) e v name u (download_digest (b64_engine := b64_engine) e)).

Definition push_candidate (m : gmap string (list UpdateCandidate)) (e : OpdsEntry) :
    gmap string (list UpdateCandidate) :=
  match candidate_of e with
  | Some (base, c) => <[base := default [] (m !! base) ++ [c]]> m
  | None => m
  end.

Definition candidate_index (es : list OpdsEntry) : gmap string (list UpdateCandidate) :=
  foldl push_candidate ∅ es.

Definition is_newer (c : UpdateCandidate) (local_version : option (Z * Z)) (local_date : option string) : bool :=
  match c_version c, local_version with
  | Some cv, Some lv => version_lt lv cv
  | _, _ =>
      match en_updated (c_entry c), local_date with
      | Some u, Some d => match String.compare (prefix7 u) (prefix7 d) with Gt => true | _ => false end
      | _, _ => false
      end
  end.

Definition better (local_version : option (Z * Z)) (local_date : option string)
    (best : option UpdateCandidate) (c : UpdateCandidate) : option UpdateCandidate :=
  if is_newer c local_version local_date then
    match best with
    | None => Some c
    | Some b => if version_lt (c_rank b) (c_rank c) then Some c else best
    end
  else best.

Definition update_for (local_name : string) (c : UpdateCandidate) : OpdsUpdate :=
  mkUpdate local_name (c_name c) (en_title (c_entry c)) (c_url c) (c_digest c).

Definition best_for (candidates : list UpdateCandidate) (local_name : string) (local_date : option string) :
    option OpdsUpdate :=
  update_for local_name <$> foldl (better (snd (base_and_version local_name)) local_date) None candidates.

Definition find_updates (es : list OpdsEntry) (local : list (string * option string)) : list OpdsUpdate :=
  let by_base := candidate_index es in
  omap (fun ld => best_for (default [] (by_base !! to_ascii_lowercase (fst (base_and_version (fst ld)))))
                    (fst ld) (snd ld)) local.

End Updates.

(** ** Queueing ([poller/opds.rs]) *)

Section Queue.
Context `{SqlLower}.

Definition active_url (u : string) (db : Db) : option Z :=
  first_id (select (fun _ r => String.eqb (url r) u && status_in (status r) [Queued; Downloading]) db).

Definition terminal_digests (u : string) (db : Db) : list (option string) :=
  (fun kv => Lifecycle.sha256 (snd kv)) <$>
  select (fun _ r => String.eqb (url r) u && status_in (status r) [Complete; Seeding]) db.

Definition matches_current (claim : option string) (terminal : list (option string)) : bool :=
  match claim with
  | Some c => existsb (fun d => bool_decide (d = Some c)) terminal
  | None => match terminal with [] => false | _ => true end
  end.

Fixpoint queue_opds_updates (updates : list OpdsUpdate) : M (Result unit) :=
  match updates with
  | [] => ret (Ok tt)
  | u :: rest =>
      let! active := db_read (fun f => query f (active_url (u_download_url u))) in
      match active with
      | Some _ => queue_opds_updates rest
      | None =>
          let! terminal := db_read (fun f => query f (terminal_digests (u_download_url u))) in
          if matches_current (u_digest u) terminal then queue_opds_updates rest
          else
            let* ins := db_call (fun f => insert_claimed f (u_catalog_name u) (u_download_url u) (u_digest u)) in
            match ins with
            | Ok _ => queue_opds_updates rest
            | Err (Database e) => if is_unique_violation e then queue_opds_updates rest else ret (Err (Database e))
            | Err e => ret (Err e)
            end
      end
  end.

End Queue.

(** ** Lemmas: the index *)

Section UpdateLemmas.
Context {b64_engine : string -> option (list Z)}.

Abbreviation cand := (candidate_of (b64_engine := b64_engine)).

(** The candidates of one base, in feed order. *)
Definition candidates_for (base : string) (es : list OpdsEntry) : list UpdateCandidate :=
  omap (fun e => match cand e with Some (b, c) => if String.eqb b base then Some c else None | None => None end) es.

Lemma candidate_index_spec es base :
  default [] (candidate_index (b64_engine := b64_engine) es !! base) = candidates_for base es.
Proof.
  unfold candidate_index. cut (forall m : gmap string (list UpdateCandidate),
    default [] (foldl (push_candidate (b64_engine := b64_engine)) m es !! base) = default [] (m !! base) ++ candidates_for base es).
  { intros Hc. by rewrite Hc, lookup_empty. }
  induction es as [|e es IH]; intros m; cbn [foldl]; [by rewrite app_nil_r|]. rewrite IH.
  unfold candidates_for. cbn. unfold push_candidate. destruct (cand e) as [[b c]|]; [|done].
  destruct (String.eqb_spec b base) as [->|Hne].
  - rewrite lookup_insert_eq. cbn. by rewrite <- app_assoc.
  - by rewrite lookup_insert_ne.
Qed.

(** The fold keeps the first of the newest candidates among the newer ones. *)
Lemma best_is_first v d cs :
  match foldl (better v d) None cs with
  | None => Forall (fun c => is_newer c v d = false) cs
  | Some c => exists l1 l2, cs = l1 ++ c :: l2 /\ is_newer c v d = true /\
      Forall (fun c' => is_newer c' v d = true -> version_lt (c_rank c') (c_rank c) = true) l1 /\
      Forall (fun c' => is_newer c' v d = true -> version_lt (c_rank c) (c_rank c') = false) l2
  end.
Proof.
  induction cs as [|x cs IH] using rev_ind; [by constructor|]. rewrite foldl_app. cbn [foldl]. set (best := foldl _ _ _) in *.
  unfold better. destruct (is_newer x v d) eqn:Hx.
  - destruct best as [c|].
    + destruct IH as (l1 & l2 & -> & Hc & H1 & H2). destruct (version_lt (c_rank c) (c_rank x)) eqn:El.
      * exists (l1 ++ c :: l2), []. split_and!; [done|done| |done]. rewrite Forall_app, Forall_cons. split_and!; [|done|];
          (eapply Forall_impl; [eassumption|]; intros c' Hlt Hn; specialize (Hlt Hn); unfold version_lt in *; lia).
      * exists l1, (l2 ++ [x]). split_and!; [by rewrite <- app_assoc|done|done|]. rewrite Forall_app, Forall_singleton. by split.
    + exists cs, []. split_and!; [done|done| |done]. eapply Forall_impl; [exact IH|]. cbn. congruence.
  - destruct best as [c|]; [|rewrite Forall_app, Forall_singleton; by split]. destruct IH as (l1 & l2 & -> & Hc & H1 & H2).
    exists l1, (l2 ++ [x]). split_and!; [by rewrite <- app_assoc|done|done|]. rewrite Forall_app, Forall_singleton. split; [done|congruence].
Qed.

End UpdateLemmas.

(** ** What the feed offers *)

(** A date tag: [YYYY-MM], [YYYY-MM-DD] or [YYYYMM]. *)
Inductive date_tag : string -> Z * Z -> Prop :=
| Tag_month ys ms y m :
    str_len ys = 4 -> str_len ms = 2 -> contains_char "-" (ys +:+ ms) = false ->
    parse_u32 ys = Some y -> parse_u32 ms = Some m -> date_tag (ys +:+ "-" +:+ ms) (y, m)
| Tag_day ys ms ds y m :
    str_len ys = 4 -> str_len ms = 2 -> str_len ds = 2 -> contains_char "-" (ys +:+ ms +:+ ds) = false ->
    parse_u32 ys = Some y -> parse_u32 ms = Some m -> date_tag (ys +:+ "-" +:+ ms +:+ "-" +:+ ds) (y, m)
| Tag_digits ys ms y m :
    str_len ys = 4 -> str_len ms = 2 -> str_forall is_digit_char (ys +:+ ms) = true ->
    parse_u32 ys = Some y -> parse_u32 ms = Some m -> date_tag (ys +:+ ms) (y, m).

(** The name of an archive: a base, and a date after its last underscore. *)
Inductive tagged : string -> string -> option (Z * Z) -> Prop :=
| Tagged base tag v : contains_char "_" tag = false -> date_tag tag v -> tagged (base +:+ "_" +:+ tag) base (Some v)
| Untagged name :
    (forall base tag v, name = base +:+ "_" +:+ tag -> contains_char "_" tag = false -> ~ date_tag tag v) ->
    tagged name name None.

Definition earlier (a b : Z * Z) : Prop := fst a < fst b \/ fst a = fst b /\ snd a < snd b.

(** The rank of an entry: the month of its name, else the month its [updated]
    starts with, else none. *)
Inductive rank_of : option (Z * Z) -> option string -> Z * Z -> Prop :=
| Rank_tag v updated : rank_of (Some v) updated v
| Rank_updated u ys ms :
    prefix7 u = ys +:+ "-" +:+ ms -> contains_char "-" (ys +:+ ms) = false -> str_len ys = 4 -> str_len ms = 2 ->
    rank_of None (Some u) (default 0 (parse_u32 ys), default 0 (parse_u32 ms))
| Rank_none updated :
    (forall u ys ms, updated = Some u -> prefix7 u = ys +:+ "-" +:+ ms -> contains_char "-" (ys +:+ ms) = false ->
       str_len ys = 4 -> str_len ms = 2 -> False) ->
    rank_of None updated (0, 0).

(** An entry offers an archive of a base, named as its URL says. *)
Definition offers (e : OpdsEntry) (base name url : string) (v : option (Z * Z)) : Prop :=
  download_url e = Some url /\ catalog_name_from_url url = Some name /\
  exists b, tagged name b v /\ to_ascii_lowercase b = base.

(** Strictly newer: by the months of both names where both have one, else by
    the first seven characters of the entry's [updated] and the local date. *)
Inductive newer_than (local_version : option (Z * Z)) (local_date : option string) (e : OpdsEntry) : option (Z * Z) -> Prop :=
| Newer_tag lv v : local_version = Some lv -> earlier lv v -> newer_than local_version local_date e (Some v)
| Newer_date v u d :
    local_version = None \/ v = None -> en_updated e = Some u -> local_date = Some d ->
    String.compare (prefix7 d) (prefix7 u) = Lt -> newer_than local_version local_date e v.

(** The update of one local archive: the first entry of the highest rank among
    those of its base that are newer; none when there is none. *)
Definition update_spec {b64_engine : string -> option (list Z)} (es : list OpdsEntry) (local : string * option string)
    (u : option OpdsUpdate) : Prop :=
  exists base lv, tagged (fst local) base lv /\
    let rival e name url r := exists v, offers e (to_ascii_lowercase base) name url v /\
      newer_than lv (snd local) e v /\ rank_of v (en_updated e) r in
    match u with
    | None => forall e name url r, e ∈ es -> ~ rival e name url r
    | Some u => exists before e after name url r, es = before ++ e :: after /\ rival e name url r /\
        u = mkUpdate (fst local) name (en_title e) url (download_digest (b64_engine := b64_engine) e) /\
        (forall e' name' url' r', e' ∈ before -> rival e' name' url' r' -> earlier r' r) /\
        (forall e' name' url' r', e' ∈ after -> rival e' name' url' r' -> ~ earlier r r')
    end.

(** ** Lemmas: names, ranks and ages *)

Lemma contains_app c a b : contains_char c (a +:+ b) = contains_char c a || contains_char c b.
Proof. apply str_exists_app. Qed.

Lemma digits_lack_dash s : str_forall is_digit_char s = true -> contains_char "-" s = false.
Proof. apply str_forall_exists. intros a. by destruct a as [[] [] [] [] [] [] [] []]. Qed.

Lemma str_drop_prefix a b : str_drop (String.length a) (a +:+ b) = b.
Proof. induction a as [|x a IH]; [done|]. exact IH. Qed.

Lemma lacks_app c a b : contains_char c (a +:+ b) = false <-> contains_char c a = false /\ contains_char c b = false.
Proof. rewrite contains_app. apply orb_false_iff. Qed.

Lemma parse_date_tag_sound s v : parse_date_tag s = Some v -> date_tag s v.
Proof.
  unfold parse_date_tag. destruct (split_on _ s) as [|y [|m [|d [|x l]]]] eqn:E; try done;
    apply split_on_inv in E as [-> Hf]; rewrite !Forall_cons in Hf; cbn [str_join].
  - destruct (Z.eqb_spec (str_len y) 6) as [Hl|]; [|done]. cbn [andb]. destruct (str_forall is_digit_char y) eqn:Hd; [|done].
    destruct (parse_u32 (str_take 4 y)) as [a|] eqn:Ea; [|done]. destruct (parse_u32 (str_drop 4 y)) as [b|] eqn:Eb; [|done]. cbn.
    intros [= <-]. rewrite <- (str_take_drop 4 y). rewrite str_len_length in Hl. apply Tag_digits; try done.
    + rewrite str_len_length, str_take_length. lia.
    + rewrite str_len_length, str_drop_length. lia.
    + by rewrite str_take_drop.
  - destruct (Z.eqb_spec (str_len y) 4), (Z.eqb_spec (str_len m) 2); try done. cbn [andb].
    destruct (parse_u32 y) as [a|] eqn:Ea; [|done]. destruct (parse_u32 m) as [b|] eqn:Eb; [|done]. cbn. intros [= <-].
    apply Tag_month; try done. apply lacks_app. tauto.
  - destruct (Z.eqb_spec (str_len y) 4), (Z.eqb_spec (str_len m) 2), (Z.eqb_spec (str_len d) 2); try done. cbn [andb].
    destruct (parse_u32 y) as [a|] eqn:Ea; [|done]. destruct (parse_u32 m) as [b|] eqn:Eb; [|done]. cbn. intros [= <-].
    apply Tag_day; try done. rewrite !lacks_app. tauto.
Qed.

Lemma parse_date_tag_complete s v : date_tag s v -> parse_date_tag s = Some v.
Proof.
  unfold parse_date_tag. destruct 1 as [ys ms y m Hy Hm Hc Ey Em|ys ms ds y m Hy Hm Hd Hc Ey Em|ys ms y m Hy Hm Hc Ey Em].
  - apply lacks_app in Hc as [Cy Cm]. change (ys +:+ "-" +:+ ms) with (str_join "-" [ys; ms]).
    rewrite split_on_join by (done || by repeat constructor). rewrite Hy, Hm, Ey, Em. done.
  - rewrite !lacks_app in Hc. destruct Hc as (Cy & Cm & Cd). change (ys +:+ "-" +:+ ms +:+ "-" +:+ ds) with (str_join "-" [ys; ms; ds]).
    rewrite split_on_join by (done || by repeat constructor). rewrite Hy, Hm, Hd, Ey, Em. done.
  - rewrite split_on_none by by apply digits_lack_dash. rewrite str_len_app, Hy, Hm, Hc. cbn [andb Z.add Z.eqb Pos.add Pos.eqb Pos.succ].
    rewrite str_len_length in Hy. replace 4%nat with (String.length ys) by lia.
    rewrite str_take_app, str_drop_prefix. by rewrite Ey, Em.
Qed.

Lemma base_and_version_tagged name base v : base_and_version name = (base, v) <-> tagged name base v.
Proof.
  assert (Hcut : forall base tag, contains_char "_" tag = false ->
    base_and_version (base +:+ "_" +:+ tag) =
      match parse_date_tag tag with Some w => (base, Some w) | None => (base +:+ "_" +:+ tag, None) end).
  { intros base' tag Ht. unfold base_and_version. change (base' +:+ "_" +:+ tag) with (base' +:+ String "_" tag).
    by rewrite rfind_last, str_drop_app, str_take_app. }
  split.
  - destruct (rfind "_" name) as [i|] eqn:E.
    + apply rfind_split in E as [Hs Hc]. set (base' := str_take i name) in *. set (tag := str_drop (i + 1) name) in *. clearbody base' tag. subst name.
      change (base' +:+ String "_" tag) with (base' +:+ "_" +:+ tag). rewrite Hcut by done.
      destruct (parse_date_tag tag) as [w|] eqn:Et; intros [= <- <-]; [by apply Tagged, parse_date_tag_sound|].
      apply Untagged. intros base2 tag2 w Hn Ht Hd%parse_date_tag_complete.
      pose proof (Hcut base' tag Hc) as H1. change (base' +:+ "_" +:+ tag) with (base' +:+ String "_" tag) in *. rewrite Hn, Hcut, Hd, Et in H1 by done. discriminate H1.
    + unfold base_and_version. rewrite E. intros [= <- <-]. apply rfind_lacks in E. apply Untagged. intros base' tag w -> _ _.
      apply lacks_app in E as [_ E]. discriminate E.
  - destruct 1 as [base' tag w Ht Hd|name Hno]; [rewrite Hcut by done; by rewrite (parse_date_tag_complete tag w Hd)|].
    unfold base_and_version. destruct (rfind "_" name) as [i|] eqn:E; [|done]. apply rfind_split in E as [Hs Hc].
    destruct (parse_date_tag _) as [w|] eqn:Et; [|done]. exfalso. by apply (Hno _ _ w Hs Hc), parse_date_tag_sound.
Qed.

Lemma candidate_rank_spec v updated r : candidate_rank v updated = r <-> rank_of v updated r.
Proof.
  assert (Hcut : forall u ys ms, prefix7 u = ys +:+ "-" +:+ ms -> contains_char "-" (ys +:+ ms) = false ->
    split_on (Ascii.eqb "-") (prefix7 u) = [ys; ms]).
  { intros u ys ms -> [Cy Cm]%lacks_app. change (ys +:+ "-" +:+ ms) with (str_join "-" [ys; ms]). apply split_on_join; [done|by repeat constructor]. }
  split.
  - intros <-. destruct v as [v|]; [apply Rank_tag|]. cbn [candidate_rank]. destruct updated as [u|]; [|by apply Rank_none].
    destruct (split_on _ (prefix7 u)) as [|y [|m [|x l]]] eqn:E;
      try (apply Rank_none; intros u' ys ms [= <-] Hp Hc _ _; rewrite (Hcut u ys ms Hp Hc) in E; discriminate E).
    destruct ((str_len y =? 4) && (str_len m =? 2)) eqn:Hl.
    + apply andb_true_iff in Hl as [Hy%Z.eqb_eq Hm%Z.eqb_eq]. apply split_on_inv in E as [Hp Hf]. rewrite !Forall_cons in Hf.
      apply (Rank_updated u y m); [exact Hp| |done|done]. apply lacks_app. tauto.
    + apply Rank_none. intros u' ys ms [= <-] Hp Hc Hy Hm. rewrite (Hcut u ys ms Hp Hc) in E. injection E as -> ->. lia.
  - destruct 1 as [v updated|u ys ms Hp Hc Hy Hm|updated Hno]; cbn [candidate_rank]; [done|by rewrite (Hcut u ys ms Hp Hc), Hy, Hm|].
    destruct updated as [u|]; [|done]. destruct (split_on _ (prefix7 u)) as [|y [|m [|x l]]] eqn:E; try done.
    destruct (Z.eqb_spec (str_len y) 4), (Z.eqb_spec (str_len m) 2); try done. exfalso.
    apply split_on_inv in E as [Hp Hf]. rewrite !Forall_cons in Hf. apply (Hno u y m); try done. apply lacks_app. tauto.
Qed.

Lemma version_lt_earlier a b : version_lt a b = true <-> earlier a b.
Proof. unfold version_lt, earlier. lia. Qed.

Lemma is_newer_spec c lv ld : is_newer c lv ld = true <-> newer_than lv ld (c_entry c) (c_version c).
Proof.
  assert (Hdate : match en_updated (c_entry c), ld with
    | Some u, Some d => match String.compare (prefix7 u) (prefix7 d) with Gt => true | _ => false end | _, _ => false end = true <->
    exists u d, en_updated (c_entry c) = Some u /\ ld = Some d /\ String.compare (prefix7 d) (prefix7 u) = Lt).
  { destruct (en_updated (c_entry c)) as [u|]; [|naive_solver]. destruct ld as [d|]; [|naive_solver]. rewrite String.compare_antisym. split.
    - intros Hg. exists u, d. split_and!; [done|done|]. by destruct (String.compare (prefix7 d) (prefix7 u)).
    - intros (u' & d' & [= <-] & [= <-] & Hlt). by rewrite Hlt. }
  unfold is_newer. split.
  - destruct (c_version c) as [cv|] eqn:Ec, lv as [lv|]; [intros H%version_lt_earlier; by eapply Newer_tag|..];
      intros (u & d & Hu & Hd & Hlt)%Hdate; eapply Newer_date; eauto.
  - inversion 1 as [lv' cv Hl He Hv|cv u d Hn Hu Hd Hlt Hv]; subst.
    + by apply version_lt_earlier.
    + assert (Hyes := proj2 Hdate ltac:(by exists u, d)). destruct (c_version c), lv; try done. by destruct Hn.
Qed.




(** ** Lemmas: the candidates are the offers *)

Section OfferLemmas.
Context {b64_engine : string -> option (list Z)}.

Abbreviation pick base := (fun e => match candidate_of (b64_engine := b64_engine) e with
  | Some (b, c) => if String.eqb b base then Some c else None | None => None end).

Lemma pick_spec base e c : pick base e = Some c <->
  exists name url v, offers e base name url v /\
    c = mkCandidate (candidate_rank v (en_updated e)) e v name url (download_digest (b64_engine := b64_engine) e).
Proof.
  unfold candidate_of, offers. destruct (download_url e) as [url|]; cbn [mbind option_bind]; [|naive_solver].
  destruct (catalog_name_from_url url) as [name|] eqn:En; cbn [mbind option_bind]; [|split; [intros [=]|intros (n & u & v & ([= <-] & Hn & _) & _); congruence]].
  destruct (base_and_version name) as [b v] eqn:Eb. split.
  - destruct (String.eqb_spec (to_ascii_lowercase b) base) as [<-|]; [|done]. intros [= <-]. exists name, url, v. split; [|done].
    split_and!; [done|done|]. exists b. split; [|done]. by apply base_and_version_tagged.
  - intros (name' & url' & v' & ([= <-] & Hn & b' & Ht & <-) & ->). rewrite En in Hn. injection Hn as <-.
    apply base_and_version_tagged in Ht. rewrite Eb in Ht. injection Ht as <- <-. by rewrite String.eqb_refl.
Qed.

Lemma omap_split {A B} (f : A -> option B) (l : list A) l1 x l2 : omap f l = l1 ++ x :: l2 ->
  exists k1 a k2, l = k1 ++ a :: k2 /\ f a = Some x /\ omap f k1 = l1 /\ omap f k2 = l2.
Proof.
  revert l1. induction l as [|b l IH]; intros l1; cbn; [by destruct l1|]. destruct (f b) as [y|] eqn:E.
  - destruct l1 as [|z l1]; intros [= -> Hl].
    + exists [], b, l. done.
    + destruct (IH l1 Hl) as (k1 & a & k2 & -> & Ha & <- & <-). exists (b :: k1), a, k2. cbn. by rewrite E.
  - intros Hl. destruct (IH l1 Hl) as (k1 & a & k2 & -> & Ha & <- & <-). exists (b :: k1), a, k2. cbn. by rewrite E.
Qed.

Lemma best_for_spec es local : update_spec (b64_engine := b64_engine) es local
  (best_for (candidates_for (b64_engine := b64_engine) (to_ascii_lowercase (fst (base_and_version (fst local)))) es) (fst local) (snd local)).
Proof.
  destruct local as [n d]. cbn [fst snd]. destruct (base_and_version n) as [base lv] eqn:Eb. exists base, lv.
  split; [by apply base_and_version_tagged|]. cbn zeta. cbn [fst snd]. unfold best_for. rewrite Eb. cbn [fst snd].
  set (B := to_ascii_lowercase base). pose proof (best_is_first lv d (candidates_for (b64_engine := b64_engine) B es)) as Hbest.
  assert (Hrival : forall k e name url r, e ∈ k -> (exists v, offers e B name url v /\ newer_than lv d e v /\ rank_of v (en_updated e) r) ->
    exists c, c ∈ candidates_for (b64_engine := b64_engine) B k /\ is_newer c lv d = true /\ c_rank c = r).
  { intros k e name url r Hin (v & Ho & Hn & Hr%candidate_rank_spec). exists (mkCandidate (candidate_rank v (en_updated e)) e v name url (download_digest (b64_engine := b64_engine) e)). split; [|split; [|exact Hr]].
    - apply list_elem_of_omap. exists e. split; [done|]. apply pick_spec. by exists name, url, v.
    - by apply is_newer_spec. }
  destruct (foldl _ _ _) as [c|]; cbn [fmap option_fmap option_map].
  - destruct Hbest as (l1 & l2 & Hs & Hn & H1 & H2). apply omap_split in Hs as (k1 & e & k2 & -> & Hc & <- & <-).
    apply pick_spec in Hc as (name & url & v & Ho & ->). rewrite Forall_forall in H1, H2.
    exists k1, e, k2, name, url, (candidate_rank v (en_updated e)). split_and!; [done| |done|..].
    + exists v. split_and!; [done|by apply is_newer_spec in Hn|by apply candidate_rank_spec].
    + intros e' n' u' r' Hin Hr. destruct (Hrival k1 e' n' u' r' Hin Hr) as (c' & Hc' & Hn' & <-). apply version_lt_earlier. by apply (H1 c').
    + intros e' n' u' r' Hin Hr. destruct (Hrival k2 e' n' u' r' Hin Hr) as (c' & Hc' & Hn' & <-). rewrite <- version_lt_earlier.
      specialize (H2 c' Hc' Hn'). cbn in H2. congruence.
  - rewrite Forall_forall in Hbest. intros e name url r Hin Hr. destruct (Hrival es e name url r Hin Hr) as (c & Hc & Hn & _).
    rewrite (Hbest c Hc) in Hn. discriminate Hn.
Qed.

End OfferLemmas.

(** A row that makes queueing the update pointless or impossible. *)
Definition blocks (u : OpdsUpdate) (r : Row) : bool :=
  (String.eqb (url r) (u_download_url u) && is_active (status r)) ||
  (String.eqb (name r) (u_catalog_name u) && is_active (status r)) ||
  (String.eqb (url r) (u_download_url u) && status_in (status r) [Complete; Seeding] &&
   match u_digest u with Some c => bool_decide (Lifecycle.sha256 r = Some c) | None => true end).

Lemma existsb_rows (f : Row -> bool) (m : gmap Z Row) :
  existsb (fun kv => f (snd kv)) (map_to_list m) = true <-> exists i r, m !! i = Some r /\ f r = true.
Proof.
  rewrite existsb_exists. split.
  - intros ([i r] & Hin & Hf). apply list_elem_of_In, elem_of_map_to_list in Hin. by exists i, r.
  - intros (i & r & Hr & Hf). exists (i, r). split; [|done]. by apply list_elem_of_In, elem_of_map_to_list.
Qed.

Lemma matches_current_true claim u db :
  matches_current claim (terminal_digests u db) = true <->
  exists i r, rows db !! i = Some r /\ String.eqb (url r) u = true /\ status_in (status r) [Complete; Seeding] = true /\
    match claim with Some c => bool_decide (Lifecycle.sha256 r = Some c) | None => true end = true.
Proof.
  unfold terminal_digests. set (l := select _ db).
  assert (Hl : forall i r, (i, r) ∈ l <-> rows db !! i = Some r /\ String.eqb (url r) u = true /\ status_in (status r) [Complete; Seeding] = true).
  { intros i r. unfold l. rewrite elem_of_select, andb_true_iff. done. }
  clearbody l. destruct claim as [c|]; cbn.
  - rewrite existsb_exists. setoid_rewrite <- list_elem_of_In. setoid_rewrite list_elem_of_fmap. split.
    + intros (d & ([i r] & -> & Hin) & Hd). apply Hl in Hin as (? & ? & ?). exists i, r. done.
    + intros (i & r & Hr & Hu & Hs & Hd). exists (Lifecycle.sha256 r). split; [|done]. exists (i, r). split; [done|]. by apply Hl.
  - destruct l as [|[i r] l]; cbn; split; try done.
    + intros (i & r & Hr & Hu & Hs & _). destruct (Hl i r) as [_ Hin]. set_solver.
    + intros _. destruct (Hl i r) as [(? & ? & ?) _]; [by left|]. by exists i, r.
Qed.

(** ** Properties *)

(** C38: the updates found are the newest archives the feed offers.  For every
    feed and every library, each local archive gets at most one update, in the
    order of the library: the entry of its base (in any case) that is strictly
    newer, by the months in both names or else by the dates, and has the highest
    rank, the first such in the feed; and it gets none exactly when the feed
    offers no newer archive of its base.  The update carries that entry's name,
    title, URL and digest. *)
Theorem updates_are_newest {b64_engine : string -> option (list Z)} es local :
  exists us, find_updates (b64_engine := b64_engine) es local = omap id us /\
    Forall2 (update_spec (b64_engine := b64_engine) es) local us.
Proof.
  exists ((fun ld => best_for (candidates_for (b64_engine := b64_engine) (to_ascii_lowercase (fst (base_and_version (fst ld)))) es) (fst ld) (snd ld)) <$> local).
  split.
  - unfold find_updates. induction local as [|ld local IH]; [done|]. cbn [omap list_omap fmap list_fmap]. rewrite candidate_index_spec, IH. done.
  - apply Forall2_fmap_r, Forall_Forall2_diag, Forall_forall. intros ld _. apply best_for_spec.
Qed.

(** An update is queued exactly when it is new.  Without interference, the
    queue gains a row, carrying the catalog's claim, if and only if no active
    row has the URL, no finished row of the URL records the claimed digest
    (or, without a claim, no finished row of the URL exists), and no active
    row has the name; otherwise the table keeps its rows. *)
Theorem update_queued_iff_new `{SqlLower} env w u :
  quiet env -> db_inv (w_db w) -> next_id (w_db w) <= i32_max ->
  exists w', queue_opds_updates [u] env w = (Ok tt, w') /\
    rows (w_db w') =
      if existsb (fun kv => blocks u (snd kv)) (map_to_list (rows (w_db w))) then rows (w_db w)
      else <[next_id (w_db w) := set_sha256 (u_digest u)
               (fresh_row (u_catalog_name u) (u_download_url u) None Queued f32_zero (clock (w_db w)))]> (rows (w_db w)).
Proof.
  intros Hq Hinv Hid. cbn [queue_opds_updates]. set (blocked := existsb _ _).
  assert (Hyes : forall i r, rows (w_db w) !! i = Some r -> blocks u r = true -> blocked = true).
  { intros i r Hr Hb. apply existsb_rows. by exists i, r. }
  assert (Hno : (forall i r, rows (w_db w) !! i = Some r -> blocks u r = false) -> blocked = false).
  { intros Hb. destruct blocked eqn:E; [|done]. apply existsb_rows in E as (i & r & Hr & Ht). rewrite <- Ht. by apply (Hb i). }
  clearbody blocked.
  erewrite ebind_run by (rewrite db_read_quiet by done; reflexivity). cbn beta iota.
  destruct (active_url (u_download_url u) (w_db w)) as [i|] eqn:Eact.
  { eexists. split; [reflexivity|]. apply first_id_some in Eact as (r & Hr & Hp). erewrite Hyes; [done|done|].
    apply andb_prop in Hp as [Hu Hs]. unfold blocks, is_active. by rewrite Hu, Hs. }
  erewrite ebind_run by (rewrite db_read_quiet by done; reflexivity). cbn beta iota. cbn [w_db tick_step].
  destruct (matches_current (u_digest u) (terminal_digests (u_download_url u) (w_db w))) eqn:Em.
  { eexists. split; [reflexivity|]. apply matches_current_true in Em as (i & r & Hr & Hu & Hs & Hd).
    erewrite Hyes; [done|done|]. unfold blocks. rewrite Hu, Hs, Hd. by rewrite orb_true_r. }
  erewrite bind_run by (by apply db_call_quiet). unfold insert_claimed, run_stmt, insert_row. cbn [w_db tick_step].
  destruct (Z.ltb_spec i32_max (next_id (w_db w))); [lia|].
  set (row := set_sha256 _ _). destruct (check_unique _) as [e|] eqn:Ec; cbn [fst snd].
  - destruct (check_unique_code _ _ Ec) as (x & -> & Hx). rewrite Hx. eexists. split; [reflexivity|].
    destruct (not_uniq_insert (rows (w_db w)) (next_id (w_db w)) row) as (i & r & Hr & Ha & Hk); [apply Hinv| |].
    { intros Hu%check_unique_none. congruence. }
    erewrite Hyes; [done|done|]. unfold blocks. rewrite Ha.
    destruct Hk as [Hk|Hk]; cbn in Hk; rewrite Hk, String.eqb_refl; cbn [andb orb]; by rewrite ?orb_true_r.
  - eexists. split; [reflexivity|]. rewrite Hno; [done|]. intros i r Hr. unfold blocks.
    apply check_unique_none in Ec. 
    assert (Hi : i <> next_id (w_db w)) by (intros ->; apply Hinv in Hr; lia).
    assert (Hname : String.eqb (name r) (u_catalog_name u) && is_active (status r) = false).
    { destruct (String.eqb_spec (name r) (u_catalog_name u)) as [Hn|]; [|done].
      destruct (is_active (status r)) eqn:Ea; [|done]. exfalso. apply Hi.
      eapply (Ec i _ r row); [by rewrite lookup_insert_ne|apply lookup_insert_eq|done|done|by right]. }
    apply (first_id_none _ _ _ _ Eact) in Hr as Hurl. unfold is_active in *. rewrite Hurl, Hname. cbn [orb].
    destruct (_ && _ && _) eqn:Et; [|done]. apply andb_prop in Et as [Et Hd]. apply andb_prop in Et as [Hu Hs].
    rewrite <- Em. symmetry. apply matches_current_true. by exists i, r.
Qed.

(** The catalog republishes an installed archive under another digest. *)
Definition installed_world : World :=
  mkWorld (@db_run ascii_sql
      [(NoFault, OpInsert "w_2024-01" "http://k/w_2024-01.zim"); (NoFault, OpClaimDirect 1 "/zim/w.part");
       (NoFault, OpFinalize 1 "/zim/w" (Some "aa"))] empty_db) ∅ 0 [].
Definition republished (claim : option string) : OpdsUpdate :=
  mkUpdate "w" "w_2024-01" None "http://k/w_2024-01.zim" claim.

Lemma update_queued_iff_new_witness :
  exists w', @queue_opds_updates ascii_sql [republished (Some "bb")] idle installed_world = (Ok tt, w') /\
    (Lifecycle.sha256 <$> rows (w_db w') !! 2) = Some (Some "bb").
Proof.
  destruct (@update_queued_iff_new ascii_sql idle installed_world (republished (Some "bb"))) as (w' & Hrun & Hrows).
  - apply quiet_env_quiet.
  - apply db_run_inv, empty_db_inv.
  - vm_compute. discriminate.
  - exists w'. split; [exact Hrun|]. rewrite Hrows. vm_compute. reflexivity.
Defined.

Lemma queue_opds_updates_safe `{SqlLower} updates : DbSafe (queue_opds_updates updates).
Proof.
  induction updates as [|u updates IH]; cbn; dbsafe.
  db_op (OpQueueUpdate (u_catalog_name u) (u_download_url u) (u_digest u)).
Qed.
