(* ===== verification/Poller.v ===== *)
(** * Poller: the download poller

    [src/torrent/poller/mod.rs] and [src/torrent/poller/reconcile.rs]: one tick
    (re-queue pass, early exit, torrent list, cancelled rows, the enqueue
    loop with its budget, the in-flight pass), the start-up reconciliation
    with its orphan sweep and adoption, and the run loop.  Spawned direct
    downloads are logged; what they and every other session do to the table
    is part of the environment. *)

From stdpp Require Import sorting.
From S2P Require Import Prelude RustStr Errors Floats NetGuard Auth Snapshots Lifecycle Torrent Requeue Files World Direct Inflight Opds.

Definition OPDS_EVERY_N_TICKS : Z := 180.
Definition MAX_QUEUED_PER_TICK : nat := 50.

(** What a cycle reads of the settings and of the poller's fields. *)
Record Config := mkConfig {
  torrent_enabled : bool;
  params : PollerParams;
  torrent_max_active : Z;
  torrent_url_override : option string;
  torrent_username : string;
  torrent_password : string;
  http_client : bool
}.

Definition by_id_le (a b : Z * Row) : Prop := fst a <= fst b.

#[global] Instance by_id_le_dec a b : Decision (by_id_le a b).
Proof. unfold by_id_le. apply _. Defined.

Section Poller.
Context `{SqlLower, HttpReasons, UrlApi, Crypto, CaseFold, AlnumSplit}
  (decode : string -> result string (list TorrentInfo)) (zim_dir : string).

Definition qbit_configured (cfg : Config) : bool :=
  match resolve_qbit_inputs (p_qbit_url (params cfg)) (torrent_url_override cfg)
          (torrent_username cfg) (torrent_password cfg) with
  | Some _ => true
  | None => false
  end.

(** Whether a client is there; the cache and its fingerprint are in
    [Torrent]. *)
Definition resolve_torrent (cfg : Config) : M bool :=
  if qbit_configured cfg then ask e_connect else ret false.

(** The method [status_if_changed]: [false] stops the caller. *)
Definition still_downloading (cfg : Config) (id : Z) (torrent_hash : string) : M bool :=
  let* st := db_read (fun f => status_no_longer_downloading f id) in
  match st with
  | None => ret true
  | Some _ =>
      let* _ :=
        (if str_is_empty torrent_hash then ret tt
         else
           let* q := resolve_torrent cfg in
           if q then
             let* d := q_delete torrent_hash in
             match d with Ok _ => db_exec (fun f => clear_hash f id) | Err _ => ret tt end
           else ret tt) in
      ret false
  end.

(** ** The tick *)

Definition tick_work (_ : Z) (r : Row) : bool :=
  bool_decide (status r = Queued) ||
  (bool_decide (status r = Downloading) && negb (sql_is_zim_url (url r))) ||
  bool_decide (status r = Seeding) ||
  (bool_decide (status r = Cancelled) && match hash r with Some _ => true | None => false end).

Definition should_skip_tick : M (Result bool) :=
  let! n := db_read (fun f => query f (fun db => length (select tick_work db))) in
  ret (Ok (Nat.eqb n 0)).

Definition fetch_qb_state (qbit : bool) : M (list TorrentInfo * bool) :=
  if qbit then
    let* r := q_get_torrents decode in
    match r with
    | Ok t => ret (t, true)
    | Err e =>
        let* _ := (match e with Torrent SessionExpired _ => emit EvInvalidate | _ => ret tt end) in
        ret ([], false)
    end
  else ret ([], false).

Definition select_cancelled (db : Db) : list (Z * Row) :=
  select (fun _ r => bool_decide (status r = Cancelled) && match hash r with Some _ => true | None => false end) db.

Fixpoint drop_cancelled (cfg : Config) (qbit : bool) (cancelled : list (Z * Row)) : M unit :=
  match cancelled with
  | [] => ret tt
  | (id, r) :: rest =>
      let* _ := (match qbit, hash r with
                 | true, Some h => let* _ := still_downloading cfg id h in ret tt
                 | _, _ => ret tt
                 end) in
      drop_cancelled cfg qbit rest
  end.

Definition process_cancelled (cfg : Config) (qbit qb_configured : bool) : M (Result unit) :=
  let! cancelled := db_read (fun f => query f select_cancelled) in
  let* _ := (if negb qbit && negb qb_configured
             then let* _ := db_call drain_cancelled_hashes in ret tt else ret tt) in
  let* _ := drop_cancelled cfg qbit cancelled in
  ret (Ok tt).

(** ** The enqueue loop *)

Definition spawn_direct (cfg : Config) (id : Z) (u part : string) : M unit :=
  if http_client cfg then emit (EvSpawn id u part)
  else db_exec (fun f => mark_error f id
         (error_display (Internal "download HTTP client unavailable (client build failed at startup)"))).

Definition is_just_added_candidate (t : TorrentInfo) (wanted_name enqueue_category : string) : bool :=
  String.eqb (to_lowercase (t_name t)) (to_lowercase wanted_name) &&
  match t_category t with
  | Some cat => String.eqb (to_lowercase cat) (to_lowercase enqueue_category)
  | None => str_is_empty enqueue_category
  end.

Definition remove_just_added_torrent (added_name enqueue_category : string) : M unit :=
  let* r := q_get_torrents decode in
  match r with
  | Err _ => ret tt
  | Ok torrents =>
      match List.find (fun t => is_just_added_candidate t added_name enqueue_category) torrents with
      | Some t => let* _ := q_delete (t_hash t) in ret tt
      | None => ret tt
      end
  end.

(** One queued row: the remaining budget. *)
Definition enqueue_row (cfg : Config) (qbit qb_available qb_configured : bool) (id : Z) (r : Row) (budget : Z) :
    M (Result Z) :=
  let p := params cfg in
  let is_direct := is_direct_zim_url (url r) in
  let check := if is_direct then validate_download_url (url r) (p_allow_private_networks p)
               else assert_host_not_blocked (url r) (p_allow_private_networks p) false in
  match check with
  | Err e =>
      let* _ := db_exec (fun f => mark_error f id ("invalid URL: " +:+ error_display e)) in
      ret (Ok budget)
  | Ok _ =>
      if is_direct then
        match validate_download_name (name r) with
        | Err e =>
            let* _ := db_exec (fun f => mark_error f id ("invalid name: " +:+ error_display e)) in
            ret (Ok budget)
        | Ok _ =>
            if budget <=? 0 then ret (Ok budget)
            else
              let part := part_path zim_dir (name r) in
              let! claimed := db_call (fun f => claim_direct f id part) in
              if 0 <? claimed then
                let* _ := spawn_direct cfg id (url r) part in ret (Ok (budget - 1))
              else ret (Ok budget)
        end
      else if negb qbit then
        if negb qb_configured then
          let! _ := mark_fatal id "qBittorrent not configured — only direct .zim URLs are supported" in
          ret (Ok budget)
        else ret (Ok budget)
      else if negb qb_available then ret (Ok budget)
      else if budget <=? 0 then ret (Ok budget)
      else
        let* a := q_add_torrent (url r) (p_category p) in
        match a with
        | Ok added =>
            let! claimed := db_call (fun f => mark_downloading f id) in
            if claimed =? 0 then
              let* _ := remove_just_added_torrent added (p_category p) in ret (Ok budget)
            else ret (Ok (budget - 1))
        | Err e => let! _ := mark_fatal id (error_display e) in ret (Ok budget)
        end
  end.

Fixpoint enqueue_loop (cfg : Config) (qbit qb_available qb_configured : bool) (queued : list (Z * Row)) (budget : Z) :
    M (Result unit) :=
  match queued with
  | [] => ret (Ok tt)
  | (id, r) :: rest =>
      let! budget := enqueue_row cfg qbit qb_available qb_configured id r budget in
      enqueue_loop cfg qbit qb_available qb_configured rest budget
  end.

Definition select_queued (db : Db) : list (Z * Row) :=
  take MAX_QUEUED_PER_TICK (merge_sort by_id_le (select (fun _ r => bool_decide (status r = Queued)) db)).

Definition count_active (category : string) (torrents : list TorrentInfo) : Z :=
  Z.of_nat (length (List.filter (fun t => bool_decide (t_category t = Some category) && is_active_download t) torrents)).

Definition count_direct (db : Db) : Z :=
  Z.of_nat (length (select (fun _ r => bool_decide (status r = Downloading) && sql_is_zim_url (url r) &&
                                       match file_path r with Some _ => true | None => false end) db)).

Definition budget_of (max_active active direct_active : Z) : Z :=
  Z.max (saturating_sub_i32 max_active (active + direct_active)) 0.

Definition process_queued (cfg : Config) (qbit qb_available qb_configured : bool) (torrents : list TorrentInfo) :
    M (Result unit) :=
  let! queued := db_read (fun f => query f select_queued) in
  let active := count_active (p_category (params cfg)) torrents in
  let* d := db_read (fun f => query f count_direct) in
  let direct_active := match d with Ok n => n | Err _ => 0 end in
  enqueue_loop cfg qbit qb_available qb_configured queued
    (budget_of (torrent_max_active cfg) active direct_active).

(** The re-queue pass of [Requeue] as one effect of three statements. *)
Definition requeue_step (pg : PollerGuard) : M (PollerGuard * Result unit) := fun env w =>
  let n := w_step w in
  let '(r, pg', db') :=
    requeue_pass (e_fault env n) (e_fault env (n + 1)) (e_fault env (n + 2))
      (db_run (e_others env (n + 1))) (db_run (e_others env (n + 2)))
      pg (db_run (e_others env n) (w_db w)) in
  ((pg', r), tick_step (tick_step (tick_step (with_db db' w)))).

Definition fetch_inflight_rows : M (Result (list (Z * Row))) :=
  db_read (fun f => fetch_downloads_by_statuses f Downloading Seeding).

(** The tick after the re-queue pass. *)
Definition tick_rest (cfg : Config) (qbit : bool) : M (Result unit) :=
  let qb_configured := qbit_configured cfg in
  let! skip := should_skip_tick in
  if skip then ret (Ok tt)
  else
    let* (torrents, qb_available) := fetch_qb_state qbit in
    let! _ := process_cancelled cfg qbit qb_configured in
    let! _ := process_queued cfg qbit qb_available qb_configured torrents in
    let! rs := fetch_inflight_rows in
    let! changed := process_inflight zim_dir (index_by_hash torrents) (index_by_name torrents) qbit qb_available (params cfg) rs in
    let* _ := flush_stats changed in
    ret (Ok tt).

Definition tick (cfg : Config) (pg : PollerGuard) : M (PollerGuard * Result unit) :=
  if negb (torrent_enabled cfg) then ret (pg, Ok tt)
  else
    let* qbit := resolve_torrent cfg in
    let* (pg, rq) := requeue_step pg in
    match rq with
    | Err e => ret (pg, Err e)
    | Ok _ => let* r := tick_rest cfg qbit in ret (pg, r)
    end.

(** ** Start-up reconciliation ([poller/reconcile.rs]) *)

Definition resumable_part_paths (rs : list (string * option string)) : gset string :=
  foldl (fun s r => {[ part_path zim_dir (fst r) ]} ∪ (match snd r with Some fp => {[ fp ]} | None => ∅ end ∪ s)) ∅ rs.

Definition select_resumable (db : Db) : list (string * option string) :=
  (fun kv => (name (snd kv), file_path (snd kv))) <$>
  select (fun _ r => status_in (status r) [Queued; Downloading; StError] && sql_is_zim_url (url r)) db.

Definition fetch_resumable_part_paths : M (Result (gset string)) :=
  let! rs := db_read (fun f => query f select_resumable) in
  ret (Ok (resumable_part_paths rs)).

(** The orphan sweep over the directory's entries. *)
Fixpoint sweep_parts (active_paths : gset string) (ps : list string) : M unit :=
  match ps with
  | [] => ret tt
  | p :: rest =>
      let* _ := (if in_dir zim_dir p && bool_decide (path_extension p = Some "part") &&
                    negb (bool_decide (p ∈ active_paths))
                 then remove_file p else ret tt) in
      sweep_parts active_paths rest
  end.

Definition sweep_orphans (active_paths : gset string) : M unit := fun env w =>
  sweep_parts active_paths (fst <$> map_to_list (w_fs w)) env w.

(** One row against the live torrents. *)
Definition reconcile_row (cfg : Config) (id : Z) (r : Row) (t : option TorrentInfo) : M (Result unit) :=
  let p := params cfg in
  match status r, t with
  | Downloading, Some t =>
      let! _ := (if bool_decide (hash r = Some (t_hash t)) then ret (Ok tt)
                 else db_call (fun f => bind_hash f id (t_hash t))) in
      if is_complete t then
        let* c := handle_complete zim_dir id (name r) t true p (file_path r) in
        match c with Ok _ => ret (Ok tt) | Err e => mark_fatal id (error_display e) end
      else ret (Ok tt)
  | Downloading, None =>
      let* now := ask e_clock in
      if MISSING_TORRENT_GRACE <? now - updated_at r
      then mark_fatal id "torrent missing from qBittorrent" else ret (Ok tt)
  | Complete, Some t =>
      let* has_file := (match file_path r with Some fp => file_exists fp | None => ret false end) in
      if has_file then ret (Ok tt)
      else let* _ := handle_complete zim_dir id (name r) t true p (file_path r) in ret (Ok tt)
  | Seeding, Some t =>
      if is_fatal t then db_call (fun f => settle_seeding f id (Some (fatal_message t)))
      else db_call (fun f => refresh_seeding_stats f id (f64_to_f32 (t_ratio t)) (kibs_to_bps (t_upspeed t))
                               (t_num_seeds t) (kibs_to_bps (t_dlspeed t)))
  | Seeding, None => db_call (fun f => settle_seeding f id None)
  | _, _ => ret (Ok tt)
  end.

(** The known hashes and the consumed entries after the rows. *)
Fixpoint reconcile_rows (cfg : Config) (by_hash by_name : gmap string TorrentInfo) (rs : list (Z * Row))
    (known consumed : gset string) : M (Result (gset string * gset string)) :=
  match rs with
  | [] => ret (Ok (known, consumed))
  | (id, r) :: rest =>
      if is_direct_zim_url (url r) then reconcile_rows cfg by_hash by_name rest known consumed
      else
        let known := match hash r with Some h => {[ h ]} ∪ known | None => known end in
        let t := or_else (hash r ≫= (by_hash !!.)) (match_by_name (name r) (url r) by_name consumed) in
        let! _ := reconcile_row cfg id r t in
        reconcile_rows cfg by_hash by_name rest known (consume t consumed)
  end.

Fixpoint adopt_loop (category : string) (known consumed : gset string) (torrents : list TorrentInfo) :
    M (Result unit) :=
  match torrents with
  | [] => ret (Ok tt)
  | t :: rest =>
      if negb (bool_decide (t_category t = Some category)) ||
         (bool_decide (t_hash t ∈ known) || bool_decide (t_hash t ∈ consumed))
      then adopt_loop category known consumed rest
      else
        let! _ := db_call (fun f => adopt_torrent f (t_name t) (t_hash t)
                             (if is_complete t then Complete else Downloading) (f64_to_f32 (t_progress t))) in
        adopt_loop category known consumed rest
  end.

Definition reconcile (cfg : Config) (qbit : bool) : M (Result unit) :=
  let! active_paths := fetch_resumable_part_paths in
  let! _ := db_call retry_interrupted_directs in
  let* _ := sweep_orphans active_paths in
  if negb qbit then ret (Ok tt)
  else
    let! torrents := q_get_torrents decode in
    let! rs := db_read (fun f => query f (select (fun _ r => status_in (status r) [Downloading; Complete; Seeding]))) in
    let! (known, consumed) := reconcile_rows cfg (index_by_hash torrents) (index_by_name torrents) rs ∅ ∅ in
    adopt_loop (p_category (params cfg)) known consumed torrents.

(** ** The run loop *)

(** The catalog check; [updates] is what [check_updates] returned. *)
Definition opds_check (cfg : Config) (updates : Result (list OpdsUpdate)) : M (Result unit) :=
  if negb (torrent_enabled cfg) || negb (p_opds_auto_update (params cfg)) || str_is_empty (p_opds_url (params cfg)) then ret (Ok tt)
  else
    match validate_download_url (p_opds_url (params cfg)) (p_allow_private_networks (params cfg)) with
    | Err e => ret (Err e)
    | Ok _ =>
        match updates with
        | Err e => ret (Err e)
        | Ok us => queue_opds_updates us
        end
    end.

(** The cycles after [ticks] earlier ones: the settings each reads and what
    the catalog would answer. *)
Fixpoint run_cycles (cycles : list (Config * Result (list OpdsUpdate))) (ticks : Z) (pg : PollerGuard) : M unit :=
  match cycles with
  | [] => ret tt
  | (cfg, updates) :: rest =>
      let ticks := ticks + 1 in
      let* (pg, _) := tick cfg pg in
      let* _ := (if ticks mod OPDS_EVERY_N_TICKS =? 0 then let* _ := opds_check cfg updates in ret tt else ret tt) in
      run_cycles rest ticks pg
  end.

Definition run (cfg0 : Config) (cycles : list (Config * Result (list OpdsUpdate))) : M unit :=
  let* _ := (if torrent_enabled cfg0
             then let* qbit := resolve_torrent cfg0 in let* _ := reconcile cfg0 qbit in ret tt
             else ret tt) in
  run_cycles cycles 0 (mkPG 0 ∅).

End Poller.

(** ** What the poller does to the table *)

Section PollerSafe.
Context `{SqlLower, HttpReasons, UrlApi, Crypto, CaseFold, AlnumSplit}
  (decode : string -> result string (list TorrentInfo)) (zim_dir : string).

Lemma q_get_torrents_safe : DbSafe (q_get_torrents decode).
Proof. unfold q_get_torrents. dbsafe. Qed.

#[local] Hint Resolve mark_error_safe q_get_torrents_safe q_delete_safe mark_fatal_safe handle_complete_safe
  process_inflight_safe flush_stats_safe queue_opds_updates_safe : dbsafe.

Lemma still_downloading_safe cfg id h : DbSafe (still_downloading cfg id h).
Proof. unfold still_downloading, resolve_torrent. dbsafe. db_op (OpClearHash id). Qed.

#[local] Hint Resolve still_downloading_safe : dbsafe.

Lemma process_cancelled_safe cfg qbit qc : DbSafe (process_cancelled cfg qbit qc).
Proof.
  assert (Hd : forall l, DbSafe (drop_cancelled cfg qbit l)) by (induction l as [|[id r] l IH]; cbn; dbsafe).
  unfold process_cancelled. dbsafe. db_op OpDrain.
Qed.

Lemma enqueue_row_safe cfg qbit qa qc id r budget : DbSafe (enqueue_row decode zim_dir cfg qbit qa qc id r budget).
Proof.
  unfold enqueue_row, spawn_direct, remove_just_added_torrent, q_add_torrent. dbsafe.
  - db_op (OpClaimDirect id (part_path zim_dir (name r))).
  - db_op (OpMarkDownloading id).
Qed.

#[local] Hint Resolve process_cancelled_safe enqueue_row_safe : dbsafe.

Lemma process_queued_safe cfg qbit qa qc ts : DbSafe (process_queued decode zim_dir cfg qbit qa qc ts).
Proof.
  assert (Hl : forall l b, DbSafe (enqueue_loop decode zim_dir cfg qbit qa qc l b)) by
    (induction l as [|[id r] l IH]; intros b; cbn; dbsafe).
  unfold process_queued. dbsafe.
Qed.

Lemma requeue_step_safe pg : DbSafe (requeue_step pg).
Proof.
  intros env w. unfold requeue_step, requeue_pass. set (n := w_step w).
  set (o0 := e_others env n). set (o1 := e_others env (n + 1)). set (o2 := e_others env (n + 2)).
  assert (R0 : exists ops, db_run o0 (w_db w) = db_run ops (w_db w)) by by eexists.
  assert (R1 : exists ops, db_run o1 (db_run o0 (w_db w)) = db_run ops (w_db w)) by (exists (o0 ++ o1); by rewrite db_run_app).
  assert (R2 : forall ids, exists ops, snd (requeue_stale_errors (e_fault env (n + 2)) ids (db_run o2 (db_run o1 (db_run o0 (w_db w)))))
      = db_run ops (w_db w)).
  { intros ids. exists ((o0 ++ o1) ++ (o2 ++ [(e_fault env (n + 2)%nat, OpRequeue ids)])). by rewrite !db_run_app. }
  destruct (query _ select_stale _) as [[|x l]|]; [done| |done].
  destruct (query _ select_active_names _); [|done]. destruct (filter_requeue_name_collisions _ _) as [|c cs]; [done|].
  destruct (guard_pass _ _ _) as [[|i ids] g]; [done|]. specialize (R2 (i :: ids)).
  by destruct (requeue_stale_errors _ _ _) as [[]].
Qed.

#[local] Hint Resolve process_queued_safe requeue_step_safe : dbsafe.

Lemma tick_safe cfg pg : DbSafe (tick decode zim_dir cfg pg).
Proof.
  assert (Hs : DbSafe should_skip_tick) by (unfold should_skip_tick; dbsafe).
  assert (Hf : forall q, DbSafe (fetch_qb_state decode q)) by (intros q; unfold fetch_qb_state; dbsafe).
  assert (Hr : forall q, DbSafe (tick_rest decode zim_dir cfg q)).
  { intros q. unfold tick_rest, fetch_inflight_rows. dbsafe. }
  unfold tick, resolve_torrent. dbsafe.
Qed.

Lemma reconcile_row_safe cfg id r t : DbSafe (reconcile_row zim_dir cfg id r t).
Proof.
  unfold reconcile_row. destruct (status r), t as [t|]; dbsafe.
  - db_op (OpBindHash id (t_hash t)).
  - db_op (OpSettle id (Some (fatal_message t))).
  - db_op (OpRefreshSeeding id (f64_to_f32 (t_ratio t)) (kibs_to_bps (t_upspeed t)) (t_num_seeds t) (kibs_to_bps (t_dlspeed t))).
  - db_op (OpSettle id None).
Qed.

#[local] Hint Resolve tick_safe reconcile_row_safe : dbsafe.

Lemma sweep_parts_free active ps : DbFree (sweep_parts zim_dir active ps).
Proof.
  induction ps as [|p ps IH]; intros env w; [done|]. cbn [sweep_parts]. unfold bind.
  destruct (_ && _ && _).
  - pose proof (remove_file_free p env w) as Hr. destruct (remove_file p env w) as [[] w1]. cbn in Hr.
    by rewrite IH.
  - cbn. by rewrite IH.
Qed.

Lemma reconcile_safe cfg qbit : DbSafe (reconcile decode zim_dir cfg qbit).
Proof.
  assert (Hrows : forall bh bn rs k c, DbSafe (reconcile_rows zim_dir cfg bh bn rs k c)) by
    (intros bh bn; induction rs as [|[id r] rs IH]; intros k c; cbn; dbsafe).
  assert (Ha : forall cat k c ts, DbSafe (adopt_loop cat k c ts)).
  { intros cat k c. induction ts as [|t ts IH]; cbn; dbsafe.
    db_op (OpAdopt (t_name t) (t_hash t) (if is_complete t then Complete else Downloading) (f64_to_f32 (t_progress t))). }
  assert (Hs : forall a, DbSafe (sweep_orphans zim_dir a)) by
    (intros a; apply free_safe; intros env w; apply sweep_parts_free).
  unfold reconcile, fetch_resumable_part_paths. dbsafe. db_op OpRetryInterrupted.
Qed.

#[local] Hint Resolve reconcile_safe : dbsafe.

Lemma run_safe cfg0 cycles : DbSafe (run decode zim_dir cfg0 cycles).
Proof.
  assert (Hc : forall cs ticks pg, DbSafe (run_cycles decode zim_dir cs ticks pg)).
  { induction cs as [|[cfg us] cs IH]; intros ticks pg; cbn; [dbsafe|]. unfold opds_check. dbsafe. }
  unfold run, resolve_torrent. dbsafe.
Qed.

End PollerSafe.

(** ** Lemmas: the enqueue budget *)

(** Statements may fail, but a reply is never lost after the statement ran. *)
Definition replies_arrive (env : Env) : Prop := forall n e, e_fault env n <> ReplyLost e.

Definition downloading (db : Db) : Z := map_len (filter (fun kv => status (snd kv) = Downloading) (rows db)).

Lemma downloading_insert db id r r' :
  rows db !! id = Some r ->
  downloading (set_rows (<[id := r']> (rows db)) db) <= downloading db + (if bool_decide (status r' = Downloading) then 1 else 0).
Proof.
  intros Hr. unfold downloading, map_len. cbn [rows set_rows]. case_bool_decide as Hs.
  - rewrite map_filter_insert_True by done. rewrite map_size_insert. case_match; cbn; lia.
  - rewrite map_filter_insert_False by done.
    assert (Hle : (base.size (filter (fun kv => status (snd kv) = Downloading) (delete id (rows db))) <=
                   base.size (filter (fun kv => status (snd kv) = Downloading) (rows db)))%nat).
    { apply map_subseteq_size. rewrite map_filter_delete. apply delete_subseteq. }
    lia.
Qed.

Section Budget.
Context `{SqlLower}.

(** A guarded update of one row under a fault that is not a lost reply. *)
Lemma execute_downloading f id guard g db r db' :
  (forall e, f <> ReplyLost e) -> db_inv db ->
  (forall r, guard r = true -> is_active (status (g db r)) = true -> is_active (status r) = true /\ name (g db r) = name r /\ url (g db r) = url r) ->
  execute f (fun i r => by_id id i r && guard r) g db = (r, db') ->
  db' = db \/
  (r = Ok 1 /\ exists row, rows db !! id = Some row /\ guard row = true /\ db' = set_rows (<[id := g db row]> (rows db)) db).
Proof.
  intros Hf Hinv Hg He. destruct f as [|e|e]; [|by unfold execute in He; cbn in He; simplify_eq; left|by destruct (Hf e)].
  rewrite (execute_by_id id guard) in He; [|done|by auto].
  destruct (rows db !! id) as [row|]; [destruct (guard row) eqn:Eg|]; simplify_eq; auto.
  right. split; [done|]. by exists row.
Qed.

(** Updates that do not start a download cannot raise the count. *)
Lemma execute_no_start f id guard g db :
  (forall e, f <> ReplyLost e) -> db_inv db -> (forall r, is_active (status (g db r)) = false) ->
  downloading (snd (execute f (fun i r => by_id id i r && guard r) g db)) <= downloading db.
Proof.
  intros Hf Hinv Hg. destruct (execute _ _ _ _) as [r db'] eqn:E.
  apply execute_downloading in E as [->|(_ & row & Hr & _ & ->)]; [done| |done|done|by intros; rewrite Hg in *].
  cbn. pose proof (downloading_insert db id row (g db row) Hr) as Hd. specialize (Hg row).
  rewrite bool_decide_false in Hd; [lia|]. intros E. by rewrite E in Hg.
Qed.

Lemma mark_error_downloading f id msg db :
  (forall e, f <> ReplyLost e) -> db_inv db -> downloading (mark_error f id msg db) <= downloading db.
Proof. intros Hf Hinv. by apply execute_no_start. Qed.

Lemma mark_fatal_downloading f id msg db :
  (forall e, f <> ReplyLost e) -> db_inv db -> downloading (snd (mark_fatal_error f id msg db)) <= downloading db.
Proof. intros Hf Hinv. by apply execute_no_start. Qed.

(** Claims report the row they started. *)
Lemma claim_direct_downloading f id part db r db' :
  (forall e, f <> ReplyLost e) -> db_inv db -> claim_direct f id part db = (r, db') ->
  downloading db' <= downloading db + (match r with Ok n => if 0 <? n then 1 else 0 | Err _ => 0 end).
Proof.
  intros Hf Hinv Hc. eapply (execute_downloading f id (fun r => bool_decide (status r = Queued))) in Hc
    as [->|(-> & row & Hr & _ & ->)]; [destruct r as [n|]; [destruct (0 <? n)|]; lia| |done|done|].
  - pose proof (downloading_insert db id row (touching (fun r => set_path (Some part) (set_status Downloading r)) db row) Hr). done.
  - intros r0 Hg _. apply bool_decide_eq_true in Hg. cbn. by rewrite Hg.
Qed.

Lemma mark_downloading_downloading f id db r db' :
  (forall e, f <> ReplyLost e) -> db_inv db -> mark_downloading f id db = (r, db') ->
  downloading db' <= downloading db + (match r with Ok n => if n =? 0 then 0 else 1 | Err _ => 0 end).
Proof.
  intros Hf Hinv. unfold mark_downloading, best_effort. destruct (execute _ _ _ _) as [r0 db0] eqn:E. intros [= <- <-].
  eapply (execute_downloading f id (fun r => bool_decide (status r = Queued))) in E
    as [->|(-> & row & Hr & _ & ->)]; [| |done|done|].
  - cbn. destruct (execute_best_effort r0) as [n|]; [destruct (n =? 0)|]; lia.
  - pose proof (downloading_insert db id row (touching (set_status Downloading) db row) Hr). done.
  - intros r1 Hg _. apply bool_decide_eq_true in Hg. cbn. by rewrite Hg.
Qed.

(** Effects that leave the count alone. *)
Definition no_start (w w' : World) : Prop := downloading (w_db w') <= downloading (w_db w) /\ db_inv (w_db w').

Lemma db_call_alone {A} (stmt : Fault -> Db -> A * Db) env w a w' :
  alone env -> db_call stmt env w = (a, w') -> stmt (e_fault env (w_step w)) (w_db w) = (a, w_db w').
Proof.
  intros Ha. unfold db_call. rewrite Ha. change (db_run [] (w_db w)) with (w_db w).
  destruct (stmt _ _). by intros [= <- <-].
Qed.

End Budget.

Section EnqueueBudget.
Context `{SqlLower, HttpReasons, UrlApi, Crypto, CaseFold, AlnumSplit}
  (decode : string -> result string (list TorrentInfo)) (zim_dir : string).
Variables (env : Env) (Ha : alone env) (Hre : replies_arrive env).

Lemma db_safe_inv {A} (c : M A) `{!DbSafe c} w a w' : db_inv (w_db w) -> c env w = (a, w') -> db_inv (w_db w').
Proof.
  intros Hinv Hr. destruct (db_safe (c := c) env w) as [ops Hops]. rewrite Hr in Hops. cbn in Hops. rewrite Hops.
  by apply db_run_inv.
Qed.

Lemma claim_direct_safe id part : DbSafe (db_call (fun f => claim_direct f id part)).
Proof. db_op (OpClaimDirect id part). Qed.

Lemma mark_error_count id msg w a w' :
  db_inv (w_db w) -> db_exec (fun f => mark_error f id msg) env w = (a, w') -> downloading (w_db w') <= downloading (w_db w).
Proof.
  intros Hinv Hr. unfold db_exec in Hr. apply db_call_alone in Hr; [|done]. injection Hr as _ <-.
  by apply mark_error_downloading.
Qed.

Lemma mark_fatal_count id msg w r w' :
  db_inv (w_db w) -> mark_fatal id msg env w = (r, w') -> downloading (w_db w') <= downloading (w_db w).
Proof.
  intros Hinv Hr. unfold mark_fatal in Hr.
  assert (Hs : forall x w1, db_call (fun f => mark_fatal_error f id msg) env w = (x, w1) -> downloading (w_db w1) <= downloading (w_db w)).
  { intros x w1 Hc. apply db_call_alone in Hc; [|done]. apply (f_equal snd) in Hc. cbn in Hc. rewrite <- Hc.
    by apply mark_fatal_downloading. }
  run_step Hr; [injection Hr as <- <-; by eapply Hs|by eapply Hs].
Qed.

Lemma spawn_direct_count cfg id u part w a w' :
  db_inv (w_db w) -> spawn_direct cfg id u part env w = (a, w') -> downloading (w_db w') <= downloading (w_db w).
Proof. unfold spawn_direct. destruct (http_client cfg); [by intros _ [= <- <-]|apply mark_error_count]. Qed.

Lemma remove_just_added_free n cat : DbFree (remove_just_added_torrent decode n cat).
Proof.
  intros e w. unfold remove_just_added_torrent, q_get_torrents, bind, emit, ask. cbn.
  destruct (get_torrents decode _) as [ts|]; [|done]. by destruct (List.find _ ts).
Qed.

(** The budget pays for every download a row starts. *)
Definition paid (w : World) (budget : Z) (r : Result Z) (w' : World) : Prop :=
  match r with
  | Ok b => 0 <= b /\ downloading (w_db w') + b <= downloading (w_db w) + budget
  | Err _ => downloading (w_db w') <= downloading (w_db w) + budget
  end.

Lemma enqueue_row_paid cfg qbit qa qc id r budget w res w' :
  db_inv (w_db w) -> 0 <= budget ->
  enqueue_row decode zim_dir cfg qbit qa qc id r budget env w = (res, w') -> paid w budget res w'.
Proof.
  intros Hinv Hb Hr. unfold enqueue_row in Hr.
  assert (Hfree : forall w1, downloading (w_db w1) <= downloading (w_db w) -> ret (Ok budget) env w1 = (res, w') -> paid w budget res w').
  { intros w1 Hd [= <- <-]. cbn. lia. }
  destruct (if is_direct_zim_url (url r) then _ else _) as [[]|e].
  2:{ run_step Hr. eapply Hfree; [|exact Hr]. by eapply mark_error_count. }
  destruct (is_direct_zim_url (url r)).
  - destruct (validate_download_name (name r)) as [[]|e].
    2:{ run_step Hr. eapply Hfree; [|exact Hr]. by eapply mark_error_count. }
    destruct (Z.leb_spec budget 0) as [|Hpos]; [by eapply Hfree; [|exact Hr]|].
    assert (Hcl : forall x w1, db_call (fun f => claim_direct f id (part_path zim_dir (name r))) env w = (x, w1) ->
      db_inv (w_db w1) /\ downloading (w_db w1) <= downloading (w_db w) + match x with Ok n => if 0 <? n then 1 else 0 | Err _ => 0 end).
    { intros x w1 Hc. split.
      - eapply (db_safe_inv _ (DbSafe0 := claim_direct_safe id (part_path zim_dir (name r)))); [done|exact Hc].
      - apply db_call_alone in Hc; [|done]. by eapply claim_direct_downloading. }
    run_step Hr; [|apply Hcl in Hr as [_ Hc]; cbn; lia].
    apply Hcl in E as [Hinv1 Hc]. destruct (0 <? a).
    + run_step Hr. apply spawn_direct_count in E; [|done]. injection Hr as <- <-. cbn. lia.
    + injection Hr as <- <-. cbn. lia.
  - destruct qbit; cbn [negb] in Hr.
    2:{ destruct qc; cbn [negb] in Hr; [by eapply Hfree; [|exact Hr]|].
        run_step Hr; [eapply Hfree; [|exact Hr]; by eapply mark_fatal_count|].
        apply mark_fatal_count in Hr; [|done]. cbn. lia. }
    destruct qa; cbn [negb] in Hr; [|by eapply Hfree; [|exact Hr]].
    destruct (Z.leb_spec budget 0) as [|Hpos]; [by eapply Hfree; [|exact Hr]|].
    run_step Hr. assert (Ew : w_db w0 = w_db w) by by injection E as _ <-.
    destruct a as [added|e].
    + assert (Hcl : forall x w1, db_call (fun f => mark_downloading f id) env w0 = (x, w1) ->
        downloading (w_db w1) <= downloading (w_db w) + match x with Ok n => if n =? 0 then 0 else 1 | Err _ => 0 end).
      { intros x w1 Hc. apply db_call_alone in Hc; [|done]. rewrite Ew in Hc. by eapply mark_downloading_downloading. }
      run_step Hr; [|apply Hcl in Hr; cbn; lia]. apply Hcl in E0. destruct (a =? 0).
      * run_step Hr. apply db_free_run in E1; [|apply remove_just_added_free]. eapply Hfree; [|exact Hr]. rewrite E1. lia.
      * injection Hr as <- <-. cbn. lia.
    + rewrite <- Ew in Hinv. run_step Hr; [eapply Hfree; [|exact Hr]; rewrite <- Ew; by eapply mark_fatal_count|].
      apply mark_fatal_count in Hr; [|done]. rewrite Ew in Hr. cbn. lia.
Qed.

Lemma enqueue_loop_paid cfg qbit qa qc : forall l budget w res w',
  db_inv (w_db w) -> 0 <= budget ->
  enqueue_loop decode zim_dir cfg qbit qa qc l budget env w = (res, w') ->
  downloading (w_db w') <= downloading (w_db w) + budget.
Proof.
  induction l as [|[id r] l IH]; intros budget w res w' Hinv Hb Hr; cbn in Hr; [injection Hr as <- <-; lia|].
  run_step Hr; [|by apply enqueue_row_paid in Hr].
  pose proof (db_safe_inv _ (DbSafe0 := enqueue_row_safe decode zim_dir cfg qbit qa qc id r budget) _ _ _ Hinv E) as Hinv1.
  apply enqueue_row_paid in E as [Hb' Hd]; [|done|done]. apply IH in Hr; [|done|done]. lia.
Qed.

End EnqueueBudget.

(** ** Lemmas: the orphan sweep *)

Definition is_orphan (zim_dir : string) (active : gset string) (p : string) : bool :=
  in_dir zim_dir p && bool_decide (path_extension p = Some "part") && negb (bool_decide (p ∈ active)).

(** The sweep removes orphans only, and every listed one if the disk works. *)
Lemma sweep_parts_spec zim_dir active ps : forall env w a w',
  sweep_parts zim_dir active ps env w = (a, w') ->
  (forall q, is_orphan zim_dir active q = false -> w_fs w' !! q = w_fs w !! q) /\
  (forall q, w_fs w !! q = None -> w_fs w' !! q = None) /\
  ((forall n, e_io env n = None) -> forall q, q ∈ ps -> is_orphan zim_dir active q = true -> w_fs w' !! q = None).
Proof.
  induction ps as [|p ps IH]; intros env w a w' Hr; cbn in Hr.
  - injection Hr as <- <-. split_and!; [done|done|set_solver].
  - run_step Hr. apply IH in Hr as (Hk & Hn & Hg). fold (is_orphan zim_dir active p) in E.
    destruct (is_orphan zim_dir active p) eqn:Eo.
    + apply remove_file_fs in E as Hfs. split_and!.
      * intros q Hq. rewrite Hk by done. destruct Hfs as [-> | ->]; [done|]. rewrite lookup_delete_ne; [done|].
        intros ->. congruence.
      * intros q Hq. apply Hn. destruct Hfs as [-> | ->]; [done|]. apply lookup_delete_None. auto.
      * intros Hio q Hq Ho. apply elem_of_cons in Hq as [->|Hq]; [|by apply Hg]. apply Hn.
        pose proof (remove_file_gone p env w (Hio _)) as Hrm. rewrite E in Hrm. cbn in Hrm. rewrite Hrm. apply lookup_delete_eq.
    + injection E as <- <-. split_and!; [done|done|].
      intros Hio q Hq Ho. apply elem_of_cons in Hq as [->|Hq]; [congruence|by apply Hg].
Qed.

Lemma elem_of_resumable zim_dir rs p :
  p ∈ resumable_part_paths zim_dir rs <->
  exists n fp, (n, fp) ∈ rs /\ (p = part_path zim_dir n \/ fp = Some p).
Proof.
  unfold resumable_part_paths. cut (forall s : gset string,
    p ∈ foldl (fun s r => {[ part_path zim_dir (fst r) ]} ∪ (match snd r with Some fp => {[ fp ]} | None => ∅ end ∪ s)) s rs <->
    p ∈ s \/ exists n fp, (n, fp) ∈ rs /\ (p = part_path zim_dir n \/ fp = Some p)).
  { intros Hc. rewrite Hc. set_solver. }
  induction rs as [|[n fp] rs IH]; intros s; cbn [foldl]; [set_solver|]. rewrite IH. cbn [fst snd].
  destruct fp as [fp|]; set_solver.
Qed.

(** ** Properties *)

(** C1: the poller refines the lifecycle.  Start-up reconciliation and any
    number of cycles, with any settings, any answers of qBittorrent and the
    catalog, any failure of any statement and any statements of other
    sessions in between, do to the table exactly what some sequence of
    lifecycle statements does: rows are never deleted or renamed, statuses
    walk the graph, both unique indexes hold, and a cancelled row stays
    cancelled. *)
Theorem poller_refines_lifecycle `{SqlLower, HttpReasons, UrlApi, Crypto, CaseFold, AlnumSplit} decode zim_dir cfg0 cycles env w :
  let w' := snd (run decode zim_dir cfg0 cycles env w) in
  (exists ops, w_db w' = db_run ops (w_db w)) /\
  (db_inv (w_db w) -> db_inv (w_db w') /\
   forall i r, rows (w_db w) !! i = Some r -> exists r', rows (w_db w') !! i = Some r' /\
     name r' = name r /\ url r' = url r /\ rtc (fun a b => edge a b = true) (status r) (status r') /\
     (status r = Cancelled -> status r' = Cancelled)).
Proof.
  cbn zeta. destruct (run_safe decode zim_dir cfg0 cycles env w) as [ops Hops]. split; [eauto|]. rewrite Hops.
  intros Hinv. split; [by apply db_run_inv|]. intros i r Hr.
  destruct (db_run_walk ops _ i r Hinv Hr) as (r' & Hr' & Hn & Hu & Hw). exists r'. split_and!; try done.
  intros Hc. rewrite Hc in Hw. by apply cancelled_stuck.
Qed.

(** The enqueue loop keeps the budget.  With no other session running and
    no reply lost, one pass raises the number of downloading rows by at most
    what [max_active] leaves after the active torrents and the running direct
    downloads, whatever qBittorrent answers. *)
Theorem enqueue_respects_budget `{SqlLower, HttpReasons, UrlApi, Crypto, CaseFold, AlnumSplit} decode zim_dir
    cfg qbit qa qc torrents env w r w' :
  alone env -> replies_arrive env -> db_inv (w_db w) -> e_fault env (S (w_step w)) = NoFault ->
  process_queued decode zim_dir cfg qbit qa qc torrents env w = (r, w') ->
  downloading (w_db w') <= downloading (w_db w) +
    Z.max 0 (saturating_sub_i32 (torrent_max_active cfg) (count_active (p_category (params cfg)) torrents + count_direct (w_db w))).
Proof.
  intros Ha Hre Hinv Hcount Hr. unfold process_queued in Hr. set (b := Z.max 0 _).
  run_step Hr; [|apply db_read_alone in Hr as (-> & _); [lia|done]].
  assert (Es : w_step w0 = S (w_step w)) by (unfold db_read, db_call in E; by injection E as _ <-).
  apply db_read_alone in E as (Edb & _ & _); [|done].
  run_step Hr. apply db_read_alone in E as (Edb1 & _ & Ed); [|done]. rewrite Es, Hcount, Edb in Ed. cbn in Ed. subst a0.
  apply enqueue_loop_paid in Hr; [|done|done|by rewrite Edb1, Edb|unfold budget_of; lia].
  rewrite Edb1, Edb in Hr. unfold budget_of in Hr. subst b. lia.
Qed.

(** The orphan sweep keeps every resumable download.  At start-up, with no
    other session running, the [.part] file of each queued, downloading or
    failed direct row survives, as does every file that is not a [.part] file
    of the ZIM directory; if the disk works every other [.part] file there is
    removed; and if the protected set cannot be read nothing is removed. *)
Theorem sweep_keeps_resumable `{SqlLower, HttpReasons, UrlApi, Crypto, CaseFold, AlnumSplit} decode zim_dir cfg env w r w' :
  alone env -> reconcile decode zim_dir cfg false env w = (r, w') ->
  (forall i row, rows (w_db w) !! i = Some row -> status_in (status row) [Queued; Downloading; StError] = true ->
     sql_is_zim_url (url row) = true -> w_fs w' !! part_path zim_dir (name row) = w_fs w !! part_path zim_dir (name row)) /\
  (forall q, path_extension q <> Some "part" \/ in_dir zim_dir q = false -> w_fs w' !! q = w_fs w !! q) /\
  (r = Ok tt -> (forall n, e_io env n = None) -> forall q, in_dir zim_dir q = true -> path_extension q = Some "part" ->
     is_Some (w_fs w' !! q) -> exists i row, rows (w_db w) !! i = Some row /\
       status_in (status row) [Queued; Downloading; StError] = true /\
       (q = part_path zim_dir (name row) \/ file_path row = Some q)).
Proof.
  intros Ha Hr. unfold reconcile in Hr. run_step Hr.
  2:{ assert (Hfs : w_fs w' = w_fs w) by (apply fs_free_run in Hr; [done|unfold fetch_resumable_part_paths; apply _]).
      rewrite Hfs. split_and!; done. }
  assert (Hact : a = resumable_part_paths zim_dir (select_resumable (w_db w)) /\ w_fs w0 = w_fs w).
  { unfold fetch_resumable_part_paths in E. run_step E. injection E as <- <-.
    apply db_read_alone in E0 as (_ & Hfs & Hq); [|done]. symmetry in Hq. apply query_ok in Hq as ->. done. }
  clear E. destruct Hact as [-> Efs]. set (active := resumable_part_paths _ _) in *.
  assert (Hsel : forall q, q ∈ active <-> exists i row, rows (w_db w) !! i = Some row /\
    (status_in (status row) [Queued; Downloading; StError] && sql_is_zim_url (url row) = true) /\
    (q = part_path zim_dir (name row) \/ file_path row = Some q)).
  { intros q. unfold active. rewrite elem_of_resumable. unfold select_resumable. setoid_rewrite list_elem_of_fmap. split.
    - intros (n & fp & ([i row] & [= -> ->] & Hin) & Hp). apply elem_of_select in Hin as [? ?]. by exists i, row.
    - intros (i & row & Hrow & Hs & Hp). exists (name row), (file_path row). split; [|done].
      exists (i, row). split; [done|]. by apply elem_of_select. }
  run_step Hr.
  2:{ apply fs_free_run in Hr; [|apply _]. rewrite Hr, Efs. split_and!; done. }
  apply fs_free_run in E; [|apply _]. run_step Hr. injection Hr as <- <-. unfold sweep_orphans in E0.
  apply sweep_parts_spec in E0 as (Hk & Hn & Hg). rewrite E, Efs in Hk, Hn, Hg. split_and!.
  - intros i row Hrow Hs Hz. apply Hk. unfold is_orphan. rewrite (bool_decide_true (_ ∈ active)); [by rewrite andb_false_r|].
    apply Hsel. exists i, row. rewrite Hs, Hz. auto.
  - intros q Hq. apply Hk. unfold is_orphan. destruct Hq as [Hq|Hq]; [|by rewrite Hq].
    by rewrite (bool_decide_false _ Hq), andb_false_r.
  - intros _ Hio q Hd Hx [f Hf]. destruct (decide (q ∈ active)) as [Hin|Hin].
    + apply Hsel in Hin as (i & row & Hrow & Hs & Hp). exists i, row. apply andb_prop in Hs as [? ?]. done.
    + exfalso. destruct (w_fs w !! q) as [g|] eqn:Eg; [|by rewrite Hn in Hf].
      rewrite (Hg Hio q) in Hf; [done| |].
      * apply list_elem_of_fmap. exists (q, g). split; [done|]. by apply elem_of_map_to_list.
      * unfold is_orphan. by rewrite Hd, bool_decide_true, bool_decide_false.
Qed.

(** Three queued archives and a limit of two. *)
Definition demo_config : Config :=
  mkConfig true seed_params 2 None EmptyString EmptyString true.
Definition queued_world : World :=
  mkWorld (@db_run ascii_sql
      [(NoFault, OpInsert "a.zim" "http://h/a.zim"); (NoFault, OpInsert "b.zim" "http://h/b.zim");
       (NoFault, OpInsert "c.zim" "http://h/c.zim")] empty_db)
    {["/zim/a.zim.part" := mkFile "half" 0; "/zim/old.part" := mkFile "junk" 0]} 0 [].
Definition no_torrents : string -> result string (list TorrentInfo) := fun _ => Ok [].

Lemma poller_refines_lifecycle_witness :
  let w := with_db (@db_run ascii_sql [(NoFault, OpInsert "a" "magnet:a"); (NoFault, OpMarkDownloading 1);
                                       (NoFault, OpBindHash 1 "aa"); (NoFault, OpCancel 1)] empty_db) queued_world in
  let w' := snd (@run ascii_sql bare_reasons text_url toy_crypto ascii_fold ascii_alnum no_torrents "/zim" demo_config
                   [(demo_config, Ok [])] idle w) in
  exists r', rows (w_db w') !! 1 = Some r' /\ status r' = Cancelled.
Proof.
  cbn zeta. set (w := with_db _ _).
  destruct (proj2 (@poller_refines_lifecycle ascii_sql bare_reasons text_url toy_crypto ascii_fold ascii_alnum no_torrents "/zim"
    demo_config [(demo_config, Ok [])] idle w)) as [_ Hrows].
  - apply db_run_inv, empty_db_inv.
  - destruct (Hrows 1 (set_hash (Some "aa") (fresh_row "a" "magnet:a" None Cancelled f32_zero 0))) as (r' & Hr' & _ & _ & _ & Hc).
    + vm_compute. reflexivity.
    + exists r'. split; [exact Hr'|]. by apply Hc.
Defined.

Lemma enqueue_respects_budget_witness :
  let w' := snd (@process_queued ascii_sql bare_reasons text_url ascii_fold no_torrents "/zim" demo_config
                   false false false [] idle queued_world) in
  downloading (w_db w') = 2 /\ downloading (w_db w') <= 2.
Proof.
  cbn zeta. split; [vm_compute; reflexivity|].
  refine (@enqueue_respects_budget ascii_sql bare_reasons text_url toy_crypto ascii_fold ascii_alnum no_torrents "/zim"
    demo_config false false false [] idle queued_world (Ok tt) _ _ _ _ _ _); [done|done| |done|].
  - apply db_run_inv, empty_db_inv.
  - vm_compute. reflexivity.
Defined.

Lemma sweep_keeps_resumable_witness :
  let w' := snd (@reconcile ascii_sql bare_reasons toy_crypto ascii_fold no_torrents "/zim" demo_config false idle queued_world) in
  w_fs w' !! "/zim/a.zim.part" = Some (mkFile "half" 0) /\ w_fs w' !! "/zim/old.part" = None.
Proof.
  cbn zeta. split; [|vm_compute; reflexivity].
  refine (eq_trans (proj1 (@sweep_keeps_resumable ascii_sql bare_reasons text_url toy_crypto ascii_fold ascii_alnum no_torrents "/zim"
    demo_config idle queued_world (Ok tt) _ _ _) 1 (fresh_row "a.zim" "http://h/a.zim" None Queued f32_zero 0) _ _ _) _);
    [done|vm_compute; reflexivity..].
Defined.
