(* ===== verification/Content.v ===== *)
(** * Content: article text, chunks and raw entries

    [src/content.rs] and [src/serve/handlers/content.rs], with the header
    helpers of [src/serve/handlers/web.rs]: reading an article with its
    fallback and caps, splitting text into chunks, and serving raw entries
    with byte ranges and validators.  The [zim] crate's archive is the class
    [ZimApi], the text extractor the class [Deformat].  Positions in a text
    are byte offsets. *)

From S2P Require Import Prelude RustStr Errors.

(** ** The libraries *)

Inductive Namespace := Articles | UserContent.

Inductive MimeType := MType (s : string) | MRedirect | MOther.

(** Content as the archive hands it out: its length, a view and a copy, each
    of which may fail; a view and a copy that succeed are the same bytes, as
    many as the length says. *)
Record EntryContent := mkContent {
  c_len : result string Z;
  c_with : result string string;
  c_to_vec : result string string
}.

Definition content_ok (c : EntryContent) (b : string) : Prop :=
  (forall n, c_len c = Ok n -> n = str_len b) /\ (forall x, c_with c = Ok x -> x = b) /\
  (forall x, c_to_vec c = Ok x -> x = b).

Class ZimApi := {
  Archive : Type;
  DirEntry : Type;
  get_by_path : Archive -> Namespace -> string -> result string (option DirEntry);
  resolve : Archive -> DirEntry -> result string DirEntry;
  entry_title : DirEntry -> string;
  mime_type : DirEntry -> MimeType;
  entry_content : Archive -> DirEntry -> result string (option EntryContent);
  entry_bytes : Archive -> DirEntry -> string;
  entry_content_ok a e c : entry_content a e = Ok (Some c) -> content_ok c (entry_bytes a e)
}.

Class Deformat := { strip_to_text : string -> string }.

(** [.map_err(|e| Error::Zim(e.to_string()))]. *)
Definition zim_err {A} (r : result string A) : Result A :=
  match r with Ok a => Ok a | Err e => Err (Zim e) end.

(** ** Reading *)

Record ReadResponse := mkRead {
  title : string;
  zim : string;
  path : string;
  content : string;
  truncated : bool;
  full_length : Z;
  source : string
}.

Definition MAX_READ_BYTES : Z := 256 * 1024.
Definition DEFAULT_READ_MAX_LENGTH : Z := 8000.
Definition PREVIEW_CHARS : Z := 2000.

Definition cap_read (b : string) : string * bool :=
  let capped := MAX_READ_BYTES <? str_len b in
  (if MAX_READ_BYTES <=? str_len b then str_take (Z.to_nat MAX_READ_BYTES) b else b, capped).

Definition clamp_read_max_length (max_len : Z) : Z := Z.min max_len MAX_READ_BYTES.

Definition read_response_truncated (source : string) (full_len max_len : Z) : bool :=
  let preview_capped := String.eqb source "db" && (PREVIEW_CHARS <=? full_len) in
  preview_capped || (max_len <? full_len).

Definition ellipsis : string := Eval cbv in str_of [0xE2; 0x80; 0xA6].

Definition truncate_preview (text : string) (max_len : Z) : string * Z :=
  let full_len := Z.of_nat (char_count text) in
  (if max_len <? full_len then char_take (Z.to_nat max_len) text +:+ ellipsis else text, full_len).

(** [s.replace('_', " ")]. *)
Fixpoint replace_char (a b : ascii) (s : string) : string :=
  match s with
  | EmptyString => EmptyString
  | String c s' => String (if Ascii.eqb c a then b else c) (replace_char a b s')
  end.

Definition derive_title_from_path (url : string) : string :=
  replace_char "_"%char " "%char (split_last (Ascii.eqb "/"%char) url).

Section Reading.
Context {Za : ZimApi} {Df : Deformat}.

Definition find_entry (archive : Archive) (path : string) : Result (option DirEntry) :=
  let? first := zim_err (get_by_path archive Articles path) in
  match first with
  | Some entry => Ok (Some entry)
  | None => zim_err (get_by_path archive UserContent path)
  end.

Definition html_to_text (html : string) : string := strip_to_text (from_utf8_lossy html).

(** [.ok_or_else(|| Error::NotFound(..))]. *)
Definition ok_or_not_found {A} (msg : string) (o : option A) : Result A :=
  match o with Some a => Ok a | None => Err (NotFound msg) end.

Definition read_zim_entry_blocking (archive : Archive) (path : string) :
    Result (string * string * bool) :=
  let? found := find_entry archive path in
  let? entry := ok_or_not_found ("path '" +:+ path +:+ "' not found") found in
  let? resolved := zim_err (resolve archive entry) in
  let? content := zim_err (entry_content archive resolved) in
  let? content := ok_or_not_found "no content for entry" content in
  let? bytes := zim_err (c_with content) in
  let '(html, raw_capped) := cap_read bytes in
  Ok (html_to_text html, entry_title resolved, raw_capped).

(** [opened] is the manager's answer to the open. *)
Definition read_zim_entry (opened : Result Archive) (path : string) : Result (string * string * bool) :=
  let? archive := opened in
  read_zim_entry_blocking archive path.

Definition read_zim_text (opened : Result Archive) (path : string) : Result string :=
  let? r := read_zim_entry opened path in
  Ok (fst (fst r)).

(** [known]: the manager lists the archive; [db_row]: the indexed title and
    preview, asked for only when the archive cannot be read. *)
Definition read_article_payload (known : bool) (opened : Result Archive)
    (db_row : Result (option (string * option string))) (zim_name path : string) (max_len : Z) :
    Result ReadResponse :=
  let max_len := clamp_read_max_length max_len in
  if negb known then Err (NotFound ("ZIM '" +:+ zim_name +:+ "' not found"))
  else
    let? found :=
      match read_zim_entry opened path with
      | Ok (text, entry_title, raw_capped) =>
          Ok (text, "zim", if str_is_empty entry_title then derive_title_from_path path else entry_title,
              raw_capped)
      | Err zim_error =>
          let? row := db_row in
          match row with
          | Some (db_title, Some preview) => Ok (preview, "db", db_title, false)
          | _ => Err zim_error
          end
      end in
    let '(text, source, title, raw_capped) := found in
    let '(content_str, full_len) := truncate_preview text max_len in
    Ok (mkRead title zim_name path content_str
          (read_response_truncated source full_len max_len || raw_capped) full_len source).

Definition read_article (known : bool) (opened : Result Archive)
    (db_row : Result (option (string * option string))) (zim_name path : string) (max_length : option Z) :
    Result ReadResponse :=
  read_article_payload known opened db_row zim_name path (default DEFAULT_READ_MAX_LENGTH max_length).

End Reading.

(** ** Chunks *)

Record TextChunk := mkChunk {
  index : nat;
  start : nat;
  end_ : nat;
  text : string
}.

Definition clamp_chunk_params (size overlap : Z) : Z * Z :=
  let size := clamp 10 100000 size in
  (size, Z.min (Z.min overlap (saturating_sub size 1)) (size / 2)).

(** Where the window that starts at [s] ends. *)
Definition chunk_end (t : string) (chunk_size s : nat) : nat :=
  let len := String.length t in
  let hard_end := ceil_char_boundary (Nat.min (s + chunk_size) len) t in
  if Nat.ltb hard_end len then
    let window := str_slice s hard_end t in
    let boundary :=
      match rfind (chr 10) window with
      | Some pos => s + pos + 1
      | None =>
          match rfind " "%char window with
          | Some pos => s + pos + 1
          | None => hard_end
          end
      end%nat in
    Nat.max boundary (s + 1)
  else hard_end.

Definition next_start (t : string) (overlap s e : nat) : nat :=
  let next := floor_char_boundary (e - overlap) t in
  if Nat.leb next s then e else next.

(** The loop; [n] is the number of chunks so far.  [None] is fuel exhausted. *)
Fixpoint chunk_loop (fuel : nat) (t : string) (chunk_size overlap s n : nat) : option (list TextChunk) :=
  match fuel with
  | O => None
  | S fuel' =>
      let len := String.length t in
      if Nat.ltb s len then
        let e := chunk_end t chunk_size s in
        let raw := trim (str_slice s e t) in
        let out := if str_is_empty raw then [] else [mkChunk n s e raw] in
        if Nat.leb len e then Some out
        else app out <$> chunk_loop fuel' t chunk_size overlap (next_start t overlap s e) (length out + n)
      else Some []
  end.

Definition chunk_text (t : string) (chunk_size overlap : nat) : option (list TextChunk) :=
  match chunk_size with
  | O => Some []
  | S _ => chunk_loop (S (String.length t)) t chunk_size (Nat.min overlap (chunk_size - 1)) 0 0
  end.

Record ChunksResponse := mkChunksResponse {
  c_zim : string;
  c_path : string;
  chunk_count : nat;
  chunks : list TextChunk
}.

Definition get_chunks `{ZimApi, Deformat} (opened : Result Archive) (zim_name path : string)
    (size overlap : option Z) : Result (option ChunksResponse) :=
  let '(chunk_size, ov) := clamp_chunk_params (default 1000 size) (default 200 overlap) in
  let? t := read_zim_text opened path in
  Ok ((fun cs => mkChunksResponse zim_name path (length cs) cs)
        <$> chunk_text t (Z.to_nat chunk_size) (Z.to_nat ov)).

(** ** Lemmas: chunks *)

Lemma chunk_end_bounds t size s :
  (0 < size -> s < String.length t -> s < chunk_end t size s <= String.length t)%nat.
Proof.
  intros Hs Hl. unfold chunk_end.
  pose proof (ceil_char_boundary_bounds (Nat.min (s + size) (String.length t)) t ltac:(lia)) as Hc.
  set (h := ceil_char_boundary _ t) in *.
  destruct (Nat.ltb_spec h (String.length t)); [|lia].
  assert (Hb : forall c p, rfind c (str_slice s h t) = Some p -> (s + p + 1 <= h)%nat).
  { intros c p Hp%rfind_bound. rewrite str_slice_length in Hp. lia. }
  destruct (rfind (chr 10) _) as [p|] eqn:E1; [specialize (Hb _ _ E1); lia|].
  destruct (rfind " "%char _) as [p|] eqn:E2; [specialize (Hb _ _ E2); lia|]. lia.
Qed.

Lemma next_start_bounds t overlap s e : (s < e -> s < next_start t overlap s e <= e)%nat.
Proof.
  intros He. unfold next_start. pose proof (floor_char_boundary_le (e - overlap) t).
  destruct (Nat.leb_spec (floor_char_boundary (e - overlap) t) s); lia.
Qed.

(** What the loop yields from a start on: windows in order, each a non-blank
    slice of at most the window, and no text between them but blank. *)
Definition chunk_ok (t : string) (c : TextChunk) : Prop :=
  (start c < end_ c <= String.length t)%nat /\ text c = trim (str_slice (start c) (end_ c) t) /\
  text c <> EmptyString.

Definition covered (t : string) (cs : list TextChunk) (i : nat) : Prop :=
  (exists c, c ∈ cs /\ (start c <= i < end_ c)%nat) \/
  (exists a b, (a <= i < b)%nat /\ (b <= String.length t)%nat /\ trim (str_slice a b t) = EmptyString).

Lemma covered_app_l t cs cs' i : covered t cs i -> covered t (cs ++ cs') i.
Proof. intros [(c & ? & ?)|?]; [left; exists c; set_solver|by right]. Qed.

Lemma covered_app_r t cs cs' i : covered t cs' i -> covered t (cs ++ cs') i.
Proof. intros [(c & ? & ?)|?]; [left; exists c; set_solver|by right]. Qed.

(** One window's contribution. *)
Definition window_chunk (t : string) (n s e : nat) : list TextChunk :=
  let raw := trim (str_slice s e t) in
  if str_is_empty raw then [] else [mkChunk n s e raw].

Lemma window_chunk_cases t n s e : (s < e)%nat -> (e <= String.length t)%nat ->
  (window_chunk t n s e = [] /\ trim (str_slice s e t) = EmptyString) \/
  (exists c, window_chunk t n s e = [c] /\ chunk_ok t c /\ index c = n /\ start c = s /\ end_ c = e).
Proof.
  intros Hs He. unfold window_chunk. destruct (trim (str_slice s e t)) as [|ch raw] eqn:Er; [by left|].
  right. eexists. split; [reflexivity|]. unfold chunk_ok. cbn [text start end_ index]. rewrite Er. split_and!; lia || done.
Qed.

Lemma window_chunk_covered t n s e i :
  (s < e)%nat -> (e <= String.length t)%nat -> (s <= i < e)%nat -> covered t (window_chunk t n s e) i.
Proof.
  intros Hs He Hi. destruct (window_chunk_cases t n s e Hs He) as [[-> Hw]|(c & -> & _ & _ & Hc & Hc')].
  - right. by exists s, e.
  - left. exists c. rewrite Hc, Hc'. split; [by left|lia].
Qed.

(** What the loop yields from [s] on. *)
Record chunks_from (t : string) (s n : nat) (cs : list TextChunk) : Prop := {
  cf_ok : Forall (chunk_ok t) cs;
  cf_index : forall k c, cs !! k = Some c -> index c = (n + k)%nat;
  cf_start : Forall (fun c => s <= start c)%nat cs;
  cf_sorted : StronglySorted (fun a b => start a < start b)%nat cs;
  cf_covered : forall i, (s <= i < String.length t)%nat -> covered t cs i
}.

Lemma chunks_from_nil t s n : (String.length t <= s)%nat -> chunks_from t s n [].
Proof. intros. split; [constructor|done|constructor|constructor|intros i Hi; lia]. Qed.

Lemma chunks_from_last t s n : (s < String.length t)%nat ->
  chunks_from t s n (window_chunk t n s (String.length t)).
Proof.
  intros Hs. pose proof (window_chunk_covered t n s (String.length t)) as Hc.
  destruct (window_chunk_cases t n s (String.length t) Hs ltac:(lia))
    as [[E Hw]|(c & E & Hok & Hidx & Hst & _)]; rewrite E in *.
  - split; [constructor|done|constructor|constructor|intros i Hi; apply Hc; lia].
  - split; [by apply Forall_singleton| |apply Forall_singleton; lia|by repeat constructor|
      intros i Hi; apply Hc; lia].
    intros [|k] d; cbn; [intros [= <-]; lia|done].
Qed.

Lemma chunks_from_step t s n e s' cs :
  (s < s' <= e)%nat -> (e <= String.length t)%nat ->
  chunks_from t s' (length (window_chunk t n s e) + n) cs ->
  chunks_from t s n (window_chunk t n s e ++ cs).
Proof.
  intros Hs He [H1 H2 H3 H4 H5]. pose proof (window_chunk_covered t n s e) as Hc.
  assert (Hcov : forall i, (s <= i < String.length t)%nat -> covered t (window_chunk t n s e ++ cs) i).
  { intros i Hi. destruct (decide (i < e)%nat).
    - apply covered_app_l, Hc; lia.
    - apply covered_app_r, H5; lia. }
  assert (H3' : Forall (fun c => s < start c)%nat cs)
    by (eapply Forall_impl; [exact H3|]; cbn; intros; lia).
  destruct (window_chunk_cases t n s e ltac:(lia) He) as [[E Hw]|(c & E & Hok & Hidx & Hst & _)]; rewrite E in *.
  - split; try done. eapply Forall_impl; [exact H3'|]. cbn. intros. lia.
  - split; [by constructor| | | |exact Hcov].
    + intros [|k] d; cbn; [intros [= <-]; lia|]. intros Hk%H2. cbn in Hk. lia.
    + constructor; [lia|]. eapply Forall_impl; [exact H3'|]. cbn. intros. lia.
    + constructor; [exact H4|]. by rewrite Hst.
Qed.

Lemma chunk_loop_spec t size overlap : (0 < size)%nat -> forall fuel s n,
  (String.length t - s < fuel)%nat ->
  exists cs, chunk_loop fuel t size overlap s n = Some cs /\ chunks_from t s n cs.
Proof.
  intros Hsize. induction fuel as [|fuel IH]; intros s n Hf; [lia|]. cbn [chunk_loop].
  destruct (Nat.ltb_spec s (String.length t)) as [Hlt|Hge]; [|eauto using chunks_from_nil].
  pose proof (chunk_end_bounds t size s Hsize Hlt) as He. set (e := chunk_end t size s) in *.
  change (if str_is_empty _ then _ else _) with (window_chunk t n s e).
  destruct (Nat.leb_spec (String.length t) e) as [Hend|Hend].
  - replace e with (String.length t) by lia. eauto using chunks_from_last.
  - pose proof (next_start_bounds t overlap s e ltac:(lia)).
    destruct (IH (next_start t overlap s e) (length (window_chunk t n s e) + n)%nat ltac:(lia))
      as (cs & -> & Hcs).
    eexists. split; [reflexivity|]. eapply chunks_from_step; [..|exact Hcs]; lia.
Qed.

(** On valid text every window starts and ends at a character. *)
Lemma chunk_end_boundary t size s : utf8_valid (bytes_of t) = true -> (0 < size)%nat ->
  (s < String.length t)%nat -> is_char_boundary t (chunk_end t size s) = true.
Proof.
  intros Hv Hsize Hs. unfold chunk_end. pose proof (ceil_char_boundary_ok (Nat.min (s + size) (String.length t)) t) as Hb.
  pose proof (ceil_char_boundary_bounds (Nat.min (s + size) (String.length t)) t ltac:(lia)) as Hc.
  set (h := ceil_char_boundary _ t) in *. destruct (Nat.ltb h (String.length t)); [|done].
  assert (Hf : forall c p, byte c < 0x80 -> rfind c (str_slice s h t) = Some p ->
    is_char_boundary t (Nat.max (s + p + 1) (s + 1)) = true).
  { intros c p Hlt [r Hp]%rfind_char. apply str_slice_drop_cons in Hp as [r' Hp].
    replace (Nat.max (s + p + 1) (s + 1)) with (S (s + p)) by lia.
    by eapply boundary_after_ascii. }
  destruct (rfind (chr 10) _) as [p|] eqn:E1; [by apply (Hf _ _) in E1|].
  destruct (rfind " "%char _) as [p|] eqn:E2; [by apply (Hf _ _) in E2|].
  by replace (Nat.max h (s + 1)) with h by lia.
Qed.

Lemma next_start_boundary t overlap s e : utf8_valid (bytes_of t) = true ->
  is_char_boundary t e = true -> is_char_boundary t (next_start t overlap s e) = true.
Proof.
  intros Hv He. unfold next_start. destruct (Nat.leb _ s); [done|].
  by apply floor_char_boundary_ok, boundary_start.
Qed.

Lemma chunk_loop_boundaries t size overlap : utf8_valid (bytes_of t) = true -> (0 < size)%nat ->
  forall fuel s n cs, is_char_boundary t s = true -> chunk_loop fuel t size overlap s n = Some cs ->
  Forall (fun c => is_char_boundary t (start c) = true /\ is_char_boundary t (end_ c) = true) cs.
Proof.
  intros Hv Hsize. induction fuel as [|fuel IH]; intros s n cs Hs Hr; cbn [chunk_loop] in Hr; [done|].
  destruct (Nat.ltb_spec s (String.length t)) as [Hlt|]; [|injection Hr as <-; constructor].
  pose proof (chunk_end_boundary t size s Hv Hsize Hlt) as He. set (e := chunk_end t size s) in *.
  change (if str_is_empty _ then _ else _) with (window_chunk t n s e) in Hr.
  assert (Hw : Forall (fun c => is_char_boundary t (start c) = true /\ is_char_boundary t (end_ c) = true)
    (window_chunk t n s e))
    by (unfold window_chunk; destruct (str_is_empty _); [constructor|by apply Forall_singleton]).
  destruct (Nat.leb (String.length t) e); [by injection Hr as <-|].
  destruct (chunk_loop fuel _ _ _ _ _) as [cs'|] eqn:E; [|done]. injection Hr as <-.
  apply Forall_app. split; [done|]. eapply IH; [|exact E]. by apply next_start_boundary.
Qed.

(** ** Theorems: chunks *)

(** C27: Splitting a text into chunks terminates for every chunk size and
    overlap (the window always moves forward, also when the overlap would pull
    it back), and its chunks are numbered from zero in the order of strictly
    increasing starts, each the trimmed non-empty text of its own byte window;
    every byte of the text is in a chunk or in a blank window that was skipped. *)
Theorem chunking_terminates (t : string) (chunk_size overlap : nat) :
  exists cs, chunk_text t chunk_size overlap = Some cs /\
    (chunk_size = 0%nat -> cs = []) /\ ((0 < chunk_size)%nat -> chunks_from t 0 0 cs).
Proof.
  destruct chunk_size as [|size]; cbn [chunk_text]; [exists []; split_and!; done || lia|].
  destruct (chunk_loop_spec t (S size) (Nat.min overlap (S size - 1)) ltac:(lia) (S (String.length t)) 0 0)
    as (cs & -> & Hcs); [lia|].
  exists cs. split_and!; done || lia.
Qed.

(** On text that is valid UTF-8, every chunk starts and ends on a character
    boundary, whatever the sizes asked for and wherever the line, space and
    overlap arithmetic lands, so no slice of the text panics. *)
Theorem chunks_on_char_boundaries (t : string) (chunk_size overlap : nat) (cs : list TextChunk) :
  utf8_valid (bytes_of t) = true -> chunk_text t chunk_size overlap = Some cs ->
  Forall (fun c => is_char_boundary t (start c) = true /\ is_char_boundary t (end_ c) = true) cs.
Proof.
  intros Hv. destruct chunk_size as [|size]; cbn [chunk_text]; [intros [= <-]; constructor|].
  apply chunk_loop_boundaries; [done|lia|by apply boundary_start].
Qed.

Lemma chunks_on_char_boundaries_witness :
  exists cs, chunk_text (str_of [97; 0xC3; 0xA9; 10; 0xC3; 0xA9; 98; 0xE2; 0x82; 0xAC; 99]) 4 3 = Some cs /\
    length cs = 4%nat /\
    Forall (fun c => is_char_boundary (str_of [97; 0xC3; 0xA9; 10; 0xC3; 0xA9; 98; 0xE2; 0x82; 0xAC; 99]) (start c) = true /\
      is_char_boundary (str_of [97; 0xC3; 0xA9; 10; 0xC3; 0xA9; 98; 0xE2; 0x82; 0xAC; 99]) (end_ c) = true) cs.
Proof.
  eexists. split; [vm_compute; reflexivity|]. split; [reflexivity|].
  eapply chunks_on_char_boundaries; [vm_compute; reflexivity|].
  instantiate (1 := 3%nat). instantiate (1 := 4%nat). vm_compute. reflexivity.
Defined.

(** With the overlap at half the size a window can still advance by less than
    half the size: a line break near its start ends it early. *)
Theorem window_can_advance_less_than_half :
  let t := String "a" (String (chr 10) (str_of (replicate 30 98))) in
  let '(chunk_size, overlap) := clamp_chunk_params 20 10 in
  (chunk_size, overlap) = (20, 10) /\
  next_start t (Z.to_nat overlap) 0 (chunk_end t (Z.to_nat chunk_size) 0) = 2%nat.
Proof. vm_compute. done. Qed.

(** ** Lemmas: reading *)

Lemma cap_read_uncapped b : snd (cap_read b) = false ->
  fst (cap_read b) = b /\ str_len b <= MAX_READ_BYTES.
Proof.
  unfold cap_read. cbn [fst snd]. intros H%Z.ltb_ge. split; [|done].
  destruct (Z.leb_spec MAX_READ_BYTES (str_len b)); [|done].
  apply str_take_all. rewrite str_len_length in *. lia.
Qed.

Lemma truncate_preview_spec t m : 0 <= m ->
  snd (truncate_preview t m) = Z.of_nat (char_count t) /\
  (Z.of_nat (char_count t) <= m -> fst (truncate_preview t m) = t) /\
  Z.of_nat (char_count (fst (truncate_preview t m))) <= m + 1.
Proof.
  intros Hm. unfold truncate_preview. cbn [fst snd]. split; [done|].
  destruct (Z.ltb_spec m (Z.of_nat (char_count t))); split; try done; try lia.
  rewrite char_count_app. change (char_count ellipsis) with 1%nat.
  pose proof (char_take_count (Z.to_nat m) t). lia.
Qed.

Section ReadLemmas.
Context {Za : ZimApi} {Df : Deformat}.

Lemma read_zim_entry_uncapped opened path t ti :
  read_zim_entry opened path = Ok (t, ti, false) ->
  exists a e, opened = Ok a /\ t = html_to_text (entry_bytes a e) /\
    str_len (entry_bytes a e) <= MAX_READ_BYTES.
Proof.
  unfold read_zim_entry. intros (a & -> & Er)%rbind_ok. unfold read_zim_entry_blocking in Er.
  apply rbind_ok in Er as (? & _ & Er). apply rbind_ok in Er as (? & _ & Er).
  apply rbind_ok in Er as (e & _ & Er). apply rbind_ok in Er as ([c|] & Ec & Er); [|discriminate].
  cbn [ok_or_not_found rbind] in Er. apply rbind_ok in Er as (b & Eb & Er).
  unfold zim_err in Ec, Eb. destruct (entry_content a e) as [c'|] eqn:Ec'; [|discriminate].
  injection Ec as ->. destruct (c_with c) as [b'|] eqn:Eb'; [|discriminate]. injection Eb as ->.
  destruct (entry_content_ok a e c Ec') as (_ & Hw & _). apply Hw in Eb' as ->.
  pose proof (cap_read_uncapped (entry_bytes a e)) as Hc.
  destruct (cap_read (entry_bytes a e)) as [h cp]. cbn [fst snd] in Hc.
  injection Er as <- _ ->. destruct (Hc eq_refl) as [-> ?]. by exists a, e.
Qed.

End ReadLemmas.

(** ** Theorems: reading *)

(** A reading that is not marked truncated is the whole of what there is: read
    from the archive, its content is the text of all of the entry's bytes; read
    from the index, it is the stored preview, which the indexer did not cap.
    In every case the content is at most the asked-for number of characters,
    itself capped at 256 Ki, and an ellipsis. *)
Theorem untruncated_reading_is_whole `{Za : ZimApi, Df : Deformat} (known : bool)
    (opened : Result Archive) (db_row : Result (option (string * option string)))
    (zim_name path : string) (max_len : Z) (r : ReadResponse) :
  0 <= max_len ->
  read_article_payload known opened db_row zim_name path max_len = Ok r ->
  known = true /\
  (truncated r = false ->
   (source r = "zim" /\ exists a e, opened = Ok a /\ content r = html_to_text (entry_bytes a e) /\
      str_len (entry_bytes a e) <= MAX_READ_BYTES) \/
   (source r = "db" /\ (exists t, db_row = Ok (Some (t, Some (content r)))) /\
      full_length r < PREVIEW_CHARS)) /\
  Z.of_nat (char_count (content r)) <= Z.min max_len MAX_READ_BYTES + 1.
Proof.
  intros Hmax. unfold read_article_payload, clamp_read_max_length.
  assert (Hm : 0 <= Z.min max_len MAX_READ_BYTES) by (unfold MAX_READ_BYTES; lia).
  set (m := Z.min max_len MAX_READ_BYTES) in *. clearbody m.
  destruct known; cbn [negb]; [|discriminate].
  intros H%rbind_ok. destruct H as ([[[t src] ti] capped] & Hf & H).
  destruct (truncate_preview_spec t m Hm) as (Hn & Hall & Hle).
  destruct (truncate_preview t m) as [ct fl]. cbn [fst snd] in *. subst fl.
  injection H as <-. cbn [truncated source content full_length].
  unfold read_response_truncated. split_and!; [done| |done].
  intros Ht. apply orb_false_iff in Ht as [[Hp Hlen]%orb_false_iff ->].
  apply Z.ltb_ge in Hlen. rewrite (Hall Hlen).
  destruct (read_zim_entry opened path) as [[[text et] rc]|ze] eqn:Er.
  - left. injection Hf as -> <- _ ->. split; [done|]. by eapply read_zim_entry_uncapped.
  - right. apply rbind_ok in Hf as ([[dt [pv|]]|] & -> & Hf); try discriminate.
    injection Hf as -> <- _. cbn in Hp. split_and!; [done|by exists dt|lia].
Qed.

(** An archive whose entries are [path |-> title, bytes], for the witnesses. *)
#[refine] Definition list_zim : ZimApi := {|
  Archive := list (string * (string * string * string));
  DirEntry := string * string * string;
  get_by_path a ns p :=
    Ok (match ns with Articles => snd <$> List.find (fun x => String.eqb (fst x) p) a | UserContent => None end);
  resolve a e := Ok e;
  entry_title e := fst (fst e);
  mime_type e := MType (snd (fst e));
  entry_content a e := Ok (Some (mkContent (Ok (str_len (snd e))) (Ok (snd e)) (Ok (snd e))));
  entry_bytes a e := snd e;
  entry_content_ok a e c := _
|}.
Proof.
  intros [= <-]. split_and!; cbn; intros ? [= <-]; done.
Defined.

Definition plain_text : Deformat := {| strip_to_text s := s |}.

Lemma untruncated_reading_is_whole_witness :
  let a := [("A/Rust", ("Rust", "text/html", "a language"))] in
  exists r, @read_article_payload list_zim plain_text true (Ok a) (Ok None) "en" "A/Rust" 8000 = Ok r /\
    truncated r = false /\ Z.of_nat (char_count (content r)) <= 8001.
Proof.
  eexists. split; [vm_compute; reflexivity|]. split; [reflexivity|].
  eapply (@untruncated_reading_is_whole list_zim plain_text true
    (Ok [("A/Rust", ("Rust", "text/html", "a language"))]) (Ok None) "en" "A/Rust" 8000); [lia|].
  vm_compute. reflexivity.
Defined.
