(* ===== verification/RawContent.v ===== *)
(** * RawContent: archive entries over HTTP

    The raw half of [src/serve/handlers/content.rs] and the header helpers of
    [src/serve/handlers/web.rs]: which content type an entry is served as, the
    single byte range of a request, the validator of a file and its
    revalidation, and the response.  Whether a text is a header value, and the
    answer when a header is not one, is the HTTP library's: the class
    [HttpLib]. *)

From S2P Require Import Prelude RustStr Errors Content.

Record HttpResponse := mkResp {
  status : Z;
  headers : list (string * string);
  body : string
}.

Class HttpLib := {
  header_value_ok : string -> bool;
  invalid_parts : HttpResponse;
  invalid_parts_status : status invalid_parts = 500
}.

(** [(status, headers, body).into_response()]. *)
Definition into_response `{HttpLib} (st : Z) (hs : list (string * string)) (b : string) : HttpResponse :=
  if forallb (fun h => header_value_ok (snd h)) hs then mkResp st hs b else invalid_parts.

(** ** Content types *)

Definition script_mimes : list string :=
  ["text/javascript"; "text/ecmascript"; "application/javascript"; "application/x-javascript";
   "application/ecmascript"; "application/x-ecmascript"; "text/jscript"; "application/x-jscript";
   "text/typescript"; "application/xslt+xml"; "text/xsl"].

Definition is_script_executing_mime (mime : string) : bool :=
  existsb (String.eqb mime) script_mimes.

(** [s.split(';').next().unwrap_or("").trim()]. *)
Definition essence (s : string) : string := trim (split_first (Ascii.eqb ";"%char) s).

Definition content_type_for (mt : MimeType) : string :=
  match mt with
  | MType s =>
      let lower := to_ascii_lowercase s in
      if is_script_executing_mime (essence lower) then "text/plain; charset=utf-8"
      else if starts_with "text/" lower && negb (contains "charset" lower) then s +:+ "; charset=utf-8"
      else s
  | MRedirect => "text/html"
  | MOther => "application/octet-stream"
  end.

Definition RAW_CONTENT_CSP : string :=
  "default-src 'none'; script-src 'none'; style-src 'unsafe-inline'; img-src data: blob:; font-src data:; frame-ancestors 'none'".

Definition is_browser_html (content_type : string) : bool :=
  let ct := essence content_type in
  String.eqb ct "text/html" || String.eqb ct "application/xhtml+xml" || String.eqb ct "image/svg+xml".

Definition raw_content_security_headers (content_type : string) : list (string * string) :=
  ("content-security-policy", RAW_CONTENT_CSP) ::
  (if is_browser_html content_type then [("x-frame-options", "DENY")] else []).

(** ** Ranges *)

Inductive ParsedRange := Slice (start end_ : Z) | Unsatisfiable.

Inductive RangeNum := Val (v : Z) | Overflow | Invalid.

Definition parse_range_num (s : string) : RangeNum :=
  let t := trim s in
  if str_is_empty t || negb (str_forall is_digit_char t) then Invalid
  else match parse_u64 t with Some v => Val v | None => Overflow end.

Definition parse_single_range (header_value : string) (total : Z) : option ParsedRange :=
  strip_prefix "bytes=" (trim header_value) ≫= fun spec =>
  if contains_char ","%char spec then None
  else if total =? 0 then Some Unsatisfiable
  else
    match split_once "-" spec with
    | Some (EmptyString, suffix) =>
        match parse_range_num suffix with
        | Val n =>
            if n =? 0 then Some Unsatisfiable
            else Some (Slice (saturating_sub total n) (saturating_sub total 1))
        | Overflow => Some (Slice 0 (saturating_sub total 1))
        | Invalid => None
        end
    | Some (start_s, EmptyString) =>
        match parse_range_num start_s with
        | Val start =>
            if total <=? start then Some Unsatisfiable else Some (Slice start (saturating_sub total 1))
        | Overflow => Some Unsatisfiable
        | Invalid => None
        end
    | Some (start_s, end_s) =>
        match parse_range_num start_s with
        | Val start =>
            match
              match parse_range_num end_s with
              | Val v => Some v
              | Overflow => Some (saturating_sub total 1)
              | Invalid => None
              end
            with
            | None => None
            | Some e =>
                if (total <=? start) || (e <? start) then Some Unsatisfiable
                else Some (Slice start (if total <=? e then saturating_sub total 1 else e))
            end
        | Overflow => Some Unsatisfiable
        | Invalid => None
        end
    | None => None
    end.

Definition slice_range_bytes (total : Z) (pr : option ParsedRange) : option (Z * Z) :=
  match pr with
  | Some (Slice start e) => Some (Z.min start total, Z.min (e + 1) total)
  | _ => None
  end.

(** [b.get(a..e).unwrap_or(&[])]. *)
Definition get_slice (b : string) (a e : Z) : string :=
  if (a <=? e) && (e <=? str_len b) then str_slice (Z.to_nat a) (Z.to_nat e) b else EmptyString.

(** ** Validators *)

Definition quoted (s : string) : string := String (chr 34) (s +:+ String (chr 34) EmptyString).

(** [modified]: milliseconds since the epoch, [None] when the platform or a
    time before the epoch gives none; [as u64] wraps. *)
Record Metadata := mkMetadata { modified : option Z; md_len : Z }.

Definition etag_from_metadata (md : Metadata) : option string :=
  let mtime_ms := match modified md with Some ms => ms mod 2 ^ 64 | None => 0 end in
  Some (quoted (pretty mtime_ms +:+ "-" +:+ pretty (md_len md))).

Definition if_none_match_matches (header_value etag : string) : bool :=
  let v := trim header_value in
  String.eqb v "*" || existsb (fun e => String.eqb (trim e) etag) (split_on (Ascii.eqb ","%char) v).

(** ** The response *)

Definition MAX_RAW_BYTES : Z := 64 * 1024 * 1024.

Inductive RawRead :=
| NotModified (etag : string)
| Read (etag : option string) (content_type : string) (total : Z) (range : option ParsedRange)
    (bytes : string).

Section Raw.
Context {Za : ZimApi} {Hl : HttpLib}.

(** [stat]: the file's metadata, read afresh. *)
Definition read_raw_entry_blocking (archive : Archive) (path : string) (range_header : option string)
    (stat : option Metadata) (if_none_match : option string) : Result RawRead :=
  let etag := stat ≫= etag_from_metadata in
  let read_entry :=
    let? found := find_entry archive path in
    let? entry := ok_or_not_found ("path '" +:+ path +:+ "' not found") found in
    let? resolved := zim_err (resolve archive entry) in
    let? content := zim_err (entry_content archive resolved) in
    let? content := ok_or_not_found "no content" content in
    let? total := zim_err (c_len content) in
    let range := range_header ≫= (fun s => parse_single_range s total) in
    let? bytes :=
      if MAX_RAW_BYTES <? total then Ok EmptyString
      else
        match range with
        | Some (Slice _ _) =>
            let '(a, e) := default (0, 0) (slice_range_bytes total range) in
            let? b := zim_err (c_with content) in Ok (get_slice b a e)
        | Some Unsatisfiable => Ok EmptyString
        | None => zim_err (c_to_vec content)
        end in
    Ok (Read etag (content_type_for (mime_type resolved)) total range bytes) in
  match if_none_match, etag with
  | Some inm, Some tag => if if_none_match_matches inm tag then Ok (NotModified tag) else read_entry
  | _, _ => read_entry
  end.

Definition append_sec_headers (resp : HttpResponse) (sec : list (string * string)) : HttpResponse :=
  mkResp (status resp) (headers resp ++ List.filter (fun h => header_value_ok (snd h)) sec) (body resp).

Definition insert_etag (resp : HttpResponse) (etag : option string) : HttpResponse :=
  match etag with
  | Some tag =>
      if header_value_ok tag then
        mkResp (status resp)
          (List.filter (fun h => negb (String.eqb (fst h) "etag")) (headers resp) ++ [("etag", tag)])
          (body resp)
      else resp
  | None => resp
  end.

(** [known]: the manager has a file for the archive; [opened]: its answer to
    the fresh open. *)
Definition raw_content (known : bool) (opened : Result Archive) (zim_name path : string)
    (range_header if_none_match : option string) (stat : option Metadata) : Result HttpResponse :=
  if negb known then Err (NotFound ("ZIM '" +:+ zim_name +:+ "' not found"))
  else
    let? archive := opened in
    let? read := read_raw_entry_blocking archive path range_header stat if_none_match in
    match read with
    | NotModified tag => Ok (into_response 304 [("etag", tag)] EmptyString)
    | Read etag content_type total range bytes =>
        if MAX_RAW_BYTES <? total then
          Err (Zim ("entry is " +:+ pretty total +:+ " bytes, exceeds the " +:+ pretty MAX_RAW_BYTES
                    +:+ "-byte serving limit"))
        else
          let sec := raw_content_security_headers content_type in
          match range with
          | Some (Slice start e) =>
              Ok (insert_etag (append_sec_headers
                    (into_response 206
                       [("content-type", content_type);
                        ("content-range", "bytes " +:+ pretty start +:+ "-" +:+ pretty e +:+ "/" +:+ pretty total);
                        ("content-length", pretty (str_len bytes)); ("accept-ranges", "bytes");
                        ("x-content-type-options", "nosniff")] bytes) sec) etag)
          | Some Unsatisfiable =>
              Ok (into_response 416 [("content-range", "bytes */" +:+ pretty total)] EmptyString)
          | None =>
              Ok (insert_etag (append_sec_headers
                    (into_response 200
                       [("content-type", content_type); ("content-length", pretty total);
                        ("accept-ranges", "bytes"); ("x-content-type-options", "nosniff")] bytes) sec) etag)
          end
    end.

End Raw.

(** ** Snippets *)

Record SnippetResponse := mkSnippet {
  s_zim : string;
  s_path : string;
  s_title : string;
  snippet : string;
  preview : option string
}.

(** [row]: the snippet, title and preview of the article's row. *)
Definition get_snippet (row : Result (option (string * string * option string))) (zim path : string) :
    Result SnippetResponse :=
  let? row := row in
  match row with
  | Some (snippet, title, preview) => Ok (mkSnippet zim path title snippet preview)
  | None => Err (NotFound ("article '" +:+ zim +:+ "' / '" +:+ path +:+ "' not indexed"))
  end.

(** ** Lemmas: ranges *)

Lemma digit_char_facts a : is_digit_char a = true ->
  ws_byte a = false /\ Ascii.eqb "-"%char a = false /\ Ascii.eqb ","%char a = false.
Proof. destruct a as [[] [] [] [] [] [] [] []]; done. Qed.

Lemma parse_range_num_pretty n : 0 <= n <= u64_max -> parse_range_num (pretty n) = Val n.
Proof.
  intros Hn. unfold parse_range_num. rewrite trim_id.
  2:{ apply pretty_forall; [lia|]. intros a Ha. by destruct (digit_char_facts a Ha) as [-> _]. }
  rewrite pretty_digits by lia. unfold parse_u64. rewrite parse_unsigned_pretty by lia.
  pose proof (pretty_ne n ltac:(lia)). by destruct (pretty n).
Qed.

Lemma parse_range_num_val s v : parse_range_num s = Val v -> 0 <= v <= u64_max.
Proof.
  unfold parse_range_num. destruct (_ || _); [done|]. destruct (parse_u64 _) as [n|] eqn:E; [|done].
  intros [= <-]. by apply parse_unsigned_bound in E.
Qed.

(** A range the parser accepts lies within the body. *)
Lemma parse_single_range_bounds h total s e : 0 <= total ->
  parse_single_range h total = Some (Slice s e) -> 0 <= s <= e /\ e < total.
Proof.
  intros Ht. unfold parse_single_range, saturating_sub.
  destruct (strip_prefix _ _) as [spec|]; cbn; [|done]. destruct (contains_char _ _); [done|].
  destruct (Z.eqb_spec total 0) as [|Hne]; [done|]. destruct (split_once "-" spec) as [[a b]|]; [|done].
  destruct a as [|ca a].
  - destruct (parse_range_num b) as [n| |] eqn:En; [|intros [= <- <-]; lia|done].
    destruct (Z.eqb_spec n 0); [done|]. apply parse_range_num_val in En. intros [= <- <-]. lia.
  - destruct (parse_range_num (String ca a)) as [n| |] eqn:En; [|by destruct b|by destruct b].
    apply parse_range_num_val in En. destruct b as [|cb b].
    + destruct (Z.leb_spec total n); [done|]. intros [= <- <-]. lia.
    + destruct (parse_range_num (String cb b)) as [m| |] eqn:Em; [| |done]; cbn [orb].
      * apply parse_range_num_val in Em.
        destruct (Z.leb_spec total n); [done|]. destruct (Z.ltb_spec m n); [done|].
        destruct (Z.leb_spec total m); intros [= <- <-]; lia.
      * destruct (Z.leb_spec total n); [done|]. destruct (Z.ltb_spec (Z.max 0 (total - 1)) n); [done|].
        destruct (Z.leb_spec total (Z.max 0 (total - 1))); intros [= <- <-]; lia.
Qed.

(** ** What a range header asks for *)

(** The value of a text of digits, of any length. *)
Fixpoint digits_value (acc : Z) (s : string) : option Z :=
  match s with
  | EmptyString => Some acc
  | String a s' => match digit a with Some d => digits_value (acc * 10 + d) s' | None => None end
  end.

Definition range_number (s : string) : option Z :=
  if str_is_empty (trim s) then None else digits_value 0 (trim s).

(** The bytes [first..=last] that a header names in a body of [total] bytes:
    [bytes=n-m] from [n] to [m] or the end, [bytes=n-] from [n], [bytes=-n] the
    last [n]; one range only, which starts within the body. *)
Inductive asks_for (total : Z) : string -> Z -> Z -> Prop :=
| Asks_between a b n m :
    contains_char "-" a = false -> contains_char "," (a +:+ "-" +:+ b) = false ->
    range_number a = Some n -> range_number b = Some m -> n <= m -> n < total ->
    asks_for total ("bytes=" +:+ a +:+ "-" +:+ b) n (Z.min m (total - 1))
| Asks_from a n :
    contains_char "-" a = false -> contains_char "," a = false -> range_number a = Some n -> n < total ->
    asks_for total ("bytes=" +:+ a +:+ "-") n (total - 1)
| Asks_last b n :
    contains_char "," b = false -> range_number b = Some n -> 0 < n -> 0 < total ->
    asks_for total ("bytes=-" +:+ b) (Z.max 0 (total - n)) (total - 1).

Lemma digit_bound a d : digit a = Some d -> 0 <= d <= 9.
Proof. unfold digit. case_match eqn:E; [|done]. intros [= <-]. lia. Qed.

Lemma digits_value_ge acc s v : 0 <= acc -> digits_value acc s = Some v -> acc <= v.
Proof.
  revert acc. induction s as [|a s IH]; cbn; intros acc Ha; [by intros [= ->]|].
  destruct (digit a) as [d|] eqn:E; [|done]. apply digit_bound in E. intros H%IH; lia.
Qed.

Lemma digits_value_none acc s : str_forall is_digit_char s = true <-> is_Some (digits_value acc s).
Proof.
  revert acc. induction s as [|a s IH]; cbn; intros acc; [split; [by eexists|done]|]. unfold is_digit_char at 1.
  destruct (digit a) as [d|]; cbn; [apply IH|]. split; [done|by intros [? [=]]].
Qed.

Lemma parse_digits_value max acc s v : 0 <= acc -> digits_value acc s = Some v ->
  parse_digits max acc s = if (v <=? max) || str_is_empty s then Some v else None.
Proof.
  revert acc. induction s as [|a s IH]; cbn [digits_value parse_digits str_is_empty]; intros acc Ha.
  - intros [= ->]. by rewrite orb_true_r.
  - destruct (digit a) as [d|] eqn:E; [|done]. apply digit_bound in E. intros H. rewrite orb_false_r.
    assert (Hge : acc * 10 + d <= v) by (apply (digits_value_ge _ s); [lia|done]). destruct (Z.leb_spec (acc * 10 + d) max) as [Hle|Hgt].
    + rewrite (IH (acc * 10 + d)) by (done || lia). destruct s; [|by rewrite orb_false_r]. injection H as <-. by rewrite (proj2 (Z.leb_le _ _) Hle).
    + by rewrite (proj2 (Z.leb_gt v max)) by lia.
Qed.

Lemma parse_range_num_spec s :
  parse_range_num s = match range_number s with Some v => if v <=? u64_max then Val v else Overflow | None => Invalid end.
Proof.
  unfold parse_range_num, range_number. destruct (trim s) as [|c t] eqn:Et; [done|]. cbn [str_is_empty orb].
  destruct (str_forall is_digit_char (String c t)) eqn:Ed; cbn [negb].
  - assert (Hp : parse_u64 (String c t) = parse_digits u64_max 0 (String c t)).
    { unfold parse_u64, parse_unsigned. destruct (Ascii.eqb_spec c "+"%char) as [->|]; [discriminate Ed|done]. }
    rewrite Hp. apply (digits_value_none 0) in Ed as [v Hv]. rewrite Hv, (parse_digits_value _ _ _ v) by done. cbn [str_is_empty].
    rewrite orb_false_r. by destruct (v <=? u64_max).
  - destruct (digits_value 0 (String c t)) as [v|] eqn:Hv; [|done]. rewrite (proj2 (digits_value_none 0 _)) in Ed by eauto. done.
Qed.

Lemma range_number_nonneg s n : range_number s = Some n -> 0 <= n.
Proof. unfold range_number. case_match; [done|]. by apply digits_value_ge. Qed.

Lemma split_once_inv c s a b : split_once (String c EmptyString) s = Some (a, b) ->
  s = a +:+ String c b /\ contains_char c a = false.
Proof.
  revert a. induction s as [|x s IH]; intros a; cbn; [done|]. destruct (Ascii.eqb_spec c x) as [->|Hne].
  - destruct s; cbn; by intros [= <- <-].
  - destruct (split_once _ s) as [[l r]|]; [|done]. intros [= <- <-]. destruct (IH l eq_refl) as [-> Hl]. split; [done|].
    unfold contains_char. cbn. by rewrite (proj2 (Ascii.eqb_neq c x) Hne).
Qed.

(** The parser reads exactly the ranges a header asks for. *)
Lemma parsed_range_asked h total first last : 0 <= total <= u64_max ->
  parse_single_range h total = Some (Slice first last) -> asks_for total (trim h) first last.
Proof.
  intros Ht.
  unfold parse_single_range, saturating_sub. destruct (strip_prefix "bytes=" (trim h)) as [spec|] eqn:Es; [|done].
  apply strip_prefix_Some in Es as ->. cbn [mbind option_bind]. destruct (contains_char "," spec) eqn:Ec; [done|].
  destruct (Z.eqb_spec total 0) as [|H0]; [done|]. destruct (split_once "-" spec) as [[a b]|] eqn:Esp; [|done].
  apply split_once_inv in Esp as [-> Ha]. rewrite !parse_range_num_spec.
  destruct a as [|ca a].
  + destruct (range_number b) as [n|] eqn:En; [|done]. pose proof (range_number_nonneg _ _ En).
    assert (Hl : 0 < n -> asks_for total ("bytes=-" +:+ b) (Z.max 0 (total - n)) (total - 1)).
    { intros. apply Asks_last; [done|done|done|lia]. }
    destruct (Z.leb_spec n u64_max) as [Hle|Hgt].
    * destruct (Z.eqb_spec n 0); [done|]. intros [= <- <-]. replace (Z.max 0 (total - 1)) with (total - 1) by lia. apply Hl. lia.
    * intros [= <- <-]. specialize (Hl ltac:(lia)). replace (Z.max 0 (total - n)) with 0 in Hl by lia.
      by replace (Z.max 0 (total - 1)) with (total - 1) by lia.
  + destruct b as [|cb b].
    * destruct (range_number (String ca a)) as [n|] eqn:En; [|done]. destruct (Z.leb_spec n u64_max); [|done].
      destruct (Z.leb_spec total n); [done|]. intros [= <- <-]. replace (Z.max 0 (total - 1)) with (total - 1) by lia.
      apply Asks_from; [done| |done|done]. unfold contains_char in *. rewrite str_exists_app in Ec. by apply orb_false_iff in Ec as [-> _].
    * destruct (range_number (String ca a)) as [n|] eqn:En; [|done]. destruct (Z.leb_spec n u64_max); [|done].
      destruct (range_number (String cb b)) as [m|] eqn:Em; [|done].
      pose proof (Asks_between total (String ca a) (String cb b) n m Ha Ec En Em) as Hbet.
      destruct (Z.leb_spec m u64_max), (Z.leb_spec total n); cbn [orb]; try done;
        (match goal with |- context [?e <? n] => destruct (Z.ltb_spec e n); [done|] end);
        (match goal with |- context [total <=? ?e] => destruct (Z.leb_spec total e) end); intros [= <- <-]; try lia;
        (eassert (Z.min m (total - 1) = _) as Hmin by (reflexivity || lia)); specialize (Hbet ltac:(lia) ltac:(lia));
        (match goal with |- asks_for _ _ _ ?l => replace l with (Z.min m (total - 1)) by lia end); exact Hbet.
Qed.

Lemma asked_range_parsed h total first last : 0 <= total <= u64_max ->
  asks_for total (trim h) first last -> parse_single_range h total = Some (Slice first last).
Proof.
  intros Ht.
  remember (trim h) as t eqn:Et. intros Hask. unfold parse_single_range, saturating_sub. rewrite <- Et. clear Et.
  destruct Hask as [a b n m Ha Hc En Em Hnm Hn|a n Ha Hc En Hn|b n Hc En Hn H0].
  + rewrite (proj2 (strip_prefix_Some _ _ _) eq_refl). cbn [mbind option_bind]. rewrite Hc.
    pose proof (range_number_nonneg _ _ En). replace (total =? 0) with false by lia.
    change (a +:+ "-" +:+ b) with (a +:+ String "-" b). rewrite split_once_char by done.
    destruct a as [|ca a]; [done|]. destruct b as [|cb b]; [done|]. rewrite !parse_range_num_spec, En, Em.
    replace (n <=? u64_max) with true by lia. destruct (Z.leb_spec m u64_max).
    * replace (total <=? n) with false by lia. replace (m <? n) with false by lia. cbn [orb]. destruct (Z.leb_spec total m); do 2 f_equal; lia.
    * replace (total <=? n) with false by lia. replace (Z.max 0 (total - 1) <? n) with false by lia. cbn [orb].
      replace (total <=? Z.max 0 (total - 1)) with false by lia. do 2 f_equal; lia.
  + rewrite (proj2 (strip_prefix_Some _ _ _) eq_refl). cbn [mbind option_bind].
    replace (contains_char "," (a +:+ "-")) with false by (unfold contains_char in *; by rewrite str_exists_app, Hc).
    pose proof (range_number_nonneg _ _ En). replace (total =? 0) with false by lia. rewrite split_once_char by done.
    destruct a as [|ca a]; [done|]. rewrite parse_range_num_spec, En. replace (n <=? u64_max) with true by lia.
    replace (total <=? n) with false by lia. do 2 f_equal; lia.
  + change ("bytes=-" +:+ b) with ("bytes=" +:+ (String "-" b)). rewrite (proj2 (strip_prefix_Some _ _ _) eq_refl). cbn [mbind option_bind].
    replace (contains_char "," (String "-" b)) with false by (unfold contains_char in *; cbn; by rewrite Hc).
    replace (total =? 0) with false by lia. change (String "-" b) with (EmptyString +:+ String "-" b). rewrite split_once_char by done.
    rewrite parse_range_num_spec, En. destruct (Z.leb_spec n u64_max); [replace (n =? 0) with false by lia|]; do 2 f_equal; lia.
Qed.

(** The parts of a header [bytes=a-b] as sent. *)
Lemma range_header_split a b :
  str_forall (fun c => negb (ws_byte c)) (a +:+ b) = true -> str_exists (Ascii.eqb "-"%char) a = false ->
  strip_prefix "bytes=" (trim ("bytes=" +:+ a +:+ "-" +:+ b)) = Some (a +:+ "-" +:+ b) /\
  split_once "-" (a +:+ "-" +:+ b) = Some (a, b).
Proof.
  intros Hws Hd. rewrite str_forall_app in Hws. apply andb_prop in Hws as [Hwa Hwb].
  split; [|by apply split_once_char]. rewrite trim_id; [by apply strip_prefix_Some|].
  by rewrite !str_forall_app, Hwa, Hwb.
Qed.

Lemma pretty_plain n : 0 <= n ->
  str_forall (fun c => negb (ws_byte c)) (pretty n) = true /\
  str_exists (Ascii.eqb "-"%char) (pretty n) = false /\ contains_char ","%char (pretty n) = false.
Proof.
  intros Hn. split_and!; [apply pretty_forall|apply pretty_exists|apply pretty_exists]; try done;
    intros a Ha; destruct (digit_char_facts a Ha) as (E1 & E2 & E3); by rewrite ?E1.
Qed.

(** ** Theorems: ranges *)

(** Every range a client can ask for in a body of [total] bytes is understood:
    a first and last byte within the body, an open end, and a suffix length are
    each resolved to exactly those bytes. *)
Theorem range_header_roundtrip (first last total : Z) :
  0 <= first <= last -> last < total <= u64_max ->
  parse_single_range ("bytes=" +:+ pretty first +:+ "-" +:+ pretty last) total = Some (Slice first last) /\
  parse_single_range ("bytes=" +:+ pretty first +:+ "-") total = Some (Slice first (total - 1)) /\
  parse_single_range ("bytes=-" +:+ pretty (total - first)) total = Some (Slice first (total - 1)).
Proof.
  intros Hf Hl. pose proof (pretty_ne first ltac:(lia)) as Nf. pose proof (pretty_ne last ltac:(lia)) as Nl.
  destruct (pretty_plain first ltac:(lia)) as (Wf & Df & Cf).
  destruct (pretty_plain last ltac:(lia)) as (Wl & _ & Cl).
  destruct (pretty_plain (total - first) ltac:(lia)) as (Wt & _ & Ct).
  unfold parse_single_range, saturating_sub.
  replace (total =? 0) with false by lia.
  split_and!.
  - destruct (range_header_split (pretty first) (pretty last)) as [-> Hs]; [by rewrite str_forall_app, Wf|done|].
    cbn [mbind option_bind]. unfold contains_char in *. rewrite !str_exists_app, Cf, Cl. cbn [orb str_exists Ascii.eqb Bool.eqb].
    rewrite Hs, !parse_range_num_pretty by lia.
    destruct (pretty first); [done|]. destruct (pretty last); [done|].
    replace (total <=? first) with false by lia. replace (last <? first) with false by lia.
    by replace (total <=? last) with false by lia.
  - destruct (range_header_split (pretty first) EmptyString) as [E Hs]; [by rewrite str_app_nil_r|done|].
    change ("-" +:+ EmptyString) with "-" in *. rewrite E.
    cbn [mbind option_bind]. unfold contains_char in *. rewrite !str_exists_app, Cf. cbn [orb str_exists Ascii.eqb Bool.eqb].
    rewrite Hs, parse_range_num_pretty by lia. destruct (pretty first); [done|].
    replace (total <=? first) with false by lia. do 2 f_equal. lia.
  - destruct (range_header_split EmptyString (pretty (total - first))) as [E Hs]; [done|done|].
    change ("bytes=" +:+ EmptyString +:+ "-" +:+ pretty (total - first))
      with ("bytes=-" +:+ pretty (total - first)) in E. rewrite E.
    cbn [mbind option_bind]. unfold contains_char in *. rewrite !str_exists_app, Ct. cbn [orb str_exists Ascii.eqb Bool.eqb].
    rewrite Hs, parse_range_num_pretty by lia.
    replace (total - first =? 0) with false by lia. do 2 f_equal; lia.
Qed.

Lemma range_header_roundtrip_witness :
  parse_single_range ("bytes=" +:+ pretty 3 +:+ "-" +:+ pretty 7) 10 = Some (Slice 3 7) /\
  parse_single_range ("bytes=" +:+ pretty 3 +:+ "-") 10 = Some (Slice 3 9) /\
  parse_single_range ("bytes=-" +:+ pretty 7) 10 = Some (Slice 3 9).
Proof. apply (range_header_roundtrip 3 7 10); unfold u64_max; lia. Defined.

(** ** Lemmas: responses *)

Lemma get_slice_range b first last : 0 <= first <= last -> last < str_len b ->
  get_slice b first (last + 1) = str_slice (Z.to_nat first) (Z.to_nat (last + 1)) b /\
  str_len (get_slice b first (last + 1)) = last - first + 1.
Proof.
  intros Hf Hl. unfold get_slice.
  replace (first <=? last + 1) with true by lia. replace (last + 1 <=? str_len b) with true by lia.
  split; [done|]. cbn [andb]. rewrite str_len_length, str_slice_length.
  rewrite str_len_length in Hl. lia.
Qed.

Section RawLemmas.
Context {Za : ZimApi} {Hl : HttpLib}.

Lemma insert_etag_keeps resp etag h : fst h <> "etag" -> h ∈ headers resp -> h ∈ headers (insert_etag resp etag).
Proof.
  intros Hn Hh. destruct etag as [tag|]; cbn; [|done]. destruct (header_value_ok tag); cbn; [|done].
  apply elem_of_app. left. apply list_elem_of_In, filter_In. split; [by apply list_elem_of_In|].
  apply negb_true_iff. by apply String.eqb_neq.
Qed.

(** The response of a served body: its status, headers and body are kept by
    the headers added after. *)
Lemma served_response st hs b sec etag resp :
  resp = insert_etag (append_sec_headers (into_response st hs b) sec) etag -> status resp <> 500 ->
  status resp = st /\ body resp = b /\ (forall h, fst h <> "etag" -> h ∈ hs -> h ∈ headers resp) /\
  (forall h, fst h <> "etag" -> h ∈ sec -> header_value_ok (snd h) = true -> h ∈ headers resp).
Proof.
  intros -> Hs.
  assert (Hk : forall r, status (insert_etag (append_sec_headers r sec) etag) = status r /\
    body (insert_etag (append_sec_headers r sec) etag) = body r)
    by (intros r; destruct etag as [tag|]; cbn; [by destruct (header_value_ok tag)|done]).
  rewrite (proj1 (Hk _)) in *. rewrite (proj2 (Hk _)).
  assert (E : into_response st hs b = mkResp st hs b).
  { unfold into_response in *. destruct (forallb _ hs); [done|]. exfalso. apply Hs, invalid_parts_status. }
  rewrite E. split_and!; [done|done| |].
  - intros h Hn Hh. apply insert_etag_keeps; [done|]. cbn. apply elem_of_app. by left.
  - intros h Hn Hh Hv. apply insert_etag_keeps; [done|]. cbn. apply elem_of_app. right.
    apply list_elem_of_In, filter_In. split; [by apply list_elem_of_In|done].
Qed.

(** The entry of a path: the article of that path, else the user content, with
    redirects followed. *)
Definition entry_at (archive : Archive) (path : string) (e : DirEntry) : Prop :=
  exists found, resolve archive found = Ok e /\
    (get_by_path archive Articles path = Ok (Some found) \/
     get_by_path archive Articles path = Ok None /\ get_by_path archive UserContent path = Ok (Some found)).

Lemma find_entry_at archive path found e : find_entry archive path = Ok (Some found) -> resolve archive found = Ok e ->
  entry_at archive path e.
Proof.
  unfold find_entry, zim_err. intros Hf Hr. exists found. split; [done|].
  destruct (get_by_path archive Articles path) as [[x|]|]; [left|right|done]; cbn in Hf; [congruence|].
  split; [done|]. destruct (get_by_path archive UserContent path); congruence.
Qed.

Lemma read_raw_inv archive path rh stat inm etag ct total range bytes :
  read_raw_entry_blocking archive path rh stat inm = Ok (Read etag ct total range bytes) ->
  exists e, entry_at archive path e /\ total = str_len (entry_bytes archive e) /\ ct = content_type_for (mime_type e) /\
    range = (rh ≫= fun s => parse_single_range s total) /\
    (total <= MAX_RAW_BYTES ->
     bytes = match range with
             | Some (Slice a b) => get_slice (entry_bytes archive e) a (b + 1)
             | Some Unsatisfiable => EmptyString
             | None => entry_bytes archive e
             end).
Proof.
  unfold read_raw_entry_blocking. set (etag' := stat ≫= etag_from_metadata).
  set (k := rbind (find_entry archive path) _). intros H.
  assert (Hk : k = Ok (Read etag ct total range bytes)).
  { destruct inm as [i|]; [|done]. destruct etag' as [tag|]; [|done].
    destruct (if_none_match_matches i tag); [discriminate|done]. }
  clear H. subst k. apply rbind_ok in Hk as ([found|] & Hfound & Er); [|discriminate]. cbn [ok_or_not_found rbind] in Er.
  apply rbind_ok in Er as (e & Hres & Er). assert (Hat : entry_at archive path e).
  { apply (find_entry_at archive path found); [done|]. unfold zim_err in Hres. destruct (resolve archive found); congruence. }
  apply rbind_ok in Er as ([c|] & Ec & Er); [|discriminate].
  cbn [ok_or_not_found rbind] in Er. unfold zim_err in Ec.
  destruct (entry_content archive e) as [c'|] eqn:Ec'; [|discriminate]. injection Ec as ->.
  destruct (entry_content_ok archive e c Ec') as (Hlen & Hw & Hv).
  apply rbind_ok in Er as (n & En & Er). unfold zim_err in En. destruct (c_len c) as [n'|]; [|discriminate].
  injection En as ->. specialize (Hlen _ eq_refl) as Hn. apply rbind_ok in Er as (b & Eb & Er).
  injection Er as _ <- <- Hr ->. exists e. split_and!; [done|done|done|done|].
  intros Hmax. rewrite <- Hr. replace (MAX_RAW_BYTES <? n) with false in Eb by lia.
  destruct (rh ≫= _) as [[s e'|]|] eqn:Ep.
  - destruct rh as [h|]; [|done]. cbn in Ep. apply parse_single_range_bounds in Ep as [Hp Hp'].
    2:{ rewrite Hn, str_len_length. lia. }
    cbn [slice_range_bytes default] in Eb. rewrite !Z.min_l in Eb by lia.
    apply rbind_ok in Eb as (b0 & Ex & [= <-]). unfold zim_err in Ex.
    destruct (c_with c) as [y|]; [|discriminate]. injection Ex as ->. by rewrite (Hw _ eq_refl).
  - by injection Eb as ->.
  - unfold zim_err in Eb. destruct (c_to_vec c) as [y|]; [|discriminate]. injection Eb as ->.
    by rewrite (Hv _ eq_refl).
Qed.

(** Where a 200 or a 206 comes from. *)
Lemma raw_content_served known opened zim_name path rh inm stat resp :
  raw_content known opened zim_name path rh inm stat = Ok resp -> status resp = 206 \/ status resp = 200 ->
  exists a e ct total range bytes, opened = Ok a /\ entry_at a path e /\
    total = str_len (entry_bytes a e) /\ total <= MAX_RAW_BYTES /\ ct = content_type_for (mime_type e) /\
    body resp = bytes /\
    ("content-type", ct) ∈ headers resp /\ ("x-content-type-options", "nosniff") ∈ headers resp /\
    (header_value_ok RAW_CONTENT_CSP = true -> ("content-security-policy", RAW_CONTENT_CSP) ∈ headers resp) /\
    match range with
    | Some (first, last) =>
        status resp = 206 /\ 0 <= first <= last /\ last < total /\
        (exists h, rh = Some h /\ asks_for total (trim h) first last) /\
        bytes = get_slice (entry_bytes a e) first (last + 1) /\
        ("content-range", "bytes " +:+ pretty first +:+ "-" +:+ pretty last +:+ "/" +:+ pretty total) ∈ headers resp /\
        ("content-length", pretty (str_len bytes)) ∈ headers resp
    | None =>
        status resp = 200 /\ bytes = entry_bytes a e /\
        (forall h first last, rh = Some h -> ~ asks_for total (trim h) first last) /\ ("content-length", pretty total) ∈ headers resp
    end.
Proof.
  unfold raw_content. destruct known; cbn [negb]; [|discriminate].
  intros (a & -> & (rd & Hrd & H)%rbind_ok)%rbind_ok Hst.
  assert (Hinto : forall st hs b, into_response st hs b = resp -> st <> 206 -> st <> 200 -> False).
  { intros st hs b <- ? ?. unfold into_response in Hst.
    destruct (forallb _ hs); cbn in Hst; [lia|]. rewrite invalid_parts_status in Hst. lia. }
  destruct rd as [tag|etag ct total range bytes].
  { injection H as H. exfalso. by eapply Hinto; [exact H|..]. }
  apply read_raw_inv in Hrd as (e & Hat & Htot & Hct & Hr & Hb).
  destruct (Z.ltb_spec MAX_RAW_BYTES total) as [|Hmax]; [discriminate|]. specialize (Hb Hmax).
  assert (Htb : 0 <= total <= u64_max) by (unfold MAX_RAW_BYTES, u64_max in *; rewrite Htot, str_len_length in *; lia).
  destruct range as [[first last|]|]; injection H as H; [|exfalso; by eapply Hinto; [exact H|..]|].
  - destruct rh as [h|]; [|done]. cbn in Hr. symmetry in Hr.
    pose proof (parse_single_range_bounds _ _ _ _ (proj1 Htb) Hr) as [Hfl Hlt]. apply parsed_range_asked in Hr; [|done].
    destruct (served_response _ _ _ _ _ _ (eq_sym H) ltac:(lia)) as (Hs & Hbody & Hh & Hsec).
    exists a, e, ct, total, (Some (first, last)), bytes.
    split_and!; try done; try lia; try (apply Hh; [discriminate|set_solver]); [|by eauto].
    intros Hv. apply Hsec; [discriminate|set_solver|done].
  - destruct (served_response _ _ _ _ _ _ (eq_sym H) ltac:(lia)) as (Hs & Hbody & Hh & Hsec).
    exists a, e, ct, total, None, bytes.
    split_and!; try done; try (apply Hh; [discriminate|set_solver]).
    + intros Hv. apply Hsec; [discriminate|set_solver|done].
    + intros h first last -> Hask. apply asked_range_parsed in Hask; [|done]. cbn [mbind option_bind] in Hr. congruence.
Qed.

End RawLemmas.

(** The Content-Type an entry is served with. *)
Lemma split_first_stop f a c b : f c = true ->
  split_first f (a +:+ String c b) = split_first f a.
Proof.
  intros Hc. unfold split_first. rewrite split_on_app by done.
  destruct (split_on_ne f a) as (w & ws & ->). done.
Qed.

Lemma content_type_for_not_script mt :
  is_script_executing_mime (essence (to_ascii_lowercase (content_type_for mt))) = false.
Proof.
  destruct mt as [s| |]; [|reflexivity|reflexivity]. cbn [content_type_for].
  destruct (is_script_executing_mime (essence (to_ascii_lowercase s))) eqn:E; [reflexivity|].
  destruct (_ && _); [|done]. rewrite to_ascii_lowercase_app. unfold essence in *.
  change (to_ascii_lowercase "; charset=utf-8") with (String ";" " charset=utf-8").
  by rewrite split_first_stop.
Qed.

(** ** Theorems: responses *)

(** C19: a response carries exactly the bytes asked for.  The entry is that of
    the requested path: the article of that path, else the user content, with
    redirects followed.  A 206 answers a Range header that names one range
    within it, and its body is the bytes [first..=last] that header asks for,
    with the matching Content-Range and Content-Length; a 200 carries the whole
    entry, and is sent only when there is no Range header or it names no single
    range within the entry; and neither is over 64 MiB. *)
Theorem served_bytes_exact `{Za : ZimApi, Hl : HttpLib} (known : bool) (opened : Result Archive)
    (zim_name path : string) (range_header if_none_match : option string) (stat : option Metadata)
    (resp : HttpResponse) :
  raw_content known opened zim_name path range_header if_none_match stat = Ok resp ->
  status resp = 206 \/ status resp = 200 ->
  exists a e, opened = Ok a /\ entry_at a path e /\
    let total := str_len (entry_bytes a e) in
    total <= MAX_RAW_BYTES /\
    (status resp = 206 -> exists header first last, range_header = Some header /\
       asks_for total (trim header) first last /\ 0 <= first <= last /\ last < total /\
       body resp = str_slice (Z.to_nat first) (Z.to_nat (last + 1)) (entry_bytes a e) /\
       ("content-range", "bytes " +:+ pretty first +:+ "-" +:+ pretty last +:+ "/" +:+ pretty total) ∈ headers resp /\
       ("content-length", pretty (last - first + 1)) ∈ headers resp) /\
    (status resp = 200 -> body resp = entry_bytes a e /\ ("content-length", pretty total) ∈ headers resp /\
       forall header first last, range_header = Some header -> ~ asks_for total (trim header) first last).
Proof.
  intros H Hst. apply raw_content_served in H as (a & e & ct & total & range & bytes & -> & Hat & -> & Hmax & _ &
    Hbody & _ & _ & _ & Hr); [|done].
  exists a, e. split; [done|]. split; [done|]. cbn zeta. split; [done|]. destruct range as [[first last]|].
  - destruct Hr as (Hs & Hfl & Hlt & (h & Hh & Hask) & Hb & Hcr & Hcl).
    destruct (get_slice_range _ _ _ Hfl Hlt) as [Hsl Hlen]. rewrite <- Hb in Hsl, Hlen. rewrite Hlen in Hcl.
    split; [intros _|lia]. exists h, first, last. rewrite Hbody. done.
  - destruct Hr as (Hs & Hb & Hno & Hcl). split; [lia|intros _]. by rewrite Hbody.
Qed.

(** Printable ASCII is a header value, for the witnesses. *)
Definition ascii_headers : HttpLib := {|
  header_value_ok s := str_forall (fun a => (32 <=? byte a) && (byte a <? 127)) s;
  invalid_parts := mkResp 500 [] EmptyString;
  invalid_parts_status := eq_refl
|}.

Definition one_page : list (string * (string * string * string)) :=
  [("A/x", ("X", "text/html", "0123456789"))].

Lemma served_bytes_exact_witness :
  exists resp, @raw_content list_zim ascii_headers true (Ok one_page) "en" "A/x" (Some "bytes=2-5") None None = Ok resp /\
    status resp = 206 /\ body resp = "2345" /\
    exists a e, (Ok one_page : Result (@Archive list_zim)) = Ok a /\ @entry_at list_zim a "A/x" e /\
      str_len (@entry_bytes list_zim a e) <= MAX_RAW_BYTES.
Proof.
  eexists. split; [vm_compute; reflexivity|]. split; [reflexivity|]. split; [reflexivity|].
  edestruct (@served_bytes_exact list_zim ascii_headers true (Ok one_page) "en" "A/x" (Some "bytes=2-5") None None)
    as (a & e & Ha & Hat & He & _); [vm_compute; reflexivity|left; reflexivity|].
  by exists a, e.
Defined.

(** No response of the raw-content handler offers a script: whatever MIME type,
    case, spacing or parameters the archive records for an entry, the
    Content-Type sent is not one that runs as a script when navigated to, and
    it comes with the sandboxing policy and with content sniffing off. *)
Theorem no_script_served `{Za : ZimApi, Hl : HttpLib} (known : bool) (opened : Result Archive)
    (zim_name path : string) (range_header if_none_match : option string) (stat : option Metadata)
    (resp : HttpResponse) :
  header_value_ok RAW_CONTENT_CSP = true ->
  raw_content known opened zim_name path range_header if_none_match stat = Ok resp ->
  status resp = 206 \/ status resp = 200 ->
  (exists ct, ("content-type", ct) ∈ headers resp /\
     is_script_executing_mime (essence (to_ascii_lowercase ct)) = false) /\
  ("content-security-policy", RAW_CONTENT_CSP) ∈ headers resp /\
  ("x-content-type-options", "nosniff") ∈ headers resp.
Proof.
  intros Hcsp H Hst. apply raw_content_served in H as (a & e & ct & total & range & bytes & _ & _ & _ & _ & -> &
    _ & Hct & Hx & Hc & _); [|done].
  split_and!; [|by apply Hc|done]. eexists. split; [exact Hct|]. apply content_type_for_not_script.
Qed.

Lemma no_script_served_witness :
  exists resp, @raw_content list_zim ascii_headers true
      (Ok [("-/app.js", ("app", "Text/JavaScript; charset=utf-8", "alert(1)"))]) "en" "-/app.js" None None None = Ok resp /\
    status resp = 200 /\ ("content-type", "text/plain; charset=utf-8") ∈ headers resp /\
    ("content-security-policy", RAW_CONTENT_CSP) ∈ headers resp.
Proof.
  eexists. split; [vm_compute; reflexivity|]. split; [reflexivity|]. split; [vm_compute; by left|].
  eapply (@no_script_served list_zim ascii_headers true
      (Ok [("-/app.js", ("app", "Text/JavaScript; charset=utf-8", "alert(1)"))]) "en" "-/app.js" None None None);
    [reflexivity|vm_compute; reflexivity|right; reflexivity].
Defined.

(** ** Lemmas: validators *)

(** What the validator tells apart: the modification time, in milliseconds
    modulo 2^64 (zero when there is none), and the size. *)
Definition version (md : Metadata) : Z * Z :=
  (match modified md with Some ms => ms mod 2 ^ 64 | None => 0 end, md_len md).

Definition tag_of (v : Z * Z) : string := quoted (pretty (fst v) +:+ "-" +:+ pretty (snd v)).

Lemma etag_is_tag md : etag_from_metadata md = Some (tag_of (version md)).
Proof. done. Qed.

Lemma version_nonneg md : 0 <= md_len md -> 0 <= fst (version md) /\ 0 <= snd (version md).
Proof.
  intros Hl. split; [|done]. cbn. destruct (modified md); [|lia].
  pose proof (Z.mod_pos_bound z (2 ^ 64) ltac:(lia)). lia.
Qed.

Lemma pretty_inj a b : 0 <= a -> 0 <= b -> pretty a = pretty b -> a = b.
Proof.
  intros Ha Hb E. pose proof (parse_unsigned_pretty (Z.max a b) a ltac:(lia)) as H1.
  pose proof (parse_unsigned_pretty (Z.max a b) b ltac:(lia)) as H2. rewrite E in H1. congruence.
Qed.

Lemma str_app_inj_r (a b c : string) : a +:+ c = b +:+ c -> a = b.
Proof.
  intros E. apply bytes_of_inj. apply (f_equal bytes_of) in E. rewrite !bytes_of_app in E.
  by apply app_inv_tail in E.
Qed.

Lemma tag_of_inj v w : 0 <= fst v -> 0 <= snd v -> 0 <= fst w -> 0 <= snd w ->
  tag_of v = tag_of w -> v = w.
Proof.
  intros V1 V2 W1 W2 E. unfold tag_of, quoted in E. injection E as E. apply str_app_inj_r in E.
  pose proof (split_once_char "-"%char (pretty (fst v)) (pretty (snd v))) as Sv.
  pose proof (split_once_char "-"%char (pretty (fst w)) (pretty (snd w))) as Sw.
  destruct (pretty_plain (fst v) V1) as (_ & Dv & _), (pretty_plain (fst w) W1) as (_ & Dw & _).
  specialize (Sv Dv). specialize (Sw Dw). cbn in E. rewrite E in Sv. rewrite Sw in Sv.
  injection Sv as E1 E2. apply pretty_inj in E1, E2; try done. by destruct v, w; cbn in *; subst.
Qed.

Lemma tag_of_plain v : 0 <= fst v -> 0 <= snd v ->
  trim (tag_of v) = tag_of v /\ split_on (Ascii.eqb ","%char) (tag_of v) = [tag_of v].
Proof.
  intros V1 V2. destruct (pretty_plain _ V1) as (W1 & _ & C1), (pretty_plain _ V2) as (W2 & _ & C2).
  unfold tag_of, quoted. split.
  - apply trim_id. cbn [str_forall]. rewrite !str_forall_app, W1, W2. done.
  - apply split_on_none. cbn [str_exists]. unfold contains_char in *. rewrite !str_exists_app, C1, C2. done.
Qed.

Lemma if_none_match_tag v w : 0 <= fst v -> 0 <= snd v -> 0 <= fst w -> 0 <= snd w ->
  if_none_match_matches (tag_of v) (tag_of w) = true <-> v = w.
Proof.
  intros V1 V2 W1 W2. unfold if_none_match_matches. destruct (tag_of_plain v V1 V2) as [-> ->].
  cbn [existsb]. destruct (tag_of_plain v V1 V2) as [-> _]. rewrite orb_false_r.
  change (String.eqb (tag_of v) "*") with false. cbn [orb]. rewrite String.eqb_eq.
  split; [by apply tag_of_inj|by intros ->].
Qed.

(** Revalidation is exact: a request that carries the validator of some version
    of the file is answered 304 precisely when the file on disk still has that
    version's modification time and size, and then without touching the
    archive. *)
Theorem revalidation_exact `{Za : ZimApi} (archive : Archive) (path : string) (range_header : option string)
    (seen now : Metadata) :
  0 <= md_len seen -> 0 <= md_len now ->
  (version seen = version now ->
   read_raw_entry_blocking archive path range_header (Some now) (etag_from_metadata seen) =
     Ok (NotModified (tag_of (version now)))) /\
  (forall tag, read_raw_entry_blocking archive path range_header (Some now) (etag_from_metadata seen) =
     Ok (NotModified tag) -> version seen = version now).
Proof.
  intros [S1 S2]%version_nonneg [N1 N2]%version_nonneg. unfold read_raw_entry_blocking.
  cbn [mbind option_bind]. rewrite !etag_is_tag.
  pose proof (if_none_match_tag (version seen) (version now) S1 S2 N1 N2) as Hm.
  destruct (if_none_match_matches _ _); split.
  - done.
  - intros tag _. by apply Hm.
  - intros E. apply Hm in E. discriminate.
  - intros tag H. exfalso. do 6 (apply rbind_ok in H as (? & _ & H)).
    apply rbind_ok in H as (? & _ & H). discriminate.
Qed.

Lemma revalidation_exact_witness :
  @read_raw_entry_blocking list_zim [] "A/x" None (Some (mkMetadata (Some 1700000000000) 42))
    (etag_from_metadata (mkMetadata (Some 1700000000000) 42)) =
  Ok (NotModified (tag_of (1700000000000, 42))).
Proof.
  exact (proj1 (@revalidation_exact list_zim [] "A/x" None (mkMetadata (Some 1700000000000) 42)
    (mkMetadata (Some 1700000000000) 42) ltac:(cbn; lia) ltac:(cbn; lia)) eq_refl).
Defined.

(** The frame-options header compares the type as recorded, so a page recorded
    as [TEXT/HTML] is served as such without it. *)
Theorem upper_case_html_lacks_frame_options :
  content_type_for (MType "TEXT/HTML") = "TEXT/HTML; charset=utf-8" /\
  raw_content_security_headers "TEXT/HTML; charset=utf-8" = [("content-security-policy", RAW_CONTENT_CSP)] /\
  raw_content_security_headers "text/html; charset=utf-8" =
    [("content-security-policy", RAW_CONTENT_CSP); ("x-frame-options", "DENY")].
Proof. vm_compute. done. Qed.

(** A range outside the body is answered without the policy. *)
Theorem unsatisfiable_lacks_policy :
  @raw_content list_zim ascii_headers true (Ok one_page) "en" "A/x" (Some "bytes=10-") None None =
    Ok (mkResp 416 [("content-range", "bytes */10")] EmptyString).
Proof. vm_compute. done. Qed.
