(* ===== verification/StableSort.v ===== *)
(** * StableSort: stable sorting and first-wins deduplication

    [slice::sort_by] and [sort_by_key] are stable: on a total preorder their
    result is determined, and is the insertion sort here.  [dedup_first] is
    the [HashSet::insert] idiom, [dedup_upto] the same with an early stop. *)

From S2P Require Import Prelude.

Section SortBy.
Context {A : Type} (leb : A -> A -> bool).

Fixpoint insert_by (x : A) (l : list A) : list A :=
  match l with
  | [] => [x]
  | y :: l' => if leb x y then x :: l else y :: insert_by x l'
  end.

Definition sort_by (l : list A) : list A := foldr insert_by [] l.

Lemma insert_by_perm x l : insert_by x l ≡ₚ x :: l.
Proof.
  induction l as [|y l IH]; cbn; [done|]. destruct (leb x y); [done|].
  rewrite IH. apply Permutation_swap.
Qed.

Lemma sort_by_perm l : sort_by l ≡ₚ l.
Proof. induction l as [|x l IH]; cbn; [done|]. by rewrite insert_by_perm, IH. Qed.

Lemma elem_of_sort_by x l : x ∈ sort_by l <-> x ∈ l.
Proof. by rewrite sort_by_perm. Qed.

(** Sorted, where the comparison is total and transitive on the elements. *)
Lemma insert_by_sorted (P : A -> Prop) x l :
  (forall a b, P a -> P b -> leb a b = true \/ leb b a = true) ->
  (forall a b c, P a -> P b -> P c -> leb a b = true -> leb b c = true -> leb a c = true) ->
  P x -> Forall P l -> StronglySorted (fun a b => leb a b = true) l ->
  StronglySorted (fun a b => leb a b = true) (insert_by x l).
Proof.
  intros Htot Htr Hx. induction l as [|y l IH]; intros Hl Hs; cbn; [by repeat constructor|].
  apply Forall_cons in Hl as [Hy Hl]. apply StronglySorted_inv in Hs as [Hs Hys].
  destruct (leb x y) eqn:E.
  - constructor; [by constructor|]. constructor; [done|]. rewrite Forall_forall in Hys, Hl |- *.
    intros z Hz. eapply (Htr x y z); eauto.
  - constructor; [by apply IH|]. rewrite Forall_forall in Hys |- *. intros z Hz.
    rewrite insert_by_perm in Hz. apply elem_of_cons in Hz as [->|Hz]; [|by apply Hys].
    by destruct (Htot x y Hx Hy); [congruence|].
Qed.

Lemma sort_by_sorted (P : A -> Prop) l :
  (forall a b, P a -> P b -> leb a b = true \/ leb b a = true) ->
  (forall a b c, P a -> P b -> P c -> leb a b = true -> leb b c = true -> leb a c = true) ->
  Forall P l -> StronglySorted (fun a b => leb a b = true) (sort_by l).
Proof.
  intros Htot Htr. induction l as [|x l IH]; intros Hl; cbn; [constructor|].
  apply Forall_cons in Hl as [Hx Hl]. eapply insert_by_sorted; eauto.
  by rewrite sort_by_perm.
Qed.

(** Stable: elements that tie keep their order. *)
Lemma sort_by_stable (P : A -> Prop) `{forall x, Decision (P x)} l :
  (forall a b, P a -> P b -> leb a b = true) -> filter P (sort_by l) = filter P l.
Proof.
  intros Htie.
  assert (Hins : forall x l, filter P (insert_by x l) = filter P (x :: l)).
  { intros x l'. induction l' as [|y l' IH]; cbn [insert_by]; [done|]. destruct (leb x y) eqn:E; [done|].
    rewrite filter_cons, IH, !filter_cons. repeat case_decide; try done. by rewrite Htie in E. }
  induction l as [|x l IH]; [done|]. change (sort_by (x :: l)) with (insert_by x (sort_by l)).
  by rewrite Hins, !filter_cons, IH.
Qed.

(** A list already in order is left alone. *)
Lemma sort_by_id l : StronglySorted (fun a b => leb a b = true) l -> sort_by l = l.
Proof.
  induction 1 as [|x l _ IH Hx]; [done|]. change (sort_by (x :: l)) with (insert_by x (sort_by l)).
  rewrite IH. destruct l as [|y l]; cbn; [done|].
  apply Forall_cons in Hx as [-> _]. done.
Qed.

End SortBy.

Section Dedup.
Context {A : Type} (key : A -> Z).

(** [l.retain(|x| seen.insert(key(x)))]: what is kept and the keys seen. *)
Fixpoint dedup_first (seen : gset Z) (l : list A) : list A * gset Z :=
  match l with
  | [] => ([], seen)
  | x :: l' =>
      if decide (key x ∈ seen) then dedup_first seen l'
      else let '(r, s) := dedup_first ({[key x]} ∪ seen) l' in (x :: r, s)
  end.

(** The same, stopping once [n] are kept. *)
Fixpoint dedup_upto (n : nat) (seen : gset Z) (l : list A) : list A :=
  match n, l with
  | O, _ | _, [] => []
  | S n', x :: l' =>
      if decide (key x ∈ seen) then dedup_upto n seen l'
      else x :: dedup_upto n' ({[key x]} ∪ seen) l'
  end.

Lemma dedup_upto_take n seen l : dedup_upto n seen l = take n (fst (dedup_first seen l)).
Proof.
  revert n seen. induction l as [|x l IH]; intros [|n] seen; cbn; try done.
  destruct (decide (key x ∈ seen)); [by rewrite IH|].
  destruct (dedup_first _ l) as [r s] eqn:E; cbn. by rewrite IH, E.
Qed.

Lemma dedup_first_spec seen l : let '(r, s) := dedup_first seen l in
  r `sublist_of` l /\ NoDup (key <$> r) /\ (forall x, x ∈ r -> key x ∉ seen) /\
  (forall k, k ∈ s <-> k ∈ seen \/ k ∈ key <$> r) /\
  (forall x, x ∈ l -> key x ∈ seen \/ key x ∈ key <$> r).
Proof.
  revert seen. induction l as [|x l IH]; intros seen; cbn.
  { split_and!; [constructor|constructor|set_solver..]. }
  destruct (decide (key x ∈ seen)) as [Hx|Hx].
  - specialize (IH seen). destruct (dedup_first seen l) as [r s].
    destruct IH as (H1 & H2 & H3 & H4 & H5). split_and!; try done; [by apply sublist_cons|].
    intros y [->|Hy]%elem_of_cons; auto.
  - specialize (IH ({[key x]} ∪ seen)). destruct (dedup_first _ l) as [r s].
    destruct IH as (H1 & H2 & H3 & H4 & H5). split_and!.
    + by apply sublist_skip.
    + cbn. constructor; [|done]. intros (y & Hy & Hin)%list_elem_of_fmap. apply H3 in Hin. set_solver.
    + intros y [->|Hy%H3]%elem_of_cons; set_solver.
    + intros k. rewrite H4. cbn. set_solver.
    + cbn. intros y [->|Hy%H5]%elem_of_cons; set_solver.
Qed.

(** Of the elements with a key, the first is kept: in a sorted list, a least. *)
Lemma dedup_first_least (R : A -> A -> Prop) seen l x :
  StronglySorted R l -> (forall a, R a a) -> x ∈ l -> key x ∉ seen ->
  exists y, y ∈ fst (dedup_first seen l) /\ key y = key x /\ R y x.
Proof.
  intros Hs Hr. revert seen. induction Hs as [|z l Hs IH Hz]; intros seen Hx Hn; [by apply elem_of_nil in Hx|].
  cbn. rewrite Forall_forall in Hz. destruct (decide (key z ∈ seen)) as [Hzs|Hzs].
  - apply elem_of_cons in Hx as [->|Hx]; [done|]. by apply IH.
  - destruct (dedup_first ({[key z]} ∪ seen) l) as [r s] eqn:E. cbn.
    destruct (decide (key x = key z)) as [Hk|Hk].
    + exists z. split; [by left|]. split; [done|]. apply elem_of_cons in Hx as [->|Hx]; [apply Hr|by apply Hz].
    + apply elem_of_cons in Hx as [->|Hx]; [done|].
      destruct (IH ({[key z]} ∪ seen) Hx) as (y & Hy & ?); [set_solver|].
      rewrite E in Hy. exists y. split; [by right|done].
Qed.

End Dedup.

Lemma sublist_sorted {A} (R : A -> A -> Prop) (l k : list A) :
  l `sublist_of` k -> StronglySorted R k -> StronglySorted R l.
Proof.
  induction 1 as [|x l k H IH|x l k H IH]; intros Hs; [constructor| |].
  - apply StronglySorted_inv in Hs as [Hs Hx]. constructor; [by apply IH|].
    rewrite Forall_forall in Hx |- *. intros y Hy. apply Hx. by eapply elem_of_sublist.
  - apply StronglySorted_inv in Hs as [Hs _]. by apply IH.
Qed.
