(* ===== verification/Health.v ===== *)
(** * Health: memoised probes and the degradation tracker

    [src/health.rs].  A probe is an outcome handed in with the times at which
    the cache is read and written; the tracker is the map of consecutive
    failures by branch. *)

From S2P Require Import Prelude RustStr.

(** ** Probes *)

Abbreviation probe_slot := (option (bool * Z)).

Record ProbeState := mkProbeState { qbit : probe_slot; db : probe_slot }.

(** Milliseconds. *)
Definition PROBE_TTL : Z := 2000.

(** [now.checked_duration_since(t)] is [None] for a [t] in the future. *)
Definition checked_duration_since (now t : Z) : option Z := if t <=? now then Some (now - t) else None.

Definition fresh (slot : probe_slot) (now : Z) : option bool :=
  match slot with
  | Some (v, t) =>
      match checked_duration_since now t with
      | Some age => if age <? PROBE_TTL then Some v else None
      | None => None
      end
  | None => None
  end.

(** [client]: [None] when no client is configured, else whether [version] answered. *)
Definition probe_qbit (g : ProbeState) (now : Z) (client : option bool) (done : Z) : bool * ProbeState :=
  match fresh (qbit g) now with
  | Some v => (v, g)
  | None => let ok := default false client in (ok, mkProbeState (Some (ok, done)) (db g))
  end.

(** [checkout]: [None] when no connection could be had, else whether [SELECT 1] ran. *)
Definition probe_db (g : ProbeState) (now : Z) (checkout : option bool) (done : Z) : bool * ProbeState :=
  match fresh (db g) now with
  | Some v => (v, g)
  | None => let ok := default false checkout in (ok, mkProbeState (qbit g) (Some (ok, done)))
  end.

(** ** The tracker *)

Abbreviation DegradationTracker := (gmap string (Z * Z)).

(** [entry.0 += 1] on a [u32], in a release build. *)
Definition record_failure (g : DegradationTracker) (branch : string) (now : Z) : DegradationTracker :=
  let count := match g !! branch with Some (c, _) => c | None => 0 end in
  <[branch := ((count + 1) mod 2 ^ 32, now)]> g.

Definition record_success (g : DegradationTracker) (branch : string) : DegradationTracker :=
  match g !! branch with Some (_, t) => <[branch := (0, t)]> g | None => g end.

Definition degraded_snapshot {Hi : HashIter string (Z * Z)} (g : DegradationTracker) : list (string * Z) :=
  omap (fun e => let '(name, (count, _)) := e in if 3 <=? count then Some (name, count) else None)
    (hash_iter g).

(** ** Lemmas *)

Definition failures (g : DegradationTracker) (branch : string) : Z :=
  match g !! branch with Some (c, _) => c | None => 0 end.

Lemma failures_failure g b b' now :
  failures (record_failure g b now) b' = if decide (b = b') then (failures g b + 1) mod 2 ^ 32 else failures g b'.
Proof.
  unfold failures, record_failure. cbn zeta. destruct (decide (b = b')) as [->|Hn].
  - by rewrite lookup_insert_eq.
  - by rewrite lookup_insert_ne.
Qed.

Lemma failures_success g b b' :
  failures (record_success g b) b' = if decide (b = b') then 0 else failures g b'.
Proof.
  unfold failures, record_success. destruct (decide (b = b')) as [->|Hn].
  - destruct (g !! b') as [[c t]|] eqn:E; [by rewrite lookup_insert_eq|by rewrite E].
  - destruct (g !! b) as [[c t]|]; [by rewrite lookup_insert_ne|done].
Qed.

(** What one report on a branch does; reports on different branches commute. *)
Inductive report := Failure (now : Z) | Success.

Definition apply_report (g : DegradationTracker) (r : string * report) : DegradationTracker :=
  match snd r with Failure now => record_failure g (fst r) now | Success => record_success g (fst r) end.

Lemma apply_report_comm g b1 r1 b2 r2 : b1 <> b2 ->
  apply_report (apply_report g (b1, r1)) (b2, r2) = apply_report (apply_report g (b2, r2)) (b1, r1).
Proof.
  intros Hn. unfold apply_report. cbn [fst snd].
  destruct r1 as [n1|], r2 as [n2|]; unfold record_failure, record_success;
    repeat (case_match; simplify_map_eq); try done; try by apply insert_insert_ne.
Qed.

Lemma apply_reports_perm l1 l2 g : NoDup (l1.*1) -> l1 ≡ₚ l2 ->
  foldl apply_report g l1 = foldl apply_report g l2.
Proof.
  intros Hnd Hp. revert g Hnd. induction Hp as [|[b r] l l' Hp IH|[b1 r1] [b2 r2] l|l l' l'' H1 IH1 H2 IH2];
    intros g Hnd; cbn; [done|by apply IH; inversion Hnd| |].
  - rewrite apply_report_comm; [done|]. cbn in Hnd. apply NoDup_cons in Hnd as [Hn _]. set_solver.
  - rewrite IH1 by done. apply IH2. by rewrite <- H1.
Qed.

(** A run of reports on a branch leaves the number of failures since its last
    success. *)
Definition trailing_failures (rs : list report) : nat :=
  foldl (fun n r => match r with Failure _ => S n | Success => O end) O rs.

Lemma failures_run g b rs : (Z.of_nat (length rs) < 2 ^ 32) -> failures g b = 0 ->
  failures (foldl apply_report g ((fun r => (b, r)) <$> rs)) b = Z.of_nat (trailing_failures rs).
Proof.
  intros Hlen Hg. unfold trailing_failures.
  enough (H : forall n, failures g b = Z.of_nat n -> Z.of_nat n + Z.of_nat (length rs) < 2 ^ 32 ->
    failures (foldl apply_report g ((fun r => (b, r)) <$> rs)) b =
    Z.of_nat (foldl (fun n r => match r with Failure _ => S n | Success => O end) n rs))
    by (apply H; [by rewrite Hg|lia]).
  clear Hlen Hg. revert g. induction rs as [|r rs IH]; intros g n Hn Hlt; cbn; [done|].
  destruct r as [now|]; cbn [length] in Hlt; apply IH; try lia; unfold apply_report; cbn [fst snd].
  - rewrite failures_failure, decide_True by done. rewrite Hn, Z.mod_small by lia. lia.
  - by rewrite failures_success, decide_True.
Qed.

(** ** Theorems *)

(** A branch is reported degraded exactly when it failed at least three times
    in a row: after any run of reports on it, whatever happened on other
    branches before, the snapshot lists it with its count of failures since
    the last success when that count is three or more, and otherwise not. *)
Theorem degraded_iff_three_in_a_row {Hi : HashIter string (Z * Z)} (g : DegradationTracker) (branch : string)
    (rs : list report) :
  g !! branch = None -> Z.of_nat (length rs) < 2 ^ 32 ->
  forall count, (branch, count) ∈ degraded_snapshot (foldl apply_report g ((fun r => (branch, r)) <$> rs)) <->
    count = Z.of_nat (trailing_failures rs) /\ 3 <= count.
Proof.
  intros Hg Hlen count.
  pose proof (failures_run g branch rs Hlen ltac:(unfold failures; by rewrite Hg)) as Hf.
  set (g' := foldl _ g _) in *. unfold degraded_snapshot. rewrite list_elem_of_omap. split.
  - intros ([n [c t]] & Hin & Hs). apply elem_of_hash_iter in Hin. destruct (Z.leb_spec 3 c); [|done].
    injection Hs as -> ->. unfold failures in Hf. rewrite Hin in Hf. lia.
  - intros [-> H3]. unfold failures in Hf. destruct (g' !! branch) as [[c t]|] eqn:E; [|lia].
    exists (branch, (c, t)). split; [by apply elem_of_hash_iter|]. cbn. subst c.
    by destruct (Z.leb_spec 3 (Z.of_nat (trailing_failures rs))); [|lia].
Qed.

Lemma degraded_iff_three_in_a_row_witness :
  ("fts", 3) ∈ @degraded_snapshot (map_order string (Z * Z))
    (foldl apply_report ∅ ((fun r => ("fts", r)) <$> [Failure 1; Success; Failure 2; Failure 3; Failure 4])).
Proof.
  apply (@degraded_iff_three_in_a_row (map_order string (Z * Z)) ∅ "fts"
    [Failure 1; Success; Failure 2; Failure 3; Failure 4] (lookup_empty _)); [cbn; lia|]. split; [reflexivity|lia].
Defined.

(** A probe's answer is never older than the time to live. *)
Lemma probe_db_fresh g now checkout done : now <= done ->
  exists t, db (snd (probe_db g now checkout done)) = Some (fst (probe_db g now checkout done), t) /\
    done - t < PROBE_TTL + (done - now).
Proof.
  intros Hd. unfold probe_db, fresh. destruct (db g) as [[v t]|] eqn:E; cbn.
  - unfold checked_duration_since. destruct (Z.leb_spec t now); cbn.
    + destruct (Z.ltb_spec (now - t) PROBE_TTL); cbn; [exists t; rewrite E; split; [done|lia]|].
      exists done. split; [done|unfold PROBE_TTL; lia].
    + exists done. split; [done|unfold PROBE_TTL; lia].
  - exists done. split; [done|unfold PROBE_TTL; lia].
Qed.
