(* ===== verification/SearchSql.v ===== *)
(** * SearchSql: the search statements

    [src/search/sql.rs]: the text and the bound parameters of the five search
    statements, the fetch limits, and the escaping of a LIKE pattern.  How a
    number prints is the class [ShowF64]; a limit prints as [pretty]. *)

From S2P Require Import Prelude RustStr Floats.

Class ShowF64 := { show_f64 : f64 -> string }.

(** ** Limits *)

Definition SEARCH_HARD_LIMIT : Z := 500.
Definition SEARCH_HARD_OFFSET : Z := 5000.
Definition SEARCH_FETCH_HARD_CAP : Z := SEARCH_HARD_OFFSET + SEARCH_HARD_LIMIT.

(** [z as i32]. *)
Definition as_i32 (z : Z) : Z :=
  let w := z mod 2 ^ 32 in if w <? 2 ^ 31 then w else w - 2 ^ 32.

Definition branch_fetch_limit (limit offset : Z) : Z :=
  as_i32 (Z.min (saturating_add u64_max limit offset) SEARCH_FETCH_HARD_CAP).

Definition vector_fetch_limit (fetch : Z) (filtered : bool) : Z :=
  as_i32 (Z.min (saturating_mul u64_max fetch (if filtered then 4 else 2)) SEARCH_FETCH_HARD_CAP).

(** ** Patterns *)

(** [s.replace(c, r)]. *)
Fixpoint replace_with (c : ascii) (r s : string) : string :=
  match s with
  | EmptyString => EmptyString
  | String a s' => if Ascii.eqb a c then r +:+ replace_with c r s' else String a (replace_with c r s')
  end.

Definition escape_like (s : string) : string :=
  replace_with "_"%char "\_" (replace_with "%"%char "\%" (replace_with "\"%char "\\" s)).

(** ** Statements *)

Record SqlQuery := mkSql { sql : string; params : list string }.

(** The digits after a [$]: the longest run, and what follows it. *)
Fixpoint take_digits (s : string) : string * string :=
  match s with
  | String a s' =>
      if is_digit_char a then let '(d, r) := take_digits s' in (String a d, r) else (EmptyString, s)
  | EmptyString => (EmptyString, EmptyString)
  end.

(** The scan; [None] is fuel exhausted. *)
Fixpoint scan_placeholders (fuel : nat) (max : Z) (s : string) : option Z :=
  match fuel with
  | O => None
  | S fuel' =>
      match s with
      | EmptyString => Some max
      | String a s' =>
          if Ascii.eqb a "$"%char then
            let '(d, r) := take_digits s' in
            let max := if str_is_empty d then max
                       else match parse_u64 d with Some n => Z.max max n | None => max end in
            scan_placeholders fuel' max r
          else scan_placeholders fuel' max s'
      end
  end.

Definition placeholder_count (sq : SqlQuery) : option Z :=
  scan_placeholders (S (String.length (sql sq))) 0 (sql sq).

Definition param_count (sq : SqlQuery) : Z := Z.of_nat (length (params sq)).

(** [sq.params.push(v); sq.sql.push_str(&format!("{before}${n}{after}"))]. *)
Definition push_param (sq : SqlQuery) (before v after : string) : SqlQuery :=
  let ps := params sq ++ [v] in
  mkSql (sql sq +:+ before +:+ "$" +:+ pretty (Z.of_nat (length ps)) +:+ after) ps.

Definition push_filters (sq : SqlQuery) (zim lang : option string) (order_by : string) (limit : Z) : SqlQuery :=
  let sq := match zim with Some z => push_param sq " AND z.name = " z EmptyString | None => sq end in
  let sq := match lang with Some l => push_param sq " AND a.language = " l EmptyString | None => sq end in
  push_param sq (" " +:+ order_by +:+ " LIMIT ") (pretty limit) "::int8".

Definition ORDER_BY_SCORE_DESC : string := "ORDER BY score DESC, a.id".
Definition ORDER_BY_ANN : string := "ORDER BY a.embedding <=> $1::vector".
Definition SELECT_ARTICLE_COLS : string := "a.id, a.zim_id, a.path, a.title".
Definition SELECT_ARTICLE_TAIL : string :=
  ", left(a.content_preview, 600) as content_preview, a.language, z.name as zim_name".
Definition SIMILARITY_SCORE : string := "GREATEST(similarity(a.title_lower, $1), 0.0)".

Section Builders.
Context {Sf : ShowF64}.

Definition score_query (score_expr where_clause : string) (ps : list string) (order_by : string)
    (filters : option string * option string) (limit : Z) (weight : f64) : SqlQuery :=
  let '(zim, lang) := filters in
  let ps := ps ++ [show_f64 weight] in
  let weight_idx := Z.of_nat (length ps) in
  let text := "SELECT " +:+ SELECT_ARTICLE_COLS +:+ ", a.snippet" +:+ SELECT_ARTICLE_TAIL +:+ ", $"
    +:+ pretty weight_idx +:+ "::float8 * " +:+ score_expr
    +:+ " as score FROM articles a JOIN zims z ON z.id = a.zim_id WHERE " +:+ where_clause in
  push_filters (mkSql text ps) zim lang order_by limit.

Definition fts_sql (query : string) (highlight : bool) (zim lang : option string) (limit : Z) (weight : f64) :
    SqlQuery :=
  let snippet_col :=
    if highlight then
      "coalesce(ts_headline('simple', a.content_preview, tsq.q, 'StartSel=<b>', 'StopSel=</b>', 'MaxFragments=1', 'MaxWords=30', 'MinWords=10'), a.snippet)"
    else "a.snippet" in
  let ps := [query; show_f64 weight] in
  let weight_idx := Z.of_nat (length ps) in
  let text := "WITH tsq AS (SELECT websearch_to_tsquery('simple', $1) AS q) "
    +:+ "SELECT " +:+ SELECT_ARTICLE_COLS +:+ ", " +:+ snippet_col +:+ SELECT_ARTICLE_TAIL +:+ ","
    +:+ " $" +:+ pretty weight_idx +:+ "::float8 * ts_rank_cd(a.search_vector, tsq.q) as score"
    +:+ " FROM articles a JOIN zims z ON z.id = a.zim_id CROSS JOIN tsq"
    +:+ " WHERE a.search_vector @@ websearch_to_tsquery('simple', $1)" in
  push_filters (mkSql text ps) zim lang ORDER_BY_SCORE_DESC limit.

Definition LIKE_CLAUSE : string := "a.title_lower LIKE $2 ESCAPE '\'".

Definition trgm_prefix_sql (query_lower : string) (zim lang : option string) (limit : Z) (weight : f64) : SqlQuery :=
  let pattern := escape_like query_lower +:+ "%" in
  score_query SIMILARITY_SCORE LIKE_CLAUSE [query_lower; pattern] ORDER_BY_SCORE_DESC (zim, lang) limit weight.

Definition trgm_contains_sql (query_lower : string) (zim lang : option string) (limit : Z) (weight : f64) :
    SqlQuery :=
  let pattern := "%" +:+ escape_like query_lower +:+ "%" in
  score_query SIMILARITY_SCORE LIKE_CLAUSE [query_lower; pattern] ORDER_BY_SCORE_DESC (zim, lang) limit weight.

Definition trgm_similarity_sql (query_lower : string) (threshold : f64) (zim lang : option string) (limit : Z)
    (weight : f64) : SqlQuery :=
  score_query SIMILARITY_SCORE "a.title_lower % $1 AND similarity(a.title_lower, $1) > $2::float8"
    [query_lower; show_f64 threshold] ORDER_BY_SCORE_DESC (zim, lang) limit weight.

Definition vector_sql (vec_str : string) (zim lang : option string) (limit : Z) (weight : f64) : SqlQuery :=
  let inner := score_query "GREATEST(1.0 - (a.embedding <=> $1::vector), 0.0)" "a.embedding IS NOT NULL"
    [vec_str] ORDER_BY_ANN (zim, lang) limit weight in
  let limit_idx := Z.of_nat (length (params inner)) + 1 in
  mkSql ("SELECT * FROM (" +:+ sql inner +:+ ") s ORDER BY s.score DESC, s.id LIMIT $" +:+ pretty limit_idx +:+ "::int8")
    (params inner ++ [pretty limit]).

(** [query.chars().count() >= 3]. *)
Definition trgm_arms_enabled (query : string) : bool := Nat.leb 3 (char_count query).

Definition build_trgm_arms (run : bool) (query_lower : string) (zim lang : option string) (limit : Z)
    (weight threshold : f64) : option SqlQuery * option SqlQuery * option SqlQuery :=
  if negb run then (None, None, None)
  else
    let arms_ok := trgm_arms_enabled query_lower in
    (Some (trgm_prefix_sql query_lower zim lang limit weight),
     if arms_ok then Some (trgm_contains_sql query_lower zim lang limit weight) else None,
     if arms_ok then Some (trgm_similarity_sql query_lower threshold zim lang limit weight) else None).

End Builders.

(** ** Lemmas: statement texts *)

(** The text of a statement up to the presence of its filters. *)
Definition shape (o : option string) : option string := (fun _ => EmptyString) <$> o.

Lemma push_filters_shape t ps ps' zim lang ob limit limit' : length ps = length ps' ->
  sql (push_filters (mkSql t ps) zim lang ob limit) =
  sql (push_filters (mkSql t ps') (shape zim) (shape lang) ob limit') /\
  length (params (push_filters (mkSql t ps) zim lang ob limit)) =
  length (params (push_filters (mkSql t ps') (shape zim) (shape lang) ob limit')).
Proof.
  intros Hl. destruct zim, lang; cbn [shape fmap option_fmap option_map push_filters push_param sql params];
    rewrite !length_app, Hl; done.
Qed.

Lemma score_query_shape `{ShowF64} se wc ps ps' ob zim lang limit limit' w w' : length ps = length ps' ->
  sql (score_query se wc ps ob (zim, lang) limit w) =
  sql (score_query se wc ps' ob (shape zim, shape lang) limit' w') /\
  length (params (score_query se wc ps ob (zim, lang) limit w)) =
  length (params (score_query se wc ps' ob (shape zim, shape lang) limit' w')).
Proof.
  intros Hl. unfold score_query. rewrite !length_app, Hl. apply push_filters_shape.
  by rewrite !length_app, Hl.
Qed.

(** A statement's text fits its parameters: placeholders up to the number of
    parameters bound, and no further. *)
Definition placeholders_match (sq : SqlQuery) : Prop := placeholder_count sq = Some (param_count sq).

Lemma placeholders_match_shape sq sq' :
  sql sq = sql sq' /\ length (params sq) = length (params sq') ->
  placeholders_match sq' -> placeholders_match sq.
Proof. intros [Hs Hp]. unfold placeholders_match, placeholder_count, param_count. by rewrite Hs, Hp. Qed.

(** ** Theorems: statement texts *)

(** No search statement carries a caller's text: for any two requests that
    filter on the same things, the five statements are the same text, whatever
    the query, the archive, the language, the limit, the weights and the
    threshold; these are bound as parameters only. *)
Theorem search_text_is_fixed `{ShowF64} (q q' : string) (highlight : bool) (zim zim' lang lang' : option string)
    (limit limit' : Z) (w w' th th' : f64) :
  shape zim = shape zim' -> shape lang = shape lang' ->
  sql (fts_sql q highlight zim lang limit w) = sql (fts_sql q' highlight zim' lang' limit' w') /\
  sql (trgm_prefix_sql q zim lang limit w) = sql (trgm_prefix_sql q' zim' lang' limit' w') /\
  sql (trgm_contains_sql q zim lang limit w) = sql (trgm_contains_sql q' zim' lang' limit' w') /\
  sql (trgm_similarity_sql q th zim lang limit w) = sql (trgm_similarity_sql q' th' zim' lang' limit' w') /\
  sql (vector_sql q zim lang limit w) = sql (vector_sql q' zim' lang' limit' w').
Proof.
  intros Hz Hl.
  assert (Hs : forall se wc ps ps' ob, length ps = length ps' ->
    sql (score_query se wc ps ob (zim, lang) limit w) = sql (score_query se wc ps' ob (zim', lang') limit' w') /\
    length (params (score_query se wc ps ob (zim, lang) limit w)) =
    length (params (score_query se wc ps' ob (zim', lang') limit' w'))).
  { intros se wc ps ps' ob Hlen.
    destruct (score_query_shape se wc ps ps' ob zim lang limit limit' w w' Hlen) as [E1 E2].
    destruct (score_query_shape se wc ps' ps' ob zim' lang' limit' limit' w' w' eq_refl) as [E3 E4].
    rewrite Hz, Hl in *. split; congruence. }
  split_and!; try by apply Hs.
  - unfold fts_sql.
    rewrite (proj1 (push_filters_shape _ [q; show_f64 w] [q; show_f64 w] zim lang _ limit limit eq_refl)).
    rewrite (proj1 (push_filters_shape _ [q'; show_f64 w'] [q; show_f64 w] zim' lang' _ limit' limit eq_refl)).
    by rewrite Hz, Hl.
  - unfold vector_sql. cbn [sql].
    destruct (Hs "GREATEST(1.0 - (a.embedding <=> $1::vector), 0.0)" "a.embedding IS NOT NULL" [q] [q'] ORDER_BY_ANN
      eq_refl) as [-> ->]. done.
Qed.

Definition show_zero : ShowF64 := {| show_f64 _ := "0" |}.

Lemma search_text_is_fixed_witness :
  sql (@fts_sql show_zero "rust" true (Some "en") None 10 f64_one) =
  sql (@fts_sql show_zero "x'; DROP TABLE articles; --" true (Some "' OR 1=1") None 20 f64_zero).
Proof.
  apply (@search_text_is_fixed show_zero "rust" "x'; DROP TABLE articles; --" true (Some "en") (Some "' OR 1=1")
    None None 10 20 f64_one f64_zero f64_one f64_zero); reflexivity.
Defined.

(** Every statement's placeholders are exactly its parameters: the highest
    placeholder in the text is the number of parameters bound, for every
    combination of filters, highlighting and statement. *)
Theorem placeholders_are_bound `{ShowF64} (q : string) (highlight : bool) (zim lang : option string) (limit : Z)
    (w th : f64) :
  placeholders_match (fts_sql q highlight zim lang limit w) /\
  placeholders_match (trgm_prefix_sql q zim lang limit w) /\
  placeholders_match (trgm_contains_sql q zim lang limit w) /\
  placeholders_match (trgm_similarity_sql q th zim lang limit w) /\
  placeholders_match (vector_sql q zim lang limit w).
Proof.
  split_and!.
  - eapply placeholders_match_shape; [unfold fts_sql;
      exact (push_filters_shape _ [q; show_f64 w] [EmptyString; EmptyString] zim lang _ limit 0 eq_refl)|].
    destruct zim, lang, highlight; vm_compute; reflexivity.
  - eapply placeholders_match_shape; [by apply (fun E => score_query_shape _ _ _ [EmptyString; EmptyString] _ zim lang limit 0 w w E)|].
    destruct zim, lang; vm_compute; reflexivity.
  - eapply placeholders_match_shape; [by apply (fun E => score_query_shape _ _ _ [EmptyString; EmptyString] _ zim lang limit 0 w w E)|].
    destruct zim, lang; vm_compute; reflexivity.
  - eapply placeholders_match_shape; [by apply (fun E => score_query_shape _ _ _ [EmptyString; EmptyString] _ zim lang limit 0 w w E)|].
    destruct zim, lang; vm_compute; reflexivity.
  - unfold placeholders_match, placeholder_count, param_count, vector_sql. cbn [sql params].
    destruct (score_query_shape "GREATEST(1.0 - (a.embedding <=> $1::vector), 0.0)" "a.embedding IS NOT NULL"
      [q] [EmptyString] ORDER_BY_ANN zim lang limit 0 w w eq_refl) as [-> Hp].
    rewrite length_app, Hp. destruct zim, lang; vm_compute; reflexivity.
Qed.

(** ** Lemmas: patterns *)

Definition escape_char (a : ascii) : string :=
  if Ascii.eqb a "\"%char then "\\" else if Ascii.eqb a "%"%char then "\%"
  else if Ascii.eqb a "_"%char then "\_" else String a EmptyString.

Lemma replace_with_app c r a b : replace_with c r (a +:+ b) = replace_with c r a +:+ replace_with c r b.
Proof. induction a as [|x a IH]; cbn; [done|]. destruct (Ascii.eqb x c); rewrite IH; [by rewrite str_app_assoc|done]. Qed.

Lemma escape_like_cons a s : escape_like (String a s) = escape_char a +:+ escape_like s.
Proof.
  change (String a s) with (String a EmptyString +:+ s). unfold escape_like. rewrite !replace_with_app.
  f_equal. unfold escape_char. cbn [replace_with].
  destruct (Ascii.eqb_spec a "\"%char) as [->|H1]; [reflexivity|]. cbn [replace_with].
  destruct (Ascii.eqb_spec a "%"%char) as [->|H2]; [reflexivity|]. cbn [replace_with].
  destruct (Ascii.eqb_spec a "_"%char) as [->|H3]; reflexivity.
Qed.

(** SQL's [text LIKE pattern ESCAPE '\']: [%] any text, [_] one character, a
    backslash the next character itself. *)
Inductive like : string -> string -> Prop :=
| like_nil : like EmptyString EmptyString
| like_any p t t' : like p t' -> like (String "%" p) (t +:+ t')
| like_one p c t : char_count c = 1%nat -> like p t -> like (String "_" p) (c +:+ t)
| like_escaped c p t : like p t -> like (String "\" (String c p)) (String c t)
| like_literal c p t : c <> "%"%char -> c <> "_"%char -> c <> "\"%char -> like p t ->
    like (String c p) (String c t).

Lemma like_escape_like q p t : like (escape_like q +:+ p) t <-> exists r, t = q +:+ r /\ like p r.
Proof.
  revert t. induction q as [|a q IH]; intros t.
  - change (escape_like EmptyString) with EmptyString. cbn. split; [eauto|by intros (r & -> & ?)].
  - rewrite escape_like_cons, str_app_assoc. set (rest := escape_like q +:+ p) in *.
    assert (Hstep : like (escape_char a +:+ rest) t <-> exists t', t = String a t' /\ like rest t').
    { unfold escape_char.
      destruct (Ascii.eqb_spec a "\"%char) as [->|H1]; [|destruct (Ascii.eqb_spec a "%"%char) as [->|H2];
        [|destruct (Ascii.eqb_spec a "_"%char) as [->|H3]]]; cbn;
        (split; [intros Hl; inversion Hl; subst; try congruence; eauto|
          intros (t' & -> & Ht); by constructor]). }
    rewrite Hstep. split.
    + intros (t' & -> & (r & -> & Hr)%IH). exists r. done.
    + intros (r & -> & Hr). exists (q +:+ r). split; [done|]. apply IH. eauto.
Qed.

Lemma like_percent t : like "%" t.
Proof. rewrite <- (str_app_nil_r t). apply like_any, like_nil. Qed.

Lemma contains_spec p s : contains p s = true <-> exists a b, s = a +:+ p +:+ b.
Proof.
  induction s as [|c s IH]; cbn [contains]; rewrite orb_true_iff, starts_with_spec.
  - split.
    + intros [(r & E)|]; [by exists EmptyString, r|done].
    + intros ([|] & b & E); [left; eauto|done].
  - rewrite IH. split.
    + intros [(r & ->)|(a & b & ->)]; [by exists EmptyString, r|by exists (String c a), b].
    + intros ([|c' a] & b & E); cbn in E; [left; eauto|right]. injection E as -> ->. eauto.
Qed.

(** A query matches literally: the pattern the prefix statement binds matches
    exactly the titles that start with the query, and the one the contains
    statement binds exactly those that contain it, also when the query has
    LIKE's own metacharacters in it. *)
Theorem like_patterns_are_literal `{ShowF64} (q : string) (zim lang : option string) (limit : Z) (w : f64)
    (title : string) :
  (exists p, params (trgm_prefix_sql q zim lang limit w) !! 1%nat = Some p /\
     (like p title <-> starts_with q title = true)) /\
  (exists p, params (trgm_contains_sql q zim lang limit w) !! 1%nat = Some p /\
     (like p title <-> contains q title = true)).
Proof.
  split.
  - exists (escape_like q +:+ "%"). split; [by destruct zim, lang|].
    rewrite like_escape_like, starts_with_spec. split; [intros (r & -> & _); eauto|].
    intros (r & ->). eauto using like_percent.
  - exists ("%" +:+ escape_like q +:+ "%"). split; [by destruct zim, lang|].
    rewrite contains_spec. split.
    + cbn. intros Hl. inversion Hl as [|p t t' Ht| | |]; subst; [|congruence].
      apply like_escape_like in Ht as (r & -> & _). eauto.
    + intros (a & b & ->). cbn. apply like_any, like_escape_like. eauto using like_percent.
Qed.

(** ** Theorems: limits *)

Lemma as_i32_id z : 0 <= z < 2 ^ 31 -> as_i32 z = z.
Proof. intros Hz. unfold as_i32. rewrite Z.mod_small by lia. by destruct (Z.ltb_spec z (2 ^ 31)); [|lia]. Qed.

(** The fetch limits cover every page and stay bounded: a statement fetches
    at least the rows the page needs whenever limit and offset are within their
    ceilings, at most 5500 in every case, and the vector statement fetches no
    fewer than the others; the conversion to a 32-bit number loses nothing. *)
Theorem fetch_limits_cover_page (limit offset : Z) (filtered : bool) :
  0 <= limit -> 0 <= offset -> limit + offset <= u64_max ->
  let fetch := branch_fetch_limit limit offset in
  0 <= fetch <= SEARCH_FETCH_HARD_CAP /\
  fetch <= vector_fetch_limit fetch filtered <= SEARCH_FETCH_HARD_CAP /\
  (limit <= SEARCH_HARD_LIMIT -> offset <= SEARCH_HARD_OFFSET -> fetch = limit + offset).
Proof.
  intros Hl Ho Hm. cbn zeta. unfold branch_fetch_limit, vector_fetch_limit, saturating_add, saturating_mul.
  unfold SEARCH_FETCH_HARD_CAP, SEARCH_HARD_LIMIT, SEARCH_HARD_OFFSET, u64_max in *.
  rewrite (as_i32_id (Z.min (Z.min _ _) _)) by lia.
  rewrite as_i32_id by (destruct filtered; lia). destruct filtered; lia.
Qed.

Lemma fetch_limits_cover_page_witness :
  branch_fetch_limit 500 5000 = 5500 /\ 0 <= branch_fetch_limit 500 5000 <= SEARCH_FETCH_HARD_CAP.
Proof.
  pose proof (fetch_limits_cover_page 500 5000 true ltac:(lia) ltac:(lia) ltac:(unfold u64_max; lia)) as H.
  split; [reflexivity|apply H].
Defined.
