(* ===== verification/Embed.v ===== *)
(** * Embed: the embedding client

    [src/embed/client.rs] and [src/embed/column.rs], with
    [netguard::build_guarded_client]: the client's configuration and guarded
    construction, one chunk's request, the concurrent chunk fan-out, and the
    reconciliation of the vector column.  What the endpoint answers is an
    input; the decoding of a response body and the printing of a number are
    the classes [EmbedWire] and [ShowF32]. *)

From S2P Require Import Prelude RustStr Errors Floats JsonValue SettingDefs IpAddr NetGuard Auth StableSort.

(** ** Configuration *)

Record EmbedConfig := mkEmbedConfig {
  endpoint : string;
  api_key : string;
  model : string;
  dimension : Z;
  batch_size : Z;
  max_concurrency : Z;
  timeout_secs : Z
}.

Definition from_settings (st : SettingsInner) : option EmbedConfig :=
  get_typed TString KEY_EMBEDDING_ENDPOINT st ≫= fun ep =>
  if str_is_empty ep then None
  else Some (mkEmbedConfig ep
    (default EmptyString (get_typed TString KEY_EMBEDDING_API_KEY st))
    (default EMBED_DEFAULT_MODEL (get_typed TString KEY_EMBEDDING_MODEL st))
    (default EMBED_DEFAULT_DIMENSION (get_typed TU32 KEY_EMBEDDING_DIMENSION st))
    (Z.max (default 64 (get_typed TUsize KEY_EMBEDDING_BATCH_SIZE st)) 1)
    (Z.max (default 4 (get_typed TUsize KEY_EMBEDDING_MAX_CONCURRENCY st)) 1)
    (Z.max (default 60 (get_typed TU64 KEY_EMBEDDING_TIMEOUT_SECS st)) 1)).

(** ** The guarded client *)

(** What the builder is given: the flags its redirect policy re-checks every
    hop with, and the address the first host is pinned to. *)
Record GuardedBuilder := mkBuilder {
  b_allow_private : bool;
  b_allow_loopback : bool;
  b_pin : option Pin
}.

Record EmbedClient := mkClient { http : GuardedBuilder; config : EmbedConfig }.

Section Client.
Context {Ua : UrlApi}.

Definition build_guarded_client (ep : string) (allow_private allow_loopback : bool) (pin : option Pin) :
    Result GuardedBuilder :=
  let? _ := assert_host_not_blocked ep allow_private allow_loopback in
  Ok (mkBuilder allow_private allow_loopback pin).

(** [built]: the HTTP library's answer to [build]. *)
Definition embed_client_new (c : EmbedConfig) (pin : option Pin) (built : result string unit) : Result EmbedClient :=
  let? b := build_guarded_client (endpoint c) false true pin in
  match built with
  | Ok _ => Ok (mkClient b c)
  | Err e => Err (Embedding ("failed to build HTTP client: " +:+ e))
  end.

End Client.

(** ** One chunk *)

Record EmbedData := mkEmbedData { index : Z; embedding : list f32 }.

Class EmbedWire := { parse_response : string -> result string (list EmbedData) }.
Class ShowF32 := { show_f32_7 : f32 -> string }.

Definition MAX_EMBED_RESPONSE_BYTES : Z := 16 * 1024 * 1024.

(** What the endpoint did with the request. *)
Inductive PostOutcome :=
| SendFailed (e : string)
| ErrorStatus (e : string)
| Reply (content_length : option string) (body : result string string).

Fixpoint check_from (len i : Z) (sorted : list EmbedData) : Result unit :=
  match sorted with
  | [] => Ok tt
  | d :: rest =>
      if index d =? i then check_from len (i + 1) rest
      else Err (Embedding ("embedding API returned misaligned indices: position " +:+ pretty i +:+ " has index "
             +:+ pretty (index d) +:+ " (expected exactly 0.." +:+ pretty len +:+ ")"))
  end.

Definition check_embed_indices (sorted : list EmbedData) : Result unit :=
  check_from (Z.of_nat (length sorted)) 0 sorted.

Definition by_index (a b : EmbedData) : bool := index a <=? index b.

Section Chunk.
Context {Ew : EmbedWire}.

Definition read_reply (outcome : PostOutcome) : Result (list EmbedData) :=
  match outcome with
  | SendFailed e | ErrorStatus e => Err (Http e)
  | Reply cl body =>
      let over_cl := match cl ≫= parse_u64 with Some n => MAX_EMBED_RESPONSE_BYTES <? n | None => false end in
      if over_cl then
        Err (Embedding ("embedding endpoint response exceeds the " +:+ pretty MAX_EMBED_RESPONSE_BYTES
               +:+ "-byte body budget (Content-Length)"))
      else
        match body with
        | Err e => Err (Http e)
        | Ok b =>
            if MAX_EMBED_RESPONSE_BYTES <? str_len b then
              Err (Embedding ("embedding endpoint response is " +:+ pretty (str_len b) +:+ " bytes (budget "
                     +:+ pretty MAX_EMBED_RESPONSE_BYTES +:+ ")"))
            else match parse_response b with Ok d => Ok d | Err e => Err (Json e) end
        end
  end.

Definition embed_chunk (outcome : PostOutcome) : Result (list (list f32)) :=
  let? data := read_reply outcome in
  let data := sort_by by_index data in
  let? _ := check_embed_indices data in
  Ok (embedding <$> data).

End Chunk.

(** ** The fan-out *)

(** [l.chunks(n)] for [n > 0]; the fuel is the length. *)
Fixpoint chunks_fuel {A} (fuel n : nat) (l : list A) : list (list A) :=
  match fuel, l with
  | O, _ | _, [] => []
  | S fuel', _ => take n l :: chunks_fuel fuel' n (drop n l)
  end.

Definition chunks_of {A} (n : nat) (l : list A) : list (list A) := chunks_fuel (length l) n l.

(** A chunk task's end: its result, or the panic text of a task that died. *)
Definition chunk_end : Type := result string (Result (list (list f32))).

(** The tasks are joined in some order; each fills its slot, the first failure
    returns.  [ends i] is how chunk [i]'s task ended. *)
Fixpoint join_chunks (order : list nat) (ends : nat -> chunk_end) (slots : list (option (list (list f32)))) :
    Result (list (option (list (list f32)))) :=
  match order with
  | [] => Ok slots
  | i :: order' =>
      match ends i with
      | Err e => Err (Embedding ("embed chunk task panicked: " +:+ e))
      | Ok (Err e) => Err e
      | Ok (Ok v) => join_chunks order' ends (<[i := Some v]> slots)
      end
  end.

(** [s.expect("chunk slot filled")]: [None] is the panic. *)
Definition embed_with (c : EmbedConfig) (texts : list string) (order : list nat) (ends : nat -> chunk_end) :
    option (Result (list (list f32))) :=
  let n_chunks := length (chunks_of (Z.to_nat (batch_size c)) texts) in
  if Nat.eqb n_chunks 0 then Some (Ok [])
  else
    match join_chunks order ends (replicate n_chunks None) with
    | Err e => Some (Err e)
    | Ok slots => (fun vs => Ok (concat vs)) <$> mapM id slots
    end.

(** [client.embed(texts)]: every chunk is sent once, and answered by [post]. *)
Definition embed `{EmbedWire} (c : EmbedConfig) (texts : list string) (post : nat -> list string -> PostOutcome)
    (order : list nat) : option (Result (list (list f32))) :=
  embed_with c texts order
    (fun i => Ok (embed_chunk (post i (default [] (chunks_of (Z.to_nat (batch_size c)) texts !! i))))).

(** [format!("{f:.7}")] joined with commas. *)
Definition format_vector `{ShowF32} (v : list f32) : string :=
  "[" +:+ str_join "," (show_f32_7 <$> v) +:+ "]".

(** ** The vector column *)

(** The column's dimension ([None]: no such column) and how many vectors are stored. *)
Record VectorColumn := mkColumn { col_dim : option Z; stored_vectors : Z }.

(** [typmod.map(|t| t as u32)]. *)
Definition stored_embedding_dimension (fault : option Error) (db : VectorColumn) : Result (option Z) :=
  match fault with Some e => Err e | None => Ok ((fun t => t mod 2 ^ 32) <$> col_dim db) end.

Definition ensure_vector_dimension (probe count alter : option Error) (dim : Z) (db : VectorColumn) :
    Result unit * VectorColumn :=
  match stored_embedding_dimension probe db with
  | Err e => (Err e, db)
  | Ok None => (Err (NotFound "articles.embedding column not found"), db)
  | Ok (Some current) =>
      if current =? dim then (Ok tt, db)
      else
        match count with
        | Some e => (Err e, db)
        | None =>
            if 0 <? stored_vectors db then (Ok tt, db)
            else
              match alter with
              | Some e => (Err e, db)
              | None => (Ok tt, mkColumn (Some dim) (stored_vectors db))
              end
        end
  end.

(** ** Lemmas: alignment *)

Lemma check_from_ok len i l : check_from len i l = Ok tt -> index <$> l = (fun k => i + Z.of_nat k) <$> seq 0 (length l).
Proof.
  revert i. induction l as [|d l IH]; intros i; cbn; [done|]. destruct (Z.eqb_spec (index d) i) as [E|]; [|done].
  intros H%IH. rewrite E, H. f_equal; [lia|]. rewrite <- fmap_S_seq, <- list_fmap_compose.
  apply list_fmap_ext. intros j k _. cbn. lia.
Qed.

Lemma embed_chunk_ok `{EmbedWire} outcome vs : embed_chunk outcome = Ok vs ->
  exists data, read_reply outcome = Ok data /\ length vs = length data /\
    (forall i v, vs !! i = Some v -> mkEmbedData (Z.of_nat i) v ∈ data) /\
    (forall d, d ∈ data -> vs !! Z.to_nat (index d) = Some (embedding d) /\ 0 <= index d < Z.of_nat (length data)).
Proof.
  unfold embed_chunk. intros (data & Hr & (u & Hc & [= <-])%rbind_ok)%rbind_ok. destruct u.
  exists data. split; [done|]. set (s := sort_by by_index data) in *.
  assert (Hp : s ≡ₚ data) by apply sort_by_perm.
  unfold check_embed_indices in Hc. apply check_from_ok in Hc. cbn in Hc.
  assert (Hidx : forall i d, s !! i = Some d -> index d = Z.of_nat i).
  { intros i d Hd. pose proof (f_equal (fun l => l !! i) Hc) as E. rewrite !list_lookup_fmap, Hd in E.
    rewrite lookup_seq_lt in E by (by eapply lookup_lt_Some). cbn in E. injection E as ->. lia. }
  rewrite length_fmap, (Permutation_length Hp). split; [done|]. split.
  - intros i v. rewrite list_lookup_fmap. destruct (s !! i) as [d|] eqn:E; cbn; [|done]. intros [= <-].
    rewrite <- Hp. rewrite <- (Hidx _ _ E). destruct d. by eapply list_elem_of_lookup_2.
  - intros d Hd. rewrite <- Hp in Hd. apply list_elem_of_lookup in Hd as [i Hi].
    rewrite (Hidx _ _ Hi), Nat2Z.id, list_lookup_fmap, Hi. split; [done|].
    apply lookup_lt_Some in Hi. rewrite (Permutation_length Hp) in Hi. lia.
Qed.

(** ** Lemmas: the fan-out *)

Definition end_ok (e : chunk_end) : option (list (list f32)) :=
  match e with Ok (Ok v) => Some v | _ => None end.

Definition end_err (e : chunk_end) : option Error :=
  match e with
  | Err m => Some (Embedding ("embed chunk task panicked: " +:+ m))
  | Ok (Err e) => Some e
  | Ok (Ok _) => None
  end.

(** Joining in any order: a failure of one of the chunks, or every slot joined
    holds its own chunk's vectors. *)
Lemma join_chunks_spec order ends slots :
  (exists i e, i ∈ order /\ end_err (ends i) = Some e /\ join_chunks order ends slots = Err e) \/
  (exists slots', join_chunks order ends slots = Ok slots' /\ length slots' = length slots /\
     (forall i, i ∈ order -> end_err (ends i) = None) /\
     forall i, (i < length slots)%nat ->
       slots' !! i = if decide (i ∈ order) then Some (end_ok (ends i)) else slots !! i).
Proof.
  revert slots. induction order as [|k order IH]; intros slots; cbn.
  { right. exists slots. split_and!; [done..|intros i []%elem_of_nil|]. intros i Hi. by rewrite decide_False by apply not_elem_of_nil. }
  destruct (ends k) as [[v|e]|m] eqn:Ek.
  - destruct (IH (<[k := Some v]> slots)) as [(i & e & Hi & He & Hj)|(slots' & Hj & Hl & He & Hs)].
    + left. exists i, e. split_and!; [by right|done..].
    + right. exists slots'. rewrite length_insert in *.
      split_and!; [done..|intros i [->|Hi]%elem_of_cons; [by rewrite Ek|by apply He]|].
      intros i Hi. rewrite Hs by done.
      destruct (decide (i = k)) as [->|Hn].
      * rewrite (decide_True (P := k ∈ k :: order)) by (by left).
        destruct (decide (k ∈ order)); [done|]. rewrite list_lookup_insert_eq by done. by rewrite Ek.
      * rewrite list_lookup_insert_ne by done. destruct (decide (i ∈ order)) as [Hin|Hin].
        -- by rewrite decide_True by (by right).
        -- by rewrite decide_False by (by intros [?|?]%elem_of_cons).
  - left. exists k, e. by rewrite Ek; split_and!; [left|..].
  - left. eexists k, _. rewrite Ek. by split_and!; [left|..].
Qed.

Lemma mapM_id_lookup {A} (l : list (option A)) (f : nat -> option A) :
  (forall i, (i < length l)%nat -> l !! i = Some (f i)) ->
  (exists vs, mapM id l = Some vs /\ length vs = length l /\
     forall i, (i < length l)%nat -> f i = vs !! i) \/
  (exists i, (i < length l)%nat /\ f i = None).
Proof.
  revert f. induction l as [|o l IH]; intros f Hf; [left; exists []; split_and!; [done..|cbn; lia]|].
  pose proof (Hf 0%nat ltac:(cbn; lia)) as H0. injection H0 as ->.
  destruct (f 0%nat) as [a|] eqn:E0; [|right; exists 0%nat; cbn; split; [lia|done]].
  destruct (IH (fun i => f (S i))) as [(vs & Hm & Hl & Hv)|(i & Hi & Hn)].
  - intros i Hi. apply (Hf (S i)). cbn. lia.
  - left. exists (a :: vs). cbn. rewrite Hm. cbn. split_and!; [done|by rewrite Hl|].
    intros [|i] Hi; [done|]. cbn. apply Hv. lia.
  - right. exists (S i). cbn. split; [lia|done].
Qed.

Lemma embed_with_cases c texts order ends n :
  n = length (chunks_of (Z.to_nat (batch_size c)) texts) -> order ≡ₚ seq 0 n ->
  (exists i e, (i < n)%nat /\ end_err (ends i) = Some e /\ embed_with c texts order ends = Some (Err e)) \/
  (exists vs, embed_with c texts order ends = Some (Ok (concat vs)) /\ length vs = n /\
     forall i, (i < n)%nat -> end_ok (ends i) = vs !! i).
Proof.
  intros Hn Hp. unfold embed_with. rewrite <- Hn.
  assert (Hin : forall i, i ∈ order <-> (i < n)%nat).
  { intros i. rewrite Hp, elem_of_seq. lia. }
  destruct (Nat.eqb_spec n 0) as [->|Hn0]; [right; exists []; split_and!; [done..|lia]|].
  destruct (join_chunks_spec order ends (replicate n None)) as [(i & e & Hi & He & ->)|(slots & -> & Hl & He & Hs)].
  { left. exists i, e. split_and!; [by apply Hin|done..]. }
  rewrite length_replicate in *.
  destruct (mapM_id_lookup slots (fun i => end_ok (ends i))) as [(vs & -> & Hlv & Hv)|(i & Hi & Hnone)].
  - intros i Hi. rewrite Hs by lia. rewrite decide_True; [done|]. apply Hin. lia.
  - right. exists vs. rewrite Hl in *. split_and!; [done|done|]. intros i Hi. by apply Hv.
  - exfalso. rewrite Hl in Hi. apply Hin, He in Hi. by destruct (ends i) as [[]|].
Qed.

Lemma chunks_of_one {A} n (l : list A) : l <> [] -> (length l <= n)%nat -> chunks_of n l = [l].
Proof.
  intros Hne Hl. unfold chunks_of. destruct l as [|x l]; [done|]. cbn [length chunks_fuel].
  rewrite take_ge, drop_ge by done. by destruct (length l).
Qed.

(** ** Theorems *)

(** Embedding a batch does not depend on the order in which its chunk requests
    finish: whatever the order, the answer is the chunks' vectors joined in
    text order when every chunk succeeds, and otherwise the failure of one of
    the failed chunks; no slot is ever found empty. *)
Theorem embed_order_independent (c : EmbedConfig) (texts : list string) (order : list nat)
    (ends : nat -> chunk_end) :
  order ≡ₚ seq 0 (length (chunks_of (Z.to_nat (batch_size c)) texts)) ->
  let n := length (chunks_of (Z.to_nat (batch_size c)) texts) in
  (forall vs, length vs = n -> (forall i, (i < n)%nat -> end_ok (ends i) = vs !! i) ->
     embed_with c texts order ends = Some (Ok (concat vs))) /\
  ((exists i, (i < n)%nat /\ end_ok (ends i) = None) ->
     exists i e, (i < n)%nat /\ end_err (ends i) = Some e /\ embed_with c texts order ends = Some (Err e)).
Proof.
  intros Hp n. destruct (embed_with_cases c texts order ends n eq_refl Hp)
    as [(i & e & Hi & He & Hw)|(vs & Hw & Hl & Hv)].
  - split; [|eauto]. intros vs Hl Hv. specialize (Hv i Hi).
    destruct (lookup_lt_is_Some_2 vs i) as [v Hvi]; [lia|]. rewrite Hvi in Hv. by destruct (ends i) as [[]|].
  - split; [|intros (i & Hi & Hn)].
    + intros vs' Hl' Hv'. rewrite Hw. do 3 f_equal. apply list_eq. intros i. destruct (decide (i < n)%nat).
      * by rewrite <- Hv, <- Hv'.
      * by rewrite !lookup_ge_None_2 by lia.
    + specialize (Hv i Hi). rewrite Hn in Hv. symmetry in Hv. apply lookup_ge_None in Hv. lia.
Qed.

Lemma embed_order_independent_witness :
  let c := mkEmbedConfig "http://localhost" EmptyString "m" 2 1 4 60 in
  let ends i := Ok (Ok [[f64_of_Z (Z.of_nat i)]]) in
  embed_with c ["a"; "b"; "c"] [2%nat; 0%nat; 1%nat] ends =
    Some (Ok [[f64_of_Z 0]; [f64_of_Z 1]; [f64_of_Z 2]]).
Proof.
  cbn zeta. set (ends := fun i => Ok (Ok [[f64_of_Z (Z.of_nat i)]])).
  apply (embed_order_independent (mkEmbedConfig "http://localhost" EmptyString "m" 2 1 4 60) ["a"; "b"; "c"]
    [2%nat; 0%nat; 1%nat] ends) with (vs := [[[f64_of_Z 0]]; [[f64_of_Z 1]]; [[f64_of_Z 2]]]).
  - cbn. solve_Permutation.
  - reflexivity.
  - change (length _) with 3%nat. intros [|[|[|i]]] Hi; try reflexivity. lia.
Defined.

(** One request's vectors line up with its texts: when the texts fit one chunk
    and as many vectors come back as texts were sent, every text gets the
    vector the endpoint labelled with that text's position; a duplicate, a gap
    or a position out of range is refused. *)
Theorem one_chunk_aligned `{EmbedWire} (c : EmbedConfig) (texts : list string)
    (post : nat -> list string -> PostOutcome) (order : list nat) (vs : list (list f32)) :
  texts <> [] -> Z.of_nat (length texts) <= batch_size c -> order ≡ₚ [0%nat] ->
  embed c texts post order = Some (Ok vs) -> length vs = length texts ->
  exists data, read_reply (post 0%nat texts) = Ok data /\
    forall i, (i < length texts)%nat -> exists v, vs !! i = Some v /\ mkEmbedData (Z.of_nat i) v ∈ data /\
      forall d, d ∈ data -> index d = Z.of_nat i -> embedding d = v.
Proof.
  intros Hne Hb Hp He Hlen. unfold embed in He.
  assert (Hc : chunks_of (Z.to_nat (batch_size c)) texts = [texts]) by (apply chunks_of_one; [done|lia]).
  destruct (embed_with_cases c texts order
    (fun i => Ok (embed_chunk (post i (default [] (chunks_of (Z.to_nat (batch_size c)) texts !! i))))) 1)
    as [(i & e & _ & _ & Hw)|(ws & Hw & Hl & Hv)]; [by rewrite Hc|done|congruence|].
  rewrite Hw in He. injection He as <-. destruct ws as [|w [|]]; try done.
  specialize (Hv 0%nat ltac:(lia)). rewrite Hc in Hv. cbn in Hv.
  destruct (embed_chunk (post 0%nat texts)) as [v|] eqn:E; [|done]. injection Hv as ->.
  cbn in *. rewrite app_nil_r in *. apply embed_chunk_ok in E as (data & Hr & Hd & H1 & H2).
  exists data. split; [done|]. intros i Hi. destruct (lookup_lt_is_Some_2 w i) as [v Hvi]; [lia|].
  exists v. split_and!; [done|by apply H1|]. intros d Hin Hid. apply H2 in Hin as [Hin _].
  rewrite Hid, Nat2Z.id in Hin. congruence.
Qed.

(** Wire format for the examples: every reply's entries are given in full. *)
Definition wire_of (table : list (string * list EmbedData)) : EmbedWire := {|
  parse_response b :=
    match List.find (fun e => String.eqb (fst e) b) table with
    | Some e => Ok (snd e)
    | None => Err "no such body"
    end
|}.

Lemma one_chunk_aligned_witness :
  let w := wire_of [("r", [mkEmbedData 1 [f32_one]; mkEmbedData 0 [f32_zero]])] in
  let c := mkEmbedConfig "http://localhost" EmptyString "m" 1 64 4 60 in
  let post (_ : nat) (_ : list string) := Reply None (Ok "r") in
  @embed w c ["a"; "b"] post [0%nat] = Some (Ok [[f32_zero]; [f32_one]]) /\
  exists data, @read_reply w (post 0%nat ["a"; "b"]) = Ok data.
Proof.
  cbn zeta. split; [vm_compute; reflexivity|].
  destruct (@one_chunk_aligned (wire_of [("r", [mkEmbedData 1 [f32_one]; mkEmbedData 0 [f32_zero]])])
    (mkEmbedConfig "http://localhost" EmptyString "m" 1 64 4 60) ["a"; "b"] (fun _ _ => Reply None (Ok "r")) [0%nat]
    [[f32_zero]; [f32_one]]) as (data & Hd & _); [done|cbn; lia|done|vm_compute; reflexivity|done|].
  by exists data.
Defined.

(** Across chunks the counts can cancel out: the first chunk answered with one
    vector too few and the second with one too many give four vectors for four
    texts, and the second text gets the third one's. *)
Theorem chunk_counts_can_cancel :
  let w := wire_of [("few", [mkEmbedData 0 [f32_zero]]);
                    ("many", [mkEmbedData 0 [f32_one]; mkEmbedData 1 [f32_one]; mkEmbedData 2 [f32_one]])] in
  let c := mkEmbedConfig "http://localhost" EmptyString "m" 1 2 4 60 in
  let post (i : nat) (_ : list string) := Reply None (Ok (if Nat.eqb i 0 then "few" else "many")) in
  @embed w c ["a"; "b"; "c"; "d"] post [0%nat; 1%nat] =
    Some (Ok [[f32_zero]; [f32_one]; [f32_one]; [f32_one]]).
Proof. vm_compute. reflexivity. Qed.

(** The vector column is never altered over stored vectors: reconciling changes
    the column only when it holds none, to exactly the configured dimension;
    on every error and on a column that holds vectors nothing changes. *)
Theorem column_altered_only_when_empty (probe count alter : option Error) (dim : Z) (db : VectorColumn) :
  let '(r, db') := ensure_vector_dimension probe count alter dim db in
  stored_vectors db' = stored_vectors db /\
  (db' <> db -> stored_vectors db <= 0 /\ col_dim db' = Some dim /\ r = Ok tt) /\
  (r = Ok tt -> 0 < stored_vectors db \/ exists d, col_dim db' = Some d /\ (d = dim \/ d mod 2 ^ 32 = dim)).
Proof.
  unfold ensure_vector_dimension, stored_embedding_dimension.
  destruct probe as [e|]; cbn; [done|]. destruct (col_dim db) as [d|] eqn:Ed; cbn; [|done].
  destruct (Z.eqb_spec (d mod 2 ^ 32) dim) as [E|E]; [split_and!; try done; intros _; eauto|].
  destruct count as [e|]; [done|]. destruct (Z.ltb_spec 0 (stored_vectors db)); [split_and!; try done; auto|].
  destruct alter as [e|]; cbn; [done|]. split_and!; [done| |eauto]. intros _. split_and!; [lia|done|done].
Qed.
