(* ===== verification/Search.v ===== *)
(** * Search: the search engine

    [src/search/mod.rs], [src/search/query_cache.rs] and
    [src/serve/handlers/search.rs].  The engine's own state is the settings,
    the embedding client and its query cache, the [pg_trgm] probe and the
    degradation tracker; the pool, the arm gate, the statements' rows and the
    embedding call are the request's surroundings, [SearchEnv].  The arms of a
    request run concurrently: each arm's outcome is a function of the
    surroundings, and its report to the tracker an event, of which the engine
    applies the sequence. *)

From S2P Require Import Prelude RustStr Errors Floats JsonValue SettingDefs IpAddr NetGuard Auth Snapshots StableSort Health SearchSql Embed.

(** ** The query cache *)

Definition QUERY_EMBED_CACHE_CAP : Z := 256.

Record QueryEmbedCache := mkQueryCache {
  cap : Z;
  map : gmap string (list f32);
  order : list string
}.

Definition query_cache_new (cap : Z) : QueryEmbedCache := mkQueryCache (Z.max cap 1) ∅ [].

Definition query_cache_get (c : QueryEmbedCache) (key : string) : option (list f32) := map c !! key.

Definition query_cache_insert (c : QueryEmbedCache) (key : string) (vec : list f32) : QueryEmbedCache :=
  match map c !! key with
  | Some _ => mkQueryCache (cap c) (<[key := vec]> (map c)) (order c)
  | None =>
      let m := <[key := vec]> (map c) in
      match order c with
      | evicted :: rest =>
          if cap c <? map_len m then mkQueryCache (cap c) (delete evicted m) (rest ++ [key])
          else mkQueryCache (cap c) m (order c ++ [key])
      | [] => mkQueryCache (cap c) m [key]
      end
  end.

Definition query_cache_len (c : QueryEmbedCache) : Z := map_len (map c).

Definition query_cache_key (model : string) (dimension : Z) (query : string) : string :=
  model +:+ "|" +:+ pretty dimension +:+ "|" +:+ trim query.

(** ** Results *)

Record SearchRow := mkRow {
  row_id : Z;
  row_zim_id : Z;
  row_path : string;
  row_title : string;
  row_snippet : string;
  row_preview : option string;
  row_language : string;
  row_zim_name : string;
  row_score : f64
}.

Record SearchResult := mkResult {
  id : Z;
  zim_id : Z;
  zim_name : string;
  path : string;
  title : string;
  snippet : string;
  content_preview : option string;
  score : f64;
  language : string
}.

Definition row_to_result (r : SearchRow) : SearchResult :=
  mkResult (row_id r) (row_zim_id r) (row_zim_name r) (row_path r) (row_title r) (row_snippet r)
    (row_preview r) (row_score r) (row_language r).

(** [b.score.partial_cmp(&a.score).unwrap_or(Equal)] is not [Greater]. *)
Definition by_score_desc (a b : SearchResult) : bool := f64_geb (score a) (score b).

Definition merge_suggest (prefix others : list SearchResult) (limit : nat) : list SearchResult :=
  let '(p, seen) := dedup_first id ∅ prefix in
  let '(o, _) := dedup_first id seen others in
  take limit (sort_by by_score_desc p ++ sort_by by_score_desc o).

Definition dedup_trgm_by_first (rows : list SearchRow) : list SearchRow := fst (dedup_first row_id ∅ rows).

Definition merge_results (fts trgm vector : list SearchResult) (limit offset : nat) : list SearchResult :=
  let all := sort_by by_score_desc (fts ++ trgm ++ vector) in
  take limit (drop offset (dedup_upto id (limit + offset) ∅ all)).

(** ** The arms *)

Definition SUGGEST_DEFAULT_LIMIT : Z := 10.
Definition SUGGEST_MAX_LIMIT : Z := 20.
Definition ARM_GATE_RESERVE : Z := 2.

Definition arm_gate_capacity (pool_max : Z) : Z := Z.max (saturating_sub pool_max ARM_GATE_RESERVE) 1.

(** How the embedding call of a request ended. *)
Inductive EmbedCall := TimedOut | Answered (r : Result (list (list f32))).

(** The surroundings of a request, by the label of the checkout site;
    [sort_panics] says whether a sort gives up on scores that do not compare. *)
Record SearchEnv := mkSearchEnv {
  permit : string -> bool;
  checkout : string -> result SqlxError unit;
  rows_of : string -> SqlQuery -> result string (list SearchRow);
  probe_row : result string (option unit);
  at_ : string -> Z;
  dns : Dns;
  http_built : result string unit;
  embed_call : EmbedCall;
  others_client : option (string * EmbedClient) -> option (string * EmbedClient);
  others_cache : QueryEmbedCache -> QueryEmbedCache;
  sort_panics : list SearchResult -> bool
}.

(** [slice::sort_by] may panic on a comparison that is not a total order; the
    comparison of scores is one as long as no score is NaN (see
    [score_order_needs_numbers]). *)
Definition sort_panicked (env : SearchEnv) (l : list SearchResult) : bool :=
  existsb (fun r => f64_is_nan (score r)) l && sort_panics env l.

Definition merge_panics (env : SearchEnv) (fts trgm vector : list SearchResult) : bool :=
  sort_panicked env (fts ++ trgm ++ vector).

Definition merge_suggest_panics (env : SearchEnv) (prefix others : list SearchResult) : bool :=
  let '(p, seen) := dedup_first id ∅ prefix in
  let '(o, _) := dedup_first id seen others in
  sort_panicked env p || sort_panicked env o.

(** What an arm reports to the tracker. *)
Abbreviation reports := (list (string * report)).

Definition run_sql_on (env : SearchEnv) (site : string) (sq : SqlQuery) (branch : string) :
    list SearchRow * reports :=
  match rows_of env site sq with
  | Ok rows => (rows, [(branch, Success)])
  | Err _ => ([], [(branch, Failure (at_ env branch))])
  end.

Definition run_text_arm (env : SearchEnv) (sq : SqlQuery) (site branch : string) :
    result SqlxError (list SearchRow) * reports :=
  if negb (permit env site) then (Err (OtherSqlx "arm gate permit wait exceeded 10s"), [])
  else
    match checkout env site with
    | Err e => (Err e, [])
    | Ok _ => let '(rows, r) := run_sql_on env site sq branch in (Ok rows, r)
    end.

(** An arm that is not selected contributes nothing. *)
Definition run_arm (env : SearchEnv) (sq : option SqlQuery) (selected : bool) (site branch : string) :
    result SqlxError (list SearchRow) * reports :=
  match sq with
  | Some sq => if selected then run_text_arm env sq site branch else (Ok [], [])
  | None => (Ok [], [])
  end.

Definition join_text_arms (arms : list (bool * result SqlxError (list SearchRow))) :
    may_panic (result SqlxError (list (list SearchRow))) :=
  let selected_any := existsb fst arms in
  let checked_out_any := existsb (fun a => fst a && is_ok (snd a)) arms in
  let first_err :=
    head (omap (fun a => match a with (true, Err e) => Some e | _ => None end) arms) in
  let rows := (fun a => match a with (true, Ok r) => r | _ => [] end) <$> arms in
  if selected_any && negb checked_out_any then
    match first_err with Some e => Ok (Err e) | None => Err Panicked end
  else Ok (Ok rows).

(** ** The engine *)

Record SearchEngine := mkEngine {
  settings : SettingsInner;
  embed_client : option (string * EmbedClient);
  query_embed_cache : QueryEmbedCache;
  trgm_ready : option (bool * Z);
  degradation : DegradationTracker
}.

Definition search_engine_new (st : SettingsInner) (g : DegradationTracker) : SearchEngine :=
  mkEngine st None (query_cache_new QUERY_EMBED_CACHE_CAP) None g.

(** Milliseconds. *)
Definition TRGM_TTL : Z := 60000.

Definition trgm_ready_fresh (ts now : Z) : bool :=
  match checked_duration_since now ts with Some age => age <? TRGM_TTL | None => false end.

Definition trgm_cached_if_fresh (e : SearchEngine) (now : Z) : option bool :=
  match trgm_ready e with
  | Some (val, ts) => if val || trgm_ready_fresh ts now then Some val else None
  | None => None
  end.

Definition trgm_is_degraded (e : SearchEngine) : bool :=
  match trgm_ready e with Some (false, _) => true | _ => false end.

(** [fetch_optional(..).is_ok()]. *)
Definition trgm_probe (row : result string (option unit)) : bool := is_ok row.

Definition trgm_store (e : SearchEngine) (ok : bool) (now : Z) : bool * SearchEngine :=
  (ok, mkEngine (settings e) (embed_client e) (query_embed_cache e) (Some (ok, now))
     (if ok then degradation e else record_failure (degradation e) "pg_trgm_probe" now)).

Definition ensure_trgm (env : SearchEnv) (e : SearchEngine) : bool * SearchEngine :=
  let now := at_ env "trgm_probe" in
  match trgm_cached_if_fresh e now with
  | Some val => (val, e)
  | None =>
      match checkout env "trgm_probe" with
      | Ok _ => trgm_store e (trgm_probe (probe_row env)) now
      | Err _ => (false, e)
      end
  end.

Definition embed_fingerprint (snap : SearchParamsSnapshot) : string :=
  embed_endpoint snap +:+ "|" +:+ embed_api_key snap +:+ "|" +:+ embed_model snap +:+ "|"
    +:+ pretty (embed_dimension snap) +:+ "|" +:+ pretty (embed_batch_size snap).

Definition vector_from_response `{ShowF32} (vecs : list (list f32)) (now : Z) : option string * reports :=
  match vecs with
  | [] => (None, [("vector_embed", Failure now)])
  | v :: _ => (Some (format_vector v), [("vector_embed", Success)])
  end.

Section Engine.
Context {Ua : UrlApi} {Cf : CaseFold} {Sf : ShowF64} {Sf32 : ShowF32}.

Definition build_client (env : SearchEnv) (e : SearchEngine) : option EmbedClient :=
  from_settings (settings e) ≫= fun c =>
  match resolve_download_host (dns env) (endpoint c) false true with
  | Err _ => None
  | Ok pin => match embed_client_new c pin (http_built env) with Ok client => Some client | Err _ => None end
  end.

(** The client for a fingerprint, and the cache it leaves; others may write the
    cache while the endpoint's name is looked up. *)
Definition embed_client_with (env : SearchEnv) (e : SearchEngine) (fingerprint : string) :
    option EmbedClient * option (string * EmbedClient) :=
  let lookup (cache : option (string * EmbedClient)) :=
    match cache with Some (fp, c) => if String.eqb fp fingerprint then Some c else None | None => None end in
  match lookup (embed_client e) with
  | Some c => (Some c, embed_client e)
  | None =>
      let cache := others_client env (embed_client e) in
      match build_client env e with
      | None => (None, cache)
      | Some client =>
          match cache with
          | None => (Some client, Some (fingerprint, client))
          | Some (fp, c) => if String.eqb fp fingerprint then (Some c, cache) else (Some client, cache)
          end
      end
  end.

(** The embedding of the query: the vector's literal, the caches and the reports. *)
Definition embed_query (env : SearchEnv) (e : SearchEngine) (snap : SearchParamsSnapshot) (query : string)
    (enabled : bool) : option string * SearchEngine * reports :=
  if negb enabled then (None, e, [])
  else
    let '(client, ec) := embed_client_with env e (embed_fingerprint snap) in
    let with_caches qc := mkEngine (settings e) ec qc (trgm_ready e) (degradation e) in
    match client with
    | None => (None, with_caches (query_embed_cache e), [])
    | Some _ =>
        let key := query_cache_key (embed_model snap) (embed_dimension snap) query in
        match query_cache_get (query_embed_cache e) key with
        | Some v => (Some (format_vector v), with_caches (query_embed_cache e), [])
        | None =>
            let qc := others_cache env (query_embed_cache e) in
            match embed_call env with
            | Answered (Ok vecs) =>
                let qc := match vecs with
                          | (x :: v) :: _ => query_cache_insert qc key (x :: v)
                          | _ => qc
                          end in
                let '(lit, r) := vector_from_response vecs (at_ env "vector_embed") in
                (lit, with_caches qc, r)
            | Answered (Err _) | TimedOut =>
                (None, with_caches qc, [("vector_embed", Failure (at_ env "vector_embed"))])
            end
        end
    end.

(** The vector arm: the embedding, then the nearest-neighbour statement. *)
Definition vector_arm_run (env : SearchEnv) (e : SearchEngine) (snap : SearchParamsSnapshot) (query : string)
    (enabled : bool) (zim lang : option string) (ann_limit : Z) (ann_weight : f64) :
    list SearchRow * SearchEngine * reports :=
  let '(lit, e', r) := embed_query env e snap query enabled in
  match lit with
  | None => ([], e', r)
  | Some vec_str =>
      let sq := vector_sql vec_str zim lang ann_limit ann_weight in
      if negb (permit env "search_vector_ann") then ([], e', r)
      else
        match checkout env "search_vector_ann" with
        | Ok _ => let '(rows, r') := run_sql_on env "search_vector_ann" sq "vector_ann" in (rows, e', r ++ r')
        | Err _ => ([], e', r)
        end
  end.

(** ** A search *)

Record SearchParams := mkParams {
  p_zim : option string;
  p_language : option string;
  p_mode : option string;
  p_limit : option Z;
  p_offset : option Z;
  p_highlight : bool
}.

Definition mode_in (mode : option string) (l : list string) : bool :=
  match mode with Some m => existsb (String.eqb m) l | None => false end.

Definition run_fts (mode : option string) : bool :=
  negb (mode_in mode ["trgm"; "fuzzy"; "prefix"; "vector"; "semantic"]).
Definition run_trgm (mode : option string) : bool := negb (mode_in mode ["fts"; "vector"; "semantic"]).
Definition run_vector (enabled : bool) (mode : option string) : bool :=
  enabled && (mode_in mode ["vector"; "semantic"] || negb (mode_in mode ["fts"; "trgm"; "fuzzy"; "prefix"])).

Definition search_limit (snap : SearchParamsSnapshot) (p : SearchParams) : Z :=
  Z.min (Z.min (default (default_limit snap) (p_limit p)) (max_limit snap)) SEARCH_HARD_LIMIT.
Definition search_offset (p : SearchParams) : Z := Z.min (default 0 (p_offset p)) SEARCH_HARD_OFFSET.

Record SearchArms := mkArms {
  fts_sq : option SqlQuery;
  sq_prefix : option SqlQuery;
  sq_contains : option SqlQuery;
  sq_similarity : option SqlQuery;
  vector_enabled : bool;
  ann_limit : Z;
  trgm_ok : bool
}.

Definition build_search_arms (env : SearchEnv) (e : SearchEngine) (query : string) (p : SearchParams)
    (snap : SearchParamsSnapshot) (limit offset : Z) : SearchArms * SearchEngine :=
  let fetch := branch_fetch_limit limit offset in
  let fts := if run_fts (p_mode p)
             then Some (fts_sql query (p_highlight p) (p_zim p) (p_language p) fetch (fts_weight snap)) else None in
  let '(pre, con, sim) :=
    build_trgm_arms (run_trgm (p_mode p)) (to_lowercase query) (p_zim p) (p_language p) fetch
      (trgm_weight snap) (trgm_threshold snap) in
  let filtered := match p_zim p, p_language p with None, None => false | _, _ => true end in
  let '(ok, e') := if run_trgm (p_mode p) then ensure_trgm env e else (false, e) in
  (mkArms fts pre con sim (run_vector (s_embedding_enabled snap) (p_mode p)) (vector_fetch_limit fetch filtered) ok, e').

Definition with_reports (e : SearchEngine) (r : reports) : SearchEngine :=
  mkEngine (settings e) (embed_client e) (query_embed_cache e) (trgm_ready e) (foldl apply_report (degradation e) r).

Definition is_some {A} (o : option A) : bool := match o with Some _ => true | None => false end.

(** The arms of [tokio::join!] share nothing but the tracker and the caches of
    the query's embedding, which only the vector arm uses; each reports under
    branches of its own, and their rows are taken by position, so the request
    is given by the arms one after the other. *)
Definition search (env : SearchEnv) (e : SearchEngine) (query : string) (p : SearchParams) :
    may_panic (Result (list SearchResult)) * SearchEngine :=
  match search_params_snapshot (settings e) with
  | None => (Err Panicked, e)
  | Some snap =>
      let limit := search_limit snap p in
      let offset := search_offset p in
      let '(arms, e) := build_search_arms env e query p snap limit offset in
      let '(fts_r, r1) := run_arm env (fts_sq arms) true "search_fts" "fts" in
      let '(prefix_r, r2) := run_arm env (sq_prefix arms) (trgm_ok arms) "search_trgm_prefix" "trgm_prefix" in
      let '(contains_r, r3) :=
        run_arm env (sq_contains arms) (trgm_ok arms) "search_trgm_contains" "trgm_contains" in
      let '(similarity_r, r4) :=
        run_arm env (sq_similarity arms) (trgm_ok arms) "search_trgm_similarity" "trgm_similarity" in
      let '(vector_rows, e, r5) :=
        vector_arm_run env e snap query (vector_enabled arms) (p_zim p) (p_language p) (ann_limit arms)
          (vector_weight snap) in
      let e := with_reports e (r1 ++ r2 ++ r3 ++ r4 ++ r5) in
      match join_text_arms
              [(is_some (fts_sq arms), fts_r); (is_some (sq_prefix arms) && trgm_ok arms, prefix_r);
               (is_some (sq_contains arms) && trgm_ok arms, contains_r);
               (is_some (sq_similarity arms) && trgm_ok arms, similarity_r)] with
      | Err pn => (Err pn, e)
      | Ok (Err er) => (Ok (Err (Database er)), e)
      | Ok (Ok rows) =>
          let fts_rows := default [] (rows !! 0%nat) in
          let trgm := dedup_trgm_by_first (default [] (rows !! 1%nat) ++ default [] (rows !! 2%nat)
                        ++ default [] (rows !! 3%nat)) in
          let fts_mapped := row_to_result <$> fts_rows in
          let trgm_mapped := row_to_result <$> trgm in
          let vector_mapped := row_to_result <$> vector_rows in
          if merge_panics env fts_mapped trgm_mapped vector_mapped then (Err Panicked, e)
          else (Ok (Ok (merge_results fts_mapped trgm_mapped vector_mapped (Z.to_nat limit) (Z.to_nat offset))), e)
      end
  end.

Definition suggest (env : SearchEnv) (e : SearchEngine) (query : string) (zim_filter : option string)
    (limit : option Z) : may_panic (Result (list SearchResult)) * SearchEngine :=
  let limit := Z.min (default SUGGEST_DEFAULT_LIMIT limit) SUGGEST_MAX_LIMIT in
  let query_lower := to_lowercase query in
  match search_params_snapshot (settings e) with
  | None => (Err Panicked, e)
  | Some snap =>
      let lim := as_i32 limit in
      let arms_ok := trgm_arms_enabled query_lower in
      let sq_prefix := trgm_prefix_sql query_lower zim_filter None lim f64_one in
      let sq_contains := if arms_ok then Some (trgm_contains_sql query_lower zim_filter None lim f64_one) else None in
      let sq_similarity :=
        if arms_ok then Some (trgm_similarity_sql query_lower (trgm_threshold snap) zim_filter None lim f64_one)
        else None in
      let '(trgm_ok, e) := ensure_trgm env e in
      let '(prefix_r, r1) := run_text_arm env sq_prefix "suggest_prefix" "trgm_prefix" in
      let '(contains_r, r2) := run_arm env sq_contains trgm_ok "suggest_contains" "trgm_contains" in
      let '(similarity_r, r3) := run_arm env sq_similarity trgm_ok "suggest_similarity" "trgm_similarity" in
      let e := with_reports e (r1 ++ r2 ++ r3) in
      match join_text_arms [(true, prefix_r); (is_some sq_contains && trgm_ok, contains_r);
                            (is_some sq_similarity && trgm_ok, similarity_r); (false, Ok [])] with
      | Err pn => (Err pn, e)
      | Ok (Err er) => (Ok (Err (Database er)), e)
      | Ok (Ok rows) =>
          let prefix := row_to_result <$> default [] (rows !! 0%nat) in
          let others := row_to_result <$> (default [] (rows !! 1%nat) ++ default [] (rows !! 2%nat)) in
          if merge_suggest_panics env prefix others then (Err Panicked, e)
          else (Ok (Ok (merge_suggest prefix others (Z.to_nat limit))), e)
      end
  end.

End Engine.

(** ** The handlers *)

Definition MAX_QUERY_CHARS : Z := 500.

Definition resolve_query (q query : option string) : Result string :=
  match (match q with Some x => Some x | None => query end) with
  | None => Err (InvalidInput "query parameter 'q' is required")
  | Some query =>
      if MAX_QUERY_CHARS <? Z.of_nat (char_count query) then
        Err (InvalidInput ("query parameter 'q' exceeds " +:+ pretty MAX_QUERY_CHARS +:+ " characters"))
      else Ok query
  end.

Record SearchResponse := mkSearchResponse {
  sr_query : string;
  sr_results : list SearchResult;
  sr_total : nat;
  sr_degraded : list string
}.

Record SuggestResponse := mkSuggestResponse {
  sg_query : string;
  suggestions : list string;
  sg_results : list SearchResult
}.

Section Handlers.
Context {Ua : UrlApi} {Cf : CaseFold} {Sf : ShowF64} {Sf32 : ShowF32} {Hi : HashIter string (Z * Z)}.

Definition search_handler (env : SearchEnv) (e : SearchEngine) (q query : option string) (p : SearchParams) :
    may_panic (Result SearchResponse) * SearchEngine :=
  match resolve_query q query with
  | Err er => (Ok (Err er), e)
  | Ok query =>
      if str_is_empty (trim query) then (Ok (Ok (mkSearchResponse query [] 0 [])), e)
      else
        let '(r, e') := search env e query p in
        (match r with
         | Err pn => Err pn
         | Ok (Err er) => Ok (Err er)
         | Ok (Ok results) =>
             Ok (Ok (mkSearchResponse query results (length results) (fst <$> degraded_snapshot (degradation e'))))
         end, e')
  end.

Definition suggest_handler (env : SearchEnv) (e : SearchEngine) (q query : option string) (zim : option string)
    (limit : option Z) : may_panic (Result SuggestResponse) * SearchEngine :=
  match resolve_query q query with
  | Err er => (Ok (Err er), e)
  | Ok query =>
      if str_is_empty (trim query) then (Ok (Ok (mkSuggestResponse query [] [])), e)
      else
        let '(r, e') := suggest env e query zim limit in
        (match r with
         | Err pn => Err pn
         | Ok (Err er) => Ok (Err er)
         | Ok (Ok results) => Ok (Ok (mkSuggestResponse query (title <$> results) results))
         end, e')
  end.

End Handlers.

(** ** The query cache as a queue

    The promise of the cache: a queue of bindings in insertion order, bounded;
    a new key goes to the back and pushes the front out when the queue is
    full, a known key keeps its place. *)

Definition fifo_insert (cap : Z) (l : list (string * list f32)) (k : string) (v : list f32) :
    list (string * list f32) :=
  if decide (k ∈ l.*1) then (fun e => if String.eqb (fst e) k then (k, v) else e) <$> l
  else if Z.of_nat (length l) <? cap then l ++ [(k, v)] else tail l ++ [(k, v)].

Record fifo_rep (c : QueryEmbedCache) (l : list (string * list f32)) : Prop := {
  rep_order : order c = l.*1;
  rep_map : map c = list_to_map l;
  rep_nodup : NoDup l.*1;
  rep_bound : Z.of_nat (length l) <= cap c;
  rep_cap : 1 <= cap c
}.

Lemma replace_keys (l : list (string * list f32)) k v :
  ((fun e => if String.eqb (fst e) k then (k, v) else e) <$> l).*1 = l.*1.
Proof.
  rewrite <- list_fmap_compose. apply list_fmap_ext. intros i [k' v'] _. cbn.
  by destruct (String.eqb_spec k' k) as [->|].
Qed.

Lemma replace_map (l : list (string * list f32)) k v : k ∈ l.*1 -> NoDup l.*1 ->
  list_to_map (M := gmap string (list f32)) ((fun e => if String.eqb (fst e) k then (k, v) else e) <$> l) =
  <[k := v]> (list_to_map l).
Proof.
  induction l as [|[k' v'] l IH]; intros Hk Hnd; cbn in *; [by apply elem_of_nil in Hk|].
  apply NoDup_cons in Hnd as [Hk' Hnd]. destruct (String.eqb_spec k' k) as [->|Hn].
  - cbn. rewrite insert_insert_eq. f_equal. clear IH. f_equal. rewrite <- (list_fmap_id l) at 2.
    apply list_fmap_ext. intros i [k2 v2] Hi. cbn. destruct (String.eqb_spec k2 k) as [->|]; [|done].
    exfalso. apply Hk'. apply list_elem_of_lookup_2 in Hi. apply list_elem_of_fmap. by exists (k, v2).
  - cbn. rewrite IH; [|by apply elem_of_cons in Hk as [->|]|done]. by apply insert_insert_ne.
Qed.

Lemma fifo_rep_insert c l k v : fifo_rep c l -> fifo_rep (query_cache_insert c k v) (fifo_insert (cap c) l k v).
Proof.
  intros [Ho Hm Hnd Hb Hc]. unfold query_cache_insert, fifo_insert. rewrite Hm, Ho.
  destruct (decide (k ∈ l.*1)) as [Hin|Hin].
  - destruct (list_to_map l !! k) as [x|] eqn:E.
    + split; cbn; [by rewrite replace_keys|by rewrite replace_map|by rewrite replace_keys|by rewrite length_fmap|done].
    + by apply not_elem_of_list_to_map in E.
  - apply not_elem_of_list_to_map_1 in Hin as E. rewrite E.
    assert (Hlen : map_len (<[k := v]> (list_to_map l : gmap string (list f32))) = Z.of_nat (length l) + 1).
    { unfold map_len. rewrite map_size_insert_None by done. rewrite map_size_list_to_map by done. lia. }
    rewrite Hlen. destruct l as [|[k0 v0] l].
    + cbn [length tail app]. replace (if _ <? _ then _ else _) with [(k, v)] by by case_match.
      split; cbn [order map cap]; [done|done|apply NoDup_singleton|cbn; lia|done].
    + cbn [fmap list_fmap fst]. destruct (Z.ltb_spec (cap c) (Z.of_nat (length ((k0, v0) :: l)) + 1)) as [Hfull|Hroom].
      * destruct (Z.ltb_spec (Z.of_nat (length ((k0, v0) :: l))) (cap c)); [lia|]. cbn [tail].
        cbn in Hnd, Hin. apply NoDup_cons in Hnd as [Hk0 Hnd]. apply not_elem_of_cons in Hin as [Hne Hin].
        split; cbn [order map cap]; [by rewrite fmap_app| | |rewrite length_app; cbn in *; lia|done].
        -- rewrite list_to_map_snoc by done. cbn. rewrite insert_insert_ne by done.
           rewrite delete_insert_id; [done|]. rewrite lookup_insert_ne by done. by apply not_elem_of_list_to_map_1.
        -- rewrite fmap_app. apply NoDup_app. split_and!; [done| |apply NoDup_singleton].
           cbn. set_solver.
      * destruct (Z.ltb_spec (Z.of_nat (length ((k0, v0) :: l))) (cap c)); [|lia].
        split; cbn [order map cap].
        -- by rewrite fmap_app.
        -- by rewrite list_to_map_snoc.
        -- rewrite fmap_app. apply NoDup_app. split_and!; [done| |apply NoDup_singleton]. cbn. set_solver.
        -- rewrite length_app. cbn in *. lia.
        -- done.
Qed.

(** The query cache is the bounded queue it promises to be: after any sequence
    of insertions, looking a key up gives the binding the queue holds, the
    cache never holds more than its capacity, and its bookkeeping (the map and
    the order) agrees. *)
Theorem query_cache_is_fifo (cap0 : Z) (ops : list (string * list f32)) :
  let c := foldl (fun c kv => query_cache_insert c (fst kv) (snd kv)) (query_cache_new cap0) ops in
  let q := foldl (fun q kv => fifo_insert (Z.max cap0 1) q (fst kv) (snd kv)) [] ops in
  (forall k, query_cache_get c k = list_to_map (M := gmap string (list f32)) q !! k) /\
  query_cache_len c = Z.of_nat (length q) /\ query_cache_len c <= Z.max cap0 1 /\ order c = q.*1.
Proof.
  cbn zeta.
  assert (H : forall c q, cap c = Z.max cap0 1 -> fifo_rep c q ->
    fifo_rep (foldl (fun c kv => query_cache_insert c (fst kv) (snd kv)) c ops)
      (foldl (fun q kv => fifo_insert (Z.max cap0 1) q (fst kv) (snd kv)) q ops) /\
    cap (foldl (fun c kv => query_cache_insert c (fst kv) (snd kv)) c ops) = Z.max cap0 1).
  { induction ops as [|[k v] ops IH]; intros c q Hc Hr; cbn; [done|]. apply IH.
    - rewrite <- Hc. unfold query_cache_insert. by repeat case_match.
    - rewrite <- Hc. by apply fifo_rep_insert. }
  destruct (H (query_cache_new cap0) []) as [[Ho Hm Hnd Hb _] Hcap]; [done| |].
  { split; cbn; [done|done|constructor|lia|lia]. }
  rewrite Hcap in Hb. unfold query_cache_get, query_cache_len, map_len. rewrite Hm.
  rewrite map_size_list_to_map by done. split_and!; done.
Qed.

(** ** Merging *)

Definition number (r : SearchResult) : Prop := f64_is_nan (score r) = false.

(** The list every page is cut from. *)
Definition merged_pool (fts trgm vector : list SearchResult) : list SearchResult :=
  fst (dedup_first id ∅ (sort_by by_score_desc (fts ++ trgm ++ vector))).

Lemma merge_results_page fts trgm vector limit offset :
  merge_results fts trgm vector limit offset = take limit (drop offset (merged_pool fts trgm vector)).
Proof.
  unfold merge_results, merged_pool. rewrite dedup_upto_take.
  set (l := fst _). rewrite skipn_firstn_comm, firstn_firstn.
  by replace (limit `min` (limit + offset - offset))%nat with limit by lia.
Qed.

Lemma by_score_sorted l : Forall number l ->
  StronglySorted (fun a b => by_score_desc a b = true) (sort_by by_score_desc l).
Proof.
  apply sort_by_sorted; unfold number, by_score_desc; [intros a b; apply f64_geb_total|].
  intros a b c. apply f64_geb_trans.
Qed.

(** A page of merged results is a page of one ranked list, and the ranking is
    right: no article is listed twice, scores never increase, an article that
    several arms found keeps its best score, and every article any arm found is
    in the list.  Stopping the merge as soon as the page is covered changes
    nothing, and consecutive pages continue each other. *)
Theorem merged_page_is_ranked (fts trgm vector : list SearchResult) :
  Forall number (fts ++ trgm ++ vector) ->
  let pool := merged_pool fts trgm vector in
  (forall limit offset, merge_results fts trgm vector limit offset = take limit (drop offset pool)) /\
  (forall limit limit' offset,
     merge_results fts trgm vector limit offset ++ merge_results fts trgm vector limit' (offset + limit) =
     merge_results fts trgm vector (limit + limit') offset) /\
  NoDup (id <$> pool) /\ StronglySorted (fun a b => by_score_desc a b = true) pool /\
  (forall r, r ∈ fts ++ trgm ++ vector -> exists best, best ∈ pool /\ id best = id r /\ by_score_desc best r = true) /\
  (forall r, r ∈ pool -> r ∈ fts ++ trgm ++ vector).
Proof.
  intros Hn. cbn zeta.
  pose proof (dedup_first_spec id ∅ (sort_by by_score_desc (fts ++ trgm ++ vector))) as Hspec.
  pose proof (by_score_sorted _ Hn) as Hs. split_and!.
  - intros. apply merge_results_page.
  - intros limit limit' offset. rewrite !merge_results_page.
    rewrite <- drop_drop. apply take_take_drop.
  - unfold merged_pool. destruct (dedup_first _ _ _). by destruct Hspec as (_ & ? & _).
  - eapply sublist_sorted; [|exact Hs]. unfold merged_pool. destruct (dedup_first _ _ _). apply Hspec.
  - intros r Hr. apply (dedup_first_least id (fun a b => by_score_desc a b = true)); [done| | |set_solver].
    + intros a. apply f64_geb_refl.
    + by apply elem_of_sort_by.
  - intros r Hr. rewrite <- (elem_of_sort_by by_score_desc). eapply elem_of_sublist; [exact Hr|].
    unfold merged_pool. destruct (dedup_first _ _ _). apply Hspec.
Qed.

Definition result_of (i : Z) (t : string) (sc : f64) : SearchResult :=
  mkResult i 1 "en" t t EmptyString None sc "en".

Lemma merged_page_is_ranked_witness :
  let fts := [result_of 1 "a" f64_one; result_of 2 "b" f64_0_01] in
  let vector := [result_of 2 "b" f64_0_999; result_of 3 "c" f64_0_001] in
  id <$> merge_results fts [] vector 10 0 = [1; 2; 3] /\ NoDup (id <$> merged_pool fts [] vector).
Proof.
  cbn zeta. split; [vm_compute; reflexivity|].
  apply (merged_page_is_ranked [result_of 1 "a" f64_one; result_of 2 "b" f64_0_01] []
    [result_of 2 "b" f64_0_999; result_of 3 "c" f64_0_001]). by repeat constructor.
Defined.

(** Suggestions list every prefix match before any other, each group by
    falling score and no article twice; an article both a prefix match and
    another is listed once, as a prefix match; the list is cut at the limit. *)
Theorem suggestions_prefix_first (prefix others : list SearchResult) (limit : nat) :
  Forall number (prefix ++ others) ->
  exists P O, merge_suggest prefix others limit = take limit (P ++ O) /\ NoDup (id <$> P ++ O) /\
    StronglySorted (fun a b => by_score_desc a b = true) P /\
    StronglySorted (fun a b => by_score_desc a b = true) O /\
    (forall r, r ∈ P -> r ∈ prefix) /\ (forall r, r ∈ prefix -> id r ∈ id <$> P) /\
    (forall r, r ∈ O -> r ∈ others /\ id r ∉ id <$> prefix) /\
    (forall r, r ∈ others -> id r ∈ id <$> P ++ O).
Proof.
  intros [Hp Ho]%Forall_app. unfold merge_suggest.
  pose proof (dedup_first_spec id ∅ prefix) as H1. destruct (dedup_first id ∅ prefix) as [p seen].
  pose proof (dedup_first_spec id seen others) as H2. destruct (dedup_first id seen others) as [o seen2].
  destruct H1 as (Sp & Np & _ & Kp & Cp), H2 as (So & No & Do & _ & Co).
  assert (Hsub : forall l k, l `sublist_of` k -> Forall number k -> Forall number l).
  { intros l k Hs Hk. rewrite Forall_forall in Hk |- *. intros x Hx. apply Hk. by eapply elem_of_sublist. }
  exists (sort_by by_score_desc p), (sort_by by_score_desc o).
  assert (Hdis : forall r, r ∈ o -> id r ∉ id <$> p) by (intros r Hr Hin; apply (Do r Hr), Kp; by right).
  split_and!.
  - done.
  - rewrite fmap_app, !sort_by_perm. apply NoDup_app. split_and!; [done| |done].
    intros i Hi (r & -> & Hr)%list_elem_of_fmap. by apply (Hdis r Hr).
  - by eapply by_score_sorted, Hsub.
  - by eapply by_score_sorted, Hsub.
  - intros r Hr%elem_of_sort_by. by eapply elem_of_sublist.
  - intros r [?|Hr]%Cp; [set_solver|]. by rewrite sort_by_perm.
  - intros r Hr%elem_of_sort_by. split; [by eapply elem_of_sublist|].
    intros (r' & E & Hr')%list_elem_of_fmap. apply (Hdis r Hr). rewrite E. destruct (Cp r' Hr'); [set_solver|done].
  - intros r Hr%Co. rewrite fmap_app, !sort_by_perm, elem_of_app.
    destruct Hr as [Hr|Hr]; [|by right]. apply Kp in Hr as [?|?]; [set_solver|by left].
Qed.

Lemma suggestions_prefix_first_witness :
  merge_suggest [result_of 2 "b" f64_0_01] [result_of 1 "a" f64_one; result_of 2 "b" f64_one] 10 =
    [result_of 2 "b" f64_0_01; result_of 1 "a" f64_one] /\
  exists P O, merge_suggest [result_of 2 "b" f64_0_01] [result_of 1 "a" f64_one; result_of 2 "b" f64_one] 10 =
    take 10 (P ++ O).
Proof.
  split; [vm_compute; reflexivity|].
  destruct (suggestions_prefix_first [result_of 2 "b" f64_0_01] [result_of 1 "a" f64_one; result_of 2 "b" f64_one] 10)
    as (P & O & E & _); [by repeat constructor|]. by exists P, O.
Defined.

(** The comparison is not a preorder once a score is not a number: such a score
    ties with every other, so ties do not carry over. *)
Theorem score_order_needs_numbers :
  let nan := result_of 2 "b" S754_nan in
  let lo := result_of 1 "a" f64_zero in
  let hi := result_of 3 "c" f64_one in
  by_score_desc lo nan = true /\ by_score_desc nan hi = true /\ by_score_desc lo hi = false.
Proof. vm_compute. done. Qed.
