(* ===== verification/SearchRun.v ===== *)
(** * SearchRun: a search request from end to end

    The theorems on the engine of [Search]: which page a request answers with,
    when it fails, and what the [pg_trgm] probe concludes. *)

From S2P Require Import Prelude RustStr Errors Floats JsonValue SettingDefs IpAddr NetGuard Auth Snapshots StableSort Health SearchSql Embed Search.

(** ** Lemmas: joining the arms *)

Definition arm_rows (a : bool * result SqlxError (list SearchRow)) : list SearchRow :=
  match a with (true, Ok r) => r | _ => [] end.

Lemma join_text_arms_ok arms rows : (true, Ok rows) ∈ arms -> join_text_arms arms = Ok (Ok (arm_rows <$> arms)).
Proof.
  intros Hin. unfold join_text_arms.
  replace (existsb (fun a => fst a && is_ok (snd a)) arms) with true; [by rewrite andb_false_r|].
  symmetry. apply existsb_exists. exists (true, Ok rows). split; [by apply list_elem_of_In|done].
Qed.

(** It never reaches the branch that cannot happen, and fails only when every
    selected arm did, one being selected. *)
Lemma join_text_arms_cases arms :
  (join_text_arms arms = Ok (Ok (arm_rows <$> arms)) /\
     (existsb fst arms = false \/ exists rows, (true, Ok rows) ∈ arms)) \/
  (exists e, join_text_arms arms = Ok (Err e) /\ (true, Err e) ∈ arms /\ forall rows, (true, Ok rows) ∉ arms).
Proof.
  unfold join_text_arms. destruct (existsb (fun a => fst a && is_ok (snd a)) arms) eqn:Ec.
  - left. rewrite andb_false_r. split; [done|right]. apply existsb_exists in Ec as ([[] [r|]] & Hin & Hc); try done.
    exists r. by apply list_elem_of_In.
  - rewrite andb_true_r. destruct (existsb fst arms) eqn:Es; [|left; auto].
    right. apply existsb_exists in Es as ([[] r] & Hin%list_elem_of_In & Ht); [|done].
    assert (Hno : forall rows, (true, Ok rows) ∉ arms).
    { intros rows Hr. enough (existsb (fun a => fst a && is_ok (snd a)) arms = true) by congruence.
      apply existsb_exists. exists (true, Ok rows). split; [by apply list_elem_of_In|done]. }
    destruct r as [rows|e]; [by destruct (Hno rows)|].
    destruct (omap _ arms) as [|e' l] eqn:Eo.
    + exfalso. enough (e ∈ omap (fun a => match a with (true, Err e) => Some e | _ => None end) arms) as He
        by (rewrite Eo in He; by apply elem_of_nil in He).
      apply list_elem_of_omap. by exists (true, Err e).
    + exists e'. cbn. split_and!; [done| |done].
      assert (He : e' ∈ omap (fun a => match a with (true, Err e) => Some e | _ => None end) arms)
        by (rewrite Eo; by left).
      apply list_elem_of_omap in He as ([[] [|]] & Ha & He); try done. by injection He as ->.
Qed.

(** ** Lemmas: one arm *)

(** An arm gets to run its statement. *)
Definition connects (env : SearchEnv) (site : string) : bool := permit env site && is_ok (checkout env site).

Lemma run_text_arm_ok env sq site branch : is_ok (fst (run_text_arm env sq site branch)) = connects env site.
Proof.
  unfold run_text_arm, connects. destruct (permit env site); cbn; [|done].
  destruct (checkout env site); cbn; [|done]. by destruct (run_sql_on _ _ _ _).
Qed.

(** What the statement of an arm delivers. *)
Definition delivered (env : SearchEnv) (site : string) (sq : option SqlQuery) : list SearchRow :=
  match sq with
  | Some q => if connects env site then match rows_of env site q with Ok rows => rows | Err _ => [] end else []
  | None => []
  end.

Definition gated (ok : bool) (sq : option SqlQuery) : option SqlQuery := if ok then sq else None.

(** An arm joins as selected when it has a statement and is not gated, and with
    the rows its statement delivers. *)
Lemma run_arm_join env sq ok site branch :
  arm_rows (is_some sq && ok, fst (run_arm env sq ok site branch)) = delivered env site (gated ok sq) /\
  (is_some sq && ok = true -> is_ok (fst (run_arm env sq ok site branch)) = connects env site).
Proof.
  unfold run_arm, gated, delivered. destruct sq as [q|], ok; cbn [andb is_some]; try done. split; [|intros _; apply run_text_arm_ok].
  unfold run_text_arm, run_sql_on, connects. destruct (permit env site); cbn; [|done].
  destruct (checkout env site); cbn; [|done]. by destruct (rows_of env site q).
Qed.

(** Joining arms whose outcome tells whether their site connects. *)
Definition site_of (a : bool * result SqlxError (list SearchRow) * string) : option string :=
  if fst (fst a) then Some (snd a) else None.

Lemma join_by_sites env l :
  Forall (fun a => fst (fst a) = true -> is_ok (snd (fst a)) = connects env (snd a)) l ->
  if existsb (connects env) (omap site_of l) || bool_decide (omap site_of l = [])
  then join_text_arms l.*1 = Ok (Ok (arm_rows <$> l.*1)) else exists er, join_text_arms l.*1 = Ok (Err er).
Proof.
  intros Hl. assert (Hs : existsb fst l.*1 = negb (bool_decide (omap site_of l = []))).
  { clear Hl. induction l as [|[[[] r] s] l IH]; [done|done|exact IH]. }
  assert (Hc : existsb (fun a => fst a && is_ok (snd a)) l.*1 = existsb (connects env) (omap site_of l)).
  { clear Hs. induction Hl as [|[[b r] s] l Hb _ IH]; [done|]. destruct b; cbn; [|exact IH]. cbn in Hb. by rewrite IH, Hb. }
  destruct (join_text_arms_cases l.*1) as [[Hj _]|(er & Hj & _)]; rewrite Hj; unfold join_text_arms in Hj; rewrite Hs, Hc in Hj;
    destruct (existsb (connects env) (omap site_of l)), (bool_decide (omap site_of l = [])); cbn [orb andb negb] in *; eauto; try done.
  by destruct (head _).
Qed.

Section Engine.
Context {Ua : UrlApi} {Cf : CaseFold} {Sf : ShowF64} {Sf32 : ShowF32}.

(** The text arms a request selects, by their checkout sites: full text unless
    the mode excludes it; the trigram arms when the mode includes them and the
    probe finds the extension, the last two for queries of three characters. *)
Definition text_sites (env : SearchEnv) (e : SearchEngine) (query : string) (mode : option string) : list string :=
  (if run_fts mode then ["search_fts"] else []) ++
  (if run_trgm mode && fst (ensure_trgm env e) then
     "search_trgm_prefix" ::
     (if trgm_arms_enabled (to_lowercase query) then ["search_trgm_contains"; "search_trgm_similarity"] else [])
   else []).

(** The rows the arms deliver: full text, the trigram arms in their order, the
    nearest neighbours. *)
Definition request_arms (env : SearchEnv) (e : SearchEngine) (query : string) (p : SearchParams)
    (snap : SearchParamsSnapshot) : SearchArms * SearchEngine :=
  build_search_arms env e query p snap (search_limit snap p) (search_offset p).

Definition fts_found env e query p snap : list SearchRow :=
  delivered env "search_fts" (fts_sq (fst (request_arms env e query p snap))).

Definition trgm_found env e query p snap : list SearchRow :=
  let arms := fst (request_arms env e query p snap) in
  delivered env "search_trgm_prefix" (gated (trgm_ok arms) (sq_prefix arms)) ++
  delivered env "search_trgm_contains" (gated (trgm_ok arms) (sq_contains arms)) ++
  delivered env "search_trgm_similarity" (gated (trgm_ok arms) (sq_similarity arms)).

Definition vector_found env e query p snap : list SearchRow :=
  let '(arms, e') := request_arms env e query p snap in
  let '(lit, _, _) := embed_query env e' snap query (vector_enabled arms) in
  delivered env "search_vector_ann"
    ((fun v => vector_sql v (p_zim p) (p_language p) (ann_limit arms) (vector_weight snap)) <$> lit).

Lemma vector_arm_rows env e snap query enabled zim lang lim w :
  fst (fst (vector_arm_run env e snap query enabled zim lang lim w)) =
  delivered env "search_vector_ann"
    ((fun v => vector_sql v zim lang lim w) <$> fst (fst (embed_query env e snap query enabled))).
Proof.
  unfold vector_arm_run, delivered, connects. destruct (embed_query env e snap query enabled) as [[[v|] e'] r]; [|done]. cbn [fst fmap option_fmap option_map].
  destruct (permit env _); cbn [negb andb]; [|done]. destruct (checkout env _); cbn [is_ok]; [|done].
  unfold run_sql_on. by destruct (rows_of env _ _).
Qed.

(** The selected arms of the join are those of [text_sites]. *)
Lemma selected_sites env e query p snap :
  let arms := fst (request_arms env e query p snap) in
  text_sites env e query (p_mode p) =
  omap (fun a : bool * string => if fst a then Some (snd a) else None)
    [(is_some (fts_sq arms) && true, "search_fts"); (is_some (sq_prefix arms) && trgm_ok arms, "search_trgm_prefix");
     (is_some (sq_contains arms) && trgm_ok arms, "search_trgm_contains");
     (is_some (sq_similarity arms) && trgm_ok arms, "search_trgm_similarity")].
Proof.
  unfold request_arms, build_search_arms, build_trgm_arms, text_sites.
  destruct (run_fts (p_mode p)), (run_trgm (p_mode p)), (ensure_trgm env e) as [[] e'], (trgm_arms_enabled (to_lowercase query)); done.
Qed.

(** A request in one equation: the failure of the join, the panic of the sort,
    or the page of the merged rows. *)
Lemma search_cases env e query p : exists snap, search_params_snapshot (settings e) = Some snap /\
  let fts := row_to_result <$> fts_found env e query p snap in
  let trgm := row_to_result <$> dedup_trgm_by_first (trgm_found env e query p snap) in
  let vector := row_to_result <$> vector_found env e query p snap in
  let sites := text_sites env e query (p_mode p) in
  if existsb (connects env) sites || bool_decide (sites = []) then
    fst (search env e query p) =
      (if merge_panics env fts trgm vector then Err Panicked
       else Ok (Ok (merge_results fts trgm vector (Z.to_nat (search_limit snap p)) (Z.to_nat (search_offset p)))))
  else exists er, fst (search env e query p) = Ok (Err (Database er)).
Proof.
  destruct (search_snapshot_ok (settings e)) as (snap & Hsnap & _). exists snap. split; [done|]. cbn zeta.
  rewrite (selected_sites env e query p snap). unfold search, fts_found, trgm_found, vector_found. rewrite Hsnap. fold (request_arms env e query p snap).
  destruct (request_arms env e query p snap) as [arms e1]. cbn [fst].
  destruct (run_arm_join env (fts_sq arms) true "search_fts" "fts") as [Hr1 Hc1].
  destruct (run_arm_join env (sq_prefix arms) (trgm_ok arms) "search_trgm_prefix" "trgm_prefix") as [Hr2 Hc2].
  destruct (run_arm_join env (sq_contains arms) (trgm_ok arms) "search_trgm_contains" "trgm_contains") as [Hr3 Hc3].
  destruct (run_arm_join env (sq_similarity arms) (trgm_ok arms) "search_trgm_similarity" "trgm_similarity") as [Hr4 Hc4].
  pose proof (vector_arm_rows env e1 snap query (vector_enabled arms) (p_zim p) (p_language p) (ann_limit arms) (vector_weight snap)) as Hv.
  rewrite andb_true_r in *. cbn [gated] in Hr1.
  destruct (embed_query env e1 snap query (vector_enabled arms)) as [[lit e2] r0]. cbn [fst] in Hv. rewrite <- Hv, <- Hr1, <- Hr2, <- Hr3, <- Hr4. clear Hr1 Hr2 Hr3 Hr4 Hv.
  destruct (run_arm env (fts_sq arms) _ _ _) as [fr r1], (run_arm env (sq_prefix arms) _ _ _) as [pr r2],
    (run_arm env (sq_contains arms) _ _ _) as [cr r3], (run_arm env (sq_similarity arms) _ _ _) as [sr r4],
    (vector_arm_run _ _ _ _ _ _ _ _ _) as [[vr e3] r5]. cbn [fst] in *.
  pose proof (join_by_sites env [(is_some (fts_sq arms), fr, "search_fts"); (is_some (sq_prefix arms) && trgm_ok arms, pr, "search_trgm_prefix");
    (is_some (sq_contains arms) && trgm_ok arms, cr, "search_trgm_contains");
    (is_some (sq_similarity arms) && trgm_ok arms, sr, "search_trgm_similarity")]) as Hj.
  cbn [omap list_omap fst snd fmap list_fmap site_of] in *. specialize (Hj ltac:(by repeat constructor)). unfold site_of in Hj. cbn [fst snd] in Hj.
  destruct (_ || _); [rewrite Hj; cbn; by destruct (merge_panics _ _ _ _)|]. destruct Hj as [er ->]. by exists er.
Qed.

End Engine.

(** ** Lemmas: what the merge makes of the rows *)

(** The row comes before every other of its article. *)
Definition first_of_article (rows : list SearchRow) (r : SearchRow) : Prop :=
  exists before after, rows = before ++ r :: after /\ Forall (fun r' => row_id r' <> row_id r) before.

Lemma dedup_first_keeps (seen : gset Z) (rows : list SearchRow) r : row_id r ∉ seen -> first_of_article rows r ->
  r ∈ fst (dedup_first row_id seen rows).
Proof.
  intros Hs (before & after & -> & Hb). revert seen Hs. induction Hb as [|x before Hx _ IH]; intros seen Hs; cbn.
  - rewrite decide_False by done. destruct (dedup_first _ _ after). by left.
  - destruct (decide (row_id x ∈ seen)); [by apply IH|]. specialize (IH ({[row_id x]} ∪ seen) ltac:(set_solver)).
    destruct (dedup_first _ _ (before ++ r :: after)) as [l s]. by right.
Qed.

Lemma dedup_trgm_sub rows r : r ∈ dedup_trgm_by_first rows -> r ∈ rows.
Proof.
  unfold dedup_trgm_by_first. pose proof (dedup_first_spec row_id ∅ rows) as H. destruct (dedup_first row_id ∅ rows) as [l s].
  destruct H as (Hsub & _). intros Hr. by eapply elem_of_sublist.
Qed.

Lemma dedup_trgm_covers rows r : r ∈ rows -> exists r', r' ∈ dedup_trgm_by_first rows /\ row_id r' = row_id r.
Proof.
  unfold dedup_trgm_by_first. pose proof (dedup_first_spec row_id ∅ rows) as H. destruct (dedup_first row_id ∅ rows) as [l s].
  destruct H as (_ & _ & _ & _ & Hc). intros [Hr|(r' & Hk & Hr')%list_elem_of_fmap]%Hc; [set_solver|]. by exists r'.
Qed.

(** No statement delivers a score that is not a number. *)
Definition scores_are_numbers (env : SearchEnv) : Prop :=
  forall site sq rows, rows_of env site sq = Ok rows -> Forall (fun r => f64_is_nan (row_score r) = false) rows.

Lemma delivered_numbers env site sq r : scores_are_numbers env -> r ∈ delivered env site sq -> f64_is_nan (row_score r) = false.
Proof.
  intros Hn. unfold delivered. destruct sq as [q|]; [|by intros ?%elem_of_nil]. destruct (connects env site); [|by intros ?%elem_of_nil].
  destruct (rows_of env site q) as [rows|] eqn:E; [|by intros ?%elem_of_nil]. specialize (Hn _ _ _ E). rewrite Forall_forall in Hn. apply Hn.
Qed.

Lemma found_numbers `{Ua : UrlApi, Cf : CaseFold, Sf : ShowF64, Sf32 : ShowF32} env e query p snap r : scores_are_numbers env ->
  r ∈ fts_found env e query p snap ++ trgm_found env e query p snap ++ vector_found env e query p snap ->
  f64_is_nan (row_score r) = false.
Proof.
  intros Hn. unfold fts_found, trgm_found, vector_found. destruct (request_arms env e query p snap) as [arms e']. cbn [fst].
  destruct (embed_query _ _ _ _ _) as [[lit e2] r0]. rewrite !elem_of_app.
  intros [Hr|[[Hr|[Hr|Hr]]|Hr]]; by eapply delivered_numbers.
Qed.



Lemma run_arm_numbers env sq sel site branch (b : bool) r : scores_are_numbers env ->
  r ∈ arm_rows (b, fst (run_arm env sq sel site branch)) -> f64_is_nan (row_score r) = false.
Proof.
  intros Hn. destruct b; cbn [arm_rows]; [|by intros ?%elem_of_nil]. unfold run_arm, run_text_arm, run_sql_on.
  destruct sq as [q|]; [|by intros ?%elem_of_nil]. destruct sel; [|by intros ?%elem_of_nil]. destruct (permit env site); cbn; [|by intros ?%elem_of_nil].
  destruct (checkout env site); cbn; [|by intros ?%elem_of_nil]. destruct (rows_of env site q) as [rows|] eqn:E; cbn; [|by intros ?%elem_of_nil].
  specialize (Hn _ _ _ E). rewrite Forall_forall in Hn. apply Hn.
Qed.

Lemma suggest_panics_nan env prefix others : merge_suggest_panics env prefix others = true ->
  exists x, x ∈ prefix ++ others /\ f64_is_nan (score x) = true.
Proof.
  unfold merge_suggest_panics, sort_panicked. pose proof (dedup_first_spec id ∅ prefix) as H1. destruct (dedup_first id ∅ prefix) as [p seen].
  pose proof (dedup_first_spec id seen others) as H2. destruct (dedup_first id seen others) as [o seen2]. destruct H1 as (Sp & _), H2 as (So & _).
  intros [[Hx _]%andb_true_iff|[Hx _]%andb_true_iff]%orb_true_iff; apply existsb_exists in Hx as (x & Hx%list_elem_of_In & Hnan); exists x; split; try done;
    apply elem_of_app; [left|right]; by eapply elem_of_sublist.
Qed.

Lemma suggest_panic_nan `{Ua : UrlApi, Cf : CaseFold, Sf : ShowF64, Sf32 : ShowF32} env e query zim limit pn :
  fst (suggest env e query zim limit) = Err pn -> ~ scores_are_numbers env.
Proof.
  intros Hp Hn. unfold suggest in Hp. destruct (search_snapshot_ok (settings e)) as (snap & Hsnap & _). rewrite Hsnap in Hp.
  destruct (ensure_trgm env e) as [ok e1].
  match type of Hp with context [run_text_arm env ?q ?s ?b] => change (run_text_arm env q s b) with (run_arm env (Some q) true s b) in Hp end.
  repeat match type of Hp with context [run_arm env ?q ?sel ?s ?b] =>
    let H := fresh "Hr" in pose proof (fun b' r => run_arm_numbers env q sel s b b' r Hn) as H; destruct (run_arm env q sel s b) as [? ?]; cbn [fst] in H end.
  match type of Hp with context [join_text_arms ?l] => destruct (join_text_arms_cases l) as [[Hj _]|(er & Hj & _)]; rewrite Hj in Hp; [|done] end.
  clear Hj. match type of Hp with context [merge_suggest_panics env ?a ?b] => destruct (merge_suggest_panics env a b) eqn:Ep; [|done] end.
  apply suggest_panics_nan in Ep as (x & Hx & Hnan). rewrite <- fmap_app in Hx. apply list_elem_of_fmap in Hx as (row & -> & Hrow). cbn in Hnan.
  enough (f64_is_nan (row_score row) = false) by congruence. cbn [fmap list_fmap lookup] in Hrow. rewrite !elem_of_app in Hrow.
  destruct Hrow as [Hrow|[Hrow|Hrow]]; [by apply (Hr _ _ Hrow)|by apply (Hr0 _ _ Hrow)|by apply (Hr1 _ _ Hrow)].
Qed.

(** ** Theorems *)

(** C16: the answer to a search is a page of one ranked list.  Whatever the
    mode, the filters and the failures, when a request is answered and no score
    the database gives is NaN, the answer is the window that [limit] and
    [offset] ask for of a list in which no article is listed twice, scores never
    increase, every entry is a row that a connected arm delivered, and every
    article that a connected arm found is listed: with at least the score of
    the full-text and the vector arm, and with at least that of the first
    trigram arm to find it. *)
Theorem search_page_is_ranked `{Ua : UrlApi, Cf : CaseFold, Sf : ShowF64, Sf32 : ShowF32}
    (env : SearchEnv) (e : SearchEngine) (query : string) (p : SearchParams) (results : list SearchResult) :
  scores_are_numbers env -> fst (search env e query p) = Ok (Ok results) ->
  exists snap ranked, search_params_snapshot (settings e) = Some snap /\
    let fts := fts_found env e query p snap in
    let trgm := trgm_found env e query p snap in
    let vector := vector_found env e query p snap in
    results = take (Z.to_nat (search_limit snap p)) (drop (Z.to_nat (search_offset p)) ranked) /\
    NoDup (id <$> ranked) /\ StronglySorted (fun a b => f64_geb (score a) (score b) = true) ranked /\
    (forall x, x ∈ ranked -> exists r, r ∈ fts ++ trgm ++ vector /\ x = row_to_result r) /\
    (forall r, r ∈ fts ++ trgm ++ vector -> row_id r ∈ id <$> ranked) /\
    (forall r, r ∈ fts \/ r ∈ vector \/ first_of_article trgm r ->
       exists x, x ∈ ranked /\ id x = row_id r /\ f64_geb (score x) (row_score r) = true).
Proof.
  intros Hn Hans. destruct (search_cases env e query p) as (snap & Hsnap & Hc). cbn zeta in Hc.
  destruct (_ || _); [|destruct Hc; congruence]. rewrite Hc in Hans. destruct (merge_panics _ _ _ _); [done|]. injection Hans as <-.
  set (fts := fts_found env e query p snap) in *. set (trgm := trgm_found env e query p snap) in *. set (vector := vector_found env e query p snap) in *.
  assert (Hall : Forall number ((row_to_result <$> fts) ++ (row_to_result <$> dedup_trgm_by_first trgm) ++ (row_to_result <$> vector))).
  { rewrite <- !fmap_app. apply Forall_fmap, Forall_forall. intros r Hr. apply (found_numbers env e query p snap r Hn).
    rewrite !elem_of_app in *. destruct Hr as [?|[?%dedup_trgm_sub|?]]; auto. }
  destruct (merged_page_is_ranked _ _ _ Hall) as (Hpage & _ & Hnd & Hs & Hcov & Hsub).
  exists snap, (merged_pool (row_to_result <$> fts) (row_to_result <$> dedup_trgm_by_first trgm) (row_to_result <$> vector)).
  split; [done|]. cbn zeta. fold fts trgm vector. split_and!; [apply Hpage|done|done| |..].
  - intros x Hx%Hsub. rewrite <- !fmap_app in Hx. apply list_elem_of_fmap in Hx as (r & -> & Hr). exists r. split; [|done].
    rewrite !elem_of_app in *. destruct Hr as [?|[?%dedup_trgm_sub|?]]; auto.
  - intros r Hr. assert (Hr' : exists r', r' ∈ fts ++ dedup_trgm_by_first trgm ++ vector /\ row_id r' = row_id r).
    { rewrite !elem_of_app in Hr. destruct Hr as [?|[Hr%dedup_trgm_covers|?]]; [exists r| |exists r]; try (rewrite !elem_of_app; tauto).
      destruct Hr as (r' & ? & ?). exists r'. by rewrite !elem_of_app; auto. }
    destruct Hr' as (r' & Hr' & <-). destruct (Hcov (row_to_result r')) as (x & Hx & Hid & _); [rewrite <- !fmap_app; by apply list_elem_of_fmap_2|].
    change (row_id r') with (id (row_to_result r')). rewrite <- Hid. by apply list_elem_of_fmap_2.
  - intros r Hr. apply (Hcov (row_to_result r)). rewrite <- !fmap_app. apply list_elem_of_fmap_2. rewrite !elem_of_app.
    destruct Hr as [?|[?|Hf]]; auto. right; left. unfold dedup_trgm_by_first. by apply dedup_first_keeps.
Qed.


Definition ascii_fold : CaseFold := {| to_lowercase := to_ascii_lowercase; to_lowercase_ascii s _ := eq_refl |}.
Definition show_any32 : ShowF32 := {| show_f32_7 _ := "0.0000000" |}.

(** A request whose arms cannot connect, and one whose only arm to connect is
    the full-text one. *)
Definition env_with (sites : list string) (rows : list SearchRow) : SearchEnv := {|
  permit _ := true;
  checkout s := if existsb (String.eqb s) sites then Ok tt else Err PoolTimedOut;
  rows_of _ _ := Ok rows;
  probe_row := Ok (Some tt);
  at_ _ := 0;
  dns _ _ := Err "no name";
  http_built := Ok tt;
  embed_call := TimedOut;
  others_client c := c;
  others_cache c := c;
  sort_panics _ := true
|}.

Definition fresh_engine : SearchEngine := search_engine_new (init_inner ∅ None ∅) ∅.
Definition plain_params : SearchParams := mkParams None None None None None false.
Definition row_a : SearchRow := mkRow 7 1 "A/a" "a" "s" None "en" "en" f64_one.

Definition row_b : SearchRow := mkRow 8 1 "A/b" "b" "s" None "en" "en" f64_0_01.

Lemma search_page_is_ranked_witness :
  exists results, fst (@search text_url ascii_fold show_zero show_any32 (env_with ["search_fts"; "search_trgm_prefix"; "trgm_probe"] [row_b; row_a])
    fresh_engine "abc" plain_params) = Ok (Ok results) /\ length results = 2%nat /\ NoDup (id <$> results).
Proof.
  set (env := env_with _ _). destruct (fst (@search text_url ascii_fold show_zero show_any32 env fresh_engine "abc" plain_params)) as [[results|er]|pn] eqn:E;
    [|vm_compute in E; discriminate E..].
  exists results. destruct (@search_page_is_ranked text_url ascii_fold show_zero show_any32 env fresh_engine "abc" plain_params results)
    as (snap & ranked & _ & Hr & Hnd & _).
  - intros site sq rows [= <-]. by repeat constructor.
  - exact E.
  - split_and!; [done|vm_compute in E; injection E as <-; reflexivity|]. rewrite Hr. rewrite fmap_take, fmap_drop.
    eapply sublist_NoDup; [exact Hnd|]. etrans; [apply sublist_take|apply sublist_drop].
Defined.


(** The probe asks whether its statement ran, not whether it found a row: on a
    database without the extension it concludes the extension is there, for
    good, and reports nothing. *)
Theorem missing_extension_reads_as_present :
  let env := {| permit _ := true; checkout _ := Ok tt; rows_of _ _ := Err "function similarity(text, text) does not exist";
                probe_row := Ok None; at_ _ := 0; dns _ _ := Err "no name"; http_built := Ok tt; embed_call := TimedOut;
                others_client c := c; others_cache c := c; sort_panics _ := true |} in
  fst (ensure_trgm env fresh_engine) = true /\
  trgm_ready (snd (ensure_trgm env fresh_engine)) = Some (true, 0) /\
  degradation (snd (ensure_trgm env fresh_engine)) = ∅ /\
  forall now, trgm_cached_if_fresh (snd (ensure_trgm env fresh_engine)) now = Some true.
Proof. done. Qed.
