(* ===== verification/VectorIndex.v ===== *)
(** * VectorIndex: the vector index and its build gate

    [src/embed/vector_index.rs] and the gate of [src/embed/auto_loop.rs]: the
    index's state in the catalog, when it is built and how, the snapshot the
    diagnostics read, and the compare-and-swap claim that lets one build
    attempt through in ten minutes.  The catalog is a state; a statement's
    fate is a [Fault]. *)

From S2P Require Import Prelude RustStr Errors Floats JsonValue SettingDefs Auth.

Definition VECTOR_INDEX_MIN_ROWS : Z := 1.
Definition MIN_INDEX_BUILD_ROWS : Z := 10000.
Definition BUILD_BACKOFF_SECS : Z := 600.
Definition VECTOR_INDEX_SNAPSHOT_TTL : Z := 300.

Inductive VectorIndexState := Absent | Present | PresentInvalid.

#[global] Instance VectorIndexState_eq_dec : EqDecision VectorIndexState.
Proof. solve_decision. Defined.

Definition is_present (s : VectorIndexState) : bool := match s with Present => true | _ => false end.

Definition classify_index_state (valid invalid : bool) : VectorIndexState :=
  if valid then Present else if invalid then PresentInvalid else Absent.

(** [x as i32] of a float: toward zero, saturating; NaN is 0. *)
Definition f64_as_i32 (x : f64) : Z :=
  match x with
  | S754_zero _ | S754_nan => 0
  | S754_infinity s => if s then i32_min else i32_max
  | S754_finite s m e =>
      let r := if 0 <=? e then Zpos m * 2 ^ e else Zpos m / 2 ^ (- e) in
      clamp i32_min i32_max (if s then - r else r)
  end.

Definition ivf_lists (count : Z) : Z := Z.max (f64_as_i32 (SFsqrt 53 1024 (f64_of_Z count))) 100.

Definition index_build_sql (count hnsw_threshold : Z) : string :=
  if count <? hnsw_threshold then
    "CREATE INDEX CONCURRENTLY IF NOT EXISTS idx_articles_embedding ON articles USING hnsw (embedding vector_cosine_ops) WHERE embedding IS NOT NULL"
  else
    "CREATE INDEX CONCURRENTLY IF NOT EXISTS idx_articles_embedding ON articles USING ivfflat (embedding vector_cosine_ops) WITH (lists = "
      +:+ pretty (ivf_lists count) +:+ ") WHERE embedding IS NOT NULL".

Definition vector_index_degradation_note (count : Z) (state : VectorIndexState) : option string :=
  if (MIN_INDEX_BUILD_ROWS <=? count) && negb (is_present state) then
    Some ("no valid vector index over " +:+ pretty count
          +:+ " embedded rows — vector search is a sequential cosine scan over every embedded row")
  else None.

Definition should_spawn_build (state : VectorIndexState) (count : Z) : bool :=
  negb (is_present state) && (MIN_INDEX_BUILD_ROWS <=? count).

(** ** The snapshot *)

Record VectorIndexSnapshot := mkSnapshot { embedded_rows : Z; index : VectorIndexState; at_unix : Z }.

Definition snapshot_is_fresh (snap : VectorIndexSnapshot) (now : Z) : bool :=
  negb (at_unix snap =? 0) && (saturating_sub now (at_unix snap) <=? VECTOR_INDEX_SNAPSHOT_TTL).

(** The database: the rows with a vector, the index, and the planner's
    estimate of the table's rows. *)
Record Catalog := mkCatalog { rows_embedded : Z; idx : VectorIndexState; n_live_tup : Z }.

Definition flag (s : VectorIndexState) : bool * bool :=
  match s with Absent => (false, false) | Present => (true, false) | PresentInvalid => (false, true) end.

Definition index_state (fault : option Error) (db : Catalog) : Result VectorIndexState :=
  match fault with
  | Some e => Err e
  | None => let '(valid, invalid) := flag (idx db) in Ok (classify_index_state valid invalid)
  end.

Definition vector_index_state (count_fault state_fault : option Error) (db : Catalog) :
    Result (Z * VectorIndexState) :=
  match count_fault with
  | Some e => Err e
  | None => let? st := index_state state_fault db in Ok (rows_embedded db, st)
  end.

Record VectorIndexDiagnosis := mkDiagnosis {
  d_rows : Z;
  d_index : VectorIndexState;
  d_degraded : option string;
  d_count_at : Z
}.

Definition publish_vector_index_snapshot (rows : Z) (st : VectorIndexState) (now : Z) : VectorIndexSnapshot :=
  mkSnapshot rows st now.

Definition vector_index_diagnostic (snap : VectorIndexSnapshot) (db : Catalog) (count_fault state_fault : option Error)
    (now now' : Z) : option VectorIndexDiagnosis * VectorIndexSnapshot :=
  if snapshot_is_fresh snap now then
    (Some (mkDiagnosis (embedded_rows snap) (index snap)
       (vector_index_degradation_note (embedded_rows snap) (index snap)) (at_unix snap)), snap)
  else
    match vector_index_state count_fault state_fault db with
    | Ok (rows, st) =>
        (Some (mkDiagnosis rows st (vector_index_degradation_note rows st) now),
         publish_vector_index_snapshot rows st now')
    | Err _ => (None, snap)
    end.

Inductive IndexBuildPrefilter :=
| Probe
| Skip (estimate : Z) (state : VectorIndexState)
| SkipUnknown.

Definition live_rows_estimate (fault : bool) (db : Catalog) : Z := if fault then 0 else n_live_tup db.

Definition index_build_prefilter (state_fault : option Error) (estimate_fault : bool) (db : Catalog) :
    IndexBuildPrefilter :=
  match index_state state_fault db with
  | Err _ => SkipUnknown
  | Ok st =>
      let estimate := live_rows_estimate estimate_fault db in
      if is_present st then Skip estimate st
      else if MIN_INDEX_BUILD_ROWS <=? estimate then Probe else Skip estimate st
  end.

(** ** The gate *)

Definition build_probe_allowed (last_probe_secs now_secs : Z) : bool :=
  (last_probe_secs =? 0) || (BUILD_BACKOFF_SECS <=? saturating_sub now_secs last_probe_secs).

Definition build_probe_claimed_recently (probe now : Z) : bool := negb (build_probe_allowed probe now).

(** One caller alone: the first exchange succeeds. *)
Definition build_probe_within_backoff (probe now : Z) : bool * Z :=
  if build_probe_allowed probe now then (true, now) else (false, probe).

(** Several callers: each loads the shared stamp, and tries to exchange it. *)
Inductive caller := Entering (now : Z) | Trying (now last : Z) | Refused | Claimed (now : Z).

Record gate := mkGate { stamp : Z; callers : list caller; claims : list Z }.

Inductive gate_step : gate -> gate -> Prop :=
| gate_load g i now : callers g !! i = Some (Entering now) ->
    gate_step g (mkGate (stamp g) (<[i := Trying now (stamp g)]> (callers g)) (claims g))
| gate_refuse g i now last : callers g !! i = Some (Trying now last) -> build_probe_allowed last now = false ->
    gate_step g (mkGate (stamp g) (<[i := Refused]> (callers g)) (claims g))
| gate_exchange g i now last : callers g !! i = Some (Trying now last) -> build_probe_allowed last now = true ->
    stamp g = last ->
    gate_step g (mkGate now (<[i := Claimed now]> (callers g)) (now :: claims g))
| gate_retry g i now last : callers g !! i = Some (Trying now last) -> build_probe_allowed last now = true ->
    stamp g <> last -> build_probe_allowed (stamp g) now = true ->
    gate_step g (mkGate (stamp g) (<[i := Trying now (stamp g)]> (callers g)) (claims g))
| gate_lost g i now last : callers g !! i = Some (Trying now last) -> build_probe_allowed last now = true ->
    stamp g <> last -> build_probe_allowed (stamp g) now = false ->
    gate_step g (mkGate (stamp g) (<[i := Refused]> (callers g)) (claims g)).

(** ** The build *)

Record Build := mkBuild { probe : Z; in_flight : bool; snapshot : VectorIndexSnapshot; catalog : Catalog }.

(** What happens around a build: the clock, the probes' faults, and how the
    three statements end.  A failed concurrent build leaves an invalid entry. *)
Record BuildEnv := mkBuildEnv {
  now : Z;
  count_fault : option Error;
  state_fault : option Error;
  drop_concurrently : Fault;
  drop_plain : Fault;
  create : string -> Fault;
  create_leaves_invalid : bool
}.

Definition drop_index (db : Catalog) : Catalog := mkCatalog (rows_embedded db) Absent (n_live_tup db).

(** [CREATE INDEX CONCURRENTLY IF NOT EXISTS]: nothing on any entry of that name. *)
Definition create_index (st : VectorIndexState) (db : Catalog) : Catalog :=
  match idx db with Absent => mkCatalog (rows_embedded db) st (n_live_tup db) | _ => db end.

Definition run_ddl (f : Fault) (eff : Catalog -> Catalog) (db : Catalog) : bool * Catalog :=
  match f with NoFault => (true, eff db) | Failed _ => (false, db) | ReplyLost _ => (false, eff db) end.

(** [get_typed::<i64>] is [as_i64].  The flag is up from here on and down again
    on every way out. *)
Definition build_index (e : BuildEnv) (st : SettingsInner) (count : Z) (state : VectorIndexState) (db : Catalog) :
    bool * Catalog :=
  let create db :=
    let hnsw_threshold := default EMBED_DEFAULT_HNSW_THRESHOLD (get KEY_EMBEDDING_HNSW_THRESHOLD st ≫= as_i64) in
    match create e (index_build_sql count hnsw_threshold) with
    | NoFault => (true, create_index Present db)
    | Failed _ => (false, if create_leaves_invalid e then create_index PresentInvalid db else db)
    | ReplyLost _ => (false, create_index Present db)
    end in
  match state with
  | PresentInvalid =>
      let '(ok, db) := run_ddl (drop_concurrently e) drop_index db in
      if ok then create db
      else
        let '(ok, db) := run_ddl (drop_plain e) drop_index db in
        if ok then create db else (false, db)
  | _ => create db
  end.

Definition maybe_build_vector_index (e : BuildEnv) (st : SettingsInner) (min_rows : Z) (b : Build) : bool * Build :=
  let '(claimed, probe') := build_probe_within_backoff (probe b) (now e) in
  if negb claimed then (false, b)
  else
    match vector_index_state (count_fault e) (state_fault e) (catalog b) with
    | Err _ => (false, mkBuild probe' (in_flight b) (snapshot b) (catalog b))
    | Ok (count, state) =>
        let snap := publish_vector_index_snapshot count state (now e) in
        if (count <? min_rows) || is_present state then (false, mkBuild probe' (in_flight b) snap (catalog b))
        else
          let '(built, db) := build_index e st count state (catalog b) in
          (built, mkBuild probe' false snap db)
    end.

(** ** Lemmas: the gate *)

(** Claims, newest first, on top of the stamp there was. *)
Definition spaced (newer older : Z) : Prop := older = 0 \/ older + BUILD_BACKOFF_SECS <= newer.

Definition gate_inv (first : Z) (g : gate) : Prop :=
  stamp g = hd first (claims g) /\ Sorted spaced (claims g ++ [first]).

Lemma allowed_spaced last now : build_probe_allowed last now = true -> spaced now last.
Proof.
  unfold build_probe_allowed, spaced, saturating_sub, BUILD_BACKOFF_SECS.
  intros [?|?]%orb_true_iff; [left; lia|right; lia].
Qed.

Lemma gate_step_inv first g g' : gate_inv first g -> gate_step g g' -> gate_inv first g'.
Proof.
  intros [Hs Hc] Hstep. destruct Hstep as [g i now H|g i now last H Ha|g i now last H Ha Hl|g i now last H Ha Hl Ha'|
    g i now last H Ha Hl Ha']; try (by split).
  split; [done|]. cbn. constructor; [done|]. apply allowed_spaced in Ha. subst last. rewrite Hs in Ha.
  destruct (claims g); cbn in *; by constructor.
Qed.

Lemma gate_reachable_inv first g g' : gate_inv first g -> rtc gate_step g g' -> gate_inv first g'.
Proof. intros Hi Hr. induction Hr as [|g1 g2 g3 H12 _ IH]; [done|]. by apply IH, (gate_step_inv _ g1). Qed.

(** Every claim is a caller's clock. *)
Definition clocks (g : gate) : Prop :=
  (forall i c, callers g !! i = Some c ->
     match c with Entering n | Trying n _ | Claimed n => 0 < n | Refused => True end) /\
  Forall (fun c => 0 < c) (claims g).

Lemma gate_step_clocks g g' : clocks g -> gate_step g g' -> clocks g'.
Proof.
  intros [Hc Hp] Hstep.
  assert (Hins : forall i x, (match x with Entering n | Trying n _ | Claimed n => 0 < n | Refused => True end) ->
    forall j c, <[i := x]> (callers g) !! j = Some c ->
      match c with Entering n | Trying n _ | Claimed n => 0 < n | Refused => True end).
  { intros i x Hx j c Hj. destruct (decide (i = j)) as [->|Hn].
    - rewrite list_lookup_insert in Hj. case_decide; [by injection Hj as <-|by eapply Hc].
    - rewrite list_lookup_insert_ne in Hj by done. by eapply Hc. }
  destruct Hstep as [g i now H|g i now last H Ha|g i now last H Ha Hl|g i now last H Ha Hl Ha'|g i now last H Ha Hl Ha'];
    pose proof (Hc _ _ H) as Hn; cbn in Hn; split; cbn; try done; try (by eapply Hins); by constructor.
Qed.

(** ** Theorems: the gate *)

(** C20: The build gate lets one attempt through in ten minutes: however many
    callers race for it and however their loads and exchanges interleave, any
    two claims that succeed are at least 600 seconds apart by the clocks they
    were made with (clocks that read a time after the epoch; before it they all
    read 0, the value that stands for no attempt). *)
Theorem one_claim_per_window (first : Z) (cs : list caller) (g : gate) :
  Forall (fun c => exists n, c = Entering n /\ 0 < n) cs ->
  rtc gate_step (mkGate first cs []) g ->
  StronglySorted (fun newer older => older + BUILD_BACKOFF_SECS <= newer) (claims g).
Proof.
  intros Hcs Hr.
  assert (Hinv : gate_inv first g).
  { eapply gate_reachable_inv; [|exact Hr]. split; [done|]. by repeat constructor. }
  assert (Hclk : clocks g).
  { assert (H0 : clocks (mkGate first cs [])).
    { split; [|constructor]. intros i c Hi. cbn in Hi. rewrite Forall_lookup in Hcs.
      by destruct (Hcs i c Hi) as (n & -> & ?). }
    clear Hinv Hcs. induction Hr as [|g1 g2 g3 H12 _ IH]; [done|]. by apply IH, (gate_step_clocks g1). }
  destruct Hinv as [_ Hs]. destruct Hclk as [_ Hp].
  apply Sorted_StronglySorted; [intros a b c; unfold BUILD_BACKOFF_SECS; lia|].
  revert Hs Hp. induction (claims g) as [|a l IH]; intros Hs Hp; [constructor|].
  cbn in Hs. apply Sorted_inv in Hs as [Hs Hh]. apply Forall_cons in Hp as [Ha Hp]. constructor; [by apply IH|].
  destruct l as [|b l]; [constructor|]. cbn in Hh. inversion Hh as [|? ? Hsp]; subst. constructor.
  apply Forall_cons in Hp as [Hb _]. destruct Hsp as [->|Hsp]; [lia|done].
Qed.

Lemma one_claim_per_window_witness :
  exists g, rtc gate_step (mkGate 0 [Entering 1000; Entering 1001] []) g /\ claims g = [1000] /\
    StronglySorted (fun newer older => older + BUILD_BACKOFF_SECS <= newer) (claims g).
Proof.
  set (g1 := mkGate 0 [Trying 1000 0; Entering 1001] []).
  set (g2 := mkGate 0 [Trying 1000 0; Trying 1001 0] []).
  set (g3 := mkGate 1000 [Claimed 1000; Trying 1001 0] [1000]).
  set (g4 := mkGate 1000 [Claimed 1000; Refused] [1000]).
  assert (Hr : rtc gate_step (mkGate 0 [Entering 1000; Entering 1001] []) g4).
  { apply (rtc_l _ _ g1). { by apply (gate_load (mkGate 0 [Entering 1000; Entering 1001] []) 0 1000). }
    apply (rtc_l _ _ g2). { by apply (gate_load g1 1 1001). }
    apply (rtc_l _ _ g3). { by apply (gate_exchange g2 0 1000 0). }
    apply (rtc_l _ _ g4); [|apply rtc_refl]. by apply (gate_lost g3 1 1001 0). }
  exists g4. split; [exact Hr|]. split; [reflexivity|].
  apply (one_claim_per_window 0 [Entering 1000; Entering 1001] g4); [|exact Hr].
  repeat constructor; eexists; split; [reflexivity|lia|reflexivity|lia].
Defined.

(** ** Theorems: the decision and the build *)

(** Skipping the exact count loses nothing: when the estimate is not below the
    rows that have vectors and the pre-filter skips, the exact count would not
    have led to a build either, and the snapshot published in its place gives
    the same diagnosis; when it probes, no valid index exists. *)
Theorem prefilter_is_sound (state_fault : option Error) (estimate_fault : bool) (db : Catalog) :
  rows_embedded db <= live_rows_estimate estimate_fault db ->
  match index_build_prefilter state_fault estimate_fault db with
  | Skip estimate st =>
      st = idx db /\ should_spawn_build st (rows_embedded db) = false /\
      vector_index_degradation_note estimate st = vector_index_degradation_note (rows_embedded db) (idx db)
  | Probe => state_fault = None /\ idx db <> Present
  | SkipUnknown => state_fault <> None
  end.
Proof.
  intros Hest. unfold index_build_prefilter, index_state, should_spawn_build, vector_index_degradation_note.
  destruct state_fault as [er|]; [done|]. destruct (idx db) eqn:Ei; cbn.
  - destruct (Z.leb_spec MIN_INDEX_BUILD_ROWS (live_rows_estimate estimate_fault db)); [done|].
    destruct (Z.leb_spec MIN_INDEX_BUILD_ROWS (live_rows_estimate estimate_fault db)); [lia|].
    destruct (Z.leb_spec MIN_INDEX_BUILD_ROWS (rows_embedded db)); [lia|done].
  - by rewrite !andb_false_r.
  - destruct (Z.leb_spec MIN_INDEX_BUILD_ROWS (live_rows_estimate estimate_fault db)); [done|].
    destruct (Z.leb_spec MIN_INDEX_BUILD_ROWS (live_rows_estimate estimate_fault db)); [lia|].
    destruct (Z.leb_spec MIN_INDEX_BUILD_ROWS (rows_embedded db)); [lia|done].
Qed.

Lemma prefilter_is_sound_witness :
  index_build_prefilter None false (mkCatalog 500 Absent 9000) = Skip 9000 Absent /\
  should_spawn_build Absent 500 = false.
Proof.
  split; [reflexivity|].
  exact (proj1 (proj2 (prefilter_is_sound None false (mkCatalog 500 Absent 9000) ltac:(cbn; lia)))).
Defined.

(** A build attempt does what the gates allow and no more: outside the backoff
    window nothing happens; a valid index is never touched; a failed earlier
    build is cleared first, so that with its statements succeeding an attempt
    on enough rows always ends with a valid index; an attempt that reports
    success leaves one, and the in-flight flag is down after every build. *)
Theorem build_attempt_outcome (e : BuildEnv) (st : SettingsInner) (min_rows : Z) (b : Build) :
  let '(built, b') := maybe_build_vector_index e st min_rows b in
  (build_probe_allowed (probe b) (now e) = false -> built = false /\ b' = b) /\
  (idx (catalog b) = Present -> built = false /\ catalog b' = catalog b) /\
  (built = true -> idx (catalog b') = Present /\ in_flight b' = false /\ probe b' = now e) /\
  (build_probe_allowed (probe b) (now e) = true -> count_fault e = None -> state_fault e = None ->
   min_rows <= rows_embedded (catalog b) -> idx (catalog b) <> Present ->
   drop_concurrently e = NoFault \/ drop_plain e = NoFault -> (forall q, create e q = NoFault) ->
   built = true).
Proof.
  unfold maybe_build_vector_index, build_probe_within_backoff.
  destruct (build_probe_allowed (probe b) (now e)) eqn:Ea; cbn [negb]; [|by split_and!].
  unfold vector_index_state, index_state.
  destruct (count_fault e) as [er|]; [by split_and!|]. destruct (state_fault e) as [er|]; cbn [rbind]; [by split_and!|].
  destruct (idx (catalog b)) eqn:Ei; cbn [flag classify_index_state rbind].
  - destruct (Z.ltb_spec (rows_embedded (catalog b)) min_rows); cbn [orb is_present]; [split_and!; try done; lia|].
    unfold build_index, create_index. rewrite Ei.
    destruct (create e _) eqn:Ec; split_and!; try done; intros _ _ _ _ _ _ Hq; by rewrite Hq in Ec.
  - rewrite orb_true_r. by split_and!.
  - destruct (Z.ltb_spec (rows_embedded (catalog b)) min_rows); cbn [orb is_present]; [split_and!; try done; lia|].
    unfold build_index, run_ddl. destruct (drop_concurrently e); cbn [drop_index create_index idx];
      [|destruct (drop_plain e)|destruct (drop_plain e)]; cbn [drop_index create_index idx];
      try (destruct (create e _) eqn:Ec); split_and!; try done;
      intros _ _ _ _ _ Hd Hq; try (by rewrite Hq in Ec); by destruct Hd.
Qed.

(** The number of lists of the partitioned index is at least 100. *)
Lemma ivf_lists_bounds count : 100 <= ivf_lists count <= i32_max.
Proof.
  unfold ivf_lists. enough (f64_as_i32 (SFsqrt 53 1024 (f64_of_Z count)) <= i32_max) by (unfold i32_max in *; lia).
  unfold f64_as_i32, i32_max, i32_min. destruct (SFsqrt _ _ _) as [|s| |s m e]; try lia.
  - case_match; lia.
  - pose proof (clamp_bounds (- 2 ^ 31) (2 ^ 31 - 1)). case_match; apply H; lia.
Qed.
