(* ===== verification/EmbedPipeline.v ===== *)
(** * EmbedPipeline: embedding an archive's articles

    [src/embed/pipeline.rs]: the checks before a run, the claim of a batch of
    articles, the guard against rows that keep failing, the batch task and the
    run itself.  The claim loop and the batch tasks run concurrently, so a run
    is a step relation: the loop's phase, the tasks in flight, the articles
    and the failure counters.  Times are seconds. *)

From S2P Require Import Prelude RustStr Errors Floats JsonValue SettingDefs IpAddr NetGuard Auth StableSort Embed.

(** ** Before the run *)

Definition dimension_mismatch_error (stored client : Z) : Error :=
  Embedding ("embedding column is vector(" +:+ pretty stored +:+ ") but the configured model emits " +:+ pretty client
    +:+ "-dim vectors; change the model back, or clear existing vectors (e.g. `UPDATE articles SET embedding = NULL`) and `ALTER TABLE articles ALTER COLUMN embedding TYPE vector("
    +:+ pretty client +:+ ")`").

Record StartEnv := mkStartEnv {
  s_dns : Dns;
  s_built : result string unit;
  s_probe : option Error;
  s_count : option Error;
  s_alter : option Error;
  s_recheck : option Error
}.

(** Everything up to the first claim: the client, and the column reconciled. *)
Definition pipeline_start `{UrlApi} (env : StartEnv) (st : SettingsInner) (col : VectorColumn) :
    Result EmbedClient * VectorColumn :=
  match from_settings st with
  | None => (Err (Embedding "embedding not configured"), col)
  | Some c =>
      match resolve_download_host (s_dns env) (endpoint c) false true with
      | Err e => (Err e, col)
      | Ok pin =>
          match embed_client_new c pin (s_built env) with
          | Err e => (Err e, col)
          | Ok client =>
              let '(r, col) := ensure_vector_dimension (s_probe env) (s_count env) (s_alter env) (dimension c) col in
              match r with
              | Err e => (Err e, col)
              | Ok _ =>
                  match stored_embedding_dimension (s_recheck env) col with
                  | Err e => (Err e, col)
                  | Ok (Some stored) =>
                      if stored =? dimension c then (Ok client, col)
                      else (Err (dimension_mismatch_error stored (dimension c)), col)
                  | Ok None => (Ok client, col)
                  end
              end
          end
      end
  end.

(** ** The claim *)

Definition EMBED_CLAIM_LIMIT_CAP : Z := 100000.

(** [checked_mul] on [i64]. *)
Definition claim_limit_for (batch_size max_concurrency : Z) : Z :=
  let product := batch_size * max_concurrency in
  Z.min (if (i64_min <=? product) && (product <=? i64_max) then product else EMBED_CLAIM_LIMIT_CAP)
    EMBED_CLAIM_LIMIT_CAP.

Record Article := mkArticle {
  a_id : Z;
  a_zim : string;
  a_snippet : option string;
  a_preview : option string;
  a_vec : option string;
  a_model : option string;
  a_at : option Z
}.

Definition CLAIM_WINDOW : Z := 600.

(** [coalesce(snippet, '') || ' ' || coalesce(left(content_preview, 500), '')]. *)
Definition text_of (a : Article) : string :=
  default EmptyString (a_snippet a) +:+ " " +:+ default EmptyString (char_take 500 <$> a_preview a).

Definition claimable (zim : string) (now : Z) (a : Article) : bool :=
  String.eqb (a_zim a) zim && match a_vec a with None => true | Some _ => false end &&
  match a_at a with None => true | Some t => t <? now - CLAIM_WINDOW end.

Definition by_id (a b : Article) : bool := a_id a <=? a_id b.

Definition stamp (now : Z) (a : Article) : Article :=
  mkArticle (a_id a) (a_zim a) (a_snippet a) (a_preview a) (a_vec a) (a_model a) (Some now).

Definition claimed_rows (zim : string) (now limit : Z) (t : list Article) : list Article :=
  take (Z.to_nat limit) (sort_by by_id (List.filter (claimable zim now) t)).

(** The statement: the claimed articles stamped, and their ids and texts, in the
    order the database returns them. *)
Definition claim (returned : list Article -> list Article) (zim : string) (now limit : Z) (t : list Article) :
    list (Z * string) * list Article :=
  let rows := claimed_rows zim now limit t in
  let ids := a_id <$> rows in
  ((fun a => (a_id a, text_of a)) <$> returned rows,
   (fun a => if bool_decide (a_id a ∈ ids) then stamp now a else a) <$> t).

(** ** Rows that keep failing *)

Definition POISON_FAIL_MAX : Z := 3.
Definition POISON_FAIL_MAP_CAP : Z := 100000.

Definition fail_count (fails : gmap Z Z) (id : Z) : Z := default 0 (fails !! id).

Definition filter_poisoned_ids (fails : gmap Z Z) (ids : list Z) : option (list Z) * gmap Z Z :=
  let fails := if POISON_FAIL_MAP_CAP <? map_len fails then ∅ else fails in
  let kept := List.filter (fun id => fail_count fails id <? POISON_FAIL_MAX) ids in
  (match kept with [] => None | _ => Some kept end, fails).

(** [+= 1] on a [u32]. *)
Definition record_batch_failure (fails : gmap Z Z) (ids : list Z) : gmap Z Z :=
  foldl (fun m id => <[id := (fail_count m id + 1) mod 2 ^ 32]> m) fails ids.

Definition record_batch_success (fails : gmap Z Z) (ids : list Z) : gmap Z Z :=
  foldl (fun m id => delete id m) fails ids.

(** ** One batch *)

Definition store_guard (len_ids len_vecs : nat) : Result unit :=
  if Nat.eqb len_vecs len_ids then Ok tt
  else Err (Embedding ("embedding API returned " +:+ pretty (Z.of_nat len_vecs) +:+ " vectors for "
         +:+ pretty (Z.of_nat len_ids) +:+ " texts")).

Fixpoint value_rows (i : Z) (ids : list Z) : list string :=
  match ids with
  | [] => []
  | id :: ids' => ("(" +:+ pretty id +:+ ", $" +:+ pretty i +:+ ")") :: value_rows (i + 1) ids'
  end.

Definition bulk_update_sql (ids : list Z) : option string :=
  match ids with
  | [] => None
  | _ =>
      Some ("UPDATE articles a SET embedding = v.vec::vector, embed_model = $" +:+ pretty (Z.of_nat (length ids) + 1)
        +:+ ", embed_at = now() FROM (VALUES " +:+ str_join ", " (value_rows 1 ids)
        +:+ ") AS v(id, vec) WHERE a.id = v.id")
  end.

(** The statement's effect: [VALUES] pairs the ids with the vectors in order. *)
Definition store_vectors (now : Z) (model : string) (ids : list Z) (vecs : list string) (t : list Article) :
    list Article :=
  (fun a =>
     match List.find (fun iv => fst iv =? a_id a) (zip ids vecs) with
     | Some (_, v) => mkArticle (a_id a) (a_zim a) (a_snippet a) (a_preview a) (Some v) (Some model) (Some now)
     | None => a
     end) <$> t.

(** How a batch's request and statement end. *)
Inductive BatchOutcome := EmbedFailed (e : Error) | EmbedOk (vecs : list (list f32)) (write : Fault).

Definition finish_batch `{ShowF32} (now : Z) (model : string) (rows : list (Z * string)) (o : BatchOutcome)
    (t : list Article) (fails : gmap Z Z) : Result unit * list Article * gmap Z Z :=
  let ids := rows.*1 in
  match o with
  | EmbedFailed e => (Err e, t, record_batch_failure fails ids)
  | EmbedOk vecs write =>
      match store_guard (length ids) (length vecs) with
      | Err _ => (Ok tt, t, record_batch_failure fails ids)
      | Ok _ =>
          match bulk_update_sql ids with
          | None => (Ok tt, t, fails)
          | Some _ =>
              let t' := store_vectors now model ids (format_vector <$> vecs) t in
              match write with
              | NoFault => (Ok tt, t', record_batch_success fails ids)
              | Failed e => (Err e, t, record_batch_failure fails ids)
              | ReplyLost e => (Err e, t', record_batch_failure fails ids)
              end
          end
      end
  end.

(** ** The run *)

Inductive phase :=
| AtClaim
| Splitting (subs : list (list (Z * string))) (any_spawned : bool) (n_claimed : Z)
| Draining
| Stopped (e : Error).

Record Pipe := mkPipe {
  table : list Article;
  fails : gmap Z Z;
  ph : phase;
  pending : list (list (Z * string));
  outcomes : list (Result unit)
}.

Record PipeConfig := mkPipeConfig { zim : string; model_name : string; batch : Z; concurrency : Z }.

Definition pipe_limit (c : PipeConfig) : Z := claim_limit_for (batch c) (concurrency c).

(** The rows of a sub-batch the guard lets through. *)
Definition kept_rows (kept : list Z) (sub : list (Z * string)) : list (Z * string) :=
  List.filter (fun r => bool_decide (fst r ∈ kept)) sub.

(** One step of a run, at a time between [lo] and [hi]; [answers] is how a
    batch's request and statement may end.  A claim that fails may still have
    stamped its rows. *)
Inductive pstep `{ShowF32} (c : PipeConfig) (answers : list (Z * string) -> BatchOutcome -> Prop) (lo hi : Z) :
    Pipe -> Pipe -> Prop :=
| p_claim_failed s e : ph s = AtClaim ->
    pstep c answers lo hi s (mkPipe (table s) (fails s) (Stopped e) (pending s) (outcomes s))
| p_claim_lost s e now : ph s = AtClaim -> lo <= now <= hi ->
    pstep c answers lo hi s (mkPipe (snd (claim id (zim c) now (pipe_limit c) (table s))) (fails s) (Stopped e)
      (pending s) (outcomes s))
| p_claim s now returned rows t : ph s = AtClaim -> lo <= now <= hi -> (forall l, returned l ≡ₚ l) ->
    claim returned (zim c) now (pipe_limit c) (table s) = (rows, t) ->
    pstep c answers lo hi s (mkPipe t (fails s)
      (match rows with [] => Draining | _ => Splitting (chunks_of (Z.to_nat (batch c)) rows) false (Z.of_nat (length rows)) end)
      (pending s) (outcomes s))
| p_skip s sub subs any n m : ph s = Splitting (sub :: subs) any n ->
    filter_poisoned_ids (fails s) sub.*1 = (None, m) ->
    pstep c answers lo hi s (mkPipe (table s) m (Splitting subs any n) (pending s) (outcomes s))
| p_spawn s sub subs any n kept m : ph s = Splitting (sub :: subs) any n ->
    filter_poisoned_ids (fails s) sub.*1 = (Some kept, m) -> Z.of_nat (length (pending s)) < Z.max (concurrency c) 1 ->
    pstep c answers lo hi s (mkPipe (table s) m (Splitting subs true n) (kept_rows kept sub :: pending s) (outcomes s))
| p_again s n : ph s = Splitting [] true n -> pipe_limit c <= n ->
    pstep c answers lo hi s (mkPipe (table s) (fails s) AtClaim (pending s) (outcomes s))
| p_enough s any n : ph s = Splitting [] any n -> any = false \/ n < pipe_limit c ->
    pstep c answers lo hi s (mkPipe (table s) (fails s) Draining (pending s) (outcomes s))
| p_finish s now rows before after o r t m : pending s = before ++ rows :: after -> lo <= now <= hi -> answers rows o ->
    finish_batch now (model_name c) rows o (table s) (fails s) = (r, t, m) ->
    pstep c answers lo hi s (mkPipe t m (ph s) (before ++ after) (r :: outcomes s)).

Definition pipe_start (t : list Article) (fails : gmap Z Z) : Pipe := mkPipe t fails AtClaim [] [].


(** The run of an archive under a configuration (the batch size is one that the
    code's cast to [i64] keeps), and how its client answers a batch when [ep] is
    what the endpoint may answer a request with. *)
Definition pipe_config (zim : string) (c : EmbedConfig) : PipeConfig :=
  mkPipeConfig zim (Embed.model c) (batch_size c) (max_concurrency c).

Definition client_answers `{EmbedWire} (c : EmbedConfig) (ep : list string -> PostOutcome -> Prop)
    (rows : list (Z * string)) (o : BatchOutcome) : Prop :=
  exists post order, let chunks := chunks_of (Z.to_nat (batch_size c)) rows.*2 in
    (forall i texts, chunks !! i = Some texts -> ep texts (post i texts)) /\ order ≡ₚ seq 0 (length chunks) /\
    match embed c rows.*2 post order with
    | Some (Ok vecs) => exists w, o = EmbedOk vecs w
    | Some (Err e) => o = EmbedFailed e
    | None => False
    end.

(** ** Lemmas: termination *)







Lemma claimed_rows_in z now limit t a : a ∈ claimed_rows z now limit t -> a ∈ t /\ claimable z now a = true.
Proof.
  unfold claimed_rows. intros Ha. apply (elem_of_sublist _ (sort_by by_id (List.filter (claimable z now) t))) in Ha;
    [|apply sublist_take]. apply elem_of_sort_by, list_elem_of_In, filter_In in Ha as [Ha Hc].
  split; [by apply list_elem_of_In|done].
Qed.








(** ** Lemmas: rows in flight *)

(** The rows claimed and not yet done with: in a task, or still to be split. *)
Definition flight (s : Pipe) : list (Z * string) :=
  concat (pending s) ++ match ph s with Splitting subs _ _ => concat subs | _ => [] end.

(** A row of the table that a claim since [lo] has stamped. *)
Definition held (lo : Z) (t : list Article) (r : Z * string) : Prop :=
  exists a at_, a ∈ t /\ a_id a = fst r /\ text_of a = snd r /\ a_at a = Some at_ /\ lo <= at_.

Record flight_inv (lo : Z) (s : Pipe) : Prop := {
  fi_ids : NoDup (a_id <$> table s);
  fi_nodup : NoDup (flight s).*1;
  fi_held : forall r, r ∈ flight s -> held lo (table s) r
}.

Lemma submseteq_nodup {A} (l k : list A) : l ⊆+ k -> NoDup k -> NoDup l.
Proof. intros [k' ->]%submseteq_Permutation Hnd. by apply NoDup_app in Hnd as (? & _). Qed.

Lemma flight_inv_mono lo s s' : flight_inv lo s -> a_id <$> table s' = a_id <$> table s ->
  flight s' ⊆+ flight s -> (forall r, held lo (table s) r -> held lo (table s') r) -> flight_inv lo s'.
Proof.
  intros [H1 H2 H3] Hids Hsub Hh. split.
  - by rewrite Hids.
  - apply (fmap_submseteq fst) in Hsub. by eapply submseteq_nodup.
  - intros r Hr. apply Hh, H3. by eapply elem_of_submseteq.
Qed.

Lemma claim_keeps z now returned limit t rows t' : claim returned z now limit t = (rows, t') ->
  a_id <$> t' = a_id <$> t /\ text_of <$> t' = text_of <$> t /\
  forall lo r, lo <= now -> held lo t r -> held lo t' r.
Proof.
  intros [= _ <-]. split_and!.
  - rewrite <- list_fmap_compose. apply list_fmap_ext. intros i a _. cbn. by case_match.
  - rewrite <- list_fmap_compose. apply list_fmap_ext. intros i a _. cbn. by case_match.
  - intros lo r Hn (a & at_ & Ha & Hi & Ht & Hat & Hlo).
    destruct (bool_decide (a_id a ∈ a_id <$> claimed_rows z now limit t)) eqn:E.
    + exists (stamp now a), now. split_and!; try done. apply list_elem_of_fmap. exists a. by rewrite E.
    + exists a, at_. split_and!; try done. apply list_elem_of_fmap. exists a. by rewrite E.
Qed.

Lemma finish_keeps `{ShowF32} now model rows o t m r t' m' : finish_batch now model rows o t m = (r, t', m') ->
  a_id <$> t' = a_id <$> t /\ text_of <$> t' = text_of <$> t /\
  forall lo x, lo <= now -> held lo t x -> held lo t' x.
Proof.
  assert (Hs : forall ids vecs, a_id <$> store_vectors now model ids vecs t = a_id <$> t /\
    text_of <$> store_vectors now model ids vecs t = text_of <$> t /\
    forall lo x, lo <= now -> held lo t x -> held lo (store_vectors now model ids vecs t) x).
  { intros ids vecs. unfold store_vectors. split_and!.
    - rewrite <- list_fmap_compose. apply list_fmap_ext. intros i a _. cbn. case_match; [by case_match|done].
    - rewrite <- list_fmap_compose. apply list_fmap_ext. intros i a _. cbn. case_match; [by case_match|done].
    - intros lo x Hn (a & at_ & Ha & Hi & Ht & Hat & Hlo).
      destruct (List.find (fun iv => fst iv =? a_id a) (zip ids vecs)) as [[i v]|] eqn:E.
      + eexists _, now. split_and!; [apply list_elem_of_fmap; exists a; rewrite E; split; [reflexivity|done]|done..].
      + exists a, at_. split_and!; try done. apply list_elem_of_fmap. exists a. by rewrite E. }
  unfold finish_batch.
  destruct o as [e|vecs w]; [by intros [= _ <- _]|]. destruct (store_guard _ _); [|by intros [= _ <- _]].
  destruct (bulk_update_sql _); [|by intros [= _ <- _]]. destruct w; intros [= _ <- _]; auto.
Qed.

Lemma chunks_concat {A} fuel n (l : list A) : (0 < n)%nat -> (length l <= fuel)%nat -> concat (chunks_fuel fuel n l) = l.
Proof.
  intros Hn. revert l. induction fuel as [|fuel IH]; intros [|x l] Hl; cbn [chunks_fuel concat]; try done; [cbn in Hl; lia|].
  rewrite IH; [by rewrite take_drop|]. rewrite length_drop. cbn in *. lia.
Qed.

Lemma table_id_inj t a b : NoDup (a_id <$> t) -> a ∈ t -> b ∈ t -> a_id a = a_id b -> a = b.
Proof.
  intros Hnd [i Hi]%list_elem_of_lookup [j Hj]%list_elem_of_lookup E.
  assert (i = j) as ->; [|congruence].
  eapply NoDup_lookup; [exact Hnd|rewrite list_lookup_fmap, Hi; reflexivity|rewrite list_lookup_fmap, Hj; cbn; by rewrite E].
Qed.

Lemma claimed_rows_nodup z now limit t : NoDup (a_id <$> t) -> NoDup (a_id <$> claimed_rows z now limit t).
Proof.
  intros Hnd. unfold claimed_rows. eapply sublist_NoDup; [|apply (fmap_sublist a_id), sublist_take].
  rewrite sort_by_perm. eapply sublist_NoDup; [exact Hnd|]. apply (fmap_sublist a_id).
  clear. induction t as [|a t IH]; cbn; [done|]. destruct (claimable z now a); by constructor.
Qed.

Lemma claim_flight lo z now returned limit t rows t' s :
  lo <= now <= lo + CLAIM_WINDOW -> (forall l, returned l ≡ₚ l) -> claim returned z now limit t = (rows, t') ->
  flight_inv lo s -> table s = t -> ph s = AtClaim ->
  NoDup (concat (pending s) ++ rows).*1 /\ forall r, r ∈ concat (pending s) ++ rows -> held lo t' r.
Proof.
  intros Hn Hret Hc [H1 H2 H3] Ht Hp. pose proof Hc as Hk. apply claim_keeps in Hk as (_ & _ & Hkeep).
  injection Hc as <- <-. set (cl := claimed_rows z now limit t) in *.
  unfold flight in *. rewrite Hp, app_nil_r in *. rewrite Ht in *.
  assert (Hcl : ((fun a => (a_id a, text_of a)) <$> returned cl).*1 ≡ₚ a_id <$> cl).
  { rewrite <- list_fmap_compose. cbn. by rewrite (Hret cl). }
  split.
  - rewrite fmap_app, Hcl. apply NoDup_app. split_and!; [done| |by apply claimed_rows_nodup].
    intros i (r & -> & Hr)%list_elem_of_fmap (b & E & Hb)%list_elem_of_fmap.
    destruct (H3 r Hr) as (a & at_ & Ha & Hi & _ & Hat & Hlo). apply claimed_rows_in in Hb as [Hb Hcb].
    assert (a = b) as -> by (eapply table_id_inj; eauto; congruence).
    unfold claimable in Hcb. rewrite Hat in Hcb. apply andb_prop in Hcb as [_ Hcb]. lia.
  - intros r [Hr|Hr]%elem_of_app; [apply Hkeep; [lia|by apply H3]|].
    apply list_elem_of_fmap in Hr as (a & -> & Ha). rewrite (Hret cl) in Ha.
    apply claimed_rows_in in Ha as Ht'. destruct Ht' as [Ht' _].
    exists (stamp now a), now. split_and!; try done; [|lia]. apply list_elem_of_fmap. exists a.
    split; [|done]. rewrite bool_decide_true; [done|]. apply list_elem_of_fmap. by exists a.
Qed.

Lemma kept_rows_sub kept sub : kept_rows kept sub ⊆+ sub.
Proof.
  apply sublist_submseteq. induction sub as [|r sub IH]; cbn; [done|]. destruct (bool_decide _); by constructor.
Qed.

Lemma flight_inv_step `{ShowF32} c answers lo s s' : 0 < batch c -> flight_inv lo s ->
  pstep c answers lo (lo + CLAIM_WINDOW) s s' -> flight_inv lo s'.
Proof.
  intros Hb Hi Hstep.
  destruct Hstep as [s e Hp|s e now Hp Hn|s now returned rows t Hp Hn Hr Hc|s sub subs any n m Hp Hf|s sub subs any n kept m Hp Hf Hl|
    s n Hp Hl|s any n Hp Hl|s now rows before after o r t m Hp Hn Ha Hf].
  - eapply flight_inv_mono; [exact Hi|done| |done]. unfold flight. by rewrite Hp.
  - destruct (claim id (zim c) now (pipe_limit c) (table s)) as [rows t] eqn:Ec.
    apply claim_keeps in Ec as (Hids & _ & Hk).
    eapply flight_inv_mono; [exact Hi|done| |intros r; apply Hk; lia]. unfold flight. by rewrite Hp.
  - destruct (claim_flight lo _ now returned _ _ _ _ s ltac:(lia) Hr Hc Hi eq_refl Hp) as [Hnd Hh].
    apply claim_keeps in Hc as (Hids & _ & _).
    assert (Hfl : flight (mkPipe t (fails s) (match rows with [] => Draining | _ =>
      Splitting (chunks_of (Z.to_nat (batch c)) rows) false (Z.of_nat (length rows)) end) (pending s) (outcomes s)) =
      concat (pending s) ++ rows).
    { unfold flight. cbn [pending ph]. f_equal. destruct rows; [done|]. apply chunks_concat; lia. }
    split; cbn [table]; [by rewrite Hids; apply Hi|by rewrite Hfl|by rewrite Hfl].
  - eapply flight_inv_mono; [exact Hi|done| |done]. unfold flight. rewrite Hp. cbn.
    apply submseteq_app; [done|]. by apply submseteq_inserts_l.
  - eapply flight_inv_mono; [exact Hi|done| |done]. unfold flight. rewrite Hp. cbn.
    rewrite (Permutation_app_comm (kept_rows kept sub)), <- app_assoc.
    apply submseteq_app; [done|]. apply submseteq_app; [apply kept_rows_sub|done].
  - eapply flight_inv_mono; [exact Hi|done| |done]. unfold flight. by rewrite Hp.
  - eapply flight_inv_mono; [exact Hi|done| |done]. unfold flight. by rewrite Hp.
  - apply finish_keeps in Hf as (Hids & _ & Hk).
    eapply flight_inv_mono; [exact Hi|done| |intros x; apply Hk; lia]. unfold flight. cbn. rewrite Hp.
    apply submseteq_app; [|done]. rewrite !concat_app. cbn. apply submseteq_app; [done|]. by apply submseteq_inserts_l.
Qed.

(** ** Lemmas: vectors *)

(** Every vector in the table was there before, or is right for its text. *)
Definition vectors_ok (Good : string -> string -> Prop) (t0 t : list Article) : Prop :=
  forall a v, a ∈ t -> a_vec a = Some v ->
    (exists a0, a0 ∈ t0 /\ a_id a0 = a_id a /\ a_vec a0 = Some v) \/ Good (text_of a) v.

(** What the endpoint may answer a batch with, given what is right for a text. *)
Definition aligned `{ShowF32} (Good : string -> string -> Prop) (rows : list (Z * string)) (o : BatchOutcome) : Prop :=
  match o with
  | EmbedOk vecs _ => length vecs = length rows -> Forall2 (fun r v => Good (snd r) (format_vector v)) rows vecs
  | EmbedFailed _ => True
  end.

Lemma claim_vectors Good t0 z now returned limit t rows t' :
  claim returned z now limit t = (rows, t') -> vectors_ok Good t0 t -> vectors_ok Good t0 t'.
Proof.
  intros [= _ <-] Hv a v Ha Hav. apply list_elem_of_fmap in Ha as (b & -> & Hb).
  destruct (bool_decide _); [|by apply Hv]. apply (Hv b v Hb Hav).
Qed.

Lemma finish_vectors `{ShowF32} Good t0 lo now model rows o t m r t' m' :
  NoDup (a_id <$> t) -> (forall x, x ∈ rows -> held lo t x) -> aligned Good rows o ->
  finish_batch now model rows o t m = (r, t', m') -> vectors_ok Good t0 t -> vectors_ok Good t0 t'.
Proof.
  intros Hnd Hheld Hal Hf Hv. unfold finish_batch in Hf.
  destruct o as [e|vecs w]; [by injection Hf as _ <- _|]. unfold store_guard in Hf. cbn in Hal.
  rewrite length_fmap in Hf. destruct (Nat.eqb_spec (length vecs) (length rows)) as [Hl|]; [|by injection Hf as _ <- _].
  specialize (Hal Hl).
  assert (Hs : vectors_ok Good t0 (store_vectors now model rows.*1 (format_vector <$> vecs) t)).
  { intros a v Ha Hav. apply list_elem_of_fmap in Ha as (b & -> & Hb).
    destruct (List.find _ _) as [[i v']|] eqn:Ef; [|by apply Hv]. right.
    cbn in Hav. injection Hav as ->. apply find_some in Ef as [Hin Hi]. cbn in Hi. apply Z.eqb_eq in Hi as ->.
    apply list_elem_of_In, list_elem_of_lookup in Hin as [k Hk]. apply lookup_zip_Some in Hk as [Hk1 Hk2].
    rewrite list_lookup_fmap in Hk1. rewrite list_lookup_fmap in Hk2. destruct (rows !! k) as [row|] eqn:Er; [|done].
    destruct (vecs !! k) as [vec|] eqn:Ev; [|done]. cbn in Hk1, Hk2. injection Hk1 as Hid. injection Hk2 as <-.
    pose proof (Forall2_lookup_lr _ _ _ _ _ _ Hal Er Ev) as Hg. cbn in Hg.
    destruct (Hheld row) as (b' & at_ & Hb' & Hi' & Ht' & _); [by eapply list_elem_of_lookup_2|].
    assert (b = b') as <- by (eapply table_id_inj; eauto; congruence). by rewrite <- Ht' in Hg. }
  destruct (bulk_update_sql _); [|by injection Hf as _ <- _]. destruct w; by injection Hf as _ <- _.
Qed.

Lemma pstep_keeps `{ShowF32} c answers lo hi s s' : pstep c answers lo hi s s' ->
  a_id <$> table s' = a_id <$> table s /\ text_of <$> table s' = text_of <$> table s.
Proof.
  destruct 1 as [s e Hp|s e now Hp Hn|s now returned rows t Hp Hn Hr Hc|s sub subs any n m Hp Hf|s sub subs any n kept m Hp Hf Hl|
    s n Hp Hl|s any n Hp Hl|s now rows before after o r t m Hp Hn Ha Hf]; try done; cbn [table].
  - destruct (claim id (zim c) now (pipe_limit c) (table s)) as [rows t] eqn:Ec. by apply claim_keeps in Ec as (? & ? & _).
  - by apply claim_keeps in Hc as (? & ? & _).
  - by apply finish_keeps in Hf as (? & ? & _).
Qed.

Lemma pstep_vectors `{ShowF32} Good t0 c answers lo s s' : (forall rows o, rows ∈ pending s -> answers rows o -> aligned Good rows o) ->
  flight_inv lo s -> pstep c answers lo (lo + CLAIM_WINDOW) s s' ->
  vectors_ok Good t0 (table s) -> vectors_ok Good t0 (table s').
Proof.
  intros Hal Hi Hstep Hv.
  destruct Hstep as [s e Hp|s e now Hp Hn|s now returned rows t Hp Hn Hr Hc|s sub subs any n m Hp Hf|s sub subs any n kept m Hp Hf Hl|
    s n Hp Hl|s any n Hp Hl|s now rows before after o r t m Hp Hn Ha Hf]; try done; cbn [table].
  - destruct (claim id (zim c) now (pipe_limit c) (table s)) as [rows t] eqn:Ec. by eapply claim_vectors.
  - by eapply claim_vectors.
  - eapply (finish_vectors _ _ lo); [apply Hi| |apply (Hal rows o); [rewrite Hp; set_solver|done]|exact Hf|done].
    intros x Hx. apply Hi. unfold flight. rewrite Hp, concat_app. cbn. set_solver.
Qed.

(** ** Lemmas: the client's answers *)

(** Batches are no longer than the batch size. *)
Definition sized (c : PipeConfig) (s : Pipe) : Prop :=
  Forall (fun b => Z.of_nat (length b) <= batch c) (pending s) /\
  match ph s with Splitting subs _ _ => Forall (fun b => Z.of_nat (length b) <= batch c) subs | _ => True end.

Lemma chunks_fuel_sized {A} fuel n (l : list A) : Forall (fun b => (length b <= n)%nat) (chunks_fuel fuel n l).
Proof.
  revert l. induction fuel as [|fuel IH]; intros [|x l]; cbn [chunks_fuel]; try constructor; [|apply IH]. rewrite length_take. lia.
Qed.

Lemma sized_step `{ShowF32} c answers lo hi s s' : 0 < batch c -> sized c s -> pstep c answers lo hi s s' -> sized c s'.
Proof.
  intros Hb [Hs Hp0] Hstep. unfold sized.
  destruct Hstep as [s e Hp|s e now Hp Hn|s now returned rows t Hp Hn Hr Hc|s sub subs any n m Hp Hf|s sub subs any n kept m Hp Hf Hl|
    s n Hp Hl|s any n Hp Hl|s now rows before after o r t m Hp Hn Ha Hf]; cbn [pending ph]; rewrite ?Hp in *; try done.
  - split; [done|]. destruct rows as [|x rows]; [done|]. eapply Forall_impl; [apply chunks_fuel_sized|]. cbn. intros b Hlb. lia.
  - by apply Forall_cons in Hp0 as [_ ?].
  - apply Forall_cons in Hp0 as [Hsub Hp0]. split; [|done]. constructor; [|done].
    pose proof (submseteq_length _ _ (kept_rows_sub kept sub)). lia.
  - apply Forall_app in Hs as [H1 H2%Forall_cons]. split; [|done]. apply Forall_app. by destruct H2.
Qed.

(** The vector the endpoint labelled with the text's position, in an answer to
    a request that held the text. *)
Definition labelled `{EmbedWire, ShowF32} (ep : list string -> PostOutcome -> Prop) (text vec : string) : Prop :=
  exists texts (i : nat) out data v, ep texts out /\ texts !! i = Some text /\ read_reply out = Ok data /\
    mkEmbedData (Z.of_nat i) v ∈ data /\ (forall d, d ∈ data -> index d = Z.of_nat i -> embedding d = v) /\
    vec = format_vector v.

(** A batch fits one request, so its vectors line up with its texts. *)
Lemma client_aligned `{EmbedWire, ShowF32} c ep rows o : Z.of_nat (length rows) <= batch_size c ->
  client_answers c ep rows o -> aligned (labelled ep) rows o.
Proof.
  intros Hlen (post & order & Hep & Hord & He). destruct o as [e|vecs w]; [done|]. cbn. intros Hl.
  destruct rows as [|row rows]; [by destruct vecs|]. set (texts := (row :: rows).*2) in *.
  assert (Hc : chunks_of (Z.to_nat (batch_size c)) texts = [texts]).
  { apply chunks_of_one; [done|]. unfold texts. rewrite length_fmap. lia. }
  rewrite Hc in Hord, Hep. destruct (embed c texts post order) as [[vecs'|e]|] eqn:Em; [|done..].
  destruct He as [w' [= <- <-]].
  destruct (one_chunk_aligned c texts post order vecs) as (data & Hr & Hall);
    [done|unfold texts; rewrite length_fmap; lia|done|done|unfold texts; by rewrite length_fmap|].
  apply Forall2_same_length_lookup_2; [done|]. intros i r v Hri Hvi.
  destruct (Hall i) as (v' & Hv' & Hin & Hu); [unfold texts; rewrite length_fmap; by eapply lookup_lt_Some|].
  assert (v' = v) as -> by congruence. exists texts, i, (post 0%nat texts), data, v.
  split_and!; try done; [by apply Hep|]. unfold texts. by rewrite list_lookup_fmap, Hri.
Qed.

Lemma settings_batch st c : from_settings st = Some c -> 0 < batch_size c /\ 1 <= max_concurrency c.
Proof.
  unfold from_settings. destruct (get_typed TString KEY_EMBEDDING_ENDPOINT st) as [ep|]; cbn; [|done].
  destruct (str_is_empty ep); [done|]. intros [= <-]. cbn. lia.
Qed.


(** ** Theorems *)

(** C13: a run stores the right vectors. Take a run of an archive configured
    from the settings over articles with distinct ids that nothing else writes
    meanwhile, and let it last no longer than the claim window. Whatever the
    endpoint answers, whatever order batches are claimed, answered and written
    in and whichever of them fail: no article is in two batches at once, ids and
    texts are untouched, and every vector in the table was there before the run
    or is the one that the endpoint, in an answer to a request holding this
    article's text, labelled with the position of that text. (A batch is one
    request: across requests the positions would not line up, see
    [Embed.chunk_counts_can_cancel].) *)
Theorem run_stores_right_vectors `{EmbedWire, ShowF32} st ec z (ep : list string -> PostOutcome -> Prop) lo t fails0 s :
  from_settings st = Some ec -> NoDup (a_id <$> t) ->
  rtc (pstep (pipe_config z ec) (client_answers ec ep) lo (lo + CLAIM_WINDOW)) (pipe_start t fails0) s ->
  NoDup (concat (pending s)).*1 /\ a_id <$> table s = a_id <$> t /\ text_of <$> table s = text_of <$> t /\
  vectors_ok (labelled ep) t (table s).
Proof.
  intros Hec Hnd Hr. destruct (settings_batch st ec Hec) as [Hb _]. set (c := pipe_config z ec) in *.
  assert (Hf0 : flight_inv lo (pipe_start t fails0)) by (split; cbn; [done|constructor|intros r []%elem_of_nil]).
  assert (Hz0 : sized c (pipe_start t fails0)) by (split; [constructor|done]).
  assert (Hv0 : vectors_ok (labelled ep) t (table (pipe_start t fails0))) by (intros a v Ha Hav; left; by exists a).
  assert (Hk0 : a_id <$> table (pipe_start t fails0) = a_id <$> t /\ text_of <$> table (pipe_start t fails0) = text_of <$> t)
    by done.
  revert Hf0 Hz0 Hv0 Hk0. generalize (pipe_start t fails0) Hr. clear Hr. intros s0 Hr.
  induction Hr as [s|s1 s2 s3 H12 Hr IH]; intros Hi Hz Hv [K1 K2].
  - split_and!; try done. destruct Hi as [_ Hn _]. unfold flight in Hn. rewrite fmap_app in Hn.
    by apply NoDup_app in Hn as (? & _).
  - apply IH; [by apply (flight_inv_step c _ _ _ _ Hb Hi H12)|by apply (sized_step c _ _ _ _ _ Hb Hz H12)| |apply pstep_keeps in H12 as [-> ->]; done].
    eapply pstep_vectors; [|exact Hi|exact H12|done]. intros rows o Hin. apply client_aligned.
    destruct Hz as [Hz _]. rewrite Forall_forall in Hz. by apply (Hz rows).
Qed.




(** ** A small run *)

Definition show_zeros : ShowF32 := {| show_f32_7 _ := "0.0000000" |}.
#[local] Existing Instance show_zeros.

(** One article, claimed, sent, answered and stored; the endpoint gives every
    text the same vector. *)
#[local] Instance small_wire : EmbedWire := wire_of [("one", [mkEmbedData 0 [f32_zero]])].
Definition small_settings : SettingsInner :=
  init_inner (list_to_map [(KEY_EMBEDDING_ENDPOINT, JString "http://localhost"); (KEY_EMBEDDING_MODEL, JString "m");
    (KEY_EMBEDDING_BATCH_SIZE, JNumber (PosInt 1)); (KEY_EMBEDDING_MAX_CONCURRENCY, JNumber (PosInt 1))]) None ∅.
Definition small_config : EmbedConfig := default (mkEmbedConfig EmptyString EmptyString EmptyString 0 0 0 0) (from_settings small_settings).
Definition small_endpoint (texts : list string) (o : PostOutcome) : Prop := o = Reply None (Ok "one").
Definition small_table : list Article := [mkArticle 1 "en" (Some "s") None None None None].
Definition small_end : Pipe :=
  mkPipe [mkArticle 1 "en" (Some "s") None (Some "[0.0000000]") (Some "m") (Some 1000)] ∅ (Splitting [] true 1) [] [Ok tt].

Definition small_stamped : list Article := [mkArticle 1 "en" (Some "s") None None None (Some 1000)].
Definition small_split : Pipe := mkPipe small_stamped ∅ (Splitting [[(1, "s ")]] false 1) [] [].
Definition small_sent : Pipe := mkPipe small_stamped ∅ (Splitting [] true 1) [[(1, "s ")]] [].

Lemma small_run : nsteps (pstep (pipe_config "en" small_config) (client_answers small_config small_endpoint) 1000 (1000 + CLAIM_WINDOW)) 3
  (pipe_start small_table ∅) small_end.
Proof.
  apply (nsteps_l _ _ _ small_split).
  { apply (p_claim (pipe_config "en" small_config) _ 1000 (1000 + CLAIM_WINDOW) (pipe_start small_table ∅) 1000 (fun l => l)
      [(1, "s ")] small_stamped); [done|unfold CLAIM_WINDOW; lia|done|vm_compute; reflexivity]. }
  apply (nsteps_l _ _ _ small_sent).
  { apply (p_spawn (pipe_config "en" small_config) _ 1000 (1000 + CLAIM_WINDOW) small_split [(1, "s ")] [] false 1 [1] ∅);
      [reflexivity|vm_compute; reflexivity|vm_compute; reflexivity]. }
  apply nsteps_once.
  apply (p_finish (pipe_config "en" small_config) _ 1000 (1000 + CLAIM_WINDOW) small_sent 1000 [(1, "s ")] [] []
    (EmbedOk [[f32_zero]] NoFault) (Ok tt) (table small_end) ∅);
    [reflexivity|unfold CLAIM_WINDOW; lia| |vm_compute; reflexivity].
  exists (fun _ _ => Reply None (Ok "one")), [0%nat]. cbn zeta. split; [by intros|]. split; [vm_compute; reflexivity|].
  vm_compute. by eexists.
Qed.

Lemma run_stores_right_vectors_witness :
  NoDup (concat (pending small_end)).*1 /\ vectors_ok (labelled small_endpoint) small_table (table small_end).
Proof.
  destruct (run_stores_right_vectors small_settings small_config "en" small_endpoint 1000 small_table ∅
    small_end) as (H1 & _ & _ & H2); [vm_compute; reflexivity|apply NoDup_singleton|apply (rtc_nsteps_2 3), small_run|by split].
Defined.


(** ** Rows that keep failing *)

Lemma fail_count_insert m i v j : fail_count (<[i := v]> m) j = if decide (i = j) then v else fail_count m j.
Proof.
  unfold fail_count. destruct (decide (i = j)) as [->|]; [by rewrite lookup_insert_eq|by rewrite lookup_insert_ne].
Qed.

Lemma fail_count_batch m ids i : NoDup ids -> 0 <= fail_count m i < 2 ^ 32 - 1 ->
  fail_count (record_batch_failure m ids) i = fail_count m i + (if decide (i ∈ ids) then 1 else 0).
Proof.
  intros Hnd. revert m. induction Hnd as [|x ids Hx Hnd IH]; intros m Hm; cbn.
  - rewrite decide_False by apply not_elem_of_nil. lia.
  - destruct (decide (x = i)) as [->|Hn].
    + rewrite decide_True by by left.
      assert (E : forall l m', i ∉ l -> fail_count (record_batch_failure m' l) i = fail_count m' i).
      { clear. induction l as [|y l IH]; intros m' Hy; [done|]. cbn. rewrite IH by set_solver.
        rewrite fail_count_insert, decide_False by set_solver. done. }
      change (foldl _ ?m0 ids) with (record_batch_failure m0 ids). rewrite E by done.
      rewrite fail_count_insert, decide_True by done. rewrite Z.mod_small; lia.
    + change (foldl _ ?m0 ids) with (record_batch_failure m0 ids).
      rewrite IH by (rewrite fail_count_insert, decide_False by done; lia).
      rewrite fail_count_insert, decide_False by done.
      destruct (decide (i ∈ ids)) as [Hi|Hi].
      * by rewrite decide_True by by right.
      * by rewrite decide_False by (by intros [?|?]%elem_of_cons).
Qed.

(** A row that keeps failing is given up on, and only such a row: after [n]
    failed batches that held it the guard sends it again exactly when [n] is
    below three (unless the counters overflowed their cap and were cleared),
    and a batch stored successfully wipes its rows' counts. *)
Theorem failing_row_is_given_up (id : Z) (batches : list (list Z)) (ids : list Z) :
  id ∈ ids -> Forall (fun b => NoDup b /\ id ∈ b) batches -> Z.of_nat (length batches) < 2 ^ 32 - 1 ->
  let m := foldl record_batch_failure ∅ batches in
  (map_len m <= POISON_FAIL_MAP_CAP ->
   (exists kept, fst (filter_poisoned_ids m ids) = Some kept /\ id ∈ kept) <-> Z.of_nat (length batches) < POISON_FAIL_MAX) /\
  (forall b, id ∈ b -> fail_count (record_batch_success m b) id = 0).
Proof.
  intros Hin Hb Hlen. cbn zeta.
  assert (Hc : forall m, fail_count m id + Z.of_nat (length batches) < 2 ^ 32 - 1 -> 0 <= fail_count m id ->
    fail_count (foldl record_batch_failure m batches) id = fail_count m id + Z.of_nat (length batches)).
  { clear Hlen. induction Hb as [|b bs [Hnd Hi] _ IH]; intros m Hm H0; cbn [length foldl] in *; [lia|].
    assert (E : fail_count (record_batch_failure m b) id = fail_count m id + 1)
      by (rewrite fail_count_batch by (done || lia); by rewrite decide_True).
    rewrite IH; rewrite E; lia. }
  specialize (Hc ∅ ltac:(unfold fail_count; rewrite lookup_empty; cbn; lia) ltac:(unfold fail_count; by rewrite lookup_empty)).
  unfold fail_count at 2 in Hc. rewrite lookup_empty in Hc. cbn [default] in Hc.
  set (m := foldl record_batch_failure ∅ batches) in *. split.
  - intros Hcap. unfold filter_poisoned_ids. replace (POISON_FAIL_MAP_CAP <? map_len m) with false by lia. cbn [fst].
    set (kept := List.filter _ ids).
    assert (Hk : id ∈ kept <-> Z.of_nat (length batches) < POISON_FAIL_MAX).
    { unfold kept. rewrite list_elem_of_In, filter_In, Hc, Z.ltb_lt, <- list_elem_of_In. cbn. intuition. }
    rewrite <- Hk. split.
    + intros (k & E & Hi). by destruct kept; [|injection E as ->].
    + intros Hi. destruct kept as [|x kept]; [by apply elem_of_nil in Hi|]. by exists (x :: kept).
  - intros b Hi. unfold fail_count, record_batch_success. clear Hc. clearbody m. revert m. induction b as [|x b IH]; intros m; cbn.
    + by apply elem_of_nil in Hi.
    + destruct (decide (id ∈ b)) as [Hib|Hib]; [by apply IH|]. apply elem_of_cons in Hi as [<-|]; [|done].
      assert (E : forall (l : list Z) (m' : gmap Z Z), m' !! id = None -> foldl (fun m i => delete i m) m' l !! id = None).
      { clear. induction l as [|y l IH]; intros m' Hm; cbn; [done|]. apply IH. by apply lookup_delete_None; right. }
      by rewrite E by apply lookup_delete_eq.
Qed.

Lemma failing_row_is_given_up_witness :
  fst (filter_poisoned_ids (foldl record_batch_failure ∅ [[7; 8]; [7]; [9; 7]]) [7; 8]) = Some [8] /\
  fail_count (record_batch_success (foldl record_batch_failure ∅ [[7; 8]; [7]; [9; 7]]) [7]) 7 = 0.
Proof.
  split; [vm_compute; reflexivity|].
  apply (failing_row_is_given_up 7 [[7; 8]; [7]; [9; 7]] [7; 8]); [by left| |cbn; lia|by left].
  repeat constructor; by apply (bool_decide_unpack _).
Defined.

(** A run starts only against a column of the model's dimension, and never
    alters a column that holds vectors; when it does not start, no row has been
    claimed. *)
Theorem run_starts_with_matching_column `{UrlApi} (env : StartEnv) (st : SettingsInner) (col col' : VectorColumn)
    (r : Result EmbedClient) :
  pipeline_start env st col = (r, col') ->
  (0 < stored_vectors col -> col' = col) /\
  (forall client, r = Ok client -> from_settings st = Some (config client) /\
     exists d, col_dim col' = Some d /\ d mod 2 ^ 32 = dimension (config client)).
Proof.
  unfold pipeline_start. destruct (from_settings st) as [c|]; [|by intros [= <- <-]].
  destruct (resolve_download_host _ _ _ _) as [pin|]; [|by intros [= <- <-]].
  destruct (embed_client_new c pin (s_built env)) as [client|] eqn:En; [|by intros [= <- <-]].
  assert (Hc : config client = c).
  { unfold embed_client_new in En. apply rbind_ok in En as (b & _ & En). destruct (s_built env); [|done]. by injection En as <-. }
  destruct (ensure_vector_dimension _ _ _ _ _) as [r1 col1] eqn:Ee.
  assert (Hk : (0 < stored_vectors col -> col1 = col) /\ (r1 = Ok tt -> exists d, col_dim col1 = Some d)).
  { unfold ensure_vector_dimension, stored_embedding_dimension in Ee.
    destruct (s_probe env); [by injection Ee as <- <-|]. destruct (col_dim col) as [d|] eqn:Ed; [|by injection Ee as <- <-].
    cbn in Ee. destruct (Z.eqb _ _); [injection Ee as <- <-; split; [done|eauto]|].
    destruct (s_count env); [by injection Ee as <- <-|].
    destruct (Z.ltb_spec 0 (stored_vectors col)); [injection Ee as <- <-; split; [done|eauto]|].
    destruct (s_alter env); injection Ee as <- <-; split; [lia|done|lia|eauto]. }
  destruct Hk as [Hk1 Hk2]. destruct r1 as [[]|]; [|intros [= <- <-]; split; [done|done]].
  destruct (Hk2 eq_refl) as [d Hd]. unfold stored_embedding_dimension. rewrite Hd.
  destruct (s_recheck env); cbn; [intros [= <- <-]; by split|].
  destruct (Z.eqb_spec (d mod 2 ^ 32) (dimension c)); intros [= <- <-]; (split; [done|]); [|done].
  intros ? [= <-]. rewrite Hc. split; [done|]. by exists d.
Qed.
