(* ===== verification/ZimManager.v ===== *)
(** * ZimManager: the catalog of archives

    [src/zim/mod.rs], with [populate_zims] of [src/startup/mod.rs] and the list
    handler of [src/serve/handlers/zims.rs]: the cache of archive metadata, its
    reconciliation with the directory and with the [zims] table, the integrity
    record, and the cache of open archives.  The table is a map of rows with its
    id sequence; every statement has a [Fault].  The columns no code reads back
    ([file_mtime], [updated_at]) are left out.  The date library is the class
    [Chrono]. *)

From stdpp Require Import sorting.
From S2P Require Import Prelude RustStr Errors Floats Files Direct Discovery.

Class Chrono := {
  NaiveDate : Type;
  date_string : NaiveDate -> string;
  date_parse : string -> string -> option NaiveDate;
  datetime_parse : string -> string -> option NaiveDate;
  date_string_parse d : date_parse (date_string d) "%Y-%m-%d" = Some d
}.

(** [r.map(f)]. *)
Definition rmap {A B} (f : A -> B) (r : Result A) : Result B :=
  match r with Ok a => Ok (f a) | Err e => Err e end.

(** [ORDER BY name]. *)
Definition key_le {V} (a b : string * V) : Prop := String.leb (fst a) (fst b) = true.

#[global] Instance key_le_dec {V} (a b : string * V) : Decision (key_le a b).
Proof. unfold key_le. apply _. Defined.

Definition MAX_OPEN_ZIMS : Z := 16.
Definition STAT_TTL_MS : Z := 30000.

(** [x as i64] and [x as u64]'s counterpart for corrupt columns. *)
Definition u64_as_i64 (x : Z) : Z := if x <=? i64_max then x else x - 2 ^ 64.
Definition count_u64 (v : Z) : Z := if 0 <=? v then v else 0.

Record ZimMeta := mkMeta {
  m_id : option Z;
  m_name : string;
  m_display_title : string;
  m_description : option string;
  m_language : string;
  m_creator : option string;
  m_publisher : option string;
  m_date : option string;
  m_entry_count : Z;
  m_article_count : Z;
  m_file_path : string;
  m_file_size : Z;
  m_category : option string;
  m_index_status : string;
  m_index_progress : f64;
  m_indexed_entries : Z;
  m_embed_enabled : bool;
  m_content_sha256 : option string;
  m_publisher_sha256 : option string;
  m_digest_drift : bool
}.

#[global] Instance ZimMeta_eq_dec : EqDecision ZimMeta.
Proof. solve_decision. Defined.

(** [name.replace('_', " ")]. *)
Fixpoint underscores_to_spaces (s : string) : string :=
  match s with
  | EmptyString => EmptyString
  | String c s' => String (if Ascii.eqb c "_"%char then " "%char else c) (underscores_to_spaces s')
  end.

Definition stub (name file_path : string) (file_size : Z) : ZimMeta :=
  mkMeta None name (underscores_to_spaces name) None "en" None None None 0 0 file_path file_size None
    "pending" f64_zero 0 true None None false.

Definition with_id (id : Z) (m : ZimMeta) : ZimMeta :=
  mkMeta (Some id) (m_name m) (m_display_title m) (m_description m) (m_language m) (m_creator m)
    (m_publisher m) (m_date m) (m_entry_count m) (m_article_count m) (m_file_path m) (m_file_size m)
    (m_category m) (m_index_status m) (m_index_progress m) (m_indexed_entries m) (m_embed_enabled m)
    (m_content_sha256 m) (m_publisher_sha256 m) (m_digest_drift m).

Definition with_file (path : string) (size : Z) (m : ZimMeta) : ZimMeta :=
  mkMeta (m_id m) (m_name m) (m_display_title m) (m_description m) (m_language m) (m_creator m)
    (m_publisher m) (m_date m) (m_entry_count m) (m_article_count m) path size
    (m_category m) (m_index_status m) (m_index_progress m) (m_indexed_entries m) (m_embed_enabled m)
    (m_content_sha256 m) (m_publisher_sha256 m) (m_digest_drift m).

Definition with_index (status : string) (progress : f64) (m : ZimMeta) : ZimMeta :=
  mkMeta (m_id m) (m_name m) (m_display_title m) (m_description m) (m_language m) (m_creator m)
    (m_publisher m) (m_date m) (m_entry_count m) (m_article_count m) (m_file_path m) (m_file_size m)
    (m_category m) status progress (m_indexed_entries m) (m_embed_enabled m)
    (m_content_sha256 m) (m_publisher_sha256 m) (m_digest_drift m).

Definition with_digests (content publisher : option string) (drift : bool) (m : ZimMeta) : ZimMeta :=
  mkMeta (m_id m) (m_name m) (m_display_title m) (m_description m) (m_language m) (m_creator m)
    (m_publisher m) (m_date m) (m_entry_count m) (m_article_count m) (m_file_path m) (m_file_size m)
    (m_category m) (m_index_status m) (m_index_progress m) (m_indexed_entries m) (m_embed_enabled m)
    content publisher drift.

Section Manager.
Context {Ch : Chrono} {Archive : Type}.

(** ** The table *)

Record ZimRow := mkZimRow {
  r_id : Z;
  r_name : string;
  r_display_title : string;
  r_description : option string;
  r_language : string;
  r_creator : option string;
  r_publisher : option string;
  r_date : option NaiveDate;
  r_entry_count : Z;
  r_article_count : Z;
  r_file_path : string;
  r_file_size : Z;
  r_category : option string;
  r_index_status : string;
  r_index_progress : f32;
  r_indexed_entries : Z;
  r_embed_enabled : bool;
  r_content_sha256 : option string;
  r_publisher_sha256 : option string;
  r_digest_drift : bool
}.

Record ZimsTable := mkZims { zrows : gmap string ZimRow; zseq : Z }.

(** The row the upsert writes. *)
Definition row_of (id : Z) (m : ZimMeta) : ZimRow :=
  mkZimRow id (m_name m) (m_display_title m) (m_description m) (m_language m) (m_creator m) (m_publisher m)
    (m_date m ≫= fun s => date_parse s "%Y-%m-%d") (u64_as_i64 (m_entry_count m))
    (u64_as_i64 (m_article_count m)) (m_file_path m) (u64_as_i64 (m_file_size m)) (m_category m)
    (m_index_status m) (f64_to_f32 (m_index_progress m)) (u64_as_i64 (m_indexed_entries m))
    (m_embed_enabled m) (m_content_sha256 m) (m_publisher_sha256 m) (m_digest_drift m).

(** The metadata a row gives. *)
Definition meta_of (r : ZimRow) : ZimMeta :=
  mkMeta (Some (r_id r)) (r_name r) (r_display_title r) (r_description r) (r_language r) (r_creator r)
    (r_publisher r) (date_string <$> r_date r) (count_u64 (r_entry_count r)) (count_u64 (r_article_count r))
    (r_file_path r) (count_u64 (r_file_size r)) (r_category r) (r_index_status r)
    (f32_to_f64 (r_index_progress r)) (count_u64 (r_indexed_entries r)) (r_embed_enabled r)
    (r_content_sha256 r) (r_publisher_sha256 r) (r_digest_drift r).

(** [INSERT .. ON CONFLICT (name) DO UPDATE .. RETURNING id]: a conflict keeps
    the row's id, and the sequence advances in either case. *)
Definition upsert (m : ZimMeta) (t : ZimsTable) : Z * ZimsTable :=
  let id := match zrows t !! m_name m with Some r => r_id r | None => zseq t end in
  (id, mkZims (<[m_name m := row_of id m]> (zrows t)) (zseq t + 1)).

Definition delete_row (name : string) (t : ZimsTable) : ZimsTable := mkZims (delete name (zrows t)) (zseq t).

(** A statement that returns [A]. *)
Definition run_zims {A} (f : Fault) (stmt : ZimsTable -> A * ZimsTable) (t : ZimsTable) : Result A * ZimsTable :=
  match f with
  | NoFault => let '(a, t') := stmt t in (Ok a, t')
  | Failed e => (Err e, t)
  | ReplyLost e => (Err e, snd (stmt t))
  end.

(** ** The manager *)

Record CachedZim := mkCached {
  c_zim : Archive;
  c_mtime : option Z;
  c_size : Z;
  last_access : Z;
  last_stat : Z
}.

Record ZimManager := mkManager {
  cache : gmap string ZimMeta;
  open_handles : gmap string CachedZim;
  next_seq : Z;
  scan_snapshot : gmap string (Z * Z * string)
}.

Definition set_cache (c : gmap string ZimMeta) (z : ZimManager) : ZimManager :=
  mkManager c (open_handles z) (next_seq z) (scan_snapshot z).
Definition set_handles (h : gmap string CachedZim) (z : ZimManager) : ZimManager :=
  mkManager (cache z) h (next_seq z) (scan_snapshot z).
Definition set_snapshot (s : gmap string (Z * Z * string)) (z : ZimManager) : ZimManager :=
  mkManager (cache z) (open_handles z) (next_seq z) s.

Definition new : ZimManager := mkManager ∅ ∅ 0 ∅.

Definition scan_names (found : list ScanEntry) : list string := (fun e => fst (fst e)) <$> found.

Definition scan (scanned : Result (list ScanEntry)) (z : ZimManager) : Result (list string) * ZimManager :=
  match scanned with
  | Err e => (Err e, z)
  | Ok entries =>
      (Ok (scan_names entries),
       set_cache
         (foldl (fun c (e : ScanEntry) =>
            let '(name, path, meta) := e in
            match c !! name with
            | Some _ => c
            | None => <[name := stub name path (default 0 (snd <$> meta))]> c
            end) (cache z) entries) z)
  end.

Section Listing.
Context {Hi : HashIter string ZimMeta}.

Definition list_zim_metas (z : ZimManager) : list ZimMeta := (hash_iter (cache z)).*2.
Definition list_names (z : ZimManager) : list string := m_name <$> list_zim_metas z.
Definition list_id_names (z : ZimManager) : list (option Z * string) :=
  (fun m => (m_id m, m_name m)) <$> list_zim_metas z.
Definition list_name_dates (z : ZimManager) : list (string * option string) :=
  (fun m => (m_name m, m_date m)) <$> list_zim_metas z.
Definition list_embed_enabled_names (z : ZimManager) : list string :=
  m_name <$> List.filter m_embed_enabled (list_zim_metas z).

(** The sum wraps at the width of [i64], as the release build does. *)
Definition wrap_i64 (x : Z) : Z := u64_as_i64 (x mod 2 ^ 64).
Definition summary (z : ZimManager) : Z * Z :=
  (map_len (cache z), foldl (fun t m => wrap_i64 (t + u64_as_i64 (m_indexed_entries m))) 0 (list_zim_metas z)).

(** [GET /list]. *)
Definition list_zims (authenticated : bool) (z : ZimManager) : list ZimMeta :=
  if authenticated then list_zim_metas z
  else (fun m => with_file "[redacted]" (m_file_size m) m) <$> list_zim_metas z.

End Listing.

Definition get (name : string) (z : ZimManager) : option ZimMeta := cache z !! name.
Definition file_path_of (name : string) (z : ZimManager) : option string := m_file_path <$> cache z !! name.
Definition is_known (name : string) (z : ZimManager) : bool := bool_decide (is_Some (cache z !! name)).

Definition persist_to_db (f : Fault) (meta : ZimMeta) (st : ZimManager * ZimsTable) :
    Result unit * (ZimManager * ZimsTable) :=
  let '(z, t) := st in
  match run_zims f (upsert meta) t with
  | (Err e, t') => (Err e, (z, t'))
  | (Ok id, t') => (Ok tt, (set_cache (alter (with_id id) (m_name meta) (cache z)) z, t'))
  end.

Definition set_content_sha256 (f : Fault) (name sha256 : string) (publisher : option string) (drift : bool)
    (st : ZimManager * ZimsTable) : Result unit * (ZimManager * ZimsTable) :=
  let '(z, t) := st in
  let z' := set_cache (alter (fun m =>
    with_digests (Some sha256) (match publisher with Some p => Some p | None => m_publisher_sha256 m end) drift m)
    name (cache z)) z in
  let write r := mkZimRow (r_id r) (r_name r) (r_display_title r) (r_description r) (r_language r) (r_creator r)
    (r_publisher r) (r_date r) (r_entry_count r) (r_article_count r) (r_file_path r) (r_file_size r)
    (r_category r) (r_index_status r) (r_index_progress r) (r_indexed_entries r) (r_embed_enabled r)
    (Some sha256) (match publisher with Some p => Some p | None => r_publisher_sha256 r end) drift in
  let '(r, t') := run_zims f (fun t => (tt, mkZims (alter write name (zrows t)) (zseq t))) t in
  (r, (z', t')).

(** Rows with an integrity record, by name. *)
Definition integrity_snapshot_rows (fault : option Error) (t : ZimsTable) :
    Result (list (string * option string * option string * bool)) :=
  match fault with
  | Some e => Err e
  | None =>
      let has r := bool_decide (is_Some (r_content_sha256 r)) || bool_decide (is_Some (r_publisher_sha256 r))
                   || r_digest_drift r in
      let rows := List.filter (fun kv => has (snd kv)) (map_to_list (zrows t)) in
      Ok ((fun kv => (fst kv, r_content_sha256 (snd kv), r_publisher_sha256 (snd kv), r_digest_drift (snd kv)))
            <$> merge_sort key_le rows)
  end.

(** Rows come by name; the last row of a name would win, and names are unique. *)
Definition load_from_db (fault : option Error) (st : ZimManager * ZimsTable) : Result unit * ZimManager :=
  let '(z, t) := st in
  match fault with
  | Some e => (Err e, z)
  | None =>
      (Ok tt, set_cache (foldl (fun c kv => <[fst kv := meta_of (snd kv)]> c) (cache z) (map_to_list (zrows t))) z)
  end.

(** ** Reconciliation *)

Section Resync.
Context {Hi : HashIter string ZimMeta}.

(** Entries whose file is gone. *)
Definition reconcile_gone (found : list ScanEntry) (acc : gmap string ZimMeta * list string) (name : string) :
    gmap string ZimMeta * list string :=
  if bool_decide (name ∈ scan_names found) then acc else (delete name (fst acc), snd acc ++ [name]).

Definition reconcile_removed (found : list ScanEntry) (c : gmap string ZimMeta) : gmap string ZimMeta * list string :=
  foldl (reconcile_gone found) (c, []) ((hash_iter c).*1).

(** What a file of another size or path makes of its entry. *)
Definition refreshed (path : string) (size : Z) (m : ZimMeta) : ZimMeta :=
  let size_changed := negb (m_file_size m =? size) in
  let m1 := with_file path size m in
  let m2 := if size_changed && (String.eqb (m_index_status m) "ready" || String.eqb (m_index_status m) "indexing")
            then with_index "pending" f64_zero m1 else m1 in
  if size_changed then with_digests None None (m_digest_drift m) m2 else m2.

(** One found file.  [restat] is the second stat of a file whose first failed. *)
Definition reconcile_found (restat : string -> option Z) (acc : gmap string ZimMeta * (list string * list string))
    (e : ScanEntry) : gmap string ZimMeta * (list string * list string) :=
  let '(c, (added, changed)) := acc in
  let '(name, path, meta) := e in
  match (match meta with Some (_, size) => Some size | None => restat path end) with
  | None => acc
  | Some file_size =>
      match c !! name with
      | Some m =>
          if (m_file_size m =? file_size) && String.eqb (m_file_path m) path then acc
          else (<[name := refreshed path file_size m]> c, (added, changed ++ [name]))
      | None => (<[name := stub name path file_size]> c, (added ++ [name], changed))
      end
  end.

Definition reconcile (restat : string -> option Z) (found : list ScanEntry) (z : ZimManager) :
    (list string * list string * list string) * ZimManager :=
  let '(c1, removed) := reconcile_removed found (cache z) in
  let '(c2, (added, changed)) := foldl (reconcile_found restat) (c1, ([], [])) found in
  ((added, removed, changed), set_cache c2 z).

(** ** Resync *)

Record ResyncEnv := mkResync {
  e_dir_exists : bool;
  e_scan : Result (list ScanEntry);
  e_restat : string -> option Z;
  e_delete : nat -> Fault;
  e_persist : nat -> Fault
}.

Definition snapshot_add (s : gmap string (Z * Z * string)) (e : ScanEntry) : gmap string (Z * Z * string) :=
  let '(name, path, entry) := e in
  match entry with Some (mtime, size) => <[name := (mtime, size, path)]> s | None => s end.

Definition snapshot_of (found : list ScanEntry) : gmap string (Z * Z * string) := foldl snapshot_add ∅ found.

Definition drop_handle (name : string) (z : ZimManager) : ZimManager :=
  set_handles (delete name (open_handles z)) z.

Fixpoint drop_removed (fault : nat -> Fault) (removed : list string) (st : ZimManager * ZimsTable) :
    Result (list string) * (ZimManager * ZimsTable) :=
  match removed with
  | [] => (Ok [], st)
  | name :: rest =>
      let '(z, t) := st in
      let '(r, t') := run_zims (fault 0%nat) (fun t => (tt, delete_row name t)) t in
      let st' := (drop_handle name z, t') in
      match r with
      | Err e => (Err e, st')
      | Ok _ =>
          let '(r', st'') := drop_removed (fun i => fault (S i)) rest st' in
          (rmap (cons (name +:+ " (removed)")) r', st'')
      end
  end.

Fixpoint persist_all (fault : nat -> Fault) (added changed : list string) (todo : list string)
    (st : ZimManager * ZimsTable) : Result (list string) * (ZimManager * ZimsTable) :=
  match todo with
  | [] => (Ok [], st)
  | name :: rest =>
      let kind := if bool_decide (name ∈ added) then "added"
                  else if bool_decide (name ∈ changed) then "changed" else "added" in
      let st1 := (drop_handle name (fst st), snd st) in
      match get name (fst st1) with
      | None => persist_all (fun i => fault (S i)) added changed rest st1
      | Some meta =>
          match persist_to_db (fault 0%nat) meta st1 with
          | (Err e, st2) => (Err e, st2)
          | (Ok _, st2) =>
              let '(r, st3) := persist_all (fun i => fault (S i)) added changed rest st2 in
              (rmap (cons (name +:+ " (" +:+ kind +:+ ")")) r, st3)
          end
      end
  end.

Definition unpersisted_names (added changed : list string) (z : ZimManager) : list string :=
  m_name <$> List.filter (fun m => bool_decide (m_id m = None) && negb (bool_decide (m_name m ∈ added ++ changed)))
    (list_zim_metas z).

(** The notification at the end is best effort and changes no state here. *)
Definition resync (env : ResyncEnv) (st : ZimManager * ZimsTable) : Result (list string) * (ZimManager * ZimsTable) :=
  let '(z, t) := st in
  if negb (e_dir_exists env) then (Ok [], st)
  else
    match e_scan env with
    | Err e => (Err e, st)
    | Ok found =>
        let current := snapshot_of found in
        if bool_decide (scan_snapshot z = current) then (Ok [], st)
        else
          let '((added, removed, changed), z1) := reconcile (e_restat env) found z in
          let unpersisted := unpersisted_names added changed z1 in
          match added, removed, changed, unpersisted with
          | [], [], [], [] => (Ok [], (set_snapshot current z1, t))
          | _, _, _, _ =>
              match drop_removed (e_delete env) removed (z1, t) with
              | (Err e, st2) => (Err e, st2)
              | (Ok report1, st2) =>
                  match persist_all (e_persist env) added changed (added ++ changed ++ unpersisted) st2 with
                  | (Err e, st3) => (Err e, st3)
                  | (Ok report2, (z3, t3)) => (Ok (report1 ++ report2), (set_snapshot current z3, t3))
                  end
              end
          end
    end.

Definition populate_zims (env : ResyncEnv) (load_fault : option Error) (reconciles : bool)
    (st : ZimManager * ZimsTable) : Result (list string) * (ZimManager * ZimsTable) :=
  let '(z, t) := st in
  match scan (e_scan env) z with
  | (Err e, z1) => (Err e, (z1, t))
  | (Ok found, z1) =>
      match load_from_db load_fault (z1, t) with
      | (Err e, z2) => (Err e, (z2, t))
      | (Ok _, z2) =>
          if reconciles then
            match resync env (z2, t) with
            | (Err e, st3) => (Err e, st3)
            | (Ok _, st3) => (Ok found, st3)
            end
          else (Ok found, (z2, t))
      end
  end.


(** [watch_zim_dir]: after each interval a resync, whose failure is only
    logged.  One element of [rounds] is what one resync meets. *)
Definition RESYNC_INTERVAL : Z := 10.

Definition watch_round (st : ZimManager * ZimsTable) (env : ResyncEnv) : ZimManager * ZimsTable := snd (resync env st).

Definition watch_zim_dir (rounds : list ResyncEnv) (st : ZimManager * ZimsTable) : ZimManager * ZimsTable :=
  foldl watch_round st rounds.
End Resync.

(** ** Open archives *)

Definition handle_still_valid (cached_mtime : option Z) (cached_size : Z) (cur_mtime : option Z) (cur_size : Z) : bool :=
  bool_decide (cached_mtime = cur_mtime) && (cached_size =? cur_size).

Section Open.
Context {Hh : HashIter string CachedZim}.

Definition evict_lru_if_full (handles : gmap string CachedZim) : gmap string CachedZim :=
  if MAX_OPEN_ZIMS <=? map_len handles then evict_oldest last_access handles else handles.

(** A hit: the access counter goes up, the stat time is renewed when given. *)
Definition touched (stat_at : option Z) (c : CachedZim) : CachedZim :=
  mkCached (c_zim c) (c_mtime c) (c_size c) ((last_access c + 1) mod 2 ^ 64) (default (last_stat c) stat_at).

Definition hit (name : string) (stat_at : option Z) (c : CachedZim) (z : ZimManager) : Archive * ZimManager :=
  (c_zim c, set_handles (<[name := touched stat_at c]> (open_handles z)) z).

(** The first fast path: a stat younger than the TTL is trusted. *)
Definition trusted_handle (name : string) (now_ms : Z) (z : ZimManager) : option CachedZim :=
  match open_handles z !! name with
  | Some c => if saturating_sub now_ms (last_stat c) <? STAT_TTL_MS then Some c else None
  | None => None
  end.

(** The second one: the recorded stat is the current one. *)
Definition valid_handle (name : string) (mtime : option Z) (size : Z) (z : ZimManager) : option CachedZim :=
  match open_handles z !! name with
  | Some c => if handle_still_valid (c_mtime c) (c_size c) mtime size then Some c else None
  | None => None
  end.

(** The end of the slow path, under the write lock. *)
Definition insert_parsed (name : string) (mtime : option Z) (size now_ms : Z) (arc : Archive) (z : ZimManager) :
    Archive * ZimManager :=
  match valid_handle name mtime size z with
  | Some c => hit name (Some now_ms) c z
  | None =>
      (arc, mkManager (cache z)
              (<[name := mkCached arc mtime size (next_seq z) now_ms]> (evict_lru_if_full (open_handles z)))
              ((next_seq z + 1) mod 2 ^ 64) (scan_snapshot z))
  end.

(** The clock, the stat, the parser's answer, and what the other tasks did to
    the manager while the archive was parsed. *)
Record OpenEnv := mkOpen {
  o_now : Z;
  o_stat : string -> option (option Z * Z);
  o_parse : string -> Result Archive;
  o_peer : ZimManager -> ZimManager
}.

Definition open_zim_impl (env : OpenEnv) (name : string) (skip_stat_ttl : bool) (z : ZimManager) :
    Result Archive * ZimManager :=
  match file_path_of name z with
  | None => (Err (NotFound ("ZIM '" +:+ name +:+ "' not found")), z)
  | Some path =>
      let now_ms := o_now env in
      match (if skip_stat_ttl then None else trusted_handle name now_ms z) with
      | Some c => let '(a, z') := hit name None c z in (Ok a, z')
      | None =>
          let md := o_stat env path in
          let file_mtime := md ≫= fst in
          let file_size := default 0 (snd <$> md) in
          match valid_handle name file_mtime file_size z with
          | Some c => let '(a, z') := hit name (Some now_ms) c z in (Ok a, z')
          | None =>
              match o_parse env path with
              | Err e => (Err e, o_peer env z)
              | Ok arc =>
                  let '(a, z') := insert_parsed name file_mtime file_size now_ms arc (o_peer env z) in (Ok a, z')
              end
          end
      end
  end.

Definition open_zim (env : OpenEnv) (name : string) (z : ZimManager) : Result Archive * ZimManager :=
  open_zim_impl env name false z.
Definition open_zim_fresh (env : OpenEnv) (name : string) (z : ZimManager) : Result Archive * ZimManager :=
  open_zim_impl env name true z.

End Open.

(** ** Lemmas on reconciliation *)

Section ResyncLemmas.
Context {Hi : HashIter string ZimMeta}.

(** The cached entry of one name after reconciliation. *)
Definition reconciled (restat : string -> option Z) (e : option ScanEntry) (old : option ZimMeta) : option ZimMeta :=
  match e with
  | None => None
  | Some (name, path, meta) =>
      match (match meta with Some (_, size) => Some size | None => restat path end), old with
      | None, _ => old
      | Some size, Some m =>
          Some (if (m_file_size m =? size) && String.eqb (m_file_path m) path then m else refreshed path size m)
      | Some size, None => Some (stub name path size)
      end
  end.

Definition entry_of (found : list ScanEntry) (name : string) : option ScanEntry :=
  List.find (fun e => String.eqb (fst (fst e)) name) found.

Lemma entry_of_none found n : entry_of found n = None <-> n ∉ scan_names found.
Proof.
  unfold entry_of, scan_names. induction found as [|[[a p] m] l IH]; cbn; [set_solver|].
  destruct (String.eqb_spec a n) as [->|Hne]; [set_solver|]. rewrite IH. set_solver.
Qed.

Lemma entry_of_some found n e : entry_of found n = Some e -> e ∈ found /\ fst (fst e) = n.
Proof. intros [H1 H2]%find_some. split; [by apply list_elem_of_In|by apply String.eqb_eq]. Qed.

Lemma removed_fold found l c acc :
  NoDup l ->
  foldl (reconcile_gone found) (c, acc) l =
  (foldr delete c (filter (fun n => n ∉ scan_names found) l),
   acc ++ filter (fun n => n ∉ scan_names found) l).
Proof.
  revert c acc. induction l as [|n l IH]; intros c acc Hnd; cbn [foldl]; [by rewrite app_nil_r|].
  apply NoDup_cons in Hnd as [Hn Hnd]. unfold reconcile_gone at 2. case_bool_decide as Hin.
  - rewrite IH, filter_cons_False by tauto. done.
  - cbn [fst snd]. rewrite IH, filter_cons_True by done. cbn. f_equal.
    + clear. induction (filter _ l) as [|m k IHk]; [done|]. cbn. by rewrite IHk, delete_delete.
    + by rewrite <- app_assoc.
Qed.

Lemma foldr_delete_lookup {V} (ks : list string) (c : gmap string V) n :
  foldr delete c ks !! n = if bool_decide (n ∈ ks) then None else c !! n.
Proof.
  induction ks as [|k ks IH]; cbn; [case_bool_decide; set_solver|].
  destruct (decide (n = k)) as [->|Hne]; [rewrite lookup_delete_eq|rewrite lookup_delete_ne, IH by done];
    repeat case_bool_decide; set_solver.
Qed.

Lemma reconcile_removed_spec found c :
  (forall n, fst (reconcile_removed found c) !! n = if bool_decide (n ∈ scan_names found) then c !! n else None) /\
  (forall n, n ∈ snd (reconcile_removed found c) <-> is_Some (c !! n) /\ n ∉ scan_names found) /\
  NoDup (snd (reconcile_removed found c)).
Proof.
  unfold reconcile_removed. rewrite removed_fold by apply hash_iter_nodup. cbn [fst snd app].
  assert (Hk : forall n, n ∈ (hash_iter c).*1 <-> is_Some (c !! n)).
  { intros n. rewrite list_elem_of_fmap. split.
    - intros ([k v] & -> & Hv). apply elem_of_hash_iter in Hv. eauto.
    - intros [v Hv]. exists (n, v). by rewrite elem_of_hash_iter. }
  split_and!.
  - intros n. rewrite foldr_delete_lookup. pose proof (Hk n) as Hn.
    destruct (decide (n ∈ scan_names found)) as [Hin|Hin].
    + rewrite (bool_decide_eq_true_2 _ Hin), bool_decide_eq_false_2; [done|]. rewrite list_elem_of_filter. tauto.
    + rewrite (bool_decide_eq_false_2 _ Hin). case_bool_decide as Hb; [done|].
      rewrite list_elem_of_filter in Hb. destruct (c !! n); [|done]. exfalso. apply Hb. naive_solver.
  - intros n. rewrite list_elem_of_filter, Hk. tauto.
  - apply NoDup_filter, hash_iter_nodup.
Qed.

Lemma refreshed_ne path size m :
  (m_file_size m =? size) && String.eqb (m_file_path m) path = false -> refreshed path size m <> m.
Proof.
  intros Hne He. apply (f_equal (fun x => (m_file_size x, m_file_path x))) in He. revert He. unfold refreshed.
  destruct (Z.eqb_spec (m_file_size m) size) as [Hs|Hs]; destruct (String.eqb_spec (m_file_path m) path) as [Hp|Hp];
    try discriminate Hne; cbn; repeat (case_match; cbn); intros [= ? ?]; congruence.
Qed.

(** The names a fold over the found files adds and changes. *)
Definition fold_ok (restat : string -> option Z) (found : list ScanEntry) (c : gmap string ZimMeta)
    (ad ch : list string) (r : gmap string ZimMeta * (list string * list string)) : Prop :=
  (forall n, fst r !! n = match entry_of found n with Some e => reconciled restat (Some e) (c !! n) | None => c !! n end) /\
  (forall n, n ∈ fst (snd r) <-> n ∈ ad \/ (c !! n = None /\ is_Some (fst r !! n))) /\
  (forall n, n ∈ snd (snd r) <-> n ∈ ch \/ exists m, c !! n = Some m /\ fst r !! n <> Some m).

Lemma reconcile_found_step restat c ad ch name path meta :
  fold_ok restat [(name, path, meta)] c ad ch (reconcile_found restat (c, (ad, ch)) (name, path, meta)).
Proof.
  assert (Hrec : forall n, match entry_of [(name, path, meta)] n with
      Some e => reconciled restat (Some e) (c !! n) | None => c !! n end =
    if String.eqb name n then reconciled restat (Some (name, path, meta)) (c !! n) else c !! n)
    by (intros n; unfold entry_of; cbn; by destruct (String.eqb name n)).
  unfold fold_ok. setoid_rewrite Hrec. clear Hrec. unfold reconcile_found, reconciled.
  destruct (match meta with Some (_, size) => Some size | None => restat path end) as [size|]; cbn [fst snd].
  2:{ split_and!; intros n; [by destruct (String.eqb name n)|..];
        destruct (c !! n) eqn:E; split; try tauto; intros [?|?]; naive_solver. }
  destruct (c !! name) as [m|] eqn:Ec.
  - destruct ((m_file_size m =? size) && String.eqb (m_file_path m) path) eqn:Eq; cbn [fst snd].
    + split_and!; intros n.
      * destruct (String.eqb_spec name n) as [<-|]; by rewrite ?Ec, ?Eq.
      * destruct (c !! n) eqn:E; split; try tauto; intros [?|?]; naive_solver.
      * destruct (c !! n) eqn:E; split; try tauto; intros [?|?]; naive_solver.
    + split_and!; intros n; destruct (decide (name = n)) as [<-|Hn];
        rewrite ?lookup_insert_eq, ?lookup_insert_ne by done.
      * by rewrite String.eqb_refl, Ec, Eq.
      * by rewrite (proj2 (String.eqb_neq _ _) Hn).
      * rewrite Ec. naive_solver.
      * destruct (c !! n) eqn:E; split; try tauto; intros [?|?]; naive_solver.
      * rewrite elem_of_app, list_elem_of_singleton. split; [|tauto]. intros _. right. exists m. split; [done|].
        intros [= He]. by eapply refreshed_ne.
      * rewrite elem_of_app, list_elem_of_singleton.
        destruct (c !! n) eqn:E; split; naive_solver.
  - cbn [fst snd]. split_and!; intros n; destruct (decide (name = n)) as [<-|Hn];
      rewrite ?lookup_insert_eq, ?lookup_insert_ne by done.
    + by rewrite String.eqb_refl, Ec.
    + by rewrite (proj2 (String.eqb_neq _ _) Hn).
    + rewrite elem_of_app, list_elem_of_singleton, Ec. naive_solver.
    + rewrite elem_of_app, list_elem_of_singleton. destruct (c !! n) eqn:E; split; naive_solver.
    + rewrite Ec. naive_solver.
    + destruct (c !! n) eqn:E; split; naive_solver.
Qed.

Lemma reconcile_found_fold restat found c ad ch :
  NoDup (scan_names found) -> fold_ok restat found c ad ch (foldl (reconcile_found restat) (c, (ad, ch)) found).
Proof.
  revert c ad ch. induction found as [|[[n0 p] meta] l IH]; intros c ad ch Hnd.
  { unfold fold_ok. cbn. split_and!; intros n; [done|..]; destruct (c !! n); split; naive_solver. }
  apply NoDup_cons in Hnd as [Hn0 Hnd]. cbn [fst] in Hn0. cbn [foldl].
  pose proof (reconcile_found_step restat c ad ch n0 p meta) as (H1 & H2 & H3).
  destruct (reconcile_found restat (c, (ad, ch)) (n0, p, meta)) as [c1 [ad1 ch1]]. cbn [fst snd] in *.
  destruct (IH c1 ad1 ch1 Hnd) as (I1 & I2 & I3). clear IH.
  set (r := foldl _ _ l) in *. clearbody r.
  assert (Hstay : forall n, (n = n0 -> fst r !! n = c1 !! n) /\ (n <> n0 -> c1 !! n = c !! n)).
  { intros n. split; intros Hn.
    - rewrite I1, Hn, (proj2 (entry_of_none l n0)) by done. done.
    - rewrite H1. unfold entry_of. cbn. by rewrite (proj2 (String.eqb_neq n0 n)) by congruence. }
  split_and!; intros n; destruct (Hstay n) as [S1 S2]; destruct (decide (n = n0)) as [->|Hn].
  - rewrite S1, H1 by done. unfold entry_of. cbn. by rewrite String.eqb_refl.
  - rewrite I1, S2 by done. unfold entry_of at 2. cbn. by rewrite (proj2 (String.eqb_neq n0 n)) by congruence.
  - rewrite I2, H2, S1 by done. destruct (c !! n0), (c1 !! n0); naive_solver.
  - rewrite I2, H2, S2 by done. destruct (c !! n), (fst r !! n); naive_solver.
  - rewrite I3, H3, S1 by done. split; [|naive_solver]. intros [[?|?]|(m & ? & ?)]; naive_solver.
  - rewrite I3, H3, S2 by done. split; [|naive_solver]. intros [[?|(m & ? & ?)]|?]; naive_solver.
Qed.

Lemma reconcile_spec restat found z :
  NoDup (scan_names found) ->
  let '((added, removed, changed), z') := reconcile restat found z in
  z' = set_cache (cache z') z /\
  (forall n, cache z' !! n = reconciled restat (entry_of found n) (cache z !! n)) /\
  (forall n, n ∈ added <-> cache z !! n = None /\ is_Some (cache z' !! n)) /\
  (forall n, n ∈ removed <-> is_Some (cache z !! n) /\ n ∉ scan_names found) /\
  (forall n, n ∈ changed <-> exists m, cache z !! n = Some m /\ n ∈ scan_names found /\ cache z' !! n <> Some m).
Proof.
  intros Hnd. unfold reconcile. destruct (reconcile_removed_spec found (cache z)) as (R1 & R2 & _).
  destruct (reconcile_removed found (cache z)) as [c1 removed]. cbn [fst snd] in R1, R2.
  pose proof (reconcile_found_fold restat found c1 [] [] Hnd) as (F1 & F2 & F3).
  destruct (foldl (reconcile_found restat) (c1, ([], [])) found) as [c2 [added changed]]. cbn [fst snd] in F1, F2, F3.
  assert (Hc2 : forall n, c2 !! n = reconciled restat (entry_of found n) (cache z !! n)).
  { intros n. rewrite F1, R1. destruct (entry_of found n) eqn:E.
    - rewrite bool_decide_eq_true_2; [done|]. destruct (decide (n ∈ scan_names found)) as [|H%entry_of_none]; [done|congruence].
    - apply entry_of_none in E. by rewrite bool_decide_eq_false_2. }
  assert (Hin : forall n, n ∉ scan_names found -> c2 !! n = None).
  { intros n Hn%entry_of_none. by rewrite Hc2, Hn. }
  split_and!; [done|done|..]; intros n; cbn [cache set_cache].
  - rewrite F2, R1. case_bool_decide as Hn; [set_solver|]. rewrite (Hin n Hn). split; [set_solver|]. by intros [_ []].
  - apply R2.
  - rewrite F3, R1. case_bool_decide as Hn; split.
    + intros [[]%not_elem_of_nil|(m & ? & ?)]. eauto.
    + intros (m & ? & _ & ?). eauto.
    + by intros [[]%not_elem_of_nil|(m & ? & _)].
    + by intros (m & _ & ? & _).
Qed.

(** ** Lemmas on the persistence loop *)

Definition keys_ok (c : gmap string ZimMeta) : Prop := forall n m, c !! n = Some m -> m_name m = n.

(** The state after a name is persisted. *)
Definition persisted (n : string) (z z' : ZimManager) (t t' : ZimsTable) : Prop :=
  match cache z !! n with
  | Some m => exists id, cache z' !! n = Some (with_id id m) /\ zrows t' !! n = Some (row_of id m)
  | None => cache z' !! n = None /\ zrows t' !! n = zrows t !! n
  end.

Lemma keys_ok_alter c n id : keys_ok c -> keys_ok (alter (with_id id) n c).
Proof.
  intros Hk n' m'. rewrite lookup_alter. case_decide as Hd; [subst n'|apply Hk].
  destruct (c !! n) as [m|] eqn:E; [|done]. cbn. intros H. injection H as <-. exact (Hk _ _ E).
Qed.

Lemma persist_ok z t n m : keys_ok (cache z) -> cache z !! n = Some m ->
  exists id, persist_to_db NoFault m (z, t) =
    (Ok tt, (set_cache (alter (with_id id) n (cache z)) z, mkZims (<[n := row_of id m]> (zrows t)) (zseq t + 1))).
Proof. intros Hk Hm. apply Hk in Hm as <-. unfold persist_to_db, upsert. cbn. eauto. Qed.

Lemma persist_all_ok fault added changed todo z t :
  keys_ok (cache z) -> (forall i, fault i = NoFault) ->
  exists report z' t', persist_all fault added changed todo (z, t) = (Ok report, (z', t')) /\
    keys_ok (cache z') /\
    (forall n, n ∈ todo -> persisted n z z' t t' /\ open_handles z' !! n = None) /\
    (forall n, n ∉ todo -> cache z' !! n = cache z !! n /\ zrows t' !! n = zrows t !! n /\
      open_handles z' !! n = open_handles z !! n).
Proof.
  revert fault z t. induction todo as [|a todo IH]; intros fault z t Hk Hf; cbn [persist_all].
  { exists [], z, t. split_and!; [done|done|set_solver|done]. }
  cbn [fst snd]. unfold get. cbn [drop_handle set_handles cache].
  destruct (cache z !! a) as [m|] eqn:Ea.
  - rewrite Hf. destruct (persist_ok (drop_handle a z) t a m Hk Ea) as [id ->]. cbn [cache drop_handle set_handles].
    set (z1 := set_cache _ _). set (t1 := mkZims _ _).
    assert (Hk1 : keys_ok (cache z1)) by by apply keys_ok_alter.
    destruct (IH (fun i => fault (S i)) z1 t1 Hk1 (fun i => Hf (S i))) as (rep & z' & t' & -> & Hk' & Hin & Hout).
    do 3 eexists. split; [reflexivity|]. split; [done|].
    assert (H1a : cache z1 !! a = Some (with_id id m)) by (cbn; by rewrite lookup_alter_eq, Ea).
    assert (H1n : forall n, n <> a -> cache z1 !! n = cache z !! n /\ zrows t1 !! n = zrows t !! n /\
      open_handles z1 !! n = open_handles z !! n)
      by (intros n Hn; cbn; by rewrite lookup_alter_ne, lookup_insert_ne, lookup_delete_ne by congruence).
    split; intros n Hn; [|apply not_elem_of_cons in Hn as [Hna Hn]; destruct (Hout n Hn) as (-> & -> & ->); by apply H1n].
    destruct (decide (n ∈ todo)) as [Ht|Ht].
    + destruct (Hin n Ht) as [Hp Hh]. split; [|done]. unfold persisted in *. destruct (decide (n = a)) as [->|Hna].
      * rewrite H1a in Hp. rewrite Ea. destruct Hp as (id' & -> & ->). by exists id'.
      * destruct (H1n n Hna) as (<- & <- & _). done.
    + assert (n = a) as -> by set_solver. destruct (Hout a Ht) as (Hc & Hr & Hh). split; [|by rewrite Hh; cbn; rewrite lookup_delete_eq].
      unfold persisted. rewrite Ea, Hc, Hr, H1a. cbn. rewrite lookup_insert_eq. by exists id.
  - destruct (IH (fun i => fault (S i)) (drop_handle a z) t Hk (fun i => Hf (S i))) as (rep & z' & t' & -> & Hk' & Hin & Hout).
    exists rep, z', t'. split; [reflexivity|]. split; [done|]. split; intros n Hn.
    + destruct (decide (n ∈ todo)) as [Ht|Ht]; [by apply Hin|]. assert (n = a) as -> by set_solver.
      destruct (Hout a Ht) as (Hc & Hr & Hh). split; [|by rewrite Hh; cbn; rewrite lookup_delete_eq].
      unfold persisted. rewrite Ea, Hc, Hr. done.
    + apply not_elem_of_cons in Hn as [Hna Hn]. destruct (Hout n Hn) as (-> & -> & ->). cbn.
      by rewrite lookup_delete_ne by congruence.
Qed.

Lemma drop_removed_ok fault removed z t :
  (forall i, fault i = NoFault) ->
  exists report, drop_removed fault removed (z, t) =
    (Ok report, (set_handles (foldl (fun h n => delete n h) (open_handles z) removed) z,
                 mkZims (foldl (fun h n => delete n h) (zrows t) removed) (zseq t))).
Proof.
  revert fault z t. induction removed as [|a l IH]; intros fault z t Hf; cbn [drop_removed foldl].
  - exists []. by destruct z, t.
  - rewrite Hf. cbn [run_zims]. destruct (IH (fun i => fault (S i)) (drop_handle a z) (delete_row a t)) as [rep ->]; [auto|].
    eexists. reflexivity.
Qed.

Lemma foldl_delete_lookup {V} (l : list string) (h : gmap string V) n :
  foldl (fun h n => delete n h) h l !! n = if bool_decide (n ∈ l) then None else h !! n.
Proof.
  revert h. induction l as [|a l IH]; intros h; cbn [foldl]; [by rewrite bool_decide_eq_false_2 by set_solver|].
  rewrite IH. destruct (decide (n = a)) as [->|Hne].
  - rewrite lookup_delete_eq, (bool_decide_eq_true_2 (a ∈ a :: l)) by set_solver. by case_bool_decide.
  - rewrite lookup_delete_ne by congruence. repeat case_bool_decide; set_solver.
Qed.

(** A scan that could stat every file, with distinct names. *)
Definition full_scan (found : list ScanEntry) : Prop :=
  NoDup (scan_names found) /\ Forall (fun e => is_Some (snd e)) found.

Lemma snapshot_fold found s n : NoDup (scan_names found) ->
  foldl snapshot_add s found !! n =
  match entry_of found n with Some (_, p, Some (mt, sz)) => Some (mt, sz, p) | _ => s !! n end.
Proof.
  revert s. induction found as [|[[a p] st] l IH]; intros s Hnd; [done|].
  apply NoDup_cons in Hnd as [Ha Hnd]. cbn [foldl]. rewrite IH by done. unfold entry_of at 2. cbn.
  destruct (String.eqb_spec a n) as [->|Hne].
  - rewrite (proj2 (entry_of_none l n)) by done. destruct st as [[mt sz]|]; [by rewrite lookup_insert_eq|done].
  - fold (entry_of l n). destruct (entry_of l n) as [[[? ?] [[? ?]|]]|]; try done;
      destruct st as [[mt sz]|]; by rewrite ?lookup_insert_ne.
Qed.

Lemma snapshot_of_lookup found n : full_scan found ->
  snapshot_of found !! n = entry_of found n ≫= fun e => (fun st => (fst st, snd st, snd (fst e))) <$> snd e.
Proof.
  intros [Hnd Hall]. unfold snapshot_of. rewrite snapshot_fold by done.
  destruct (entry_of found n) as [[[a p] [[mt sz]|]]|]; by rewrite ?lookup_empty.
Qed.


(** ** The library in step with a scan *)

(** An entry the table holds as the cache does. *)
Definition entry_stored (m : ZimMeta) (o : option ZimRow) : Prop :=
  exists r, o = Some r /\ r_file_path r = m_file_path m /\ r_file_size r = u64_as_i64 (m_file_size m).

(** What start-up establishes: entries are filed under their names, entries
    with an id are stored, and the table has no other rows. *)
Definition library_ok (z : ZimManager) (t : ZimsTable) : Prop :=
  keys_ok (cache z) /\
  (forall n m id, cache z !! n = Some m -> m_id m = Some id -> entry_stored m (zrows t !! n)) /\
  (forall n, is_Some (zrows t !! n) -> is_Some (cache z !! n)).

(** Cache and table are exactly the files of the snapshot. *)
Definition in_sync (s : gmap string (Z * Z * string)) (z : ZimManager) (t : ZimsTable) : Prop :=
  forall n, match s !! n with
  | Some (mt, sz, p) => exists m, cache z !! n = Some m /\ is_Some (m_id m) /\ m_file_path m = p /\
      m_file_size m = sz /\ entry_stored m (zrows t !! n)
  | None => cache z !! n = None /\ zrows t !! n = None
  end.

Lemma entry_stored_row id m : entry_stored m (Some (row_of id m)).
Proof. by exists (row_of id m). Qed.

Lemma refreshed_file p sz m : m_name (refreshed p sz m) = m_name m /\ m_id (refreshed p sz m) = m_id m /\
  m_file_path (refreshed p sz m) = p /\ m_file_size (refreshed p sz m) = sz.
Proof. unfold refreshed. by repeat (case_match; cbn). Qed.

Lemma keys_ok_reconciled restat found z :
  keys_ok (cache z) -> forall n m, reconciled restat (entry_of found n) (cache z !! n) = Some m -> m_name m = n.
Proof.
  intros Hk n m. destruct (entry_of found n) as [[[a p] st]|] eqn:E; [|done]. apply entry_of_some in E as [_ E].
  cbn in E. subst a. cbn. destruct (match st with Some (_, s) => Some s | None => restat p end) as [sz|].
  - destruct (cache z !! n) as [m0|] eqn:Em; [|by intros [= <-]]. case_match; intros [= <-]; [by apply Hk|].
    rewrite (proj1 (refreshed_file _ _ _)). by apply Hk.
  - apply Hk.
Qed.


Lemma elem_of_unpersisted added changed z n : keys_ok (cache z) ->
  n ∈ unpersisted_names added changed z <-> exists m, cache z !! n = Some m /\ m_id m = None /\ n ∉ added ++ changed.
Proof.
  intros Hk. unfold unpersisted_names, list_zim_metas. rewrite list_elem_of_fmap. split.
  - intros (m & -> & Hm%list_elem_of_In). apply filter_In in Hm as [Hm Hb]. apply list_elem_of_In, list_elem_of_fmap in Hm.
    destruct Hm as ([k m'] & -> & Hm). apply elem_of_hash_iter in Hm. cbn in *. rewrite (Hk _ _ Hm).
    apply andb_prop in Hb as [H1%bool_decide_eq_true_1 H2]. apply negb_true_iff, bool_decide_eq_false_1 in H2.
    exists m'. by rewrite (Hk _ _ Hm) in H2.
  - intros (m & Hm & Hid & Hn). exists m. split; [by rewrite (Hk _ _ Hm)|]. apply list_elem_of_In, filter_In. split.
    + apply list_elem_of_In, list_elem_of_fmap. exists (n, m). by rewrite elem_of_hash_iter.
    + by rewrite (Hk _ _ Hm), (bool_decide_eq_true_2 _ Hid), bool_decide_eq_false_2.
Qed.

(** Past the early exits, resync is the removals followed by the writes. *)
Lemma resync_unfold env found z t :
  e_dir_exists env = true -> e_scan env = Ok found -> scan_snapshot z <> snapshot_of found ->
  resync env (z, t) =
  let '((added, removed, changed), z1) := reconcile (e_restat env) found z in
  match drop_removed (e_delete env) removed (z1, t) with
  | (Err e, st2) => (Err e, st2)
  | (Ok report1, st2) =>
      match persist_all (e_persist env) added changed (added ++ changed ++ unpersisted_names added changed z1) st2 with
      | (Err e, st3) => (Err e, st3)
      | (Ok report2, (z3, t3)) => (Ok (report1 ++ report2), (set_snapshot (snapshot_of found) z3, t3))
      end
  end.
Proof.
  intros Hd Hs Hn. unfold resync. rewrite Hd, Hs, bool_decide_eq_false_2 by done. cbn [negb].
  destruct (reconcile _ _ _) as [[[added removed] changed] z1].
  destruct added, removed, changed, (unpersisted_names _ _ z1); reflexivity.
Qed.

Lemma reconciled_file restat n p mt sz old m :
  reconciled restat (Some (n, p, Some (mt, sz))) old = Some m -> m_file_path m = p /\ m_file_size m = sz.
Proof.
  cbn. destruct old as [m0|]; [|by intros [= <-]]. case_match eqn:E; intros [= <-].
  - apply andb_prop in E as [?%Z.eqb_eq ?%String.eqb_eq]. done.
  - by destruct (refreshed_file p sz m0) as (_ & _ & ? & ?).
Qed.

(** A resync whose statements all succeed: an entry is written, or it was
    stored and unchanged. *)
Lemma resync_runs env found z t :
  e_dir_exists env = true -> e_scan env = Ok found -> NoDup (scan_names found) ->
  (forall i, e_delete env i = NoFault) -> (forall i, e_persist env i = NoFault) ->
  keys_ok (cache z) -> scan_snapshot z <> snapshot_of found ->
  let c1 n := reconciled (e_restat env) (entry_of found n) (cache z !! n) in
  let rows1 n := if bool_decide (is_Some (cache z !! n) /\ n ∉ scan_names found) then None else zrows t !! n in
  exists report z' t', resync env (z, t) = (Ok report, (z', t')) /\ scan_snapshot z' = snapshot_of found /\
    keys_ok (cache z') /\
    (forall n m, c1 n = Some m ->
      (exists id, cache z' !! n = Some (with_id id m) /\ zrows t' !! n = Some (row_of id m)) \/
      (cache z !! n = Some m /\ m_id m <> None /\ cache z' !! n = Some m /\ zrows t' !! n = rows1 n)) /\
    (forall n, c1 n = None -> cache z' !! n = None /\ zrows t' !! n = rows1 n).
Proof.
  intros Hd Hs Hnd Hfd Hfp Hk Hne c1 rows1. rewrite (resync_unfold env found) by done.
  pose proof (reconcile_spec (e_restat env) found z Hnd) as Hr.
  destruct (reconcile (e_restat env) found z) as [[[added removed] changed] z1].
  destruct Hr as (_ & Hc & Ha & Hrm & Hch).
  assert (Hk1 : keys_ok (cache z1)) by (intros n m Hm; rewrite Hc in Hm; by eapply keys_ok_reconciled).
  destruct (drop_removed_ok (e_delete env) removed z1 t Hfd) as [rep1 ->].
  set (todo := added ++ changed ++ _). set (z2 := set_handles _ z1). set (t2 := mkZims _ _).
  destruct (persist_all_ok (e_persist env) added changed todo z2 t2 Hk1 Hfp) as (rep2 & z3 & t3 & -> & Hk3 & Hin & Hout).
  do 3 eexists. split; [reflexivity|]. split; [done|]. split; [done|]. cbn [cache zrows set_snapshot].
  assert (Ht2 : forall n, zrows t2 !! n = rows1 n).
  { intros n. unfold rows1. cbn. rewrite foldl_delete_lookup. by rewrite (bool_decide_ext _ _ (Hrm n)). }
  assert (Htodo : forall n, n ∈ todo <-> n ∈ added ++ changed \/ exists m, cache z1 !! n = Some m /\ m_id m = None).
  { intros n. unfold todo. rewrite app_assoc, elem_of_app, elem_of_unpersisted by done.
    destruct (decide (n ∈ added ++ changed)); naive_solver. }
  unfold c1. split; intros n.
  - intros m. rewrite <- Hc. intros E1. destruct (decide (n ∈ todo)) as [Ht|Ht].
    + left. destruct (Hin n Ht) as [Hper _]. unfold persisted in Hper. cbn [cache z2 set_handles] in Hper.
      by rewrite E1 in Hper.
    + right. destruct (Hout n Ht) as (-> & -> & _). cbn [cache z2 set_handles].
      rewrite Htodo in Ht. apply Decidable.not_or in Ht as [Hac Hun]. apply not_elem_of_app in Hac as [Hna Hnc].
      destruct (cache z !! n) as [m0|] eqn:E0; [|exfalso; apply Hna, Ha; by rewrite E0, E1].
      assert (m = m0) as ->.
      { destruct (decide (n ∈ scan_names found)) as [|Hn%entry_of_none]; [|rewrite Hc, Hn in E1; done].
        destruct (decide (cache z1 !! n = Some m0)) as [|Hd']; [congruence|]. exfalso. apply Hnc, Hch. eauto. }
      split_and!; [done|intros Hid; apply Hun; eauto|done|apply Ht2].
  - rewrite <- Hc. intros E1.
    assert (Ht : n ∉ todo).
    { rewrite Htodo, E1, elem_of_app, Ha, Hch, E1. intros [[[_ []]|(m & Hm & Hn & _)]|(? & ? & _)]; try done.
      rewrite Hc, Hm in E1. destruct (entry_of found n) as [[[? ?] ?]|] eqn:He; [|by apply entry_of_none in He].
      cbn in E1. by repeat case_match. }
    destruct (Hout n Ht) as (-> & -> & _). by rewrite <- Ht2.
Qed.

Lemma resync_syncs env found z t :
  e_dir_exists env = true -> e_scan env = Ok found -> full_scan found ->
  (forall i, e_delete env i = NoFault) -> (forall i, e_persist env i = NoFault) ->
  library_ok z t -> scan_snapshot z <> snapshot_of found ->
  exists report z' t', resync env (z, t) = (Ok report, (z', t')) /\ scan_snapshot z' = snapshot_of found /\
    keys_ok (cache z') /\ in_sync (snapshot_of found) z' t'.
Proof.
  intros Hd Hs Hfull Hfd Hfp (Hk & Hst & Hrows) Hne.
  destruct (resync_runs env found z t Hd Hs (proj1 Hfull) Hfd Hfp Hk Hne) as (rep & z' & t' & -> & Hsn & Hk' & Hsome & Hnone).
  exists rep, z', t'. split_and!; [done..|]. intros n. specialize (Hsome n). specialize (Hnone n).
  rewrite snapshot_of_lookup by done. destruct (entry_of found n) as [[[a p] st]|] eqn:He.
  - destruct (entry_of_some _ _ _ He) as [Hel Heq]. cbn in Heq. subst a.
    destruct (proj1 (Forall_forall _ _) (proj2 Hfull) _ Hel) as [[mt sz] Hsome']. cbn in Hsome'. subst st.
    destruct (reconciled (e_restat env) (Some (n, p, Some (mt, sz))) (cache z !! n)) as [m1|] eqn:E1.
    2:{ cbn in E1. by destruct (cache z !! n). }
    destruct (reconciled_file _ _ _ _ _ _ _ E1) as [Hp Hsz]. cbn.
    destruct (Hsome m1 eq_refl) as [(id & -> & ->)|(Ec & Hid & -> & ->)]; eexists; (split; [done|]).
    + split_and!; [by eexists|done|done|by exists (row_of id m1)].
    + assert (Hn : n ∈ scan_names found) by (apply list_elem_of_fmap; by exists (n, p, Some (mt, sz))).
      rewrite bool_decide_eq_false_2 by tauto. destruct (m_id m1) as [id|] eqn:Eid; [|done]. split_and!; eauto.
  - assert (Hn : n ∉ scan_names found) by by apply entry_of_none.
    destruct (Hnone eq_refl) as [-> ->]. cbn. split; [done|]. case_bool_decide as Hb; [done|].
    destruct (zrows t !! n) as [r|] eqn:Er; [|done]. exfalso. apply Hb. eauto.
Qed.


(** A directory that was just reconciled needs nothing. *)
Lemma resync_quiet env found z t : scan_snapshot z = snapshot_of found -> e_scan env = Ok found -> resync env (z, t) = (Ok [], (z, t)).
Proof. intros Hsn Hs. unfold resync. destruct (e_dir_exists env); [|done]. cbn [negb]. by rewrite Hs, bool_decide_eq_true_2. Qed.

Lemma watch_quiet rounds found z t : scan_snapshot z = snapshot_of found -> Forall (fun env => e_scan env = Ok found) rounds ->
  watch_zim_dir rounds (z, t) = (z, t).
Proof.
  intros Hsn Hf. induction Hf as [|env rounds Hs Hf IH]; [done|]. cbn. unfold watch_round at 2. by rewrite (resync_quiet _ found).
Qed.

(** ** From start-up on *)











End ResyncLemmas.

(** ** Lemmas on open archives *)

Section OpenLemmas.
Context {Hh : HashIter string CachedZim}.

(** The file over time: its stat, what parsing it gives, and the wall clock. *)
Context (stat_at : nat -> string -> option (option Z * Z)) (parse_at : nat -> string -> Result Archive)
  (clock : nat -> Z).

Definition stamp_at (t : nat) (p : string) : option Z * Z :=
  (stat_at t p ≫= fst, default 0 (snd <$> stat_at t p)).

(** The file can be stat'ed at all times, a stamp seen twice means the file did
    not change in between, and the clock does not go back. *)
Definition file_history_ok (p : string) : Prop :=
  (forall t1 t2 t, (t1 <= t)%nat -> (t <= t2)%nat -> stamp_at t1 p = stamp_at t2 p -> parse_at t p = parse_at t1 p) /\
  (forall t1 t2, (t1 <= t2)%nat -> clock t1 <= clock t2).

(** A handle's archive was parsed after the stat it records, and the stat was
    confirmed when the handle says so. *)
Definition handle_ok (now : nat) (p : string) (c : CachedZim) : Prop :=
  exists t0 ts tp, (t0 <= ts <= now)%nat /\ (t0 <= tp <= now)%nat /\ parse_at tp p = Ok (c_zim c) /\
    stamp_at t0 p = (c_mtime c, c_size c) /\ stamp_at ts p = (c_mtime c, c_size c) /\ last_stat c <= clock ts.

Definition handle_at (now : nat) (p name : string) (z : ZimManager) : Prop :=
  forall c, open_handles z !! name = Some c -> handle_ok now p c.

Lemma handle_ok_later now now' p c : (now <= now')%nat -> handle_ok now p c -> handle_ok now' p c.
Proof. intros Hn (t0 & ts & tp & ? & ? & ?). exists t0, ts, tp. split_and!; try lia; tauto. Qed.

(** The archive of a handle is the file's at a time no earlier than [t], for
    every time [t] at which the file has the handle's stamp. *)
Lemma handle_current now p c t : file_history_ok p -> handle_ok now p c -> (t <= now)%nat ->
  stamp_at t p = (c_mtime c, c_size c) -> exists t', (t <= t' <= now)%nat /\ parse_at t' p = Ok (c_zim c).
Proof.
  intros [Hst _] (t0 & ts & tp & H1 & H2 & Hp & S0 & _) Ht St. destruct (le_lt_dec t tp) as [Hle|Hlt].
  - exists tp. split; [lia|done].
  - exists t. split; [lia|]. rewrite <- Hp. rewrite (Hst t0 t tp) by (congruence || lia).
    by rewrite (Hst t0 t t) by (congruence || lia).
Qed.

Lemma touched_ok now p c t v : file_history_ok p -> handle_ok now p c -> (t <= now)%nat ->
  stamp_at t p = (c_mtime c, c_size c) -> v <= clock t -> handle_ok now p (touched (Some v) c).
Proof.
  intros [_ Hck] (t0 & ts & tp & H1 & H2 & Hp & S0 & Ss & Hl) Ht St Hv. destruct (le_lt_dec t0 t) as [Hle|Hlt].
  - exists t0, t, tp. cbn. split_and!; [lia|lia|lia|lia|done..].
  - exists t0, ts, tp. cbn. split_and!; [lia|lia|lia|lia|done..|].
    assert (clock t <= clock ts) by (apply Hck; lia). lia.
Qed.

Lemma valid_handle_some name mt sz z c : valid_handle name mt sz z = Some c ->
  open_handles z !! name = Some c /\ (c_mtime c, c_size c) = (mt, sz).
Proof.
  unfold valid_handle. destruct (open_handles z !! name) as [c'|]; [|done]. unfold handle_still_valid.
  case_bool_decide; cbn; [|done]. destruct (Z.eqb_spec (c_size c') sz); [|done]. intros [= ->]. split; [done|congruence].
Qed.

Lemma trusted_handle_some name now z c : trusted_handle name now z = Some c ->
  open_handles z !! name = Some c /\ now - last_stat c < STAT_TTL_MS.
Proof.
  unfold trusted_handle. destruct (open_handles z !! name) as [c'|]; [|done].
  destruct (Z.ltb_spec (saturating_sub now (last_stat c')) STAT_TTL_MS) as [Hl|]; [|done]. intros [= ->].
  split; [done|]. unfold saturating_sub in Hl. lia.
Qed.

Lemma handle_at_hit now p name v c z a z' : hit name v c z = (a, z') ->
  handle_ok now p (touched v c) -> handle_at now p name z'.
Proof. intros [= <- <-] Hc c'. cbn. rewrite lookup_insert_eq. by intros [= <-]. Qed.

(** One open at times [tn <= t1 <= t2 <= t3]: the clock, the stat, the parse
    and the insertion. *)
Lemma open_spec env name fresh z p a z' tn t1 t2 t3 :
  file_history_ok p -> (tn <= t1 <= t2)%nat -> (t2 <= t3)%nat ->
  file_path_of name z = Some p -> handle_at t1 p name z -> handle_at t3 p name (o_peer env z) ->
  o_now env = clock tn -> o_stat env p = stat_at t1 p -> o_parse env p = parse_at t2 p ->
  open_zim_impl env name fresh z = (Ok a, z') ->
  (exists t, (t <= t3)%nat /\ parse_at t p = Ok a /\
    (if fresh then (t1 <= t)%nat else clock tn - STAT_TTL_MS < clock t)) /\
  handle_at t3 p name z'.
Proof.
  intros Hf Ht12 Ht23 Hp Hz Hpeer Hnow Hstat Hparse. unfold open_zim_impl. rewrite Hp, Hnow, Hstat, Hparse.
  fold (stamp_at t1 p).1. fold (stamp_at t1 p).2.
  assert (Hlate : forall t, (t1 <= t)%nat -> if fresh then (t1 <= t)%nat else clock tn - STAT_TTL_MS < clock t).
  { intros t Ht. destruct fresh; [done|]. assert (clock tn <= clock t) by (apply Hf; lia). unfold STAT_TTL_MS. lia. }
  assert (Hn1 : clock tn <= clock t1) by (apply Hf; lia).
  assert (Hvalid : forall now z0 c, (t1 <= now <= t3)%nat -> handle_at now p name z0 ->
    valid_handle name (stamp_at t1 p).1 (stamp_at t1 p).2 z0 = Some c ->
    (exists t, (t <= t3)%nat /\ parse_at t p = Ok (c_zim c) /\
      (if fresh then (t1 <= t)%nat else clock tn - STAT_TTL_MS < clock t)) /\
    handle_ok t3 p (touched (Some (clock tn)) c)).
  { intros now z0 c Hno Hz0 [Hc He]%valid_handle_some. specialize (Hz0 c Hc).
    assert (Hs : stamp_at t1 p = (c_mtime c, c_size c)) by (rewrite He; by destruct (stamp_at t1 p)).
    split; [|apply (handle_ok_later now); [lia|]; apply (touched_ok now p c t1); (done || lia)].
    destruct (handle_current now p c t1) as (t & Hr & Hpa); [done|done|lia|done|]. exists t. split_and!; [lia|done|].
    apply Hlate. lia. }
  destruct (if fresh then None else trusted_handle name (clock tn) z) as [c|] eqn:Etr.
  { destruct fresh; [done|]. apply trusted_handle_some in Etr as [Hc Hage]. specialize (Hz c Hc).
    destruct (hit name None c z) as [a0 z0] eqn:Eh. intros [= <- <-]. split.
    - pose proof Hz as (t0 & ts & tp & H1 & H2 & _ & _ & Hs & Hl).
      destruct (handle_current t1 p c ts) as (t & Hr & Hpa); [done|done|lia|done|].
      exists t. injection Eh as <- <-. split_and!; [lia|done|]. assert (clock ts <= clock t) by (apply Hf; lia). lia.
    - eapply handle_at_hit; [done|]. by apply (handle_ok_later t1); [lia|]. }
  destruct (valid_handle _ _ _ z) as [c|] eqn:Ev.
  { destruct (Hvalid t1 z c) as [Ht Hok]; [lia|done|done|].
    destruct (hit _ _ c z) as [a0 z0] eqn:Eh. intros [= <- <-]. split; [by injection Eh as <- <-|].
    by eapply handle_at_hit. }
  destruct (parse_at t2 p) as [arc|e] eqn:Epa; [|done]. unfold insert_parsed.
  destruct (valid_handle _ _ _ (o_peer env z)) as [c|] eqn:Ev2.
  - destruct (Hvalid t3 (o_peer env z) c) as [Ht Hok]; [lia|done|done|].
    destruct (hit _ _ c _) as [a0 z0] eqn:Eh. intros [= <- <-]. split; [by injection Eh as <- <-|].
    by eapply handle_at_hit.
  - intros [= <- <-]. split; [exists t2; split_and!; [lia|done|apply Hlate; lia]|].
    intros c. cbn. rewrite lookup_insert_eq. intros [= <-]. exists t1, t1, t2. cbn.
    destruct (stamp_at t1 p) eqn:Es. split_and!; (lia || done).
Qed.

End OpenLemmas.

Lemma evict_lru_bound {Hh : HashIter string CachedZim} (h : gmap string CachedZim) :
  map_len h <= MAX_OPEN_ZIMS -> map_len (evict_lru_if_full h) <= MAX_OPEN_ZIMS - 1.
Proof.
  intros Hb. unfold evict_lru_if_full. destruct (Z.leb_spec MAX_OPEN_ZIMS (map_len h)); [|lia].
  apply evict_oldest_len; [done|unfold MAX_OPEN_ZIMS; lia].
Qed.

End Manager.

(** ** Concrete surroundings *)

(** Dates as their text. *)
Definition text_chrono : Chrono :=
  {| NaiveDate := string; date_string d := d; date_parse s _ := Some s; datetime_parse s _ := Some s;
     date_string_parse _ := eq_refl |}.

Definition quiet_resync (found : list ScanEntry) : ResyncEnv :=
  mkResync true (Ok found) (fun _ => None) (fun _ => NoFault) (fun _ => NoFault).

Section Demo.
#[local] Existing Instance text_chrono.
#[local] Instance demo_metas : HashIter string ZimMeta := map_order string ZimMeta.
#[local] Instance demo_handles : HashIter string (@CachedZim unit) := map_order string CachedZim.

(** One archive, on disk, in the cache and in the table. *)
Definition one_scan : list ScanEntry := [("a", "/zim/a.zim", Some (5, 9))].
Definition empty_library : @ZimManager unit * @ZimsTable text_chrono := (new, mkZims ∅ 1).
Definition one_library : @ZimManager unit * @ZimsTable text_chrono := snd (resync (quiet_resync one_scan) empty_library).

End Demo.

(** ** Theorems *)




(** The watcher catches up in one round from a library whose rows the cache
    knows, when the directory is not as the snapshot says, and then leaves the
    library alone until the directory changes. *)
Theorem watcher_catches_up `{Ch : Chrono} {A} {Hi : HashIter string ZimMeta} env rounds found (z : @ZimManager A) t :
  e_dir_exists env = true -> e_scan env = Ok found -> full_scan found ->
  (forall i, e_delete env i = NoFault) -> (forall i, e_persist env i = NoFault) -> library_ok z t ->
  scan_snapshot z <> snapshot_of found -> Forall (fun env' => e_scan env' = Ok found) rounds ->
  exists z' t', watch_zim_dir (env :: rounds) (z, t) = (z', t') /\ in_sync (snapshot_of found) z' t'.
Proof.
  intros Hd Hs Hf Hfd Hfp Hl Hne Hr. destruct (resync_syncs env found z t Hd Hs Hf Hfd Hfp Hl Hne) as (rep & z' & t' & E & Hsn & _ & Hin).
  exists z', t'. split; [|done]. cbn. unfold watch_round at 2. rewrite E. by apply (watch_quiet rounds found).
Qed.

(** What reconciliation does to each entry.  An entry stays exactly when a
    file of its name is found; it keeps its id, title and drift flag; with the
    size unchanged it keeps its index state and digests, and with another size
    its index no longer counts as built and its digests are dropped.  The three
    lists name exactly the entries that are new, gone and changed. *)
Theorem reconcile_pointwise {A} {Hi : HashIter string ZimMeta} restat found (z : @ZimManager A) :
  NoDup (scan_names found) ->
  let '((added, removed, changed), z') := reconcile restat found z in
  (forall n m, cache z !! n = Some m -> n ∈ scan_names found ->
    exists m', cache z' !! n = Some m' /\ m_id m' = m_id m /\ m_display_title m' = m_display_title m /\
      m_digest_drift m' = m_digest_drift m /\ (n ∈ changed <-> m' <> m) /\
      (m_file_size m' = m_file_size m ->
        m_index_status m' = m_index_status m /\ m_index_progress m' = m_index_progress m /\
        m_content_sha256 m' = m_content_sha256 m /\ m_publisher_sha256 m' = m_publisher_sha256 m) /\
      (m_file_size m' <> m_file_size m ->
        m_index_status m' <> "ready" /\ m_index_status m' <> "indexing" /\ m_content_sha256 m' = None /\
        m_publisher_sha256 m' = None)) /\
  (forall n, n ∉ scan_names found -> cache z' !! n = None /\ (n ∈ removed <-> is_Some (cache z !! n))) /\
  (forall n, n ∈ added <-> cache z !! n = None /\ is_Some (cache z' !! n)).
Proof.
  intros Hnd. pose proof (reconcile_spec restat found z Hnd) as Hr.
  destruct (reconcile restat found z) as [[[added removed] changed] z']. destruct Hr as (_ & Hc & Ha & Hrm & Hch).
  split_and!; [|intros n Hn; split; [by rewrite Hc, (proj2 (entry_of_none _ _) Hn)|rewrite Hrm; tauto]|done].
  intros n m Hm Hn. destruct (entry_of found n) as [[[a p] st]|] eqn:He; [|by apply entry_of_none in He].
  assert (exists m', cache z' !! n = Some m' /\ (m' = m \/ exists sz, m' = refreshed p sz m)) as (m' & Hm' & Hcase).
  { rewrite Hc, He, Hm. cbn. destruct (match st with Some (_, s) => Some s | None => restat p end) as [sz|]; [|by eauto].
    case_match; eauto. }
  exists m'. split; [done|].
  assert (Hx : n ∈ changed <-> m' <> m).
  { rewrite Hch. split; [intros (m0 & ? & _ & Hd); congruence|]. intros Hd. exists m. rewrite Hm'. split_and!; congruence. }
  destruct Hcase as [->|[sz ->]]; [by split_and!|].
  split_and!; [apply refreshed_file|..|done| |]; unfold refreshed;
    destruct (Z.eqb_spec (m_file_size m) sz); cbn; try done;
    destruct (String.eqb_spec (m_index_status m) "ready"), (String.eqb_spec (m_index_status m) "indexing"); cbn; try done;
    congruence.
Qed.

Lemma reconcile_pointwise_witness :
  let '((added, removed, changed), z') :=
    @reconcile unit (map_order string ZimMeta) (fun _ => None) [("a", "/zim/a.zim", Some (6, 7))] (fst one_library) in
  changed = ["a"] /\ (exists m, cache z' !! "a" = Some m /\ m_content_sha256 m = None).
Proof.
  pose proof (@reconcile_pointwise unit (map_order string ZimMeta) (fun _ => None) [("a", "/zim/a.zim", Some (6, 7))]
    (fst one_library) (NoDup_singleton _)) as H.
  assert (E : exists m, cache (fst one_library) !! "a" = Some m /\ m_file_size m = 9 /\ m_id m = Some 1)
    by (eexists; vm_compute; done).
  destruct E as (m & Em & Es & _). vm_compute (reconcile _ _ _) in H |- *. split; [done|].
  destruct (proj1 H "a" m) as (m' & Hm' & _ & _ & _ & _ & _ & Hd); [vm_compute in Em |- *; exact Em|vm_compute; left|].
  vm_compute in Hm'. injection Hm' as <-. eexists. split; [reflexivity|]. reflexivity.
Defined.

(** C31: how old a served archive can be.  While a stamp seen twice means an
    unchanged file and the clock does not go back, the handle [open_zim_fresh] returns holds the file as it was
    at the request's own stat or later, whatever other tasks opened and dropped
    meanwhile; [open_zim] may return a version that is up to thirty seconds
    older.  Every handle left in the cache keeps that property. *)
Theorem opened_archive_is_current {A} {Hh : HashIter string (@CachedZim A)} stat_at parse_at clock env name (fresh : bool)
    (z : @ZimManager A) p a z' (tn t1 t2 t3 : nat) :
  file_history_ok stat_at parse_at clock p -> (tn <= t1 <= t2)%nat -> (t2 <= t3)%nat ->
  file_path_of name z = Some p -> handle_at stat_at parse_at clock t1 p name z ->
  handle_at stat_at parse_at clock t3 p name (o_peer env z) ->
  o_now env = clock tn -> o_stat env p = stat_at t1 p -> o_parse env p = parse_at t2 p ->
  (if fresh then open_zim_fresh env name z else open_zim env name z) = (Ok a, z') ->
  (exists t, (t <= t3)%nat /\ parse_at t p = Ok a /\ (if fresh then (t1 <= t)%nat else clock tn - 30000 < clock t)) /\
  handle_at stat_at parse_at clock t3 p name z'.
Proof.
  intros Hf H12 H23 Hp Hz Hpe Hn Hs Hpa Ho.
  apply (open_spec stat_at parse_at clock env name fresh z p a z' tn t1 t2 t3); try done. by destruct fresh.
Qed.

(** A file replaced at time 2, opened fresh at time 3 while the handle opened
    at time 0 is still in the cache. *)
Lemma opened_archive_is_current_witness :
  let stat_at t (_ : string) := Some (Some (if (t <? 2)%nat then 5 else 6), 9) in
  let parse_at t (_ : string) := Ok (if (t <? 2)%nat then "old" else "new") : Result string in
  let clock (t : nat) := 1000 * Z.of_nat t in
  let z : @ZimManager string := mkManager {["a" := stub "a" "/zim/a.zim" 9]} {["a" := mkCached "old" (Some 5) 9 0 0]} 1 ∅ in
  let env := mkOpen 3000 (stat_at 3%nat) (parse_at 3%nat) (fun z => z) in
  exists z', @open_zim_fresh string (map_order string CachedZim) env "a" z = (Ok "new", z') /\
    exists t, (3 <= t <= 4)%nat /\ parse_at t "/zim/a.zim" = Ok "new".
Proof.
  intros stat_at parse_at clock z env. eexists. split; [vm_compute; reflexivity|].
  assert (Hf : file_history_ok stat_at parse_at clock "/zim/a.zim").
  { split; unfold stamp_at, stat_at, parse_at, clock; intros t1 t2.
    - intros t H1 H2. destruct (Nat.ltb_spec t1 2), (Nat.ltb_spec t2 2), (Nat.ltb_spec t 2); intros Hs; cbn in Hs; (done || lia || discriminate Hs).
    - lia. }
  assert (Hh : handle_at stat_at parse_at clock 3 "/zim/a.zim" "a" z).
  { intros c [= <-]. exists 0%nat, 0%nat, 0%nat. cbn. split_and!; (lia || done). }
  destruct (@opened_archive_is_current string (map_order string CachedZim) stat_at parse_at clock env "a" true z
    "/zim/a.zim" "new" (snd (@open_zim_fresh string (map_order string CachedZim) env "a" z)) 3 3 3 4) as ((t & H1 & H2 & H3) & _); try done; try lia.
  - intros c Hc. by apply (handle_ok_later stat_at parse_at clock 3); [lia|apply Hh].
  - exists t. split; [lia|done].
Defined.

(** The number of open archives stays within its cap. *)
Theorem open_handles_bounded {A} {Hh : HashIter string (@CachedZim A)} env name fresh (z : @ZimManager A) :
  map_len (open_handles z) <= MAX_OPEN_ZIMS -> map_len (open_handles (o_peer env z)) <= MAX_OPEN_ZIMS ->
  map_len (open_handles (snd (open_zim_impl env name fresh z))) <= MAX_OPEN_ZIMS.
Proof.
  intros Hz Hp.
  assert (Hhit : forall (z0 : @ZimManager A) v c, map_len (open_handles z0) <= MAX_OPEN_ZIMS -> open_handles z0 !! name = Some c ->
    map_len (open_handles (snd (hit name v c z0))) <= MAX_OPEN_ZIMS).
  { intros z0 v c Hb Hc. cbn. unfold map_len in *. rewrite map_size_insert, Hc. cbn. lia. }
  unfold open_zim_impl. destruct (file_path_of name z) as [p|]; [|done].
  destruct (if fresh then None else trusted_handle name (o_now env) z) as [c|] eqn:Et.
  { destruct fresh; [done|]. apply trusted_handle_some in Et as [Hc _].
    specialize (Hhit z None c Hz Hc). by destruct (hit name None c z). }
  destruct (valid_handle _ _ _ z) as [c|] eqn:Ev.
  { apply valid_handle_some in Ev as [Hc _]. specialize (Hhit z (Some (o_now env)) c Hz Hc). by destruct (hit _ _ c z). }
  destruct (o_parse env p) as [arc|e]; [|done]. unfold insert_parsed.
  destruct (valid_handle _ _ _ (o_peer env z)) as [c|] eqn:Ev2.
  { apply valid_handle_some in Ev2 as [Hc _]. specialize (Hhit _ (Some (o_now env)) c Hp Hc). by destruct (hit _ _ c _). }
  cbn. pose proof (evict_lru_bound _ Hp) as He. etrans; [apply map_len_insert|]. lia.
Qed.

(** Metadata survives the table.  An entry whose counts fit the columns,
    whose date came from a date and whose progress is a single-precision number
    comes back from the row it was written to as it was, with the row's id. *)
Theorem stored_meta_roundtrip `{Ch : Chrono} id m :
  Forall (fun n => 0 <= n <= i64_max) [m_entry_count m; m_article_count m; m_file_size m; m_indexed_entries m] ->
  (forall s, m_date m = Some s -> exists d, s = date_string d) ->
  f32_to_f64 (f64_to_f32 (m_index_progress m)) = m_index_progress m ->
  meta_of (row_of id m) = with_id id m.
Proof.
  intros Hn Hd Hp.
  assert (Hc : forall x, 0 <= x <= i64_max -> count_u64 (u64_as_i64 x) = x).
  { intros x Hx. unfold count_u64, u64_as_i64. rewrite (proj2 (Z.leb_le _ _) (proj2 Hx)).
    by rewrite (proj2 (Z.leb_le _ _) (proj1 Hx)). }
  rewrite !Forall_cons in Hn. destruct Hn as (? & ? & ? & ? & _).
  unfold meta_of, row_of, with_id. cbn. rewrite !Hc, Hp by done. f_equal.
  destruct (m_date m) as [s|] eqn:E; [|done]. destruct (Hd s eq_refl) as [d ->]. cbn. by rewrite date_string_parse.
Qed.

Lemma stored_meta_roundtrip_witness :
  @meta_of text_chrono (row_of 7 (stub "wiki_en" "/zim/wiki_en.zim" 4096)) = with_id 7 (stub "wiki_en" "/zim/wiki_en.zim" 4096).
Proof.
  apply (@stored_meta_roundtrip text_chrono 7 (stub "wiki_en" "/zim/wiki_en.zim" 4096)).
  - rewrite !Forall_cons. cbn [m_entry_count m_article_count m_file_size m_indexed_entries stub]. unfold i64_max.
    split_and!; try lia. constructor.
  - done.
  - vm_compute. reflexivity.
Defined.

(** An unauthenticated listing shows no path, and otherwise what the
    authenticated one shows. *)
Theorem listing_hides_paths {A} {Hi : HashIter string ZimMeta} (z : @ZimManager A) :
  Forall (fun m => m_file_path m = "[redacted]") (list_zims false z) /\
  (m_name <$> list_zims false z) = (m_name <$> list_zims true z).
Proof.
  unfold list_zims. split; [apply Forall_fmap, Forall_forall; done|]. rewrite <- list_fmap_compose. by apply list_fmap_ext.
Qed.

(** The integrity record is the same in the cache and in the table, when it was
    before and the statement succeeded; an install that declares nothing keeps
    the publisher's digest. *)
Theorem digest_record_agrees `{Ch : Chrono} {A} name sha pub drift (z : @ZimManager A) t m r :
  cache z !! name = Some m -> zrows t !! name = Some r -> m_publisher_sha256 m = r_publisher_sha256 r ->
  exists z' t' m' r', set_content_sha256 NoFault name sha pub drift (z, t) = (Ok tt, (z', t')) /\
    cache z' !! name = Some m' /\ zrows t' !! name = Some r' /\
    m_content_sha256 m' = Some sha /\ r_content_sha256 r' = Some sha /\
    m_publisher_sha256 m' = r_publisher_sha256 r' /\ m_digest_drift m' = drift /\ r_digest_drift r' = drift /\
    (pub = None -> m_publisher_sha256 m' = m_publisher_sha256 m).
Proof.
  intros Hm Hr He. do 4 eexists. split; [reflexivity|]. cbn. rewrite !lookup_alter_eq, Hm, Hr. cbn.
  split; [reflexivity|]. split; [reflexivity|]. destruct pub; cbn; by split_and!.
Qed.

(** ** Departures from the comments *)

Section Departures.
#[local] Existing Instance text_chrono.
#[local] Instance departures_metas : HashIter string ZimMeta := map_order string ZimMeta.
#[local] Instance departures_handles : HashIter string (@CachedZim unit) := map_order string CachedZim.

(** A file that is listed but gone at its stat, and then gone from the listing,
    is never removed: the first tick records a snapshot without it, and the
    second finds nothing changed. *)
Example vanishing_file_is_kept :
  let '(r1, st1) := resync (quiet_resync [("a", "/zim/a.zim", None)]) one_library in
  let '(r2, st2) := resync (quiet_resync []) st1 in
  r1 = Ok [] /\ r2 = Ok [] /\ is_known "a" (fst st2) = true /\ is_Some (zrows (snd st2) !! "a").
Proof. vm_compute. split_and!; [done..|by eexists]. Qed.

(** A removal whose DELETE failed is not tried again. *)
Example failed_removal_is_not_retried :
  let failing := mkResync true (Ok []) (fun _ => None) (fun _ => Failed (Internal "connection lost")) (fun _ => NoFault) in
  let '(r1, st1) := resync failing one_library in
  let '(r2, st2) := resync (quiet_resync []) st1 in
  r1 = Err (Internal "connection lost") /\ r2 = Ok [] /\ is_known "a" (fst st2) = false /\
  is_Some (zrows (snd st2) !! "a").
Proof. vm_compute. split_and!; [done..|by eexists]. Qed.

(** Nor is a changed entry whose write failed: the table keeps the size and the
    index state of the old file. *)
Example failed_change_is_not_retried :
  let found := [("a", "/zim/a.zim", Some (6, 7))] in
  let failing := mkResync true (Ok found) (fun _ => None) (fun _ => NoFault) (fun _ => Failed (Internal "connection lost")) in
  let '(r1, st1) := resync failing one_library in
  let '(r2, st2) := resync (quiet_resync found) st1 in
  r1 = Err (Internal "connection lost") /\ r2 = Ok [] /\ (m_file_size <$> get "a" (fst st2)) = Some 7 /\
  (r_file_size <$> zrows (snd st2) !! "a") = Some 9.
Proof. vm_compute. split_and!; done. Qed.

(** Start-up over an empty directory prunes nothing: the initial snapshot is
    empty too. *)
Example empty_directory_keeps_rows :
  let '(r, (z, t)) := populate_zims (quiet_resync []) None true (new : @ZimManager unit, snd one_library) in
  r = Ok [] /\ is_known "a" z = true /\ is_Some (zrows t !! "a").
Proof. vm_compute. split_and!; [done..|by eexists]. Qed.

(** A moved file of the same size loses its index state in the table, when it
    was indexed since start-up: the cache was not told. *)
Example move_overwrites_index_status :
  let indexed := mkZims {["a" := row_of 1 (with_index "ready" f64_one (stub "a" "/zim/a.zim" 9))]} 2 in
  let '(r, (z, t)) := resync (quiet_resync [("a", "/zim/a.ZIM", Some (5, 9))]) (fst one_library, indexed) in
  r = Ok ["a (changed)"] /\ (r_index_status <$> zrows t !! "a") = Some "pending".
Proof. vm_compute. split; reflexivity. Qed.

(** Archives "0" to "f" are opened, "1" is used twice more, then "0": the next
    cold open closes "0", the one used last. *)
Example eviction_is_not_lru :
  let names := ["0"; "1"; "2"; "3"; "4"; "5"; "6"; "7"; "8"; "9"; "a"; "b"; "c"; "d"; "e"; "f"] in
  let metas := list_to_map ((fun n => (n, stub n ("/zim/" +:+ n) 1)) <$> (names ++ ["g"])) in
  let env := mkOpen 1000 (fun _ => Some (Some 1, 1)) (fun _ => Ok tt) (fun z => z) in
  let open z n := snd (open_zim env n z) in
  let z := foldl open (mkManager metas ∅ 0 ∅) (names ++ ["1"; "1"; "0"]) in
  is_Some (open_handles z !! "0") /\ open_handles (open z "g") !! "0" = None.
Proof. vm_compute. split; [by eexists|done]. Qed.

End Departures.
