(* ===== verification/IndexText.v ===== *)
(** * IndexText: from an archive entry to an article row

    The synchronous half of [src/zim/index.rs]: metadata and dates, the article
    namespace, extraction of one entry (text, preview, snippet, Q-ID), and the
    text format of the bulk COPY, with the reader the database documents for
    that format.  The [zim] crate's index access is the class [ZimIndexApi];
    Readability and the matches of the Q-ID pattern are the classes
    [Readability] and [QidRegex]. *)

From S2P Require Import Prelude RustStr Errors JsonValue SettingDefs Content ZimManager.

Definition QID_SCAN_BYTES : Z := 512 * 1024.
Definition STRIP_HEAD_BYTES : Z := 256 * 1024.
Definition MAX_ENTRY_SCAN_BYTES : Z := 32 * 1024 * 1024.
Definition MAX_TEXT_CHARS : Z := 64000.

Class ZimIndexApi {Za : ZimApi} := {
  zim_open : string -> result string Archive;
  get_by_url_index : Archive -> Z -> result string DirEntry;
  entry_url : DirEntry -> string;
  namespace_range : Archive -> Namespace -> result string (Z * Z);
  metadata : Archive -> string -> result string (option EntryContent);
  header_article_count : Archive -> Z
}.

Class Readability := { readability_excerpt : string -> string -> option string }.

(** The matches of the pattern, in order: the Q-number and whether
    [#identifiers] follows it. *)
Class QidRegex := { qid_captures : string -> list (string * bool) }.

(** ** Text *)

Definition lf : ascii := Eval cbv in chr 10.
Definition cr : ascii := Eval cbv in chr 13.
Definition tab : ascii := Eval cbv in chr 9.
Definition backslash : ascii := Eval cbv in chr 92.

(** [s.lines()]: the line feed ends a line, a carriage return before it goes
    with it. *)
Definition strip_cr (s : string) : string :=
  match str_rev s with String c r => if Ascii.eqb c cr then str_rev r else s | EmptyString => s end.

Fixpoint lines_of (parts : list string) : list string :=
  match parts with
  | [] => []
  | [last] => if str_is_empty last then [] else [last]
  | p :: rest => strip_cr p :: lines_of rest
  end.

Definition lines (s : string) : list string := lines_of (split_on (Ascii.eqb lf) s).

(** [s.rfind([..])] for ASCII characters. *)
Fixpoint rfind_any (f : ascii -> bool) (s : string) : option nat :=
  match s with
  | EmptyString => None
  | String c s' =>
      match rfind_any f s' with
      | Some n => Some (S n)
      | None => if f c then Some 0%nat else None
      end
  end.

(** [\n{3,}] replaced by two line feeds: [n] feeds were just read. *)
Fixpoint feeds (n : nat) : string := match n with O => EmptyString | S n' => String lf (feeds n') end.

Fixpoint collapse_from (n : nat) (s : string) : string :=
  match s with
  | EmptyString => feeds (Nat.min n 2)
  | String c s' =>
      if Ascii.eqb c lf then collapse_from (S n) s'
      else feeds (Nat.min n 2) +:+ String c (collapse_from 0 s')
  end.

Definition collapse_newlines (text : string) : string := collapse_from 0 text.

Definition is_sentence_end (c : ascii) : bool :=
  Ascii.eqb c "."%char || Ascii.eqb c "!"%char || Ascii.eqb c "?"%char.

Definition truncate_at_sentence (text : string) (max_bytes : nat) : string :=
  if Nat.leb (String.length text) max_bytes then text
  else
    let cut := floor_char_boundary max_bytes text in
    let boundary := match rfind_any is_sentence_end (str_take cut text) with Some pos => S pos | None => cut end in
    trim_end (str_take boundary text) +:+ ellipsis.

Definition HATNOTE_PREFIXES : list string :=
  ["Main article"; "Main topic"; "For other uses"; "Part of a series on"; "This article is about";
   "Not to be confused"; "This list is incomplete"; "See also"; "In other"].

(** The first line that is long enough and no hatnote. *)
Definition first_paragraph (text : string) : option string :=
  List.find (fun trimmed => (50 <=? str_len trimmed) && negb (existsb (fun p => starts_with p trimmed) HATNOTE_PREFIXES))
    (trim <$> lines text).

Definition generate_snippet `{Readability} (text html url : string) : string :=
  let fallback := match first_paragraph text with
    | Some trimmed => truncate_at_sentence trimmed 300
    | None => char_take 200 text
    end in
  if str_len html <=? 200000 then
    match readability_excerpt html url with
    | Some excerpt => if str_is_empty (trim excerpt) then fallback else truncate_at_sentence excerpt 300
    | None => fallback
    end
  else fallback.

(** ** Q-IDs *)

Fixpoint extract_qid_from (first_qid : option Z) (caps : list (string * bool)) : option Z :=
  match caps with
  | [] => first_qid
  | (q_str, is_identifiers) :: rest =>
      match parse_i64 (str_drop 1 q_str) with
      | None => extract_qid_from first_qid rest
      | Some num =>
          if is_identifiers then Some num
          else extract_qid_from (match first_qid with Some q => Some q | None => Some num end) rest
      end
  end.

Definition extract_qid `{QidRegex} (html : string) : option Z := extract_qid_from None (qid_captures html).

Definition extract_qid_windowed `{QidRegex} (html : string) : option Z :=
  let cut := ceil_char_boundary (Z.to_nat (Z.min QID_SCAN_BYTES (str_len html))) html in
  extract_qid (str_take cut html).

Definition is_wikipedia `{CaseFold} (name language : string) (description publisher : option string) : bool :=
  match to_lowercase language with
  | EmptyString => false
  | String c _ =>
      if (97 <=? byte c) && (byte c <=? 122) then
        let says o := match o with Some d => contains "wikipedia" (to_lowercase d) | None => false end in
        let name_lc := to_lowercase name in
        says description || says publisher || contains "wikipedia" name_lc || contains "wiki_" name_lc
      else false
  end.

(** ** Entries *)

Record ArticleRow := mkArt {
  ar_path : string;
  ar_title : string;
  ar_content_preview : option string;
  ar_snippet : string;
  ar_language : string;
  ar_qid : option Z
}.

Definition strip_head (html : string) : string :=
  if str_len html <=? STRIP_HEAD_BYTES then html
  else str_take (floor_char_boundary (Z.to_nat STRIP_HEAD_BYTES) html) html.

Definition is_text_mime (mt : MimeType) : bool :=
  match mt with MType s => String.eqb s "text/html" || starts_with "text/" s | _ => false end.

(** [r.ok()]. *)
Definition ok {E A} (r : result E A) : option A := match r with Ok a => Some a | Err _ => None end.

Definition cap_scan (b : string) : string :=
  if MAX_ENTRY_SCAN_BYTES <=? str_len b then str_take (Z.to_nat MAX_ENTRY_SCAN_BYTES) b else b.

Section Extraction.
Context {Za : ZimApi} {Zi : ZimIndexApi} {Df : Deformat} {Rd : Readability} {Qr : QidRegex} {Ch : Chrono}.

(** The row of an entry whose bytes were read. *)
Definition row_of_html (original_path title html_bytes language : string) (is_wiki : bool) : option ArticleRow :=
  if str_is_empty html_bytes then None
  else
    let html_str := from_utf8_lossy html_bytes in
    let text := strip_to_text (strip_head html_str) in
    if str_is_empty (trim text) then None
    else
      let text := if MAX_TEXT_CHARS <? str_len text then char_take (Z.to_nat MAX_TEXT_CHARS) text else text in
      let text := collapse_newlines text in
      Some (mkArt original_path title (Some (char_take (Z.to_nat PREVIEW_CHARS) text))
              (generate_snippet text html_str original_path) language
              (if is_wiki then extract_qid_windowed html_str else None)).

Definition extract_entry (archive : Archive) (idx : Z) (language : string) (is_wiki : bool) : option ArticleRow :=
  ok (get_by_url_index archive idx) ≫= fun entry =>
  if negb (is_text_mime (mime_type entry)) then None
  else
    let original_path := entry_url entry in
    ok (resolve archive entry) ≫= fun resolved =>
    let title := if str_is_empty (entry_title entry) then derive_title_from_path original_path else entry_title entry in
    match entry_content archive resolved with
    | Ok (Some content) =>
        ok (c_with content) ≫= fun b => row_of_html original_path title (cap_scan b) language is_wiki
    | _ => None
    end.

Definition first_entry_content_key (archive : Archive) (start_idx : Z) : string :=
  match get_by_url_index archive start_idx with
  | Err _ => EmptyString
  | Ok entry =>
      match resolve archive entry with
      | Err _ => EmptyString
      | Ok resolved =>
          match entry_content archive resolved with
          | Ok (Some content) =>
              match c_len content with Ok size => entry_url entry +:+ ":" +:+ pretty size | Err _ => EmptyString end
          | _ => EmptyString
          end
      end
  end.

Definition find_article_namespace (archive : Archive) : Result (Namespace * (Z * Z)) :=
  let try ns := match namespace_range archive ns with
    | Ok (s, e) => if s <? e then Some (ns, (s, e)) else None
    | Err _ => None
    end in
  match try Articles with
  | Some r => Ok r
  | None => match try UserContent with Some r => Ok r | None => Err (Zim "no article namespace found in ZIM") end
  end.

Definition read_metadata (archive : Archive) (key : string) : option string :=
  match metadata archive key with
  | Ok (Some content) => (fun b => trim (from_utf8_lossy b)) <$> ok (c_to_vec content)
  | _ => None
  end.

Definition ZIM_DATE_FMTS : list string := ["%Y-%m-%d"; "%Y-%m-%d %H:%M:%S"; "%Y/%m/%d"; "%d/%m/%Y"; "%Y%m%d"].

Definition parse_zim_date (s : string) : option NaiveDate :=
  let s := trim s in
  match find_map (date_parse s) ZIM_DATE_FMTS with
  | Some d => Some d
  | None => datetime_parse s "%Y-%m-%dT%H:%M:%S"
  end.

Record OpenedZim := mkOpened {
  o_archive : Archive;
  o_display_title : string;
  o_language : string;
  o_description : option string;
  o_creator : option string;
  o_publisher : option string;
  o_date : option NaiveDate;
  o_article_ns : Namespace;
  o_entry_range : Z * Z;
  o_article_count : Z;
  o_first_entry_key : string
}.

Definition open_zim_blocking (file_path fallback_title fallback_language : string) : Result OpenedZim :=
  match zim_open file_path with
  | Err e => Err (Zim ("opening " +:+ file_path +:+ ": " +:+ e))
  | Ok archive =>
      let? found := find_article_namespace archive in
      Ok (mkOpened archive (default fallback_title (read_metadata archive "Title"))
            (default fallback_language (read_metadata archive "Language")) (read_metadata archive "Description")
            (read_metadata archive "Creator") (read_metadata archive "Publisher")
            (read_metadata archive "Date" ≫= parse_zim_date) (fst found) (snd found)
            (header_article_count archive) (first_entry_content_key archive (fst (snd found))))
  end.

End Extraction.

(** ** The COPY text format *)

Definition octal_digit (z : Z) : ascii := chr (48 + z).

Definition escape_copy_char (c : ascii) : string :=
  if Ascii.eqb c backslash then String backslash (String backslash EmptyString)
  else if Ascii.eqb c lf then String backslash "n"
  else if Ascii.eqb c cr then String backslash "r"
  else if Ascii.eqb c tab then String backslash "t"
  else if byte c <? 0x20 then
    let b := byte c in
    String backslash (String (octal_digit (Z.land (Z.shiftr b 6) 3))
      (String (octal_digit (Z.land (Z.shiftr b 3) 7)) (String (octal_digit (Z.land b 7)) EmptyString)))
  else String c EmptyString.

Fixpoint escape_copy_text_into (out s : string) : string :=
  match s with
  | EmptyString => out
  | String c s' => escape_copy_text_into (out +:+ escape_copy_char c) s'
  end.

Definition escape_copy_text (s : string) : string := escape_copy_text_into EmptyString s.

(** One row of the payload. *)
Definition copy_line (namespace : string) (zim_id : Z) (row : ArticleRow) : string :=
  let t := String tab EmptyString in
  escape_copy_text (ar_path row) +:+ t +:+ escape_copy_text (ar_title row) +:+ t +:+
  match ar_content_preview row with Some s => escape_copy_text s | None => String backslash "N" end +:+ t +:+
  escape_copy_text (ar_snippet row) +:+ t +:+ escape_copy_text (ar_language row) +:+ t +:+
  escape_copy_text namespace +:+ t +:+ pretty zim_id +:+ String lf EmptyString.

Fixpoint copy_payload (namespace : string) (zim_id : Z) (rows : list ArticleRow) : string :=
  match rows with
  | [] => EmptyString
  | row :: rest => copy_line namespace zim_id row +:+ copy_payload namespace zim_id rest
  end.

(** The reader: rows end at a line feed, fields at a tab, and a backslash takes
    the next character along. *)
Definition copy_push (c : ascii) (rows : list (list string)) : list (list string) :=
  match rows with
  | (f :: fs) :: rest => (String c f :: fs) :: rest
  | _ => [[String c EmptyString]]
  end.

Fixpoint copy_fields (s : string) : list (list string) :=
  match s with
  | EmptyString => []
  | String c s' =>
      if Ascii.eqb c lf then [EmptyString] :: copy_fields s'
      else if Ascii.eqb c tab then
        match copy_fields s' with
        | row :: rest => (EmptyString :: row) :: rest
        | [] => [[EmptyString; EmptyString]]
        end
      else if Ascii.eqb c backslash then
        match s' with
        | String d s'' => copy_push c (copy_push d (copy_fields s''))
        | EmptyString => copy_push c []
        end
      else copy_push c (copy_fields s')
  end.

Definition octal (c : ascii) : option Z :=
  let v := byte c - 48 in if (0 <=? v) && (v <=? 7) then Some v else None.

(** [\b \f \n \r \t \v] and any other character after the backslash. *)
Definition copy_control (c : ascii) : ascii :=
  if Ascii.eqb c "b"%char then chr 8
  else if Ascii.eqb c "f"%char then chr 12
  else if Ascii.eqb c "n"%char then lf
  else if Ascii.eqb c "r"%char then cr
  else if Ascii.eqb c "t"%char then tab
  else if Ascii.eqb c "v"%char then chr 11
  else c.

(** Up to three octal digits make one byte. *)
Fixpoint copy_unescape (s : string) : string :=
  match s with
  | EmptyString => EmptyString
  | String c s1 =>
      if negb (Ascii.eqb c backslash) then String c (copy_unescape s1)
      else
        match s1 with
        | EmptyString => String c EmptyString
        | String c1 s2 =>
            match octal c1 with
            | None => String (copy_control c1) (copy_unescape s2)
            | Some a =>
                match s2 with
                | EmptyString => String (chr a) EmptyString
                | String c2 s3 =>
                    match octal c2 with
                    | None => String (chr a) (copy_unescape s2)
                    | Some b =>
                        match s3 with
                        | EmptyString => String (chr (a * 8 + b)) EmptyString
                        | String c3 s4 =>
                            match octal c3 with
                            | None => String (chr (a * 8 + b)) (copy_unescape s3)
                            | Some d => String (chr (((a * 8 + b) * 8 + d) mod 256)) (copy_unescape s4)
                            end
                        end
                    end
                end
            end
        end
  end.

(** [\N] alone is NULL. *)
Definition copy_value (f : string) : option string :=
  if String.eqb f (String backslash "N") then None else Some (copy_unescape f).

Definition copy_read (payload : string) : list (list (option string)) := (fun row : list string => copy_value <$> row) <$> copy_fields payload.

(** ** Lemmas on the format *)

Lemma escape_into_acc out s : escape_copy_text_into out s = out +:+ escape_copy_text s.
Proof.
  unfold escape_copy_text. revert out. induction s as [|c s IH]; intros out; cbn [escape_copy_text_into].
  - by rewrite str_app_nil_r.
  - rewrite IH, (IH (EmptyString +:+ _)). by rewrite <- str_app_assoc.
Qed.

Lemma escape_cons c s : escape_copy_text (String c s) = escape_copy_char c +:+ escape_copy_text s.
Proof. unfold escape_copy_text. cbn [escape_copy_text_into]. by rewrite escape_into_acc. Qed.

(** The octal digits of a control character read back as the character. *)
Lemma control_digits : Forall (fun x => exists a b e,
    octal (octal_digit (Z.land (Z.shiftr x 6) 3)) = Some a /\ octal (octal_digit (Z.land (Z.shiftr x 3) 7)) = Some b /\
    octal (octal_digit (Z.land x 7)) = Some e /\ ((a * 8 + b) * 8 + e) mod 256 = x /\
    Forall (fun d => d <> backslash /\ d <> lf /\ d <> tab)
      [octal_digit (Z.land (Z.shiftr x 3) 7); octal_digit (Z.land x 7)]) (seqZ 0 32).
Proof.
  cbv [seqZ Z.to_nat Pos.to_nat Pos.iter_op Nat.add seq fmap list_fmap].
  repeat (constructor; [do 3 eexists; split_and!; [reflexivity..|repeat constructor; discriminate]|]). constructor.
Qed.

(** What one escaped character is made of, by its value. *)
Lemma escape_char_cases c :
  (escape_copy_char c = String c EmptyString /\ c <> backslash /\ c <> lf /\ c <> tab) \/
  (exists d, escape_copy_char c = String backslash (String d EmptyString) /\ octal d = None /\ copy_control d = c /\ d <> "N"%char) \/
  (exists d1 d2 d3 a b e, escape_copy_char c = String backslash (String d1 (String d2 (String d3 EmptyString))) /\
     octal d1 = Some a /\ octal d2 = Some b /\ octal d3 = Some e /\ chr (((a * 8 + b) * 8 + e) mod 256) = c /\
     Forall (fun d => d <> backslash /\ d <> lf /\ d <> tab) [d2; d3]).
Proof.
  unfold escape_copy_char.
  destruct (Ascii.eqb_spec c backslash) as [->|Hb]; [right; left; eexists; split_and!; done|].
  destruct (Ascii.eqb_spec c lf) as [->|Hl]; [right; left; eexists; split_and!; done|].
  destruct (Ascii.eqb_spec c cr) as [->|Hc]; [right; left; eexists; split_and!; done|].
  destruct (Ascii.eqb_spec c tab) as [->|Ht]; [right; left; eexists; split_and!; done|].
  destruct (Z.ltb_spec (byte c) 0x20) as [Hlt|_]; [|by left].
  right. right. assert (Hx : byte c ∈ seqZ 0 32) by (apply elem_of_seqZ; pose proof (byte_range c); lia).
  pose proof (proj1 (Forall_forall _ _) control_digits _ Hx) as (a & b & e & H1 & H2 & H3 & He & Hd).
  do 6 eexists. split; [reflexivity|]. split_and!; [exact H1|exact H2|exact H3| |exact Hd].
  by rewrite He, chr_byte.
Qed.

Lemma unescape_char c s : copy_unescape (escape_copy_char c +:+ s) = String c (copy_unescape s).
Proof.
  destruct (escape_char_cases c) as [(-> & Hb & _)|[(d & -> & Ho & Hc & _)|(d1 & d2 & d3 & a & b & e & -> & H1 & H2 & H3 & Hc & _)]];
    cbn [String.append copy_unescape].
  - rewrite (proj2 (Ascii.eqb_neq _ _) Hb). done.
  - rewrite Ascii.eqb_refl, Ho, Hc. done.
  - rewrite Ascii.eqb_refl, H1, H2, H3, Hc. done.
Qed.

Lemma unescape_escape s : copy_unescape (escape_copy_text s) = s.
Proof. induction s as [|c s IH]; [done|]. by rewrite escape_cons, unescape_char, IH. Qed.

(** An escaped text put before a field goes into that field as it is. *)
Definition copy_prepend (x : string) (rows : list (list string)) : list (list string) :=
  match rows with (f :: fs) :: rest => ((x +:+ f) :: fs) :: rest | _ => rows end.

Definition open_field (rows : list (list string)) : Prop := exists f fs rest, rows = (f :: fs) :: rest.

Lemma fields_escape_char c s : open_field (copy_fields s) ->
  copy_fields (escape_copy_char c +:+ s) = copy_prepend (escape_copy_char c) (copy_fields s).
Proof.
  intros (f & fs & rest & E).
  assert (Hpush : forall d s', d <> lf -> d <> tab -> d <> backslash -> copy_fields (String d s') = copy_push d (copy_fields s')).
  { intros d s' H1 H2 H3. cbn. by rewrite (proj2 (Ascii.eqb_neq _ _) H1), (proj2 (Ascii.eqb_neq _ _) H2), (proj2 (Ascii.eqb_neq _ _) H3). }
  assert (Hback : forall d s', copy_fields (String backslash (String d s')) = copy_push backslash (copy_push d (copy_fields s')))
    by done.
  destruct (escape_char_cases c) as [(-> & Hb & Hl & Ht)|[(d & -> & _)|(d1 & d2 & d3 & a & b & e & -> & _ & _ & _ & _ & Hd)]];
    cbn [String.append].
  - rewrite Hpush, E by done. done.
  - rewrite Hback, E. done.
  - rewrite !Forall_cons in Hd. destruct Hd as ((? & ? & ?) & (? & ? & ?) & _).
    rewrite Hback, !Hpush, E by done. done.
Qed.

Lemma fields_escape x s : open_field (copy_fields s) ->
  copy_fields (escape_copy_text x +:+ s) = copy_prepend (escape_copy_text x) (copy_fields s).
Proof.
  intros Ho. induction x as [|c x IH].
  - destruct Ho as (f & fs & rest & E). cbn. by rewrite E.
  - rewrite escape_cons, str_app_assoc. destruct Ho as (f & fs & rest & E). rewrite fields_escape_char, IH, E.
    + cbn. by rewrite str_app_assoc.
    + rewrite IH, E. do 3 eexists. reflexivity.
Qed.

Lemma escape_not_null s : escape_copy_text s <> String backslash "N".
Proof.
  intros H. assert (E : copy_unescape (escape_copy_text s) = "N") by by rewrite H.
  rewrite unescape_escape in E. subst s. discriminate H.
Qed.

Lemma copy_value_escape s : copy_value (escape_copy_text s) = Some s.
Proof.
  unfold copy_value. rewrite (proj2 (String.eqb_neq _ _) (escape_not_null s)). by rewrite unescape_escape.
Qed.

(** A field as the payload has it. *)
Definition copy_field (o : option string) : string :=
  match o with Some s => escape_copy_text s | None => String backslash "N" end.

Lemma copy_value_field o : copy_value (copy_field o) = o.
Proof. destruct o as [s|]; [apply copy_value_escape|done]. Qed.

Lemma fields_sep o s row rest : copy_fields s = row :: rest ->
  copy_fields (copy_field o +:+ String tab s) = (copy_field o :: row) :: rest.
Proof.
  intros E. assert (Et : copy_fields (String tab s) = (EmptyString :: row) :: rest) by (cbn; by rewrite E).
  destruct o as [x|]; cbn [copy_field].
  - rewrite fields_escape, Et; [cbn; by rewrite str_app_nil_r|]. rewrite Et. do 3 eexists. reflexivity.
  - cbn -[copy_fields]. change (copy_push backslash (copy_push "N"%char (copy_fields (String tab s))) =
      (String backslash "N" :: row) :: rest). by rewrite Et.
Qed.

Lemma fields_end x s : copy_fields (escape_copy_text x +:+ String lf s) = [escape_copy_text x] :: copy_fields s.
Proof.
  rewrite fields_escape; cbn; [by rewrite str_app_nil_r|]. do 3 eexists. reflexivity.
Qed.

Lemma escape_plain s : str_forall is_digit_char s = true -> escape_copy_text s = s.
Proof.
  induction s as [|c s IH]; [done|]. cbn [str_forall]. intros [Hc Hs]%andb_prop. rewrite escape_cons, IH by done.
  assert (Hr : 48 <= byte c <= 57) by (unfold is_digit_char, digit in Hc; destruct (Z.leb_spec 48 (byte c)), (Z.leb_spec (byte c) 57); done).
  unfold escape_copy_char.
  assert (Hne : forall k, byte k < 48 \/ 57 < byte k -> Ascii.eqb c k = false)
    by (intros k Hk; apply Ascii.eqb_neq; intros ->; lia).
  rewrite !Hne by (vm_compute; by (left + right)).
  by rewrite (proj2 (Z.ltb_ge (byte c) 0x20)) by lia.
Qed.

Lemma copy_read_payload namespace zim_id rows :
  0 <= zim_id ->
  copy_read (copy_payload namespace zim_id rows) =
  (fun r => [Some (ar_path r); Some (ar_title r); ar_content_preview r; Some (ar_snippet r); Some (ar_language r);
             Some namespace; Some (pretty zim_id)]) <$> rows.
Proof.
  intros Hid. unfold copy_read. induction rows as [|r rows IH]; [done|]. cbn [copy_payload].
  assert (E : copy_fields (copy_line namespace zim_id r +:+ copy_payload namespace zim_id rows) =
    (copy_field <$> [Some (ar_path r); Some (ar_title r); ar_content_preview r; Some (ar_snippet r);
       Some (ar_language r); Some namespace; Some (pretty zim_id)]) :: copy_fields (copy_payload namespace zim_id rows)).
  { unfold copy_line. rewrite !str_app_assoc. cbn [String.append].
    assert (Hp : pretty zim_id = escape_copy_text (pretty zim_id)) by (by rewrite escape_plain by by apply pretty_digits).
    rewrite Hp at 1. cbn [fmap list_fmap].
    apply (fields_sep (Some _)), (fields_sep (Some _)), fields_sep, (fields_sep (Some _)), (fields_sep (Some _)), (fields_sep (Some _)).
    apply fields_end. }
  rewrite E. cbn [fmap list_fmap]. rewrite !copy_value_field. by f_equal.
Qed.

Lemma rfind_any_char f s i : rfind_any f s = Some i ->
  exists c r, str_drop i s = String c r /\ f c = true /\ rfind_any f r = None.
Proof.
  revert i. induction s as [|a s IH]; intros i; cbn; [done|].
  destruct (rfind_any f s) as [j|] eqn:E; [intros [= <-]; by apply IH|].
  destruct (f a) eqn:Ea; [intros [= <-]; cbn; eauto|done].
Qed.

Lemma rfind_any_bound f s i : rfind_any f s = Some i -> (i < String.length s)%nat.
Proof.
  revert i. induction s as [|a s IH]; intros i; cbn; [done|].
  destruct (rfind_any f s) as [j|]; [intros [= <-]; specialize (IH j eq_refl); lia|].
  destruct (f a); [intros [= <-]; lia|done].
Qed.

(** ** Theorems *)

(** C30: the bulk load carries untrusted text exactly.  Read back with the
    format's own rules, greedy octal escapes included, the payload has one row
    per article, with every field as it was: no byte of a path, a title or a
    text can end a field, a row or an escape early. *)
Theorem copy_payload_roundtrip namespace zim_id rows :
  0 <= zim_id ->
  copy_read (copy_payload namespace zim_id rows) =
  (fun r => [Some (ar_path r); Some (ar_title r); ar_content_preview r; Some (ar_snippet r); Some (ar_language r);
             Some namespace; Some (pretty zim_id)]) <$> rows.
Proof. apply copy_read_payload. Qed.

Lemma copy_payload_roundtrip_witness :
  let row := mkArt "A/x" (str_of [65; 0; 53]) None (str_of [92; 78; 9; 10]) "en" None in
  copy_read (copy_payload "C" 3 [row]) =
  [[Some "A/x"; Some (str_of [65; 0; 53]); None; Some (str_of [92; 78; 9; 10]); Some "en"; Some "C"; Some "3"]].
Proof. intros row. apply (copy_payload_roundtrip "C" 3 [row]). lia. Defined.

(** Cutting at a sentence never splits a character.  A longer text becomes
    a prefix of at most the limit, cut on a character boundary, without its
    trailing white space and with an ellipsis; the prefix ends at the last
    sentence end within the limit, when there is one. *)
Theorem sentence_cut_is_safe text max_bytes :
  utf8_valid (bytes_of text) = true -> (max_bytes < String.length text)%nat ->
  exists k, (k <= max_bytes)%nat /\ is_char_boundary text k = true /\
    truncate_at_sentence text max_bytes = trim_end (str_take k text) +:+ ellipsis /\
    let within := str_take (floor_char_boundary max_bytes text) text in
    match rfind_any is_sentence_end within with
    | Some pos => k = S pos /\ exists c r, str_drop pos within = String c r /\ is_sentence_end c = true /\
        rfind_any is_sentence_end r = None
    | None => k = floor_char_boundary max_bytes text
    end.
Proof.
  intros Hu Hl. unfold truncate_at_sentence. rewrite (proj2 (Nat.leb_gt _ _) Hl).
  pose proof (floor_char_boundary_le max_bytes text) as Hcut.
  destruct (rfind_any is_sentence_end (str_take (floor_char_boundary max_bytes text) text)) as [pos|] eqn:E.
  - exists (S pos). pose proof (rfind_any_bound _ _ _ E) as Hb. rewrite str_take_length in Hb.
    destruct (rfind_any_char _ _ _ E) as (c & r & Hd & Hc & Hr).
    split; [lia|]. split; [|by eauto 10].
    destruct (str_take_drop_cons _ _ _ _ _ Hd) as [r' Hd']. eapply boundary_after_ascii; [done| |done].
    unfold is_sentence_end in Hc. destruct (Ascii.eqb_spec c "."%char) as [->|]; [done|].
    destruct (Ascii.eqb_spec c "!"%char) as [->|]; [done|]. destruct (Ascii.eqb_spec c "?"%char) as [->|]; done.
  - exists (floor_char_boundary max_bytes text). split_and!; [done| |done|done].
    by apply floor_char_boundary_ok, boundary_start.
Qed.

Lemma sentence_cut_is_safe_witness :
  exists k, (k <= 8)%nat /\ truncate_at_sentence "One. Two three" 8 = trim_end (str_take k "One. Two three") +:+ ellipsis.
Proof.
  destruct (sentence_cut_is_safe "One. Two three" 8) as (k & H1 & _ & H2 & _); [reflexivity|cbn; lia|]. eauto.
Defined.

(** Which Q-ID an article gets: the first one marked as the article's own,
    else the first one of all; numbers too large for the column are passed over
    and hide no later match. *)
Theorem qid_prefers_own `{Qr : QidRegex} html :
  let nums := omap (fun c => (fun n => (n, snd c)) <$> parse_i64 (str_drop 1 (fst c))) (qid_captures html) in
  extract_qid html = match List.find snd nums with Some (n, _) => Some n | None => fst <$> head nums end.
Proof.
  unfold extract_qid. generalize (qid_captures html) as caps. intros caps.
  assert (H : forall first, extract_qid_from first caps =
    let nums := omap (fun c => (fun n => (n, snd c)) <$> parse_i64 (str_drop 1 (fst c))) caps in
    match List.find snd nums with
    | Some (n, _) => Some n
    | None => match first with Some q => Some q | None => fst <$> head nums end
    end).
  { induction caps as [|[q b] caps IH]; intros first; cbn -[str_drop parse_i64]; [by destruct first|].
    destruct (parse_i64 (str_drop 1 q)) as [n|]; cbn -[str_drop parse_i64]; [|apply IH].
    destruct b; cbn -[str_drop parse_i64]; [done|]. rewrite IH. cbn zeta. destruct (List.find _ _) as [[? ?]|]; [done|]. by destruct first. }
  apply H.
Qed.
