(* ===== verification/ZimIndex.v ===== *)
(** * ZimIndex: indexing an archive

    The asynchronous half of [src/zim/index.rs]: the skip gate, the checkpoint,
    the chunked load through the staging table, the prune and the ready flip,
    the per-archive lock and the batch run.  A computation of type [IxM A] runs
    against the tables and the checkpoint files; every statement takes the next
    step number, the clock and the [Fault] are functions of the step, and
    [ix_peer] is what sessions that index other archives do before it. *)

From S2P Require Import Prelude RustStr Errors Floats JsonValue SettingDefs Content ZimManager IndexText.

(** A row of [articles], less the columns the index run neither reads nor
    writes.  The vector is the one the embedding run stored. *)
Record IndexedArticle := mkIndexed {
  ia_title : string;
  ia_preview : option string;
  ia_snippet : string;
  ia_language : string;
  ia_namespace : string;
  ia_updated_at : Z;
  ia_embedding : option string
}.

Record StagedRow := mkStaged {
  st_path : string;
  st_title : string;
  st_preview : option string;
  st_snippet : string;
  st_language : string;
  st_namespace : string;
  st_zim_id : Z
}.

(** [None] is the empty text of a checkpoint that has no start time. *)
Record Checkpoint := mkCheckpoint {
  cp_file_mtime : Z;
  cp_total_entries : Z;
  cp_completed : Z;
  cp_index_started_at : option Z;
  cp_content_key : string
}.

Section Index.
Context {Za : ZimApi} {Zi : ZimIndexApi} {Df : Deformat} {Rd : Readability} {Qr : QidRegex} {Ch : Chrono} {Cf : CaseFold}.

Record IndexDb := mkIx {
  ix_articles : gmap (Z * string) IndexedArticle;
  ix_staging : list StagedRow;
  ix_qids : gmap (Z * string) Z;
  ix_zims : ZimsTable;
  ix_checkpoints : gmap string Checkpoint;
  ix_step : nat
}.

Record IndexEnv := mkIndexEnv {
  ix_fault : nat -> Fault;
  ix_clock : nat -> Z;
  ix_peer : nat -> IndexDb -> IndexDb;
  ix_saves : nat -> bool;
  ix_mtime : nat -> Z
}.

Definition IxM (A : Type) : Type := IndexEnv -> IndexDb -> Result A * IndexDb.

Definition ix_ret {A} (r : Result A) : IxM A := fun _ db => (r, db).
Definition ix_bind {A B} (c : IxM A) (k : A -> IxM B) : IxM B :=
  fun env db => let '(r, db') := c env db in match r with Ok a => k a env db' | Err e => (Err e, db') end.

Notation "'do' x := c 'in' k" := (ix_bind c (fun x => k))
  (at level 10, x pattern, c at level 100, k at level 200, format "'[v' 'do'  x  :=  c  'in' '/' k ']'").

Definition set_articles (a : gmap (Z * string) IndexedArticle) (db : IndexDb) : IndexDb :=
  mkIx a (ix_staging db) (ix_qids db) (ix_zims db) (ix_checkpoints db) (ix_step db).
Definition set_staging (s : list StagedRow) (db : IndexDb) : IndexDb :=
  mkIx (ix_articles db) s (ix_qids db) (ix_zims db) (ix_checkpoints db) (ix_step db).
Definition set_qids (q : gmap (Z * string) Z) (db : IndexDb) : IndexDb :=
  mkIx (ix_articles db) (ix_staging db) q (ix_zims db) (ix_checkpoints db) (ix_step db).
Definition set_zims (z : ZimsTable) (db : IndexDb) : IndexDb :=
  mkIx (ix_articles db) (ix_staging db) (ix_qids db) z (ix_checkpoints db) (ix_step db).
Definition set_checkpoints (c : gmap string Checkpoint) (db : IndexDb) : IndexDb :=
  mkIx (ix_articles db) (ix_staging db) (ix_qids db) (ix_zims db) c (ix_step db).

(** The state a statement meets: the others' work is in, the step is taken. *)
Definition ix_tick (env : IndexEnv) (db : IndexDb) : IndexDb :=
  let db' := ix_peer env (ix_step db) db in
  mkIx (ix_articles db') (ix_staging db') (ix_qids db') (ix_zims db') (ix_checkpoints db') (S (ix_step db)).

(** A statement, given its time. *)
Definition ix_exec {A} (stmt : Z -> IndexDb -> Result A * IndexDb) : IxM A :=
  fun env db =>
    let n := ix_step db in
    let db' := ix_tick env db in
    match ix_fault env n with
    | NoFault => stmt (ix_clock env n) db'
    | Failed e => (Err e, db')
    | ReplyLost e => (Err e, snd (stmt (ix_clock env n) db'))
    end.

(** A task on the blocking pool: it can only be lost. *)
Definition ix_blocking {A} (r : Result A) : IxM A := ix_exec (fun _ db => (r, db)).

(** ** Statements *)

Definition alter_zim (name : string) (g : ZimRow -> ZimRow) (db : IndexDb) : IndexDb :=
  set_zims (mkZims (alter g name (zrows (ix_zims db))) (zseq (ix_zims db))) db.

Definition row_index (status : string) (progress : f32) (entries : Z) (r : ZimRow) : ZimRow :=
  mkZimRow (r_id r) (r_name r) (r_display_title r) (r_description r) (r_language r) (r_creator r) (r_publisher r)
    (r_date r) (r_entry_count r) (r_article_count r) (r_file_path r) (r_file_size r) (r_category r)
    status progress entries (r_embed_enabled r) (r_content_sha256 r) (r_publisher_sha256 r) (r_digest_drift r).

Definition update_zim_status (name : string) (o : OpenedZim) (article_count : Z) : IxM unit :=
  ix_exec (fun _ db => (Ok tt, alter_zim name (fun r =>
    mkZimRow (r_id r) (r_name r) (o_display_title o) (o_description o) (o_language o) (o_creator o) (o_publisher o)
      (o_date o) (r_entry_count r) (u64_as_i64 article_count) (r_file_path r) (r_file_size r) (r_category r)
      "indexing" f32_zero (r_indexed_entries r) (r_embed_enabled r) (r_content_sha256 r) (r_publisher_sha256 r)
      (r_digest_drift r)) db)).

Definition update_progress (name : string) (progress : f64) (completed : Z) : IxM unit :=
  ix_exec (fun _ db => (Ok tt, alter_zim name (fun r =>
    row_index (r_index_status r) (f64_to_f32 progress) (u64_as_i64 completed) r) db)).

(** Best effort: the result is dropped. *)
Definition mark_index_error (name : string) : IxM unit :=
  fun env db => (Ok tt, snd (ix_exec (fun _ db => (Ok tt, alter_zim name (fun r =>
    row_index "error" (r_index_progress r) (r_indexed_entries r) r) db)) env db)).

Definition select_now : IxM Z := ix_exec (fun now db => (Ok now, db)).
Definition select_zim_id (name : string) : IxM (option Z) :=
  ix_exec (fun _ db => (Ok (r_id <$> zrows (ix_zims db) !! name), db)).

Definition of_zim (zim_id : Z) (s : StagedRow) : bool := st_zim_id s =? zim_id.

Definition clear_staging (zim_id : Z) : IxM unit :=
  ix_exec (fun _ db => (Ok tt, set_staging (List.filter (fun s => negb (of_zim zim_id s)) (ix_staging db)) db)).

(** The database's refusal of a statement is an error like any other. *)
Definition refused : Error := Internal "statement refused by the database".

(** A row of the payload; no text column holds a NUL. *)
Definition has_nul (o : option string) : bool :=
  match o with Some s => contains_char (chr 0) s | None => false end.

Definition staged_of (fields : list (option string)) : option StagedRow :=
  if existsb has_nul fields then None
  else
    match fields with
    | [Some p; Some t; pre; Some sn; Some l; Some ns; Some id] => mkStaged p t pre sn l ns <$> parse_i64 id
    | _ => None
    end.

Fixpoint all_some {A} (l : list (option A)) : option (list A) :=
  match l with
  | [] => Some []
  | o :: rest => o ≫= fun a => cons a <$> all_some rest
  end.

(** COPY loads all rows or none. *)
Definition copy_in (payload : string) : IxM unit :=
  ix_exec (fun _ db =>
    match all_some (staged_of <$> copy_read payload) with
    | Some rows => (Ok tt, set_staging (ix_staging db ++ rows) db)
    | None => (Err refused, db)
    end).

(** [UPSERT_ARTICLES_FROM_STAGING_SQL]: one statement may not meet a row twice.
    On a conflict the language, the namespace and the vector stay. *)
Definition upsert_article (now : Z) (arts : gmap (Z * string) IndexedArticle) (s : StagedRow) :
    gmap (Z * string) IndexedArticle :=
  let key := (st_zim_id s, st_path s) in
  <[key := match arts !! key with
    | Some a => mkIndexed (st_title s) (st_preview s) (st_snippet s) (ia_language a) (ia_namespace a) now (ia_embedding a)
    | None => mkIndexed (st_title s) (st_preview s) (st_snippet s) (st_language s) (st_namespace s) now None
    end]> arts.

Definition upsert_articles (zim_id : Z) : IxM unit :=
  ix_exec (fun now db =>
    let rows := List.filter (of_zim zim_id) (ix_staging db) in
    if bool_decide (NoDup (st_path <$> rows)) then (Ok tt, set_articles (foldl (upsert_article now) (ix_articles db) rows) db)
    else (Err refused, db)).

Definition insert_qids (zim_id : Z) (pairs : list (string * Z)) : IxM unit :=
  ix_exec (fun _ db =>
    if bool_decide (NoDup pairs.*1) then
      (Ok tt, set_qids (foldl (fun q pv => <[(zim_id, fst pv) := snd pv]> q) (ix_qids db) pairs) db)
    else (Err refused, db)).

Definition bulk_insert (rows : list ArticleRow) (namespace : string) (zim_id : Z) : IxM unit :=
  do _ := copy_in (copy_payload namespace zim_id rows) in
  do _ := upsert_articles zim_id in
  let qid_rows := omap (fun r => (fun q => (ar_path r, q)) <$> ar_qid r) rows in
  do _ := (match qid_rows with [] => ix_ret (Ok tt) | _ => insert_qids zim_id qid_rows end) in
  clear_staging zim_id.

(** One transaction: the prunes and the flip, all or none. *)
Definition pruned (zim_id s : Z) (arts : gmap (Z * string) IndexedArticle) : gmap (Z * string) IndexedArticle :=
  filter (fun kv => ~ (fst (fst kv) = zim_id /\ ia_updated_at (snd kv) < s)) arts.

Definition finalize_zim (name : string) (total : Z) (index_started_at : option Z) : IxM unit :=
  ix_exec (fun _ db =>
    let db1 := match index_started_at, r_id <$> zrows (ix_zims db) !! name with
      | Some s, Some zim_id =>
          let arts := pruned zim_id s (ix_articles db) in
          set_qids (filter (fun kv => ~ (fst (fst kv) = zim_id /\ arts !! fst kv = None)) (ix_qids db)) (set_articles arts db)
      | _, _ => db
      end in
    (Ok tt, alter_zim name (row_index "ready" f32_one (u64_as_i64 total)) db1)).

(** ** Checkpoints *)

Definition checkpoint_resumable (cp : Checkpoint) (mtime total : Z) (key : string) : bool :=
  (cp_file_mtime cp =? mtime) && (cp_total_entries cp =? total) && negb (str_is_empty (cp_content_key cp))
  && String.eqb (cp_content_key cp) key.

Definition load_checkpoint (name : string) : IxM (option Checkpoint) :=
  fun env db => (Ok (ix_checkpoints db !! name), db).

Definition save_checkpoint (name : string) (cp : Checkpoint) : IxM unit :=
  fun env db => (Ok tt, if ix_saves env (ix_step db) then set_checkpoints (<[name := cp]> (ix_checkpoints db)) db else db).

Definition remove_checkpoint (name : string) : IxM unit :=
  fun env db => (Ok tt, if ix_saves env (ix_step db) then set_checkpoints (delete name (ix_checkpoints db)) db else db).

Definition file_mtime_u64 : IxM Z := fun env db => (Ok (ix_mtime env (ix_step db)), db).

(** ** The run *)

Definition CHUNK_SIZE : Z := 10000.

(** The rows of the entries from [lo] to [hi]; an index is a [u32]. *)
Definition chunk_rows (o : OpenedZim) (is_wiki : bool) (lo hi : Z) : list ArticleRow :=
  omap (fun i => extract_entry (o_archive o) ((fst (o_entry_range o) + i) mod 2 ^ 32) (o_language o) is_wiki)
    (seqZ lo (hi - lo)).

(** [fuel] chunks are left at most. *)
Fixpoint index_chunks (fuel : nat) (name : string) (o : OpenedZim) (is_wiki : bool) (ns : string) (zim_id total : Z)
    (started : option Z) (completed : Z) : IxM unit :=
  match fuel with
  | O => ix_ret (Ok tt)
  | S fuel' =>
      if total <=? completed then ix_ret (Ok tt)
      else
        let chunk_end := Z.min (completed + CHUNK_SIZE) total in
        do rows := ix_blocking (Ok (chunk_rows o is_wiki completed chunk_end)) in
        match rows with
        | [] => index_chunks fuel' name o is_wiki ns zim_id total started chunk_end
        | _ =>
            do _ := bulk_insert rows ns zim_id in
            do _ := update_progress name (f64_div (f64_of_Z chunk_end) (f64_of_Z total)) chunk_end in
            do mtime := file_mtime_u64 in
            do _ := save_checkpoint name (mkCheckpoint mtime total chunk_end started (o_first_entry_key o)) in
            index_chunks fuel' name o is_wiki ns zim_id total started chunk_end
        end
  end.

(** Where a run starts: after the entries of a checkpoint that is this
    archive's, or at the first. *)
Definition start_index (checkpoint : option Checkpoint) (mtime total : Z) (key : string) : Z :=
  match checkpoint with
  | Some cp => if checkpoint_resumable cp mtime total key then cp_completed cp else 0
  | None => 0
  end.

Definition started_at (checkpoint : option Checkpoint) (start_idx : Z) : IxM (option Z) :=
  if start_idx =? 0 then do now := select_now in ix_ret (Ok (Some now))
  else ix_ret (Ok (checkpoint ≫= cp_index_started_at)).

(** The load from [start_idx] on, and the end. *)
Definition index_from (name : string) (o : OpenedZim) (is_wiki : bool) (ns_str : string) (total start_idx : Z)
    (started : option Z) : IxM unit :=
  if total <=? start_idx then finalize_zim name total started
  else
    do zid := select_zim_id name in
    match zid with
    | None => ix_ret (Err (Internal ("ZIM '" +:+ name +:+ "' row vanished before indexing")))
    | Some zim_id =>
        do _ := clear_staging zim_id in
        do _ := index_chunks (S (Z.to_nat ((total - start_idx) / CHUNK_SIZE))) name o is_wiki ns_str zim_id total started start_idx in
        do _ := remove_checkpoint name in
        finalize_zim name total started
    end.

Definition index_body (meta : ZimMeta) : IxM unit :=
  let name := m_name meta in
  do o := ix_blocking (open_zim_blocking (m_file_path meta) (m_display_title meta) (m_language meta)) in
  let ns_str := match o_article_ns o with UserContent => "U" | Articles => "C" end in
  let total := snd (o_entry_range o) - fst (o_entry_range o) in
  if total =? 0 then ix_ret (Ok tt)
  else
    do _ := update_zim_status name o total in
    do checkpoint := load_checkpoint name in
    do mtime := file_mtime_u64 in
    let start_idx := start_index checkpoint mtime total (o_first_entry_key o) in
    do started := started_at checkpoint start_idx in
    index_from name o (is_wikipedia name (o_language o) (o_description o) (o_publisher o)) ns_str total start_idx started.

(** [stat] is the size of the file now. *)
Definition run_index (stat : option Z) (meta : ZimMeta) : IxM unit :=
  if String.eqb (m_index_status meta) "ready" then
    match stat with
    | Some len => if len =? m_file_size meta then ix_ret (Ok tt) else index_body meta
    | None => ix_ret (Ok tt)
    end
  else index_body meta.

(** [lock]: the connection and the advisory lock.  The unlock is best effort. *)
Definition index_single_zim (lock : Result bool) (stat : option Z) (meta : ZimMeta) : IxM unit :=
  fun env db =>
    match lock with
    | Err e => (Err e, db)
    | Ok false => (Ok tt, db)
    | Ok true =>
        let '(outcome, db1) := run_index stat meta env db in
        match outcome with
        | Ok _ => (outcome, db1)
        | Err _ => (outcome, snd (mark_index_error (m_name meta) env db1))
        end
    end.

(** The batch run: the archives' tasks, one after the other; a task that failed
    or panicked is only counted. *)
Fixpoint index_all (lock : string -> Result bool) (stat : string -> option Z) (metas : list ZimMeta) (env : IndexEnv)
    (db : IndexDb) : IndexDb :=
  match metas with
  | [] => db
  | m :: rest => index_all lock stat rest env (snd (index_single_zim (lock (m_name m)) (stat (m_name m)) m env db))
  end.

Definition index_zims (all : list ZimMeta) (lock : string -> Result bool) (stat : string -> option Z)
    (target : option string) : IxM unit :=
  fun env db =>
    match target with
    | Some name =>
        match List.find (fun z => String.eqb (m_name z) name) all with
        | None => (Err (NotFound ("ZIM '" +:+ name +:+ "' not found")), db)
        | Some meta => index_single_zim (lock (m_name meta)) (stat (m_name meta)) meta env db
        end
    | None => (Ok tt, index_all lock stat all env db)
    end.

(** ** A logic for runs *)

Section Logic.
Context (env : IndexEnv).

(** From a state of [P], a success satisfies [Q] and an error [E]. *)
Definition spec {A} (P : IndexDb -> Prop) (c : IxM A) (Q : A -> IndexDb -> Prop) (E : IndexDb -> Prop) : Prop :=
  forall db, P db -> match c env db with (Ok a, db') => Q a db' | (Err _, db') => E db' end.

Lemma spec_ret {A} (P : IndexDb -> Prop) a (Q : A -> IndexDb -> Prop) E : (forall db, P db -> Q a db) -> spec P (ix_ret (Ok a)) Q E.
Proof. intros H db Hp. by apply H. Qed.

Lemma spec_bind {A B} P (c : IxM A) (k : A -> IxM B) R Q E :
  spec P c R E -> (forall a, spec (R a) (k a) Q E) -> spec P (ix_bind c k) Q E.
Proof.
  intros Hc Hk db Hp. specialize (Hc db Hp). unfold ix_bind. destruct (c env db) as [[a|e] db']; [|done]. by apply Hk.
Qed.

(** A statement that succeeds may also lose its reply. *)
Lemma spec_exec {A} P (stmt : Z -> IndexDb -> Result A * IndexDb) Q E :
  (forall db, P db -> E (ix_tick env db) /\
    match stmt (ix_clock env (ix_step db)) (ix_tick env db) with (Ok a, d) => Q a d /\ E d | (Err _, d) => E d end) ->
  spec P (ix_exec stmt) Q E.
Proof.
  intros H db Hp. destruct (H db Hp) as [He Hs]. unfold ix_exec. destruct (stmt _ _) as [[a|e] d].
  - destruct Hs. by destruct (ix_fault env (ix_step db)).
  - by destruct (ix_fault env (ix_step db)).
Qed.

Lemma spec_pre {A} (P P' : IndexDb -> Prop) (c : IxM A) Q E : (forall db, P db -> P' db) -> spec P' c Q E -> spec P c Q E.
Proof. intros H Hs db Hp. apply Hs. auto. Qed.

Lemma spec_post {A} P (c : IxM A) (Q Q' : A -> IndexDb -> Prop) E :
  spec P c Q E -> (forall a db, Q a db -> Q' a db) -> spec P c Q' E.
Proof. intros Hs H db Hp. specialize (Hs db Hp). destruct (c env db) as [[a|e] d]; auto. Qed.

(** From a state of [P], the run succeeds. *)
Definition succeeds {A} (P : IndexDb -> Prop) (c : IxM A) : Prop := forall db, P db -> exists a d, c env db = (Ok a, d).

Lemma succeeds_pre {A} (P P' : IndexDb -> Prop) (c : IxM A) : (forall db, P db -> P' db) -> succeeds P' c -> succeeds P c.
Proof. intros H Hs db Hp. apply Hs. auto. Qed.

(** In sequence: the states in between are those of the specification. *)
Lemma succeeds_bind {A B} P (c : IxM A) (k : A -> IxM B) R E :
  spec P c R E -> succeeds P c -> (forall a, succeeds (R a) (k a)) -> succeeds P (ix_bind c k).
Proof.
  intros Hs Hc Hk db Hp. destruct (Hc db Hp) as (a & d & Ea). specialize (Hs db Hp). rewrite Ea in Hs.
  unfold ix_bind. rewrite Ea. by apply Hk.
Qed.

(** A statement the database accepts, when nothing fails. *)
Lemma succeeds_exec {A} (P : IndexDb -> Prop) (stmt : Z -> IndexDb -> Result A * IndexDb) :
  (forall n, ix_fault env n = NoFault) ->
  (forall t db, P db -> exists a d, stmt t (ix_tick env db) = (Ok a, d)) -> succeeds P (ix_exec stmt).
Proof. intros Hf H db Hp. unfold ix_exec. rewrite Hf. by apply H. Qed.

End Logic.

(** ** What a run keeps *)

Section Exact.
Context (env : IndexEnv) (name : string) (zid : Z) (o : OpenedZim) (is_wiki : bool) (total : Z) (kept : list string).

Definition rows_of (lo hi : Z) : list ArticleRow := chunk_rows o is_wiki lo hi.
Definition all_paths : list string := ar_path <$> rows_of 0 total.

Definition row_matches (r : ArticleRow) (x : IndexedArticle) : Prop :=
  ia_title x = ar_title r /\ ia_preview x = ar_content_preview r /\ ia_snippet x = ar_snippet r.

Abbreviation arts := (string -> option IndexedArticle).

Definition past (a : arts) (t : Z) : Prop := forall p x, a p = Some x -> ia_updated_at x < t.

(** The rows of the first [c] entries are in the table, written since [s]. *)
Definition stored (a : arts) (s c : Z) : Prop :=
  forall r, r ∈ rows_of 0 c -> exists x, a (ar_path r) = Some x /\ row_matches r x /\ s <= ia_updated_at x.

Definition only (a : arts) (s : Z) : Prop := forall p x, a p = Some x -> s <= ia_updated_at x -> p ∈ all_paths.

(** A checkpoint of this archive tells the truth. *)
Definition checkpoint_true (a : arts) (cp : option Checkpoint) (t : Z) : Prop :=
  forall c, cp = Some c -> cp_total_entries c = total -> cp_content_key c = o_first_entry_key o ->
  exists s, cp_index_started_at c = Some s /\ 0 < cp_completed c <= total /\ s < t /\ stored a s (cp_completed c) /\ only a s.

Definition keeps (a : arts) : Prop := forall p, p ∈ kept -> is_Some (a p).

Definition articles_of (db : IndexDb) (p : string) : option IndexedArticle := ix_articles db !! (zid, p).
Definition now (db : IndexDb) : Z := ix_clock env (ix_step db).
Definition zim_row_id (db : IndexDb) : option Z := r_id <$> zrows (ix_zims db) !! name.

Definition index_inv (db : IndexDb) : Prop :=
  past (articles_of db) (now db) /\ checkpoint_true (articles_of db) (ix_checkpoints db !! name) (now db) /\
  zim_row_id db = Some zid /\ keeps (articles_of db).

(** The others index other archives, and no two statements run at one time. *)
Definition peers_elsewhere : Prop := forall n db,
  (forall p, articles_of (ix_peer env n db) p = articles_of db p) /\
  List.filter (of_zim zid) (ix_staging (ix_peer env n db)) = List.filter (of_zim zid) (ix_staging db) /\
  zrows (ix_zims (ix_peer env n db)) !! name = zrows (ix_zims db) !! name /\
  ix_checkpoints (ix_peer env n db) !! name = ix_checkpoints db !! name.
Definition clock_runs : Prop := forall i j, (i < j)%nat -> ix_clock env i < ix_clock env j.

Context (Hpeer : peers_elsewhere) (Hclock : clock_runs) (Hnd : NoDup all_paths) (Hid : 0 <= zid <= i64_max)
  (Hkept : forall p, p ∈ kept -> p ∈ all_paths).

Lemma checkpoint_true_ext a a' cp t t' : (forall p, a p = a' p) -> t <= t' -> checkpoint_true a cp t -> checkpoint_true a' cp t'.
Proof.
  intros Ha Ht Hc c H1 H2 H3. destruct (Hc c H1 H2 H3) as (s & ? & ? & ? & Hst & Hon). exists s. split_and!; [done|lia|lia|lia|..].
  - intros r Hr. destruct (Hst r Hr) as (x & ? & ?). exists x. by rewrite <- Ha.
  - intros p x. rewrite <- Ha. apply Hon.
Qed.

(** The invariant sees this archive's part of the tables only, and time may pass. *)
Lemma index_inv_ext db db' : index_inv db -> (forall p, articles_of db' p = articles_of db p) ->
  ix_checkpoints db' !! name = ix_checkpoints db !! name -> zim_row_id db' = zim_row_id db -> now db <= now db' ->
  index_inv db'.
Proof.
  intros (H1 & H2 & H3 & H4) Ha Hc Hr Ht. split_and!.
  - intros p x Hx. rewrite Ha in Hx. specialize (H1 p x Hx). lia.
  - rewrite Hc. by eapply checkpoint_true_ext; [|exact Ht|exact H2].
  - congruence.
  - intros p Hp. rewrite Ha. auto.
Qed.

Lemma now_tick db : now db < now (ix_tick env db).
Proof. unfold now. cbn. apply Hclock. lia. Qed.

Lemma index_inv_tick db : index_inv db -> index_inv (ix_tick env db).
Proof.
  intros Hi. destruct (Hpeer (ix_step db) db) as (Ha & _ & Hz & Hc).
  eapply index_inv_ext; [exact Hi|exact Ha|exact Hc| |pose proof (now_tick db); lia].
  unfold zim_row_id. cbn. by rewrite Hz.
Qed.

Lemma zim_row_id_alter g n db : (forall r, r_id (g r) = r_id r) -> zim_row_id (alter_zim n g db) = zim_row_id db.
Proof.
  intros Hg. unfold zim_row_id. cbn. rewrite lookup_alter. case_decide as Hd; [subst n|done].
  destruct (zrows (ix_zims db) !! name) as [r|]; cbn; [by rewrite Hg|done].
Qed.

Lemma index_inv_alter g n db : (forall r, r_id (g r) = r_id r) -> index_inv db -> index_inv (alter_zim n g db).
Proof. intros Hg Hi. eapply index_inv_ext; [exact Hi|done|done|by apply zim_row_id_alter|done]. Qed.

(** ** The effect of an upsert *)

Definition row_at (rows : list ArticleRow) (p : string) : option ArticleRow :=
  List.find (fun r => String.eqb (ar_path r) p) rows.

Definition upserted (n : Z) (rows : list ArticleRow) (a a' : arts) : Prop := forall p,
  match row_at rows p with
  | Some r => exists x, a' p = Some x /\ row_matches r x /\ ia_updated_at x = n
  | None => a' p = a p
  end.

Lemma row_at_some rows p r : row_at rows p = Some r -> r ∈ rows /\ ar_path r = p.
Proof. intros [H1 H2]%find_some. split; [by apply list_elem_of_In|by apply String.eqb_eq]. Qed.

Lemma path_unique r r' : r ∈ rows_of 0 total -> r' ∈ rows_of 0 total -> ar_path r = ar_path r' -> r = r'.
Proof.
  intros H1 H2 E. apply list_elem_of_lookup in H1 as [i Hi]. apply list_elem_of_lookup in H2 as [j Hj].
  assert (i = j) as ->; [|congruence]. apply (NoDup_lookup all_paths i j (ar_path r) Hnd); unfold all_paths;
    rewrite list_lookup_fmap; [by rewrite Hi|by rewrite Hj, E].
Qed.

Lemma rows_split lo mid hi : lo <= mid <= hi -> rows_of lo hi = rows_of lo mid ++ rows_of mid hi.
Proof.
  intros H. unfold rows_of, chunk_rows. rewrite <- omap_app. f_equal.
  replace (hi - lo) with ((mid - lo) + (hi - mid)) by lia. rewrite seqZ_app by lia. do 2 f_equal. lia.
Qed.

Lemma rows_within lo hi r : 0 <= lo -> lo <= hi <= total -> r ∈ rows_of lo hi -> r ∈ rows_of 0 total.
Proof.
  intros H1 H2 Hr. rewrite (rows_split 0 lo total), (rows_split lo hi total) by lia. set_solver.
Qed.

Section Upsert.
Context (n : Z) (lo hi : Z) (a a' : arts).
Context (Hlo : 0 <= lo) (Hhi : lo <= hi <= total) (Hup : upserted n (rows_of lo hi) a a').

(** A row of the archive is stored afterwards if it was, or is of the chunk. *)
Lemma upsert_stores s c : stored a s c -> s <= n -> c <= total -> 0 <= c -> stored a' s c.
Proof.
  intros Hs Hn Hc H0 r Hr. specialize (Hup (ar_path r)). destruct (row_at _ (ar_path r)) as [r'|] eqn:E.
  - destruct (row_at_some _ _ _ E) as [Hr' Hp]. destruct Hup as (x & Hx & Hm & Ht).
    assert (r' = r) as -> by (apply path_unique; [by apply (rows_within lo hi)|by apply (rows_within 0 c)|done]).
    exists x. split_and!; [done|done|lia].
  - rewrite Hup. by apply Hs.
Qed.

Lemma upsert_extends s : stored a s lo -> s <= n -> stored a' s hi.
Proof.
  intros Hs Hn r. rewrite (rows_split 0 lo hi) by lia. rewrite elem_of_app. intros [Hr|Hr].
  - apply (upsert_stores s lo); [done|done|lia|done|done].
  - specialize (Hup (ar_path r)). destruct (row_at _ (ar_path r)) as [r'|] eqn:E.
    + destruct (row_at_some _ _ _ E) as [Hr' Hp]. destruct Hup as (x & Hx & Hm & Ht).
      assert (r' = r) as -> by (apply path_unique; [by apply (rows_within lo hi)..|done]). exists x. split_and!; [done|done|lia].
    + exfalso. eapply find_none in E; [|by apply list_elem_of_In]. cbn in E. by rewrite String.eqb_refl in E.
Qed.

Lemma upsert_only s : only a s -> only a' s.
Proof.
  intros Ho p x Hx Hs. specialize (Hup p). destruct (row_at _ p) as [r|] eqn:E.
  - destruct (row_at_some _ _ _ E) as [Hr <-]. apply list_elem_of_fmap. exists r. split; [done|]. by apply (rows_within lo hi).
  - rewrite Hup in Hx. by eapply Ho.
Qed.

Lemma upsert_past t : past a t -> n < t -> past a' t.
Proof.
  intros Hp Hn p x Hx. specialize (Hup p). destruct (row_at _ p) as [r|].
  - destruct Hup as (y & Hy & _ & Ht). assert (x = y) as -> by congruence. lia.
  - rewrite Hup in Hx. by eapply Hp.
Qed.

Lemma upsert_keeps : keeps a -> keeps a'.
Proof.
  intros Hk p Hp. specialize (Hup p). destruct (row_at _ p); [destruct Hup as (x & -> & _); eauto|rewrite Hup; auto].
Qed.

Lemma upsert_checkpoint cp t : checkpoint_true a cp t -> t <= n -> checkpoint_true a' cp t.
Proof.
  intros Hc Hn c H1 H2 H3. destruct (Hc c H1 H2 H3) as (s & ? & ? & ? & Hst & Hon). exists s.
  split_and!; [done|lia|lia|lia|apply upsert_stores; (done || lia)|by apply upsert_only].
Qed.

End Upsert.

(** ** The statements of a run *)

Definition running (s c : Z) (db : IndexDb) : Prop :=
  index_inv db /\ stored (articles_of db) s c /\ only (articles_of db) s /\ s < now db.

Definition staged_here (db : IndexDb) : list StagedRow := List.filter (of_zim zid) (ix_staging db).

Lemma running_ext s c db db' : running s c db -> (forall p, articles_of db' p = articles_of db p) ->
  ix_checkpoints db' !! name = ix_checkpoints db !! name -> zim_row_id db' = zim_row_id db -> now db <= now db' ->
  running s c db'.
Proof.
  intros (Hi & Hs & Ho & Ht) Ha Hc Hr Hn. split_and!; [by eapply index_inv_ext|..|lia].
  - intros r Hr'. rewrite Ha. auto.
  - intros p x. rewrite Ha. apply Ho.
Qed.

Lemma running_tick s c db : running s c db -> running s c (ix_tick env db).
Proof.
  intros Hr. destruct (Hpeer (ix_step db) db) as (Ha & _ & Hz & Hc).
  eapply running_ext; [exact Hr|exact Ha|exact Hc| |pose proof (now_tick db); lia].
  unfold zim_row_id. cbn. by rewrite Hz.
Qed.

Lemma staged_tick db : staged_here (ix_tick env db) = staged_here db.
Proof. apply (Hpeer (ix_step db) db). Qed.

Lemma running_alter s c g n db : (forall r, r_id (g r) = r_id r) -> running s c db -> running s c (alter_zim n g db).
Proof. intros Hg Hr. eapply running_ext; [exact Hr|done|done|by apply zim_row_id_alter|done]. Qed.

Definition staged_rows (ns : string) (rows : list ArticleRow) : list StagedRow :=
  (fun r => mkStaged (ar_path r) (ar_title r) (ar_content_preview r) (ar_snippet r) (ar_language r) ns zid) <$> rows.

Lemma all_some_fmap {A B} (f : A -> option B) (g : A -> B) l k :
  (forall a b, f a = Some b -> b = g a) -> all_some (f <$> l) = Some k -> k = g <$> l.
Proof.
  intros Hf. revert k. induction l as [|a l IH]; intros k; cbn; [by intros [= <-]|].
  destruct (f a) as [b|] eqn:E; [|done]. cbn. destruct (all_some (f <$> l)) as [k'|] eqn:E'; [|done].
  intros [= <-]. by rewrite (Hf _ _ E), (IH k' eq_refl).
Qed.

Lemma parse_zid : parse_i64 (pretty zid) = Some zid.
Proof.
  pose proof (pretty_digits zid ltac:(lia)) as Hd. pose proof (parse_unsigned_pretty i64_max zid Hid) as Hp.
  unfold parse_i64. destruct (pretty zid) as [|c s]; [discriminate Hp|]. cbn in Hd. apply andb_prop in Hd as [Hc _].
  destruct (Ascii.eqb_spec c "-"%char) as [->|]; [discriminate Hc|done].
Qed.

Lemma copy_staged ns rows k : all_some (staged_of <$> copy_read (copy_payload ns zid rows)) = Some k -> k = staged_rows ns rows.
Proof.
  rewrite copy_read_payload by lia. rewrite <- list_fmap_compose. apply all_some_fmap. intros r b. cbn.
  unfold staged_of. destruct (existsb _ _); [done|].
  by rewrite parse_zid; intros [= <-].
Qed.

Lemma filter_staged ns rows : List.filter (of_zim zid) (staged_rows ns rows) = staged_rows ns rows.
Proof.
  unfold staged_rows. induction rows as [|r rows IH]; [done|]. cbn. unfold of_zim at 1. cbn. rewrite Z.eqb_refl. f_equal. exact IH.
Qed.

Lemma copy_in_spec s c ns rows :
  spec env (fun db => running s c db /\ staged_here db = []) (copy_in (copy_payload ns zid rows))
    (fun _ db => running s c db /\ staged_here db = staged_rows ns rows) index_inv.
Proof.
  apply spec_exec. intros db [Hr Hs]. apply running_tick in Hr. rewrite <- staged_tick in Hs. split; [apply Hr|].
  destruct (all_some _) as [k|] eqn:E; [|apply Hr]. apply copy_staged in E as ->.
  assert (Hr' : running s c (set_staging (ix_staging (ix_tick env db) ++ staged_rows ns rows) (ix_tick env db)))
    by (eapply running_ext; [exact Hr|done..]).
  split; [split; [exact Hr'|]|apply Hr']. unfold staged_here in *. cbn [ix_staging set_staging].
  by rewrite List.filter_app, filter_staged, Hs.
Qed.

Lemma upsert_fold n ns rows m : NoDup (ar_path <$> rows) ->
  upserted n rows (fun p => m !! (zid, p)) (fun p => foldl (upsert_article n) m (staged_rows ns rows) !! (zid, p)).
Proof.
  revert m. induction rows as [|r rows IH]; intros m Hn p; [done|]. apply NoDup_cons in Hn as [Hr Hn].
  cbn [staged_rows fmap list_fmap foldl]. fold (staged_rows ns rows). specialize (IH (upsert_article n m
    (mkStaged (ar_path r) (ar_title r) (ar_content_preview r) (ar_snippet r) (ar_language r) ns zid)) Hn p).
  unfold row_at. cbn. destruct (String.eqb_spec (ar_path r) p) as [<-|Hp].
  - assert (row_at rows (ar_path r) = None) as Hnone.
    { destruct (row_at rows (ar_path r)) as [r'|] eqn:E; [|done]. apply row_at_some in E as [He Hpe].
      destruct Hr. apply list_elem_of_fmap. by exists r'. }
    rewrite Hnone in IH. rewrite IH. unfold upsert_article at 1. cbn. rewrite lookup_insert_eq.
    eexists. split; [reflexivity|]. by destruct (m !! (zid, ar_path r)).
  - fold (row_at rows p). destruct (row_at rows p); [done|]. rewrite IH. unfold upsert_article at 1. cbn.
    by rewrite lookup_insert_ne by congruence.
Qed.

Lemma upsert_spec s c e ns : 0 <= c -> c <= e <= total ->
  spec env (fun db => running s c db /\ staged_here db = staged_rows ns (rows_of c e)) (upsert_articles zid)
    (fun _ db => running s e db) index_inv.
Proof.
  intros Hc He. apply spec_exec. intros db [Hr Hs]. pose proof (running_tick _ _ _ Hr) as Hrt. split; [apply Hrt|].
  fold (staged_here (ix_tick env db)). rewrite staged_tick, Hs. cbn zeta. case_bool_decide as Hb; [|apply Hrt].
  assert (Hup : upserted (now db) (rows_of c e) (articles_of (ix_tick env db))
    (articles_of (set_articles (foldl (upsert_article (now db)) (ix_articles (ix_tick env db)) (staged_rows ns (rows_of c e)))
      (ix_tick env db)))).
  { apply upsert_fold. unfold staged_rows in Hb. by rewrite <- list_fmap_compose in Hb. }
  set (db2 := set_articles _ _) in *. destruct Hr as ((_ & Hcp & _) & _ & _ & Ht0).
  pose proof (now_tick db) as Hnt. destruct Hrt as ((H1 & H2 & H3 & H4) & Hst & Hon & _).
  assert (H2' : checkpoint_true (articles_of (ix_tick env db)) (ix_checkpoints (ix_tick env db) !! name) (now db)).
  { destruct (Hpeer (ix_step db) db) as (Ha & _ & _ & Hcb). cbn [ix_checkpoints ix_tick]. rewrite Hcb.
    by eapply checkpoint_true_ext; [intros p; symmetry; apply Ha|reflexivity|exact Hcp]. }
  assert (Hr2 : running s e db2).
  { unfold running, index_inv. split_and!; [| |done|..].
    - exact (upsert_past (now db) c e _ _ Hup _ H1 Hnt).
    - eapply (checkpoint_true_ext _ _ _ (now db)); [done| |exact (upsert_checkpoint (now db) c e _ _ Hc He Hup _ _ H2' (Z.le_refl _))].
      change (now db2) with (now (ix_tick env db)). lia.
    - exact (upsert_keeps (now db) c e _ _ Hup H4).
    - apply (upsert_extends (now db) c e _ _ Hc He Hup); [done|lia].
    - exact (upsert_only (now db) c e _ _ Hc He Hup _ Hon).
    - change (now db2) with (now (ix_tick env db)). lia. }
  split; [exact Hr2|apply Hr2].
Qed.

(** A statement that leaves this archive's articles alone. *)
Lemma spec_running {A} s c (stmt : Z -> IndexDb -> Result A * IndexDb) (R : A -> IndexDb -> Prop) :
  (forall t db, running s c db ->
    match stmt t db with (Ok a, d) => running s c d /\ R a d | (Err _, d) => running s c d end) ->
  spec env (running s c) (ix_exec stmt) (fun a db => running s c db /\ R a db) index_inv.
Proof.
  intros H. apply spec_exec. intros db Hr. apply running_tick in Hr. split; [apply Hr|].
  specialize (H (ix_clock env (ix_step db)) _ Hr). destruct (stmt _ _) as [[a|e] d]; [split; [done|apply H]|apply H].
Qed.

Lemma insert_qids_spec s c pairs :
  spec env (running s c) (insert_qids zid pairs) (fun _ db => running s c db /\ True) index_inv.
Proof.
  apply spec_running. intros t db Hr. case_bool_decide; [|done]. split; [|done]. eapply running_ext; [exact Hr|done..].
Qed.

Lemma clear_staging_spec s c :
  spec env (running s c) (clear_staging zid) (fun _ db => running s c db /\ staged_here db = []) index_inv.
Proof.
  apply spec_running. intros t db Hr. split; [eapply running_ext; [exact Hr|done..]|].
  unfold staged_here. cbn [ix_staging set_staging]. induction (ix_staging db) as [|x l IH]; [done|]. cbn [List.filter].
  destruct (of_zim zid x) eqn:E; cbn [negb]; [done|]. cbn [List.filter]. by rewrite E.
Qed.

Lemma bulk_insert_spec s c e ns : 0 <= c -> c <= e <= total ->
  spec env (fun db => running s c db /\ staged_here db = []) (bulk_insert (rows_of c e) ns zid)
    (fun _ db => running s e db /\ staged_here db = []) index_inv.
Proof.
  intros Hc He. eapply spec_bind; [apply copy_in_spec|]. intros []. eapply spec_bind; [by apply upsert_spec|]. intros [].
  eapply (spec_bind _ _ _ _ (fun _ => running s e)); [|intros []; apply clear_staging_spec].
  destruct (omap _ (rows_of c e)) as [|q qs]; [by apply spec_ret|].
  eapply spec_post; [apply insert_qids_spec|]. by intros [] db [? _].
Qed.

Lemma staged_alter n g db : staged_here (alter_zim n g db) = staged_here db.
Proof. done. Qed.

Definition chunk_state (s c : Z) (db : IndexDb) : Prop := running s c db /\ staged_here db = [].

Lemma chunk_tick s c db : chunk_state s c db -> chunk_state s c (ix_tick env db).
Proof. intros [? ?]. split; [by apply running_tick|by rewrite staged_tick]. Qed.

Lemma update_progress_spec s c p n :
  spec env (chunk_state s c) (update_progress name p n) (fun _ => chunk_state s c) index_inv.
Proof.
  apply spec_exec. intros db Hc. apply chunk_tick in Hc as [Hr Hs].
  assert (Hr' : forall g, (forall r, r_id (g r) = r_id r) -> running s c (alter_zim name g (ix_tick env db)))
    by (intros g Hg; by apply running_alter).
  split; [apply Hr|]. split; [split; [by apply Hr'|done]|by apply Hr'].
Qed.

Lemma save_checkpoint_spec s c mtime : 0 < c <= total ->
  spec env (chunk_state s c) (save_checkpoint name (mkCheckpoint mtime total c (Some s) (o_first_entry_key o)))
    (fun _ => chunk_state s c) index_inv.
Proof.
  intros Hc db [Hr Hs]. unfold save_checkpoint. destruct (ix_saves env (ix_step db)); [|done].
  split; [|done]. destruct Hr as ((H1 & _ & H3 & H4) & Hst & Hon & Ht).
  unfold running, index_inv. split_and!; try done. cbn [ix_checkpoints set_checkpoints]. rewrite lookup_insert_eq.
  intros cp [= <-] _ _. exists s. cbn [cp_index_started_at cp_completed]. split_and!; (done || lia).
Qed.

Lemma skip_chunk s c e db : c <= e <= total -> 0 <= c -> rows_of c e = [] -> chunk_state s c db -> chunk_state s e db.
Proof.
  intros He Hc Hn ((Hi & Hst & Hon & Ht) & Hs). split; [|done]. split_and!; [done| |done|done].
  intros r. rewrite (rows_split 0 c e), Hn, app_nil_r by lia. apply Hst.
Qed.

Lemma index_chunks_spec fuel ns s c : 0 <= c <= total -> total - c <= Z.of_nat fuel * CHUNK_SIZE ->
  spec env (chunk_state s c) (index_chunks fuel name o is_wiki ns zid total (Some s) c)
    (fun _ => chunk_state s total) index_inv.
Proof.
  revert c. induction fuel as [|fuel IH]; intros c Hc Hf; cbn [index_chunks].
  { assert (c = total) as -> by lia. by apply spec_ret. }
  destruct (Z.leb_spec total c) as [Hle|Hlt]; [assert (c = total) as -> by lia; by apply spec_ret|].
  set (e := Z.min (c + CHUNK_SIZE) total). unfold CHUNK_SIZE in *.
  assert (Hnext : forall db, chunk_state s e db -> match index_chunks fuel name o is_wiki ns zid total (Some s) e env db with
    (Ok _, d) => chunk_state s total d | (Err _, d) => index_inv d end) by (intros db Hd; apply IH; [lia|lia|done]).
  eapply (spec_bind _ _ _ _ (fun rows db => rows = rows_of c e /\ chunk_state s c db)).
  { apply spec_exec. intros db Hd. apply chunk_tick in Hd. split; [apply Hd|]. split; [done|apply Hd]. }
  intros rows. destruct rows as [|r rows].
  { intros db [Hn Hd]. apply Hnext. eapply (skip_chunk s c e); [lia|lia|done|done]. }
  eapply spec_pre; [intros db [E Hd]; exact (conj E Hd)|]. intros db [E Hd]. rewrite E. revert db Hd.
  change (spec env (chunk_state s c)
    (ix_bind (bulk_insert (rows_of c e) ns zid) (fun _ => ix_bind (update_progress name (f64_div (f64_of_Z e) (f64_of_Z total)) e)
      (fun _ => ix_bind file_mtime_u64 (fun mtime => ix_bind
        (save_checkpoint name (mkCheckpoint mtime total e (Some s) (o_first_entry_key o)))
        (fun _ => index_chunks fuel name o is_wiki ns zid total (Some s) e)))))
    (fun _ => chunk_state s total) index_inv).
  eapply spec_bind; [apply bulk_insert_spec; lia|]. intros []. eapply spec_bind; [apply update_progress_spec|]. intros [].
  eapply (spec_bind _ _ _ _ (fun _ => chunk_state s e)); [by intros db Hd|]. intros mtime.
  eapply spec_bind; [apply save_checkpoint_spec; lia|]. intros [] db Hd. by apply Hnext.
Qed.

(** ** The end of a run *)

(** The table holds the archive's rows, no more and no less, and says so. *)
Definition index_exact (db : IndexDb) : Prop :=
  (forall p, match articles_of db p with
    | Some x => exists r, r ∈ rows_of 0 total /\ ar_path r = p /\ row_matches r x
    | None => p ∉ all_paths
    end) /\
  exists r, zrows (ix_zims db) !! name = Some r /\ r_index_status r = "ready" /\ r_indexed_entries r = u64_as_i64 total.

Lemma pruned_lookup s m p : pruned zid s m !! (zid, p) =
  match m !! (zid, p) with Some x => if bool_decide (ia_updated_at x < s) then None else Some x | None => None end.
Proof.
  unfold pruned. rewrite map_lookup_filter. destruct (m !! (zid, p)) as [x|]; [|done]. cbn.
  case_guard as Hg; case_bool_decide as Hb; cbn in Hg; naive_solver.
Qed.

Lemma finalize_spec s : 0 <= total ->
  spec env (running s total) (finalize_zim name total (Some s)) (fun _ db => index_inv db /\ index_exact db) index_inv.
Proof.
  intros H0. apply spec_exec. intros db Hr. apply running_tick in Hr. set (d := ix_tick env db) in *. split; [apply Hr|].
  destruct Hr as ((H1 & H2 & H3 & H4) & Hst & Hon & Ht). cbn zeta. unfold zim_row_id in H3. rewrite H3. cbn iota.
  set (d1 := set_qids _ _).
  assert (Ha : forall p, articles_of d1 p = match articles_of d p with
    Some x => if bool_decide (ia_updated_at x < s) then None else Some x | None => None end)
    by (intros p; apply pruned_lookup).
  assert (Hkeep : forall r, r ∈ rows_of 0 total -> exists x, articles_of d (ar_path r) = Some x /\
    articles_of d1 (ar_path r) = Some x /\ row_matches r x /\ s <= ia_updated_at x).
  { intros r Hr. destruct (Hst r Hr) as (x & Hx & Hm & Hu). exists x. rewrite Ha, Hx, bool_decide_eq_false_2 by lia. done. }
  assert (Hsub : forall p x, articles_of d1 p = Some x -> articles_of d p = Some x /\ s <= ia_updated_at x).
  { intros p x. rewrite Ha. destruct (articles_of d p); [|done]. case_bool_decide; [done|]. intros [= ->]. split; [done|lia]. }
  set (g := row_index "ready" f32_one (u64_as_i64 total)).
  assert (Hinv : index_inv (alter_zim name g d1)).
  { apply index_inv_alter; [done|]. split_and!; [|..|exact H3|].
    - intros p x [Hx _]%Hsub. by eapply H1.
    - intros cp E1 E2 E3. destruct (H2 cp E1 E2 E3) as (s' & ? & ? & ? & Hst' & Hon'). exists s'. split_and!; try done; [lia|lia|..].
      + intros r Hr. destruct (Hst' r Hr) as (x & Hx & Hm & Hu).
        destruct (Hkeep r) as (y & Hy & Hy1 & _); [apply (rows_within 0 (cp_completed cp)); (done || lia)|].
        exists x. split; [congruence|done].
      + intros p x [Hx _]%Hsub. by apply Hon'.
    - intros p Hp. apply Hkept in Hp. apply list_elem_of_fmap in Hp as (r & -> & Hr). destruct (Hkeep r Hr) as (x & _ & -> & _). eauto. }
  split; [split; [exact Hinv|]|exact Hinv]. split.
  - intros p. change (articles_of (alter_zim name g d1) p) with (articles_of d1 p). destruct (articles_of d1 p) as [x|] eqn:E.
    + destruct (Hsub p x E) as [Hx Hu]. pose proof (Hon p x Hx Hu) as Hp. apply list_elem_of_fmap in Hp as (r & -> & Hr).
      destruct (Hkeep r Hr) as (y & _ & Hy & Hm & _). exists r. split_and!; [done|done|congruence].
    + intros Hp. apply list_elem_of_fmap in Hp as (r & -> & Hr). destruct (Hkeep r Hr) as (y & _ & Hy & _). congruence.
  - destruct (zrows (ix_zims d) !! name) as [r|] eqn:Er; [|done]. exists (g r).
    change (zrows (ix_zims (alter_zim name g d1))) with (alter g name (zrows (ix_zims d))). by rewrite lookup_alter_eq, Er.
Qed.

(** ** The body of a run *)

Lemma select_zim_id_spec s c :
  spec env (running s c) (select_zim_id name) (fun z db => running s c db /\ z = Some zid) index_inv.
Proof. apply spec_running. intros t db Hr. split; [done|]. apply Hr. Qed.

Lemma remove_checkpoint_spec s c :
  spec env (running s c) (remove_checkpoint name) (fun _ => running s c) index_inv.
Proof.
  intros db Hr. unfold remove_checkpoint. destruct (ix_saves env (ix_step db)); [|done].
  destruct Hr as ((H1 & _ & H3 & H4) & Hst & Hon & Ht). unfold running, index_inv. split_and!; try done.
  cbn [ix_checkpoints set_checkpoints]. rewrite lookup_delete_eq. by intros cp.
Qed.

Lemma index_from_spec ns s c : 0 <= c <= total -> 0 < total ->
  spec env (running s c) (index_from name o is_wiki ns total c (Some s)) (fun _ db => index_inv db /\ index_exact db) index_inv.
Proof.
  intros Hc H0. unfold index_from. destruct (Z.leb_spec total c) as [Hle|Hlt].
  { assert (c = total) as -> by lia. apply finalize_spec. lia. }
  eapply spec_bind; [apply select_zim_id_spec|]. intros z db [Hr ->]. revert db Hr.
  match goal with |- forall db, _ -> match ?k env db with _ => _ end =>
    change (spec env (running s c) k (fun _ db => index_inv db /\ index_exact db) index_inv) end.
  eapply spec_bind; [apply clear_staging_spec|]. intros [].
  eapply spec_bind; [apply (index_chunks_spec _ ns s c); [lia|]|].
  { unfold CHUNK_SIZE. rewrite Nat2Z.inj_succ, Z2Nat.id by (apply Z.div_pos; lia).
    pose proof (Z.div_mod (total - c) 10000). pose proof (Z.mod_pos_bound (total - c) 10000). lia. }
  intros []. eapply spec_bind; [eapply spec_pre; [by intros db [Hr _]|apply remove_checkpoint_spec]|].
  intros []. apply finalize_spec. lia.
Qed.

(** A checkpoint that lets the run resume is true; without one the run starts now. *)
Lemma started_at_spec mtime checkpoint :
  spec env (fun db => index_inv db /\ ix_checkpoints db !! name = checkpoint)
    (started_at checkpoint (start_index checkpoint mtime total (o_first_entry_key o)))
    (fun st db => exists s, st = Some s /\ 0 <= start_index checkpoint mtime total (o_first_entry_key o) <= Z.max 0 total /\
       running s (start_index checkpoint mtime total (o_first_entry_key o)) db) index_inv.
Proof.
  assert (Hfresh : spec env (fun db => index_inv db /\ ix_checkpoints db !! name = checkpoint) (started_at checkpoint 0)
    (fun st db => exists s, st = Some s /\ 0 <= 0 <= Z.max 0 total /\ running s 0 db) index_inv).
  { eapply (spec_bind _ _ _ _ (fun n db => running n 0 db)).
    - apply spec_exec. intros db [Hi _]. pose proof (index_inv_tick db Hi) as Hit. split; [done|]. split; [|done].
      destruct (Hpeer (ix_step db) db) as (Ha & _). destruct Hi as (H1 & _).
      split_and!; [done|intros r Hr; by apply not_elem_of_nil in Hr| |apply now_tick]. intros p x Hx Hs. exfalso.
      specialize (H1 p x). rewrite <- (Ha p) in H1. specialize (H1 Hx). unfold now in H1. lia.
    - intros n. apply spec_ret. intros db Hr. exists n. split_and!; (done || lia). }
  unfold start_index. destruct checkpoint as [cp|]; [|exact Hfresh].
  destruct (checkpoint_resumable cp mtime total _) eqn:E; [|exact Hfresh].
  unfold checkpoint_resumable in E. apply andb_prop in E as [[[_ Et]%andb_prop _]%andb_prop Ek].
  intros db [Hi Hcp]. pose proof Hi as (_ & H2 & _).
  destruct (H2 cp Hcp) as (s & Hs & Hc & Ht & Hst & Hon); [by apply Z.eqb_eq|by apply String.eqb_eq|].
  unfold started_at. rewrite (proj2 (Z.eqb_neq _ _)) by lia. cbn. rewrite Hs. exists s. split_and!; try done; lia.
Qed.

Lemma index_body_spec meta :
  m_name meta = name -> open_zim_blocking (m_file_path meta) (m_display_title meta) (m_language meta) = Ok o ->
  is_wiki = is_wikipedia name (o_language o) (o_description o) (o_publisher o) ->
  total = snd (o_entry_range o) - fst (o_entry_range o) -> 0 < total ->
  spec env index_inv (index_body meta) (fun _ db => index_inv db /\ index_exact db) index_inv.
Proof.
  intros Hn Ho Hw Ht H0. unfold index_body. rewrite Hn, Ho.
  eapply (spec_bind _ _ _ _ (fun o' db => o' = o /\ index_inv db)).
  { apply spec_exec. intros db Hi. apply index_inv_tick in Hi. done. }
  intros o' db [-> Hi]. revert db Hi. rewrite <- Ht, <- Hw, (proj2 (Z.eqb_neq total 0)) by lia.
  match goal with |- forall db, _ -> match ?k env db with _ => _ end =>
    change (spec env index_inv k (fun _ db => index_inv db /\ index_exact db) index_inv) end.
  eapply (spec_bind _ _ _ _ (fun _ => index_inv)).
  { apply spec_exec. intros db Hi. apply index_inv_tick in Hi. split; [done|].
    assert (forall g, (forall r, r_id (g r) = r_id r) -> index_inv (alter_zim name g (ix_tick env db)))
      by (intros g Hg; by apply index_inv_alter). auto. }
  intros []. eapply (spec_bind _ _ _ _ (fun cp db => index_inv db /\ ix_checkpoints db !! name = cp)); [by intros db Hi|].
  intros cp. eapply (spec_bind _ _ _ _ (fun _ db => index_inv db /\ ix_checkpoints db !! name = cp)); [by intros db Hi|].
  intros mtime. eapply spec_bind; [apply (started_at_spec mtime cp)|].
  intros st db (s & -> & Hc & Hr). eapply index_from_spec; [lia|done|exact Hr].
Qed.

(** ** A run without failures ends *)

(** No text of the row holds a NUL. *)
Definition nul_free (r : ArticleRow) : bool :=
  negb (existsb has_nul [Some (ar_path r); Some (ar_title r); ar_content_preview r; Some (ar_snippet r); Some (ar_language r)]).

Section Ends.
Context (Hquiet : forall n, ix_fault env n = NoFault).

Context (Hnul : forall r, r ∈ rows_of 0 total -> nul_free r = true).

Lemma pretty_nul_free : has_nul (Some (pretty zid)) = false.
Proof.
  cbn. unfold contains_char. eapply str_forall_exists; [|apply pretty_digits; lia].
  intros c Hc. apply Ascii.eqb_neq. by intros <-.
Qed.

Lemma all_some_total {A B} (f : A -> option B) (g : A -> B) l :
  (forall a, a ∈ l -> f a = Some (g a)) -> all_some (f <$> l) = Some (g <$> l).
Proof.
  induction l as [|a l IH]; intros Hf; [done|]. cbn. rewrite Hf by by left. cbn. rewrite IH; [done|].
  intros b Hb. apply Hf. by right.
Qed.

Lemma copy_accepted ns c e : has_nul (Some ns) = false -> 0 <= c -> c <= e <= total ->
  is_Some (all_some (staged_of <$> copy_read (copy_payload ns zid (rows_of c e)))).
Proof.
  intros Hns Hc He. rewrite copy_read_payload by lia. rewrite <- list_fmap_compose.
  eexists. apply (all_some_total _ (fun r => mkStaged (ar_path r) (ar_title r) (ar_content_preview r) (ar_snippet r) (ar_language r) ns zid)).
  intros r Hr. apply rows_within in Hr; [|lia..]. specialize (Hnul r Hr). unfold nul_free in Hnul. apply negb_true_iff in Hnul.
  unfold staged_of. cbn [compose].
  replace (existsb has_nul _) with false; [by rewrite parse_zid|]. symmetry.
  change [Some (ar_path r); Some (ar_title r); ar_content_preview r; Some (ar_snippet r); Some (ar_language r); Some ns; Some (pretty zid)]
    with ([Some (ar_path r); Some (ar_title r); ar_content_preview r; Some (ar_snippet r); Some (ar_language r)] ++ [Some ns; Some (pretty zid)]).
  rewrite existsb_app, Hnul. cbn [existsb orb]. by rewrite Hns, pretty_nul_free.
Qed.

Lemma rows_nodup c e : 0 <= c -> c <= e <= total -> NoDup (ar_path <$> rows_of c e).
Proof.
  intros Hc He. pose proof Hnd as H. unfold all_paths in H. rewrite (rows_split 0 c total), (rows_split c e total) in H by lia.
  rewrite !fmap_app in H. apply NoDup_app in H as (_ & _ & H). by apply NoDup_app in H as (H & _).
Qed.

Lemma qids_nodup rows : NoDup (ar_path <$> rows) -> NoDup (omap (fun r => (fun q => (ar_path r, q)) <$> ar_qid r) rows).*1.
Proof.
  induction rows as [|r rows IH]; cbn; [done|]. intros [Hr Hn]%NoDup_cons. destruct (ar_qid r) as [q|]; cbn; [|auto].
  apply NoDup_cons. split; [|auto]. intros Hin. apply Hr. apply list_elem_of_fmap in Hin as ([p q'] & E & Hin). cbn in E. subst p.
  apply list_elem_of_omap in Hin as (r' & Hr' & E). destruct (ar_qid r'); [|done]. injection E as E _.
  apply list_elem_of_fmap. by exists r'.
Qed.

Lemma bulk_insert_succeeds s c e ns : has_nul (Some ns) = false -> 0 <= c -> c <= e <= total ->
  succeeds env (chunk_state s c) (bulk_insert (rows_of c e) ns zid).
Proof.
  intros Hns Hc He. unfold bulk_insert. eapply succeeds_bind; [apply copy_in_spec|..].
  { apply succeeds_exec; [done|]. intros t db _. destruct (copy_accepted ns c e) as [k ->]; [done..|]. eauto. }
  intros []. eapply succeeds_bind; [by apply upsert_spec|..].
  { apply succeeds_exec; [done|]. intros t db [_ Hs]. rewrite <- staged_tick in Hs. cbn zeta. fold (staged_here (ix_tick env db)). rewrite Hs.
    rewrite bool_decide_eq_true_2; [eauto|]. unfold staged_rows. rewrite <- list_fmap_compose. by apply rows_nodup. }
  intros []. pose proof (qids_nodup _ (rows_nodup c e Hc He)) as Hq.
  eapply (succeeds_bind _ _ _ _ (fun _ => running s e) index_inv).
  - destruct (omap _ (rows_of c e)) as [|q qs]; [by apply spec_ret|]. eapply spec_post; [apply insert_qids_spec|]. by intros [] db [? _].
  - destruct (omap _ (rows_of c e)) as [|q qs]; [by intros db _; eexists _, _|].
    apply succeeds_exec; [done|]. intros t db _. rewrite bool_decide_eq_true_2 by done. eauto.
  - intros []. apply succeeds_exec; [done|]. eauto.
Qed.

Lemma index_chunks_succeeds fuel ns s c : has_nul (Some ns) = false -> 0 <= c <= total -> total - c <= Z.of_nat fuel * CHUNK_SIZE ->
  succeeds env (chunk_state s c) (index_chunks fuel name o is_wiki ns zid total (Some s) c).
Proof.
  intros Hns. revert c. induction fuel as [|fuel IH]; intros c Hc Hf; cbn [index_chunks]; [by intros db _; eexists _, _|].
  destruct (Z.leb_spec total c) as [Hle|Hlt]; [by intros db _; eexists _, _|].
  set (e := Z.min (c + CHUNK_SIZE) total). unfold CHUNK_SIZE in *.
  eapply (succeeds_bind _ _ _ _ (fun rows db => rows = rows_of c e /\ chunk_state s c db)).
  { apply spec_exec. intros db Hd. apply chunk_tick in Hd. split; [apply Hd|]. split; [done|apply Hd]. }
  { apply succeeds_exec; [done|]. eauto. }
  intros rows. destruct rows as [|r rows].
  { intros db [Hn Hd]. apply IH; [lia|lia|]. eapply (skip_chunk s c e); [lia|lia|done|done]. }
  intros db [E Hd]. rewrite E. revert db Hd.
  change (succeeds env (chunk_state s c)
    (ix_bind (bulk_insert (rows_of c e) ns zid) (fun _ => ix_bind (update_progress name (f64_div (f64_of_Z e) (f64_of_Z total)) e)
      (fun _ => ix_bind file_mtime_u64 (fun mtime => ix_bind
        (save_checkpoint name (mkCheckpoint mtime total e (Some s) (o_first_entry_key o)))
        (fun _ => index_chunks fuel name o is_wiki ns zid total (Some s) e)))))).
  eapply succeeds_bind; [apply bulk_insert_spec; lia|apply bulk_insert_succeeds; (done || lia)|]. intros [].
  eapply succeeds_bind; [apply update_progress_spec|apply succeeds_exec; [done|]; eauto|]. intros [].
  eapply (succeeds_bind _ _ _ _ (fun _ => chunk_state s e) index_inv); [by intros db Hd|by intros db _; eexists _, _|]. intros mtime.
  eapply succeeds_bind; [apply save_checkpoint_spec; lia|by intros db _; eexists _, _|]. intros [].
  apply IH; lia.
Qed.

Lemma index_from_succeeds ns s c : has_nul (Some ns) = false -> 0 <= c <= total -> 0 < total ->
  succeeds env (running s c) (index_from name o is_wiki ns total c (Some s)).
Proof.
  intros Hns Hc H0. unfold index_from. destruct (Z.leb_spec total c) as [Hle|Hlt]; [apply succeeds_exec; [done|]; eauto|].
  eapply succeeds_bind; [apply select_zim_id_spec|apply succeeds_exec; [done|]; eauto|]. intros z db [Hr ->]. revert db Hr.
  match goal with |- forall db, _ -> exists a d, ?k env db = _ => change (succeeds env (running s c) k) end.
  eapply succeeds_bind; [apply clear_staging_spec|apply succeeds_exec; [done|]; eauto|]. intros [].
  assert (Hfuel : total - c <= Z.of_nat (S (Z.to_nat ((total - c) / CHUNK_SIZE))) * CHUNK_SIZE).
  { unfold CHUNK_SIZE. rewrite Nat2Z.inj_succ, Z2Nat.id by (apply Z.div_pos; lia).
    pose proof (Z.div_mod (total - c) 10000). pose proof (Z.mod_pos_bound (total - c) 10000). lia. }
  eapply succeeds_bind; [by apply (index_chunks_spec _ ns s c)|by apply index_chunks_succeeds|]. intros [].
  eapply succeeds_bind; [eapply spec_pre; [by intros db [Hr _]|apply remove_checkpoint_spec]|by intros db _; eexists _, _|].
  intros []. apply succeeds_exec; [done|]. eauto.
Qed.

Lemma index_body_succeeds meta :
  m_name meta = name -> open_zim_blocking (m_file_path meta) (m_display_title meta) (m_language meta) = Ok o ->
  is_wiki = is_wikipedia name (o_language o) (o_description o) (o_publisher o) ->
  total = snd (o_entry_range o) - fst (o_entry_range o) -> 0 < total ->
  succeeds env index_inv (index_body meta).
Proof.
  intros Hn Ho Hw Ht H0. unfold index_body. rewrite Hn, Ho.
  eapply (succeeds_bind _ _ _ _ (fun o' db => o' = o /\ index_inv db) index_inv).
  { apply spec_exec. intros db Hi. apply index_inv_tick in Hi. done. }
  { apply succeeds_exec; [done|]. eauto. }
  intros o' db [-> Hi]. revert db Hi. rewrite <- Ht, <- Hw, (proj2 (Z.eqb_neq total 0)) by lia.
  match goal with |- forall db, _ -> exists a d, ?k env db = _ => change (succeeds env index_inv k) end.
  eapply (succeeds_bind _ _ _ _ (fun _ => index_inv)).
  { apply spec_exec. intros db Hi. apply index_inv_tick in Hi. split; [done|].
    assert (forall g, (forall r, r_id (g r) = r_id r) -> index_inv (alter_zim name g (ix_tick env db)))
      by (intros g Hg; by apply index_inv_alter). auto. }
  { apply succeeds_exec; [done|]. eauto. }
  intros []. eapply (succeeds_bind _ _ _ _ (fun cp db => index_inv db /\ ix_checkpoints db !! name = cp) index_inv);
    [by intros db Hi|by intros db _; eexists _, _|].
  intros cp. eapply (succeeds_bind _ _ _ _ (fun _ db => index_inv db /\ ix_checkpoints db !! name = cp) index_inv);
    [by intros db Hi|by intros db _; eexists _, _|].
  intros mtime. eapply succeeds_bind; [apply (started_at_spec mtime cp)|..].
  { unfold started_at. destruct (_ =? 0); [|by intros db _; eexists _, _].
    intros db _. unfold ix_bind, select_now, ix_exec. rewrite Hquiet. by eexists _, _. }
  intros st db (s & -> & Hc & Hr). apply (index_from_succeeds _ s); [by destruct (o_article_ns o)|lia|done|exact Hr].
Qed.
End Ends.

End Exact.

(** ** A checkpoint without a start time *)

Section Legacy.
Context (env : IndexEnv) (name : string) (zid : Z) (Hpeer : peers_elsewhere env name zid) (p : string).

(** The article at [p] stays. *)
Definition stays {A} (c : IxM A) : Prop :=
  forall db, is_Some (articles_of zid db p) -> is_Some (articles_of zid (snd (c env db)) p).

Lemma stays_ret {A} (r : Result A) : stays (ix_ret r).
Proof. by intros db. Qed.

Lemma stays_bind {A B} (c : IxM A) (k : A -> IxM B) : stays c -> (forall a, stays (k a)) -> stays (ix_bind c k).
Proof.
  intros Hc Hk db Hd. specialize (Hc db Hd). unfold ix_bind. destruct (c env db) as [[a|e] d]; [by apply Hk|done].
Qed.

Lemma stays_exec {A} (stmt : Z -> IndexDb -> Result A * IndexDb) :
  (forall t db, is_Some (articles_of zid db p) -> is_Some (articles_of zid (snd (stmt t db)) p)) -> stays (ix_exec stmt).
Proof.
  intros Hs db Hd. assert (Ht : is_Some (articles_of zid (ix_tick env db) p))
    by (destruct (Hpeer (ix_step db) db) as (Ha & _); unfold articles_of in *; cbn; by rewrite Ha).
  unfold ix_exec. destruct (ix_fault env (ix_step db)); cbn [snd]; auto.
Qed.

Lemma stays_upsert z : stays (upsert_articles z).
Proof.
  apply stays_exec. intros t db Hd. cbn zeta. case_bool_decide as Hnd; [|done]. clear Hnd. unfold articles_of in *. cbn [snd ix_articles set_articles].
  revert Hd. generalize (ix_articles db) as m. induction (List.filter (of_zim z) (ix_staging db)) as [|r l IH]; intros m Hm; [done|].
  apply IH. unfold upsert_article. cbn zeta. destruct (decide ((st_zim_id r, st_path r) = (zid, p))) as [->|];
    [rewrite lookup_insert_eq; eauto|by rewrite lookup_insert_ne].
Qed.

Ltac stays_step :=
  first [ apply stays_ret | apply stays_upsert | apply stays_bind; [|intros ?]
        | apply stays_exec; intros; cbn zeta; repeat case_match; done ].

Lemma stays_bulk_insert rows ns z : stays (bulk_insert rows ns z).
Proof. unfold bulk_insert, copy_in, clear_staging. repeat stays_step. destruct (omap _ rows); [apply stays_ret|unfold insert_qids; repeat stays_step]. Qed.

Lemma stays_chunks fuel o is_wiki ns z total started : forall c, stays (index_chunks fuel name o is_wiki ns z total started c).
Proof.
  induction fuel as [|fuel IH]; intros c; cbn [index_chunks]; [apply stays_ret|]. destruct (total <=? c); [apply stays_ret|].
  unfold ix_blocking. apply stays_bind; [repeat stays_step|]. intros [|r rows]; [apply IH|].
  apply stays_bind; [apply stays_bulk_insert|intros []]. unfold update_progress. apply stays_bind; [repeat stays_step|intros []].
  apply stays_bind; [by intros db|intros mtime]. apply stays_bind; [|intros []; apply IH].
  intros db Hd. unfold save_checkpoint. by destruct (ix_saves env (ix_step db)).
Qed.

Lemma stays_index_from o is_wiki ns total c : stays (index_from name o is_wiki ns total c None).
Proof.
  unfold index_from, finalize_zim, select_zim_id, clear_staging. destruct (total <=? c); [repeat stays_step|].
  apply stays_bind; [repeat stays_step|]. intros [z|]; [|apply stays_ret]. apply stays_bind; [repeat stays_step|intros []].
  apply stays_bind; [apply stays_chunks|intros []]. apply stays_bind; [|intros []; repeat stays_step].
  intros db Hd. unfold remove_checkpoint. by destruct (ix_saves env (ix_step db)).
Qed.

End Legacy.

(** The same run without failures. *)
Definition healthy (env : IndexEnv) : IndexEnv :=
  mkIndexEnv (fun _ => NoFault) (ix_clock env) (ix_peer env) (ix_saves env) (ix_mtime env).

(** The tables before the first attempt: the archive has its row, its articles
    were written before, and there is no checkpoint of this content. *)
Definition before_first (env : IndexEnv) (name : string) (zid : Z) (o : OpenedZim) (total : Z) (db : IndexDb) : Prop :=
  zim_row_id name db = Some zid /\
  (forall p x, ix_articles db !! (zid, p) = Some x -> ia_updated_at x < ix_clock env (ix_step db)) /\
  forall c, ix_checkpoints db !! name = Some c -> ~ (cp_total_entries c = total /\ cp_content_key c = o_first_entry_key o).

End Index.

(** [n] attempts one after the other, whatever becomes of each. *)
Fixpoint attempts `{ZimIndexApi, Deformat, Readability, QidRegex, Chrono, CaseFold} (n : nat) (meta : ZimMeta)
    (env : IndexEnv) (db : IndexDb) : IndexDb :=
  match n with
  | O => db
  | S n' => attempts n' meta env (snd (index_body meta env db))
  end.

Lemma open_range_pos `{Zi : ZimIndexApi} {Ch : Chrono} p t l o :
  open_zim_blocking p t l = Ok o -> 0 < snd (o_entry_range o) - fst (o_entry_range o).
Proof.
  unfold open_zim_blocking. destruct (zim_open p) as [a|]; [|done].
  intros ([ns [s e]] & Hf & [= <-])%rbind_ok. cbn. unfold find_article_namespace in Hf.
  destruct (namespace_range a Articles) as [[s1 e1]|]; [destruct (Z.ltb_spec s1 e1); [injection Hf as <- <- <-; lia|]|];
    (destruct (namespace_range a UserContent) as [[s2 e2]|]; [destruct (Z.ltb_spec s2 e2); [injection Hf as <- <- <-; lia|done]|done]).
Qed.

Lemma attempts_inv `{Zi : ZimIndexApi, Df : Deformat, Rd : Readability, Qr : QidRegex, Ch : Chrono, Cf : CaseFold}
    env meta zid o kept n :
  let name := m_name meta in
  let is_wiki := is_wikipedia name (o_language o) (o_description o) (o_publisher o) in
  let total := snd (o_entry_range o) - fst (o_entry_range o) in
  peers_elsewhere env name zid -> clock_runs env -> NoDup (all_paths o is_wiki total) -> 0 <= zid <= i64_max ->
  (forall p, p ∈ kept -> p ∈ all_paths o is_wiki total) ->
  open_zim_blocking (m_file_path meta) (m_display_title meta) (m_language meta) = Ok o ->
  forall db, index_inv env name zid o is_wiki total kept db -> index_inv env name zid o is_wiki total kept (attempts n meta env db).
Proof.
  intros name is_wiki total Hpe Hck Hnd Hid Hk Ho. induction n as [|n IH]; intros db Hi; [done|]. cbn [attempts]. apply IH.
  pose proof (index_body_spec env name zid o is_wiki total kept Hpe Hck Hnd Hid Hk meta eq_refl Ho eq_refl eq_refl
    (open_range_pos _ _ _ _ Ho) db Hi) as Hs. destruct (index_body meta env db) as [[[]|e] d]; apply Hs.
Qed.

(** ** Theorems *)

(** C7: an index run that is interrupted and resumed ends exact.  The archive
    opens as [o] at every attempt, no two of its entries have one path, and the
    database's statement times increase strictly; the first attempt finds the
    archive's row, articles written before it, and no checkpoint of this
    content (a checkpoint without a start time makes a run skip the prune, see
    [legacy_resume_never_prunes]).  Let any number of attempts fail or lose
    replies anywhere, and let other archives be indexed in between.  At every
    point the articles that were in the table and are in the archive are still
    there; when an attempt succeeds, resumed or not, the table holds exactly
    the archive's articles, with the texts extracted from them, and the archive
    is marked ready with its entry count; and an attempt in which no statement
    fails does succeed, if no text holds a NUL. *)
Theorem interrupted_index_ends_exact
    `{Zi : ZimIndexApi, Df : Deformat, Rd : Readability, Qr : QidRegex, Ch : Chrono, Cf : CaseFold} env meta zid o n db :
  let name := m_name meta in
  let is_wiki := is_wikipedia name (o_language o) (o_description o) (o_publisher o) in
  let total := snd (o_entry_range o) - fst (o_entry_range o) in
  peers_elsewhere env name zid -> clock_runs env -> NoDup (all_paths o is_wiki total) -> 0 <= zid <= i64_max ->
  open_zim_blocking (m_file_path meta) (m_display_title meta) (m_language meta) = Ok o ->
  before_first env name zid o total db ->
  let db' := attempts n meta env db in
  (forall p, p ∈ all_paths o is_wiki total -> is_Some (ix_articles db !! (zid, p)) -> is_Some (ix_articles db' !! (zid, p))) /\
  (forall d, index_body meta env db' = (Ok tt, d) -> index_exact name zid o is_wiki total d) /\
  ((forall r, r ∈ rows_of o is_wiki 0 total -> nul_free r = true) ->
   exists d, index_body meta (healthy env) db' = (Ok tt, d) /\ index_exact name zid o is_wiki total d).
Proof.
  intros name is_wiki total Hpe Hck Hnd Hid Ho Hi db'.
  set (kept := List.filter (fun p => bool_decide (is_Some (ix_articles db !! (zid, p)))) (all_paths o is_wiki total)).
  assert (Hk : forall p, p ∈ kept <-> p ∈ all_paths o is_wiki total /\ is_Some (ix_articles db !! (zid, p))).
  { intros p. unfold kept. rewrite !list_elem_of_In, filter_In. by rewrite bool_decide_eq_true. }
  assert (Hi' : index_inv env name zid o is_wiki total kept db).
  { destruct Hi as (H1 & H2 & H3). split_and!; [done| |done|].
    - intros c Hc Ht Hkey. destruct (H3 c Hc). done.
    - intros p Hp. apply Hk in Hp as [_ Hp]. exact Hp. }
  assert (Hsub : forall p, p ∈ kept -> p ∈ all_paths o is_wiki total) by (intros p Hp; by apply Hk in Hp as [? _]).
  pose proof (attempts_inv env meta zid o kept n Hpe Hck Hnd Hid Hsub Ho db Hi') as Hn. fold db' in Hn.
  assert (Hbody : forall env', ix_clock env' = ix_clock env -> ix_peer env' = ix_peer env ->
    forall d, index_body meta env' db' = (Ok tt, d) -> index_exact name zid o is_wiki total d).
  { intros env' Ec Ep d Hd.
    assert (Hpe' : peers_elsewhere env' name zid) by (unfold peers_elsewhere; by rewrite Ep).
    assert (Hck' : clock_runs env') by (unfold clock_runs; by rewrite Ec).
    assert (Hn' : index_inv env' name zid o is_wiki total kept db') by (unfold index_inv, now in *; by rewrite Ec).
    pose proof (index_body_spec env' name zid o is_wiki total kept Hpe' Hck' Hnd Hid Hsub meta eq_refl Ho eq_refl eq_refl
      (open_range_pos _ _ _ _ Ho) db' Hn') as Hs. rewrite Hd in Hs. apply Hs. }
  split_and!.
  - intros p H1 H2. destruct Hn as (_ & _ & _ & Hkeep). apply (Hkeep p). by apply Hk.
  - by apply Hbody.
  - intros Hnul. destruct (index_body_succeeds (healthy env) name zid o is_wiki total kept Hpe Hck Hnd Hid Hsub
      (fun _ => eq_refl) Hnul meta eq_refl Ho eq_refl eq_refl (open_range_pos _ _ _ _ Ho) db' Hn) as ([] & d & Hd).
    exists d. split; [done|]. by apply (Hbody (healthy env)).
Qed.

(** A run resumed from a checkpoint without a start time removes nothing: an
    article in the table stays, in the archive or not, whatever fails. *)
Theorem legacy_resume_never_prunes
    `{Zi : ZimIndexApi, Df : Deformat, Rd : Readability, Qr : QidRegex, Ch : Chrono, Cf : CaseFold} env meta zid o cp p db :
  peers_elsewhere env (m_name meta) zid ->
  open_zim_blocking (m_file_path meta) (m_display_title meta) (m_language meta) = Ok o ->
  ix_checkpoints db !! m_name meta = Some cp -> cp_index_started_at cp = None -> cp_completed cp <> 0 ->
  (forall n, checkpoint_resumable cp (ix_mtime env n) (snd (o_entry_range o) - fst (o_entry_range o)) (o_first_entry_key o) = true) ->
  is_Some (ix_articles db !! (zid, p)) -> is_Some (ix_articles (snd (index_body meta env db)) !! (zid, p)).
Proof.
  intros Hpe Ho Hcp Hs Hne Hres Hp. unfold index_body. rewrite Ho.
  set (P := fun d : IndexDb => is_Some (ix_articles d !! (zid, p)) /\ ix_checkpoints d !! m_name meta = Some cp).
  assert (Htick : forall d, P d -> P (ix_tick env d)).
  { intros d [H1 H2]. destruct (Hpe (ix_step d) d) as (Ha & _ & _ & Hc). split; [|cbn; by rewrite Hc].
    specialize (Ha p). unfold articles_of in Ha. cbn. by rewrite Ha. }
  assert (Hex : forall {A} (st : Z -> IndexDb -> Result A * IndexDb) (Q : A -> Prop),
    (forall t d, P d -> P (snd (st t d))) -> (forall t d a, fst (st t d) = Ok a -> Q a) ->
    spec env P (ix_exec st) (fun a d => P d /\ Q a) (fun d => is_Some (ix_articles d !! (zid, p)))).
  { intros A st Q Hst Hq. apply spec_exec. intros d Hd. apply Htick in Hd. split; [apply Hd|].
    specialize (Hst (ix_clock env (ix_step d)) _ Hd). specialize (Hq (ix_clock env (ix_step d)) (ix_tick env d)).
    destruct (st _ _) as [[a|e] d']; cbn [fst snd] in *; [|apply Hst]. split; [split; [done|by apply Hq]|apply Hst]. }
  enough (Hspec : spec env P (index_body meta) (fun _ d => is_Some (ix_articles d !! (zid, p))) (fun d => is_Some (ix_articles d !! (zid, p)))).
  { specialize (Hspec db (conj Hp Hcp)). unfold index_body in Hspec. rewrite Ho in Hspec. by destruct (ix_bind _ _ env db) as [[]]. }
  unfold index_body. rewrite Ho. eapply spec_bind; [apply (Hex _ _ (fun a => a = o)); [by intros|by intros ? ? ? [= <-]]|].
  intros a d [Hd ->]. revert d Hd. case_match; [intros d [? _]; done|].
  match goal with |- forall d, _ -> match ?k env d with _ => _ end => change (spec env P k (fun _ d => is_Some (ix_articles d !! (zid, p)))
    (fun d => is_Some (ix_articles d !! (zid, p)))) end.
  eapply spec_bind; [apply (Hex _ _ (fun _ => True)); [by intros t d [? ?]|done]|]. intros [].
  eapply (spec_bind _ _ _ _ (fun c d => P d /\ c = Some cp)); [by intros d [[? ?] _]|]. intros c d [Hd ->]. revert d Hd.
  match goal with |- forall d, _ -> match ?k env d with _ => _ end => change (spec env P k (fun _ d => is_Some (ix_articles d !! (zid, p)))
    (fun d => is_Some (ix_articles d !! (zid, p)))) end.
  intros d [Hd _]. unfold ix_bind at 1, file_mtime_u64. unfold start_index. rewrite Hres. unfold started_at. rewrite (proj2 (Z.eqb_neq _ _)) by done.
  cbn [mbind option_bind]. rewrite Hs. unfold ix_bind, ix_ret. 
  pose proof (stays_index_from env (m_name meta) zid Hpe p o
    (is_wikipedia (m_name meta) (o_language o) (o_description o) (o_publisher o))
    (match o_article_ns o with UserContent => "U" | Articles => "C" end)
    (snd (o_entry_range o) - fst (o_entry_range o)) (cp_completed cp) d Hd) as Hst.
  unfold articles_of in Hst. by destruct (index_from _ _ _ _ _ _ _ env d) as [[]].
Qed.

(** A failed run is recorded: unless the marking statement itself fails, the
    archive's row says [error] afterwards. *)
Theorem index_error_is_recorded
    `{Zi : ZimIndexApi, Df : Deformat, Rd : Readability, Qr : QidRegex, Ch : Chrono, Cf : CaseFold} env stat meta db e d r :
  let d1 := snd (run_index stat meta env db) in
  index_single_zim (Ok true) stat meta env db = (Err e, d) -> ix_fault env (ix_step d1) = NoFault ->
  zrows (ix_zims (ix_tick env d1)) !! m_name meta = Some r ->
  (r_index_status <$> zrows (ix_zims d) !! m_name meta) = Some "error".
Proof.
  cbn zeta. unfold index_single_zim. destruct (run_index stat meta env db) as [[[]|e'] d1]; [done|]. cbn [snd].
  intros [= <- <-] Hf Hr. unfold mark_index_error, ix_exec. cbn [snd]. rewrite Hf. cbn [snd].
  unfold alter_zim. cbn [ix_zims set_zims zrows]. by rewrite lookup_alter_eq, Hr.
Qed.

(** ** A small archive *)

Section Demo.

(** Two pages, of which the second version drops one. *)
Definition demo_pages (path : string) : list (string * string) :=
  if String.eqb path "/zim/v1.zim" then [("A/a", "alpha"); ("A/b", "beta")] else [("A/a", "alpha, rewritten")].

#[local] Instance demo_zim : ZimApi := {|
  Archive := list (string * string);
  DirEntry := string * string;
  get_by_path a _ p := Ok (List.find (fun e => String.eqb (fst e) p) a);
  resolve _ e := Ok e;
  entry_title _ := EmptyString;
  mime_type _ := MType "text/html";
  entry_content _ e := Ok (Some (mkContent (Ok (str_len (snd e))) (Ok (snd e)) (Ok (snd e))));
  entry_bytes _ e := snd e;
  entry_content_ok _ e c H := ltac:(injection H as <-; by split_and!; intros ? [= <-])
|}.

#[local] Instance demo_index : ZimIndexApi := {|
  zim_open p := Ok (demo_pages p);
  get_by_url_index a i := match a !! Z.to_nat i with Some e => Ok e | None => Err "out of range" end;
  entry_url e := fst e;
  namespace_range a ns := match ns with Articles => Ok (0, Z.of_nat (length a)) | UserContent => Err "none" end;
  metadata _ _ := Ok None;
  header_article_count a := Z.of_nat (length a)
|}.

#[local] Instance demo_strip : Deformat := {| strip_to_text s := s |}.
#[local] Instance demo_readability : Readability := {| readability_excerpt _ _ := None |}.
#[local] Instance demo_qids : QidRegex := {| qid_captures h := if contains "beta" h then [("Q7", true)] else [] |}.
#[local] Existing Instance text_chrono.

#[local] Instance demo_fold : CaseFold := {| to_lowercase := to_ascii_lowercase; to_lowercase_ascii _ _ := eq_refl |}.

(** The step numbers in [bad] fail. *)
Definition demo_env (bad : list nat) : IndexEnv :=
  mkIndexEnv (fun n => if bool_decide (n ∈ bad) then Failed (Internal "connection lost") else NoFault) Z.of_nat
    (fun _ db => db) (fun _ => true) (fun _ => 77).

Definition demo_meta (path : string) : ZimMeta := stub "wiki_en" path 10.
Definition demo_db : IndexDb :=
  mkIx ∅ [] ∅ (mkZims {["wiki_en" := row_of 3 (demo_meta "/zim/v1.zim")]} 4) ∅ 1.
Definition demo_opened : OpenedZim :=
  mkOpened (demo_pages "/zim/v1.zim") "wiki en" "en" None None None None Articles (0, 2) 2 "A/a:5".

(** The archive is indexed in spite of a connection lost during the load. *)
Lemma interrupted_index_ends_exact_witness :
  let db' := attempts 1 (demo_meta "/zim/v1.zim") (demo_env [6%nat]) demo_db in
  exists d, index_body (demo_meta "/zim/v1.zim") (demo_env [6%nat]) db' = (Ok tt, d) /\
    index_exact "wiki_en" 3 demo_opened true 2 d.
Proof.
  intros db'. exists (snd (index_body (demo_meta "/zim/v1.zim") (demo_env [6%nat]) db')).
  assert (Hok : index_body (demo_meta "/zim/v1.zim") (demo_env [6%nat]) db' =
    (Ok tt, snd (index_body (demo_meta "/zim/v1.zim") (demo_env [6%nat]) db'))).
  { rewrite (surjective_pairing (index_body _ _ db')) at 1. by f_equal. }
  split; [exact Hok|].
  refine (proj1 (proj2 (interrupted_index_ends_exact (demo_env [6%nat]) (demo_meta "/zim/v1.zim") 3 demo_opened 1 demo_db
    _ _ _ _ _ _)) _ _).
  - intros n db. by split_and!.
  - intros i j Hij. cbn. lia.
  - apply (bool_decide_eq_true_1 (NoDup _)). vm_compute. reflexivity.
  - unfold i64_max. lia.
  - vm_compute. reflexivity.
  - split; [|split].
    + vm_compute. reflexivity.
    + intros p x Hx. cbn [ix_articles demo_db] in Hx. by rewrite lookup_empty in Hx.
    + intros c Hc. cbn [ix_checkpoints demo_db] in Hc. by rewrite lookup_empty in Hc.
  - exact Hok.
Defined.

(** ** Departures from the comments *)

(** A resumed run prunes: it finds the whole archive loaded, starts no chunk,
    and its end removes the articles older than the start time in the
    checkpoint.  (The comment before the load says that a resumed run never
    prunes.) *)
Example resumed_run_prunes :
  let old := mkIndexed "gone" None "gone" "en" "C" 5 None in
  let new := mkIndexed "alpha" (Some "alpha, rewritten") "alpha" "en" "C" 12 None in
  let db := mkIx (<[(3, "A/b") := old]> {[(3, "A/a") := new]}) [] ∅ (ix_zims demo_db)
              {["wiki_en" := mkCheckpoint 77 1 1 (Some 10) "A/a:16"]} 20 in
  let '(r, d) := index_body (demo_meta "/zim/v2.zim") (demo_env []) db in
  r = Ok tt /\ ix_articles d = {[(3, "A/a") := new]}.
Proof. vm_compute. split; reflexivity. Qed.

Definition v1_indexed : IndexDb := snd (index_body (demo_meta "/zim/v1.zim") (demo_env []) demo_db).

(** The vector of an article survives a change of its text: the upsert keeps it,
    and the embedding run only takes articles without one. *)
Example reindex_keeps_old_vectors :
  let embed a := mkIndexed (ia_title a) (ia_preview a) (ia_snippet a) (ia_language a) (ia_namespace a)
                   (ia_updated_at a) (Some "[vector of alpha]") in
  let db := set_articles (alter embed (3, "A/a") (ix_articles v1_indexed)) v1_indexed in
  let '(r, d) := index_body (demo_meta "/zim/v2.zim") (demo_env []) db in
  r = Ok tt /\ ((fun a => (ia_preview a, ia_embedding a)) <$> ix_articles d !! (3, "A/a")) =
    Some (Some "alpha, rewritten", Some "[vector of alpha]").
Proof. vm_compute. split; reflexivity. Qed.

(** A Q-ID survives an article that no longer has one. *)
Example reindex_keeps_stale_qid :
  let db := set_qids {[(3, "A/a") := 7]} v1_indexed in
  let '(r, d) := index_body (demo_meta "/zim/v2.zim") (demo_env []) db in
  r = Ok tt /\ ix_qids d !! (3, "A/a") = Some 7.
Proof. vm_compute. split; reflexivity. Qed.

(** One NUL in one text fails the chunk, and with it the run. *)
Example nul_fails_the_run :
  let row := mkArt "A/n" "n" (Some (str_of [65; 0])) "n" "en" None in
  fst (bulk_insert [row] "C" 3 (demo_env []) demo_db) = Err refused.
Proof. vm_compute. reflexivity. Qed.

End Demo.
