(* ===== verification/Guards.v ===== *)
(** * Guards: one instance per database and per directory

    The start-up guards of [src/startup/guards.rs], the opt-outs of
    [src/process.rs] and the choice [cmd_serve] makes between them
    ([src/main.rs]).  A guard is acquired by a program: a tree of the calls it
    makes to the system and to the database ([Call]), each continued by its
    answer.  [answer] is what a host with files, processes and database
    sessions replies; [step] interleaves the calls of all processes with
    crashes, stops and lost connections, and [serial] is the case of starts
    and stops that do not overlap.  Two paths name one file when they are
    equal; [db_of] tells which database a connection string names. *)

From S2P Require Import Prelude RustStr Config Files IndexText.

(** ** Programs *)

Inductive Call :=
  | Connect (database_url : string)
  | TryInstanceLock
  | LockHolder
  | CloseConnection
  | Exists (p : string)
  | ReadToString (p : string)
  | ReadComm (pid : Z)
  | Kill (pid : Z)
  | RemoveFile (p : string)
  | CreateNew (p : string)
  | WriteText (s : string)
  | UnixSeconds
  | ProcessId
  | GetVar (name : string).

(** [Kill] answers the return value and [errno]; [UnixSeconds] is [None] when
    the clock is before the epoch. *)
Definition reply (c : Call) : Type :=
  match c with
  | Connect _ | RemoveFile _ | CreateNew _ | WriteText _ => result string unit
  | TryInstanceLock => result string (option bool)
  | LockHolder | UnixSeconds => option Z
  | CloseConnection => unit
  | Exists _ => bool
  | ReadToString _ | ReadComm _ | GetVar _ => option string
  | Kill _ => (Z * option Z)%type
  | ProcessId => Z
  end.

Inductive Prog (A : Type) :=
  | Ret (a : A)
  | Act (c : Call) (k : reply c -> Prog A).
Arguments Ret {A} a.
Arguments Act {A} c k.

Fixpoint pbind {A B} (p : Prog A) (f : A -> Prog B) : Prog B :=
  match p with
  | Ret a => f a
  | Act c k => Act c (fun r => pbind (k r) f)
  end.

Declare Scope prog_scope.
Delimit Scope prog_scope with prog.
Notation "'call' x := c 'in' k" := (Act c (fun x => k)) (at level 10, x pattern, k at level 200) : prog_scope.
Notation "'run' x := p 'in' k" := (pbind p (fun x => k)) (at level 10, x pattern, k at level 200) : prog_scope.
Open Scope prog_scope.

(** ** The opt-outs *)

Definition is_one (v : option string) : bool :=
  match v with Some s => String.eqb s "1" | None => false end.

Definition multi_instance_allowed : Prog bool :=
  call v := GetVar "ZIMSERVICE_ALLOW_MULTI_INSTANCE" in Ret (is_one v).

Definition multi_db_allowed : Prog bool :=
  call v := GetVar "ZIMSERVICE_ALLOW_MULTI_DB" in Ret (is_one v).

(** ** The advisory lock *)

(** [lock_task] tells whether a monitor task owns a connection. *)
Record SingleInstanceGuard := mkGuard {
  lock_task : bool;
  lock_path : option string
}.

Definition advisory_lock_held (g : SingleInstanceGuard) : bool := lock_task g.

(** [Drop]. *)
Definition drop_guard (g : SingleInstanceGuard) : Prog unit :=
  run _ := (if lock_task g then call _ := CloseConnection in Ret tt else Ret tt) in
  match lock_path g with
  | Some p => call _ := RemoveFile p in Ret tt
  | None => Ret tt
  end.

(** The connection of an [Err] is dropped on return. *)
Definition connect_and_try_instance_lock (config : Configuration) : Prog (result string bool) :=
  call r := Connect (database_url config) in
  match r with
  | Err e => Ret (Err ("advisory-lock connect: " +:+ e))
  | Ok _ =>
      call acquired := TryInstanceLock in
      match acquired with
      | Err e => call _ := CloseConnection in Ret (Err ("advisory lock: " +:+ e))
      | Ok a => Ret (Ok (default false a))
      end
  end.

Definition try_acquire_advisory_lock (config : Configuration) : Prog (result string bool) :=
  run r := connect_and_try_instance_lock config in
  match r with
  | Err e => Ret (Err e)
  | Ok true => Ret (Ok true)
  | Ok false => call _ := CloseConnection in Ret (Ok false)
  end.

Definition mutating_refusal (holder : string) : string :=
  "another zimservice instance (" +:+ holder +:+ ") is already using this database. A running server keeps its ZIM catalog (metadata, article counts, index/embed status) in memory, and this command's writes would race it — several of them (index/embed status updates) are not cache-invalidation sources, so the server would keep serving its stale copy. Stop the server and re-run this command, use a different DATABASE_URL, or set ZIMSERVICE_ALLOW_MULTI_INSTANCE=1 to override (not recommended).".

(** The guard of a mutating command is a connection, or none with the opt-out. *)
Definition acquire_mutating_guard (config : Configuration) : Prog (result string bool) :=
  run allowed := multi_instance_allowed in
  if allowed : bool then Ret (Ok false)
  else
    run r := connect_and_try_instance_lock config in
    match r with
    | Err e => Ret (Err e)
    | Ok true => Ret (Ok true)
    | Ok false =>
        call pid := LockHolder in
        let holder := match pid with
          | Some p => "advisory lock held by pid " +:+ pretty p
          | None => "advisory lock held by another process"
          end in
        call _ := CloseConnection in
        Ret (Err (mutating_refusal holder))
    end.

(** ** The lock file *)

Definition ESRCH : Z := 3.

(** [pid as libc::pid_t]. *)
Definition u32_as_i32 (p : Z) : Z := if p <=? i32_max then p else p - 2 ^ 32.

Definition pid_is_alive (pid : Z) : Prog bool :=
  call r := Kill (u32_as_i32 pid) in
  match r with
  | (0, _) => Ret true
  | (-1, errno) => Ret (negb (bool_decide (errno = Some ESRCH)))
  | _ => Ret true
  end.

Definition is_zimservice_comm (comm : string) : bool :=
  let name := trim comm in
  String.eqb name "zimservice" || starts_with "zimservice-" name.

Definition pid_lock_holder_is_zimservice (pid : Z) : Prog bool :=
  call comm := ReadComm pid in
  match comm with
  | Some c => Ret (is_zimservice_comm c)
  | None => Ret true
  end.

(** The holder's PID on the first line, the creation time on the second. *)
Definition parse_lock_file (existing : string) : Z * option Z :=
  let ls := lines existing in
  (default 0 (head ls ≫= fun l => parse_unsigned u32_max (trim l)),
   head (tail ls) ≫= fun l => parse_u64 (trim l)).

Definition pid_lock_refusal (config : Configuration) (lock_path : string) (pid : Z) (created_ts : option Z) : string :=
  let age_note := match created_ts with
    | Some ts => " (lock created at unix " +:+ pretty ts +:+ ")"
    | None => EmptyString
    end in
  "another zimservice instance (PID " +:+ pretty pid +:+ age_note +:+ ") is using this zim_dir (" +:+ zim_dir config
  +:+ ") — stopping. Stop the other instance, or delete " +:+ lock_path +:+ " if it is stale.".

(** [write!] writes the pieces of its format one after the other and stops at
    the first that fails. *)
Fixpoint write_pieces (ps : list string) : Prog unit :=
  match ps with
  | [] => Ret tt
  | p :: rest =>
      call r := WriteText p in
      match r with Ok _ => write_pieces rest | Err _ => Ret tt end
  end.

Definition lf_text : string := String lf EmptyString.

Definition create_lock_file (lock_path : string) : Prog (result string string) :=
  call r := CreateNew lock_path in
  match r with
  | Err e => Ret (Err ("create lock file " +:+ lock_path +:+ ": " +:+ e))
  | Ok _ =>
      call now := UnixSeconds in
      call pid := ProcessId in
      run _ := write_pieces [pretty pid; lf_text; pretty (default 0 now); lf_text] in
      Ret (Ok lock_path)
  end.

Definition acquire_zim_dir_pid_lock (config : Configuration) : Prog (result string string) :=
  let lock_path := path_join (zim_dir config) ".zimservice.lock" in
  call exists_ := Exists lock_path in
  if exists_ : bool then
    call text := ReadToString lock_path in
    let '(existing_pid, created_ts) := parse_lock_file (default EmptyString text) in
    run alive := (if existing_pid =? 0 then Ret false else pid_is_alive existing_pid) in
    run live_holder := (if alive : bool then pid_lock_holder_is_zimservice existing_pid else Ret false) in
    if live_holder : bool then Ret (Err (pid_lock_refusal config lock_path existing_pid created_ts))
    else
      call removed := RemoveFile lock_path in
      match removed with
      | Err e => Ret (Err ("remove stale lock file: " +:+ e))
      | Ok _ => create_lock_file lock_path
      end
  else create_lock_file lock_path.

(** ** The liveness monitor *)

(** A probe started at a time: its answer and how long it takes (ms). *)
Inductive ProbeReply := Answered | Dropped (e : string).

Definition ADVISORY_LOCK_CHECK_INTERVAL : Z := 30000.

(** Sleep, probe with a deadline, repeat; the reason and time of the callback,
    if it runs within [fuel] rounds.  [shown] is [{interval:?}]. *)
Fixpoint detect_advisory_lock_loss (fuel : nat) (interval : Z) (shown : string) (probe : Z -> ProbeReply * Z) (t : Z) :
    option (string * Z) :=
  match fuel with
  | O => None
  | S fuel =>
      let s := t + interval in
      let '(r, d) := probe s in
      if interval <? d then
        Some ("advisory-lock liveness probe made no progress within " +:+ shown
              +:+ " — treating the lock connection as lost", s + interval)
      else match r with
        | Answered => detect_advisory_lock_loss fuel interval shown probe (s + d)
        | Dropped e => Some ("advisory-lock connection dropped: " +:+ e, s + d)
        end
  end.

(** ** The guards of [serve] *)

(** The connection is dropped when the lock file is refused. *)
Definition pid_lock_with (held : bool) (config : Configuration) : Prog (result string SingleInstanceGuard) :=
  run r := acquire_zim_dir_pid_lock config in
  match r with
  | Err e => if held then call _ := CloseConnection in Ret (Err e) else Ret (Err e)
  | Ok p => Ret (Ok (mkGuard held (Some p)))
  end.

Definition acquire_instance_guard (config : Configuration) : Prog (result string (option SingleInstanceGuard)) :=
  run advisory := try_acquire_advisory_lock config in
  match advisory with
  | Err e => Ret (Err e)
  | Ok false => Ret (Ok None)
  | Ok true =>
      run g := pid_lock_with true config in
      match g with Err e => Ret (Err e) | Ok g => Ret (Ok (Some g)) end
  end.

Definition acquire_instance_guard_multi_db (config : Configuration) : Prog (result string SingleInstanceGuard) :=
  run advisory := try_acquire_advisory_lock config in
  match advisory with
  | Err e => Ret (Err e)
  | Ok true => pid_lock_with true config
  | Ok false => pid_lock_with false config
  end.

Definition serve_refusal : string :=
  "another zimservice instance already holds the single-process advisory lock for this database. A second `serve` would corrupt the shared in-process caches (settings, rate limiter, qBittorrent client, ZIM LRU). Stop the other instance, or set ZIMSERVICE_ALLOW_MULTI_DB=1 if you deliberately run a different-database deployment on a shared zim_dir, or ZIMSERVICE_ALLOW_MULTI_INSTANCE=1 to disable all guards (not recommended).".

(** The guards part of [cmd_serve]. *)
Definition cmd_serve_guard (config : Configuration) : Prog (result string (option SingleInstanceGuard)) :=
  run allow_multi := multi_instance_allowed in
  let allow_multi_db := negb allow_multi && allow_multi_db config in
  if allow_multi : bool then Ret (Ok None)
  else if allow_multi_db then
    run g := acquire_instance_guard_multi_db config in
    match g with Err e => Ret (Err e) | Ok g => Ret (Ok (Some g)) end
  else
    run g := acquire_instance_guard config in
    match g with
    | Err e => Ret (Err e)
    | Ok (Some g) => Ret (Ok (Some g))
    | Ok None => Ret (Err serve_refusal)
    end.

(** ** The host *)

Inductive Kind := Unrelated | Serve | Mutate.

#[export] Instance Kind_eq_dec : EqDecision Kind.
Proof. solve_decision. Defined.

Inductive Task :=
  | Elsewhere
  | Starting (p : Prog (result string (option SingleInstanceGuard)))
  | Holding (g : option SingleInstanceGuard)
  | Stopping (p : Prog unit).

(** [pr_comm] is [None] when [/proc] does not tell; [pr_conn] is the dedicated
    connection (database and session), [pr_fd] the lock file it has open. *)
Record Proc := mkProc {
  pr_kind : Kind;
  pr_config : Configuration;
  pr_comm : option string;
  pr_vars : gmap string string;
  pr_conn : option (string * Z);
  pr_fd : option Z;
  pr_task : Task
}.

(** A file is its inode and its text; [h_locks] maps a database to the session
    that holds the instance lock. *)
Record Host := mkHost {
  h_files : gmap string (Z * string);
  h_locks : gmap string Z;
  h_procs : gmap Z Proc;
  h_next : Z
}.

Definition set_procs (ps : gmap Z Proc) (h : Host) : Host := mkHost (h_files h) (h_locks h) ps (h_next h).
Definition set_files (fs : gmap string (Z * string)) (h : Host) : Host := mkHost fs (h_locks h) (h_procs h) (h_next h).
Definition set_locks (ls : gmap string Z) (h : Host) : Host := mkHost (h_files h) ls (h_procs h) (h_next h).
Definition put_proc (pid : Z) (pr : Proc) (h : Host) : Host := set_procs (<[pid := pr]> (h_procs h)) h.
Definition with_conn (c : option (string * Z)) (pr : Proc) : Proc :=
  mkProc (pr_kind pr) (pr_config pr) (pr_comm pr) (pr_vars pr) c (pr_fd pr) (pr_task pr).
Definition with_fd (f : option Z) (pr : Proc) : Proc :=
  mkProc (pr_kind pr) (pr_config pr) (pr_comm pr) (pr_vars pr) (pr_conn pr) f (pr_task pr).
Definition with_task (t : Task) (pr : Proc) : Proc :=
  mkProc (pr_kind pr) (pr_config pr) (pr_comm pr) (pr_vars pr) (pr_conn pr) (pr_fd pr) t.

(** The database releases a session's lock when its connection closes. *)
Definition release (c : option (string * Z)) (h : Host) : Host :=
  match c with
  | Some (d, s) => if bool_decide (h_locks h !! d = Some s) then set_locks (delete d (h_locks h)) h else h
  | None => h
  end.

(** What goes wrong at a step: a call fails, the lock file cannot be read or
    written;
    the clock; what [kill] says of a process group or of a process that may
    not be signalled. *)
Record CallFault := mkCallFault {
  f_err : option string;
  f_read : bool;
  f_write : option string;
  f_clock : option Z;
  f_group : Z * option Z;
  f_eperm : bool
}.

Class PgCluster := { db_of : string -> string }.

Definition file_missing : string := "No such file or directory (os error 2)".
Definition file_exists : string := "File exists (os error 17)".
Definition EPERM : Z := 1.

(** A write goes to the open file, whatever its path names by then. *)
Definition append_inode (i : Z) (s : string) (fs : gmap string (Z * string)) : gmap string (Z * string) :=
  (fun it => if fst it =? i then (fst it, snd it +:+ s) else it) <$> fs.
Arguments append_inode : simpl never.

Definition answer `{PgCluster} (f : CallFault) (pid : Z) (pr : Proc) (c : Call) (h : Host) : reply c * Host :=
  match c as c0 return reply c0 * Host with
  | Connect url =>
      match f_err f with
      | Some e => (Err e, h)
      | None => (Ok tt, put_proc pid (with_conn (Some (db_of url, h_next h)) pr)
                          (mkHost (h_files h) (h_locks h) (h_procs h) (h_next h + 1)))
      end
  | TryInstanceLock =>
      match f_err f, pr_conn pr with
      | Some e, _ => (Err e, h)
      | None, None => (Err "connection closed", h)
      | None, Some (d, s) =>
          match h_locks h !! d with
          | Some s' => (Ok (Some (s' =? s)), h)
          | None => (Ok (Some true), set_locks (<[d := s]> (h_locks h)) h)
          end
      end
  | LockHolder =>
      (match f_err f, pr_conn pr with
       | None, Some (d, s) => match h_locks h !! d with Some s' => if s' =? s then None else Some s' | None => None end
       | _, _ => None
       end, h)
  | CloseConnection => (tt, put_proc pid (with_conn None pr) (release (pr_conn pr) h))
  | Exists p => (match f_err f with Some _ => false | None => bool_decide (is_Some (h_files h !! p)) end, h)
  | ReadToString p => (if f_read f then None else snd <$> h_files h !! p, h)
  | ReadComm p =>
      (match f_err f with Some _ => None | None => h_procs h !! p ≫= fun q => (fun c => c +:+ lf_text) <$> pr_comm q end, h)
  | Kill p =>
      (if p <=? 0 then f_group f
       else match h_procs h !! p with
         | Some _ => if f_eperm f then (-1, Some EPERM) else (0, None)
         | None => (-1, Some ESRCH)
         end, h)
  | RemoveFile p =>
      match f_err f, h_files h !! p with
      | Some e, _ => (Err e, h)
      | None, None => (Err file_missing, h)
      | None, Some _ => (Ok tt, set_files (delete p (h_files h)) h)
      end
  | CreateNew p =>
      match f_err f, h_files h !! p with
      | Some e, _ => (Err e, h)
      | None, Some _ => (Err file_exists, h)
      | None, None =>
          (Ok tt, put_proc pid (with_fd (Some (h_next h)) pr)
                    (mkHost (<[p := (h_next h, EmptyString)]> (h_files h)) (h_locks h) (h_procs h) (h_next h + 1)))
      end
  | WriteText s =>
      match f_write f, pr_fd pr with
      | Some e, _ => (Err e, h)
      | None, None => (Err "bad file descriptor", h)
      | None, Some i => (Ok tt, set_files (append_inode i s (h_files h)) h)
      end
  | UnixSeconds => (f_clock f, h)
  | ProcessId => (pid, h)
  | GetVar name => (pr_vars pr !! name, h)
  end.

(** A process ends: its connection closes, its lock file stays. *)
Definition exit_proc (pid : Z) (h : Host) : Host :=
  match h_procs h !! pid with
  | Some pr => set_procs (delete pid (h_procs h)) (release (pr_conn pr) h)
  | None => h
  end.

Definition set_task (pid : Z) (t : Task) (h : Host) : Host :=
  match h_procs h !! pid with Some pr => put_proc pid (with_task t pr) h | None => h end.

(** A mutating command's guard is the connection alone. *)
Definition start_program (k : Kind) (config : Configuration) : Prog (result string (option SingleInstanceGuard)) :=
  match k with
  | Serve => cmd_serve_guard config
  | _ =>
      run r := acquire_mutating_guard config in
      Ret (match r with Err e => Err e | Ok true => Ok (Some (mkGuard true None)) | Ok false => Ok None end)
  end.

Definition stop_program (g : option SingleInstanceGuard) : Prog unit :=
  match g with Some g => drop_guard g | None => Ret tt end.

Definition first_task (k : Kind) (config : Configuration) : Task :=
  match k with Unrelated => Elsewhere | _ => Starting (start_program k config) end.

Definition launch (pid : Z) (k : Kind) (config : Configuration) (comm : option string) (vars : gmap string string)
    (h : Host) : Host :=
  match h_procs h !! pid with
  | Some _ => h
  | None => put_proc pid (mkProc k config comm vars None None (first_task k config)) h
  end.

Definition lose_connection (pid : Z) (h : Host) : Host :=
  match h_procs h !! pid with
  | Some pr => put_proc pid (with_conn None pr) (release (pr_conn pr) h)
  | None => h
  end.

(** ** Interleaved steps *)

Inductive Event :=
  | Launch (pid : Z) (k : Kind) (config : Configuration) (comm : option string) (vars : gmap string string)
  | Run (pid : Z) (f : CallFault)
  | Stop (pid : Z)
  | Crash (pid : Z)
  | LoseConnection (pid : Z).

(** One call of a process, or its passage to the next stage. *)
Definition run_proc `{PgCluster} (f : CallFault) (pid : Z) (pr : Proc) (h : Host) : Host :=
  match pr_task pr with
  | Starting (Act c k) => let '(r, h') := answer f pid pr c h in set_task pid (Starting (k r)) h'
  | Starting (Ret (Ok g)) => set_task pid (Holding g) h
  | Starting (Ret (Err _)) => exit_proc pid h
  | Stopping (Act c k) => let '(r, h') := answer f pid pr c h in set_task pid (Stopping (k r)) h'
  | Stopping (Ret _) => exit_proc pid h
  | Elsewhere | Holding _ => h
  end.

Definition step `{PgCluster} (e : Event) (h : Host) : Host :=
  match e with
  | Launch pid k config comm vars => launch pid k config comm vars h
  | Run pid f => match h_procs h !! pid with Some pr => run_proc f pid pr h | None => h end
  | Stop pid =>
      match pr_task <$> h_procs h !! pid with
      | Some (Holding g) => set_task pid (Stopping (stop_program g)) h
      | _ => h
      end
  | Crash pid => exit_proc pid h
  | LoseConnection pid => lose_connection pid h
  end.

Definition empty_host (files : gmap string (Z * string)) (next : Z) : Host := mkHost files ∅ ∅ next.

Definition run_events `{PgCluster} (es : list Event) (h : Host) : Host := foldl (fun h e => step e h) h es.

(** ** Starts and stops that do not overlap *)

(** A program run to its end by one process; [fs] gives the fault of each of
    its calls. *)
Fixpoint run_prog `{PgCluster} {A} (fs : nat -> CallFault) (n : nat) (pid : Z) (p : Prog A) (h : Host) :
    option (A * (nat * Host)) :=
  match p with
  | Ret a => Some (a, (n, h))
  | Act c k =>
      pr ← h_procs h !! pid;
      let '(r, h') := answer (fs n) pid pr c h in
      run_prog fs (S n) pid (k r) h'
  end.

Inductive SerialEvent :=
  | SLaunch (pid : Z) (k : Kind) (config : Configuration) (comm : option string) (vars : gmap string string)
      (fs : nat -> CallFault)
  | SStop (pid : Z) (fs : nat -> CallFault)
  | SCrash (pid : Z)
  | SLoseConnection (pid : Z).

Definition start_alone `{PgCluster} (fs : nat -> CallFault) (pid : Z) (k : Kind) (config : Configuration) (h : Host) : Host :=
  match run_prog fs 0 pid (start_program k config) h with
  | Some (Ok g, (_, h')) => set_task pid (Holding g) h'
  | Some (Err _, (_, h')) => exit_proc pid h'
  | None => h
  end.

Definition serial_step `{PgCluster} (e : SerialEvent) (h : Host) : Host :=
  match e with
  | SLaunch pid k config comm vars fs =>
      match h_procs h !! pid, k with
      | Some _, _ => h
      | None, Unrelated => launch pid k config comm vars h
      | None, _ => start_alone fs pid k config (launch pid k config comm vars h)
      end
  | SStop pid fs =>
      match pr_task <$> h_procs h !! pid with
      | Some (Holding g) =>
          match run_prog fs 0 pid (stop_program g) h with
          | Some (_, (_, h')) => exit_proc pid h'
          | None => h
          end
      | _ => h
      end
  | SCrash pid => exit_proc pid h
  | SLoseConnection pid => lose_connection pid h
  end.

Definition run_serial `{PgCluster} (es : list SerialEvent) (h : Host) : Host := foldl (fun h e => serial_step e h) h es.

(** ** One instance per database *)

Definition MULTI_INSTANCE : string := "ZIMSERVICE_ALLOW_MULTI_INSTANCE".

(** A process that took no opt-out. *)
Definition guarded (pr : Proc) : bool :=
  negb (is_one (pr_vars pr !! MULTI_INSTANCE)) &&
  match pr_kind pr with Serve => negb (allow_multi_db (pr_config pr)) | Mutate => true | Unrelated => false end.

(** Whether the lock is held after a call, given whether it was before. *)
Definition held_after (c : Call) : reply c -> bool -> bool :=
  match c as c0 return reply c0 -> bool -> bool with
  | Connect _ => fun _ _ => false
  | TryInstanceLock => fun r held => match r with Ok (Some true) => true | _ => held end
  | CloseConnection => fun _ _ => false
  | _ => fun _ held => held
  end.

Definition may_reply (vars : gmap string string) (c : Call) : reply c -> Prop :=
  match c as c0 return reply c0 -> Prop with
  | GetVar n => fun r => r = vars !! n
  | _ => fun _ => True
  end.

Definition connects_to (config : Configuration) (c : Call) : Prop :=
  match c with Connect url => url = database_url config | _ => True end.

Definition settled (must held : bool) (r : result string (option SingleInstanceGuard)) : Prop :=
  match r with
  | Ok (Some g) => (lock_task g = true -> held = true) /\ (must = true -> lock_task g = true)
  | Ok None => must = false
  | Err _ => True
  end.

(** The discipline of a start: it connects to its own database, a guard that
    claims the lock has it, and without an opt-out there is such a guard. *)
Fixpoint follows {A} (Q : bool -> A -> Prop) (config : Configuration) (vars : gmap string string) (held : bool)
    (p : Prog A) : Prop :=
  match p with
  | Ret a => Q held a
  | Act c k => connects_to config c /\ forall r, may_reply vars c r -> follows Q config vars (held_after c r held) (k r)
  end.

Lemma follows_bind {A B} (Q : bool -> A -> Prop) (R : bool -> B -> Prop) config vars p (f : A -> Prog B) : forall held,
  follows Q config vars held p -> (forall held' a, Q held' a -> follows R config vars held' (f a)) ->
  follows R config vars held (pbind p f).
Proof.
  induction p as [a|c k IH]; intros held Hp Hf; cbn in *; [by apply Hf|].
  destruct Hp as [Hc Hk]. split; [done|]. intros r Hr. apply IH; [by apply Hk|done].
Qed.

Lemma follows_mono {A} (Q R : bool -> A -> Prop) config vars p : forall held,
  follows Q config vars held p -> (forall h a, Q h a -> R h a) -> follows R config vars held p.
Proof.
  induction p as [a|c k IH]; intros held Hp HQ; cbn in *; [by apply HQ|].
  destruct Hp as [Hc Hk]. split; [done|]. intros r Hr. by apply IH; [apply Hk|].
Qed.

(** A program without database calls keeps the lock. *)
Fixpoint db_free {A} (p : Prog A) : Prop :=
  match p with
  | Ret _ => True
  | Act c k => match c with Connect _ | TryInstanceLock | CloseConnection => False | _ => True end /\ forall r, db_free (k r)
  end.

Lemma db_free_bind {A B} (p : Prog A) (f : A -> Prog B) : db_free p -> (forall a, db_free (f a)) -> db_free (pbind p f).
Proof. induction p as [a|c k IH]; cbn; [eauto|]. intros [Hc Hk] Hf. split; [done|]. intros r. by apply IH. Qed.

Lemma db_free_follows {A} config vars held (p : Prog A) : db_free p -> follows (fun h _ => h = held) config vars held p.
Proof.
  induction p as [a|c k IH]; cbn; [done|]. intros [Hc Hk].
  split; [by destruct c|]. intros r _. replace (held_after c r held) with held by by destruct c. by apply IH.
Qed.

Lemma write_pieces_free ps : db_free (write_pieces ps).
Proof. induction ps as [|p ps IH]; cbn; [done|]. split; [done|]. by intros [?|?]. Qed.

Lemma create_lock_file_free p : db_free (create_lock_file p).
Proof.
  split; [done|]. intros [?|?]; [|done]. split; [done|]. intros now. split; [done|]. intros pid.
  apply db_free_bind; [apply write_pieces_free|done].
Qed.

Lemma pid_is_alive_free pid : db_free (pid_is_alive pid).
Proof. cbn. split; [done|]. intros [rc errno]. by destruct rc as [|?|[?|?|]]. Qed.

Lemma holder_is_zimservice_free pid : db_free (pid_lock_holder_is_zimservice pid).
Proof. cbn. split; [done|]. by intros [?|]. Qed.

Lemma pid_lock_free config : db_free (acquire_zim_dir_pid_lock config).
Proof.
  unfold acquire_zim_dir_pid_lock. split; [done|]. intros [|]; [|apply create_lock_file_free].
  split; [done|]. intros text. destruct (parse_lock_file _) as [pid ts].
  apply db_free_bind; [destruct (pid =? 0); [done|apply pid_is_alive_free]|]. intros alive.
  apply db_free_bind; [destruct alive; [apply holder_is_zimservice_free|done]|]. intros [|]; [done|].
  split; [done|]. intros [?|?]; [apply create_lock_file_free|done].
Qed.

Lemma connect_follows config vars :
  follows (fun held r => r = Ok true -> held = true) config vars false (connect_and_try_instance_lock config).
Proof.
  cbn. split; [done|]. intros [u|e] _; cbn; [|done]. split; [done|].
  intros [[[]|]|e'] _; cbn; [done..|]. split; [done|]. done.
Qed.

Lemma try_acquire_follows config vars :
  follows (fun held r => r = Ok true -> held = true) config vars false (try_acquire_advisory_lock config).
Proof.
  eapply follows_bind; [apply connect_follows|]. intros held [[|]|e] Hr; cbn; [done| |done].
  split; [done|]. done.
Qed.

Lemma pid_lock_with_follows config vars held0 held :
  (held0 = true -> held = true) ->
  follows (fun h r => forall g, r = Ok g -> (lock_task g = true -> h = true) /\ lock_task g = held0) config vars held
    (pid_lock_with held0 config).
Proof.
  intros Hh. eapply follows_bind; [by apply db_free_follows, pid_lock_free|].
  intros h [p|e] ->; cbn; [by intros g [= <-]|]. destruct held0; cbn; [split; [done|]|]; done.
Qed.

Lemma multi_instance_follows config vars held :
  follows (fun h b => h = held /\ b = is_one (vars !! MULTI_INSTANCE)) config vars held multi_instance_allowed.
Proof. split; [done|]. by intros v ->. Qed.

Lemma start_follows k config vars :
  let pr := mkProc k config None vars None None Elsewhere in
  k <> Unrelated -> follows (settled (guarded pr)) config vars false (start_program k config).
Proof.
  intros pr Hk. destruct k; [done|..]; unfold start_program.
  - eapply follows_bind; [apply multi_instance_follows|]. intros h v [-> ->]. unfold pr, guarded.
    cbn [pr_kind pr_config pr_vars]. destruct (is_one (vars !! MULTI_INSTANCE)); [done|].
    cbn [negb andb]. destruct (allow_multi_db config) eqn:Hm; cbn [negb].
    + eapply (follows_bind (fun h (r : result string SingleInstanceGuard) =>
        forall g, r = Ok g -> lock_task g = true -> h = true)).
      * unfold acquire_instance_guard_multi_db. eapply follows_bind; [apply try_acquire_follows|].
        intros held [[|]|e] Hr; cbn [follows]; [| |done];
          (eapply follows_mono; [apply pid_lock_with_follows|]); try naive_solver.
      * intros held [g|e] Hg; cbn; [|done]. split; [by apply Hg|done].
    + eapply (follows_bind (fun h (r : result string (option SingleInstanceGuard)) =>
        forall g, r = Ok (Some g) -> h = true /\ lock_task g = true)).
      * unfold acquire_instance_guard. eapply follows_bind; [apply try_acquire_follows|].
        intros held [[|]|e] Hr; cbn [follows]; [|done..].
        eapply follows_bind; [apply (pid_lock_with_follows _ _ true held); naive_solver|].
        intros h [g|e] Hg; cbn; [|done]. intros g' [= <-]. destruct (Hg g eq_refl) as [H1 H2]. split; [by apply H1|done].
      * intros held [[g|]|e] Hg; cbn; [|done..]. destruct (Hg g eq_refl). done.
  - eapply (follows_bind (fun h r => match r with
      | Ok true => h = true | Ok false => guarded pr = false | Err _ => True end)).
    + eapply follows_bind; [apply multi_instance_follows|]. intros h v [-> ->]. unfold pr, guarded.
      cbn [pr_kind pr_config pr_vars]. destruct (is_one (vars !! MULTI_INSTANCE)); [done|].
      eapply follows_bind; [apply connect_follows|].
      intros held [[|]|e] Hr; cbn; [by apply Hr| |done]. split; [done|]. intros holder _. by split.
    + intros held [[|]|e] Hr; cbn; done.
Qed.

Section DatabaseExclusion.

Context `{Pg : PgCluster}.

(** The processes whose connection was lost at some time. *)
Context (lost : Z -> Prop).

(** A process that holds the lock has it in its session, unless its connection
    was lost. *)
Definition lock_ok (held : bool) (pid : Z) (pr : Proc) (h : Host) : Prop :=
  held = true -> match pr_conn pr with Some (d, s) => h_locks h !! d = Some s | None => lost pid end.

Definition conn_ok (pr : Proc) : Prop :=
  match pr_conn pr with Some (d, _) => d = db_of (database_url (pr_config pr)) | None => True end.

Definition task_ok (pid : Z) (pr : Proc) (h : Host) : Prop :=
  match pr_task pr with
  | Elsewhere => pr_kind pr = Unrelated
  | Starting p => exists held, lock_ok held pid pr h /\ follows (settled (guarded pr)) (pr_config pr) (pr_vars pr) held p
  | Holding g => exists held, lock_ok held pid pr h /\ settled (guarded pr) held (Ok g)
  | Stopping p => exists held, follows (fun _ _ => True) (pr_config pr) (pr_vars pr) held p
  end.

Record host_inv (h : Host) : Prop := {
  inv_session : forall p q prp prq d d' s, h_procs h !! p = Some prp -> h_procs h !! q = Some prq ->
    pr_conn prp = Some (d, s) -> pr_conn prq = Some (d', s) -> p = q;
  inv_next : forall p pr d s, h_procs h !! p = Some pr -> pr_conn pr = Some (d, s) -> s < h_next h;
  inv_proc : forall p pr, h_procs h !! p = Some pr -> conn_ok pr /\ task_ok p pr h
}.

(** What a change made by [pid] leaves alone: the other processes, and the
    locks of the sessions that are not its own. *)
Record moves (pid : Z) (h h' : Host) : Prop := {
  mv_procs : forall q, q <> pid -> h_procs h' !! q = h_procs h !! q;
  mv_locks : forall d s, h_locks h !! d = Some s ->
    (forall pr, h_procs h !! pid = Some pr -> pr_conn pr <> Some (d, s)) -> h_locks h' !! d = Some s;
  mv_next : h_next h <= h_next h'
}.

Lemma task_ok_locks pid pr h h' :
  (forall d s, pr_conn pr = Some (d, s) -> h_locks h !! d = Some s -> h_locks h' !! d = Some s) ->
  task_ok pid pr h -> task_ok pid pr h'.
Proof.
  intros Hl. assert (Hk : forall held, lock_ok held pid pr h -> lock_ok held pid pr h').
  { intros held H Hh. specialize (H Hh). destruct (pr_conn pr) as [[d s]|]; eauto. }
  unfold task_ok. destruct (pr_task pr); naive_solver.
Qed.

(** [pid] moves and leaves itself in order: the invariant holds again. *)
Lemma inv_moves pid h h' : host_inv h -> moves pid h h' ->
  (forall pr', h_procs h' !! pid = Some pr' -> conn_ok pr' /\ task_ok pid pr' h' /\
    forall d s, pr_conn pr' = Some (d, s) ->
      (h_next h <= s < h_next h') \/ (exists pr d', h_procs h !! pid = Some pr /\ pr_conn pr = Some (d', s))) ->
  host_inv h'.
Proof.
  intros [Hs Hn Hp] [Mp Ml Mn] Hpid.
  assert (Hold : forall q pr d s, q <> pid -> h_procs h' !! q = Some pr -> pr_conn pr = Some (d, s) ->
    h_procs h !! q = Some pr /\ s < h_next h /\
    (forall pr' d' s', h_procs h' !! pid = Some pr' -> pr_conn pr' = Some (d', s') -> s' <> s)).
  { intros q pr d s Hq Hl Hc. rewrite Mp in Hl by done. pose proof (Hn _ _ _ _ Hl Hc). split; [done|]. split; [done|].
    intros pr' d' s' Hl' Hc' ->. destruct (Hpid _ Hl') as (_ & _ & Hfrom).
    destruct (Hfrom _ _ Hc') as [?|(pr0 & d0 & H0 & H1)]; [lia|]. apply Hq. by eapply Hs. }
  split.
  - intros p q prp prq d d' s Hp1 Hq1 Hc1 Hc2.
    destruct (decide (p = pid)) as [->|Hnp], (decide (q = pid)) as [->|Hnq]; [done|..].
    + destruct (Hold _ _ _ _ Hnq Hq1 Hc2) as (_ & _ & Hne). by edestruct Hne.
    + destruct (Hold _ _ _ _ Hnp Hp1 Hc1) as (_ & _ & Hne). by edestruct Hne.
    + rewrite !Mp in * by done. by eapply Hs.
  - intros p pr d s Hl Hc. destruct (decide (p = pid)) as [->|Hne].
    + destruct (Hpid _ Hl) as (_ & _ & Hfrom). destruct (Hfrom _ _ Hc) as [?|(pr0 & d0 & H0 & H1)]; [lia|].
      pose proof (Hn _ _ _ _ H0 H1). lia.
    + destruct (Hold _ _ _ _ Hne Hl Hc) as (_ & ? & _). lia.
  - intros p pr Hl. destruct (decide (p = pid)) as [->|Hne]; [naive_solver|].
    rewrite Mp in Hl by done. destruct (Hp _ _ Hl) as [Hc Ht]. split; [done|].
    eapply task_ok_locks; [|done]. intros d s Hcs Hlk. apply Ml; [done|]. intros pr0 H0 H1.
    apply Hne. by eapply Hs.
Qed.

Lemma release_moves pid pr h ps : h_procs h !! pid = Some pr ->
  (forall q, q <> pid -> ps !! q = h_procs h !! q) -> moves pid h (set_procs ps (release (pr_conn pr) h)).
Proof.
  intros Hl Hps. unfold release. destruct (pr_conn pr) as [[d s]|] eqn:Hc; [case_bool_decide as Hd|];
    (split; cbn; [done| |lia]); intros d' s' Hl' Hmine; [|done..].
  rewrite lookup_delete_ne; [done|]. intros ->. by apply (Hmine pr); [|congruence].
Qed.

Lemma exit_keeps pid h : host_inv h -> host_inv (exit_proc pid h).
Proof.
  intros Hi. unfold exit_proc. destruct (h_procs h !! pid) as [pr|] eqn:Hl; [|done].
  eapply (inv_moves pid); [done|apply release_moves; [done|]|].
  - intros q Hq. by rewrite lookup_delete_ne.
  - intros pr'. cbn. by rewrite lookup_delete_eq.
Qed.

Lemma task_keeps pid t h : host_inv h ->
  (forall pr, h_procs h !! pid = Some pr -> task_ok pid (with_task t pr) h) -> host_inv (set_task pid t h).
Proof.
  intros Hi Ht. unfold set_task. destruct (h_procs h !! pid) as [pr|] eqn:Hl; [|done].
  eapply (inv_moves pid); [done|split; cbn; [|done|lia]|].
  - intros q Hq. by rewrite lookup_insert_ne.
  - intros pr'. cbn. rewrite lookup_insert_eq. intros [= <-]. split; [exact (proj1 (inv_proc _ Hi _ _ Hl))|].
    split; [by apply Ht|]. intros d s Hc. right. by exists pr, d.
Qed.

(** [pr'] is [pr] after a call: the same process, with another connection,
    open file or neither. *)
Definition same_process (pr pr' : Proc) : Prop :=
  pr_kind pr' = pr_kind pr /\ pr_config pr' = pr_config pr /\ pr_vars pr' = pr_vars pr /\ pr_comm pr' = pr_comm pr.

Definition answered (pid : Z) (pr : Proc) (h h' : Host) (held : bool) : Prop :=
  moves pid h h' /\
  exists pr', h_procs h' !! pid = Some pr' /\ same_process pr pr' /\ conn_ok pr' /\ lock_ok held pid pr' h' /\
    forall d s, pr_conn pr' = Some (d, s) -> (h_next h <= s < h_next h') \/ pr_conn pr = Some (d, s).

Lemma answered_files pid pr h held fs n : h_procs h !! pid = Some pr -> conn_ok pr -> lock_ok held pid pr h ->
  h_next h <= n -> answered pid pr h (mkHost fs (h_locks h) (h_procs h) n) held.
Proof.
  intros Hl Hc Hk Hn. split; [by split|]. exists pr. repeat split; auto.
Qed.

Lemma answered_put pid pr h held pr' fs ls n : same_process pr pr' -> h_next h <= n -> conn_ok pr' ->
  (forall d s, h_locks h !! d = Some s -> pr_conn pr <> Some (d, s) -> ls !! d = Some s) ->
  (forall d s, pr_conn pr' = Some (d, s) -> (h_next h <= s < n) \/ pr_conn pr = Some (d, s)) ->
  h_procs h !! pid = Some pr ->
  lock_ok held pid pr' (mkHost fs ls (<[pid := pr']> (h_procs h)) n) ->
  answered pid pr h (mkHost fs ls (<[pid := pr']> (h_procs h)) n) held.
Proof.
  intros Hs Hn Hc Hls Hfrom Hl Hk. split; [split; cbn; [|naive_solver|done]|].
  - intros q Hq. by rewrite lookup_insert_ne.
  - exists pr'. cbn. by rewrite lookup_insert_eq.
Qed.

Lemma release_eta c h : exists ls, release c h = mkHost (h_files h) ls (h_procs h) (h_next h) /\
  forall d s, h_locks h !! d = Some s -> c <> Some (d, s) -> ls !! d = Some s.
Proof.
  destruct h as [fs ls ps n]. unfold release. destruct c as [[d s]|]; [case_bool_decide as Hd; cbn in *|]; eexists; (split; [done|]);
    cbn; [|done..].
  intros d' s' Hl Hne. rewrite lookup_delete_ne; [done|]. intros ->. congruence.
Qed.

Lemma answer_moves f pid pr c h r h' held : h_procs h !! pid = Some pr -> conn_ok pr ->
  answer f pid pr c h = (r, h') -> connects_to (pr_config pr) c -> lock_ok held pid pr h ->
  answered pid pr h h' (held_after c r held) /\ may_reply (pr_vars pr) c r.
Proof.
  intros Hl Hc Ha Hu Hk.
  assert (Hsame : answered pid pr h h held) by (destruct h; apply answered_files; [done..|cbn; lia]).
  destruct c; cbn in Ha; unfold put_proc, set_procs, set_files, set_locks in Ha; cbn in Ha.
  - destruct (f_err f); injection Ha as <- <-; (split; [|done]); cbn.
    + destruct Hsame as (? & pr' & ? & ? & ? & ? & ?). split; [done|]. by exists pr'.
    + cbn in Hu. subst. apply answered_put; cbn; try done; try lia.
      intros d s [= <- <-]. left. lia.
  - destruct (f_err f); [by injection Ha as <- <-|]. destruct (pr_conn pr) as [[d s]|] eqn:Hcn; [|by injection Ha as <- <-].
    destruct (h_locks h !! d) as [s'|] eqn:Hlk; injection Ha as <- <-; (split; [|done]); cbn.
    + destruct (Z.eqb_spec s' s) as [->|]; [|done]. destruct Hsame as (? & pr' & ? & ? & ? & ? & ?).
      split; [done|]. exists pr. repeat split; auto. intros _. by rewrite Hcn.
    + split; [split; cbn; [done| |lia]|].
      * intros d' s' H0 _. rewrite lookup_insert_ne; [done|]. congruence.
      * exists pr. repeat split; auto. intros _. rewrite Hcn. cbn. by rewrite lookup_insert_eq.
  - by injection Ha as <- <-.
  - injection Ha as <- <-. split; [|done]. destruct (release_eta (pr_conn pr) h) as (ls & -> & Hls). cbn.
    by apply answered_put.
  - by injection Ha as <- <-.
  - by injection Ha as <- <-.
  - by injection Ha as <- <-.
  - by injection Ha as <- <-.
  - destruct (f_err f), (h_files h !! p); injection Ha as <- <-; (split; [|done]); try done. by apply answered_files.
  - destruct (f_err f), (h_files h !! p); injection Ha as <- <-; (split; [|done]); try done.
    apply answered_put; cbn; try done; try lia. auto.
  - destruct (f_write f), (pr_fd pr); injection Ha as <- <-; (split; [|done]); try done. by apply answered_files.
  - by injection Ha as <- <-.
  - by injection Ha as <- <-.
  - by injection Ha as <- <-.
Qed.

Lemma answer_keeps f pid pr c h r h' held t : host_inv h -> h_procs h !! pid = Some pr ->
  answer f pid pr c h = (r, h') -> connects_to (pr_config pr) c -> lock_ok held pid pr h ->
  (forall pr', same_process pr pr' -> may_reply (pr_vars pr) c r -> lock_ok (held_after c r held) pid pr' h' ->
    task_ok pid (with_task t pr') h') ->
  host_inv (set_task pid t h').
Proof.
  intros Hi Hl Ha Hu Hk Ht.
  destruct (answer_moves _ _ _ _ _ _ _ _ Hl (proj1 (inv_proc _ Hi _ _ Hl)) Ha Hu Hk)
    as [([Mp Ml Mn] & pr' & Hl' & Hs & Hc & Hk' & Hf) Hr].
  unfold set_task. rewrite Hl'. eapply (inv_moves pid h); [done|split; cbn; [|done|done]|].
  - intros q Hq. rewrite lookup_insert_ne by done. by apply Mp.
  - intros pr2. cbn. rewrite lookup_insert_eq. intros [= <-]. split; [done|]. split; [by apply Ht|].
    intros d s Hcs. destruct (Hf _ _ Hcs) as [?|?]; [by left|]. right. by exists pr, d.
Qed.

Lemma guarded_same pr pr' : same_process pr pr' -> guarded pr' = guarded pr.
Proof. intros (H1 & H2 & H3 & _). unfold guarded. by rewrite H1, H2, H3. Qed.

Lemma stop_follows config vars g : follows (fun _ _ => True) config vars false (stop_program g).
Proof. destruct g as [[[|] [p|]]|]; cbn; repeat first [split; [done|]; intros ? _ | done]. Qed.

Lemma run_keeps f pid pr h : host_inv h -> h_procs h !! pid = Some pr -> host_inv (run_proc f pid pr h).
Proof.
  intros Hi Hl. pose proof (inv_proc _ Hi _ _ Hl) as [Hc Ht]. unfold task_ok in Ht. unfold run_proc.
  destruct (pr_task pr) as [|[[g|e]|c k]|g|[u|c k]] eqn:Hpt; [done|..|done| |].
  - destruct Ht as (held & Hk & Hf). apply task_keeps; [done|]. intros pr0 H0. simplify_eq. by exists held.
  - by apply exit_keeps.
  - destruct Ht as (held & Hk & Hu & Hf). destruct (answer f pid pr c h) as [r h'] eqn:Ha.
    eapply answer_keeps; [done..|]. intros pr' Hs Hr Hk'. exists (held_after c r held). split; [done|].
    destruct Hs as (H1 & H2 & H3 & _). cbn. unfold guarded. cbn. rewrite H1, H2, H3. by apply Hf.
  - by apply exit_keeps.
  - destruct Ht as (held & Hu & Hf). destruct (answer f pid pr c h) as [r h'] eqn:Ha.
    eapply (answer_keeps _ _ _ _ _ _ _ false); [done..|]. intros pr' (H1 & H2 & H3 & _) Hr _.
    exists (held_after c r held). cbn. rewrite H2, H3. by apply Hf.
Qed.

Lemma launch_keeps pid k config comm vars h : host_inv h -> host_inv (launch pid k config comm vars h).
Proof.
  intros Hi. unfold launch. destruct (h_procs h !! pid) eqn:Hl; [done|].
  eapply (inv_moves pid); [done|split; cbn; [|done|lia]|].
  - intros q Hq. by rewrite lookup_insert_ne.
  - intros pr'. cbn. rewrite lookup_insert_eq. intros [= <-]. split; [done|]. split; [|done].
    destruct (decide (k = Unrelated)) as [->|Hk]; [done|].
    assert (first_task k config = Starting (start_program k config)) as Ht by by destruct k.
    unfold task_ok. cbn. rewrite Ht. exists false. split; [done|]. exact (start_follows k config vars Hk).
Qed.

Lemma lose_keeps pid h : lost pid -> host_inv h -> host_inv (lose_connection pid h).
Proof.
  intros Hlost Hi. unfold lose_connection. destruct (h_procs h !! pid) as [pr|] eqn:Hl; [|done].
  eapply (inv_moves pid); [done| |].
  - destruct (release_eta (pr_conn pr) h) as (ls & -> & Hls). split; cbn; [|naive_solver|lia].
    intros q Hq. by rewrite lookup_insert_ne.
  - intros pr'. cbn. replace (h_procs (release (pr_conn pr) h)) with (h_procs h)
      by (destruct (release_eta (pr_conn pr) h) as (ls & -> & _); done).
    rewrite lookup_insert_eq. intros [= <-]. split; [done|]. split; [|done].
    destruct (inv_proc _ Hi _ _ Hl) as [_ Ht]. unfold task_ok in *. cbn. destruct (pr_task pr); [done|..|done];
      destruct Ht as (held & _ & Hf); exists held; (split; [by intros _|done]).
Qed.

Lemma step_keeps e h : (forall pid, e = LoseConnection pid -> lost pid) -> host_inv h -> host_inv (step e h).
Proof.
  intros Hlost Hi. destruct e as [pid k config comm vars|pid f|pid|pid|pid]; cbn.
  - by apply launch_keeps.
  - destruct (h_procs h !! pid) eqn:Hl; [by apply run_keeps|done].
  - destruct (h_procs h !! pid) as [pr|] eqn:Hl; [|done]. cbn. destruct (pr_task pr) eqn:Ht; [done..| |done].
    apply task_keeps; [done|]. intros pr0 H0. exists false. apply stop_follows.
  - by apply exit_keeps.
  - by apply lose_keeps; [apply Hlost|].
Qed.

Lemma run_events_keeps es h : (forall pid, LoseConnection pid ∈ es -> lost pid) -> host_inv h -> host_inv (run_events es h).
Proof.
  revert h. induction es as [|e es IH]; intros h Hl Hi; cbn; [done|]. apply IH; [intros pid Hp; apply Hl; by right|].
  apply step_keeps; [|done]. intros pid ->. apply Hl. by left.
Qed.

Lemma empty_host_inv files next : host_inv (empty_host files next).
Proof. split; cbn; intros *; by rewrite lookup_empty. Qed.

End DatabaseExclusion.

(** A process that its guard let through on the database [d], and that either
    took no opt-out or was told it has the lock. *)
Definition serves_database `{PgCluster} (h : Host) (pid : Z) (d : string) : Prop :=
  exists pr g, h_procs h !! pid = Some pr /\ pr_task pr = Holding g /\
    db_of (database_url (pr_config pr)) = d /\ (guarded pr = true \/ (advisory_lock_held <$> g) = Some true).

(** C8: one instance per database.  Servers and mutating commands start,
    stop, crash and lose their connections in any interleaving of their system
    calls, and any call may fail.  Of two processes that their guards let
    through on one database, that did not take an opt-out (or were told that
    they have the lock), a connection of one was lost in the run (as a step of
    its own, no call of the program), or they are the same process: a start
    that does not get the lock is refused. *)
Theorem database_exclusive `{PgCluster} files next es p q d :
  let h := run_events es (empty_host files next) in
  serves_database h p d -> serves_database h q d ->
  p = q \/ LoseConnection p ∈ es \/ LoseConnection q ∈ es.
Proof.
  intros h Hp Hq. set (lost := fun pid => LoseConnection pid ∈ es).
  pose proof (run_events_keeps lost es _ (fun pid Hpid => Hpid) (empty_host_inv lost files next)) as Hi. fold h in Hi.
  assert (Hown : forall p, serves_database h p d -> lost p \/ exists pr s, h_procs h !! p = Some pr /\
    pr_conn pr = Some (d, s) /\ h_locks h !! d = Some s).
  { intros p0 (pr & g & Hl & Ht & Hd & Hg). destruct (inv_proc _ _ Hi _ _ Hl) as [Hco Hto].
    unfold conn_ok in Hco. unfold task_ok in Hto. rewrite Ht in Hto. destruct Hto as (held & Hk & Hs).
    assert (held = true) as ->.
    { cbn in Hs. destruct g as [g|]; [destruct Hs as [H1 H2]|]; destruct Hg as [Hg|Hg]; cbn in Hg; try congruence.
      - by apply H1, H2.
      - apply H1. by injection Hg. }
    specialize (Hk eq_refl). destruct (pr_conn pr) as [[d0 s]|] eqn:Hc; [right|by left].
    exists pr, s. split; [done|]. split; [congruence|]. congruence. }
  destruct (Hown _ Hp) as [?|(prp & s & Hlp & Hcp & Hkp)]; [by right; left|].
  destruct (Hown _ Hq) as [?|(prq & s' & Hlq & Hcq & Hkq)]; [by right; right|].
  left. assert (s' = s) by congruence. subst. by eapply (inv_session _ _ Hi).
Qed.

(** ** A serial run is an interleaving *)

Section Serial.

Context `{Pg : PgCluster}.

Lemma run_bind {A B} fs pid (p : Prog A) (f : A -> Prog B) : forall n h,
  run_prog fs n pid (pbind p f) h = run_prog fs n pid p h ≫= fun '(a, (n', h')) => run_prog fs n' pid (f a) h'.
Proof.
  induction p as [a|c k IH]; intros n h; cbn; [done|]. destruct (h_procs h !! pid) as [pr|]; [|done].
  cbn. destruct (answer (fs n) pid pr c h) as [r h']. apply IH.
Qed.

Lemma run_act {A} fs n pid c (k : reply c -> Prog A) h pr : h_procs h !! pid = Some pr ->
  run_prog fs n pid (Act c k) h =
  run_prog fs (S n) pid (k (fst (answer (fs n) pid pr c h))) (snd (answer (fs n) pid pr c h)).
Proof. intros Hl. cbn. rewrite Hl. cbn. by destruct (answer (fs n) pid pr c h). Qed.

Lemma release_task pid t c h : release c (set_task pid t h) = set_task pid t (release c h).
Proof.
  unfold set_task, release. destruct c as [[d s]|]; [|done]. cbn.
  destruct (h_procs h !! pid) as [pr|] eqn:Hl; cbn; case_bool_decide; cbn; by rewrite ?Hl.
Qed.

Lemma release_procs c h : h_procs (release c h) = h_procs h.
Proof. unfold release. destruct c as [[d s]|]; [|done]. by case_bool_decide. Qed.

Lemma set_task_lookup pid t h pr : h_procs h !! pid = Some pr -> h_procs (set_task pid t h) !! pid = Some (with_task t pr).
Proof. intros Hl. unfold set_task. rewrite Hl. cbn. by rewrite lookup_insert_eq. Qed.

Lemma answer_task f pid pr c h t : h_procs h !! pid = Some pr ->
  answer f pid (with_task t pr) c (set_task pid t h) =
  (fst (answer f pid pr c h), set_task pid t (snd (answer f pid pr c h))).
Proof.
  intros Hl.
  assert (Hput : forall pr' fs ls n, set_task pid t (mkHost fs ls (<[pid := pr']> (h_procs h)) n)
    = mkHost fs ls (<[pid := with_task t pr']> (h_procs h)) n).
  { intros. unfold set_task. cbn. rewrite lookup_insert_eq. unfold put_proc, set_procs. cbn. by rewrite insert_insert_eq. }
  assert (Hset : forall fs ls n, set_task pid t (mkHost fs ls (h_procs h) n)
    = mkHost fs ls (<[pid := with_task t pr]> (h_procs h)) n).
  { intros. unfold set_task. cbn. by rewrite Hl. }
  assert (Hst : set_task pid t h = mkHost (h_files h) (h_locks h) (<[pid := with_task t pr]> (h_procs h)) (h_next h)).
  { destruct h. apply Hset. }
  assert (Hq : forall q, <[pid := with_task t pr]> (h_procs h) !! q =
    (fun x => if decide (q = pid) then with_task t x else x) <$> h_procs h !! q).
  { intros q. destruct (decide (q = pid)) as [->|]; [by rewrite lookup_insert_eq, Hl|].
    rewrite lookup_insert_ne by done. by destruct (h_procs h !! q). }
  destruct c; try (rewrite Hst; cbn; unfold put_proc, set_procs, set_files, set_locks; cbn;
    repeat case_match; cbn; rewrite ?Hput, ?Hset, ?Hst, ?insert_insert_eq; simplify_eq/=; done).
  - cbn. rewrite release_task. destruct (release_eta (pr_conn pr) h) as (ls & -> & _). rewrite Hset.
    unfold put_proc, set_procs. cbn. by rewrite Hput, insert_insert_eq.
  - rewrite Hst. cbn. rewrite Hst, Hq. by destruct (f_err f), (h_procs h !! pid0); cbn; try case_decide.
  - rewrite Hst. cbn. rewrite Hst, Hq. by destruct (pid0 <=? 0), (h_procs h !! pid0).
Qed.

Lemma set_task_twice pid t t' h : set_task pid t (set_task pid t' h) = set_task pid t h.
Proof.
  unfold set_task. destruct (h_procs h !! pid) as [pr|] eqn:Hl; [|by rewrite Hl].
  cbn. rewrite lookup_insert_eq. unfold put_proc, set_procs. cbn. by rewrite insert_insert_eq.
Qed.

Lemma answer_same f pid pr c h : h_procs h !! pid = Some pr ->
  exists pr', h_procs (snd (answer f pid pr c h)) !! pid = Some pr' /\ pr_task pr' = pr_task pr /\ same_process pr pr'.
Proof.
  intros Hl. destruct c; cbn; repeat case_match; cbn; rewrite ?lookup_insert_eq, ?release_procs;
    (eexists; split; [done|split; [done|by repeat split]]).
Qed.

(** The calls of a program, one [Run] each. *)
Lemma run_prog_events {A} (wrap : Prog A -> Task) fs pid :
  (forall c k f pr h, pr_task pr = wrap (Act c k) ->
    run_proc f pid pr h = let '(r, h') := answer f pid pr c h in set_task pid (wrap (k r)) h') ->
  forall (p : Prog A) n h a n' h', run_prog fs n pid p h = Some (a, (n', h')) ->
  exists es, run_events es (set_task pid (wrap p) h) = set_task pid (wrap (Ret a)) h'.
Proof.
  intros Hw p. induction p as [a0|c k IH]; intros n h a n' h'; cbn; [intros [= <- <- <-]; by exists []|].
  destruct (h_procs h !! pid) as [pr|] eqn:Hl; [|done]. cbn.
  pose proof (answer_task (fs n) pid pr c h (wrap (Act c k)) Hl) as Ha.
  destruct (answer (fs n) pid pr c h) as [r h1] eqn:He. intros Hr. destruct (IH r _ _ _ _ _ Hr) as [es Hes].
  exists (Run pid (fs n) :: es). cbn. rewrite (set_task_lookup _ _ _ _ Hl), (Hw c k) by done.
  rewrite Ha. cbn. by rewrite set_task_twice.
Qed.

Lemma run_events_app es1 es2 h : run_events (es1 ++ es2) h = run_events es2 (run_events es1 h).
Proof. unfold run_events. by rewrite foldl_app. Qed.

Lemma run_prog_pid {A} fs pid (p : Prog A) : forall n h, is_Some (h_procs h !! pid) ->
  exists a n' h', run_prog fs n pid p h = Some (a, (n', h')) /\ is_Some (h_procs h' !! pid).
Proof.
  induction p as [a|c k IH]; intros n h Hs; cbn; [by eexists _, _, _|].
  destruct Hs as [pr Hl]. rewrite Hl. cbn. pose proof (answer_same (fs n) pid pr c h Hl) as (pr' & Hl' & _).
  destruct (answer (fs n) pid pr c h) as [r h1]. apply IH. by eexists.
Qed.

Lemma set_task_id pid h pr : h_procs h !! pid = Some pr -> set_task pid (pr_task pr) h = h.
Proof.
  intros Hl. unfold set_task, put_proc, set_procs. rewrite Hl. destruct h as [fs ls ps nx]. cbn in *.
  f_equal. rewrite insert_id; [done|]. by destruct pr.
Qed.

Lemma exit_task pid t h : exit_proc pid (set_task pid t h) = exit_proc pid h.
Proof.
  unfold exit_proc. destruct (h_procs h !! pid) as [pr|] eqn:Hl.
  - rewrite (set_task_lookup _ _ _ _ Hl). cbn. rewrite release_task.
    unfold set_task. rewrite Hl, release_procs, Hl. unfold put_proc, set_procs. cbn. rewrite ?release_procs. by rewrite delete_insert_eq.
  - unfold set_task. by rewrite Hl, Hl.
Qed.

Lemma start_alone_events fs pid k config comm vars h : k <> Unrelated -> h_procs h !! pid = None ->
  exists es, start_alone fs pid k config (launch pid k config comm vars h) = run_events es h.
Proof.
  intros Hk Hl. assert (first_task k config = Starting (start_program k config)) as Ht by by destruct k.
  set (h0 := launch pid k config comm vars h).
  assert (Hl0 : h_procs h0 !! pid = Some (mkProc k config comm vars None None (Starting (start_program k config)))).
  { unfold h0, launch. rewrite Hl. cbn. by rewrite lookup_insert_eq, Ht. }
  unfold start_alone.
  destruct (run_prog_pid fs pid (start_program k config) 0 h0) as (r & n' & h' & Hrun & [pr' Hl']); [by eexists|].
  rewrite Hrun.
  destruct (run_prog_events Starting fs pid ltac:(unfold run_proc; by intros c0 k0 f0 pr0 hh ->) _ _ _ _ _ _ Hrun) as [es Hes].
  pose proof (set_task_id _ _ _ Hl0) as Hid. cbn [pr_task] in Hid. rewrite Hid in Hes.
  exists ([Launch pid k config comm vars] ++ es ++ [Run pid (fs 0%nat)]).
  rewrite !run_events_app. change (run_events [Launch pid k config comm vars] h) with h0. rewrite Hes.
  cbn [run_events foldl step]. rewrite (set_task_lookup _ _ _ _ Hl'). unfold run_proc. cbn [pr_task with_task].
  destruct r as [g|err]; [by rewrite set_task_twice|by rewrite exit_task].
Qed.

(** A start, stop or crash in one go is a sequence of interleaved steps. *)
Lemma serial_step_events e h : exists es, serial_step e h = run_events es h.
Proof.
  destruct e as [pid k config comm vars fs|pid fs|pid|pid]; cbn [serial_step].
  - destruct (h_procs h !! pid) eqn:Hl; [by exists []|].
    destruct k; [by exists [Launch pid Unrelated config comm vars]|by apply start_alone_events..].
  - destruct (h_procs h !! pid) as [pr|] eqn:Hl; [|by exists []]. cbn. destruct (pr_task pr) as [| |g|] eqn:Ht; try by exists [].
    destruct (run_prog_pid fs pid (stop_program g) 0 h) as (r & n' & h' & Hrun & Hs'); [by eexists|]. rewrite Hrun.
    destruct (run_prog_events Stopping fs pid ltac:(unfold run_proc; by intros c0 k0 f0 pr0 hh ->) _ _ _ _ _ _ Hrun) as [es Hes].
    destruct Hs' as [pr' Hl']. exists ([Stop pid] ++ es ++ [Run pid (fs 0%nat)]).
    rewrite !run_events_app. cbn [run_events foldl step]. rewrite Hl. cbn [fmap option_fmap option_map]. rewrite Ht. fold (run_events es). unfold run_events in Hes |- *. rewrite Hes.
    cbn [foldl step].
    rewrite (set_task_lookup _ _ _ _ Hl'). unfold run_proc. cbn. by rewrite exit_task.
  - by exists [Crash pid].
  - by exists [LoseConnection pid].
Qed.

End Serial.

(** ** The lock file *)

Section LockFile.

Context `{Pg : PgCluster}.

Definition lock_text (pid ts : Z) : string := pretty pid +:+ lf_text +:+ pretty ts +:+ lf_text.

Lemma strip_cr_digits n : 0 <= n -> strip_cr (pretty n) = pretty n.
Proof.
  intros Hn. pose proof (pretty_exists (Ascii.eqb cr) n Hn ltac:(by intros a; destruct (Ascii.eqb_spec cr a) as [<-|])) as H.
  unfold strip_cr. destruct (str_rev (pretty n)) as [|c r] eqn:E; [done|].
  assert (pretty n = str_rev r +:+ String c EmptyString) as E2 by (rewrite <- str_rev_cons, <- E; by rewrite str_rev_involutive).
  rewrite E2, str_exists_app in H. cbn [str_exists] in H. rewrite orb_false_r, orb_false_iff in H. destruct H as [_ H].
  by rewrite Ascii.eqb_sym, H.
Qed.

Lemma trim_digits n : 0 <= n -> trim (pretty n) = pretty n.
Proof.
  intros Hn. apply trim_id, pretty_forall; [done|]. intros a. destruct a as [[] [] [] [] [] [] [] []]; by vm_compute.
Qed.

(** What a start writes, the next one reads back. *)
Lemma parse_lock_text pid ts : 0 <= pid <= u32_max -> 0 <= ts <= u64_max -> parse_lock_file (lock_text pid ts) = (pid, Some ts).
Proof.
  intros Hp Ht. assert (Hsep : forall n, 0 <= n -> split_on (Ascii.eqb lf) (pretty n) = [pretty n]).
  { intros n Hn. apply split_on_none, pretty_exists; [done|]. intros a. by destruct (Ascii.eqb_spec lf a) as [<-|]. }
  unfold parse_lock_file, lines, lock_text, lf_text. cbn [String.append].
  rewrite split_on_app, (split_on_app _ (pretty ts)), !Hsep by first [done|lia]. cbn.
  rewrite !strip_cr_digits, !trim_digits by lia. unfold parse_u64. by rewrite !parse_unsigned_pretty.
Qed.

Lemma append_inode_lookup i s fs p : append_inode i s fs !! p =
  (fun it => if fst it =? i then (fst it, snd it +:+ s) else it) <$> fs !! p.
Proof. apply lookup_fmap. Qed.

Lemma append_inode_app i a b fs : append_inode i b (append_inode i a fs) = append_inode i (a +:+ b) fs.
Proof.
  apply map_eq. intros p. rewrite !append_inode_lookup. destruct (fs !! p) as [[j s]|]; cbn; [|done].
  destruct (Z.eqb_spec j i); cbn; [|by rewrite (proj2 (Z.eqb_neq j i))]. subst. by rewrite Z.eqb_refl, str_app_assoc.
Qed.

Definition inodes_below (h : Host) : Prop := forall p i s, h_files h !! p = Some (i, s) -> i < h_next h.

Lemma append_inode_fresh i s fs p : (forall q j t, fs !! q = Some (j, t) -> j < i) ->
  append_inode i s (<[p := (i, EmptyString)]> fs) = <[p := (i, s)]> fs.
Proof.
  intros Hf. apply map_eq. intros q. rewrite append_inode_lookup. destruct (decide (q = p)) as [->|Hne].
  - rewrite !lookup_insert_eq. cbn. by rewrite Z.eqb_refl.
  - rewrite !lookup_insert_ne by done. destruct (fs !! q) as [[j t]|] eqn:E; cbn; [|done].
    rewrite (proj2 (Z.eqb_neq j i)); [done|]. specialize (Hf _ _ _ E). lia.
Qed.

(** The lock file can be read and written and the clock is sane; other calls
    may fail. *)
Definition reliable (fs : nat -> CallFault) : Prop :=
  forall n, f_read (fs n) = false /\ f_write (fs n) = None /\ 0 <= default 0 (f_clock (fs n)) <= u64_max.

Lemma write_run fs pid i pr ps : reliable fs -> pr_fd pr = Some i -> forall n h, h_procs h !! pid = Some pr ->
  exists n', run_prog fs n pid (write_pieces ps) h =
    Some (tt, (n', match ps with [] => h | _ => set_files (append_inode i (foldr String.append EmptyString ps) (h_files h)) h end)).
Proof.
  intros Hfs Hfd. induction ps as [|s ps IH]; intros n h Hl; [by exists n|]. cbn [write_pieces run_prog].
  rewrite Hl. cbn. rewrite (proj1 (proj2 (Hfs n))), Hfd.
  destruct (IH (S n) (set_files (append_inode i s (h_files h)) h)) as [n' ->]; [done|]. exists n'. f_equal. f_equal. f_equal.
  destruct ps as [|s2 ps]; cbn [foldr]; [by rewrite str_app_nil_r|]. unfold set_files.
  cbn [h_files h_locks h_procs h_next]. by rewrite append_inode_app.
Qed.

(** The host after the lock file was created and written. *)
Definition locked_by (pid : Z) (pr : Proc) (path : string) (ts : Z) (h : Host) : Host :=
  mkHost (<[path := (h_next h, lock_text pid ts)]> (h_files h)) (h_locks h) (<[pid := with_fd (Some (h_next h)) pr]> (h_procs h))
    (h_next h + 1).

Lemma create_run fs n pid pr path h r n' h' : reliable fs -> inodes_below h -> h_procs h !! pid = Some pr ->
  run_prog fs n pid (create_lock_file path) h = Some (r, (n', h')) ->
  (is_err r = true /\ h' = h) \/
  (exists n0, r = Ok path /\ h_files h !! path = None /\ h' = locked_by pid pr path (default 0 (f_clock (fs n0))) h).
Proof.
  intros Hfs Hin Hl. unfold create_lock_file. rewrite (run_act _ _ _ _ _ _ _ Hl). cbn [answer].
  destruct (f_err (fs n)); [by intros [= <- <- <-]; left|].
  destruct (h_files h !! path) eqn:Hp; [by intros [= <- <- <-]; left|]. cbn [fst snd].
  set (h1 := put_proc _ _ _). set (pr1 := with_fd (Some (h_next h)) pr).
  assert (Hl1 : h_procs h1 !! pid = Some pr1) by (unfold h1; cbn; by rewrite lookup_insert_eq).
  rewrite (run_act _ _ _ _ _ _ _ Hl1). cbn [answer fst snd].
  rewrite (run_act _ _ _ _ _ _ _ Hl1). cbn [answer fst snd reply]. rewrite run_bind.
  destruct (write_run fs pid (h_next h) (with_fd (Some (h_next h)) pr)
    [pretty pid; lf_text; pretty (default 0 (f_clock (fs (S n)))); lf_text] Hfs eq_refl (S (S (S n))) h1) as [n2 ->].
  { unfold h1. cbn. by rewrite lookup_insert_eq. }
  cbn. intros [= <- <- <-]. right. exists (S n). split; [done|]. split; [done|].
  unfold locked_by, h1, set_files, put_proc, set_procs. cbn [h_files h_locks h_procs h_next]. f_equal.
  by rewrite append_inode_fresh by exact Hin.
Qed.

(** The file names a process that is alive and, as far as can be told, ours. *)
Definition live_lock (h : Host) (path : string) : Prop :=
  exists i s pr, let q := fst (parse_lock_file s) in
  h_files h !! path = Some (i, s) /\ 1 <= q <= i32_max /\ h_procs h !! q = Some pr /\
  match pr_comm pr with Some c => is_zimservice_comm (c +:+ lf_text) = true | None => True end.

Definition lock_file_of (config : Configuration) : string := path_join (zim_dir config) ".zimservice.lock".

Lemma kill_run {A} fs n pid pr q h (k : bool -> Prog A) : h_procs h !! pid = Some pr ->
  exists alive n1, run_prog fs n pid (pbind (if q =? 0 then Ret false else pid_is_alive q) k) h = run_prog fs n1 pid (k alive) h /\
    (1 <= q <= i32_max -> is_Some (h_procs h !! q) -> alive = true).
Proof.
  intros Hl. destruct (Z.eqb_spec q 0) as [->|Hq]; [exists false, n; split; [done|lia]|].
  rewrite run_bind. unfold pid_is_alive. rewrite (run_act _ _ _ _ _ _ _ Hl). cbn [answer fst snd].
  set (rc := if u32_as_i32 q <=? 0 then _ else _).
  assert (exists b, forall n0, run_prog fs n0 pid
    match rc with (0, _) => Ret true | (-1, errno) => Ret (negb (bool_decide (errno = Some ESRCH))) | _ => Ret true end h
    = Some (b, (n0, h)) /\ (rc = (0, None) \/ rc = (-1, Some EPERM) -> b = true)) as [b Hb].
  { destruct rc as [[|z|[?|?|]] e]; eexists; intros n0; (split; [done|]); try done; intros [?|?]; by simplify_eq. }
  destruct (Hb (S n)) as [-> Hb2]. exists b, (S n). split; [done|]. intros Hr [prq Hs]. apply Hb2.
  unfold rc, u32_as_i32. rewrite (proj2 (Z.leb_le q i32_max)), (proj2 (Z.leb_gt q 0)), Hs by lia. destruct (f_eperm (fs n)); auto.
Qed.

Lemma comm_run {A} fs n pid pr q (alive : bool) h (k : bool -> Prog A) : h_procs h !! pid = Some pr ->
  exists live n1, run_prog fs n pid (pbind (if alive then pid_lock_holder_is_zimservice q else Ret false) k) h
      = run_prog fs n1 pid (k live) h /\
    (forall prq, alive = true -> h_procs h !! q = Some prq ->
      match pr_comm prq with Some c => is_zimservice_comm (c +:+ lf_text) = true | None => True end -> live = true).
Proof.
  intros Hl. destruct alive; [|by exists false, n]. rewrite run_bind. unfold pid_lock_holder_is_zimservice.
  rewrite (run_act _ _ _ _ _ _ _ Hl). cbn [answer fst snd].
  destruct (f_err (fs n)); [by exists true, (S n)|].
  destruct (h_procs h !! q) as [prq|] eqn:Hq; [|by exists true, (S n)]. cbn.
  destruct (pr_comm prq) as [c|] eqn:Hc; cbn; eexists _, (S n); (split; [done|]); [|done].
  intros prq' _ [= <-]. by rewrite Hc.
Qed.

(** A start with the lock file readable and writable: refused with nothing
    changed, refused after a stale file was removed, or granted. *)
Lemma pid_lock_run fs n pid pr config h r n' h' : reliable fs -> inodes_below h -> h_procs h !! pid = Some pr ->
  run_prog fs n pid (acquire_zim_dir_pid_lock config) h = Some (r, (n', h')) ->
  (is_err r = true /\ h' = h) \/
  (~ live_lock h (lock_file_of config) /\
   ((is_err r = true /\ h' = set_files (delete (lock_file_of config) (h_files h)) h) \/
    exists n0, r = Ok (lock_file_of config) /\
      h' = locked_by pid pr (lock_file_of config) (default 0 (f_clock (fs n0))) h)).
Proof.
  intros Hfs Hin Hl. unfold acquire_zim_dir_pid_lock. fold (lock_file_of config). set (path := lock_file_of config).
  rewrite (run_act _ _ _ _ _ _ _ Hl). cbn [answer fst snd].
  assert (Hcreate : forall m, run_prog fs m pid (create_lock_file path) h = Some (r, (n', h')) ->
    (is_err r = true /\ h' = h) \/ (~ live_lock h path /\ exists n0, r = Ok path /\
      h' = locked_by pid pr path (default 0 (f_clock (fs n0))) h)).
  { intros m Hr. destruct (create_run _ _ _ _ _ _ _ _ _ Hfs Hin Hl Hr) as [?|(n0 & -> & Hnone & ->)]; [by left|].
    right. split; [|by exists n0]. intros (i & s & prq & Hf & _). congruence. }
  destruct (f_err (fs n)); [intros Hr; destruct (Hcreate _ Hr) as [?|[? ?]]; auto|]. case_bool_decide as Hex; cycle 1.
  { intros Hr; destruct (Hcreate _ Hr) as [?|[? ?]]; auto. }
  rewrite (run_act _ _ _ _ _ _ _ Hl). cbn [answer fst snd]. rewrite (proj1 (Hfs _)).
  destruct Hex as [[i s] Hf]. rewrite Hf. cbn [fmap option_fmap option_map default snd from_option].
  change (id s) with s. destruct (parse_lock_file s) as [q ts] eqn:Hparse.
  match goal with |- context [pbind _ ?k] => destruct (kill_run fs (S (S n)) pid pr q h k Hl) as (alive & n1 & -> & Halive) end.
  match goal with |- context [pbind _ ?k] => destruct (comm_run fs n1 pid pr q alive h k Hl) as (live & n2 & -> & Hlive) end.
  destruct live; [by intros [= <- <- <-]; left|].
  assert (Hdead : ~ live_lock h path).
  { intros (i' & s' & prq & Hf' & Hq & Hlq & Hcomm). simplify_eq. rewrite Hparse in *. cbn in *.
    discriminate (Hlive prq); [|done..]. apply Halive; [done|by eexists]. }
  rewrite (run_act _ _ _ _ _ _ _ Hl). cbn [answer fst snd].
  destruct (f_err (fs n2)); [by intros [= <- <- <-]; left|]. rewrite Hf. cbn [fst snd]. intros Hr. right. split; [done|].
  apply create_run with (pr := pr) in Hr; [|done| |done].
  - destruct Hr as [[? ->]|(n0 & -> & _ & ->)]; [by left|]. right. exists n0. split; [done|].
    unfold locked_by, set_files. cbn. by rewrite insert_delete_eq.
  - intros p i0 s0. cbn. rewrite lookup_delete_Some. intros [_ H0]. by eapply Hin.
Qed.

(** ** One server per directory *)

(** What a program of [pid] leaves alone. *)
Definition frame (pid : Z) (pr : Proc) (h h' : Host) : Prop :=
  (forall q, q <> pid -> h_procs h' !! q = h_procs h !! q) /\ h_next h <= h_next h' /\
  exists pr', h_procs h' !! pid = Some pr' /\ same_process pr pr'.

Lemma frame_trans pid pr h h1 h2 pr1 : frame pid pr h h1 -> h_procs h1 !! pid = Some pr1 -> frame pid pr1 h1 h2 -> frame pid pr h h2.
Proof.
  intros (Hq & Hn & pr' & Hl & Hs) Hl1 (Hq2 & Hn2 & pr2 & Hl2 & Hs2). simplify_eq. split; [|split; [lia|]].
  - intros q Hne. by rewrite Hq2, Hq.
  - exists pr2. split; [done|]. unfold same_process in *. intuition congruence.
Qed.

Lemma answer_frame f pid pr c h : h_procs h !! pid = Some pr -> frame pid pr h (snd (answer f pid pr c h)).
Proof.
  intros Hl. destruct (answer_same f pid pr c h Hl) as (pr' & Hl' & _ & Hs). split; [|split; [|by exists pr']].
  - intros q Hq. destruct c; cbn; repeat case_match; cbn; rewrite ?lookup_insert_ne, ?release_procs by done; try done.
  - destruct c; cbn; repeat case_match; cbn; try lia. destruct (release_eta (pr_conn pr) h) as (ls & -> & _). cbn. lia.
Qed.

Lemma run_frame {A} fs pid (p : Prog A) : forall n h pr a n' h', h_procs h !! pid = Some pr ->
  run_prog fs n pid p h = Some (a, (n', h')) -> frame pid pr h h'.
Proof.
  induction p as [a0|c k IH]; intros n h pr a n' h' Hl Hr.
  - injection Hr as <- <- <-. split; [done|]. split; [done|]. exists pr. by repeat split.
  - rewrite (run_act _ _ _ _ _ _ _ Hl) in Hr. pose proof (answer_frame (fs n) pid pr c h Hl) as Hf.
    destruct (Hf) as (_ & _ & pr1 & Hl1 & _). eapply frame_trans; [done|done|]. by eapply IH.
Qed.

(** A program without file calls. *)
Fixpoint file_free {A} (p : Prog A) : Prop :=
  match p with
  | Ret _ => True
  | Act c k => match c with RemoveFile _ | CreateNew _ | WriteText _ => False | _ => True end /\ forall r, file_free (k r)
  end.

Lemma file_free_run {A} fs pid (p : Prog A) : file_free p -> forall n h a n' h', 
  run_prog fs n pid p h = Some (a, (n', h')) -> h_files h' = h_files h.
Proof.
  induction p as [a0|c k IH]; intros Hp n h a n' h' Hr; [by injection Hr as <- <- <-|].
  destruct Hp as [Hc Hk]. cbn in Hr. destruct (h_procs h !! pid) as [pr|] eqn:Hl; [|done]. cbn in Hr.
  destruct (answer (fs n) pid pr c h) as [r h1] eqn:Ha. rewrite (IH r (Hk r) _ _ _ _ _ Hr).
  destruct c; try done; cbn in Ha; repeat (case_match; simplify_eq/=; try done); simplify_eq/=; try done.
  by destruct (release_eta (pr_conn pr) h) as (ls & -> & _).
Qed.

Lemma try_acquire_file_free config : file_free (try_acquire_advisory_lock config).
Proof.
  cbn. split; [done|]. intros [u|e]; cbn; [|done]. split; [done|]. intros [[[]|]|e]; cbn; by repeat split.
Qed.

(** What a server's start does to the files. *)
Definition serve_effect (pid : Z) (pr : Proc) (config : Configuration) (h : Host)
    (r : result string (option SingleInstanceGuard)) (files' : gmap string (Z * string)) : Prop :=
  (is_err r = true /\ files' = h_files h) \/
  exists h1, frame pid pr h h1 /\ h_files h1 = h_files h /\ ~ live_lock h1 (lock_file_of config) /\
    ((is_err r = true /\ files' = delete (lock_file_of config) (h_files h)) \/
     exists g i ts, r = Ok (Some g) /\ lock_path g = Some (lock_file_of config) /\ 0 <= ts <= u64_max /\
       files' = <[lock_file_of config := (i, lock_text pid ts)]> (h_files h)).

Definition some_guard (r : result string SingleInstanceGuard) : result string (option SingleInstanceGuard) :=
  match r with Err e => Err e | Ok g => Ok (Some g) end.

Lemma frame_refl pid pr h : h_procs h !! pid = Some pr -> frame pid pr h h.
Proof. intros Hl. split; [done|]. split; [done|]. exists pr. by repeat split. Qed.

Lemma locked_by_inodes pid pr path ts h : inodes_below h -> inodes_below (locked_by pid pr path ts h).
Proof.
  intros Hin q i s. cbn. destruct (decide (q = path)) as [->|Hne]; [rewrite lookup_insert_eq; intros [= <- _]; lia|].
  rewrite lookup_insert_ne by done. intros H0. specialize (Hin _ _ _ H0). lia.
Qed.

Lemma close_run {A} fs n pid pr (held : bool) (a : A) h : h_procs h !! pid = Some pr ->
  exists m h', run_prog fs n pid (if held then call _ := CloseConnection in Ret a else Ret a) h = Some (a, (m, h')) /\
    h_files h' = h_files h /\ h_next h' = h_next h.
Proof.
  intros Hl. destruct held; [|by eexists _, _]. rewrite (run_act _ _ _ _ _ _ _ Hl).
  cbn. eexists _, _. split; [done|]. by destruct (release_eta (pr_conn pr) h) as (ls & -> & _).
Qed.

Lemma lock_effect fs n pid pr config held h r n' h' :
  reliable fs -> inodes_below h -> h_procs h !! pid = Some pr ->
  run_prog fs n pid (pid_lock_with held config) h = Some (r, (n', h')) ->
  inodes_below h' /\ serve_effect pid pr config h (some_guard r) (h_files h').
Proof.
  intros Hfs Hin Hl. unfold pid_lock_with. rewrite run_bind.
  destruct (run_prog fs n pid (acquire_zim_dir_pid_lock config) h) as [[r1 [n1 h1]]|] eqn:Hrun; [|done]. cbn [mbind option_bind].
  pose proof (run_frame _ _ _ _ _ _ _ _ _ Hl Hrun) as (_ & _ & pr1 & Hl1 & _).
  apply (pid_lock_run _ _ _ pr) in Hrun; [|done..]. pose proof (frame_refl _ _ _ Hl) as Hself. destruct r1 as [p|e].
  - intros [= <- <- <-]. destruct Hrun as [[? _]|(Hdead & [[? _]|(n0 & [= ->] & ->)])]; [done..|].
    split; [by apply locked_by_inodes|]. right. exists h. do 3 (split; [done|]). right.
    eexists _, _, _. split; [done|]. split; [done|]. split; [apply (Hfs n0)|done].
  - destruct (close_run fs n1 pid pr1 held (Err e : result string SingleInstanceGuard) h1 Hl1) as (m2 & h2 & -> & Hf2 & Hn2).
    intros [= <- <- <-]. unfold inodes_below. rewrite Hf2, Hn2.
    destruct Hrun as [[_ ->]|(Hdead & [[_ ->]|(n0 & [=] & _)])]; [split; [done|by left]|].
    cbn. split; [|right; exists h; do 3 (split; [done|]); by left].
    intros q i s. rewrite lookup_delete_Some. intros [_ H0]. by eapply Hin.
Qed.

Lemma serve_effect_lift pid pr pr1 config h h1 r files' : frame pid pr h h1 -> h_files h1 = h_files h ->
  h_procs h1 !! pid = Some pr1 -> serve_effect pid pr1 config h1 r files' -> serve_effect pid pr config h r files'.
Proof.
  intros Hf Hff Hl1. unfold serve_effect. rewrite Hff. intros [?|(h2 & Hf2 & Hff2 & Hd & Hr)]; [by left|].
  right. exists h2. split; [by eapply frame_trans|]. split; [congruence|]. done.
Qed.

(** The advisory part touches no file. *)
Lemma advisory_run {B} fs n pid pr config (k : result string bool -> Prog B) h x : inodes_below h -> h_procs h !! pid = Some pr ->
  run_prog fs n pid (pbind (try_acquire_advisory_lock config) k) h = Some x ->
  exists a m h1 pr1, run_prog fs m pid (k a) h1 = Some x /\ frame pid pr h h1 /\ h_files h1 = h_files h /\
    h_procs h1 !! pid = Some pr1 /\ inodes_below h1.
Proof.
  intros Hin Hl. rewrite run_bind.
  destruct (run_prog fs n pid (try_acquire_advisory_lock config) h) as [[a [m h1]]|] eqn:Ha; [|done].
  cbn. intros Hx. pose proof (run_frame _ _ _ _ _ _ _ _ _ Hl Ha) as Hf.
  pose proof (file_free_run _ _ _ (try_acquire_file_free config) _ _ _ _ _ Ha) as Hff.
  destruct (Hf) as (_ & Hn & pr1 & Hl1 & _). exists a, m, h1, pr1. do 4 (split; [done|]).
  intros p i s. rewrite Hff. intros H0. specialize (Hin _ _ _ H0). lia.
Qed.

Lemma multi_db_run fs n pid pr config h r n' h' : reliable fs -> inodes_below h -> h_procs h !! pid = Some pr ->
  run_prog fs n pid (acquire_instance_guard_multi_db config) h = Some (r, (n', h')) ->
  inodes_below h' /\ serve_effect pid pr config h (some_guard r) (h_files h').
Proof.
  intros Hfs Hin Hl Hr. apply (advisory_run _ _ _ pr) in Hr as (a & m & h1 & pr1 & Hr & Hf & Hff & Hl1 & Hi); [|done..].
  destruct a as [[|]|e]; [..|injection Hr as <- <- <-; split; [done|by left]];
    (destruct (lock_effect _ _ _ _ _ _ _ _ _ _ Hfs Hi Hl1 Hr) as [H1 H2]; split; [done|by eapply serve_effect_lift]).
Qed.

Lemma instance_guard_run fs n pid pr config h r n' h' : reliable fs -> inodes_below h -> h_procs h !! pid = Some pr ->
  run_prog fs n pid (acquire_instance_guard config) h = Some (r, (n', h')) ->
  inodes_below h' /\ ((r = Ok None /\ h_files h' = h_files h) \/ serve_effect pid pr config h r (h_files h')).
Proof.
  intros Hfs Hin Hl Hr. apply (advisory_run _ _ _ pr) in Hr as (a & m & h1 & pr1 & Hr & Hf & Hff & Hl1 & Hi); [|done..].
  destruct a as [[|]|e]; [|injection Hr as <- <- <-; split; [done|by left]|injection Hr as <- <- <-; split; [done|by right; left]].
  rewrite run_bind in Hr. destruct (run_prog fs m pid (pid_lock_with true config) h1) as [[g [m2 h2]]|] eqn:Hg; [|done].
  destruct (lock_effect _ _ _ _ _ _ _ _ _ _ Hfs Hi Hl1 Hg) as [H1 H2]. apply (serve_effect_lift _ pr _ _ h) in H2; [|done..].
  destruct g; injection Hr as <- <- <-; (split; [done|by right]).
Qed.

Lemma serve_run fs n pid pr config h r n' h' : reliable fs -> inodes_below h -> h_procs h !! pid = Some pr ->
  run_prog fs n pid (cmd_serve_guard config) h = Some (r, (n', h')) ->
  inodes_below h' /\
  ((r = Ok None /\ is_one (pr_vars pr !! MULTI_INSTANCE) = true /\ h_files h' = h_files h) \/
   serve_effect pid pr config h r (h_files h')).
Proof.
  intros Hfs Hin Hl. unfold cmd_serve_guard, multi_instance_allowed. cbn [pbind].
  rewrite (run_act _ _ _ _ _ _ _ Hl). cbn [answer fst snd pbind]. fold MULTI_INSTANCE.
  destruct (is_one (pr_vars pr !! MULTI_INSTANCE)) eqn:Hone; [intros [= <- <- <-]; split; [done|by left]|]. cbn [negb andb].
  destruct (allow_multi_db config); rewrite run_bind; [destruct (run_prog fs _ pid (acquire_instance_guard_multi_db config) h)
    as [[g [m h1]]|] eqn:Hg|destruct (run_prog fs _ pid (acquire_instance_guard config) h) as [[g [m h1]]|] eqn:Hg]; try done.
  - destruct (multi_db_run _ _ _ _ _ _ _ _ _ Hfs Hin Hl Hg) as [H1 H2].
    destruct g; intros [= <- <- <-]; (split; [done|by right]).
  - destruct (instance_guard_run _ _ _ _ _ _ _ _ _ Hfs Hin Hl Hg) as [H1 [[-> H2]|H2]].
    + intros [= <- <- <-]. split; [done|]. right. by left.
    + destruct g as [[g|]|e]; intros [= <- <- <-]; (split; [done|right]); [done| |done].
      destruct H2 as [[? _]|(h2 & _ & _ & _ & [[? _]|(g & i & ts & ? & _)])]; done.
Qed.

Definition comm_known (pr : Proc) : Prop :=
  match pr_comm pr with Some c => is_zimservice_comm (c +:+ lf_text) = true | None => True end.

(** The file of a holder names it. *)
Definition holds_file (h : Host) (q : Z) (pr : Proc) (path : string) : Prop :=
  path = lock_file_of (pr_config pr) /\ 1 <= q <= i32_max /\ comm_known pr /\
  exists i ts, 0 <= ts <= u64_max /\ h_files h !! path = Some (i, lock_text q ts).

Definition holder_ok (h : Host) (q : Z) (pr : Proc) : Prop :=
  forall g, pr_task pr = Holding g ->
  (pr_kind pr = Serve -> is_one (pr_vars pr !! MULTI_INSTANCE) = false -> exists g', g = Some g' /\ is_Some (lock_path g')) /\
  (forall g' path, g = Some g' -> lock_path g' = Some path -> holds_file h q pr path).

Definition dir_inv (h : Host) : Prop :=
  inodes_below h /\ forall q pr, h_procs h !! q = Some pr -> holder_ok h q pr.

Lemma holds_file_live h h1 q pr path : h_procs h1 !! q = Some pr -> h_files h1 = h_files h -> holds_file h q pr path -> live_lock h1 path.
Proof.
  intros Hl Hf (_ & Hq & Hc & i & ts & Ht & Hfile). exists i, (lock_text q ts), pr.
  rewrite parse_lock_text by (unfold u32_max, i32_max in *; lia). rewrite Hf. done.
Qed.

Lemma holds_file_inj h p q prp prq path : holds_file h p prp path -> holds_file h q prq path -> p = q.
Proof.
  intros (_ & Hp & _ & i & ts & Ht & Hf) (_ & Hq & _ & i' & ts' & Ht' & Hf').
  assert (lock_text p ts = lock_text q ts') as E by congruence.
  assert (parse_lock_file (lock_text p ts) = parse_lock_file (lock_text q ts')) as E2 by congruence.
  rewrite !parse_lock_text in E2 by (unfold u32_max, i32_max in *; lia). congruence.
Qed.

(** A change by [pid] that spares the files of the other holders. *)
Lemma dir_inv_by pid h h' : dir_inv h -> (forall q, q <> pid -> h_procs h' !! q = h_procs h !! q) -> inodes_below h' ->
  (forall q pr path, q <> pid -> h_procs h !! q = Some pr -> holds_file h q pr path -> h_files h' !! path = h_files h !! path) ->
  (forall pr', h_procs h' !! pid = Some pr' -> holder_ok h' pid pr') -> dir_inv h'.
Proof.
  intros [_ Hh] Hq Hi Hfiles Hpid. split; [done|]. intros q pr Hl. destruct (decide (q = pid)) as [->|Hne]; [by apply Hpid|].
  rewrite Hq in Hl by done. intros g Hg. destruct (Hh q pr Hl g Hg) as [H1 H2]. split; [done|].
  intros g' path E Hp. pose proof (H2 g' path E Hp) as Hf. destruct (Hf) as (E1 & Hr & Hc & i & ts & Ht & Hfile).
  split; [done|]. split; [done|]. split; [done|]. exists i, ts. split; [done|]. by rewrite (Hfiles q pr path).
Qed.

Lemma exit_procs pid h q : h_procs (exit_proc pid h) !! q = if decide (q = pid) then None else h_procs h !! q.
Proof.
  unfold exit_proc. destruct (h_procs h !! pid) eqn:Hl; cbn; case_decide as Hq; subst; rewrite ?lookup_delete_eq, ?lookup_delete_ne; done.
Qed.

Lemma exit_files pid h : h_files (exit_proc pid h) = h_files h /\ h_next (exit_proc pid h) = h_next h.
Proof.
  unfold exit_proc. destruct (h_procs h !! pid) as [pr|]; [|done]. by destruct (release_eta (pr_conn pr) h) as (ls & -> & _).
Qed.

(** The process goes, the files are what [h1] left. *)
Lemma dir_inv_exit pid h h1 : dir_inv h -> (forall q, q <> pid -> h_procs h1 !! q = h_procs h !! q) -> inodes_below h1 ->
  (forall q pr path, q <> pid -> h_procs h !! q = Some pr -> holds_file h q pr path -> h_files h1 !! path = h_files h !! path) ->
  dir_inv (exit_proc pid h1).
Proof.
  intros Hd Hq Hi Hf. destruct (exit_files pid h1) as [E1 E2]. apply (dir_inv_by pid h); [done|..].
  - intros q Hne. rewrite exit_procs, decide_False by done. by apply Hq.
  - unfold inodes_below. by rewrite E1, E2.
  - by rewrite E1.
  - intros pr'. by rewrite exit_procs, decide_True.
Qed.

Lemma set_task_frame pid t h : (forall q, q <> pid -> h_procs (set_task pid t h) !! q = h_procs h !! q) /\
  h_files (set_task pid t h) = h_files h /\ h_next (set_task pid t h) = h_next h.
Proof.
  unfold set_task. destruct (h_procs h !! pid) as [pr|] eqn:Hl; [|done]. split; [|done].
  intros q Hq. cbn. by rewrite lookup_insert_ne.
Qed.

Lemma dir_inv_start pid h h1 pr1 g : dir_inv h -> (forall q, q <> pid -> h_procs h1 !! q = h_procs h !! q) -> inodes_below h1 ->
  h_procs h1 !! pid = Some pr1 ->
  (forall q pr path, q <> pid -> h_procs h !! q = Some pr -> holds_file h q pr path -> h_files h1 !! path = h_files h !! path) ->
  holder_ok h1 pid (with_task (Holding g) pr1) ->
  dir_inv (set_task pid (Holding g) h1).
Proof.
  intros Hd Hq Hi Hl Hf Hh. destruct (set_task_frame pid (Holding g) h1) as (E1 & E2 & E3). apply (dir_inv_by pid h); [done|..].
  - intros q Hne. by rewrite E1, Hq.
  - unfold inodes_below. by rewrite E2, E3.
  - by rewrite E2.
  - intros pr'. rewrite (set_task_lookup _ _ _ _ Hl). intros [= <-]. intros g' Hg'. destruct (Hh g' Hg') as [H1 H2].
    split; [done|]. unfold holds_file in *. by rewrite E2.
Qed.

Definition serial_ok (e : SerialEvent) : Prop :=
  match e with
  | SLaunch pid k config comm vars fs =>
      1 <= pid <= i32_max /\ reliable fs /\
      (k = Serve -> match comm with Some c => is_zimservice_comm (c +:+ lf_text) = true | None => True end)
  | _ => True
  end.

Lemma serve_start_inv fs pid config comm vars h : 1 <= pid <= i32_max -> reliable fs ->
  match comm with Some c => is_zimservice_comm (c +:+ lf_text) = true | None => True end ->
  h_procs h !! pid = None -> dir_inv h -> dir_inv (start_alone fs pid Serve config (launch pid Serve config comm vars h)).
Proof.
  intros Hpid Hfs Hcomm Hnone Hd. unfold launch. rewrite Hnone. set (pr0 := mkProc _ _ _ _ _ _ _). set (h0 := put_proc pid pr0 h).
  assert (Hl0 : h_procs h0 !! pid = Some pr0) by (cbn; by rewrite lookup_insert_eq).
  assert (Hq0 : forall q, q <> pid -> h_procs h0 !! q = h_procs h !! q) by (intros q Hq; cbn; by rewrite lookup_insert_ne).
  unfold start_alone. destruct (run_prog_pid fs pid (start_program Serve config) 0 h0) as (r & n' & h' & Hrun & _); [by eexists|].
  rewrite Hrun. destruct (run_frame _ _ _ _ _ _ _ _ _ Hl0 Hrun) as (Hq & _ & pr' & Hl' & Hk & Hc & Hv & Hcm). cbn in Hk, Hc, Hv, Hcm.
  destruct (serve_run _ _ _ _ _ _ _ _ _ Hfs (proj1 Hd : inodes_below h0) Hl0 Hrun) as [Hi Heff].
  assert (Hq' : forall q, q <> pid -> h_procs h' !! q = h_procs h !! q) by (intros q Hne; by rewrite Hq, Hq0).
  assert (Hspare : forall h1 q pr path, frame pid pr0 h0 h1 -> h_files h1 = h_files h0 -> ~ live_lock h1 (lock_file_of config) ->
    q <> pid -> h_procs h !! q = Some pr -> holds_file h q pr path -> path <> lock_file_of config).
  { intros h1 q pr path (Hf1 & _) Hff Hdead Hne Hl Hh ->. apply Hdead. apply (holds_file_live h h1 q pr); [|done|done].
    by rewrite Hf1, Hq0. }
  destruct Heff as [(-> & Hone & Hsame)|[[He Hsame]|(h1 & Hf1 & Hff & Hdead & [[He Hdel]|(g & i & ts & -> & Hlp & Hts & Hins)])]].
  - apply (dir_inv_start pid h h' pr'); [done..| |]; [by rewrite Hsame|]. intros g [= <-]. split; [|done].
    intros _ Hn. cbn [pr_vars with_task] in Hn. rewrite Hv in Hn. unfold pr0 in Hone. cbn [pr_vars] in Hone. congruence.
  - destruct r; [done|]. apply (dir_inv_exit pid h); [done..|]. by rewrite Hsame.
  - destruct r; [done|]. apply (dir_inv_exit pid h); [done..|]. intros q pr path Hne Hl Hh. rewrite Hdel.
    rewrite lookup_delete_ne; [done|]. by symmetry; eapply Hspare.
  - apply (dir_inv_start pid h h' pr'); [done..| |].
    + intros q pr path Hne Hl Hh. rewrite Hins. rewrite lookup_insert_ne; [done|]. by symmetry; eapply Hspare.
    + intros g0 [= <-]. split; [intros _ _; exists g; by rewrite Hlp|]. intros g' path [= <-]. rewrite Hlp. intros [= <-].
      unfold holds_file, comm_known. cbn. rewrite Hc, Hcm. do 3 (split; [done|]). exists i, ts. split; [done|].
      rewrite Hins. by rewrite lookup_insert_eq.
Qed.

Lemma mutate_file_free config : file_free (start_program Mutate config).
Proof.
  cbn. split; [done|]. intros v. destruct (is_one v); cbn; [done|]. split; [done|]. intros [u|e]; cbn; [|done].
  split; [done|]. intros [[[]|]|e]; cbn; try done; by repeat split.
Qed.

(** A mutating command's guard has no file. *)
Lemma mutate_no_file fs pid config : forall n h r n' h',
  run_prog fs n pid (start_program Mutate config) h = Some (r, (n', h')) -> forall g, r = Ok (Some g) -> lock_path g = None.
Proof.
  intros n h r n' h'. unfold start_program. rewrite run_bind.
  destruct (run_prog fs n pid (acquire_mutating_guard config) h) as [[[[]|e] [m h1]]|]; intros [= <- <- <-] g E; by simplify_eq/=.
Qed.

Lemma mutate_start_inv fs pid config comm vars h : h_procs h !! pid = None -> dir_inv h ->
  dir_inv (start_alone fs pid Mutate config (launch pid Mutate config comm vars h)).
Proof.
  intros Hnone Hd. unfold launch. rewrite Hnone. set (pr0 := mkProc _ _ _ _ _ _ _). set (h0 := put_proc pid pr0 h).
  assert (Hl0 : h_procs h0 !! pid = Some pr0) by (cbn; by rewrite lookup_insert_eq).
  unfold start_alone. destruct (run_prog_pid fs pid (start_program Mutate config) 0 h0) as (r & n' & h' & Hrun & _); [by eexists|].
  rewrite Hrun. destruct (run_frame _ _ _ _ _ _ _ _ _ Hl0 Hrun) as (Hq & Hn & pr' & Hl' & Hk & _).
  pose proof (file_free_run _ _ _ (mutate_file_free config) _ _ _ _ _ Hrun) as Hff. cbn in Hff, Hn.
  assert (Hq' : forall q, q <> pid -> h_procs h' !! q = h_procs h !! q).
  { intros q Hne. rewrite Hq by done. cbn. by rewrite lookup_insert_ne. }
  assert (Hi : inodes_below h').
  { intros p i s. rewrite Hff. intros H0. specialize (proj1 Hd _ _ _ H0). lia. }
  destruct r as [g|e]; [apply (dir_inv_start pid h h' pr')|apply (dir_inv_exit pid h)]; try done; try (by rewrite Hff).
  intros g0 [= <-]. cbn. rewrite Hk. split; [done|]. intros g' path -> Hp.
  rewrite (mutate_no_file _ _ _ _ _ _ _ _ Hrun g' eq_refl) in Hp. done.
Qed.

Lemma stop_inv fs pid pr g h r n' h' : dir_inv h -> h_procs h !! pid = Some pr -> pr_task pr = Holding g ->
  run_prog fs 0 pid (stop_program g) h = Some (r, (n', h')) -> dir_inv (exit_proc pid h').
Proof.
  intros Hd Hl Ht Hrun. destruct (run_frame _ _ _ _ _ _ _ _ _ Hl Hrun) as (Hq & Hn & _).
  assert (Hfiles : h_files h' = h_files h \/ exists g' p, g = Some g' /\ lock_path g' = Some p /\ h_files h' = delete p (h_files h)).
  { destruct g as [[held [p|]]|]; [..|left; by injection Hrun as <- <- <-]; cbn [stop_program] in Hrun; unfold drop_guard in Hrun; cbn [lock_task lock_path] in Hrun.
    - rewrite run_bind in Hrun. destruct (close_run fs 0 pid pr held tt h Hl) as (m & h1 & Hc & Hf1 & _). rewrite Hc in Hrun.
      destruct (run_frame _ _ _ _ _ _ _ _ _ Hl Hc) as (_ & _ & pr1 & Hl1 & _). cbn [mbind option_bind] in Hrun.
      rewrite (run_act _ _ _ _ _ _ _ Hl1) in Hrun. cbn in Hrun. rewrite Hf1 in Hrun.
      destruct (f_err (fs m)), (h_files h !! p); simplify_eq/=; try by left. right. by eexists _, _.
    - rewrite run_bind in Hrun. destruct (close_run fs 0 pid pr held tt h Hl) as (m & h1 & Hc & Hf1 & _). rewrite Hc in Hrun.
      simplify_eq/=. by left. }
  apply (dir_inv_exit pid h); [done|done|..].
  - intros p i s. destruct Hfiles as [->|(g' & p0 & _ & _ & ->)]; rewrite ?lookup_delete_Some; intros H0;
      specialize (proj1 Hd p i s ltac:(naive_solver)); lia.
  - intros q prq path Hne Hlq Hh. destruct Hfiles as [->|(g' & p0 & -> & Hp & ->)]; [done|]. rewrite lookup_delete_ne; [done|].
    intros ->. apply Hne. symmetry. by eapply holds_file_inj; [|done]; eapply (proj2 Hd pid pr Hl).
Qed.

Lemma serial_inv e h : serial_ok e -> dir_inv h -> dir_inv (serial_step e h).
Proof.
  intros Hok Hd. destruct e as [pid k config comm vars fs|pid fs|pid|pid]; cbn [serial_step].
  - destruct (h_procs h !! pid) eqn:Hl; [done|]. destruct Hok as (Hp & Hf & Hc). destruct k.
    + unfold launch. rewrite Hl. apply (dir_inv_by pid h); [done|..].
      * intros q Hq. cbn. by rewrite lookup_insert_ne.
      * exact (proj1 Hd).
      * done.
      * intros pr'. cbn. rewrite lookup_insert_eq. by intros [= <-] g.
    + by apply serve_start_inv; [..|apply Hc| |].
    + by apply mutate_start_inv.
  - destruct (h_procs h !! pid) as [pr|] eqn:Hl; [|done]. cbn. destruct (pr_task pr) as [| |g|] eqn:Ht; try done.
    destruct (run_prog_pid fs pid (stop_program g) 0 h) as (r & n' & h' & Hrun & _); [by eexists|]. rewrite Hrun.
    by eapply stop_inv.
  - apply (dir_inv_exit pid h); try done. exact (proj1 Hd).
  - unfold lose_connection. destruct (h_procs h !! pid) as [pr|] eqn:Hl; [|done].
    destruct (release_eta (pr_conn pr) h) as (ls & -> & _). apply (dir_inv_by pid h); [done|..].
    + intros q Hq. cbn. by rewrite lookup_insert_ne.
    + exact (proj1 Hd).
    + done.
    + intros pr'. cbn. rewrite lookup_insert_eq. intros [= <-]. exact (proj2 Hd pid pr Hl).
Qed.

Lemma run_serial_inv es h : Forall serial_ok es -> dir_inv h -> dir_inv (run_serial es h).
Proof. intros Hes. revert h. induction Hes as [|e es He Hes IH]; intros h Hd; cbn; [done|]. by apply IH, serial_inv. Qed.

(** A server past its start that did not switch the guards off. *)
Definition serves_dir (h : Host) (pid : Z) (dir : string) : Prop :=
  exists pr g, h_procs h !! pid = Some pr /\ pr_kind pr = Serve /\ pr_task pr = Holding g /\
    is_one (pr_vars pr !! MULTI_INSTANCE) = false /\ zim_dir (pr_config pr) = dir.

(** C29: one server per archive directory, when starts and stops do not
    overlap.  Servers and mutating commands start and stop one after the
    other, crash and lose connections at any time, and processes come and go
    under any identifiers; as long as the lock file can be read and written
    and the servers carry their own name, no two servers work on one directory
    at a time, whatever their databases and whether or not they set
    ZIMSERVICE_ALLOW_MULTI_DB. *)
Theorem zim_dir_exclusive files next es p q dir :
  (forall path i s, files !! path = Some (i, s) -> i < next) -> Forall serial_ok es ->
  let h := run_serial es (empty_host files next) in
  serves_dir h p dir -> serves_dir h q dir -> p = q.
Proof.
  intros Hfiles Hes h. assert (Hd : dir_inv h).
  { apply run_serial_inv; [done|]. split; [exact Hfiles|]. intros x pr. cbn. by rewrite lookup_empty. }
  assert (Hhold : forall x, serves_dir h x dir -> exists pr, holds_file h x pr (path_join dir ".zimservice.lock")).
  { intros x (pr & g & Hl & Hk & Ht & Hone & <-). destruct (proj2 Hd x pr Hl g Ht) as [H1 H2].
    destruct (H1 Hk Hone) as (g' & -> & path & Hpath). exists pr. pose proof (H2 g' path eq_refl Hpath) as H3.
    destruct (H3) as (E & _). by rewrite E in H3. }
  intros Hp Hq. destruct (Hhold p Hp) as [prp H1], (Hhold q Hq) as [prq H2]. by eapply holds_file_inj.
Qed.

End LockFile.

(** ** The monitor's promise *)

(** A lost lock connection is noticed.  Let no probe that starts or ends
    after the time [loss] be answered.  Then the monitor's callback runs, at
    most two intervals after the loss (or after the monitor's start, when the
    connection was lost before it). *)
Theorem loss_is_noticed fuel interval shown probe t loss :
  0 < interval -> (forall s, 0 <= snd (probe s)) ->
  (forall s, fst (probe s) = Answered -> s + snd (probe s) <= loss) ->
  loss - t < Z.of_nat fuel * interval -> (0 < fuel)%nat ->
  exists reason noticed, detect_advisory_lock_loss fuel interval shown probe t = Some (reason, noticed) /\
    noticed <= Z.max t loss + 2 * interval.
Proof.
  intros Hi Hd Hl. revert t. induction fuel as [|n IH]; intros t Hf H0; [lia|]. cbn.
  specialize (Hd (t + interval)). specialize (Hl (t + interval)). destruct (probe (t + interval)) as [r d]. cbn in Hd, Hl.
  destruct (Z.ltb_spec interval d); [eexists _, _; split; [done|lia]|].
  destruct r as [|e]; [|eexists _, _; split; [done|lia]].
  specialize (Hl eq_refl). destruct (IH (t + interval + d)) as (reason & at_ & -> & Hat); [nia| |].
  - destruct n; [|lia]. nia.
  - eexists _, _. split; [done|]. lia.
Qed.

(** The callback runs only on a probe that failed or ran out of time. *)
Lemma monitor_quiet fuel interval shown probe : (forall s, probe s = (Answered, 1)) -> 1 <= interval -> forall t,
  detect_advisory_lock_loss fuel interval shown probe t = None.
Proof.
  intros Hp Hi. induction fuel as [|n IH]; intros t; cbn; [done|]. rewrite Hp.
  destruct (Z.ltb_spec interval 1); [lia|]. apply IH.
Qed.

(** ** Concrete hosts *)

Section Examples.

#[local] Instance one_cluster : PgCluster := {| db_of url := url |}.

Definition quiet : CallFault := mkCallFault None false None (Some 1700000000) (0, None) false.

Definition config_for (dir url : string) (multi_db : bool) : Configuration :=
  mkConfig dir url None 20 "127.0.0.1" 8899 "info" None EmptyString EmptyString multi_db None None.

Definition launch_serve (pid : Z) (c : Configuration) : Event := Launch pid Serve c (Some "zimservice") ∅.

Definition calls (pid : Z) (n : nat) : list Event := replicate n (Run pid quiet).

Definition holding (h : Host) (pid : Z) : bool :=
  match pr_task <$> h_procs h !! pid with Some (Holding _) => true | _ => false end.

(** A server that is up, another one that was refused. *)
Definition two_launches : list Event :=
  [launch_serve 7 (config_for "/zims" "db" false)] ++ calls 7 12
  ++ [launch_serve 8 (config_for "/other" "db" false)] ++ calls 8 12.

Lemma database_exclusive_witness :
  let h := run_events two_launches (empty_host ∅ 0) in
  serves_database h 7 "db" /\ ~ serves_database h 8 "db".
Proof.
  intros h. assert (H7 : serves_database h 7 "db").
  { exists (default (mkProc Unrelated config_default None ∅ None None Elsewhere) (h_procs h !! 7)), (Some (mkGuard true (Some "/zims/.zimservice.lock"))).
    vm_compute. repeat split; eauto. }
  split; [done|]. intros H8. destruct (database_exclusive ∅ 0 two_launches 7 8 "db" H7 H8) as [E|E]; [discriminate E|].
  assert (Hno : Forall (fun e => match e with LoseConnection _ => False | _ => True end) two_launches) by (vm_compute; repeat constructor).
  rewrite Forall_forall in Hno. destruct E as [E|E]; exact (Hno _ E).
Defined.

Definition serial_two : list SerialEvent :=
  [SLaunch 7 Serve (config_for "/zims" "db" false) (Some "zimservice") ∅ (fun _ => quiet);
   SLaunch 8 Serve (config_for "/zims" "other" true) (Some "zimservice") ∅ (fun _ => quiet)].

Lemma zim_dir_exclusive_witness :
  let h := run_serial serial_two (empty_host ∅ 0) in
  serves_dir h 7 "/zims" /\ ~ serves_dir h 8 "/zims".
Proof.
  intros h. assert (H7 : serves_dir h 7 "/zims").
  { exists (default (mkProc Unrelated config_default None ∅ None None Elsewhere) (h_procs h !! 7)), (Some (mkGuard true (Some "/zims/.zimservice.lock"))).
    vm_compute. repeat split; eauto. }
  split; [done|]. intros H8. pose proof (zim_dir_exclusive ∅ 0 serial_two 7 8 "/zims") as T.
  assert (7 = 8) as E; [|discriminate E]. apply T; [by intros path i s; rewrite lookup_empty| |done|done].
  repeat apply Forall_cons_2; [..|apply Forall_nil_2]; (split; [vm_compute; split; discriminate|]);
    (split; [intros n; split; [done|split; [done|vm_compute; split; discriminate]]|intros _; vm_compute; reflexivity]).
Defined.

Lemma loss_is_noticed_witness :
  exists reason noticed, detect_advisory_lock_loss 3 30 "30ms" (fun s => if s <=? 70 then (Answered, 1) else (Dropped "closed", 1)) 0
    = Some (reason, noticed) /\ noticed <= Z.max 0 71 + 2 * 30.
Proof.
  apply (loss_is_noticed 3 30 "30ms" (fun s => if s <=? 70 then (Answered, 1) else (Dropped "closed", 1)) 0 71).
  - reflexivity.
  - intros s. destruct (s <=? 70); discriminate.
  - intros s. destruct (Z.leb_spec s 70); cbn; [lia|discriminate].
  - reflexivity.
  - lia.
Defined.

(** Overlapping starts, with an empty directory and two databases: 7 creates
    the file, 8 reads it before 7 wrote its number, takes it for stale and
    replaces it.  Both serve. *)
Example overlapping_starts_share_a_directory :
  let h := run_events ([launch_serve 7 (config_for "/zims" "a" false); launch_serve 8 (config_for "/zims" "b" false)]
    ++ calls 7 5 ++ calls 8 20 ++ calls 7 20) (empty_host ∅ 0) in
  holding h 7 = true /\ holding h 8 = true.
Proof. vm_compute. done. Qed.

(** A server that crashed and is started again under the same process number
    (the first process of a container always has the same) is refused: the
    live holder it finds is itself. *)
Example own_pid_blocks_restart :
  let c := config_for "/zims" "db" false in
  let h := run_events ([launch_serve 1 c] ++ calls 1 20 ++ [Crash 1; launch_serve 1 c] ++ calls 1 20) (empty_host ∅ 0) in
  h_procs h !! 1 = None /\ is_Some (h_files h !! "/zims/.zimservice.lock").
Proof. vm_compute. split; [done|by eexists]. Qed.

(** With ZIMSERVICE_ALLOW_MULTI_DB two servers work on one database from two
    directories. *)
Example multi_db_shares_the_database :
  let h := run_events ([launch_serve 7 (config_for "/zims" "db" true)] ++ calls 7 20
    ++ [launch_serve 8 (config_for "/other" "db" true)] ++ calls 8 20) (empty_host ∅ 0) in
  holding h 7 = true /\ holding h 8 = true.
Proof. vm_compute. done. Qed.

End Examples.
