(* ===== verification/Collections.v ===== *)
(** * Collections: user collections, random articles and language links

    The [collections] table with its statements ([src/db/collections.rs]) and
    handlers ([src/serve/handlers/settings.rs]); the random draw over the
    article table ([src/db/random_article.rs]); the links between languages
    ([src/db/qid.rs]); the handlers of the last two
    ([src/serve/handlers/search.rs]).  A dynamic UPDATE is the statement's text
    and its bound values, run by reading the SET list; statements can fail or
    lose their reply.  How the database orders text is the class [Collation],
    how a time is shown the class [Rfc3339]. *)

From S2P Require Import Prelude RustStr Errors JsonValue StableSort Lifecycle ZimManager.

(** ** The table *)

Record CollectionRow := mkCollection {
  co_id : Z;
  co_name : string;
  co_label : string;
  co_zim_ids : list Z;
  co_is_favorite : bool;
  co_created_at : Z;
  co_updated_at : Z
}.

Record CollectionTable := mkCollections {
  c_rows : gmap Z CollectionRow;
  c_next : Z
}.

Class Collation := { text_le : string -> string -> bool }.

Class Rfc3339 := { to_rfc3339 : Z -> string }.

Definition run_on {A} (f : Fault) (stmt : CollectionTable -> Result A * CollectionTable) (t : CollectionTable) :
    Result A * CollectionTable :=
  match f with
  | NoFault => stmt t
  | Failed e => (Err e, t)
  | ReplyLost e => (Err e, snd (stmt t))
  end.

Definition rows_of (t : CollectionTable) : list CollectionRow := (map_to_list (c_rows t)).*2.

Definition list_collections `{Collation} (f : Fault) (t : CollectionTable) : Result (list CollectionRow) :=
  match f with
  | NoFault => Ok (sort_by (fun a b => text_le (co_name a) (co_name b)) (rows_of t))
  | Failed e | ReplyLost e => Err e
  end.

Definition name_taken (t : gmap Z CollectionRow) (id : Z) (n : string) : bool :=
  bool_decide (map_Exists (fun i r => i <> id /\ co_name r = n) t).

Definition name_violation : Error := unique_violation "collections_name_key".

Inductive CollectionInsert := CInserted (id : Z) | CDuplicate.

(** The sequence advances even when the insert is refused. *)
Definition insert_collection (f : Fault) (now : Z) (name label : string) (zim_ids : list Z) (is_favorite : bool)
    (t : CollectionTable) : Result CollectionInsert * CollectionTable :=
  let stmt (t : CollectionTable) :=
    let id := c_next t in
    if name_taken (c_rows t) id name then (Err name_violation, mkCollections (c_rows t) (id + 1))
    else (Ok id, mkCollections (<[id := mkCollection id name label zim_ids is_favorite now now]> (c_rows t)) (id + 1)) in
  match run_on f stmt t with
  | (Ok id, t') => (Ok (CInserted id), t')
  | (Err (Database e), t') => if is_unique_violation e then (Ok CDuplicate, t') else (Err (Database e), t')
  | (Err e, t') => (Err e, t')
  end.

(** ** The dynamic update *)

Record UpdateFields := mkFields {
  u_name : option string;
  u_label : option string;
  u_zim_ids : option (list Z);
  u_is_favorite : option bool
}.

Inductive SqlArg := AInt (z : Z) | AText (s : string) | AInts (l : list Z) | ABool (b : bool).

(** One arm per set of provided fields, as the code has it. *)
Definition update_statement (id : Z) (fields : UpdateFields) : option (string * list SqlArg) :=
  match u_name fields, u_label fields, u_zim_ids fields, u_is_favorite fields with
  | None, None, None, None => None
  | Some name, None, None, None =>
      Some ("UPDATE collections SET name = $2, updated_at = now() WHERE id = $1", [AInt id; AText name])
  | None, Some label, None, None =>
      Some ("UPDATE collections SET label = $2, updated_at = now() WHERE id = $1", [AInt id; AText label])
  | None, None, Some zim_ids, None =>
      Some ("UPDATE collections SET zim_ids = $2, updated_at = now() WHERE id = $1", [AInt id; AInts zim_ids])
  | None, None, None, Some is_favorite =>
      Some ("UPDATE collections SET is_favorite = $2, updated_at = now() WHERE id = $1", [AInt id; ABool is_favorite])
  | Some name, Some label, None, None =>
      Some ("UPDATE collections SET name = $2, label = $3, updated_at = now() WHERE id = $1",
            [AInt id; AText name; AText label])
  | Some name, None, Some zim_ids, None =>
      Some ("UPDATE collections SET name = $2, zim_ids = $3, updated_at = now() WHERE id = $1",
            [AInt id; AText name; AInts zim_ids])
  | Some name, None, None, Some is_favorite =>
      Some ("UPDATE collections SET name = $2, is_favorite = $3, updated_at = now() WHERE id = $1",
            [AInt id; AText name; ABool is_favorite])
  | None, Some label, Some zim_ids, None =>
      Some ("UPDATE collections SET label = $2, zim_ids = $3, updated_at = now() WHERE id = $1",
            [AInt id; AText label; AInts zim_ids])
  | None, Some label, None, Some is_favorite =>
      Some ("UPDATE collections SET label = $2, is_favorite = $3, updated_at = now() WHERE id = $1",
            [AInt id; AText label; ABool is_favorite])
  | None, None, Some zim_ids, Some is_favorite =>
      Some ("UPDATE collections SET zim_ids = $2, is_favorite = $3, updated_at = now() WHERE id = $1",
            [AInt id; AInts zim_ids; ABool is_favorite])
  | Some name, Some label, Some zim_ids, None =>
      Some ("UPDATE collections SET name = $2, label = $3, zim_ids = $4, updated_at = now() WHERE id = $1",
            [AInt id; AText name; AText label; AInts zim_ids])
  | Some name, Some label, None, Some is_favorite =>
      Some ("UPDATE collections SET name = $2, label = $3, is_favorite = $4, updated_at = now() WHERE id = $1",
            [AInt id; AText name; AText label; ABool is_favorite])
  | Some name, None, Some zim_ids, Some is_favorite =>
      Some ("UPDATE collections SET name = $2, zim_ids = $3, is_favorite = $4, updated_at = now() WHERE id = $1",
            [AInt id; AText name; AInts zim_ids; ABool is_favorite])
  | None, Some label, Some zim_ids, Some is_favorite =>
      Some ("UPDATE collections SET label = $2, zim_ids = $3, is_favorite = $4, updated_at = now() WHERE id = $1",
            [AInt id; AText label; AInts zim_ids; ABool is_favorite])
  | Some name, Some label, Some zim_ids, Some is_favorite =>
      Some ("UPDATE collections SET name = $2, label = $3, zim_ids = $4, is_favorite = $5, updated_at = now() WHERE id = $1",
            [AInt id; AText name; AText label; AInts zim_ids; ABool is_favorite])
  end.

(** What the database makes of such a text: the assignments, and the
    placeholder the id is compared with. *)
Inductive SqlExpr := Placeholder (n : nat) | NowCall.

Definition parse_expr (s : string) : option SqlExpr :=
  if String.eqb s "now()" then Some NowCall
  else match strip_prefix "$" s with Some d => (fun n => Placeholder (Z.to_nat n)) <$> parse_u64 d | None => None end.

Definition parse_assignment (s : string) : option (string * SqlExpr) :=
  '(col, e) ← split_once " = " (trim_start s); e ← parse_expr e; Some (col, e).

Definition parse_update (sql : string) : option (list (string * SqlExpr) * SqlExpr) :=
  rest ← strip_prefix "UPDATE collections SET " sql;
  '(sets, cond) ← split_once " WHERE " rest;
  assignments ← mapM parse_assignment (split_on (Ascii.eqb ","%char) sets);
  '(col, e) ← parse_assignment cond;
  if String.eqb col "id" then Some (assignments, e) else None.

Definition arg_at (args : list SqlArg) (e : SqlExpr) : option SqlArg :=
  match e with Placeholder n => args !! pred n | NowCall => None end.

(** One assignment; a value of another type than the column's is refused. *)
Definition assign (now : Z) (args : list SqlArg) (r : CollectionRow) (a : string * SqlExpr) : option CollectionRow :=
  let '(col, e) := a in
  if String.eqb col "updated_at" then
    match e with
    | NowCall => Some (mkCollection (co_id r) (co_name r) (co_label r) (co_zim_ids r) (co_is_favorite r) (co_created_at r) now)
    | Placeholder _ => None
    end
  else match arg_at args e with
    | Some (AText s) =>
        if String.eqb col "name" then
          Some (mkCollection (co_id r) s (co_label r) (co_zim_ids r) (co_is_favorite r) (co_created_at r) (co_updated_at r))
        else if String.eqb col "label" then
          Some (mkCollection (co_id r) (co_name r) s (co_zim_ids r) (co_is_favorite r) (co_created_at r) (co_updated_at r))
        else None
    | Some (AInts l) =>
        if String.eqb col "zim_ids" then
          Some (mkCollection (co_id r) (co_name r) (co_label r) l (co_is_favorite r) (co_created_at r) (co_updated_at r))
        else None
    | Some (ABool b) =>
        if String.eqb col "is_favorite" then
          Some (mkCollection (co_id r) (co_name r) (co_label r) (co_zim_ids r) b (co_created_at r) (co_updated_at r))
        else None
    | _ => None
    end.

Definition sql_refused : Error := Database (DatabaseError (Some "42601") None "syntax error").

Definition run_update (now : Z) (sql : string) (args : list SqlArg) (t : CollectionTable) : Result Z * CollectionTable :=
  match parse_update sql with
  | None => (Err sql_refused, t)
  | Some (sets, e) =>
      match arg_at args e with
      | Some (AInt id) =>
          match c_rows t !! id with
          | None => (Ok 0, t)
          | Some r =>
              match foldl (fun acc a => r ← acc; assign now args r a) (Some r) sets with
              | None => (Err sql_refused, t)
              | Some r' =>
                  if name_taken (c_rows t) id (co_name r') then (Err name_violation, t)
                  else (Ok 1, mkCollections (<[id := r']> (c_rows t)) (c_next t))
              end
          end
      | _ => (Err sql_refused, t)
      end
  end.

Inductive UpdateOutcome := Updated | UpdateNotFound.

Definition update_collection (f : Fault) (now id : Z) (fields : UpdateFields) (t : CollectionTable) :
    Result UpdateOutcome * CollectionTable :=
  match update_statement id fields with
  | None => (Ok UpdateNotFound, t)
  | Some (sql, args) =>
      match run_on f (run_update now sql args) t with
      | (Ok updated, t') => (Ok (if 0 <? updated then Updated else UpdateNotFound), t')
      | (Err e, t') => (Err e, t')
      end
  end.

Inductive DeleteOutcome := Deleted | DeleteNotFound.

Definition delete_collection (f : Fault) (id : Z) (t : CollectionTable) : Result DeleteOutcome * CollectionTable :=
  let stmt (t : CollectionTable) :=
    (Ok (if bool_decide (is_Some (c_rows t !! id)) then 1 else 0), mkCollections (delete id (c_rows t)) (c_next t)) in
  match run_on f stmt t with
  | (Ok deleted, t') => (Ok (if 0 <? deleted then Deleted else DeleteNotFound), t')
  | (Err e, t') => (Err e, t')
  end.

(** ** The handlers *)

Record Collection := mkCollectionDto {
  cd_id : Z;
  cd_name : string;
  cd_label : string;
  cd_zim_names : list string;
  cd_is_favorite : bool;
  cd_created_at : string;
  cd_updated_at : string
}.

Record CreateCollectionBody := mkCreate {
  b_name : string;
  b_label : string;
  b_zim_names : list string;
  b_is_favorite : bool
}.

Record UpdateCollectionBody := mkUpdateBody {
  ub_name : option string;
  ub_label : option string;
  ub_zim_names : option (list string);
  ub_is_favorite : option bool
}.

Section Handlers.

Context {Archive : Type} {Hi : HashIter string ZimMeta}.

(** Later entries win in [collect]; names are the keys of the cache. *)
Definition ids_by_name (z : @ZimManager Archive) : gmap string Z :=
  foldl (fun m e => match e with (Some id, n) => <[n := id]> m | (None, _) => m end) (∅ : gmap string Z) (list_id_names z).

Fixpoint resolve_names (by_name : gmap string Z) (names : list string) : Result (list Z) :=
  match names with
  | [] => Ok []
  | n :: rest =>
      match by_name !! n with
      | None => Err (InvalidInput ("ZIM '" +:+ n +:+ "' not found"))
      | Some id => let? ids := resolve_names by_name rest in Ok (id :: ids)
      end
  end.

Definition zim_names_to_ids (z : @ZimManager Archive) (names : list string) : Result (list Z) :=
  resolve_names (ids_by_name z) names.

Definition zim_id_to_name_map (z : @ZimManager Archive) : gmap Z string :=
  foldl (fun m e => match e with (Some id, n) => <[id := n]> m | (None, _) => m end) (∅ : gmap Z string) (list_id_names z).

Definition collection_from_row `{Rfc3339} (id_to_name : gmap Z string) (r : CollectionRow) : Collection :=
  mkCollectionDto (co_id r) (co_name r) (co_label r) (omap (fun id => id_to_name !! id) (co_zim_ids r)) (co_is_favorite r)
    (to_rfc3339 (co_created_at r)) (to_rfc3339 (co_updated_at r)).

Definition list_collections_handler `{Collation, Rfc3339} (f : Fault) (z : @ZimManager Archive) (t : CollectionTable) :
    Result (list Collection) :=
  let? rows := list_collections f t in
  Ok (collection_from_row (zim_id_to_name_map z) <$> rows).

Definition create_collection (f : Fault) (now : Z) (z : @ZimManager Archive) (body : CreateCollectionBody) (t : CollectionTable) :
    Result Z * CollectionTable :=
  let name := trim (b_name body) in
  if str_is_empty name || str_is_empty (trim (b_label body)) then (Err (InvalidInput "name and label are required"), t)
  else
    match zim_names_to_ids z (b_zim_names body) with
    | Err e => (Err e, t)
    | Ok zim_ids =>
        match insert_collection f now name (b_label body) zim_ids (b_is_favorite body) t with
        | (Ok (CInserted id), t') => (Ok id, t')
        | (Ok CDuplicate, t') => (Err (Conflict ("collection '" +:+ name +:+ "' already exists")), t')
        | (Err e, t') => (Err e, t')
        end
    end.

Definition update_name (body : UpdateCollectionBody) : Result (option string) :=
  match trim <$> ub_name body with
  | Some n => if str_is_empty n then Err (InvalidInput "name cannot be empty") else Ok (Some n)
  | None => Ok None
  end.

Definition update_zim_ids (z : @ZimManager Archive) (body : UpdateCollectionBody) : Result (option (list Z)) :=
  match ub_zim_names body with
  | Some names => let? ids := zim_names_to_ids z names in Ok (Some ids)
  | None => Ok None
  end.

Definition update_fields (z : @ZimManager Archive) (body : UpdateCollectionBody) : Result UpdateFields :=
  let? name := update_name body in
  if match ub_label body with Some l => str_is_empty (trim l) | None => false end
  then Err (InvalidInput "label cannot be empty")
  else
    let? zim_ids := update_zim_ids z body in
    if bool_decide (is_Some name) || bool_decide (is_Some (ub_label body)) || bool_decide (is_Some zim_ids)
       || bool_decide (is_Some (ub_is_favorite body))
    then Ok (mkFields name (ub_label body) zim_ids (ub_is_favorite body))
    else Err (InvalidInput "nothing to update").

Definition update_collection_handler (f : Fault) (now : Z) (z : @ZimManager Archive) (id : Z) (body : UpdateCollectionBody)
    (t : CollectionTable) : Result unit * CollectionTable :=
  match update_fields z body with
  | Err e => (Err e, t)
  | Ok fields =>
      match update_collection f now id fields t with
      | (Ok Updated, t') => (Ok tt, t')
      | (Ok UpdateNotFound, t') => (Err (NotFound ("collection " +:+ pretty id +:+ " not found")), t')
      | (Err e, t') => (Err e, t')
      end
  end.

End Handlers.

Definition delete_collection_handler (f : Fault) (id : Z) (t : CollectionTable) : Result unit * CollectionTable :=
  match delete_collection f id t with
  | (Ok Deleted, t') => (Ok tt, t')
  | (Ok DeleteNotFound, t') => (Err (NotFound ("collection " +:+ pretty id +:+ " not found")), t')
  | (Err e, t') => (Err e, t')
  end.

(** ** Random articles *)

Record RandomArticle := mkRandom {
  ra_id : Z;
  ra_zim_id : Z;
  ra_path : string;
  ra_title : string;
  ra_snippet : string;
  ra_zim : string
}.

(** The bounds are taken in 64-bit wrap-around arithmetic, the width in 128. *)
Definition i64_as_u64 (x : Z) : Z := x mod 2 ^ 64.
Definition u64_to_i64 (x : Z) : Z := if x <=? i64_max then x else x - 2 ^ 64.

Definition random_id_in_range (lo hi seed : Z) : Z :=
  let width := (i64_as_u64 hi - i64_as_u64 lo) mod 2 ^ 64 + 1 in
  let offset := seed mod width in
  u64_to_i64 ((i64_as_u64 lo + offset mod 2 ^ 64) mod 2 ^ 64).

(** The rows of [articles] joined with [zims], in no order; the scope is the
    archive's name, when one is given. *)
Definition in_scope (zim_filter : option string) (a : RandomArticle) : bool :=
  match zim_filter with Some z => String.eqb (ra_zim a) z | None => true end.

Definition scoped (zim_filter : option string) (rows : list RandomArticle) : list RandomArticle :=
  List.filter (in_scope zim_filter) rows.

Definition id_le (a b : RandomArticle) : bool := ra_id a <=? ra_id b.

(** [BOUNDS_SQL_GLOBAL], [BOUNDS_SQL_OPT]. *)
Definition bounds_sql (zim_filter : option string) (rows : list RandomArticle) : option Z * option Z :=
  let ids := ra_id <$> sort_by id_le (scoped zim_filter rows) in
  (head ids, last ids).

(** [SEEK_SQL_GLOBAL], [SEEK_SQL_OPT]: the forward branch, then the backward
    one; the first row is taken. *)
Definition seek_sql (zim_filter : option string) (target : Z) (rows : list RandomArticle) : list RandomArticle :=
  let sorted := sort_by id_le (scoped zim_filter rows) in
  take 1 (List.filter (fun a => target <=? ra_id a) sorted)
  ++ take 1 (reverse (List.filter (fun a => ra_id a <=? target) sorted)).

Definition fetch_bounds (read : Result (list RandomArticle)) (zim_filter : option string) : Result (option (Z * Z)) :=
  let? rows := read in
  match bounds_sql zim_filter rows with
  | (Some min_id, Some max_id) => Ok (Some (min_id, max_id))
  | _ => Ok None
  end.

Definition seek (read : Result (list RandomArticle)) (target : Z) (zim_filter : option string) : Result (option RandomArticle) :=
  let? rows := read in Ok (head (seek_sql zim_filter target rows)).

Definition no_articles : Error := NotFound "no articles found".

(** [reads n] is the table when the n-th statement runs, or its error; [clock]
    is [as_nanos() as u64], 0 before the epoch. *)
Definition fetch_random_article (reads : nat -> Result (list RandomArticle)) (clock pid : Z) (zim_filter : option string) :
    Result RandomArticle :=
  let? b := fetch_bounds (reads 0%nat) zim_filter in
  match b with
  | None => Err no_articles
  | Some (min_id, max_id) =>
      let seed := Z.lxor clock pid in
      let? found := seek (reads 1%nat) (random_id_in_range min_id max_id seed) zim_filter in
      match found with
      | Some article => Ok article
      | None =>
          let? b := fetch_bounds (reads 2%nat) zim_filter in
          match b with
          | None => Err no_articles
          | Some (min_id, max_id) =>
              let? found := seek (reads 3%nat) (random_id_in_range min_id max_id seed) zim_filter in
              match found with Some article => Ok article | None => Err no_articles end
          end
      end
  end.

(** The response has the row's fields. *)
Definition random_article (reads : nat -> Result (list RandomArticle)) (clock pid : Z) (zim : option string) :
    Result RandomArticle := fetch_random_article reads clock pid zim.

(** ** Language links *)

(** [qid_row]: the first statement's row, with its nullable column; [rows]:
    the second statement's for a Q-ID. *)
Definition interlanguage_json (qid_row : Result (option (option Z)))
    (rows : Z -> Result (list (string * string * option string))) : Result json :=
  let? qid := qid_row in
  match qid with
  | Some (Some qid) =>
      let? rows := rows qid in
      Ok (jobj [("qid", JString ("Q" +:+ pretty qid));
        ("languages", JArray ((fun '(z, p, t) => jobj [("zim", JString z); ("path", JString p);
          ("title", match t with Some s => JString s | None => JNull end)]) <$> rows))])
  | _ => Ok (jobj [("qid", JNull); ("languages", JArray [])])
  end.

(** ** The update is pointwise *)

Definition set_fields (now : Z) (u : UpdateFields) (r : CollectionRow) : CollectionRow :=
  mkCollection (co_id r) (default (co_name r) (u_name u)) (default (co_label r) (u_label u))
    (default (co_zim_ids r) (u_zim_ids u)) (default (co_is_favorite r) (u_is_favorite u)) (co_created_at r) now.

(** The table with one row replaced, if its name is free. *)
Definition replace_row (id : Z) (r : CollectionRow) (t : CollectionTable) : Result Z * CollectionTable :=
  if name_taken (c_rows t) id (co_name r) then (Err name_violation, t)
  else (Ok 1, mkCollections (<[id := r]> (c_rows t)) (c_next t)).

Ltac read_sql :=
  match goal with
  | |- context [parse_update ?s] => let v := eval vm_compute in (parse_update s) in change (parse_update s) with v
  end.

Lemma run_update_pointwise now id fields sql args t : update_statement id fields = Some (sql, args) ->
  run_update now sql args t =
  match c_rows t !! id with None => (Ok 0, t) | Some r => replace_row id (set_fields now fields r) t end.
Proof.
  destruct fields as [[n|] [l|] [zs|] [fav|]]; intros [= <- <-]; unfold run_update; read_sql; cbn;
    destruct (c_rows t !! id) as [[]|]; reflexivity.
Qed.

(** C28: a partial update writes the given fields and nothing else.  Whatever
    the set of fields given, the statement chosen for it sets each of them to
    its value, stamps the time, keeps the others, and reports whether the row
    exists; a name another collection has is refused with nothing written.
    (This is the statement when the database answers; a fault is
    [update_collection]'s other argument.) *)
Theorem update_is_pointwise now id fields t :
  update_collection NoFault now id fields t =
  if bool_decide (is_Some (u_name fields)) || bool_decide (is_Some (u_label fields)) ||
     bool_decide (is_Some (u_zim_ids fields)) || bool_decide (is_Some (u_is_favorite fields))
  then match c_rows t !! id with
       | None => (Ok UpdateNotFound, t)
       | Some r => match replace_row id (set_fields now fields r) t with
                   | (Ok _, t') => (Ok Updated, t')
                   | (Err e, t') => (Err e, t')
                   end
       end
  else (Ok UpdateNotFound, t).
Proof.
  unfold update_collection. destruct (update_statement id fields) as [[sql args]|] eqn:Hs.
  - cbn. rewrite (run_update_pointwise _ _ _ _ _ _ Hs).
    assert (bool_decide (is_Some (u_name fields)) || bool_decide (is_Some (u_label fields)) ||
      bool_decide (is_Some (u_zim_ids fields)) || bool_decide (is_Some (u_is_favorite fields)) = true) as ->.
    { destruct fields as [[?|] [?|] [?|] [?|]]; done. }
    destruct (c_rows t !! id); [|done]. unfold replace_row. by destruct (name_taken _ _ _).
  - by destruct fields as [[?|] [?|] [?|] [?|]].
Qed.

(** ** The table stays well formed *)

Definition row_ok (t : CollectionTable) (id : Z) (r : CollectionRow) : Prop :=
  co_id r = id /\ id < c_next t /\ trim (co_name r) = co_name r /\ co_name r <> EmptyString /\ trim (co_label r) <> EmptyString.

Definition table_ok (t : CollectionTable) : Prop :=
  map_Forall (row_ok t) (c_rows t) /\
  forall i j r s, c_rows t !! i = Some r -> c_rows t !! j = Some s -> co_name r = co_name s -> i = j.

Lemma name_taken_false m id n : name_taken m id n = false -> forall i r, m !! i = Some r -> co_name r = n -> i = id.
Proof.
  unfold name_taken. intros Hn i r Hi Hr. apply bool_decide_eq_false_1 in Hn. destruct (decide (i = id)); [done|].
  exfalso. apply Hn. exists i, r. done.
Qed.

Lemma put_row_ok t id r next : table_ok t -> c_next t <= next -> name_taken (c_rows t) id (co_name r) = false ->
  row_ok (mkCollections (c_rows t) next) id r -> table_ok (mkCollections (<[id := r]> (c_rows t)) next).
Proof.
  intros [Hf Hu] Hn Ht Hr. pose proof (name_taken_false _ _ _ Ht) as Hfree. split; cbn.
  - apply map_Forall_insert_2; [done|]. intros i s Hi. destruct (Hf i s Hi) as (? & ? & ?). split; [done|]. cbn. split; [lia|done].
  - intros i j a b. destruct (decide (i = id)) as [->|Hi], (decide (j = id)) as [->|Hj]; [done|..].
    + rewrite lookup_insert_eq, lookup_insert_ne by done. intros [= <-] Hb E. symmetry. by eapply Hfree.
    + rewrite lookup_insert_eq, lookup_insert_ne by done. intros Ha [= <-] E. by eapply Hfree.
    + rewrite !lookup_insert_ne by done. apply Hu.
Qed.

Lemma next_ok t next : table_ok t -> c_next t <= next -> table_ok (mkCollections (c_rows t) next).
Proof.
  intros [Hf Hu] Hn. split; [|done]. intros i s Hi. destruct (Hf i s Hi) as (? & ? & ?). split; [done|]. cbn. split; [lia|done].
Qed.

(** A statement that keeps the table in order keeps it so when it fails or its
    reply is lost. *)
Lemma run_on_ok {A} f (stmt : CollectionTable -> Result A * CollectionTable) t :
  table_ok t -> table_ok (snd (stmt t)) -> table_ok (snd (run_on f stmt t)).
Proof. intros Ht Hs. by destruct f. Qed.

Lemma insert_collection_ok f now name label zim_ids fav t : table_ok t -> trim name = name -> name <> EmptyString ->
  trim label <> EmptyString -> table_ok (snd (insert_collection f now name label zim_ids fav t)).
Proof.
  intros Ht Hn Hne Hl. unfold insert_collection. set (stmt := fun t0 => _).
  assert (Hs : table_ok (snd (run_on f stmt t))).
  { apply run_on_ok; [done|]. unfold stmt. destruct (name_taken _ _ _) eqn:Hk; cbn; [apply next_ok; [done|lia]|].
    apply put_row_ok; [done|lia|done|]. repeat split; cbn; first [done|lia]. }
  destruct (run_on f stmt t) as [[?|[]] t'] eqn:E; cbn in Hs; try done. by destruct (is_unique_violation _).
Qed.

Lemma update_collection_ok f now id fields t : table_ok t ->
  (forall n, u_name fields = Some n -> trim n = n /\ n <> EmptyString) ->
  (forall l, u_label fields = Some l -> trim l <> EmptyString) ->
  table_ok (snd (update_collection f now id fields t)).
Proof.
  intros Ht Hn Hl. unfold update_collection. destruct (update_statement id fields) as [[sql args]|] eqn:Hs; [|done].
  assert (Hr : table_ok (snd (run_on f (run_update now sql args) t))).
  { apply run_on_ok; [done|]. rewrite (run_update_pointwise _ _ _ _ _ _ Hs). destruct (c_rows t !! id) as [r|] eqn:Hi; [|done].
    unfold replace_row. destruct (name_taken _ _ _) eqn:Hk; [done|]. cbn. apply put_row_ok; [done|lia|done|].
    destruct (proj1 Ht id r Hi) as (H1 & H2 & H3 & H4 & H5). unfold row_ok, set_fields. cbn.
    destruct (u_name fields), (u_label fields); cbn; naive_solver. }
  by destruct (run_on f _ t) as [[]].
Qed.

Lemma delete_collection_ok f id t : table_ok t -> table_ok (snd (delete_collection f id t)).
Proof.
  intros Ht. unfold delete_collection. set (stmt := fun t0 => _).
  assert (Hs : table_ok (snd (run_on f stmt t))).
  { apply run_on_ok; [done|]. destruct Ht as [Hf Hu]. split; cbn.
    - intros i r Hi. apply lookup_delete_Some in Hi as [_ Hi]. exact (Hf i r Hi).
    - intros i j r s Hi Hj. apply lookup_delete_Some in Hi as [_ Hi]. apply lookup_delete_Some in Hj as [_ Hj]. by apply Hu. }
  by destruct (run_on f stmt t) as [[]].
Qed.

(** A request to one of the three writing handlers, at a time, with the fault
    its statement meets and the archives known then. *)
Inductive CollectionRequest (Archive : Type) :=
  | CreateReq (z : @ZimManager Archive) (body : CreateCollectionBody)
  | UpdateReq (z : @ZimManager Archive) (id : Z) (body : UpdateCollectionBody)
  | DeleteReq (id : Z).
Arguments CreateReq {Archive}.
Arguments UpdateReq {Archive}.
Arguments DeleteReq {Archive}.

Definition handle {Archive} {Hi : HashIter string ZimMeta} (t : CollectionTable) (q : Fault * Z * CollectionRequest Archive) :
    CollectionTable :=
  let '(f, now, req) := q in
  match req with
  | CreateReq z body => snd (create_collection f now z body t)
  | UpdateReq z id body => snd (update_collection_handler f now z id body t)
  | DeleteReq id => snd (delete_collection_handler f id t)
  end.

Lemma str_empty_false s : str_is_empty s = false -> s <> EmptyString.
Proof. by destruct s. Qed.

Lemma create_ok {Archive} {Hi : HashIter string ZimMeta} f now (z : @ZimManager Archive) body t :
  table_ok t -> table_ok (snd (create_collection f now z body t)).
Proof.
  intros Ht. unfold create_collection. destruct (str_is_empty (trim (b_name body))) eqn:E1; [done|].
  destruct (str_is_empty (trim (b_label body))) eqn:E2; [done|]. cbn [orb].
  destruct (zim_names_to_ids z _) as [ids|]; [|done].
  pose proof (insert_collection_ok f now (trim (b_name body)) (b_label body) ids (b_is_favorite body) t Ht
    (trim_idem _) (str_empty_false _ E1) (str_empty_false _ E2)) as H.
  by destruct (insert_collection _ _ _ _ _ _ _) as [[[]|] t'].
Qed.

Lemma update_ok {Archive} {Hi : HashIter string ZimMeta} f now (z : @ZimManager Archive) id body t :
  table_ok t -> table_ok (snd (update_collection_handler f now z id body t)).
Proof.
  intros Ht. unfold update_collection_handler. destruct (update_fields z body) as [fields|] eqn:Hf; [|done].
  assert (H : table_ok (snd (update_collection f now id fields t))); [|by destruct (update_collection _ _ _ _ _) as [[[]|] t']].
  unfold update_fields, update_name in Hf. destruct (ub_name body) as [n|]; cbn in Hf; [destruct (str_is_empty (trim n)) eqn:E1; [done|]|];
    cbn in Hf; (destruct (ub_label body) as [l|] eqn:El; cbn in Hf; [destruct (str_is_empty (trim l)) eqn:E2; [done|]|]);
    (destruct (update_zim_ids z body) as [ids|]; [|done]); cbn in Hf; repeat (case_match; try done); simplify_eq;
    (apply update_collection_ok; [done|..]); cbn; intros ? E; simplify_eq; try (split; [apply trim_idem|]); by apply str_empty_false.
Qed.

(** The collections stay well formed.  However the writing requests come,
    whatever their bodies, and whichever of their statements fail or lose
    their reply: no two collections have the same name, every name is
    non-empty and without surrounding space, no label is blank, and each row
    is filed under its own id, below the next one. *)
Theorem collections_well_formed {Archive} {Hi : HashIter string ZimMeta} (qs : list (Fault * Z * CollectionRequest Archive)) t :
  table_ok t -> table_ok (foldl handle t qs).
Proof.
  revert t. induction qs as [|[[f now] req] qs IH]; intros t Ht; cbn; [done|]. apply IH. destruct req as [z body|z id body|id].
  - by apply create_ok.
  - by apply update_ok.
  - cbn. unfold delete_collection_handler. pose proof (delete_collection_ok f id t Ht).
    by destruct (delete_collection f id t) as [[[]|] t'].
Qed.

(** ** Names go in, names come out *)

Section RoundTrip.

Context {Archive : Type} {Hi : HashIter string ZimMeta}.
Implicit Types z : @ZimManager Archive.

(** No two archives share an id. *)
Definition ids_distinct z : Prop :=
  forall id n n', (Some id, n) ∈ list_id_names z -> (Some id, n') ∈ list_id_names z -> n = n'.

Lemma ids_fold_lookup (l : list (option Z * string)) (m : gmap string Z) n id :
  foldl (fun m e => match e with (Some id, n) => <[n := id]> m | (None, _) => m end) m l !! n = Some id ->
  (Some id, n) ∈ l \/ m !! n = Some id.
Proof.
  revert m. induction l as [|[[i|] k] l IH]; intros m; cbn; [by right|..].
  - intros H. destruct (IH _ H) as [?|E]; [left; by right|]. destruct (decide (k = n)) as [->|Hne].
    + rewrite lookup_insert_eq in E. left. simplify_eq. by left.
    + rewrite lookup_insert_ne in E by done. by right.
  - intros H. destruct (IH _ H) as [?|E]; [left; by right|by right].
Qed.

Lemma names_fold_keeps (l : list (option Z * string)) (m : gmap Z string) id n :
  (forall n', (Some id, n') ∈ l -> n' = n) -> m !! id = Some n ->
  foldl (fun m e => match e with (Some id, n) => <[id := n]> m | (None, _) => m end) m l !! id = Some n.
Proof.
  revert m. induction l as [|[[i|] k] l IH]; intros m Hd Hm; cbn; [done|..]; (apply IH; [intros; apply Hd; by right|]); [|done].
  destruct (decide (i = id)) as [->|Hne]; [rewrite lookup_insert_eq; f_equal; apply Hd; by left|by rewrite lookup_insert_ne].
Qed.

Lemma names_fold_lookup (l : list (option Z * string)) (m : gmap Z string) id n :
  (forall n', (Some id, n') ∈ l -> n' = n) -> (Some id, n) ∈ l ->
  foldl (fun m e => match e with (Some id, n) => <[id := n]> m | (None, _) => m end) m l !! id = Some n.
Proof.
  intros Hd Hin. apply list_elem_of_split in Hin as (l1 & l2 & ->). rewrite foldl_app. cbn.
  apply names_fold_keeps; [|apply lookup_insert_eq]. intros n' Hn'. apply Hd. apply elem_of_app. right. by right.
Qed.

Lemma resolve_back z names ids : ids_distinct z -> zim_names_to_ids z names = Ok ids ->
  omap (fun id => zim_id_to_name_map z !! id) ids = names.
Proof.
  intros Hd. unfold zim_names_to_ids. revert ids. induction names as [|n names IH]; intros ids; cbn; [by intros [= <-]|].
  destruct (ids_by_name z !! n) as [id|] eqn:Hn; [|done]. destruct (resolve_names _ names) as [ids'|]; [|done].
  cbn. intros [= <-]. cbn. destruct (ids_fold_lookup _ _ _ _ Hn) as [Hin|]; [|by rewrite lookup_empty in *].
  unfold zim_id_to_name_map. rewrite (names_fold_lookup _ _ id n); [|intros n' Hn'; by eapply Hd|done]. f_equal. by apply IH.
Qed.

(** A created collection lists the archives it was created with.  When a
    creation succeeds, the listing that follows has an entry under the
    returned id, with the trimmed name, the label, the flag, and the archive
    names of the request in their order. *)
Theorem created_collection_lists_its_archives `{Collation, Rfc3339} now z body t id t' :
  ids_distinct z -> create_collection NoFault now z body t = (Ok id, t') ->
  exists cs, list_collections_handler NoFault z t' = Ok cs /\
    mkCollectionDto id (trim (b_name body)) (b_label body) (b_zim_names body) (b_is_favorite body)
      (to_rfc3339 now) (to_rfc3339 now) ∈ cs.
Proof.
  intros Hd. unfold create_collection. destruct (_ || _); [done|].
  destruct (zim_names_to_ids z (b_zim_names body)) as [ids|] eqn:Hids; [|done]. unfold insert_collection. cbn.
  destruct (name_taken _ _ _); cbn; [done|]. intros [= <- <-]. eexists. split; [done|].
  apply list_elem_of_fmap. eexists. split; cycle 1.
  - apply elem_of_sort_by. unfold rows_of. apply list_elem_of_fmap. eexists (_, _). split; [done|].
    apply elem_of_map_to_list. apply lookup_insert_eq.
  - unfold collection_from_row. cbn. by rewrite (resolve_back z (b_zim_names body)).
Qed.

End RoundTrip.

(** ** The random draw *)

Lemma u64_i64 x : i64_min <= x <= i64_max -> u64_to_i64 (i64_as_u64 x) = x.
Proof.
  unfold u64_to_i64, i64_as_u64, i64_min, i64_max. intros Hx. destruct (Z.ltb_spec x 0).
  - replace (x mod 2 ^ 64) with (x + 2 ^ 64) by (rewrite <- (Z.mod_add x 1) by lia; rewrite Z.mod_small; lia).
    destruct (Z.leb_spec (x + 2 ^ 64) (2 ^ 63 - 1)); lia.
  - rewrite Z.mod_small by lia. destruct (Z.leb_spec x (2 ^ 63 - 1)); lia.
Qed.

Lemma random_id_spec lo hi seed : i64_min <= lo -> lo <= hi -> hi <= i64_max -> 0 <= seed ->
  random_id_in_range lo hi seed = lo + seed mod (hi - lo + 1).
Proof.
  unfold i64_min, i64_max. intros Hlo Hlh Hhi Hs. unfold random_id_in_range.
  assert ((i64_as_u64 hi - i64_as_u64 lo) mod 2 ^ 64 = hi - lo) as ->.
  { unfold i64_as_u64. rewrite <- Zminus_mod. apply Z.mod_small. lia. }
  assert (0 <= seed mod (hi - lo + 1) < hi - lo + 1) as Hm by (apply Z.mod_pos_bound; lia).
  rewrite (Z.mod_small (seed mod _)) by lia.
  assert ((i64_as_u64 lo + seed mod (hi - lo + 1)) mod 2 ^ 64 = i64_as_u64 (lo + seed mod (hi - lo + 1))) as ->.
  { unfold i64_as_u64. by rewrite Zplus_mod_idemp_l. }
  apply u64_i64. unfold i64_min, i64_max. lia.
Qed.

(** The random target is an id of the range, and any of them.  For all
    64-bit bounds, the whole signed range included, the target lies between
    them, and every id between them is the target of some 64-bit seed. *)
Theorem random_target_covers_range lo hi : i64_min <= lo -> lo <= hi -> hi <= i64_max ->
  (forall seed, 0 <= seed <= u64_max -> lo <= random_id_in_range lo hi seed <= hi) /\
  (forall x, lo <= x <= hi -> exists seed, 0 <= seed <= u64_max /\ random_id_in_range lo hi seed = x).
Proof.
  intros Hlo Hlh Hhi. split.
  - intros seed [Hs _]. rewrite random_id_spec by done. pose proof (Z.mod_pos_bound seed (hi - lo + 1)). lia.
  - intros x Hx. exists (x - lo). split; [unfold u64_max, i64_min, i64_max in *; lia|].
    rewrite random_id_spec by (unfold i64_min in *; lia). rewrite Z.mod_small by lia. lia.
Qed.

Lemma sorted_elem zf a rows : a ∈ sort_by id_le (scoped zf rows) <-> in_scope zf a = true /\ a ∈ rows.
Proof. unfold scoped. by rewrite elem_of_sort_by, elem_of_filter_bool. Qed.

Lemma seek_sql_elem zf target rows a : a ∈ seek_sql zf target rows -> in_scope zf a = true /\ a ∈ rows.
Proof.
  unfold seek_sql. rewrite elem_of_app. intros [H|H].
  - apply (elem_of_take _ 1) in H as (n & Hn & _). apply list_elem_of_lookup_2, elem_of_filter_bool in Hn as [_ Hn].
    by apply sorted_elem.
  - apply (elem_of_take _ 1) in H as (n & Hn & _). apply list_elem_of_lookup_2, elem_of_reverse, elem_of_filter_bool in Hn as [_ Hn].
    by apply sorted_elem.
Qed.

Lemma seek_sql_nil zf target rows : seek_sql zf target rows = [] -> scoped zf rows = [].
Proof.
  intros Hs. destruct (scoped zf rows) as [|b l] eqn:E; [done|]. exfalso.
  assert (Hb : b ∈ sort_by id_le (scoped zf rows)) by (apply elem_of_sort_by; rewrite E; by left).
  unfold seek_sql in Hs. apply app_nil in Hs as [H1 H2]. destruct (Z.leb_spec target (ra_id b)) as [Hle|Hgt].
  - assert (Hin : b ∈ List.filter (fun a => target <=? ra_id a) (sort_by id_le (scoped zf rows)))
      by (apply elem_of_filter_bool; split; [by apply Z.leb_le|done]).
    destruct (List.filter _ _); [by apply not_elem_of_nil in Hin|done].
  - assert (Hin : b ∈ reverse (List.filter (fun a => ra_id a <=? target) (sort_by id_le (scoped zf rows))))
      by (apply elem_of_reverse, elem_of_filter_bool; split; [apply Z.leb_le; lia|done]).
    destruct (reverse _); [by apply not_elem_of_nil in Hin|done].
Qed.

Lemma fetch_bounds_none rows zf : fetch_bounds (Ok rows) zf = Ok None -> scoped zf rows = [].
Proof.
  unfold fetch_bounds, bounds_sql. cbn. destruct (sort_by id_le (scoped zf rows)) as [|a l] eqn:E.
  - intros _. pose proof (sort_by_perm id_le (scoped zf rows)) as Hp. rewrite E in Hp. by apply Permutation_nil in Hp.
  - cbn. destruct (last (ra_id a :: (ra_id <$> l))) eqn:El; [done|]. by apply last_None in El.
Qed.

Lemma seek_cases rows target zf :
  (exists a, seek (Ok rows) target zf = Ok (Some a) /\ in_scope zf a = true /\ a ∈ rows) \/
  (seek (Ok rows) target zf = Ok None /\ scoped zf rows = []).
Proof.
  unfold seek. cbn. destruct (seek_sql zf target rows) as [|a l] eqn:E; [right|left].
  - split; [done|]. by eapply seek_sql_nil.
  - exists a. split; [done|]. apply (seek_sql_elem zf target). rewrite E. by left.
Qed.

(** A random article is drawn whenever there is one.  While other sessions
    change the tables between the statements, a draw answers with a row of
    the requested archive (of any, when none is named) that one of its
    statements saw, and says that there is none only if one of them saw no
    article of the scope. *)
Theorem random_article_outcome (rows : nat -> list RandomArticle) clock pid zim :
  match random_article (fun n => Ok (rows n)) clock pid zim with
  | Ok a => in_scope zim a = true /\ exists n, (n < 4)%nat /\ a ∈ rows n
  | Err e => e = no_articles /\ exists n, (n < 4)%nat /\ scoped zim (rows n) = []
  end.
Proof.
  unfold random_article, fetch_random_article.
  assert (Hb : forall n, (n < 4)%nat -> (exists lo hi, fetch_bounds (Ok (rows n)) zim = Ok (Some (lo, hi))) \/
    (fetch_bounds (Ok (rows n)) zim = Ok None /\ exists n, (n < 4)%nat /\ scoped zim (rows n) = [])).
  { intros n Hn. destruct (fetch_bounds (Ok (rows n)) zim) as [[[lo hi]|]|e] eqn:E; [by left; eexists _, _|right|].
    - split; [done|]. exists n. split; [done|]. by eapply fetch_bounds_none.
    - unfold fetch_bounds in E. cbn [rbind] in E. by destruct (bounds_sql zim (rows n)) as [[] []]. }
  destruct (Hb 0%nat) as [(lo & hi & ->)|[-> He]]; [lia| |by cbn]. cbn [rbind].
  destruct (seek_cases (rows 1%nat) (random_id_in_range lo hi (Z.lxor clock pid)) zim) as [(a & -> & Ha & Hin)|[-> _]]; cbn [rbind].
  { split; [done|]. exists 1%nat. split; [lia|done]. }
  destruct (Hb 2%nat) as [(lo' & hi' & ->)|[-> He]]; [lia| |by cbn]. cbn [rbind].
  destruct (seek_cases (rows 3%nat) (random_id_in_range lo' hi' (Z.lxor clock pid)) zim) as [(a & -> & Ha & Hin)|[-> Hn]]; cbn [rbind].
  - split; [done|]. exists 3%nat. split; [lia|done].
  - split; [done|]. exists 3%nat. split; [lia|done].
Qed.

(** ** Witnesses *)

Definition sample_manager : @ZimManager unit :=
  mkManager {["wiki" := with_id 4 (stub "wiki" "/zims/wiki.zim" 10)]} ∅ 0 ∅.

Definition sample_body : CreateCollectionBody := mkCreate " science " "Science" ["wiki"] true.

#[local] Instance any_order : Collation := {| text_le _ _ := true |}.
#[local] Instance any_time : Rfc3339 := {| to_rfc3339 _ := "2024-01-01T00:00:00+00:00" |}.
#[local] Instance sample_iter : HashIter string ZimMeta := map_order string ZimMeta.

Lemma collections_well_formed_witness :
  let t := foldl handle (mkCollections ∅ 1)
    [(NoFault, 5, CreateReq sample_manager sample_body); (ReplyLost sql_refused, 6, CreateReq sample_manager sample_body);
     (NoFault, 7, UpdateReq sample_manager 1 (mkUpdateBody (Some "maths ") None None (Some false)))] in
  table_ok t /\ size (c_rows t) = 1%nat.
Proof.
  intros t. split; [|vm_compute; reflexivity].
  apply (collections_well_formed (Archive := unit)). split; [intros i r Hi|intros i j r s Hi]; cbn in Hi; by rewrite lookup_empty in Hi.
Defined.

Lemma created_collection_lists_its_archives_witness :
  exists cs, list_collections_handler NoFault sample_manager (snd (create_collection NoFault 5 sample_manager sample_body (mkCollections ∅ 1))) = Ok cs /\
    mkCollectionDto 1 (trim " science ") "Science" ["wiki"] true (to_rfc3339 5) (to_rfc3339 5) ∈ cs.
Proof.
  apply (created_collection_lists_its_archives 5 sample_manager sample_body (mkCollections ∅ 1) 1).
  - intros id n n'. assert (E : list_id_names sample_manager = [(Some 4, "wiki")]) by (vm_compute; reflexivity). rewrite E.
    rewrite !list_elem_of_singleton. congruence.
  - vm_compute. reflexivity.
Defined.

Lemma random_target_covers_range_witness :
  i64_min <= random_id_in_range i64_min i64_max 77 <= i64_max.
Proof. apply (random_target_covers_range i64_min i64_max); unfold i64_min, i64_max, u64_max; lia. Defined.
