(* ===== verification/Mcp.v ===== *)
(** * Mcp: the stdio tool server

    [src/mcp/mod.rs]: the access check, reading capped lines from a stream of
    chunks, the JSON-RPC message loop, the dispatch and the nine tools, over
    the modelled search, content, collections and random draws.  JSON parsing
    and printing are the class [SerdeJson]; what a tool call meets (archives,
    rows, clocks, the order in which reading tasks end) is the record
    [ToolEnv]. *)

From S2P Require Import Prelude RustStr Errors Floats JsonValue SettingDefs Auth Snapshots Health StableSort NetGuard SearchSql Embed Search SearchRun Content ZimManager Collections.

#[local] Opaque SETTING_DEFS known_keys default_settings.

Definition PROTOCOL_VERSION : string := "2025-03-26".
Definition MCP_MAX_LINE_BYTES : Z := 1024 * 1024.
Definition MCP_MAX_QUERY_CHARS : Z := 500.
Definition CARGO_PKG_VERSION : string := "0.1.0".
Definition quote : string := Eval cbv in str_of [34].
Definition nl : ascii := Eval cbv in chr 10.

Definition mcp_auth_ok `{Crypto} (mode configured : string) (provided : option string) : may_panic (Result unit) :=
  if String.eqb mode ACCESS_MODE_OPEN then Ok (Ok tt)
  else
    match provided with
    | None => Ok (Err (Mcp ("MCP_AUTH_PASSWORD environment variable is required when access.mode=" +:+ quote +:+ "password" +:+ quote)))
    | Some p =>
        match verify_admin_password configured p with
        | Err pn => Err pn
        | Ok true => Ok (Ok tt)
        | Ok false => Ok (Err (Mcp "MCP_AUTH_PASSWORD does not match the configured password"))
        end
    end.

(** ** Lines *)

(** An [io::Error]: whether its kind is [InvalidData], and its text. *)
Record IoError := mkIo { invalid_data : bool; io_text : string }.

(** The error of a line over the limit. *)
Definition line_exceeds (max_bytes : Z) : IoError := mkIo true ("line exceeds " +:+ pretty max_bytes +:+ " bytes").

(** What the stream still holds: the chunks [fill_buf] will return (an empty
    one is the end), and the error after them, if any. *)
Record Stream := mkStream {
  s_chunks : list string;
  s_end : option IoError
}.

(** The position after the first line feed. *)
Fixpoint line_end (s : string) : option nat :=
  match s with
  | EmptyString => None
  | String c s' => if Ascii.eqb c nl then Some 1%nat else S <$> line_end s'
  end.

Definition consume (chunk : string) (n : nat) (rest : list string) : list string :=
  let left := str_drop n chunk in if str_is_empty left then rest else left :: rest.

Fixpoint read_from (max_bytes : Z) (buf : string) (chunks : list string) (fin : option IoError) :
    result IoError (option string) * list string :=
  match chunks with
  | [] =>
      match fin with
      | Some e => (Err e, [])
      | None => (Ok (if str_is_empty buf then None else Some (from_utf8_lossy buf)), [])
      end
  | EmptyString :: _ => (Ok (if str_is_empty buf then None else Some (from_utf8_lossy buf)), chunks)
  | chunk :: rest =>
      let '(end_, complete) := match line_end chunk with Some n => (n, true) | None => (String.length chunk, false) end in
      let buf := buf +:+ str_take end_ chunk in
      if max_bytes <? str_len buf then (Err (line_exceeds max_bytes), consume chunk end_ rest)
      else if complete then (Ok (Some (from_utf8_lossy buf)), consume chunk end_ rest)
      else read_from max_bytes buf rest fin
  end.

Definition read_capped_line (s : Stream) (max_bytes : Z) : result IoError (option string) * Stream :=
  let '(r, chunks) := read_from max_bytes EmptyString (s_chunks s) (s_end s) in (r, mkStream chunks (s_end s)).

(** ** Tool results *)

Class SerdeJson := {
  json_from_str : string -> result string json;
  json_to_string : json -> string
}.

Definition ToolOut : Type := result (Z * string) json.

Definition get (v : json) (key : string) : option json :=
  match v with JObject l => obj_get key l | _ => None end.

Definition text_block (s : string) : json := JArray [jobj [("type", JString "text"); ("text", JString s)]].

Definition tool_result `{SerdeJson} (v : json) : json :=
  jobj [("content", text_block (json_to_string v)); ("isError", JBool false)].

Definition tool_error (message : string) : json :=
  jobj [("content", text_block ("error: " +:+ message)); ("isError", JBool true)].

Definition req_str (args : json) (key : string) : result (Z * string) string :=
  match get args key ≫= as_str with
  | Some s => Ok s
  | None => Err (-32602, "missing required argument '" +:+ key +:+ "'")
  end.

Definition req_query_str (args : json) : result (Z * string) string :=
  let? q := req_str args "query" in
  if MCP_MAX_QUERY_CHARS <? Z.of_nat (char_count q)
  then Err (-32602, "query exceeds " +:+ pretty MCP_MAX_QUERY_CHARS +:+ " characters")
  else Ok q.

Definition opt_str (args : json) (key : string) : option string := get args key ≫= as_str.
Definition opt_u64 (args : json) (key : string) : option Z := get args key ≫= as_u64.
Definition json_opt_str (o : option string) : json := match o with Some s => JString s | None => JNull end.

(** [#[derive(Serialize)]]. *)
Definition search_result_json (r : SearchResult) : json :=
  jobj [("id", json_int (Search.id r)); ("zim_id", json_int (Search.zim_id r)); ("zim_name", JString (zim_name r));
    ("path", JString (Search.path r)); ("title", JString (Search.title r)); ("snippet", JString (Search.snippet r));
    ("content_preview", json_opt_str (content_preview r)); ("score", json_f64 (score r)); ("language", JString (language r))].

Definition chunk_json (c : TextChunk) : json :=
  jobj [("index", json_int (Z.of_nat (Content.index c))); ("start", json_int (Z.of_nat (Content.start c)));
    ("end", json_int (Z.of_nat (Content.end_ c))); ("text", JString (Content.text c))].

(** ** The tools *)

Section Tools.

Context {Ua : UrlApi} {Cf : CaseFold} {Sf : ShowF64} {Sf32 : ShowF32} {Sj : SerdeJson}.
Context {Za : ZimApi} {Df : Deformat} {Hi : HashIter string ZimMeta} {Co : Collation} {Rf : Rfc3339}.

(** [e_ready] gives the order in which the reading tasks of a deep search end,
    as positions in the results. *)
Record ToolEnv := mkToolEnv {
  e_search : SearchEnv;
  e_zims : @ZimManager Archive;
  e_open : string -> Result Archive;
  e_row : string -> string -> Result (option (string * option string));
  e_articles : nat -> Result (list RandomArticle);
  e_clock : Z;
  e_pid : Z;
  e_qid : string -> string -> Result (option (option Z));
  e_links : string -> Z -> Result (list (string * string * option string));
  e_fault : Fault;
  e_collections : CollectionTable;
  e_ready : list nat
}.

Definition read_payload (env : ToolEnv) (zim path : string) (max_len : Z) : Result ReadResponse :=
  read_article_payload (is_known zim (e_zims env)) (e_open env zim) (e_row env zim path) zim path max_len.

Definition tool_search (env : ToolEnv) (e : SearchEngine) (args : json) : may_panic ToolOut * SearchEngine :=
  match req_query_str args with
  | Err x => (Ok (Err x), e)
  | Ok query =>
      let p := mkParams (opt_str args "zim") (opt_str args "language") (opt_str args "mode") (opt_u64 args "limit") None false in
      let '(r, e') := search (e_search env) e query p in
      (match r with
       | Err pn => Err pn
       | Ok (Err er) => Ok (Ok (tool_error (error_display er)))
       | Ok (Ok results) =>
           Ok (Ok (tool_result (jobj [("results", JArray (search_result_json <$> results)); ("total", json_int (Z.of_nat (length results)))])))
       end, e')
  end.

Definition tool_read (env : ToolEnv) (args : json) : ToolOut :=
  let? zim := req_str args "zim" in
  let? path := req_str args "path" in
  match read_payload env zim path (default DEFAULT_READ_MAX_LENGTH (opt_u64 args "max_length")) with
  | Ok p =>
      Ok (tool_result (jobj [("title", JString (Content.title p)); ("zim", JString (Content.zim p)); ("path", JString (Content.path p));
        ("content", JString (Content.content p)); ("truncated", JBool (Content.truncated p));
        ("full_length", json_int (Content.full_length p)); ("source", JString (Content.source p))]))
  | Err er => Ok (tool_error (error_display er))
  end.

Definition tool_suggest (env : ToolEnv) (e : SearchEngine) (args : json) : may_panic ToolOut * SearchEngine :=
  match req_query_str args with
  | Err x => (Ok (Err x), e)
  | Ok query =>
      let '(r, e') := suggest (e_search env) e query (opt_str args "zim") (opt_u64 args "limit") in
      (match r with
       | Err pn => Err pn
       | Ok (Err er) => Ok (Ok (tool_error (error_display er)))
       | Ok (Ok results) => Ok (Ok (tool_result (jobj [("suggestions", JArray ((fun r => JString (Search.title r)) <$> results))])))
       end, e')
  end.

Definition tool_list_sources (env : ToolEnv) : json :=
  tool_result (jobj [("sources", JArray ((fun m => jobj [("name", JString (m_name m)); ("title", JString (m_display_title m));
    ("language", JString (m_language m)); ("category", json_opt_str (m_category m)); ("entries", json_int (m_entry_count m));
    ("indexed", json_int (m_indexed_entries m)); ("index_status", JString (m_index_status m))]) <$> list_zim_metas (e_zims env)))]).

Definition tool_random (env : ToolEnv) (args : json) : ToolOut :=
  match fetch_random_article (e_articles env) (e_clock env) (e_pid env) (opt_str args "zim") with
  | Ok a => Ok (tool_result (jobj [("path", JString (ra_path a)); ("title", JString (ra_title a));
      ("snippet", JString (ra_snippet a)); ("zim", JString (ra_zim a))]))
  | Err er => Ok (tool_error (error_display er))
  end.

(** [chunk_text] returns for every text (see [Content]). *)
Definition tool_get_chunks (env : ToolEnv) (args : json) : ToolOut :=
  let? zim := req_str args "zim" in
  let? path := req_str args "path" in
  let '(size, overlap) := clamp_chunk_params (default 1000 (opt_u64 args "size")) (default 200 (opt_u64 args "overlap")) in
  match read_zim_text (e_open env zim) path with
  | Err er => Ok (tool_error (error_display er))
  | Ok t =>
      let cs := default [] (chunk_text t (Z.to_nat size) (Z.to_nat overlap)) in
      Ok (tool_result (jobj [("zim", JString zim); ("path", JString path); ("chunk_count", json_int (Z.of_nat (length cs)));
        ("chunks", JArray (chunk_json <$> cs))]))
  end.

Definition deep_article (env : ToolEnv) (r : SearchResult) : json :=
  let full := read_payload env (zim_name r) (Search.path r) 4000 in
  jobj [("title", JString (Search.title r)); ("path", JString (Search.path r)); ("zim", JString (zim_name r));
    ("score", json_f64 (score r)); ("snippet", JString (Search.snippet r));
    ("content", match full with Ok v => JString (Content.content v) | Err _ => JNull end);
    ("truncated", match full with Ok v => JBool (Content.truncated v) | Err _ => JNull end)].

(** The articles in the order their tasks end. *)
Definition joined (ready : list nat) (results : list SearchResult) : list SearchResult := omap (fun i => results !! i) ready.

Definition tool_deep_search (env : ToolEnv) (e : SearchEngine) (args : json) : may_panic ToolOut * SearchEngine :=
  match req_query_str args with
  | Err x => (Ok (Err x), e)
  | Ok query =>
      let max_results := Z.min (default 5 (opt_u64 args "max_results")) 10 in
      let p := mkParams (opt_str args "zim") (opt_str args "language") None (Some max_results) None false in
      let '(r, e') := search (e_search env) e query p in
      (match r with
       | Err pn => Err pn
       | Ok (Err er) => Ok (Ok (tool_error (error_display er)))
       | Ok (Ok results) =>
           let articles := deep_article env <$> joined (e_ready env) results in
           Ok (Ok (tool_result (jobj [("query", JString query); ("count", json_int (Z.of_nat (length articles)));
             ("articles", JArray articles)])))
       end, e')
  end.

Definition tool_article_languages (env : ToolEnv) (args : json) : ToolOut :=
  let? zim := req_str args "zim" in
  let? path := req_str args "path" in
  match interlanguage_json (e_qid env zim path) (e_links env zim) with
  | Ok v => Ok (tool_result v)
  | Err er => Ok (tool_error (error_display er))
  end.

Definition tool_list_collections (env : ToolEnv) : json :=
  match list_collections (e_fault env) (e_collections env) with
  | Err er => tool_error (error_display er)
  | Ok rows =>
      let id_to_name := zim_id_to_name_map (e_zims env) in
      tool_result (jobj [("collections", JArray ((fun r => jobj [("name", JString (co_name r)); ("label", JString (co_label r));
        ("is_favorite", JBool (co_is_favorite r));
        ("zims", JArray (JString <$> omap (fun id => id_to_name !! id) (co_zim_ids r)));
        ("created_at", JString (to_rfc3339 (co_created_at r)))]) <$> rows))])
  end.

Definition call_tool (env : ToolEnv) (e : SearchEngine) (name : string) (args : json) : may_panic ToolOut * SearchEngine :=
  if String.eqb name "search" then tool_search env e args
  else if String.eqb name "read" then (Ok (tool_read env args), e)
  else if String.eqb name "suggest" then tool_suggest env e args
  else if String.eqb name "list_sources" then (Ok (Ok (tool_list_sources env)), e)
  else if String.eqb name "random" then (Ok (tool_random env args), e)
  else if String.eqb name "get_chunks" then (Ok (tool_get_chunks env args), e)
  else if String.eqb name "deep_search" then tool_deep_search env e args
  else if String.eqb name "article_languages" then (Ok (tool_article_languages env args), e)
  else if String.eqb name "list_collections" then (Ok (Ok (tool_list_collections env)), e)
  else (Ok (Err (-32601, "Unknown tool: " +:+ name)), e).

End Tools.

(** ** The advertised tools *)

Definition str_prop : json := jobj [("type", JString "string")].
Definition int_prop : json := jobj [("type", JString "integer")].
Definition described (ty d : string) : json := jobj [("type", JString ty); ("description", JString d)].

Definition tool_schema (name description : string) (properties : list (string * json)) (required : option (list string)) : json :=
  jobj [("name", JString name); ("description", JString description);
    ("inputSchema", jobj ([("type", JString "object"); ("properties", jobj properties)]
       ++ match required with Some l => [("required", JArray (JString <$> l))] | None => [] end))].

Definition tool_definitions : list json :=
  let search_default_limit := default 10 (as_u64 (default_value KEY_SEARCH_DEFAULT_LIMIT)) in
  [tool_schema "search" "Search across all ZIM archives. Hybrid by default (full-text + fuzzy); set mode to use one engine only."
     [("query", described "string" "Search query"); ("zim", described "string" "Filter to specific ZIM");
      ("language", described "string" "Filter by language");
      ("mode", described "string" "Engine: fts (full-text), trgm (fuzzy/prefix), vector (semantic), or hybrid (default)");
      ("limit", described "integer" ("Max results (default " +:+ pretty search_default_limit +:+ ")"))] (Some ["query"]);
   tool_schema "read" "Read an article as plain text"
     [("zim", described "string" "ZIM name"); ("path", described "string" "Article path");
      ("max_length", described "integer" ("Max characters (default " +:+ pretty DEFAULT_READ_MAX_LENGTH +:+ ")"))] (Some ["zim"; "path"]);
   tool_schema "suggest" "Title autocomplete"
     [("query", str_prop); ("zim", str_prop);
      ("limit", described "integer" ("Max suggestions (default " +:+ pretty SUGGEST_DEFAULT_LIMIT +:+ " max " +:+ pretty SUGGEST_MAX_LIMIT +:+ ")"))]
     (Some ["query"]);
   tool_schema "list_sources" "List all available ZIM sources" [] None;
   tool_schema "random" "Get a random article" [("zim", str_prop)] None;
   tool_schema "get_chunks" "Get RAG-ready text chunks from an article"
     [("zim", str_prop); ("path", str_prop); ("size", int_prop); ("overlap", int_prop)] (Some ["zim"; "path"]);
   tool_schema "deep_search" "Search and auto-read top results for full context"
     [("query", str_prop); ("zim", str_prop); ("language", str_prop); ("max_results", int_prop)] (Some ["query"]);
   tool_schema "article_languages" "Find translations of an article via Q-ID index"
     [("zim", str_prop); ("path", str_prop)] (Some ["zim"; "path"]);
   tool_schema "list_collections" "List user collections. Returns the collection list as a JSON string in content[0].text." [] None].

(** ** Messages *)

Section Messages.

Context {Ua : UrlApi} {Cf : CaseFold} {Sf : ShowF64} {Sf32 : ShowF32} {Sj : SerdeJson}.
Context {Za : ZimApi} {Df : Deformat} {Hi : HashIter string ZimMeta} {Co : Collation} {Rf : Rfc3339}.

Definition dispatch (env : ToolEnv) (e : SearchEngine) (method : string) (params : json) : may_panic ToolOut * SearchEngine :=
  if String.eqb method "initialize" then
    (Ok (Ok (jobj [("protocolVersion", JString PROTOCOL_VERSION); ("capabilities", jobj [("tools", jobj [])]);
       ("serverInfo", jobj [("name", JString "zimservice"); ("version", JString CARGO_PKG_VERSION)])])), e)
  else if String.eqb method "notifications/initialized" then (Ok (Ok JNull), e)
  else if String.eqb method "tools/list" then (Ok (Ok (jobj [("tools", JArray tool_definitions)])), e)
  else if String.eqb method "tools/call" then
    call_tool env e (default EmptyString (opt_str params "name")) (default (jobj []) (get params "arguments"))
  else if String.eqb method "ping" then (Ok (Ok (jobj [])), e)
  else (Ok (Err (-32601, "Method not found: " +:+ method)), e).

Definition error_reply (id : json) (code : Z) (message : string) : json :=
  jobj [("jsonrpc", JString "2.0"); ("id", id); ("error", jobj [("code", json_int code); ("message", JString message)])].

Definition result_reply (id result : json) : json :=
  jobj [("jsonrpc", JString "2.0"); ("id", id); ("result", result)].

Definition bad_id (id : option json) : bool :=
  match id with Some (JBool _) | Some (JObject _) | Some (JArray _) => true | _ => false end.

Definition opt_json (o : option json) : json := default JNull o.

(** The response to a parsed message. *)
Definition respond (env : ToolEnv) (e : SearchEngine) (msg : json) : may_panic (option json) * SearchEngine :=
  let id := get msg "id" in
  match get msg "method" ≫= as_str with
  | Some method =>
      if bad_id id then
        (Ok (Some (error_reply JNull (-32600) "Invalid Request: id must be a String, Number, or Null (JSON-RPC 2.0)")), e)
      else
        let '(r, e') := dispatch env e method (default (jobj []) (get msg "params")) in
        (match r with
         | Err pn => Err pn
         | Ok out =>
             Ok (match id with
                 | None => None
                 | Some i => Some (match out with Ok v => result_reply i v | Err (code, m) => error_reply i code m end)
                 end)
         end, e')
  | None =>
      (Ok (Some (error_reply (opt_json id) (-32600) "Invalid Request: expected a JSON-RPC 2.0 request or notification")), e)
  end.

Definition parse_error (m : string) : json := error_reply JNull (-32700) ("Parse error: " +:+ m).

(** One line: nothing for a blank one, else the reply, if any. *)
Definition answer_line (env : ToolEnv) (e : SearchEngine) (line : string) : may_panic (option json) * SearchEngine :=
  let line := trim line in
  if str_is_empty line then (Ok None, e)
  else match json_from_str line with
    | Err m => (Ok (Some (parse_error m)), e)
    | Ok msg => respond env e msg
    end.

Definition too_long : json := parse_error ("line exceeds " +:+ pretty MCP_MAX_LINE_BYTES +:+ " bytes").

Definition reply_text (v : json) : string := json_to_string v +:+ String nl EmptyString.

Definition to_list {A} (o : option A) : list A := match o with Some a => [a] | None => [] end.

(** How a session ends. *)
Inductive SessionEnd := Closed | Failing (e : Error) | Panics | OutOfFuel.

(** The loop: [envs n] is what the n-th line meets; the replies in order. *)
Fixpoint run_io (fuel : nat) (envs : nat -> ToolEnv) (n : nat) (e : SearchEngine) (s : Stream) : list string * SessionEnd :=
  match fuel with
  | O => ([], OutOfFuel)
  | S fuel =>
      match read_capped_line s MCP_MAX_LINE_BYTES with
      | (Err er, _) =>
          if invalid_data er then ([reply_text too_long], Closed) else ([], Failing (Mcp ("stdin read: " +:+ io_text er)))
      | (Ok None, _) => ([], Closed)
      | (Ok (Some line), s') =>
          match answer_line (envs n) e line with
          | (Err _, _) => ([], Panics)
          | (Ok r, e') =>
              let '(out, fin) := run_io fuel envs (S n) e' s' in
              ((reply_text <$> to_list r) ++ out, fin)
          end
      end
  end.

End Messages.

(** ** Lines do not depend on chunks *)

Definition bytes_left (chunks : list string) : string := foldr String.append EmptyString chunks.

(** The next line of a text, and the rest. *)
Definition next_line (max_bytes : Z) (s : string) (fin : option IoError) : result IoError (option string) * string :=
  match line_end s with
  | Some n => if max_bytes <? Z.of_nat n then (Err (line_exceeds max_bytes), s) else (Ok (Some (from_utf8_lossy (str_take n s))), str_drop n s)
  | None =>
      if max_bytes <? str_len s then (Err (line_exceeds max_bytes), s)
      else match fin with
        | Some e => (Err e, s)
        | None => (Ok (if str_is_empty s then None else Some (from_utf8_lossy s)), EmptyString)
        end
  end.

Lemma line_end_bound s n : line_end s = Some n -> (0 < n <= String.length s)%nat.
Proof.
  revert n. induction s as [|c s IH]; intros n; cbn; [done|]. destruct (Ascii.eqb c nl); [intros [= <-]; lia|].
  destruct (line_end s) as [m|]; [|done]. intros [= <-]. specialize (IH m eq_refl). lia.
Qed.

Lemma line_end_app a b : line_end (a +:+ b) =
  match line_end a with Some n => Some n | None => Nat.add (String.length a) <$> line_end b end.
Proof.
  induction a as [|c a IH]; cbn; [by destruct (line_end b)|]. destruct (Ascii.eqb c nl); [done|]. rewrite IH.
  destruct (line_end a); [done|]. by destruct (line_end b).
Qed.

Lemma prefix_take_app n a b : (n <= String.length a)%nat -> str_take n (a +:+ b) = str_take n a.
Proof. revert a. induction n as [|n IH]; intros [|c a]; cbn; intros Hn; try done; [lia|]. rewrite IH by lia. done. Qed.

Lemma prefix_drop_app n a b : (n <= String.length a)%nat -> str_drop n (a +:+ b) = str_drop n a +:+ b.
Proof. revert a. induction n as [|n IH]; intros [|c a]; cbn; intros Hn; try done; [lia|]. by rewrite IH by lia. Qed.

Lemma str_take_plus n a b : str_take (String.length a + n) (a +:+ b) = a +:+ str_take n b.
Proof. induction a as [|c a IH]; cbn; [done|]. by rewrite IH. Qed.

Lemma str_drop_plus n a b : str_drop (String.length a + n) (a +:+ b) = str_drop n b.
Proof. induction a as [|c a IH]; cbn; done. Qed.

Lemma bytes_consume chunk n rest : bytes_left (consume chunk n rest) = str_drop n chunk +:+ bytes_left rest.
Proof. unfold consume. by destruct (str_drop n chunk). Qed.

Lemma consume_ne chunk n rest : Forall (fun c => c <> EmptyString) rest -> Forall (fun c => c <> EmptyString) (consume chunk n rest).
Proof. intros Hr. unfold consume. destruct (str_drop n chunk); cbn; [done|]. by constructor. Qed.

Lemma byte_len_app a b : str_len (a +:+ b) = str_len a + str_len b.
Proof. rewrite !str_len_length, str_length_app. lia. Qed.

(** Reading from chunks is reading from their text. *)
Lemma read_from_next max_bytes buf chunks fin : Forall (fun c => c <> EmptyString) chunks -> line_end buf = None ->
  str_len buf <= max_bytes ->
  exists r chunks', read_from max_bytes buf chunks fin = (r, chunks') /\
    fst (next_line max_bytes (buf +:+ bytes_left chunks) fin) = r /\
    (is_ok r = true -> snd (next_line max_bytes (buf +:+ bytes_left chunks) fin) = bytes_left chunks' /\
      Forall (fun c => c <> EmptyString) chunks').
Proof.
  revert buf. induction chunks as [|chunk chunks IH]; intros buf Hne Hb Hlen.
  - cbn. rewrite str_app_nil_r. unfold next_line. rewrite Hb, (proj2 (Z.ltb_ge max_bytes (str_len buf))) by lia.
    destruct fin; eexists _, _; split; [done| |done|]; split; done.
  - inversion_clear Hne as [|? ? Hc Hcs]. cbn [read_from bytes_left foldr]. fold (bytes_left chunks).
    destruct chunk as [|c0 chunk0]; [done|]. set (chunk := String c0 chunk0) in *.
    assert (Hall : line_end (buf +:+ chunk +:+ bytes_left chunks) =
      match line_end chunk with Some n => Some (String.length buf + n)%nat
      | None => (fun n => String.length buf + (String.length chunk + n))%nat <$> line_end (bytes_left chunks) end).
    { rewrite !line_end_app, Hb. destruct (line_end chunk); [done|]. by destruct (line_end (bytes_left chunks)). }
    destruct (line_end chunk) as [n|] eqn:Hn.
    + pose proof (line_end_bound _ _ Hn) as Hbd. unfold next_line. rewrite Hall.
      assert (Hl : str_len (buf +:+ str_take n chunk) = Z.of_nat (String.length buf + n)).
      { rewrite str_len_length, str_length_app, str_take_length. lia. }
      rewrite Hl. destruct (max_bytes <? Z.of_nat (String.length buf + n)); eexists _, _; (split; [done|]); [done|].
      rewrite str_take_plus, str_drop_plus, prefix_take_app, prefix_drop_app by lia. split; [done|]. intros _.
      split; [by rewrite bytes_consume|by apply consume_ne].
    + rewrite str_take_all by lia. destruct (Z.ltb_spec max_bytes (str_len (buf +:+ chunk))) as [Hgt|Hle].
      * eexists _, _. split; [done|]. split; [|done]. unfold next_line. rewrite Hall. rewrite str_len_length, str_length_app in Hgt.
        destruct (line_end (bytes_left chunks)) as [n|] eqn:Hrest; cbn [fmap option_fmap option_map].
        -- rewrite (proj2 (Z.ltb_lt _ _)) by lia. done.
        -- rewrite !byte_len_app, !str_len_length, (proj2 (Z.ltb_lt _ _)) by lia. done.
      * rewrite <- str_app_assoc. apply IH; [done| |done]. rewrite line_end_app, Hb, Hn. done.
Qed.

(** Two streams with the same bytes and the same end. *)
Definition same_bytes (s s' : Stream) : Prop := bytes_left (s_chunks s) = bytes_left (s_chunks s') /\ s_end s = s_end s'.

Definition chunks_ok (s : Stream) : Prop := Forall (fun c => c <> EmptyString) (s_chunks s).

Lemma read_line_same s s' max_bytes : 0 <= max_bytes -> chunks_ok s -> chunks_ok s' -> same_bytes s s' ->
  fst (read_capped_line s max_bytes) = fst (read_capped_line s' max_bytes) /\
  (is_ok (fst (read_capped_line s max_bytes)) = true ->
    chunks_ok (snd (read_capped_line s max_bytes)) /\ chunks_ok (snd (read_capped_line s' max_bytes)) /\
    same_bytes (snd (read_capped_line s max_bytes)) (snd (read_capped_line s' max_bytes))).
Proof.
  intros Hm Hs Hs' [Hb He]. unfold read_capped_line.
  destruct (read_from_next max_bytes EmptyString (s_chunks s) (s_end s) Hs eq_refl Hm) as (r & cs & -> & Hr & Hok).
  destruct (read_from_next max_bytes EmptyString (s_chunks s') (s_end s') Hs' eq_refl Hm) as (r' & cs' & -> & Hr' & Hok').
  cbn [String.append] in Hr, Hr', Hok, Hok'. rewrite Hb, He in Hr, Hok. rewrite Hr in Hr'. subst r'. split; [done|]. cbn. intros Hk.
  destruct (Hok Hk) as [E1 F1], (Hok' Hk) as [E2 F2]. split; [done|]. split; [done|]. split; [|done]. by rewrite E1 in E2.
Qed.

Lemma next_line_shorter max_bytes s fin line : 
  fst (next_line max_bytes s fin) = Ok (Some line) -> (String.length (snd (next_line max_bytes s fin)) < String.length s)%nat.
Proof.
  unfold next_line. destruct (line_end s) as [n|] eqn:Hn.
  - pose proof (line_end_bound _ _ Hn). destruct (_ <? _); [done|]. intros _. cbn. rewrite str_drop_length. lia.
  - destruct (_ <? _); [done|]. destruct fin; [done|]. cbn. destruct s; cbn; [done|]. lia.
Qed.

Section Session.

Context {Ua : UrlApi} {Cf : CaseFold} {Sf : ShowF64} {Sf32 : ShowF32} {Sj : SerdeJson}.
Context {Za : ZimApi} {Df : Deformat} {Hi : HashIter string ZimMeta} {Co : Collation} {Rf : Rfc3339}.

(** C17: a session depends on the bytes it receives, not on how they arrive.
    However the input is cut into chunks, the replies and the end of the
    session are the same, the line limit included; and with as many rounds as
    there are bytes, and one more, the session always comes to an end. *)
Theorem session_ignores_chunks fuel (envs : nat -> ToolEnv) n e s s' :
  chunks_ok s -> chunks_ok s' -> same_bytes s s' -> (String.length (bytes_left (s_chunks s)) < fuel)%nat ->
  run_io fuel envs n e s = run_io fuel envs n e s' /\ snd (run_io fuel envs n e s) <> OutOfFuel.
Proof.
  revert n e s s'. induction fuel as [|fuel IH]; intros n e s s' Hs Hs' Hb Hf; [lia|]. cbn [run_io].
  destruct (read_line_same s s' MCP_MAX_LINE_BYTES ltac:(done) Hs Hs' Hb) as [Hr Hok].
  assert (Hshort : forall line, fst (read_capped_line s MCP_MAX_LINE_BYTES) = Ok (Some line) ->
    (String.length (bytes_left (s_chunks (snd (read_capped_line s MCP_MAX_LINE_BYTES)))) < String.length (bytes_left (s_chunks s)))%nat).
  { intros line. unfold read_capped_line.
    destruct (read_from_next MCP_MAX_LINE_BYTES EmptyString (s_chunks s) (s_end s) Hs eq_refl ltac:(done)) as (r & cs & -> & H1 & H2).
    cbn [fst snd s_chunks String.append] in H1, H2 |- *. intros ->. destruct (H2 eq_refl) as [<- _]. by eapply next_line_shorter. }
  destruct (read_capped_line s MCP_MAX_LINE_BYTES) as [r s1], (read_capped_line s' MCP_MAX_LINE_BYTES) as [r' s1'].
  cbn in Hr, Hok, Hshort. subst r'. destruct r as [[line|]|er]; [|done|by destruct (invalid_data er)].
  destruct (Hok eq_refl) as (C1 & C2 & C3). destruct (answer_line (envs n) e line) as [[r|] e']; [|done].
  specialize (Hshort line eq_refl). destruct (IH (S n) e' s1 s1' C1 C2 C3 ltac:(lia)) as [E F].
  rewrite <- E. destruct (run_io fuel envs (S n) e' s1) as [out fin]. done.
Qed.




(** What a definition advertises: the name and the required arguments. *)
Definition advertised (d : json) : string * list string :=
  (default EmptyString (get d "name" ≫= as_str),
   match get d "inputSchema" ≫= (fun s => get s "required") with Some (JArray l) => omap as_str l | _ => [] end).

Lemma advertised_tools : advertised <$> tool_definitions =
  [("search", ["query"]); ("read", ["zim"; "path"]); ("suggest", ["query"]); ("list_sources", []); ("random", []);
   ("get_chunks", ["zim"; "path"]); ("deep_search", ["query"]); ("article_languages", ["zim"; "path"]); ("list_collections", [])].
Proof. vm_compute. reflexivity. Qed.

(** The arguments that are missing, or too long. *)
Definition lacking (args : json) (required : list string) : bool :=
  existsb (fun k => match opt_str args k with
    | None => true
    | Some s => String.eqb k "query" && (MCP_MAX_QUERY_CHARS <? Z.of_nat (char_count s))
    end) required.

Lemma req_str_cases args k : req_str args k = match opt_str args k with Some s => Ok s | None => Err (-32602, "missing required argument '" +:+ k +:+ "'") end.
Proof. done. Qed.

Lemma req_query_cases args : is_err (req_query_str args) = lacking args ["query"].
Proof.
  unfold req_query_str, lacking. rewrite req_str_cases. cbn [existsb]. destruct (opt_str args "query"); cbn; [|done].
  by destruct (_ <? _).
Qed.

Lemma zim_path_lacking args {A} (k : string -> string -> result (Z * string) A) : (forall z p, is_err (k z p) = false) ->
  is_err (let? z := req_str args "zim" in let? p := req_str args "path" in k z p) = lacking args ["zim"; "path"].
Proof.
  intros Hk. rewrite !req_str_cases. unfold lacking. cbn [existsb].
  destruct (opt_str args "zim"); cbn; [|done]. destruct (opt_str args "path"); cbn; [|done]. by rewrite Hk.
Qed.

(** The tools are what the list says.  A call is refused as a protocol
    error exactly when the name is not in the advertised list, or an argument
    its schema requires is missing or not a string, or the query is too long;
    every other call has a result. *)
Theorem tools_match_their_schema env e name args r e' : call_tool env e name args = (Ok r, e') ->
  is_err r = match obj_get name (advertised <$> tool_definitions) with
             | Some required => lacking args required
             | None => true
             end.
Proof.
  rewrite advertised_tools. unfold call_tool. intros H.
  assert (Hq : forall (run : string -> may_panic ToolOut * SearchEngine),
    (forall q r1 e1, run q = (Ok r1, e1) -> is_err r1 = false) ->
    match req_query_str args with Ok q => run q | Err x => (Ok (Err x), e) end = (Ok r, e') -> is_err r = lacking args ["query"]).
  { intros run Hrun Hr. rewrite <- req_query_cases. destruct (req_query_str args) as [q|]; [by apply Hrun in Hr|by injection Hr as <- _]. }
  repeat match type of H with
  | context [String.eqb name ?s] => destruct (String.eqb_spec name s) as [->|?]; [cbn [obj_get String.eqb Ascii.eqb Bool.eqb]|]
  end.
  - eapply Hq; [|exact H]. intros q r1 e1. cbn. destruct (search _ _ _ _) as [[[]|] ?]; by intros [= <- _].
  - injection H as <- _. apply zim_path_lacking. intros z p. by destruct (read_payload _ _ _ _).
  - eapply Hq; [|exact H]. intros q r1 e1. cbn. destruct (suggest _ _ _ _ _) as [[[]|] ?]; by intros [= <- _].
  - by injection H as <- _.
  - injection H as <- _. unfold tool_random. by destruct (fetch_random_article _ _ _ _).
  - injection H as <- _. apply zim_path_lacking. intros z p. destruct (clamp_chunk_params _ _). by destruct (read_zim_text _ _).
  - eapply Hq; [|exact H]. intros q r1 e1. cbn. destruct (search _ _ _ _) as [[[]|] ?]; by intros [= <- _].
  - injection H as <- _. apply zim_path_lacking. intros z p. by destruct (interlanguage_json _ _).
  - by injection H as <- _.
  - injection H as <- _. cbn [obj_get]. rewrite !(proj2 (String.eqb_neq _ name)) by congruence. done.
Qed.

End Session.

(** ** A small session *)

#[local] Existing Instances text_url ascii_fold show_zero show_any32 list_zim plain_text.
#[local] Instance session_iter : HashIter string ZimMeta := map_order string ZimMeta.
#[local] Instance session_collation : Collation := {| text_le _ _ := true |}.
#[local] Instance session_time : Rfc3339 := {| to_rfc3339 _ := "2024-01-01T00:00:00+00:00" |}.

(** Two messages, written as words. *)
#[local] Instance word_json : SerdeJson := {|
  json_from_str s :=
    if String.eqb s "ping" then Ok (jobj [("method", JString "ping"); ("id", json_int 1)])
    else if String.eqb s "note" then Ok (jobj [("method", JString "notifications/cancelled")])
    else Err "expected value at line 1 column 1";
  json_to_string v := match get v "result" with Some _ => "result" | None => "error" end
|}.

Definition session_env : ToolEnv :=
  mkToolEnv (env_with [] []) (mkManager ∅ ∅ 0 ∅) (fun _ => Err (Zim "no archive")) (fun _ _ => Ok None) (fun _ => Ok []) 0 1
    (fun _ _ => Ok None) (fun _ _ => Ok []) NoFault (mkCollections ∅ 1) [].

Definition in_lines (l : list string) : string := foldr (fun a b => a +:+ String nl b) EmptyString l.

Lemma session_ignores_chunks_witness :
  let s := mkStream [in_lines ["ping"; "note"; "what"]] None in
  let s' := mkStream ["pi"; "ng" +:+ String nl "no"; "te" +:+ String nl "wh"; "at"; String nl EmptyString] None in
  run_io 20 (fun _ => session_env) 0 fresh_engine s = run_io 20 (fun _ => session_env) 0 fresh_engine s' /\
  snd (run_io 20 (fun _ => session_env) 0 fresh_engine s) <> OutOfFuel.
Proof.
  apply session_ignores_chunks.
  - repeat constructor; discriminate.
  - repeat constructor; discriminate.
  - split; reflexivity.
  - apply Nat.ltb_lt. reflexivity.
Defined.

(** Its replies: a result for the ping, nothing for the notification, a parse
    error for the rest. *)
Example session_replies :
  run_io 20 (fun _ => session_env) 0 fresh_engine (mkStream [in_lines ["ping"; "note"; "what"]] None) =
  ([in_lines ["result"]; in_lines ["error"]], Closed).
Proof. vm_compute. reflexivity. Qed.

Lemma tools_match_their_schema_witness :
  is_err (tool_read session_env (jobj [("zim", JString "wiki")])) = true.
Proof.
  etransitivity.
  - apply (tools_match_their_schema session_env fresh_engine "read" (jobj [("zim", JString "wiki")])
      (tool_read session_env (jobj [("zim", JString "wiki")])) fresh_engine). reflexivity.
  - rewrite advertised_tools. reflexivity.
Defined.

(** A reply to a message without a method repeats an id that the check above
    would have refused. *)
Example bad_id_is_echoed :
  exists v e', respond session_env fresh_engine (jobj [("id", JBool true)]) = (Ok (Some v), e') /\ get v "id" = Some (JBool true).
Proof. eexists _, _. split; reflexivity. Qed.

(** When all the reading tasks end, every result is in the list once. *)
Lemma joined_permutation ready results : ready ≡ₚ seq 0 (length results) -> joined ready results ≡ₚ results.
Proof.
  intros Hp. transitivity (joined (seq 0 (length results)) results).
  { unfold joined. by rewrite Hp. }
  assert (H : forall k l, joined (seq (length k) (length l)) (k ++ l) = l).
  { intros k l. revert k. induction l as [|a l IH]; intros k; [done|]. unfold joined. cbn.
    rewrite list_lookup_middle by done. f_equal. specialize (IH (k ++ [a])). rewrite length_app in IH. cbn in IH.
    rewrite <- app_assoc in IH. cbn in IH. by rewrite Nat.add_comm in IH. }
  pose proof (H [] results) as E. cbn [length app] in E. by rewrite E.
Qed.

(** But in the order in which they end: the best match can come last. *)
Example deep_search_loses_the_ranking (a b : SearchResult) : joined [1%nat; 0%nat] [a; b] = [b; a].
Proof. reflexivity. Qed.
