(* ===== verification/Notify.v ===== *)
(** * Notify: cache invalidation between processes

    [src/db/notify.rs]: the listener's session with its reconnect pacing and
    status, the bump channels and their subscribers, and the supervisors of
    background tasks here and in [src/startup/mod.rs].  The listener and its
    subscribers run beside the sessions that write: [nstep] is one step of any
    of them.  Per channel, [db_version] counts the committed writes and
    [cache_version] is the count the cache was last loaded at; a load is the
    composition root's action, which reads everything and later installs what
    it read, or fails. *)

From S2P Require Import Prelude RustStr.

Definition SETTINGS_CHANNEL : string := "zimservice_settings".
Definition CATALOG_CHANNEL : string := "zimservice_catalog".

(** ** Pacing (milliseconds) *)

Definition INITIAL_BACKOFF : Z := 1000.
Definition MAX_BACKOFF : Z := 30000.

Definition next_backoff (current : Z) : Z :=
  let doubled := current * 2 in if MAX_BACKOFF <? doubled then MAX_BACKOFF else doubled.

Record ReconnectBackoff := mkBackoff { current : Z }.

Definition backoff_new : ReconnectBackoff := mkBackoff INITIAL_BACKOFF.
Definition backoff_reset (b : ReconnectBackoff) : ReconnectBackoff := mkBackoff INITIAL_BACKOFF.
Definition backoff_advance (b : ReconnectBackoff) : Z * ReconnectBackoff := (current b, mkBackoff (next_backoff (current b))).

(** ** Status *)

Inductive ListenerState := Connected | Reconnecting.

Record StatusInner := mkStatus {
  n_state : ListenerState;
  settings_notifications : Z;
  catalog_notifications : Z;
  last_settings_at : option Z;
  last_catalog_at : option Z;
  resyncs : Z;
  disconnects : Z
}.

Definition status_default : StatusInner := mkStatus Reconnecting 0 0 None None 0 0.

Definition set_state (l : ListenerState) (s : StatusInner) : StatusInner :=
  mkStatus l (settings_notifications s) (catalog_notifications s) (last_settings_at s) (last_catalog_at s) (resyncs s) (disconnects s).
Definition mark_connected : StatusInner -> StatusInner := set_state Connected.
Definition mark_reconnecting : StatusInner -> StatusInner := set_state Reconnecting.
Definition note_settings_notification (now : Z) (s : StatusInner) : StatusInner :=
  mkStatus (n_state s) (settings_notifications s + 1) (catalog_notifications s) (Some now) (last_catalog_at s) (resyncs s) (disconnects s).
Definition note_catalog_notification (now : Z) (s : StatusInner) : StatusInner :=
  mkStatus (n_state s) (settings_notifications s) (catalog_notifications s + 1) (last_settings_at s) (Some now) (resyncs s) (disconnects s).
Definition note_resync (s : StatusInner) : StatusInner :=
  mkStatus (n_state s) (settings_notifications s) (catalog_notifications s) (last_settings_at s) (last_catalog_at s) (resyncs s + 1) (disconnects s).
Definition note_disconnect (s : StatusInner) : StatusInner :=
  mkStatus Reconnecting (settings_notifications s) (catalog_notifications s) (last_settings_at s) (last_catalog_at s) (resyncs s) (disconnects s + 1).

(** ** Channels and subscribers *)

(** A load: none, one that has not read yet, or one that has read the version
    given and not installed it. *)
Inductive Load := Idle | Starting | HasRead (version : Z).

(** [bump]: the value in the watch channel; [seen]: the one its subscriber took
    last; [loading]: its action; [failed]: the last one failed. *)
Record Channel := mkChannel {
  db_version : Z;
  cache_version : Z;
  bump : Z;
  seen : Z;
  loading : Load;
  failed : bool
}.

Definition write_committed (c : Channel) : Channel :=
  mkChannel (db_version c + 1) (cache_version c) (bump c) (seen c) (loading c) (failed c).

(** [bump += 1; tx.send_replace(bump)]. *)
Definition send_bump (c : Channel) : Channel :=
  mkChannel (db_version c) (cache_version c) (bump c + 1) (seen c) (loading c) (failed c).

(** [run_on_bumps]: wait for a value not seen yet and take the latest; then the
    action, in its two halves. *)
Definition take_bump (c : Channel) : Channel :=
  match loading c with
  | Idle => if bump c =? seen c then c else mkChannel (db_version c) (cache_version c) (bump c) (bump c) Starting false
  | _ => c
  end.

Definition action_reads (c : Channel) : Channel :=
  match loading c with
  | Starting => mkChannel (db_version c) (cache_version c) (bump c) (seen c) (HasRead (db_version c)) (failed c)
  | _ => c
  end.

Definition action_ends (ok : bool) (c : Channel) : Channel :=
  match loading c with
  | Idle => c
  | Starting => if ok then c else mkChannel (db_version c) (cache_version c) (bump c) (seen c) Idle true
  | HasRead v =>
      if ok then mkChannel (db_version c) v (bump c) (seen c) Idle false
      else mkChannel (db_version c) (cache_version c) (bump c) (seen c) Idle true
  end.

(** ** The listener *)

Inductive Chan := SettingsChan | CatalogChan.

#[export] Instance Chan_eq_dec : EqDecision Chan.
Proof. solve_decision. Defined.

Definition chan_name (c : Chan) : string := match c with SettingsChan => SETTINGS_CHANNEL | CatalogChan => CATALOG_CHANNEL end.

(** [Live]: the notifications not received yet, by channel name; [Lost]: gone,
    and the listener does not know.  [l_unsent]: the writers whose write is in
    the database and whose [NOTIFY] is still to come; [l_missed]: the channels
    of a [NOTIFY] that failed or was left out, until the next one or the next
    connect. *)
Inductive Session := Down | Live (pending : list string) | Lost.

Record Listener := mkListener {
  l_session : Session;
  l_backoff : ReconnectBackoff;
  l_status : StatusInner;
  l_sleeps : list Z;
  l_settings : Channel;
  l_catalog : Channel;
  l_unsent : list (Z * Chan);
  l_missed : list Chan
}.

Definition channel_start : Channel := mkChannel 0 0 0 0 Idle false.
Definition listener_start : Listener := mkListener Down backoff_new status_default [] channel_start channel_start [] [].

Definition with_channels (s c : Channel) (l : Listener) : Listener :=
  mkListener (l_session l) (l_backoff l) (l_status l) (l_sleeps l) s c (l_unsent l) (l_missed l).

(** A connect, first or eager: both caches are to be loaded again. *)
Definition connected (status : StatusInner) (l : Listener) : Listener :=
  mkListener (Live []) (backoff_reset (l_backoff l)) (note_resync (mark_connected status)) (l_sleeps l)
    (send_bump (l_settings l)) (send_bump (l_catalog l)) (l_unsent l) [].

(** The sleep at the end of a round without a session. *)
Definition wait_backoff (l : Listener) : Listener :=
  let '(sleep, b) := backoff_advance (l_backoff l) in
  mkListener Down b (mark_reconnecting (l_status l)) (l_sleeps l ++ [sleep]) (l_settings l) (l_catalog l) (l_unsent l) (l_missed l).

(** One notification received. *)
Definition received (now : Z) (name : string) (rest : list string) (l : Listener) : Listener :=
  let b := backoff_reset (l_backoff l) in
  if String.eqb name SETTINGS_CHANNEL then
    mkListener (Live rest) b (note_settings_notification now (l_status l)) (l_sleeps l) (send_bump (l_settings l)) (l_catalog l)
      (l_unsent l) (l_missed l)
  else if String.eqb name CATALOG_CHANNEL then
    mkListener (Live rest) b (note_catalog_notification now (l_status l)) (l_sleeps l) (l_settings l) (send_bump (l_catalog l))
      (l_unsent l) (l_missed l)
  else mkListener (Live rest) b (l_status l) (l_sleeps l) (l_settings l) (l_catalog l) (l_unsent l) (l_missed l).

Definition on_chan (f : Channel -> Channel) (c : Chan) (l : Listener) : Listener :=
  match c with
  | SettingsChan => with_channels (f (l_settings l)) (l_catalog l) l
  | CatalogChan => with_channels (l_settings l) (f (l_catalog l)) l
  end.

(** The writers and the missed channels. *)
Definition with_writers (u : list (Z * Chan)) (m : list Chan) (l : Listener) : Listener :=
  mkListener (l_session l) (l_backoff l) (l_status l) (l_sleeps l) (l_settings l) (l_catalog l) u m.

(** The database delivers to the sessions that listen. *)
Definition deliver (name : string) (l : Listener) : Listener :=
  match l_session l with
  | Live pending =>
      mkListener (Live (pending ++ [name])) (l_backoff l) (l_status l) (l_sleeps l) (l_settings l) (l_catalog l) (l_unsent l)
        (l_missed l)
  | _ => l
  end.

(** A [NOTIFY] that went through. *)
Definition notified (c : Chan) (l : Listener) : Listener :=
  deliver (chan_name c) (with_writers (l_unsent l) (List.filter (fun m => negb (bool_decide (m = c))) (l_missed l)) l).

(** The writer [w] of an autocommit write is done with its follow-up: it sent
    the [NOTIFY], or that failed, or it returned before. *)
Definition follow_up (w : Z) (c : Chan) (ok : bool) (l : Listener) : Listener :=
  let l1 := with_writers (List.filter (fun x => negb (bool_decide (x = (w, c)))) (l_unsent l)) (l_missed l) l in
  if ok then notified c l1
  else if bool_decide ((w, c) ∈ l_unsent l) then with_writers (l_unsent l1) (c :: l_missed l1) l1 else l1.

Definition lose (l : Listener) : Listener :=
  match l_session l with
  | Live _ => mkListener Lost (l_backoff l) (l_status l) (l_sleeps l) (l_settings l) (l_catalog l) (l_unsent l) (l_missed l)
  | _ => l
  end.

Inductive NEvent :=
  | Commit (c : Chan)
  | Write (w : Z) (c : Chan)
  | FollowUp (w : Z) (c : Chan) (ok : bool)
  | Foreign (name : string)
  | LoseSession
  | ConnectAttempt (ok : bool)
  | TryRecv (now : Z) (eager : bool)
  | Take (c : Chan)
  | ActionRead (c : Chan)
  | ActionEnd (c : Chan) (ok : bool).

(** One step of [listen_loop], of a subscriber, or of the sessions around.
    [Commit] is a transaction whose last statement is the [NOTIFY] (a settings
    update, the seed); [Write] an autocommit statement (the catalog's rows, an
    upgraded password), whose [NOTIFY] is a best-effort [FollowUp].  [TryRecv]
    on a lost session reconnects at once, or fails. *)
Definition nstep (l : Listener) (e : NEvent) : Listener :=
  match e with
  | Commit c => notified c (on_chan write_committed c l)
  | Write w c => with_writers ((w, c) :: l_unsent l) (l_missed l) (on_chan write_committed c l)
  | FollowUp w c ok => follow_up w c ok l
  | Foreign name => if String.eqb name SETTINGS_CHANNEL || String.eqb name CATALOG_CHANNEL then l else deliver name l
  | LoseSession => lose l
  | ConnectAttempt ok =>
      match l_session l with
      | Down => if ok then connected (l_status l) l else wait_backoff l
      | _ => l
      end
  | TryRecv now eager =>
      match l_session l with
      | Live (name :: rest) => received now name rest l
      | Lost => if eager then connected (note_disconnect (l_status l)) l else wait_backoff l
      | _ => l
      end
  | Take c => on_chan take_bump c l
  | ActionRead c => on_chan action_reads c l
  | ActionEnd c ok => on_chan (action_ends ok) c l
  end.

Definition run_events (es : list NEvent) (l : Listener) : Listener := foldl nstep l es.

(** ** Supervision *)

(** [supervise] in [notify.rs]: each death report with the stop flag at its
    time; whether the die flag is raised. *)
Fixpoint supervise (reports : list (string * bool)) : option string :=
  match reports with
  | [] => None
  | (name, stopped) :: rest => if stopped : bool then supervise rest else Some name
  end.

(** [wait_for_task_failure]: at each poll, which tasks have finished and with
    what, and whether the stop flag is set after it.  The report and the
    tasks still owned. *)
Fixpoint finished_from {R} (done : string -> option R) (before tasks : list string) : option (string * R * list string) :=
  match tasks with
  | [] => None
  | t :: rest => match done t with Some r => Some (t, r, before ++ rest) | None => finished_from done (before ++ [t]) rest end
  end.

Definition finished {R} (done : string -> option R) (tasks : list string) : option (string * R * list string) :=
  finished_from done [] tasks.

Fixpoint wait_for_task_failure {R} (polls : list ((string -> option R) * bool)) (tasks : list string) :
    option (option (string * R) * list string) :=
  match polls with
  | [] => None
  | (done, stop) :: rest =>
      match finished done tasks with
      | Some (t, r, others) => Some (Some (t, r), others)
      | None => if stop : bool then Some (None, tasks) else wait_for_task_failure rest tasks
      end
  end.

Inductive ServeFailure := ServeError (e : string) | BackgroundTaskDied.

(** [finalize_serve_shutdown]: [survivors] is what the supervisor hands back,
    [None] when it panicked; the tasks aborted, and how the process exits. *)
Definition finalize_serve_shutdown (serve_result : result string unit) (survivors : option (list string)) (died : bool) :
    list string * result ServeFailure unit :=
  (default [] survivors,
   match serve_result with
   | Err e => Err (ServeError e)
   | Ok _ => if died then Err BackgroundTaskDied else Ok tt
   end).

(** ** No invalidation is lost *)

Definition fresh (c : Channel) : Prop := cache_version c = db_version c.































(** What happens when no more is written: the listener receives what is on its
    way, the subscribers end their loads, and load once more for a bump that
    waited. *)
Definition settle_events : list NEvent :=
  [ActionRead SettingsChan; ActionRead CatalogChan; ActionEnd SettingsChan true; ActionEnd CatalogChan true;
   Take SettingsChan; Take CatalogChan;
   ActionRead SettingsChan; ActionRead CatalogChan; ActionEnd SettingsChan true; ActionEnd CatalogChan true].

Definition drain (l : Listener) : list NEvent :=
  match l_session l with Live pending => replicate (length pending) (TryRecv 0 true) | _ => [] end ++ settle_events.








(** A [NOTIFY] that fails leaves the cache behind, with the session live and
    nothing on its way. *)
Example failed_notify_leaves_cache_behind :
  let l := run_events [ConnectAttempt true; Take CatalogChan; ActionRead CatalogChan; ActionEnd CatalogChan true; Write 1 CatalogChan;
                       FollowUp 1 CatalogChan false] listener_start in
  l_session l = Live [] /\ ~ fresh (l_catalog (run_events (drain l) l)).
Proof. by vm_compute. Qed.


(** A load that fails is not tried again: with the session live and nothing on
    its way, the cache stays behind. *)
Example failed_load_is_not_retried :
  let l := run_events [ConnectAttempt true; Take SettingsChan; ActionRead SettingsChan; ActionEnd SettingsChan true; Commit SettingsChan;
                       TryRecv 1 true; Take SettingsChan; ActionRead SettingsChan; ActionEnd SettingsChan false] listener_start in
  l_session l = Live [] /\ ~ fresh (l_settings (run_events (drain l) l)).
Proof. by vm_compute. Qed.

(** A session lost without an eager reconnect is not counted. *)
Example lost_session_is_not_counted :
  let l := run_events [ConnectAttempt true; LoseSession; TryRecv 1 false] listener_start in
  l_session l = Down /\ disconnects (l_status l) = 0.
Proof. by vm_compute. Qed.

(** ** The pacing *)

(** The delays that follow a delay, when every attempt fails. *)
Fixpoint delays (n : nat) (b : ReconnectBackoff) : list Z :=
  match n with O => [] | S n => let '(d, b') := backoff_advance b in d :: delays n b' end.

Lemma delays_from b n : INITIAL_BACKOFF <= current b <= MAX_BACKOFF ->
  Forall (fun d => INITIAL_BACKOFF <= d <= MAX_BACKOFF) (delays n b).
Proof.
  revert b. induction n as [|n IH]; intros [c] Hb; cbn; constructor; [done|]. apply IH. cbn in *. unfold next_backoff, INITIAL_BACKOFF, MAX_BACKOFF in *.
  destruct (Z.ltb_spec 30000 (c * 2)); lia.
Qed.

(** 1 s, doubling, and 30 s from the sixth attempt on. *)
Lemma delays_schedule n : delays (5 + n) backoff_new = [1000; 2000; 4000; 8000; 16000] ++ replicate n 30000.
Proof.
  cbn. do 5 f_equal. unfold next_backoff. cbn. induction n as [|n IH]; cbn; [done|]. f_equal. exact IH.
Qed.

Definition paced (l : Listener) : Prop :=
  INITIAL_BACKOFF <= current (l_backoff l) <= MAX_BACKOFF /\ Forall (fun d => INITIAL_BACKOFF <= d <= MAX_BACKOFF) (l_sleeps l).

Lemma nstep_paced l e : paced l -> paced (nstep l e).
Proof.
  intros [Hb Hs]. assert (Hw : paced (wait_backoff l)).
  { unfold paced, wait_backoff. cbn. rewrite Forall_app, Forall_singleton. unfold next_backoff, INITIAL_BACKOFF, MAX_BACKOFF in *.
    destruct (Z.ltb_spec 30000 (current (l_backoff l) * 2)); repeat split; try done; lia. }
  destruct e; cbn; unfold follow_up, notified, deliver, lose; cbn; repeat case_match; try done; try by destruct c.
  all: try (unfold received; repeat case_match; done).
Qed.

(** ** Supervision *)

(** The die flag is raised exactly by the first death before the stop. *)
Lemma supervise_first reports name : supervise reports = Some name <->
  exists before after, reports = before ++ (name, false) :: after /\ Forall (fun r => snd r = true) before.
Proof.
  induction reports as [|[n stopped] rest IH]; cbn.
  - split; [done|]. intros ([|] & ? & ? & _); done.
  - destruct stopped.
    + rewrite IH. split; [intros (b & a & -> & Hb); exists ((n, true) :: b), a; split; [done|by constructor]|].
      intros ([|x b] & a & E & Hb); cbn in E; simplify_eq. apply Forall_cons in Hb as [_ Hb]. by exists b, a.
    + split; [intros [= <-]; by exists [], rest|]. intros ([|x b] & a & E & Hb); cbn in E; simplify_eq; [done|].
      apply Forall_cons in Hb as [Hx _]. done.
Qed.

Lemma finished_from_perm {R} (done : string -> option R) before tasks t r others :
  finished_from done before tasks = Some (t, r, others) -> done t = Some r /\ t :: others ≡ₚ before ++ tasks.
Proof.
  revert before. induction tasks as [|x tasks IH]; intros before; cbn; [done|]. destruct (done x) as [r0|] eqn:E.
  - intros [= <- <- <-]. split; [done|]. by rewrite Permutation_middle.
  - intros H. destruct (IH _ H) as [H1 H2]. split; [done|]. rewrite H2. by rewrite <- app_assoc.
Qed.

(** The process' exit, from the polls of the supervisor: the flag is raised
    when it reports a task. *)
Definition serve_exit {R} (serve_result : result string unit) (polls : list ((string -> option R) * bool)) (tasks : list string)
    (flag_raised : bool) : option (list string * result ServeFailure unit) :=
  (fun '(report, survivors) =>
     finalize_serve_shutdown serve_result (Some survivors) (flag_raised || bool_decide (is_Some report)))
  <$> wait_for_task_failure polls tasks.

(** A background task that ends takes the server down with it.  The
    supervisor watches the tasks until the first poll that finds one finished,
    or a stop.  Then the process exits with success exactly when the server
    did, no task had finished and the die flag was not raised, and every task
    that had not finished is aborted, none forgotten and none twice. *)
Theorem task_death_ends_the_server {R} (polls : list ((string -> option R) * bool)) tasks serve_result flag aborted exit :
  serve_exit serve_result polls tasks flag = Some (aborted, exit) ->
  (exit = Ok tt <-> is_ok serve_result = true /\ flag = false /\ aborted = tasks) /\
  (aborted = tasks \/ exists t done stop, (done, stop) ∈ polls /\ is_Some (done t) /\ t :: aborted ≡ₚ tasks).
Proof.
  unfold serve_exit. assert (Hlen : forall t l, t :: l ≡ₚ tasks -> l <> tasks).
  { intros t l Hp ->. apply Permutation_length in Hp. cbn in Hp. lia. }
  induction polls as [|[dn stop] polls IH]; cbn; [done|]. destruct (finished dn tasks) as [[[t r] others]|] eqn:Ef; cbn.
  - destruct (finished_from_perm _ _ _ _ _ _ Ef) as [Hd Hp]. cbn [app] in Hp. intros [= <- <-]. rewrite orb_true_r. split.
    + destruct serve_result; (split; [done|]); intros (_ & _ & E); by apply Hlen in Hp.
    + right. exists t, dn, stop. split; [by left|]. split; [by eexists|done].
  - destruct stop; cbn.
    + intros [= <- <-]. rewrite orb_false_r. split; [|by left]. destruct serve_result, flag; naive_solver.
    + intros H. destruct (IH H) as [H1 [?|(t & d & s & Hin & H2)]]; (split; [done|]); [by left|right]. exists t, d, s. split; [by right|done].
Qed.

Lemma task_death_ends_the_server_witness :
  let polls := [((fun _ => None : option unit), false); ((fun t => if String.eqb t "download-poller" then Some tt else None), false)] in
  let tasks := ["zim-watcher"; "download-poller"; "auto-embed"; "trgm-probe"] in
  (Err BackgroundTaskDied = Ok tt <->
    is_ok (Ok tt : result string unit) = true /\ false = false /\ ["zim-watcher"; "auto-embed"; "trgm-probe"] = tasks) /\
  (["zim-watcher"; "auto-embed"; "trgm-probe"] = tasks \/ exists t done stop, (done, stop) ∈ polls /\ is_Some (done t) /\
    t :: ["zim-watcher"; "auto-embed"; "trgm-probe"] ≡ₚ tasks).
Proof. intros polls tasks. apply (task_death_ends_the_server polls tasks (Ok tt) false). vm_compute. reflexivity. Defined.
