(* ===== verification/Migrate.v ===== *)
(** * Migrate: the schema migrations

    [src/db/migrate.rs]: the start-up migrations under their advisory lock, and
    the removal of invalid indexes.  A run is a program: a tree of the
    statements it sends, each continued by its reply.  [perform] is what the
    database answers; [step] interleaves the statements of any number of
    processes, of this release or of earlier ones, with statements that fail,
    replies that are lost and sessions that die.  The scripts' effect, the
    contents of the embedded files and [md5] are parameters. *)

From S2P Require Import Prelude RustStr Errors.

(** The names in [MIGRATIONS]; their contents are embedded at build time. *)
Definition MIGRATION_FILES : list string :=
  ["001_initial.sql"; "002_fixes.sql"; "003_active_downloads_unique.sql"; "004_drop_zims_uuid.sql";
   "006_seeding_visibility.sql"; "007_articles_embedded_partial.sql"; "008_articles_title_indexes.sql";
   "009_articles_title_index_dedup.sql"; "010_embedding_partial_index_and_download_sort.sql";
   "011_downloads_active_name_unique.sql"; "012_articles_staging_zim_id.sql"; "013_downloads_status_updated_index.sql";
   "014_drop_dead_schema.sql"; "015_zim_content_digest.sql"; "016_drop_ivfflat_threshold_setting.sql";
   "017_embed_claim_index.sql"; "018_torrent_enabled_opt_in.sql"].

Definition MIGRATIONS (file : string -> string) : list (string * string) := (fun n => (n, file n)) <$> MIGRATION_FILES.

Definition MIGRATION_COUNT : nat := length MIGRATION_FILES.

Definition LEGACY_SCHEMA_MSG : string :=
  "found legacy schema_migrations (version INTEGER) — zimservice no longer auto-upgrades legacy tracking tables in place. Back up with `pg_dump`, then rebuild the database (drop/recreate it and run `zimservice`, which applies the numbered files in migrations/ and re-indexes from your ZIMs) — see the README "
  +:+ str_of [34] +:+ "Legacy databases / upgrades" +:+ str_of [34] +:+ " section for the full recipe.".

(** ** Programs *)

Inductive Stmt :=
  | Acquire
  | AdvisoryLock
  | AdvisoryUnlock
  | SelectShape
  | CreateTracking
  | HashMatches (name sql : string)
  | StoredHash (name : string)
  | BeginTx
  | ExecScript (sql : string)
  | InsertRecord (name sql : string)
  | CommitTx
  | RollbackTx.

Definition row (c : Stmt) : Type :=
  match c with
  | SelectShape | StoredHash _ => option string
  | HashMatches _ _ => option bool
  | _ => unit
  end.

Inductive Prog (A : Type) :=
  | Ret (a : A)
  | Act (c : Stmt) (k : Result (row c) -> Prog A).
Arguments Ret {A} a.
Arguments Act {A} c k.

Fixpoint pbind {A B} (p : Prog A) (f : A -> Prog B) : Prog B :=
  match p with
  | Ret a => f a
  | Act c k => Act c (fun r => pbind (k r) f)
  end.

Declare Scope mig_scope.
Delimit Scope mig_scope with mig.
Notation "'sql' x := c 'in' k" := (Act c (fun x => k)) (at level 10, x pattern, k at level 200) : mig_scope.
Notation "'try' x := c 'in' k" := (Act c (fun r => match r with Err e => Ret (Err e) | Ok x => k end))
  (at level 10, x name, k at level 200) : mig_scope.
Notation "'run' x := p 'in' k" := (pbind p (fun x => k)) (at level 10, x pattern, k at level 200) : mig_scope.
Open Scope mig_scope.

Definition modified_msg (name : string) (stored : option string) : string :=
  "migration " +:+ name +:+ " was modified after being applied (recorded hash " +:+
  match stored with Some h => "Some(" +:+ str_of [34] +:+ h +:+ str_of [34] +:+ ")" | None => "None" end +:+
  ", file content now differs). Applied migrations must not be edited — add a new migration file instead".

(** The transaction of one file; it is rolled back when its handle is dropped. *)
Definition apply_migration (name text : string) : Prog (Result unit) :=
  try _ := BeginTx in
  sql r := ExecScript text in
  match r with
  | Err e => sql _ := RollbackTx in Ret (Err e)
  | Ok _ =>
      sql r := InsertRecord name text in
      match r with
      | Err e => sql _ := RollbackTx in Ret (Err e)
      | Ok _ =>
          sql r := CommitTx in
          match r with
          | Err e => sql _ := RollbackTx in Ret (Err e)
          | Ok _ => Ret (Ok tt)
          end
      end
  end.

Fixpoint apply_pending (todo : list (string * string)) : Prog (Result unit) :=
  match todo with
  | [] => Ret (Ok tt)
  | (name, text) :: rest =>
      try matches := HashMatches name text in
      match matches with
      | Some true => apply_pending rest
      | Some false => try stored := StoredHash name in Ret (Err (Config (modified_msg name stored)))
      | None =>
          run r := apply_migration name text in
          match r with Err e => Ret (Err e) | Ok _ => apply_pending rest end
      end
  end.

Definition run_migrations_on (migrations : list (string * string)) : Prog (Result unit) :=
  try shape := SelectShape in
  match shape with
  | None => try _ := CreateTracking in apply_pending migrations
  | Some s =>
      if String.eqb s "name" then apply_pending migrations
      else if String.eqb s "version" then Ret (Err (Config LEGACY_SCHEMA_MSG))
      else Ret (Err (Config ("schema_migrations has unexpected column_name shape: " +:+ str_of [34] +:+ s +:+ str_of [34])))
  end.

Definition run_migrations (migrations : list (string * string)) : Prog (Result unit) :=
  try _ := Acquire in
  try _ := AdvisoryLock in
  run result := run_migrations_on migrations in
  sql _ := AdvisoryUnlock in
  Ret result.

(** ** Invalid indexes *)

Definition is_safe_index_name (name : string) : bool := str_forall (fun c => is_ascii_alnum c || Ascii.eqb c "_") name.

Definition drop_statement (name : string) : string :=
  "DROP INDEX CONCURRENTLY IF EXISTS " +:+ str_of [34] +:+ name +:+ str_of [34].

(** One connection per statement ([acquire]); what the statement returns is
    only logged.  The statements sent. *)
Fixpoint drop_each (acquire : nat -> result SqlxError unit) (n : nat) (names : list string) : Result unit * list string :=
  match names with
  | [] => (Ok tt, [])
  | name :: rest =>
      if negb (is_safe_index_name name) then drop_each acquire n rest
      else match acquire n with
           | Err e => (Err (Database e), [])
           | Ok _ => let '(r, sent) := drop_each acquire (S n) rest in (r, drop_statement name :: sent)
           end
  end.

Definition drop_invalid_indexes_with_probe (acquire : nat -> result SqlxError unit) (probe : Result (list string)) :
    Result unit * list string :=
  match acquire O with
  | Err e => (Err (Database e), [])
  | Ok _ => match probe with Err _ => (Ok tt, []) | Ok rows => drop_each acquire 1 rows end
  end.

(** ** The database *)

Section Migrations.
Context {Schema : Type}.
Variable md5 : string -> string.
Variable run_script : string -> Schema -> option Schema.
Variable foreign : list string.

(** The tracking table: absent, of the legacy shape, or the recorded hashes by
    name.  [foreign] are the [name] and [version] columns of tables called
    [schema_migrations] in the other schemas of the database. *)
Inductive Tracking := NoTable | Versioned | Named (recorded : gmap string string).

Record Stored := mkStored { tracking : Tracking; schema : Schema }.

(** A session's transaction: none, its uncommitted state, or one that failed. *)
Inductive Tx := NoTx | InTx (s : Stored) | AbortedTx.

Definition abort (tx : Tx) : Tx := match tx with NoTx => NoTx | _ => AbortedTx end.

Definition own_columns (t : Tracking) : list string :=
  match t with NoTable => [] | Versioned => ["version"] | Named _ => ["name"] end.

Definition select_shape (t : Tracking) : option string :=
  let columns := own_columns t ++ foreign in
  if bool_decide ("version" ∈ columns) then Some "version"
  else if bool_decide ("name" ∈ columns) then Some "name" else None.

Definition sql_error (text : string) : Error := Database (DatabaseError None None text).

Definition in_view (s : Stored) (tx : Tx) : option Stored :=
  match tx with NoTx => Some s | InTx t => Some t | AbortedTx => None end.

(** A statement that writes: in the transaction, or committed at once. *)
Definition write (t : option Stored) (s : Stored) (tx : Tx) (held : bool) : Result unit * Stored * Tx * bool :=
  match t with
  | None => (Err (sql_error "statement failed"), s, abort tx, held)
  | Some t => match tx with InTx _ => (Ok tt, s, InTx t, held) | _ => (Ok tt, t, tx, held) end
  end.

Definition recorded_in (v : option Stored) : option (gmap string string) :=
  match v with Some t => match tracking t with Named m => Some m | _ => None end | None => None end.

(** The reply, what is committed, the transaction, and whether the session
    holds the migration lock. *)
Definition perform_in (c : Stmt) (s : Stored) (tx : Tx) (held : bool) : Result (row c) * Stored * Tx * bool :=
  match c return Result (row c) * Stored * Tx * bool with
  | Acquire => (Ok tt, s, tx, held)
  | AdvisoryLock => (Ok tt, s, tx, true)
  | AdvisoryUnlock => (Ok tt, s, tx, false)
  | SelectShape => (Ok (select_shape (tracking s)), s, tx, held)
  | CreateTracking =>
      write (match in_view s tx with
             | Some t => match tracking t with NoTable => Some (mkStored (Named ∅) (schema t)) | _ => None end
             | None => None end) s tx held
  | HashMatches name text =>
      match recorded_in (in_view s tx) with
      | Some m => (Ok ((fun h => String.eqb h (md5 text)) <$> m !! name), s, tx, held)
      | None => (Err (sql_error "column does not exist"), s, abort tx, held)
      end
  | StoredHash name =>
      match recorded_in (in_view s tx) with
      | Some m => (Ok (m !! name), s, tx, held)
      | None => (Err (sql_error "column does not exist"), s, abort tx, held)
      end
  | BeginTx => (Ok tt, s, InTx s, held)
  | ExecScript text =>
      write (match in_view s tx with Some t => mkStored (tracking t) <$> run_script text (schema t) | None => None end) s tx held
  | InsertRecord name text =>
      write (match in_view s tx, recorded_in (in_view s tx) with
             | Some t, Some m => if bool_decide (is_Some (m !! name)) then None
                                 else Some (mkStored (Named (<[name := md5 text]> m)) (schema t))
             | _, _ => None end) s tx held
  | CommitTx => (Ok tt, match tx with InTx t => t | _ => s end, NoTx, held)
  | RollbackTx => (Ok tt, s, NoTx, held)
  end.

(** After a failure a transaction takes no statement but its end. *)
Definition ends_tx (c : Stmt) : bool := match c with CommitTx | RollbackTx => true | _ => false end.

Definition perform (c : Stmt) (s : Stored) (tx : Tx) (held : bool) : Result (row c) * Stored * Tx * bool :=
  match tx with
  | AbortedTx => if ends_tx c then perform_in c s tx held
                 else (Err (sql_error "current transaction is aborted"), s, AbortedTx, held)
  | _ => perform_in c s tx held
  end.

(** ** Processes *)

Record Sess := mkSess { s_prog : Prog (Result unit); s_tx : Tx; s_alive : bool }.

Record MState := mkState { db : Stored; lock : option nat; procs : gmap nat Sess }.

Definition connection_lost : Error := Database (OtherSqlx "connection closed").

Definition release (p : nat) (l : option nat) : option nat := if bool_decide (l = Some p) then None else l.

Definition take_lock (p : nat) (held : bool) (l : option nat) : option nat := if held then Some p else release p l.

Inductive Ev :=
  | Start (p : nat) (migrations : list (string * string))
  | Step (p : nat) (f : Fault)
  | Die (p : nat).

(** A lock that another session holds makes the statement wait. *)
Definition waits (p : nat) (c : Stmt) (l : option nat) : bool :=
  match c, l with AdvisoryLock, Some q => negb (bool_decide (q = p)) | _, _ => false end.

(** One statement of process [p]. *)
Definition proc_step (p : nat) (f : Fault) (c : Stmt) (k : Result (row c) -> Prog (Result unit)) (tx : Tx) (st : MState) : MState :=
  let '(r, s', tx', held') := perform c (db st) tx (bool_decide (lock st = Some p)) in
  match f with
  | NoFault =>
      if waits p c (lock st) then st
      else mkState s' (take_lock p held' (lock st)) (<[p := mkSess (k r) tx' true]> (procs st))
  | Failed e => mkState (db st) (lock st) (<[p := mkSess (k (Err e)) (abort tx) true]> (procs st))
  | ReplyLost e =>
      if waits p c (lock st) then st
      else mkState s' (release p (lock st)) (<[p := mkSess (k (Err e)) NoTx false]> (procs st))
  end.

Definition step (st : MState) (e : Ev) : MState :=
  match e with
  | Start p ms =>
      match procs st !! p with
      | Some _ => st
      | None => mkState (db st) (lock st) (<[p := mkSess (run_migrations ms) NoTx true]> (procs st))
      end
  | Step p f =>
      match procs st !! p with
      | Some (mkSess (Act c k) tx true) => proc_step p f c k tx st
      | Some (mkSess (Act c k) tx false) => mkState (db st) (lock st) (<[p := mkSess (k (Err connection_lost)) tx false]> (procs st))
      | _ => st
      end
  | Die p =>
      match procs st !! p with
      | Some (mkSess prog _ _) => mkState (db st) (release p (lock st)) (<[p := mkSess prog NoTx false]> (procs st))
      | None => st
      end
  end.

Definition run_steps (es : list Ev) (st : MState) : MState := foldl step st es.
End Migrations.

(** ** Correctness *)

Section Facts.
Context {Schema : Type}.
Variable md5 : string -> string.
Variable run_script : string -> Schema -> option Schema.
Variable foreign : list string.
Variable base : Schema.
Variable all : list (string * string).

(** The reference: the scripts of a list, one after the other. *)
Fixpoint run_scripts (ms : list (string * string)) (s : Schema) : option Schema :=
  match ms with
  | [] => Some s
  | (_, text) :: rest => match run_script text s with Some s' => run_scripts rest s' | None => None end
  end.

Definition records (ms : list (string * string)) : gmap string string := list_to_map (prod_map id md5 <$> ms).

(** The database after the first [k] migrations of [all]. *)
Definition at_version (k : nat) (s : Stored) : Prop :=
  (k <= length all)%nat /\ run_scripts (take k all) base = Some (schema s) /\
  match tracking s with NoTable => k = O | Versioned => False | Named m => m = records (take k all) end.

Lemma run_scripts_snoc ms n t s : run_scripts (ms ++ [(n, t)]) s = match run_scripts ms s with Some s' => run_script t s' | None => None end.
Proof. revert s. induction ms as [|[x y] ms IH]; intros s; cbn; [by destruct (run_script t s)|]. destruct (run_script y s); [apply IH|done]. Qed.

Hypothesis names_distinct : NoDup all.*1.

Lemma records_lookup ms n t : NoDup ms.*1 -> (n, t) ∈ ms -> records ms !! n = Some (md5 t).
Proof.
  intros Hn Hin. unfold records. apply elem_of_list_to_map_1.
  - rewrite <- list_fmap_compose. exact Hn.
  - apply list_elem_of_fmap. by exists (n, t).
Qed.

Lemma records_absent ms n : n ∉ ms.*1 -> records ms !! n = None.
Proof. intros Hn. unfold records. apply not_elem_of_list_to_map_1. by rewrite <- list_fmap_compose. Qed.

Lemma records_snoc ms n t : n ∉ ms.*1 -> records (ms ++ [(n, t)]) = <[n := md5 t]> (records ms).
Proof.
  intros Hn. unfold records. rewrite fmap_app. change (prod_map id md5 <$> [(n, t)]) with [(n, md5 t)].
  rewrite list_to_map_snoc; [done|]. by rewrite <- list_fmap_compose.
Qed.

Lemma drop_head {A} (l : list A) j x rest : drop j l = x :: rest -> l !! j = Some x /\ drop (S j) l = rest.
Proof.
  intros E. assert (Hl : l !! j = Some x) by (rewrite <- (Nat.add_0_r j), <- lookup_drop, E; done).
  split; [done|]. apply drop_S in Hl. rewrite E in Hl. by injection Hl.
Qed.

Lemma take_distinct k : NoDup (take k all).*1.
Proof. rewrite fmap_take. eapply sublist_NoDup; [exact names_distinct|]. apply sublist_take. Qed.

(** What a lookup finds: the files before the version are recorded, the
    version's own is not. *)
Lemma record_before j k n t : all !! j = Some (n, t) -> (j < k)%nat -> records (take k all) !! n = Some (md5 t).
Proof.
  intros Hj Hlt. apply records_lookup; [apply take_distinct|]. apply list_elem_of_lookup. exists j. by rewrite lookup_take_lt.
Qed.

Lemma name_not_before k n t : all !! k = Some (n, t) -> n ∉ (take k all).*1.
Proof.
  intros Hk (i & Hi)%list_elem_of_lookup. rewrite fmap_take in Hi. apply lookup_take_Some in Hi as [Hi Hlt].
  enough (i = k) by lia. eapply NoDup_lookup; [exact names_distinct|exact Hi|]. by rewrite list_lookup_fmap, Hk.
Qed.

Lemma next_version k n t s s' : all !! k = Some (n, t) -> at_version k s -> run_script t (schema s) = Some s' ->
  forall m, tracking s = Named m -> at_version (S k) (mkStored (Named (<[n := md5 t]> m)) s').
Proof.
  intros Hk (Hle & Hr & Ht) Hs m Hm. rewrite Hm in Ht. pose proof (lookup_lt_Some _ _ _ Hk) as Hlt. split; [cbn; lia|]. cbn.
  rewrite (take_S_r _ _ _ Hk), run_scripts_snoc, Hr. split; [done|]. rewrite Ht. symmetry. apply records_snoc. by eapply name_not_before.
Qed.

(** *** Safety of a program *)

Abbreviation performs := (perform md5 run_script foreign).

Variable k0 : nat.

(** At least [k0] migrations, in order, each with its record. *)
Definition in_order (s : Stored) : Prop := exists k, (k0 <= k)%nat /\ at_version k s.

Definition lock_free (c : Stmt) : bool := match c with Acquire | AdvisoryLock | AdvisoryUnlock => true | _ => false end.

(** Whatever is refused and whatever is answered, the program keeps the
    database in order, touches it with the lock only, and ends in [Q].
    Without the lock the database may have changed before each statement. *)
Fixpoint safe {A} (held : bool) (s : Stored) (tx : Tx) (p : Prog A) (Q : A -> bool -> Stored -> Tx -> Prop) : Prop :=
  match p with
  | Ret a => Q a held s tx
  | Act c k =>
      (forall e, safe held s (abort tx) (k (Err e)) Q) /\
      (held = false -> lock_free c = true) /\
      forall s0, (if held then s0 = s else in_order s0) ->
        let '(r, s', tx', held') := performs c s0 tx held in in_order s' /\ safe held' s' tx' (k r) Q
  end.

Lemma safe_bind {A B} (p : Prog A) (f : A -> Prog B) Q : forall held s tx,
  safe held s tx p (fun a h s' tx' => safe h s' tx' (f a) Q) -> safe held s tx (pbind p f) Q.
Proof.
  induction p as [a|c k IH]; intros held s tx; cbn [pbind safe]; [done|]. intros (H1 & H2 & H3). split; [|split].
  - intros e. apply IH, H1.
  - done.
  - intros s0 Hs0. specialize (H3 s0 Hs0). destruct (performs c s0 tx held) as [[[r s'] tx'] h'].
    destruct H3 as [H3 H4]. split; [done|]. by apply IH.
Qed.

Lemma safe_mono {A} (p : Prog A) (Q Q' : A -> bool -> Stored -> Tx -> Prop) : (forall a h s tx, Q a h s tx -> Q' a h s tx) ->
  forall held s tx, safe held s tx p Q -> safe held s tx p Q'.
Proof.
  intros HQ. induction p as [a|c k IH]; intros held s tx; cbn [safe]; [apply HQ|]. intros (H1 & H2 & H3). split; [|split].
  - intros e. apply IH, H1.
  - done.
  - intros s0 Hs0. specialize (H3 s0 Hs0). destruct (performs c s0 tx held) as [[[r s'] tx'] h'].
    destruct H3 as [H3 H4]. split; [done|]. by apply IH.
Qed.

Definition any {A} (a : A) (held : bool) (s : @Stored Schema) (tx : @Tx Schema) : Prop := True.

(** Without the lock, what is in the database does not matter. *)
Lemma safe_unlocked {A} (p : Prog A) : forall s s' tx, safe false s tx p any -> safe false s' tx p any.
Proof.
  induction p as [a|c k IH]; intros s s' tx; cbn [safe]; [done|]. intros (H1 & H2 & H3). split; [|split; [done|exact H3]].
  intros e. eapply IH, H1.
Qed.

(** A statement under the lock with a reply that is known. *)
Lemma safe_act {A} c (k : Result (row c) -> Prog A) s tx Q r s' tx' h' :
  performs c s tx true = (r, s', tx', h') -> in_order s' ->
  (forall e, safe true s (abort tx) (k (Err e)) Q) -> safe h' s' tx' (k r) Q ->
  safe true s tx (Act c k) Q.
Proof. intros E Ho He Hk. cbn [safe]. split; [done|]. split; [done|]. intros s0 ->. rewrite E. done. Qed.

(** A rollback, then the end. *)
Lemma safe_rollback {A} (a : A) s tx Q : in_order s -> Q a true s (abort tx) -> Q a true s NoTx ->
  safe true s tx (Act RollbackTx (fun _ => Ret a)) Q.
Proof. intros Ho H1 H2. eapply safe_act; [by destruct tx| done| intros e; exact H1| exact H2]. Qed.

Definition applied (k : nat) (r : Result unit) (held : bool) (s : @Stored Schema) (tx : @Tx Schema) : Prop :=
  held = true /\ in_order s /\ (r = Ok tt -> tx = NoTx /\ at_version k s /\ tracking s = Named (records (take k all))).

Lemma apply_migration_safe k n t s : (k0 <= k)%nat -> all !! k = Some (n, t) -> at_version k s ->
  tracking s = Named (records (take k all)) -> safe true s NoTx (apply_migration n t) (applied (S k)).
Proof.
  intros Hk0 Hk Hv Ht. assert (Ho : in_order s) by by exists k.
  assert (Herr : forall e, applied (S k) (Err e) true s NoTx /\ applied (S k) (Err e) true s AbortedTx) by done.
  unfold apply_migration. eapply safe_act; [reflexivity|done|intros e; apply Herr|]. cbn beta iota.
  destruct (run_script t (schema s)) as [s1|] eqn:Es.
  - eapply safe_act; [cbn; rewrite Es; reflexivity|done|intros e; apply safe_rollback; [done|apply Herr..]|]. cbn beta iota.
    assert (Hn : records (take k all) !! n = None) by (apply records_absent; by eapply name_not_before).
    eapply safe_act; [cbn; rewrite Ht; cbn; rewrite Hn, bool_decide_false by (by intros [? ?]); reflexivity|done
      |intros e; apply safe_rollback; [done|apply Herr..]|]. cbn beta iota.
    assert (Hv' : at_version (S k) (mkStored (Named (<[n := md5 t]> (records (take k all)))) s1)) by (eapply next_version; eauto).
    eapply safe_act; [reflexivity|exists (S k); split; [lia|done]|intros e; apply safe_rollback; [done|apply Herr..]|].
    split; [done|]. split; [exists (S k); split; [lia|done]|]. intros _. split; [done|]. split; [done|]. cbn. f_equal.
    destruct Hv' as (_ & _ & Hv'). done.
  - eapply safe_act; [cbn; rewrite Es; reflexivity|done|intros e; apply safe_rollback; [done|apply Herr..]|].
    apply safe_rollback; [done|apply Herr..].
Qed.

Definition left_in_order (r : Result unit) (held : bool) (s : @Stored Schema) (tx : @Tx Schema) : Prop :=
  held = true /\ in_order s.

Lemma apply_pending_safe ms : ms `prefix_of` all -> forall todo j k s, drop j ms = todo -> (j <= k)%nat -> (k0 <= k)%nat ->
  at_version k s -> tracking s = Named (records (take k all)) -> safe true s NoTx (apply_pending todo) left_in_order.
Proof.
  intros Hms. induction todo as [|[n t] rest IH]; intros j k s Hd Hj Hk0 Hv Ht; assert (Ho : in_order s) by (by exists k); [done|].
  destruct (drop_head _ _ _ _ Hd) as [Hl Hrest]. apply (prefix_lookup_Some _ _ _ _ Hl) in Hms as Hl'.
  cbn [apply_pending]. eapply safe_act; [cbn; rewrite Ht; reflexivity|done|intros e; done|]. cbn beta iota.
  destruct (decide (j < k)%nat) as [Hlt|Hge].
  - rewrite (record_before j k n t) by done. cbn. rewrite String.eqb_refl. eapply (IH (S j) k); eauto. 
  - assert (j = k) as -> by lia. rewrite records_absent by (by eapply name_not_before). cbn [fmap option_fmap option_map].
    apply safe_bind. eapply safe_mono; [|by apply (apply_migration_safe k)].
    intros [[]|e] h s' tx (-> & Ho' & Hok); [|done]. destruct Hok as (-> & Hv' & Ht'); [done|]. eapply (IH (S k) (S k)); eauto.
Qed.

Lemma apply_pending_untracked ms s : in_order s -> tracking s = NoTable -> safe true s NoTx (apply_pending ms) left_in_order.
Proof.
  intros Ho Ht. destruct ms as [|[n t] rest]; cbn [apply_pending]; [done|].
  eapply safe_act; [cbn; rewrite Ht; reflexivity|done|intros e; done|done].
Qed.

Lemma run_migrations_on_safe ms s : ms `prefix_of` all -> in_order s -> safe true s NoTx (run_migrations_on ms) left_in_order.
Proof.
  intros Hms Ho. unfold run_migrations_on. eapply safe_act; [reflexivity|done|intros e; done|]. cbn beta iota.
  destruct (select_shape foreign (tracking s)) as [sh|].
  - destruct (String.eqb sh "name"); [|destruct (String.eqb sh "version"); done]. pose proof Ho as (k & Hk0 & Hv).
    pose proof Hv as (_ & _ & Ht). destruct (tracking s) as [| |m] eqn:Et; [by apply apply_pending_untracked|done|].
    apply (apply_pending_safe ms Hms ms 0 k); eauto using Nat.le_0_l. by rewrite Et, Ht.
  - pose proof Ho as (k & Hk0 & Hv). pose proof Hv as (_ & Hr & Ht). destruct (tracking s) as [| |m] eqn:Et; [|done|].
    + subst k. assert (Hv' : at_version 0 (mkStored (Named ∅) (schema s))) by (split; [lia|done]).
      eapply safe_act; [cbn; rewrite Et; reflexivity|by exists 0%nat|intros e; done|]. cbn beta iota.
      apply (apply_pending_safe ms Hms ms 0 0); done.
    + eapply safe_act; [cbn; rewrite Et; reflexivity|done|intros e; done|done].
Qed.

Lemma run_migrations_safe ms s : ms `prefix_of` all -> safe false s NoTx (run_migrations ms) any.
Proof.
  intros Hms. unfold run_migrations. split; [done|]. split; [done|]. intros s0 Hs0. split; [done|]. split; [done|]. split; [done|].
  intros s1 Hs1. split; [done|]. refine (safe_bind (run_migrations_on ms) _ _ _ _ _ _). eapply safe_mono; [|by apply run_migrations_on_safe].
  intros r h s' tx [-> Ho]. split; [done|]. split; [done|]. intros s2 ->. by destruct tx.
Qed.

(** *** All interleavings *)

Abbreviation steps := (run_steps md5 run_script foreign).

Definition sess_ok (s : @Stored Schema) (l : option nat) (p : nat) (x : Sess) : Prop :=
  if s_alive x then safe (bool_decide (l = Some p)) s (s_tx x) (s_prog x) any else l <> Some p.

Definition migrate_inv (st : MState) : Prop :=
  in_order (db st) /\ map_Forall (sess_ok (db st) (lock st)) (procs st) /\
  forall p, lock st = Some p -> is_Some (procs st !! p).

Definition starts_ok (e : Ev) : Prop := match e with Start _ ms => ms `prefix_of` all | _ => True end.

(** Another session's step keeps a session that does not hold the lock. *)
Lemma sess_ok_other s s' l l' p q x : p <> q -> sess_ok s l q x -> (l = Some q -> s' = s /\ l' = l) -> l' = l \/ l' = Some p \/ l' = None ->
  sess_ok s' l' q x.
Proof.
  intros Hpq Hx Hkeep Hl'. unfold sess_ok in *. destruct (decide (l = Some q)) as [->|Hne].
  - destruct (Hkeep eq_refl) as [-> ->]. done.
  - assert (l' <> Some q) by (destruct Hl' as [E|[E|E]]; congruence). destruct (s_alive x); [|done].
    rewrite bool_decide_false in * by done. by eapply safe_unlocked.
Qed.

Lemma lock_free_keeps p q c s tx r s' tx' h' : lock_free c = true -> p <> q -> waits p c (Some q) = false ->
  performs c s tx false = (r, s', tx', h') -> s' = s /\ h' = false.
Proof.
  intros Hc Hpq Hw E. destruct c; try done; cbn in Hw; [|by rewrite bool_decide_false in Hw|]; destruct tx; cbn in E; by simplify_eq.
Qed.

Lemma take_lock_own p h l : bool_decide (take_lock p h l = Some p) = h.
Proof. unfold take_lock, release. destruct h; [by apply bool_decide_true|]. apply bool_decide_false. case_bool_decide; congruence. Qed.

Lemma release_own p l : release p l <> Some p.
Proof. unfold release. case_bool_decide; congruence. Qed.

Lemma release_other p q l : p <> q -> l = Some q -> release p l = l.
Proof. intros Hpq ->. unfold release. rewrite bool_decide_false by congruence. done. Qed.

Lemma release_cases p l : release p l = l \/ release p l = Some p \/ release p l = None.
Proof. unfold release. case_bool_decide; auto. Qed.

(** A session's own step, and what the others see of it. *)
Lemma inv_insert st p x s' l' : migrate_inv st -> in_order s' -> sess_ok s' l' p x ->
  (forall q, p <> q -> lock st = Some q -> s' = db st /\ l' = lock st) -> l' = lock st \/ l' = Some p \/ l' = None ->
  migrate_inv (mkState s' l' (<[p := x]> (procs st))).
Proof.
  intros (Ho & Hp & Hl) Ho' Hx Hq Hl'. split; [done|]. split; cbn.
  - apply map_Forall_lookup. intros q y Hy. apply lookup_insert_Some in Hy as [[<- <-]|[Hne Hy]]; [done|].
    eapply sess_ok_other; [exact Hne|by apply (Hp q y)| |exact Hl']. intros E. by apply (Hq q).
  - intros q Hlq. destruct (decide (p = q)) as [<-|Hne]; [by rewrite lookup_insert_eq|]. rewrite lookup_insert_ne by done. apply Hl.
    destruct Hl' as [E|[E|E]]; congruence.
Qed.

Lemma proc_step_inv st p f c k tx : migrate_inv st -> procs st !! p = Some (mkSess (Act c k) tx true) ->
  migrate_inv (proc_step md5 run_script foreign p f c k tx st).
Proof.
  intros Hi Hx. pose proof Hi as (Ho & Hp & Hl). specialize (Hp p _ Hx). cbn in Hp. destruct Hp as (He & Hfree & Hrun). unfold proc_step.
  specialize (Hrun (db st)). assert (Hpre : if bool_decide (lock st = Some p) then db st = db st else in_order (db st)) by (by case_bool_decide).
  specialize (Hrun Hpre). destruct (performs c (db st) tx (bool_decide (lock st = Some p))) as [[[r s'] tx'] h'] eqn:E.
  destruct Hrun as [Ho' Hk].
  assert (Hothers : waits p c (lock st) = false -> forall q, p <> q -> lock st = Some q -> s' = db st /\ h' = false).
  { intros Hw q Hpq Hq. rewrite Hq in Hw. rewrite bool_decide_false in E, Hfree by congruence. eapply lock_free_keeps; eauto. }
  destruct f as [|e|e].
  - destruct (waits p c (lock st)) eqn:Hw; [done|]. apply inv_insert; try done.
    + unfold sess_ok. cbn. by rewrite take_lock_own.
    + intros q Hpq Hq. destruct (Hothers eq_refl q Hpq Hq) as [-> ->]. split; [done|]. by apply (release_other p q).
    + unfold take_lock. destruct h'; [by auto|apply release_cases].
  - apply inv_insert; auto. apply He.
  - destruct (waits p c (lock st)) eqn:Hw; [done|]. apply inv_insert; try done.
    + apply release_own.
    + intros q Hpq Hq. destruct (Hothers eq_refl q Hpq Hq) as [-> _]. split; [done|]. by apply (release_other p q).
    + apply release_cases.
Qed.

Lemma step_inv st e : starts_ok e -> migrate_inv st -> migrate_inv (step md5 run_script foreign st e).
Proof.
  intros He Hi. pose proof Hi as (Ho & Hp & Hl). destruct e as [p ms|p f|p]; cbn.
  - destruct (procs st !! p) eqn:E; [done|]. apply inv_insert; auto. unfold sess_ok. cbn. rewrite bool_decide_false.
    + by apply run_migrations_safe.
    + intros El. apply Hl in El as [? El]. congruence.
  - destruct (procs st !! p) as [[[a|c k] tx []]|] eqn:E; try done; [by apply proc_step_inv|]. apply inv_insert; auto. by apply (Hp p _ E).
  - destruct (procs st !! p) as [[prog tx al]|] eqn:E; [|done]. apply inv_insert; auto using release_cases.
    + apply release_own.
    + intros q Hpq Hq. split; [done|]. by apply (release_other p q).
Qed.

Lemma steps_inv es st : Forall starts_ok es -> migrate_inv st -> migrate_inv (steps es st).
Proof. intros He. revert st. induction He as [|e es He Hes IH]; intros st Hi; cbn; [done|]. by apply IH, step_inv. Qed.

(** *** A run that nothing disturbs *)

Fixpoint alone {A} (p : Prog A) (s : @Stored Schema) (tx : Tx) (held : bool) : A * Stored * Tx * bool :=
  match p with
  | Ret a => (a, s, tx, held)
  | Act c k => let '(r, s', tx', held') := performs c s tx held in alone (k r) s' tx' held'
  end.

Lemma alone_bind {A B} (p : Prog A) (f : A -> Prog B) : forall s tx held,
  alone (pbind p f) s tx held = let '(a, s', tx', held') := alone p s tx held in alone (f a) s' tx' held'.
Proof.
  induction p as [a|c k IH]; intros s tx held; [done|]. cbn [pbind alone]. destruct (performs c s tx held) as [[[r s'] tx'] h']. apply IH.
Qed.

(** It is a run of steps of that process. *)
Lemma alone_steps p prog : forall (held : bool) st tx a s' tx' held',
  lock st = (if held then Some p else None) -> procs st !! p = Some (mkSess prog tx true) ->
  alone prog (db st) tx held = (a, s', tx', held') ->
  exists n, steps (replicate n (Step p NoFault)) st = mkState s' (if held' then Some p else None) (<[p := mkSess (Ret a) tx' true]> (procs st)).
Proof.
  induction prog as [a|c k IH]; intros held st tx b s' tx' held' Hl Hp E.
  - cbn in E. simplify_eq. exists O. cbn. rewrite insert_id by done. destruct st; cbn in *. by rewrite Hl.
  - cbn [alone] in E. destruct (performs c (db st) tx held) as [[[r s1] tx1] h1] eqn:Ep.
    assert (Hh : bool_decide (lock st = Some p) = held) by (rewrite Hl; destruct held; by case_bool_decide).
    assert (Hw : waits p c (lock st) = false) by (rewrite Hl; unfold waits; destruct c, held; try done; by rewrite bool_decide_true).
    assert (Hs : step md5 run_script foreign st (Step p NoFault) =
      mkState s1 (if h1 then Some p else None) (<[p := mkSess (k r) tx1 true]> (procs st))).
    { cbn. rewrite Hp. unfold proc_step. rewrite Hh, Ep, Hw. f_equal. unfold take_lock, release. rewrite Hl.
      destruct h1, held; [done..|by rewrite bool_decide_true|done]. }
    destruct (IH r h1 (mkState s1 (if h1 then Some p else None) (<[p := mkSess (k r) tx1 true]> (procs st))) tx1 b s' tx' held')
      as [n Hn]; [done|cbn; by rewrite lookup_insert_eq|exact E|].
    exists (S n). cbn [replicate run_steps foldl]. unfold run_steps in *. cbn [foldl]. rewrite Hs, Hn. cbn. by rewrite insert_insert_eq.
Qed.

(** How a run ends: everything it knows is applied, or the first script that
    fails is the next one. *)
Definition run_end (upto k : nat) (r : Result unit) (s : Stored) : Prop :=
  exists k', (k <= k')%nat /\ at_version k' s /\
    match r with
    | Ok _ => k' = Nat.max k upto
    | Err _ => (k' < upto)%nat /\ exists n t, all !! k' = Some (n, t) /\ run_script t (schema s) = None
    end.

Lemma alone_apply k n t s : all !! k = Some (n, t) -> tracking s = Named (records (take k all)) ->
  alone (apply_migration n t) s NoTx true =
    match run_script t (schema s) with
    | Some s1 => (Ok tt, mkStored (Named (<[n := md5 t]> (records (take k all)))) s1, NoTx, true)
    | None => (Err (sql_error "statement failed"), s, NoTx, true)
    end.
Proof.
  intros Hk Ht. assert (Hn : records (take k all) !! n = None) by (apply records_absent; by eapply name_not_before).
  cbn. destruct (run_script t (schema s)) as [s1|] eqn:Es; cbn; [|done]. rewrite Ht. cbn. rewrite Hn, bool_decide_false by (by intros [? ?]). done.
Qed.

Lemma alone_pending ms : ms `prefix_of` all -> forall todo j k s, drop j ms = todo -> (j <= k)%nat ->
  at_version k s -> tracking s = Named (records (take k all)) ->
  exists r s', alone (apply_pending todo) s NoTx true = (r, s', NoTx, true) /\ run_end (length ms) k r s'.
Proof.
  intros Hms. induction todo as [|[n t] rest IH]; intros j k s Hd Hj Hv Ht.
  - exists (Ok tt), s. split; [done|]. exists k. split; [done|]. split; [done|]. apply (f_equal length) in Hd. rewrite length_drop in Hd. cbn in Hd. lia.
  - destruct (drop_head _ _ _ _ Hd) as [Hl Hrest]. apply (prefix_lookup_Some _ _ _ _ Hl) in Hms as Hl'.
    pose proof (lookup_lt_Some _ _ _ Hl) as Hlt'. cbn [apply_pending alone]. cbn [perform perform_in in_view recorded_in]. rewrite Ht. cbn beta iota.
    destruct (decide (j < k)%nat) as [Hlt|Hge].
    + rewrite (record_before j k n t) by done. cbn [fmap option_fmap option_map]. rewrite String.eqb_refl. by apply (IH (S j) k).
    + assert (j = k) as -> by lia. rewrite records_absent by (by eapply name_not_before). cbn [fmap option_fmap option_map].
      rewrite alone_bind, (alone_apply k) by done. destruct (run_script t (schema s)) as [s1|] eqn:Es.
      * assert (Hv' : at_version (S k) (mkStored (Named (<[n := md5 t]> (records (take k all)))) s1)) by (eapply next_version; eauto).
        destruct (IH (S k) (S k) _ Hrest ltac:(lia) Hv') as (r & s' & Hr & k' & Hk' & Hv'' & Hend).
        { cbn. f_equal. destruct Hv' as (_ & _ & Hv'). exact Hv'. }
        exists r, s'. split; [exact Hr|]. exists k'. split; [lia|]. split; [done|]. destruct r; [lia|done].
      * exists (Err (sql_error "statement failed")), s. split; [done|]. exists k. split; [done|]. split; [done|]. split; [done|]. by exists n, t.
Qed.

Lemma alone_run ms k s : foreign = [] -> ms `prefix_of` all -> at_version k s ->
  exists r s', alone (run_migrations ms) s NoTx false = (r, s', NoTx, false) /\ run_end (length ms) k r s'.
Proof.
  intros Hf Hms Hv. unfold run_migrations. cbn [alone perform perform_in]. cbn beta iota. rewrite alone_bind.
  unfold run_migrations_on. cbn [alone perform perform_in]. cbn beta iota.
  pose proof Hv as (Hle & Hr & Ht). unfold select_shape. rewrite Hf, app_nil_r.
  destruct (tracking s) as [| |m] eqn:Et; [|done|]; cbn [own_columns].
  - subst k. rewrite !bool_decide_false by (apply not_elem_of_nil). cbn [alone perform perform_in in_view]. rewrite Et. cbn [write alone]. 
    assert (Hv' : at_version 0 (mkStored (Named ∅) (schema s))) by (split; [lia|done]).
    destruct (alone_pending ms Hms ms 0 0 _ eq_refl ltac:(lia) Hv' eq_refl) as (r & s' & E & Hend). exists r, s'. by rewrite E.
  - rewrite bool_decide_false by (by intros ?%list_elem_of_singleton). rewrite bool_decide_true by (by apply list_elem_of_singleton).
    rewrite String.eqb_refl. destruct (alone_pending ms Hms ms 0 k s eq_refl ltac:(lia) Hv) as (r & s' & E & Hend); [by rewrite Et, Ht|].
    exists r, s'. by rewrite E.
Qed.

End Facts.

Lemma migration_names_distinct file : NoDup (MIGRATIONS file).*1.
Proof.
  unfold MIGRATIONS. rewrite <- list_fmap_compose. change (NoDup (id <$> MIGRATION_FILES)). rewrite list_fmap_id.
  apply (bool_decide_unpack _). by vm_compute.
Qed.

Lemma versions_in_order {Schema} md5 (run_script : string -> Schema -> option Schema) foreign base file k s es :
  at_version md5 run_script base (MIGRATIONS file) k s -> Forall (starts_ok (MIGRATIONS file)) es ->
  in_order md5 run_script base (MIGRATIONS file) k (db (run_steps md5 run_script foreign es (mkState s None ∅))).
Proof.
  intros Hv He. eapply steps_inv; [apply migration_names_distinct|exact He|]. split; [by exists k|]. split; [|done].
  apply map_Forall_empty.
Qed.

(** C10: migrations run once, in order.  Start from a database that has the
    first [k] migrations (or none) and let any number of processes, of this
    release or of earlier ones, migrate it at once, with statements that fail,
    replies lost after they took effect and sessions that die anywhere.  At
    every moment the schema is what the first [k'] scripts make of the base,
    each run exactly once and in order, the tracking table has exactly their
    records, and [k'] never goes down. *)
Theorem migrations_run_once_in_order {Schema} md5 (run_script : string -> Schema -> option Schema) foreign base file k s es :
  at_version md5 run_script base (MIGRATIONS file) k s -> Forall (starts_ok (MIGRATIONS file)) es ->
  exists k', (k <= k')%nat /\
    at_version md5 run_script base (MIGRATIONS file) k' (db (run_steps md5 run_script foreign es (mkState s None ∅))).
Proof. apply versions_in_order. Qed.

(** A schema as the list of scripts it has seen. *)
Definition journal (text : string) (s : list string) : option (list string) := Some (s ++ [text]).

Definition two_starts (file : string -> string) : list Ev :=
  [Start 1 (MIGRATIONS file); Start 2 (take 5 (MIGRATIONS file))]
  ++ replicate 9 (Step 1 NoFault) ++ [Step 1 (ReplyLost connection_lost)] ++ replicate 9 (Step 2 NoFault) ++ [Die 2].

Lemma migrations_run_once_in_order_witness :
  let s := mkStored NoTable [] in
  exists k', (0 <= k')%nat /\
    at_version id journal [] (MIGRATIONS id) k' (db (run_steps id journal [] (two_starts id) (mkState s None ∅))).
Proof.
  intros s. apply (migrations_run_once_in_order id journal [] [] id 0 s).
  - split; [apply Nat.le_0_l|]. split; reflexivity.
  - apply Forall_cons. split; [exact (reflexivity (R := prefix) (MIGRATIONS id))|].
    apply Forall_cons. split; [exact (prefix_take (MIGRATIONS id) 5)|].
    repeat (apply Forall_cons; split; [exact I|]). apply Forall_nil. exact I.
Defined.

(** C24: a start brings the database up to date.  From any state that such a
    history leaves with the migration lock free and no table of the same name
    in another schema, a process that starts and is not disturbed ends after
    finitely many statements with the lock released: either it has succeeded
    and every migration it knows is applied, or the next script is one the
    database refuses, and everything before it is applied. *)
Theorem migration_run_completes {Schema} md5 (run_script : string -> Schema -> option Schema) base file k s es p upto :
  at_version md5 run_script base (MIGRATIONS file) k s -> Forall (starts_ok (MIGRATIONS file)) es ->
  let st := run_steps md5 run_script [] es (mkState s None ∅) in
  lock st = None -> procs st !! p = None ->
  exists n r k', (k <= k')%nat /\
    let st' := run_steps md5 run_script [] (Start p (take upto (MIGRATIONS file)) :: replicate n (Step p NoFault)) st in
    procs st' !! p = Some (mkSess (Ret r) NoTx true) /\ lock st' = None /\
    run_end md5 run_script base (MIGRATIONS file) (length (take upto (MIGRATIONS file))) k' r (db st').
Proof.
  intros Hv He st Hl Hp. destruct (versions_in_order md5 run_script [] base file k s es Hv He) as (k' & Hk' & Hv'). fold st in Hv'.
  destruct (alone_run md5 run_script [] base (MIGRATIONS file) (migration_names_distinct file) (take upto (MIGRATIONS file)) k' (db st))
    as (r & s' & Ea & Hend); [done|apply prefix_take|done|].
  set (st1 := step md5 run_script [] st (Start p (take upto (MIGRATIONS file)))).
  destruct (alone_steps md5 run_script [] p (run_migrations (take upto (MIGRATIONS file))) false st1 NoTx r s' NoTx false) as [n Hn].
  - unfold st1. cbn. by rewrite Hp.
  - unfold st1. cbn. rewrite Hp. cbn. by rewrite lookup_insert_eq.
  - unfold st1. cbn [step]. rewrite Hp. exact Ea.
  - exists n, r, k'. split; [done|]. unfold run_steps in *. cbn [foldl]. fold st1. rewrite Hn. cbn. by rewrite lookup_insert_eq.
Qed.

Lemma migration_run_completes_witness :
  let st := run_steps id journal [] (two_starts id) (mkState (mkStored NoTable []) None ∅) in
  exists n r k', (0 <= k')%nat /\
    let st' := run_steps id journal [] (Start 3 (take 17 (MIGRATIONS id)) :: replicate n (Step 3 NoFault)) st in
    procs st' !! 3%nat = Some (mkSess (Ret r) NoTx true) /\ lock st' = None /\
    run_end id journal [] (MIGRATIONS id) (length (take 17 (MIGRATIONS id))) k' r (db st').
Proof.
  intros st. apply (migration_run_completes id journal [] id 0 (mkStored NoTable []) (two_starts id) 3 17).
  - split; [apply Nat.le_0_l|]. split; reflexivity.
  - apply Forall_cons. split; [exact (reflexivity (R := prefix) (MIGRATIONS id))|].
    apply Forall_cons. split; [exact (prefix_take (MIGRATIONS id) 5)|].
    repeat (apply Forall_cons; split; [exact I|]). apply Forall_nil. exact I.
  - vm_compute. reflexivity.
  - vm_compute. reflexivity.
Defined.

(** *** Refusals *)

Section Refusals.
Context {Schema : Type}.
Variable md5 : string -> string.
Variable run_script : string -> Schema -> option Schema.
Variable foreign : list string.

(** An applied file that was edited stops the run before anything is written. *)
Lemma pending_refuses_modified (recorded : gmap string string) sch before name text rest h :
  Forall (fun nt => recorded !! nt.1 = Some (md5 nt.2)) before -> recorded !! name = Some h -> h <> md5 text ->
  alone md5 run_script foreign (apply_pending (before ++ (name, text) :: rest)) (mkStored (Named recorded) sch) NoTx true =
    (Err (Config (modified_msg name (Some h))), mkStored (Named recorded) sch, NoTx, true).
Proof.
  intros Hb Hn Hne. induction Hb as [|[n t] before Hnt Hb IH]; cbn [app apply_pending alone perform perform_in in_view recorded_in tracking].
  - rewrite Hn. cbn [fmap option_fmap option_map]. destruct (String.eqb_spec h (md5 text)); [done|].
    cbn [alone perform perform_in in_view recorded_in tracking]. by rewrite Hn.
  - cbn in Hnt. rewrite Hnt. cbn [fmap option_fmap option_map]. rewrite String.eqb_refl. exact IH.
Qed.

(** An edited migration is refused.  When the files before it are recorded
    with their hashes and its own record differs, the run fails with the
    message that names it and the recorded hash, changes nothing, and releases
    the lock, whatever comes after it. *)
Theorem edited_migration_is_refused (recorded : gmap string string) sch before name text rest h :
  "version" ∉ foreign -> Forall (fun nt => recorded !! nt.1 = Some (md5 nt.2)) before -> recorded !! name = Some h -> h <> md5 text ->
  alone md5 run_script foreign (run_migrations (before ++ (name, text) :: rest)) (mkStored (Named recorded) sch) NoTx false =
    (Err (Config (modified_msg name (Some h))), mkStored (Named recorded) sch, NoTx, false).
Proof.
  intros Hf Hb Hn Hne. unfold run_migrations. cbn [alone perform perform_in]. cbn beta iota. rewrite alone_bind.
  unfold run_migrations_on. cbn [alone perform perform_in tracking]. cbn beta iota. unfold select_shape. cbn [own_columns].
  rewrite bool_decide_false by (by intros [?|?]%elem_of_cons). rewrite bool_decide_true by (by left).
  rewrite String.eqb_refl. by rewrite (pending_refuses_modified _ _ _ _ _ _ h).
Qed.

(** A legacy tracking table is refused untouched. *)
Lemma legacy_table_is_refused ms sch :
  alone md5 run_script foreign (run_migrations ms) (mkStored Versioned sch) NoTx false =
    (Err (Config LEGACY_SCHEMA_MSG), mkStored Versioned sch, NoTx, false).
Proof.
  unfold run_migrations. cbn [alone perform perform_in]. cbn beta iota. rewrite alone_bind.
  unfold run_migrations_on. cbn [alone perform perform_in tracking]. cbn beta iota. unfold select_shape. cbn [own_columns].
  rewrite bool_decide_true by (by left). done.
Qed.
End Refusals.

Lemma edited_migration_is_refused_witness :
  alone id journal [] (run_migrations ([("001", "a")] ++ ("002", "b2") :: [("003", "c")]))
    (mkStored (Named {["001" := "a"; "002" := "b"]}) ["a"; "b"]) NoTx false =
  (Err (Config (modified_msg "002" (Some "b"))), mkStored (Named {["001" := "a"; "002" := "b"]}) ["a"; "b"], NoTx, false).
Proof.
  apply (edited_migration_is_refused id journal [] {["001" := "a"; "002" := "b"]} ["a"; "b"] [("001", "a")] "002" "b2" [("003", "c")] "b").
  - apply not_elem_of_nil.
  - apply Forall_cons. split; [reflexivity|apply Forall_nil; exact I].
  - reflexivity.
  - discriminate.
Defined.

(** The shape query looks at every schema: another application's
    [schema_migrations(version)] in a schema of its own makes a fresh database
    read as a legacy one, and one with a [name] column makes the run look for
    records in a table that does not exist. *)
Example foreign_table_blocks_start :
  fst (fst (fst (alone id journal ["version"] (run_migrations (MIGRATIONS id)) (mkStored NoTable []) NoTx false)))
    = Err (Config LEGACY_SCHEMA_MSG) /\
  fst (fst (fst (alone id journal ["name"] (run_migrations (MIGRATIONS id)) (mkStored NoTable []) NoTx false)))
    = Err (sql_error "column does not exist").
Proof. split; vm_compute; reflexivity. Qed.

(** *** Invalid indexes *)

Lemma drop_each_sent acquire names : forall n, Forall (fun q => exists name, name ∈ names /\ q = drop_statement name /\
  str_forall (fun c => is_ascii_alnum c || Ascii.eqb c "_") name = true) (snd (drop_each acquire n names)).
Proof.
  induction names as [|x names IH]; intros n; cbn; [constructor|].
  assert (Hmore : forall n, Forall (fun q => exists name, name ∈ x :: names /\ q = drop_statement name /\
    str_forall (fun c => is_ascii_alnum c || Ascii.eqb c "_") name = true) (snd (drop_each acquire n names))).
  { intros n'. eapply Forall_impl; [apply IH|]. intros q (y & Hy & Hq). exists y. split; [by right|done]. }
  destruct (is_safe_index_name x) eqn:E; cbn; [|apply Hmore]. destruct (acquire n); cbn; [|constructor].
  specialize (Hmore (S n)). destruct (drop_each acquire (S n) names) as [r sent]. constructor; [|done]. exists x. split; [by left|done].
Qed.

Lemma drop_each_complete acquire names : (forall n, acquire n = Ok tt) -> forall n,
  drop_each acquire n names = (Ok tt, drop_statement <$> filter (fun x => is_safe_index_name x = true) names).
Proof.
  intros Ha. induction names as [|x names IH]; intros n; [done|]. cbn [drop_each]. destruct (is_safe_index_name x) eqn:E; cbn [negb].
  - rewrite Ha, IH, filter_cons_True by done. done.
  - rewrite IH, filter_cons_False by congruence. done.
Qed.

(** The clean-up sends no statement but drops of plainly named indexes the
    catalog reported, whatever names it reports, and fails only when it gets no
    connection; with connections it drops every one of them, and a catalog that
    cannot be read makes it do nothing. *)
Theorem index_cleanup_outcome acquire probe :
  let '(r, sent) := drop_invalid_indexes_with_probe acquire probe in
  Forall (fun q => exists names name, probe = Ok names /\ name ∈ names /\ q = drop_statement name /\
    str_forall (fun c => is_ascii_alnum c || Ascii.eqb c "_") name = true) sent /\
  ((forall n, acquire n = Ok tt) -> r = Ok tt /\
    sent = match probe with
           | Ok names => drop_statement <$> filter (fun x => is_safe_index_name x = true) names
           | Err _ => [] end).
Proof.
  unfold drop_invalid_indexes_with_probe. destruct (acquire 0%nat) eqn:E0; [|split; [constructor|intros H; congruence]].
  destruct probe as [names|e]; [|split; [constructor|done]].
  pose proof (drop_each_sent acquire names 1) as Hs. pose proof (drop_each_complete acquire names) as Hc.
  destruct (drop_each acquire 1 names) as [r sent] eqn:E. cbn in Hs. split.
  - eapply Forall_impl; [exact Hs|]. intros q (x & ?). by exists names, x.
  - intros Ha. specialize (Hc Ha 1%nat). rewrite E in Hc. by simplify_eq.
Qed.
