(* ===== verification/Pool.v ===== *)
(** * Pool: connections to the database

    [src/db/pool.rs]: the TLS mode a connection string asks for and the one the
    driver is given, the pools and their sizes, and the checkout-wait
    statistics.  [PgConnectOptions::from_str] and the connection itself are
    parameters. *)

From stdpp Require Import sorting.
From S2P Require Import Prelude RustStr Errors Config.

Inductive TlsMode := TlsNone | Tls.

Inductive PgSslMode := Disable | VerifyCa | VerifyFull.

#[export] Instance PgSslMode_eq_dec : EqDecision PgSslMode.
Proof. solve_decision. Defined.

(** ** Connection strings *)

Section Dsn.
Context `{CaseFold}.

(** [dsn.split_once('?').map(|(_, q)| q).unwrap_or("")]. *)
Definition query_of (dsn : string) : string := match split_once "?" dsn with Some (_, q) => q | None => EmptyString end.

Definition is_tls_scheme (dsn : string) : bool := starts_with "postgres+tls://" dsn || starts_with "postgresql+tls://" dsn.

Definition sslmode_of_value (value : string) : Result TlsMode :=
  let v := to_lowercase value in
  if bool_decide (v ∈ ["disable"; "off"]) then Ok TlsNone
  else if bool_decide (v ∈ ["require"; "verify-ca"; "verify-full"]) then Ok Tls
  else Err (Config ("Unsupported sslmode: '" +:+ v +:+ "'. Supported values: disable, require, verify-ca, verify-full")).

(** The loops over the pairs stop at the first [sslmode]. *)
Fixpoint tls_mode_of_pairs (pairs : list string) : Result TlsMode :=
  match pairs with
  | [] => Ok TlsNone
  | p :: rest =>
      match split_once "=" p with
      | Some (key, value) => if String.eqb key "sslmode" then sslmode_of_value value else tls_mode_of_pairs rest
      | None => tls_mode_of_pairs rest
      end
  end.

Definition tls_mode_from_dsn (dsn : string) : Result TlsMode :=
  if is_tls_scheme dsn then Ok Tls else tls_mode_of_pairs (split_on (Ascii.eqb "&") (query_of dsn)).



Fixpoint verify_full_in (pairs : list string) : bool :=
  match pairs with
  | [] => false
  | p :: rest =>
      match split_once "=" p with
      | Some (key, value) => if String.eqb key "sslmode" then eq_ignore_ascii_case value "verify-full" else verify_full_in rest
      | None => verify_full_in rest
      end
  end.

Definition dsn_has_verify_full (dsn : string) : bool := verify_full_in (split_on (Ascii.eqb "&") (query_of dsn)).

Definition ssl_mode_for (tls_mode : TlsMode) (dsn : string) : PgSslMode :=
  match tls_mode with
  | TlsNone => Disable
  | Tls => if dsn_has_verify_full dsn then VerifyFull else VerifyCa
  end.


(** ** Pools *)

Context {Target : Type}.
(** What [from_str] reads from a URL besides the TLS mode, which is pinned
    afterwards; opening a first connection. *)
Variable from_str : string -> result string Target.
Variable connect : Target * PgSslMode -> result SqlxError unit.


Definition POOL_SIZE_CEILING : Z := 100.
Definition effective_pool_size (raw : Z) : Z := clamp 1 POOL_SIZE_CEILING raw.
Definition BG_POOL_MAX_CONNECTIONS : Z := 4.
Definition ACQUIRE_PING_TIMEOUT : Z := 5.

(** Times in seconds; [test_before_acquire] is off, the hook pings instead. *)
Record PgPool := mkPool {
  p_options : Target * PgSslMode;
  max_connections : Z;
  min_connections : Z;
  acquire_timeout : Z;
  max_lifetime : Z;
  test_before_acquire : bool
}.


(** [before_acquire]: [None] is a ping that did not return in time. *)
Definition before_acquire (ping : option (result SqlxError unit)) : result SqlxError bool :=
  match ping with
  | Some res => Ok (is_ok res)
  | None => Err (OtherSqlx "pool liveness ping exceeded 5s")
  end.






Definition read_or_primary (read : option PgPool) (primary : PgPool) : PgPool := default primary read.
End Dsn.

(** ** Saturation *)

Record PoolSaturation := mkSat { p_size : Z; idle : Z; max_size : Z; checked_out : Z }.

Definition pool_saturation (size num_idle max : Z) : PoolSaturation :=
  let idle := num_idle mod 2 ^ 32 in mkSat size idle max (saturating_sub size idle).

Definition saturated (s : PoolSaturation) : bool := (checked_out s =? max_size s) && (idle s =? 0) && (0 <? max_size s).

(** ** Checkout waits *)

(** Counters of 64 bits; [fetch_add] wraps around. *)
Definition wrap64 (z : Z) : Z := z mod 2 ^ 64.

Record CheckoutWaitStats := mkWait { w_count : Z; total_us : Z; max_us : Z }.

Definition counter_new : CheckoutWaitStats := mkWait 0 0 0.

Definition avg_us (s : CheckoutWaitStats) : Z := total_us s / Z.max (w_count s) 1.

(** [wait] in microseconds. *)
Definition record (wait : Z) (c : CheckoutWaitStats) : CheckoutWaitStats :=
  let wait_us := Z.min wait u64_max in
  mkWait (wrap64 (w_count c + 1)) (wrap64 (total_us c + wait_us)) (Z.max (max_us c) wait_us).

Record CheckoutWaits := mkWaits { CHECKOUT_WAIT : CheckoutWaitStats; CHECKOUT_WAIT_BY_SITE : gmap string CheckoutWaitStats }.

Definition record_checkout_wait (site : string) (wait : Z) (w : CheckoutWaits) : CheckoutWaits :=
  mkWaits (record wait (CHECKOUT_WAIT w))
    (<[site := record wait (default counter_new (CHECKOUT_WAIT_BY_SITE w !! site))]> (CHECKOUT_WAIT_BY_SITE w)).

(** [acquired] is what [pool.acquire()] returned after [elapsed]. *)
Definition acquire_timed {C} (site : string) (acquired : result SqlxError C) (elapsed : Z) (w : CheckoutWaits) :
    result SqlxError C * CheckoutWaits :=
  (acquired, if is_ok acquired then record_checkout_wait site elapsed w else w).

Definition checkout_wait_stats (w : CheckoutWaits) : CheckoutWaitStats := CHECKOUT_WAIT w.

Definition site_le (a b : string * CheckoutWaitStats) : Prop := String.leb (fst a) (fst b) = true.

#[export] Instance site_le_dec a b : Decision (site_le a b).
Proof. unfold site_le. apply _. Defined.

Definition checkout_wait_stats_by_site `{!HashIter string CheckoutWaitStats} (w : CheckoutWaits) : list (string * CheckoutWaitStats) :=
  merge_sort site_le (hash_iter (CHECKOUT_WAIT_BY_SITE w)).

(** ** The mode a connection string gets *)

Section DsnFacts.
Context `{CaseFold}.























(** The mode of a connection, as the functions above compose to it. *)
Definition connection_mode (dsn : string) : Result PgSslMode :=
  let? m := tls_mode_from_dsn dsn in Ok (ssl_mode_for m dsn).





Section Connections.
Context {Target : Type}.
Variable from_str : string -> result string Target.
Variable connect : Target * PgSslMode -> result SqlxError unit.









End Connections.
End DsnFacts.

Definition ascii_case : CaseFold := {| to_lowercase := to_ascii_lowercase; to_lowercase_ascii s _ := eq_refl |}.


(** A TLS scheme does not look at the mode: one the program does not know, or
    [disable], gives a verified connection. *)
Example tls_scheme_overrides_mode :
  @connection_mode ascii_case "postgres+tls://u:p@db/z?sslmode=prefer" = Ok VerifyCa /\
  @connection_mode ascii_case "postgres+tls://u:p@db/z?sslmode=disable" = Ok VerifyCa.
Proof. split; vm_compute; reflexivity. Qed.

(** The key is compared as it is written: other spellings of it are not an
    error, and give a plain connection. *)
Example other_spelling_is_plain :
  @connection_mode ascii_case "postgres://u:p@db/z?SSLMODE=require" = Ok Disable /\
  @connection_mode ascii_case "postgres://u:p@db/z?ssl-mode=verify-full" = Ok Disable /\
  is_err (@connection_mode ascii_case "postgres://u:p@db/z?sslmode=prefer") = true.
Proof. repeat split; vm_compute; reflexivity. Qed.

(** The connections of one server with the largest pool: the pool, the
    background pool, the listener and the instance lock. *)
Example largest_instance_exceeds_default_budget :
  effective_pool_size 999999 + BG_POOL_MAX_CONNECTIONS + 1 + 1 > 100.
Proof. by vm_compute. Qed.

(** ** Checkout waits *)

(** The reference: the statistics of a list of waits. *)
Definition stats_of (waits : list Z) : CheckoutWaitStats :=
  let us := (fun w => Z.min w u64_max) <$> waits in
  mkWait (wrap64 (Z.of_nat (length us))) (wrap64 (foldr Z.add 0 us)) (foldr Z.max 0 us).

Lemma record_stats waits w : record w (stats_of waits) = stats_of (w :: waits).
Proof.
  unfold record, stats_of, wrap64. cbn [fmap list_fmap length foldr w_count total_us max_us]. f_equal.
  - rewrite Zplus_mod_idemp_l. f_equal. lia.
  - rewrite Zplus_mod_idemp_l. f_equal. lia.
  - apply Z.max_comm.
Qed.

(** A checkout: its site, whether it got a connection, and how long it took. *)
Record Checkout := mkCheckout { c_site : string; c_acquired : result SqlxError unit; c_wait : Z }.

Definition run_checkout (w : CheckoutWaits) (c : Checkout) : CheckoutWaits := snd (acquire_timed (c_site c) (c_acquired c) (c_wait c) w).

(** The waits of the successful checkouts, the latest first. *)
Definition counted (site : option string) (c : Checkout) : bool :=
  is_ok (c_acquired c) && match site with Some s => bool_decide (c_site c = s) | None => true end.

Definition waits_of (site : option string) (cs : list Checkout) : list Z :=
  c_wait <$> filter (fun c => counted site c = true) (rev cs).

Definition waits_start : CheckoutWaits := mkWaits counter_new ∅.

Lemma waits_of_snoc site cs c : waits_of site (cs ++ [c]) =
  if is_ok (c_acquired c) && match site with Some s => bool_decide (c_site c = s) | None => true end
  then c_wait c :: waits_of site cs else waits_of site cs.
Proof.
  unfold waits_of. rewrite rev_app_distr. cbn [rev app]. fold (counted site c). destruct (counted site c) eqn:E.
  - by rewrite filter_cons_True.
  - rewrite filter_cons_False; [done|congruence].
Qed.

(** The checkout statistics are those of the waits.  After any sequence of
    checkouts, failed ones included, the aggregate is the statistics of all
    successful waits, and a site has a bucket exactly when a checkout there
    succeeded, with the statistics of its own waits: count and total modulo
    2^64, and the true maximum. *)
Theorem checkout_stats_are_exact cs :
  let w := foldl run_checkout waits_start cs in
  checkout_wait_stats w = stats_of (waits_of None cs) /\
  forall site, CHECKOUT_WAIT_BY_SITE w !! site =
    match waits_of (Some site) cs with [] => None | ws => Some (stats_of ws) end.
Proof.
  induction cs as [|c cs IH] using rev_ind; [split; [done|intros site; exact (lookup_empty site)]|].
  cbv zeta in *. rewrite foldl_app. cbn [foldl]. destruct IH as [IH1 IH2]. set (w := foldl run_checkout waits_start cs) in *.
  unfold checkout_wait_stats, run_checkout, acquire_timed in *. cbn [snd]. split; [|intros site]; rewrite waits_of_snoc.
  - destruct (is_ok (c_acquired c)); cbn [andb]; [|done]. cbn [record_checkout_wait CHECKOUT_WAIT]. rewrite IH1. apply record_stats.
  - destruct (is_ok (c_acquired c)); cbn [andb]; [|apply IH2]. cbn [record_checkout_wait CHECKOUT_WAIT_BY_SITE].
    case_bool_decide as Hs; [subst site; rewrite lookup_insert_eq|rewrite lookup_insert_ne by done; apply IH2].
    rewrite IH2. f_equal. rewrite <- record_stats. f_equal. by destruct (waits_of (Some (c_site c)) cs).
Qed.

(** The sums documented as saturating wrap around. *)
Example total_wraps : total_us (record 1 (mkWait 5 u64_max 10)) = 0.
Proof. by vm_compute. Qed.

(** Between the two writes of one checkout the aggregate is ahead of the sites. *)
Example aggregate_runs_ahead :
  let w := record_checkout_wait "search" 7 waits_start in
  let between := mkWaits (record 3 (CHECKOUT_WAIT w)) (CHECKOUT_WAIT_BY_SITE w) in
  w_count (CHECKOUT_WAIT between) = 2 /\ CHECKOUT_WAIT_BY_SITE between = {["search" := mkWait 1 7 7]}.
Proof. by vm_compute. Qed.

(** A pool that reports no more connections than it may open is saturated
    exactly when all of them are in use. *)
Lemma saturated_iff sz num max : 0 <= num <= sz -> sz <= max <= u32_max ->
  saturated (pool_saturation sz num max) = true <-> num = 0 /\ sz = max /\ 0 < max.
Proof.
  intros Hn Hs. unfold saturated, pool_saturation, saturating_sub, u32_max in *. cbn. rewrite Z.mod_small by lia.
  rewrite !andb_true_iff, Z.eqb_eq, Z.eqb_eq, Z.ltb_lt. lia.
Qed.
