(* ===== verification/AutoEmbed.v ===== *)
(** * AutoEmbed: the background embedding loop

    [src/embed/auto_loop.rs]: one tick of [auto_embed_loop], the early index
    build it spawns, and the bounded fan-out of the per-archive pipelines.  The
    loop, its pipelines and the spawned build run beside each other and beside
    the rest of the program: [astep] is one step of any of them.  What a
    pipeline does to the rows is in [EmbedPipeline]; here it may write anything
    and ends with its own build attempt. *)

From stdpp Require Import sorting.
From S2P Require Import Prelude RustStr Errors Auth Settings VectorIndex EmbedPipeline.

Definition EMBED_CONCURRENCY : nat := 2.

(** The rows of [zims] the loop reads. *)
Record ZimState := mkZimState { zs_name : string; zs_embed_enabled : bool; zs_index_status : string }.

Definition name_le (a b : string) : Prop := String.leb a b = true.

#[export] Instance name_le_dec a b : Decision (name_le a b).
Proof. unfold name_le. apply _. Defined.

Definition embeddable (articles : list Article) (z : ZimState) : bool :=
  zs_embed_enabled z && String.eqb (zs_index_status z) "ready" &&
  bool_decide (Exists (fun a => a_zim a = zs_name z /\ a_vec a = None) articles).

Definition list_embeddable_zims (fault : option Error) (zims : list ZimState) (articles : list Article) : Result (list string) :=
  match fault with
  | Some e => Err e
  | None => Ok (merge_sort name_le (zs_name <$> filter (fun z => embeddable articles z = true) zims))
  end.

(** [Option<JoinHandle>]: none, one that runs, one that has finished. *)
Inductive Slot := Free | Building | Built.

Definition reap_completed_build (s : Slot) : Slot := match s with Built => Free | _ => s end.

Record TickEnv := mkTickEnv {
  t_enabled : bool;
  t_list_fault : option Error;
  t_prefilter_fault : option Error;
  t_estimate_fault : bool;
  t_count_fault : option Error;
  t_state_fault : option Error;
  t_now : Z
}.

Definition with_snapshot (s : VectorIndexSnapshot) (b : Build) : Build := mkBuild (probe b) (in_flight b) s (catalog b).

Definition is_free (s : Slot) : bool := match s with Free => true | _ => false end.

Definition maybe_early_build_index (e : TickEnv) (slot : Slot) (b : Build) : Slot * Build :=
  match index_build_prefilter (t_prefilter_fault e) (t_estimate_fault e) (catalog b) with
  | Probe =>
      let '(count, st, b) :=
        match vector_index_state (t_count_fault e) (t_state_fault e) (catalog b) with
        | Ok (c, s) => (c, s, with_snapshot (publish_vector_index_snapshot c s (t_now e)) b)
        | Err _ => (0, Present, b)
        end in
      if negb (build_probe_claimed_recently (probe b) (t_now e)) && should_spawn_build st count && is_free slot
      then (Building, b) else (slot, b)
  | Skip estimate st => (slot, with_snapshot (publish_vector_index_snapshot estimate st (t_now e)) b)
  | SkipUnknown => (slot, b)
  end.

(** ** The loop *)

(** A pipeline of the set, and whether its task has finished. *)
Record Loop := mkLoop {
  l_slot : Slot;
  l_build : Build;
  l_zims : list ZimState;
  l_articles : list Article;
  l_round : option (list string);
  l_queue : list string;
  l_set : list (string * bool);
  l_started : list string
}.

Definition with_slot (s : Slot) (b : Build) (l : Loop) : Loop :=
  mkLoop s b (l_zims l) (l_articles l) (l_round l) (l_queue l) (l_set l) (l_started l).

(** One wake-up of [auto_embed_loop], up to the fan-out. *)
Definition tick (e : TickEnv) (l : Loop) : Loop :=
  if negb (t_enabled e) then l
  else
    let slot := reap_completed_build (l_slot l) in
    match list_embeddable_zims (t_list_fault e) (l_zims l) (l_articles l) with
    | Err _ => with_slot slot (l_build l) l
    | Ok zims =>
        if bool_decide (zims = []) then with_slot slot (l_build l) l
        else
          let '(slot, b) := maybe_early_build_index e slot (l_build l) in
          mkLoop slot b (l_zims l) (l_articles l) (Some zims) zims [] []
    end.

Inductive astep (st : SettingsInner) : Loop -> Loop -> Prop :=
| a_tick e l : l_round l = None -> astep st l (tick e l)
| a_spawn l name rest : is_Some (l_round l) -> l_queue l = name :: rest -> (length (l_set l) < EMBED_CONCURRENCY)%nat ->
    astep st l (mkLoop (l_slot l) (l_build l) (l_zims l) (l_articles l) (l_round l) rest (l_set l ++ [(name, false)]) (l_started l ++ [name]))
| a_pipeline_ends l name before after b : l_set l = before ++ (name, false) :: after ->
    b = l_build l \/ (exists env, b = snd (maybe_build_vector_index env st VECTOR_INDEX_MIN_ROWS (l_build l))) ->
    astep st l (mkLoop (l_slot l) b (l_zims l) (l_articles l) (l_round l) (l_queue l) (before ++ (name, true) :: after) (l_started l))
| a_join l name before after : is_Some (l_round l) -> l_set l = before ++ (name, true) :: after ->
    l_queue l = [] \/ (EMBED_CONCURRENCY <= length (l_set l))%nat ->
    astep st l (mkLoop (l_slot l) (l_build l) (l_zims l) (l_articles l) (l_round l) (l_queue l) (before ++ after) (l_started l))
| a_round_ends l : is_Some (l_round l) -> l_queue l = [] -> l_set l = [] ->
    astep st l (mkLoop (l_slot l) (l_build l) (l_zims l) (l_articles l) None [] [] [])
| a_build_ends l env : l_slot l = Building ->
    astep st l (with_slot Built (snd (maybe_build_vector_index env st MIN_INDEX_BUILD_ROWS (l_build l))) l)
| a_world l zims articles rows live : NoDup (zs_name <$> zims) ->
    astep st l (mkLoop (l_slot l)
      (mkBuild (probe (l_build l)) (in_flight (l_build l)) (snapshot (l_build l)) (mkCatalog rows (idx (catalog (l_build l))) live))
      zims articles (l_round l) (l_queue l) (l_set l) (l_started l)).

Definition loop_start (b : Build) (zims : list ZimState) (articles : list Article) : Loop := mkLoop Free b zims articles None [] [] [].

(** ** The fan-out *)

Definition loop_inv (l : Loop) : Prop :=
  NoDup (zs_name <$> l_zims l) /\
  match l_round l with
  | None => l_queue l = [] /\ l_set l = []
  | Some zims => NoDup zims /\ l_started l ++ l_queue l = zims /\ (length (l_set l) <= EMBED_CONCURRENCY)%nat /\
      (l_set l).*1 `sublist_of` l_started l
  end.

Lemma listed_distinct fault zims articles names : NoDup (zs_name <$> zims) ->
  list_embeddable_zims fault zims articles = Ok names -> NoDup names.
Proof.
  intros Hn. unfold list_embeddable_zims. destruct fault; [done|]. intros [= <-]. rewrite merge_sort_Permutation.
  eapply sublist_NoDup; [exact Hn|]. apply fmap_sublist. apply sublist_filter.
Qed.

Lemma tick_inv e l : l_round l = None -> loop_inv l -> loop_inv (tick e l).
Proof.
  intros Hr Hi. unfold tick. destruct (t_enabled e); cbn [negb]; [|done].
  destruct (list_embeddable_zims _ _ _) as [zims|er] eqn:E; [|exact Hi]. case_bool_decide; [exact Hi|].
  destruct (maybe_early_build_index _ _ _) as [slot b]. destruct Hi as [Hn _]. split; [done|]. cbn. split; [by eapply listed_distinct|].
  split; [done|]. split; [lia|]. apply sublist_nil_l.
Qed.

Lemma astep_inv st l l' : astep st l l' -> loop_inv l -> loop_inv l'.
Proof.
  intros Hs Hi. destruct Hs as [e l Hr|l name rest [zims Hr] Hq Hlen|l name before after b Hset Hb|l name before after [zims Hr] Hset Hj
    |l [zims Hr] Hq Hset|l env Hs|l zims articles rows live Hn]; unfold loop_inv in *; cbn.
  - by apply tick_inv.
  - rewrite Hr in *. destruct Hi as (Hn & Hd & Ha & Hl & Hsub). split; [done|]. split; [done|]. rewrite Hq in Ha.
    split; [by rewrite <- app_assoc|]. rewrite length_app, fmap_app. cbn. split; [unfold EMBED_CONCURRENCY in *; lia|].
    by apply sublist_app.
  - rewrite Hset in Hi. destruct (l_round l) as [zims|].
    + destruct Hi as (Hn & Hd & Ha & Hl & Hsub). split; [done|]. split; [done|]. split; [done|].
      rewrite length_app in *. rewrite fmap_app in *. done.
    + destruct Hi as (_ & _ & Hs). by destruct before.
  - rewrite Hr in *. destruct Hi as (Hn & Hd & Ha & Hl & Hsub). split; [done|]. split; [done|]. split; [done|].
    rewrite Hset in Hl, Hsub. rewrite length_app in *. rewrite fmap_app in *. cbn in Hl, Hsub. split; [lia|].
    etrans; [|exact Hsub]. apply sublist_app; [done|]. by apply sublist_cons.
  - by destruct Hi as [Hn _].
  - done.
  - destruct Hi as [_ Hi]. done.
Qed.

Lemma reach_inv st l l' : rtc (astep st) l l' -> loop_inv l -> loop_inv l'.
Proof. induction 1 as [|x y z Hxy _ IH]; [done|]. intros Hi. apply IH. by eapply astep_inv. Qed.

(** What is left of a round: a pipeline has to be started, to end and to be
    joined. *)
Definition unfinished (p : string * bool) : nat := if snd p then 1 else 2.

Definition left_over (l : Loop) : nat := (3 * length (l_queue l) + sum_list_with unfinished (l_set l))%nat.

(** The steps of the fan-out itself. *)
Definition fan_step (st : SettingsInner) (l l' : Loop) : Prop :=
  astep st l l' /\ l_zims l' = l_zims l /\ l_round l' = l_round l /\ (left_over l' < left_over l)%nat.

Lemma left_over_zero l : left_over l = O -> l_queue l = [] /\ l_set l = [].
Proof. unfold left_over. destruct (l_queue l), (l_set l) as [|[n []] ps]; cbn; try lia. done. Qed.

(** A round that is not over has a step: a free place takes the next archive, a
    finished pipeline is joined, a running one can end. *)
Lemma fan_out_progress st l zims : loop_inv l -> l_round l = Some zims -> left_over l <> O -> exists l', fan_step st l l'.
Proof.
  intros [_ Hi] Hr Hl. rewrite Hr in Hi. destruct Hi as (_ & _ & Hlen & _).
  destruct (l_set l) as [|[n fin] ps] eqn:Es.
  - destruct (l_queue l) as [|name rest] eqn:Eq; [unfold left_over in Hl; by rewrite Es, Eq in Hl|].
    eexists. split; [eapply (a_spawn st l name rest); rewrite ?Hr, ?Es; [done|done|unfold EMBED_CONCURRENCY; cbn; lia]|].
    cbn. split; [done|]. split; [done|]. unfold left_over. rewrite Es, Eq. cbn. lia.
  - destruct fin.
    + destruct (decide (l_queue l = [] \/ (EMBED_CONCURRENCY <= length (l_set l))%nat)) as [Hj|Hj].
      * eexists. split; [eapply (a_join st l n [] ps); [by rewrite Hr|done|done]|]. cbn. split; [done|]. split; [done|].
        unfold left_over. rewrite Es. cbn. lia.
      * destruct (l_queue l) as [|name rest] eqn:Eq; [naive_solver|].
        eexists. split; [eapply (a_spawn st l name rest); [by rewrite Hr|done|destruct (Nat.lt_ge_cases (length (l_set l)) EMBED_CONCURRENCY);
          [done|naive_solver]]|]. cbn. split; [done|]. split; [done|].
        unfold left_over. rewrite Es, Eq. cbn [l_queue l_set length]. rewrite sum_list_with_app. cbn. lia.
    + eexists. split; [eapply (a_pipeline_ends st l n [] ps (l_build l)); [done|by left]|]. cbn. split; [done|]. split; [done|].
      unfold left_over. rewrite Es. cbn. lia.
Qed.

Lemma fan_out_ends st : forall n l zims, (left_over l <= n)%nat -> loop_inv l -> l_round l = Some zims ->
  exists l', rtc (fan_step st) l l' /\ l_round l' = Some zims /\ l_queue l' = [] /\ l_set l' = [] /\ l_started l' = zims.
Proof.
  induction n as [|n IH]; intros l zims Hn Hi Hr.
  - destruct (left_over_zero l) as [Hq Hs]; [lia|]. exists l. destruct Hi as [_ Hi]. rewrite Hr in Hi. destruct Hi as (_ & Ha & _).
    rewrite Hq, app_nil_r in Ha. done.
  - destruct (decide (left_over l = O)) as [E|E]; [apply (IH l zims); [lia|done..]|].
    destruct (fan_out_progress st l zims Hi Hr E) as (l1 & Hf). pose proof Hf as (Hs & _ & Hr1 & Hlt).
    destruct (IH l1 zims) as (l' & H1 & H2); [lia|by eapply astep_inv|congruence|]. exists l'. split; [by eapply rtc_l|done].
Qed.

(** C25: the fan-out is bounded and complete.  However ticks, pipelines, index
    builds and the rest of the program interleave, at most two pipelines of the
    loop are there at a time, for different archives, every archive of a round
    is started once, in order, and a new round does not begin before the last
    one is over.  A round always can be carried on: there is a sequence of its
    own steps, never more than three per archive, after which every archive was
    started and every pipeline joined. *)
Theorem embed_round_is_bounded_and_complete st b zims articles l :
  NoDup (zs_name <$> zims) -> rtc (astep st) (loop_start b zims articles) l ->
  (length (l_set l) <= 2)%nat /\ NoDup (l_set l).*1 /\
  match l_round l with
  | None => l_set l = []
  | Some names =>
      NoDup names /\ l_started l ++ l_queue l = names /\
      exists l' n, nsteps (fan_step st) n l l' /\ (n <= 3 * length names)%nat /\
        l_started l' = names /\ l_queue l' = [] /\ l_set l' = []
  end.
Proof.
  intros Hz Hs. assert (Hi : loop_inv l) by (eapply reach_inv; [exact Hs|by split]). pose proof Hi as [_ Hr].
  destruct (l_round l) as [names|] eqn:Er; [|destruct Hr as [_ ->]; split; [cbn; lia|split; [constructor|done]]].
  destruct Hr as (Hd & Ha & Hlen & Hsub). split; [exact Hlen|].
  assert (Hds : NoDup (l_started l)) by (rewrite <- Ha in Hd; by apply NoDup_app in Hd as (? & _)).
  split; [by eapply sublist_NoDup|]. split; [done|]. split; [done|].
  destruct (fan_out_ends st (left_over l) l names) as (l' & Hf & _ & Hq & Hset & Hst); [done..|].
  apply rtc_nsteps in Hf as [n Hf]. exists l', n. split; [exact Hf|]. split; [|done].
  assert (Hn : (n + left_over l' <= left_over l)%nat).
  { clear -Hf. induction Hf as [|n x y z (_ & _ & _ & Hlt) _ IH]; lia. }
  assert (Hsum : (sum_list_with unfinished (l_set l) <= 2 * length (l_set l))%nat).
  { clear. induction (l_set l) as [|[m []] ps IH]; unfold unfinished in *; cbn in *; lia. }
  assert (Hle : (length (l_set l) <= length (l_started l))%nat) by (apply sublist_length in Hsub; by rewrite length_fmap in Hsub).
  unfold left_over in Hn at 2. rewrite <- Ha, length_app. lia.
Qed.

Definition one_zim : list ZimState := [mkZimState "wiki" true "ready"].
Definition one_article : list Article := [mkArticle 1 "wiki" (Some "s") None None None None].
Definition empty_build : Build := mkBuild 0 false (mkSnapshot 0 Absent 0) (mkCatalog 0 Absent 0).
Definition calm_tick (now : Z) : TickEnv := mkTickEnv true None None false None None now.

Lemma embed_round_is_bounded_and_complete_witness :
  let st := mkInner ∅ ∅ ∅ default_cache default_cache 0 ∅ None ∅ in
  let l := tick (calm_tick 1000) (loop_start empty_build one_zim one_article) in
  (length (l_set l) <= 2)%nat /\ NoDup (l_set l).*1 /\
  match l_round l with
  | None => l_set l = []
  | Some names =>
      NoDup names /\ l_started l ++ l_queue l = names /\
      exists l' n, nsteps (fan_step st) n l l' /\ (n <= 3 * length names)%nat /\
        l_started l' = names /\ l_queue l' = [] /\ l_set l' = []
  end.
Proof.
  intros st l. apply (embed_round_is_bounded_and_complete st empty_build one_zim one_article l).
  - apply NoDup_singleton.
  - apply rtc_once. apply a_tick. reflexivity.
Defined.

(** ** The early build *)

Lemma allowed_later last a b : a <= b -> build_probe_allowed last a = true -> build_probe_allowed last b = true.
Proof.
  unfold build_probe_allowed, saturating_sub. rewrite !orb_true_iff, !Z.leb_le. intros Hab [?|?]; [by left|right]. lia.
Qed.

(** When a tick spawns a build. *)
Definition wants_build (e : TickEnv) (slot : Slot) (b : Build) : Prop :=
  slot = Free /\ t_prefilter_fault e = None /\ t_count_fault e = None /\ t_state_fault e = None /\
  idx (catalog b) <> Present /\ MIN_INDEX_BUILD_ROWS <= live_rows_estimate (t_estimate_fault e) (catalog b) /\
  MIN_INDEX_BUILD_ROWS <= rows_embedded (catalog b) /\ build_probe_allowed (probe b) (t_now e) = true.

Lemma classify_flag s : (let '(v, i) := flag s in classify_index_state v i) = s.
Proof. by destruct s. Qed.

Lemma early_build_slot e slot b : fst (maybe_early_build_index e slot b) = Building <-> slot = Building \/ wants_build e slot b.
Proof.
  unfold maybe_early_build_index, index_build_prefilter, vector_index_state, index_state, wants_build, should_spawn_build, build_probe_claimed_recently.
  pose proof (classify_flag (idx (catalog b))) as Hc. destruct (flag (idx (catalog b))) as [v i]. rewrite Hc.
  destruct (t_prefilter_fault e); cbn; [naive_solver|]. destruct (idx (catalog b)) eqn:Ei; cbn [is_present negb andb]; [|naive_solver|].
  all: destruct (Z.leb_spec MIN_INDEX_BUILD_ROWS (live_rows_estimate (t_estimate_fault e) (catalog b))); cbn; [|naive_solver lia].
  all: destruct (t_count_fault e); cbn; [rewrite andb_false_r; naive_solver|]. 
  all: destruct (t_state_fault e); cbn; [rewrite andb_false_r; naive_solver|].
  all: rewrite negb_involutive; destruct (build_probe_allowed (probe b) (t_now e)); cbn; [|naive_solver].
  all: destruct (Z.leb_spec MIN_INDEX_BUILD_ROWS (rows_embedded (catalog b))); cbn; [|naive_solver lia].
  all: destruct slot; cbn; naive_solver.
Qed.

Lemma early_build_keeps e slot b : let b' := snd (maybe_early_build_index e slot b) in
  probe b' = probe b /\ in_flight b' = in_flight b /\ catalog b' = catalog b.
Proof.
  unfold maybe_early_build_index. destruct (index_build_prefilter _ _ _); [|done..].
  destruct (vector_index_state _ _ _) as [[c s]|]; by destruct (_ && _).
Qed.

(** The early build runs when it should.  A tick with a free slot spawns a
    build exactly when its probes succeed, the catalog has no valid index and
    at least 10000 embedded rows (and no smaller an estimate), and no attempt
    was made in the last ten minutes; it never takes the shared claim itself.
    So a build it spawned, whose own statements succeed, finds the claim free
    and leaves a valid index. *)
Theorem early_build_is_effective e st env b :
  let '(slot, b') := maybe_early_build_index e Free b in
  (slot = Building <-> wants_build e Free b) /\ probe b' = probe b /\ catalog b' = catalog b /\
  (slot = Building -> t_now e <= now env -> count_fault env = None -> state_fault env = None ->
   drop_concurrently env = NoFault \/ drop_plain env = NoFault -> (forall q, create env q = NoFault) ->
   let '(built, b'') := maybe_build_vector_index env st MIN_INDEX_BUILD_ROWS b' in
   built = true /\ idx (catalog b'') = Present).
Proof.
  pose proof (early_build_slot e Free b) as Hslot. pose proof (early_build_keeps e Free b) as (Hp & _ & Hc). cbv zeta in *.
  destruct (maybe_early_build_index e Free b) as [slot b']. cbn [fst snd] in *. split; [rewrite Hslot; split; [intros [?|?]; done|by right]|].
  split; [done|]. split; [done|]. intros Hs Hnow Hcf Hsf Hd Hcr. apply Hslot in Hs as [?|(_ & _ & _ & _ & Hi & _ & Hrows & Ha)]; [done|].
  pose proof (build_attempt_outcome env st MIN_INDEX_BUILD_ROWS b') as Hb.
  destruct (maybe_build_vector_index env st MIN_INDEX_BUILD_ROWS b') as [built b'']. destruct Hb as (_ & _ & Hok & Hgo).
  assert (built = true) as ->; [|split; [done|by apply Hok]].
  apply Hgo; try done; rewrite ?Hp, ?Hc; try done. by eapply allowed_later.
Qed.

(** ** A backfill whose last build failed *)

Lemma nothing_left_keeps e l : list_embeddable_zims None (l_zims l) (l_articles l) = Ok [] -> l_build (tick e l) = l_build l /\
  l_round (tick e l) = l_round l.
Proof.
  intros Hn. unfold tick. destruct (t_enabled e); cbn [negb]; [|done]. unfold list_embeddable_zims in *. destruct (t_list_fault e); [done|].
  injection Hn as ->. rewrite bool_decide_true by done. done.
Qed.

(** With every article embedded, no tick looks at the index again: a database
    with enough rows and no index stays without one. *)
Example finished_backfill_builds_no_index :
  let b := mkBuild 1000 false (mkSnapshot 20000 Absent 1000) (mkCatalog 20000 Absent 20000) in
  let articles := [mkArticle 1 "wiki" (Some "s") None (Some "[0]") None None] in
  let l := loop_start b one_zim articles in
  l_build (tick (calm_tick 1000000) l) = b /\ wants_build (calm_tick 1000000) Free b.
Proof. split; [reflexivity|]. by vm_compute. Qed.
