(* ===== verification/Diagnostics.v ===== *)
(** * Diagnostics: what the service tells about itself

    [GET /health] and [GET /diagnostic]: the handlers in
    [src/serve/handlers/zims.rs] and the collector in
    [src/serve/diagnostics.rs], over the probes, pools, statistics and tables
    of the other components. *)

From stdpp Require Import sorting.
From S2P Require Import Prelude RustStr Errors IpAddr Cidr Lockout SettingDefs Auth Settings Middleware Health Pool VectorIndex ZimManager Notify.

(** ** Health *)

Record HealthResponse := mkHealth {
  h_status : string;
  h_zims_count : Z;
  h_articles_count : Z;
  h_db_connected : bool;
  h_qbit_connected : bool;
  h_multi_instance : bool;
  h_multi_db : bool;
  h_degraded : list string;
  h_building : bool
}.

(** The clocks and answers of the two probes, and the two opt-outs. *)
Record HealthEnv := mkHealthEnv {
  h_db_now : Z; h_db_answer : option bool; h_db_done : Z;
  h_qbit_now : Z; h_qbit_answer : option bool; h_qbit_done : Z;
  allow_multi_instance : bool; allow_multi_db : bool
}.

Definition health `{!HashIter string (Z * Z)} (e : HealthEnv) (summary : Z * Z) (probes : ProbeState)
    (degradation : DegradationTracker) (index_building : bool) : Z * HealthResponse * ProbeState :=
  let '(zims_count, total_articles) := summary in
  let '(db_connected, probes) := probe_db probes (h_db_now e) (h_db_answer e) (h_db_done e) in
  let '(qbit_connected, probes) := probe_qbit probes (h_qbit_now e) (h_qbit_answer e) (h_qbit_done e) in
  let '(code, status) := if db_connected : bool then (200, "ok") else (503, "degraded") in
  (code,
   mkHealth status zims_count total_articles db_connected qbit_connected (allow_multi_instance e)
     (negb (allow_multi_instance e) && allow_multi_db e) (fst <$> degraded_snapshot degradation) index_building,
   probes).

(** ** Diagnostics *)

Record ZimIntegrityRow := mkIntegrity { i_name : string; i_content : option string; i_publisher : option string; i_drift : bool }.

Record ContentIntegrityDiagnostic := mkIntegrityDiag { i_zims : list ZimIntegrityRow; publisher_verified : Z; drift : Z }.

Definition content_integrity_snapshot (rows : Result (list (string * option string * option string * bool))) :
    Result ContentIntegrityDiagnostic :=
  let? rows := rows in
  let zims := (fun r => let '(n, c, p, d) := r in mkIntegrity n c p d) <$> rows in
  Ok (mkIntegrityDiag zims (Z.of_nat (length (filter (fun z => is_Some (i_publisher z)) zims)))
        (Z.of_nat (length (filter (fun z => i_drift z = true) zims)))).

Record CheckoutWait := mkCheckoutWait { cw_count : Z; cw_max : Z; cw_avg : Z; cw_by_site : list (string * (Z * Z * Z)) }.

Definition checkout_wait_snapshot `{!HashIter string CheckoutWaitStats} (w : CheckoutWaits) : CheckoutWait :=
  let s := checkout_wait_stats w in
  mkCheckoutWait (w_count s) (max_us s) (avg_us s)
    ((fun e => (fst e, (w_count (snd e), max_us (snd e), avg_us (snd e)))) <$> checkout_wait_stats_by_site w).

(** What the collector reads. *)
Record DiagEnv := mkDiagEnv {
  g_pool : PoolSaturation;
  g_pool_read : option PoolSaturation;
  g_pool_bg : PoolSaturation;
  g_snapshot : VectorIndexSnapshot;
  g_catalog : Catalog;
  g_count_fault : option Error;
  g_state_fault : option Error;
  g_integrity_fault : option Error;
  g_now : Z;
  g_now' : Z;
  g_waits : CheckoutWaits;
  g_cache_len : Z;
  g_notify : option StatusInner
}.

Record DiagnosticResponse := mkDiag {
  settings_mismatches : list string;
  pool : PoolSaturation;
  pool_read : option PoolSaturation;
  pool_bg : PoolSaturation;
  vector_index : option VectorIndexDiagnosis;
  checkout_wait : CheckoutWait;
  query_embed_cache_entries : Z;
  content_integrity : option ContentIntegrityDiagnostic;
  notify : option StatusInner
}.

Section Diagnostic.
Context {Ch : Chrono} `{!HashIter string CheckoutWaitStats}.

(** The two database probes run at once and touch different state.  The
    response, the index snapshot it may have renewed, and the pools a warning
    is logged for. *)
Definition diagnostic_snapshot (e : DiagEnv) (st : SettingsInner) (zims : ZimsTable) :
    DiagnosticResponse * VectorIndexSnapshot * list string :=
  let '(vi, snap) := vector_index_diagnostic (g_snapshot e) (g_catalog e) (g_count_fault e) (g_state_fault e) (g_now e) (g_now' e) in
  let ci := content_integrity_snapshot (integrity_snapshot_rows (g_integrity_fault e) zims) in
  let warned :=
    (if saturated (g_pool e) then ["db pool"] else []) ++
    (if default false (saturated <$> g_pool_read e) then ["read-replica pool"] else []) ++
    (if saturated (g_pool_bg e) then ["background pool"] else []) in
  (mkDiag (type_mismatch_report st) (g_pool e) (g_pool_read e) (g_pool_bg e) vi (checkout_wait_snapshot (g_waits e)) (g_cache_len e)
     (match ci with Ok c => Some c | Err _ => None end) (g_notify e),
   snap, warned).

Definition diagnostic (authenticated : bool) (e : DiagEnv) (st : SettingsInner) (zims : ZimsTable) :
    result (Z * string) (DiagnosticResponse * VectorIndexSnapshot * list string) :=
  if negb authenticated then Err (401, "authentication required — present the admin token")
  else Ok (diagnostic_snapshot e st zims).

(** The handler behind its extractor. *)
Context {Fu : FormUrl} {Ip : IpNetApi} {Cr : Crypto} {Hs : HashIter string Z} {Hl : HashIter IpAddr (Z * Z)}.

Definition diagnostic_request (a : Ambient) (app : AppState) (m : string) (auth q : option string) (e : DiagEnv) (zims : ZimsTable) :
    may_panic (result (Z * string) (DiagnosticResponse * VectorIndexSnapshot * list string)) * AppState :=
  let '(r, app') := settings_authed a app m auth q in
  (match r with Ok authenticated => Ok (diagnostic authenticated e (settings app') zims) | Err p => Err p end, app').

(** ** Properties *)

Lemma diagnostic_authed a app m auth q e zims d app' :
  diagnostic_request a app m auth q e zims = (Ok (Ok d), app') -> settings_authed a app m auth q = (Ok true, app').
Proof.
  unfold diagnostic_request. destruct (settings_authed a app m auth q) as [[[]|p] app1]; cbn; intros E; by simplify_eq.
Qed.

(** Diagnostics are for the administrator.  In any mode but [password] the
    answer is 401 and nothing is verified or changed; a report is given only
    for a token that the request carried and that verified against the stored
    password. *)
Theorem diagnostics_need_the_admin_token a app m auth q e zims :
  let '(out, app') := diagnostic_request a app m auth q e zims in
  (access_mode (settings app) <> ACCESS_MODE_PASSWORD ->
     out = Ok (Err (401, "authentication required — present the admin token")) /\ app' = app) /\
  (forall d, out = Ok (Ok d) -> access_mode (settings app) = ACCESS_MODE_PASSWORD /\
     exists t, presented_token (mkReq m EmptyString q None None auth) = Some t /\
       fst (verify_bg (t_fast a) (t_kdf a) (kdf_permit a) t (settings app)) = Ok true).
Proof.
  unfold diagnostic_request, settings_authed. destruct (String.eqb_spec (access_mode (settings app)) ACCESS_MODE_PASSWORD) as [Hm|Hm]; cbn [negb].
  - destruct (presented_token _) as [t|]; [|split; [done|intros d E; discriminate E]].
    destruct (verify_bg _ _ _ t (settings app)) as [r s] eqn:Ev. split; [done|]. intros d E. split; [done|]. exists t. split; [done|].
    rewrite Ev. destruct r as [[]|]; [done|discriminate E..].
  - split; [done|intros d E; discriminate E].
Qed.

(** *** The integrity report *)

Definition has_record (r : ZimRow) : bool :=
  bool_decide (is_Some (r_content_sha256 r)) || bool_decide (is_Some (r_publisher_sha256 r)) || r_digest_drift r.

Definition report_row (kv : string * ZimRow) : ZimIntegrityRow :=
  mkIntegrity (fst kv) (r_content_sha256 (snd kv)) (r_publisher_sha256 (snd kv)) (r_digest_drift (snd kv)).

Lemma integrity_rows zims c : content_integrity_snapshot (integrity_snapshot_rows None zims) = Ok c ->
  i_zims c ≡ₚ report_row <$> filter (fun kv => has_record (snd kv) = true) (map_to_list (zrows zims)) /\
  publisher_verified c = Z.of_nat (length (filter (fun z => is_Some (i_publisher z)) (i_zims c))) /\
  drift c = Z.of_nat (length (filter (fun z => i_drift z = true) (i_zims c))).
Proof.
  unfold content_integrity_snapshot, integrity_snapshot_rows. cbn [rbind]. intros [= <-]. cbn [i_zims publisher_verified drift]. split; [|done].
  rewrite <- list_fmap_compose, merge_sort_Permutation. rewrite (list_fmap_ext _ report_row) by done. apply fmap_Permutation.
  induction (map_to_list (zrows zims)) as [|kv l IH]; [done|]. cbn [List.filter]. unfold has_record in *.
  destruct (_ || _) eqn:E; [rewrite filter_cons_True by done; by rewrite IH|rewrite filter_cons_False by congruence; done].
Qed.
End Diagnostic.

(** The integrity report is the table.  When its scan succeeds the report
    lists exactly the archives with an integrity record, each once with its own
    digests, and its two counts are the numbers of archives in the whole table
    with a verified publisher digest and with drift. *)
Theorem integrity_report_is_the_table {Ch : Chrono} `{!HashIter string CheckoutWaitStats} e st zims :
  g_integrity_fault e = None ->
  exists c, content_integrity (fst (fst (diagnostic_snapshot e st zims))) = Some c /\
    i_zims c ≡ₚ report_row <$> filter (fun kv => has_record (snd kv) = true) (map_to_list (zrows zims)) /\
    drift c = Z.of_nat (length (filter (fun kv => r_digest_drift (snd kv) = true) (map_to_list (zrows zims)))) /\
    publisher_verified c = Z.of_nat (length (filter (fun kv => is_Some (r_publisher_sha256 (snd kv))) (map_to_list (zrows zims)))).
Proof.
  intros Hf. unfold diagnostic_snapshot. rewrite Hf.
  destruct (vector_index_diagnostic _ _ _ _ _ _) as [vi snap]. cbn [fst content_integrity].
  destruct (content_integrity_snapshot (integrity_snapshot_rows None zims)) as [c|er] eqn:E; [|done].
  exists c. split; [done|]. destruct (integrity_rows zims c E) as (Hz & Hp & Hd). split; [exact Hz|]. rewrite Hp, Hd, Hz.
  assert (Hcount : forall (P : ZimIntegrityRow -> Prop) (Q : string * ZimRow -> Prop) `{forall x, Decision (P x), forall x, Decision (Q x)},
    (forall kv, Q kv <-> P (report_row kv)) -> (forall kv, Q kv -> has_record (snd kv) = true) -> forall l,
    length (filter P (report_row <$> filter (fun kv => has_record (snd kv) = true) l)) = length (filter Q l)).
  { intros P Q ? ? HPQ HQ. induction l as [|kv l IH]; [done|]. rewrite (filter_cons Q), (filter_cons (fun kv => has_record (snd kv) = true)).
    destruct (decide (Q kv)) as [Hq|Hq].
    - rewrite decide_True by (by apply HQ). rewrite fmap_cons, filter_cons_True by (by apply HPQ). cbn. by rewrite IH.
    - destruct (decide (has_record (snd kv) = true)); [|done]. rewrite fmap_cons, filter_cons_False by (by rewrite <- HPQ). done. }
  split; f_equal; apply Hcount; intros kv; try done; unfold has_record; intros Hq.
  - by rewrite Hq, orb_true_r.
  - by rewrite (bool_decide_true _ Hq), orb_true_r.
Qed.

(** The status mirrors the database probe, and within its two seconds a probe's
    answer is repeated without asking again: a call at [t] after one that ended
    at [d] gives the same status whatever the database would answer now. *)
Lemma health_follows_probe `{!HashIter string (Z * Z)} e e' s probes g b code r probes' :
  health e s probes g b = (code, r, probes') -> Health.fresh (Health.db probes) (h_db_now e) = None ->
  h_db_done e <= h_db_now e' -> h_db_now e' - h_db_done e < PROBE_TTL ->
  (code = 200 <-> h_db_answer e = Some true) /\ fst (fst (health e' s probes' g b)) = code.
Proof.
  unfold health, probe_db. destruct s as [zc ta]. intros E Hf Hle Hlt. rewrite Hf in E.
  unfold probe_qbit in E. cbn [qbit Health.db] in E.
  assert (Hdb : Health.db probes' = Some (default false (h_db_answer e), h_db_done e) /\
    code = if default false (h_db_answer e) then 200 else 503).
  { destruct (Health.fresh (qbit probes) (h_qbit_now e)); destruct (default false (h_db_answer e)); by simplify_eq. }
  destruct Hdb as [Hdb ->]. split; [destruct (h_db_answer e) as [[]|]; cbn; split; (done || lia || congruence)|].
  assert (Hfr : Health.fresh (Health.db probes') (h_db_now e') = Some (default false (h_db_answer e))).
  { rewrite Hdb. unfold Health.fresh, checked_duration_since. destruct (Z.leb_spec (h_db_done e) (h_db_now e')); [|lia].
    destruct (Z.ltb_spec (h_db_now e' - h_db_done e) PROBE_TTL); [done|lia]. }
  rewrite Hfr. destruct (probe_qbit _ _ _ _) as [qc pr]. by destruct (default false (h_db_answer e)).
Qed.
