(* ===== verification/Router.v ===== *)
(** * Router: the routes and their layers

    [build_router] of [src/serve/mod.rs]: the route table, the dispatch by path
    and method, and the layers around it, outermost first: the body limit,
    CORS, the rate limit and the access gate.  The layer added last is the
    outermost one.  What the program relies on of [axum] and [tower-http] is the
    class [AxumApi], with the documented behaviour of its path patterns, method
    routers and body limit as laws; tracing only logs. *)

From S2P Require Import Prelude RustStr IpAddr RateLimit Cidr Lockout JsonValue SettingDefs Auth Middleware.

Definition MAX_REQUEST_BODY_BYTES : Z := 10 * 1024 * 1024.

Inductive Handler :=
  | health | diagnostic | list_zims | search | suggest | read_article | raw_content | get_chunks | get_snippet
  | random_article | interlanguage | get_settings | put_settings | get_zim_settings | put_zim_settings
  | list_downloads | add_download | cancel_download | web_index | web_search | web_settings | web_style_css
  | web_common_js | web_index_js | web_search_js | web_settings_js | openapi_json
  | list_collections | create_collection | update_collection | delete_collection.

#[export] Instance Handler_eq_dec : EqDecision Handler.
Proof. solve_decision. Defined.

(** A segment of a route: a text, [{name}] or [{*name}]. *)
Inductive Seg := Lit (s : string) | Param (name : string) | Rest (name : string).

#[export] Instance Seg_eq_dec : EqDecision Seg.
Proof. solve_decision. Defined.

Definition Route : Type := list Seg * list (string * Handler).

Definition ROUTES : list Route :=
  [([Lit "health"], [("GET", health)]);
   ([Lit "diagnostic"], [("GET", diagnostic)]);
   ([Lit "list"], [("GET", list_zims)]);
   ([Lit "search"], [("GET", search)]);
   ([Lit "suggest"], [("GET", suggest)]);
   ([Lit "read"], [("GET", read_article)]);
   ([Lit "w"; Param "zim"; Rest "path"], [("GET", raw_content)]);
   ([Lit "chunks"], [("GET", get_chunks)]);
   ([Lit "snippet"], [("GET", get_snippet)]);
   ([Lit "random"], [("GET", random_article)]);
   ([Lit "interlanguage"], [("GET", interlanguage)]);
   ([Lit "settings"], [("GET", get_settings); ("PUT", put_settings)]);
   ([Lit "settings"; Lit "zim"; Param "name"], [("GET", get_zim_settings); ("PUT", put_zim_settings)]);
   ([Lit "downloads"], [("GET", list_downloads); ("POST", add_download)]);
   ([Lit "downloads"; Param "id"], [("DELETE", cancel_download)]);
   ([Lit EmptyString], [("GET", web_index)]);
   ([Lit "search.html"], [("GET", web_search)]);
   ([Lit "settings.html"], [("GET", web_settings)]);
   ([Lit "style.css"], [("GET", web_style_css)]);
   ([Lit "common.js"], [("GET", web_common_js)]);
   ([Lit "index.js"], [("GET", web_index_js)]);
   ([Lit "search.js"], [("GET", web_search_js)]);
   ([Lit "settings.js"], [("GET", web_settings_js)]);
   ([Lit "openapi.json"], [("GET", openapi_json)]);
   ([Lit "collections"], [("GET", list_collections); ("POST", create_collection)]);
   ([Lit "collections"; Param "id"], [("PUT", update_collection); ("DELETE", delete_collection)])].

(** ** What is used of [axum] *)

(** The documented meaning of a pattern: a parameter takes one segment that is
    not empty, a rest everything that is left, not empty. *)
Fixpoint match_segs (pattern : list Seg) (segs : list string) : option (list (string * string)) :=
  match pattern, segs with
  | [], [] => Some []
  | [Rest n], _ :: _ => let s := str_join "/" segs in if str_is_empty s then None else Some [(n, s)]
  | Lit l :: pattern, s :: segs => if String.eqb l s then match_segs pattern segs else None
  | Param n :: pattern, s :: segs => if str_is_empty s then None else ((n, s) ::.) <$> match_segs pattern segs
  | _, _ => None
  end.

Definition path_segments (path : string) : option (list string) :=
  match path with
  | String c rest => if Ascii.eqb c "/" then Some (split_on (Ascii.eqb "/") rest) else None
  | EmptyString => None
  end.

Definition pattern_matches (pattern : list Seg) (path : string) : option (list (string * string)) :=
  match path_segments path with Some segs => match_segs pattern segs | None => None end.

(** The path matcher, the method routers ([get] serves [HEAD] too), the body
    limit by the declared length, the requests the CORS layer answers itself,
    and which texts are header values. *)
Class AxumApi := {
  path_match : list Seg -> string -> option (list (string * string));
  path_match_doc p path ps : path_match p path = Some ps -> pattern_matches p path = Some ps;
  serves_method : string -> string -> bool;
  serves_method_doc registered m : serves_method registered m = true -> m = registered \/ (registered = "GET" /\ m = "HEAD");
  over_limit : Z -> option Z -> bool;
  over_limit_doc limit n : over_limit limit (Some n) = false -> n <= limit;
  cors_answers : Request -> bool;
  is_header_value : string -> bool
}.

Inductive Dispatch := Run (h : Handler) (params : list (string * string)) | MethodNotAllowed | NotFoundPage.

Inductive Outcome :=
  | PayloadTooLarge
  | CorsAnswer
  | Blocked (r : Response)
  | Dispatched (d : Dispatch)
  | Crashed.

Section Router.
Context {Ax : AxumApi} {Fu : FormUrl} {Ip : IpNetApi} {Cr : Crypto}
  {Hs : HashIter string Z} {Hl : HashIter IpAddr (Z * Z)}.
Context {Cfg : Type} `{!RateSettings Cfg}.

(** ** Dispatch *)

Fixpoint find_route (path : string) (routes : list Route) : option (Route * list (string * string)) :=
  match routes with
  | [] => None
  | r :: rest => match path_match (fst r) path with Some ps => Some (r, ps) | None => find_route path rest end
  end.

Definition find_method (m : string) (ms : list (string * Handler)) : option Handler :=
  snd <$> List.find (fun mh => serves_method (fst mh) m) ms.

Definition dispatch (routes : list Route) (m path : string) : Dispatch :=
  match find_route path routes with
  | None => NotFoundPage
  | Some (r, params) => match find_method m (snd r) with Some h => Run h params | None => MethodNotAllowed end
  end.

(** ** CORS *)

Definition cors_origins (raw : string) : list string :=
  List.filter is_header_value (List.filter (fun s => negb (str_is_empty s)) (trim <$> split_on (Ascii.eqb ",") raw)).

(** ** The layers *)

Definition serve_request (a : Ambient) (now1 now2 : Z) (cfg : Cfg) (content_length : option Z) (req : Request)
    (st : AppState) (h : RateLimiterHandle) : Outcome * AppState * RateLimiterHandle :=
  if over_limit MAX_REQUEST_BODY_BYTES content_length then (PayloadTooLarge, st, h)
  else if cors_answers req then (CorsAnswer, st, h)
  else
    match rate_limit now1 now2 h cfg (path req) with
    | (None, h) => (Crashed, st, h)
    | (Some Forwarded, h) =>
        match auth_middleware a st req with
        | (Err _, st) => (Crashed, st, h)
        | (Ok Forwarded, st) => (Dispatched (dispatch ROUTES (method req) (path req)), st, h)
        | (Ok r, st) => (Blocked r, st, h)
        end
    | (Some r, h) => (Blocked r, st, h)
    end.
End Router.

(** ** The table *)

(** Whether two patterns can match one path. *)
Fixpoint overlap (p q : list Seg) : bool :=
  match p, q with
  | [], [] => true
  | Rest _ :: _, _ :: _ | _ :: _, Rest _ :: _ => true
  | Lit a :: p, Lit b :: q => String.eqb a b && overlap p q
  | Lit _ :: p, Param _ :: q | Param _ :: p, Lit _ :: q | Param _ :: p, Param _ :: q => overlap p q
  | _, _ => false
  end.

Lemma match_overlap p : forall q segs, is_Some (match_segs p segs) -> is_Some (match_segs q segs) -> overlap p q = true.
Proof.
  induction p as [|[a|n|n] p IH]; intros [|[b|m|m] q] [|s segs] Hp Hq; cbn in *;
    try done; try (by destruct Hp); try (by destruct Hq); try (by destruct p; destruct Hp); try (by destruct q; destruct Hq).
  - destruct (String.eqb_spec a s) as [->|]; [|by destruct Hp]. destruct (String.eqb_spec b s) as [->|]; [|by destruct Hq].
    rewrite String.eqb_refl. by apply (IH q segs).
  - destruct (String.eqb_spec a s); [|by destruct Hp]. destruct (str_is_empty s); [by destruct Hq|].
    apply fmap_is_Some in Hq. by apply (IH q segs).
  - destruct (String.eqb_spec b s); [|by destruct Hq]. destruct (str_is_empty s); [by destruct Hp|].
    apply fmap_is_Some in Hp. by apply (IH q segs).
  - destruct (str_is_empty s); [by destruct Hp|]. apply fmap_is_Some in Hp, Hq. by apply (IH q segs).
Qed.

Definition disjoint_routes (rs : list Route) : bool :=
  forallb (fun r => forallb (fun r' => bool_decide (r = r') || negb (overlap (fst r) (fst r'))) rs) rs.

Lemma routes_disjoint : disjoint_routes ROUTES = true.
Proof. vm_compute. reflexivity. Qed.

Section Table.
Context {Ax : AxumApi}.

Lemma one_route path r r' ps ps' : r ∈ ROUTES -> r' ∈ ROUTES -> path_match (fst r) path = Some ps -> path_match (fst r') path = Some ps' -> r = r'.
Proof.
  intros Hr Hr' Hm%path_match_doc Hm'%path_match_doc. pose proof routes_disjoint as Hd. unfold disjoint_routes in Hd. rewrite forallb_forall in Hd.
  specialize (Hd r ltac:(by apply list_elem_of_In)). rewrite forallb_forall in Hd. specialize (Hd r' ltac:(by apply list_elem_of_In)).
  apply orb_true_iff in Hd as [Hd|Hd]; [by apply bool_decide_eq_true in Hd|]. unfold pattern_matches in *.
  destruct (path_segments path) as [segs|]; [|done]. rewrite (match_overlap _ _ segs) in Hd; [done|by eexists..].
Qed.

Lemma find_route_spec path routes r ps : find_route path routes = Some (r, ps) -> r ∈ routes /\ path_match (fst r) path = Some ps.
Proof.
  induction routes as [|x routes IH]; cbn; [done|]. destruct (path_match (fst x) path) as [qs|] eqn:E.
  - intros [= <- <-]. split; [by left|done].
  - intros H. destruct (IH H). split; [by right|done].
Qed.

Lemma find_route_none path routes : find_route path routes = None <-> forall r, r ∈ routes -> path_match (fst r) path = None.
Proof.
  induction routes as [|x routes IH]; cbn; [split; [intros _ r Hr; by apply not_elem_of_nil in Hr|done]|].
  destruct (path_match (fst x) path) as [qs|] eqn:E.
  - split; [done|]. intros H. rewrite (H x) in E by (by left). done.
  - rewrite IH. split; intros H r; [intros [->|Hr]%elem_of_cons; auto|]. intros Hr. apply H. by right.
Qed.

(** The routes may be added in any order: what a request is dispatched to is
    the same. *)
Theorem route_order_is_irrelevant routes m path : routes ≡ₚ ROUTES -> dispatch routes m path = dispatch ROUTES m path.
Proof.
  intros Hp. unfold dispatch. enough (find_route path routes = find_route path ROUTES) as -> by done.
  destruct (find_route path routes) as [[r ps]|] eqn:E1, (find_route path ROUTES) as [[r' ps']|] eqn:E2; [..|done].
  - apply find_route_spec in E1 as [Hr Hm], E2 as [Hr' Hm']. rewrite Hp in Hr.
    assert (r = r') as -> by (eapply one_route; eauto). congruence.
  - apply find_route_spec in E1 as [Hr Hm]. rewrite find_route_none in E2. rewrite Hp in Hr. rewrite E2 in Hm by done. done.
  - apply find_route_spec in E2 as [Hr Hm]. rewrite find_route_none in E1. rewrite <- Hp in Hr. rewrite E1 in Hm by done. done.
Qed.

(** What a dispatch says: a row of the table, its pattern and its method. *)
Lemma dispatch_row m path h ps : dispatch ROUTES m path = Run h ps -> exists r registered segs, r ∈ ROUTES /\ (registered, h) ∈ snd r /\
  (m = registered \/ (registered = "GET" /\ m = "HEAD")) /\ path_segments path = Some segs /\ match_segs (fst r) segs = Some ps.
Proof.
  unfold dispatch. destruct (find_route path ROUTES) as [[r qs]|] eqn:E; [|done]. apply find_route_spec in E as [Hr Hm%path_match_doc].
  unfold find_method. destruct (List.find _ (snd r)) as [[registered h']|] eqn:Ef; [|done]. apply List.find_some in Ef as [Hin Hs%serves_method_doc].
  intros [= -> ->]. unfold pattern_matches in Hm. destruct (path_segments path) as [segs|]; [|done].
  exists r, registered, segs. split_and!; try done. by apply list_elem_of_In.
Qed.
End Table.

(** ** What the gate and the table say of a handler *)

(** The handlers that write. *)
Definition changes_state (h : Handler) : bool :=
  match h with
  | put_settings | put_zim_settings | add_download | cancel_download
  | create_collection | update_collection | delete_collection => true
  | _ => false
  end.

(** The handlers a read-only token is for. *)
Definition for_readers (h : Handler) : bool :=
  match h with
  | health | list_zims | search | suggest | read_article | raw_content | get_chunks | get_snippet
  | random_article | interlanguage | openapi_json => true
  | _ => false
  end.

(** The path, from the segments. *)
Lemma path_of_segments path segs : path_segments path = Some segs -> path = "/" +:+ str_join "/" segs.
Proof.
  unfold path_segments. destruct path as [|c rest]; [done|]. destruct (Ascii.eqb_spec c "/") as [->|]; [|done].
  intros [= <-]. by rewrite join_split.
Qed.

(** One goal per route. *)
Ltac each_route H := unfold ROUTES in H; repeat (apply elem_of_cons in H as [->|H]); [..|by apply not_elem_of_nil in H].

(** One goal per method of a route. *)
Ltac each_method H := cbn [snd] in H; repeat (apply elem_of_cons in H as [[= -> ->]|H]); [..|by apply not_elem_of_nil in H].

(** The segments a pattern leaves open. *)
Ltac open_segs H :=
  repeat match type of H with
  | match_segs _ ?segs = Some _ => destruct segs as [|? ?]; cbn [match_segs fst] in H; try done
  | match ?segs with [] => _ | _ :: _ => _ end = Some _ => destruct segs as [|? ?]; try done
  | (_ <$> match ?segs with [] => _ | _ :: _ => _ end) = Some _ => destruct segs as [|? ?]; try done
  | (if String.eqb ?a ?s then _ else _) = Some _ => destruct (String.eqb_spec a s) as [<-|?]; [|done]
  | (if str_is_empty ?s then None else _) = Some _ => destruct (str_is_empty s) eqn:?; [done|]
  | (_ <$> match_segs _ ?segs) = Some _ => destruct segs as [|? ?]; cbn [match_segs fst fmap option_fmap option_map] in H; try done
  end.

Section Methods.
Context {Ax : AxumApi}.

(** The methods of the handlers that write are no read verbs. *)
Lemma write_methods m path h ps : dispatch ROUTES m path = Run h ps -> changes_state h = true -> is_read_verb m = false.
Proof.
  intros (r & registered & segs & Hr & Hin & Hm & _)%dispatch_row.
  each_route Hr; each_method Hin; intros Hc; try done; by destruct Hm as [->|[[=] _]].
Qed.

(** A read-only token opens exactly the readers' handlers. *)
Lemma readers_routes m path h ps : is_read_verb m = true -> dispatch ROUTES m path = Run h ps ->
  read_only_allowed m path = for_readers h.
Proof.
  intros Hv (r & registered & segs & Hr & Hin & Hm & Es & Hmt)%dispatch_row. apply path_of_segments in Es. subst path.
  unfold read_only_allowed. rewrite Hv. cbn [andb].
  each_route Hr; each_method Hin; cbn [fst] in Hmt; open_segs Hmt; try done; by destruct Hm as [->|[[=] _]].
Qed.

(** The health path is the health handler's. *)
Lemma health_route m path h ps : dispatch ROUTES m path = Run h ps -> h <> health -> is_health_path path = false.
Proof.
  intros (r & registered & segs & Hr & Hin & Hm & Es & Hmt)%dispatch_row Hh. apply path_of_segments in Es. subst path.
  each_route Hr; each_method Hin; cbn [fst] in Hmt; open_segs Hmt; done.
Qed.
End Methods.

Section RouterFacts.
Context {Ax : AxumApi} {Fu : FormUrl} {Ip : IpNetApi} {Cr : Crypto}
  {Hs : HashIter string Z} {Hl : HashIter IpAddr (Z * Z)}.
Context {Cfg : Type} `{!RateSettings Cfg}.

(** A handler that runs was forwarded by every layer. *)
Lemma served_through a now1 now2 cfg clen req st h d st' h' :
  serve_request a now1 now2 cfg clen req st h = (Dispatched d, st', h') ->
  (forall n, clen = Some n -> n <= MAX_REQUEST_BODY_BYTES) /\ cors_answers req = false /\
  rate_limit now1 now2 h cfg (path req) = (Some Forwarded, h') /\
  auth_middleware a st req = (Ok Forwarded, st') /\ d = dispatch ROUTES (method req) (path req).
Proof.
  unfold serve_request. destruct (over_limit _ clen) eqn:Ec; [done|].
  destruct (cors_answers req); [done|]. destruct (rate_limit _ _ _ _ _) as [[[]|] h1]; try done.
  destruct (auth_middleware a st req) as [[[]|] st1]; try done. intros [= <- <- <-]. split; [|done].
  intros n ->. by apply over_limit_doc in Ec.
Qed.

Lemma forwarded_gated a st req hd ps st' : auth_inv (settings st) -> access_mode (settings st) = ACCESS_MODE_PASSWORD ->
  auth_middleware a st req = (Ok Forwarded, st') -> dispatch ROUTES (method req) (path req) = Run hd ps -> hd <> health ->
  is_read_verb (method req) = false \/ require_auth_for_reads (settings st) = true ->
  exists t, presented_token req = Some t /\
    (verify_admin_password (admin_password_raw (settings st)) t = Ok true \/
     (read_only_allowed (method req) (path req) = true /\ verify_admin_password (read_only_token_raw (settings st)) t = Ok true)).
Proof.
  intros Hinv Hm Ha Hd Hh Hv. pose proof (health_route _ _ _ _ Hd Hh) as Hp.
  assert (Hne : admin_password_raw (settings st) <> EmptyString).
  { intros E. unfold auth_middleware in Ha. rewrite Hp, Hm, E in Ha. done. }
  assert (Hg : gated st req) by (split; [done|]; split; [done|]; tauto).
  destruct (auth_middleware_gated a st req Forwarded st' Hinv Hg Ha) as [(? & _ & [=] & _)|(_ & _ & t & Ht & Hvr)].
  exists t. split; [done|]. naive_solver.
Qed.

(** C11: every handler runs behind the gate.  Take a server started on any
    settings and any sequence of served requests, reloads, credential upgrades
    and verifications (each completed before the next begins).  In password
    mode, with or without an admin password set, when a request comes through
    all layers and is dispatched to a handler, its declared body is within the
    limit; if the handler writes, the request carried in its [Authorization]
    header a non-empty token that verifies against the admin password
    ([?access_token=] does not do, although the doc comment of the gate and
    the settings page say so); and with gated reads every handler but the
    health probe needs the admin's token, or the read-only token if it is one
    of the readers' handlers. *)
Theorem handlers_run_behind_the_gate m k tbl ops a now1 now2 cfg clen req h hd ps st' h' :
  let st := served_state m k tbl ops in
  access_mode (settings st) = ACCESS_MODE_PASSWORD ->
  serve_request a now1 now2 cfg clen req st h = (Dispatched (Run hd ps), st', h') ->
  (forall n, clen = Some n -> n <= MAX_REQUEST_BODY_BYTES) /\
  (changes_state hd = true -> exists t, bearer_token (authorization req) = Some t /\ t <> EmptyString /\
     verify_admin_password (admin_password_raw (settings st)) t = Ok true) /\
  (require_auth_for_reads (settings st) = true -> hd <> health -> exists t, presented_token req = Some t /\
     t <> EmptyString /\
     (verify_admin_password (admin_password_raw (settings st)) t = Ok true \/
      (for_readers hd = true /\ verify_admin_password (read_only_token_raw (settings st)) t = Ok true))).
Proof.
  intros st Hm E. pose proof (served_state_inv m k tbl ops) as Hinv. fold st in Hinv. destruct (served_through _ _ _ _ _ _ _ _ _ _ _ E) as (Hc & _ & _ & Ha & Hd). symmetry in Hd.
  pose proof (write_methods _ _ _ _ Hd) as Hw.
  split; [done|]. split.
  - intros Hch. specialize (Hw Hch). assert (Hh : hd <> health) by (by intros ->).
    destruct (forwarded_gated a st req hd ps st') as (t & Ht & Hv); auto. exists t.
    split; [by apply presented_write|]. split; [by eapply presented_nonempty|]. destruct Hv as [?|[Hro _]]; [done|]. unfold read_only_allowed in Hro. by rewrite Hw in Hro.
  - intros Hreq Hh. destruct (forwarded_gated a st req hd ps st') as (t & Ht & Hv); auto. exists t.
    split; [done|]. split; [by eapply presented_nonempty|].
    destruct Hv as [?|[Hro ?]]; [by left|right]. split; [|done].
    assert (Hrv : is_read_verb (method req) = true) by (unfold read_only_allowed in Hro; by apply andb_true_iff in Hro as [? _]).
    by rewrite <- (readers_routes _ _ _ _ Hrv Hd).
Qed.
End RouterFacts.

(** ** The OpenAPI document *)

(** The documented operations: method, path and handler, from the
    [utoipa::path] attributes of the handlers that [ApiDoc] lists. *)
Definition DOCUMENTED : list (string * string * Handler) :=
  [("GET", "/health", health);
   ("GET", "/diagnostic", diagnostic);
   ("GET", "/list", list_zims);
   ("GET", "/search", search);
   ("GET", "/suggest", suggest);
   ("GET", "/read", read_article);
   ("GET", "/w/{zim}/{path}", raw_content);
   ("GET", "/chunks", get_chunks);
   ("GET", "/snippet", get_snippet);
   ("GET", "/random", random_article);
   ("GET", "/interlanguage", interlanguage);
   ("GET", "/settings", get_settings);
   ("PUT", "/settings", put_settings);
   ("GET", "/settings/zim/{name}", get_zim_settings);
   ("PUT", "/settings/zim/{name}", put_zim_settings);
   ("GET", "/downloads", list_downloads);
   ("POST", "/downloads", add_download);
   ("DELETE", "/downloads/{id}", cancel_download);
   ("GET", "/collections", list_collections);
   ("POST", "/collections", create_collection);
   ("PUT", "/collections/{id}", update_collection);
   ("DELETE", "/collections/{id}", delete_collection)].

(** The operations documented with the bearer scheme. *)
Definition SECURED : list Handler :=
  [put_settings; put_zim_settings; add_download; cancel_download; create_collection; update_collection; delete_collection].

(** A path as the document writes it. *)
Definition seg_text (s : Seg) : string :=
  match s with Lit s => s | Param n | Rest n => "{" +:+ n +:+ "}" end.

Definition route_path (p : list Seg) : string := "/" +:+ str_join "/" (seg_text <$> p).

(** The pages and the document itself are not operations. *)
Definition is_operation (h : Handler) : bool :=
  match h with
  | web_index | web_search | web_settings | web_style_css | web_common_js | web_index_js | web_search_js | web_settings_js
  | openapi_json => false
  | _ => true
  end.

Definition route_rows (r : Route) : list (string * string * Handler) :=
  (fun mh => (fst mh, route_path (fst r), snd mh)) <$> snd r.

Definition operations : list (string * string * Handler) :=
  List.filter (fun row => is_operation (snd row)) (List.concat (route_rows <$> ROUTES)).

Lemma operations_documented : forallb (fun row => bool_decide (row ∈ DOCUMENTED)) operations = true /\
  forallb (fun row => bool_decide (row ∈ operations)) DOCUMENTED = true.
Proof. vm_compute. split; reflexivity. Qed.

(** The document and the router agree.  An operation is documented under a
    method and a path exactly when the router serves it there, and exactly the
    handlers that write are documented as needing credentials. *)
Theorem document_matches_router m path h :
  ((m, path, h) ∈ DOCUMENTED <-> is_operation h = true /\ exists r, r ∈ ROUTES /\ route_path (fst r) = path /\ (m, h) ∈ snd r) /\
  (h ∈ SECURED <-> changes_state h = true).
Proof.
  split.
  - transitivity ((m, path, h) ∈ operations).
    + destruct operations_documented as [H1 H2]. rewrite forallb_forall in H1, H2. split; intros H%list_elem_of_In.
      * by apply H2, bool_decide_eq_true in H.
      * by apply H1, bool_decide_eq_true in H.
    + unfold operations. rewrite list_elem_of_In, filter_In. cbn [snd]. rewrite <- list_elem_of_In.
      enough ((m, path, h) ∈ List.concat (route_rows <$> ROUTES) <-> exists r, r ∈ ROUTES /\ route_path (fst r) = path /\ (m, h) ∈ snd r) by tauto.
      rewrite list_elem_of_In, in_concat. split.
      * intros (l & Hl & Hin). apply list_elem_of_In, list_elem_of_fmap in Hl as (r & -> & Hr). apply list_elem_of_In, list_elem_of_fmap in Hin as ([m' h'] & [= Em Ep Eh] & Hin).
        exists r. by subst.
      * intros (r & Hr & <- & Hin). exists (route_rows r). split; apply list_elem_of_In, list_elem_of_fmap; [by exists r|by exists (m, h)].
  - rewrite <- (bool_decide_eq_true (h ∈ SECURED)). by destruct h.
Qed.

(** ** Concrete requests *)

#[local] Instance constant_rate : RateSettings (Z * Z) := {|
  RateLimit.generation := fst;
  RateLimit.rate_limit_rps := fun s => Some (snd s);
  RateLimit.rate_limit_burst := fun s => Some (snd s)
|}.

(** The documented behaviour, as functions. *)
Definition doc_axum : AxumApi := {|
  path_match := pattern_matches;
  path_match_doc := fun _ _ _ H => H;
  serves_method := fun registered m => String.eqb m registered || (String.eqb registered "GET" && String.eqb m "HEAD");
  serves_method_doc := fun registered m H =>
    match orb_prop _ _ H with
    | or_introl E => or_introl (proj1 (String.eqb_eq _ _) E)
    | or_intror E => or_intror (conj (proj1 (String.eqb_eq _ _) (proj1 (andb_prop _ _ E))) (proj1 (String.eqb_eq _ _) (proj2 (andb_prop _ _ E))))
    end;
  over_limit := fun limit n => match n with Some n => limit <? n | None => false end;
  over_limit_doc := fun limit n H => proj1 (Z.ltb_ge limit n) H;
  cors_answers := fun _ => false;
  is_header_value := str_forall (fun c => ((32 <=? byte c) && negb (byte c =? 127)) || (byte c =? 9))
|}.

Definition demo_serve (req : Request) : Outcome * AppState * RateLimiterHandle :=
  @serve_request doc_axum pct_form num_ipnet toy_crypto (map_order _ _) (map_order _ _) (Z * Z) constant_rate
    (demo_ambient 1) 5 6 (1, 5) (Some 100) req demo_state handle_new.

Example route_params : @dispatch doc_axum ROUTES "GET" "/w/wiki/A/Main_Page" = Run raw_content [("zim", "wiki"); ("path", "A/Main_Page")].
Proof. vm_compute. reflexivity. Qed.

Example route_head : @dispatch doc_axum ROUTES "HEAD" "/list" = Run list_zims [].
Proof. vm_compute. reflexivity. Qed.

Example route_method : @dispatch doc_axum ROUTES "DELETE" "/downloads" = MethodNotAllowed.
Proof. vm_compute. reflexivity. Qed.

Example route_unknown : @dispatch doc_axum ROUTES "GET" "/list/" = NotFoundPage.
Proof. vm_compute. reflexivity. Qed.

Example origins_example : @cors_origins doc_axum " https://a.example ,, https://b.example" = ["https://a.example"; "https://b.example"].
Proof. vm_compute. reflexivity. Qed.

Lemma handlers_run_behind_the_gate_witness :
  let st := @served_state pct_form num_ipnet toy_crypto (map_order _ _) (map_order _ _) demo_settings None ∅ demo_ops in
  let req := demo_req "DELETE" "/downloads/7" (Some "changed") in
  exists t, bearer_token (authorization req) = Some t /\ t <> EmptyString /\
    @verify_admin_password toy_crypto (admin_password_raw (settings st)) t = Ok true.
Proof.
  set (st := @served_state pct_form num_ipnet toy_crypto (map_order _ _) (map_order _ _) demo_settings None ∅ demo_ops).
  set (req := demo_req "DELETE" "/downloads/7" (Some "changed")).
  set (res := @serve_request doc_axum pct_form num_ipnet toy_crypto (map_order _ _) (map_order _ _) (Z * Z) constant_rate
    (demo_ambient 2) 5 6 (1, 5) (Some 100) req st handle_new).
  destruct (@handlers_run_behind_the_gate doc_axum pct_form num_ipnet toy_crypto (map_order _ _) (map_order _ _) (Z * Z) constant_rate
    demo_settings None ∅ demo_ops (demo_ambient 2) 5 6 (1, 5) (Some 100) req handle_new cancel_download [("id", "7")]
    (snd (fst res)) (snd res)) as (_ & Hw & _).
  - vm_compute. reflexivity.
  - vm_compute. reflexivity.
  - apply Hw. reflexivity.
Defined.
