(* ===== verification/Boot.v ===== *)
(** * Boot: the commands, from the command line to the exit

    [src/main.rs] with [StartupMode], [StartupRequest], [bootstrap_pool_and_zims]
    and [build_state] of [src/startup/mod.rs].  A command is a program: a tree of
    the calls it makes ([Ev]) to the system, to the database and to the other
    components, each continued by its answer.  What a call does is modelled in
    the file of its component; here the answers are those of an arbitrary
    oracle that sees all that happened before.  [Phase] and [allowed] are the
    protocol of a start: which call may be made when.  Log lines are left out.

    A value with a destructor is dropped when its scope ends: the guard and the
    state are released on every path, in the reverse order of their
    declarations unless [drop] is called. *)

From S2P Require Import Prelude RustStr Errors Floats JsonValue SettingDefs Config IpAddr Cidr Auth Settings Middleware Startup Torrent Files ZimManager Mcp Notify Guards.

#[local] Opaque SETTING_DEFS known_keys default_settings.

(** ** Requests *)

Inductive StartupMode := ModeServe | ModeMutating | ModeReadOnly.

#[export] Instance StartupMode_eq_dec : EqDecision StartupMode.
Proof. solve_decision. Defined.

Definition mode_resync (m : StartupMode) : bool :=
  match m with ModeServe | ModeMutating => true | ModeReadOnly => false end.

Record StartupRequest := mkRequest {
  mode : StartupMode;
  request_lock_held : bool;
  connect_torrent : bool
}.

Definition request_serve (advisory_lock_held : bool) : StartupRequest := mkRequest ModeServe advisory_lock_held true.
Definition request_mutating (advisory_lock_held : bool) : StartupRequest := mkRequest ModeMutating advisory_lock_held true.
Definition request_status : StartupRequest := mkRequest ModeReadOnly false true.
Definition request_mcp : StartupRequest := mkRequest ModeReadOnly false false.

(** ** Calls *)

Inductive Ev :=
  | Sys (c : Call)
  | CreatePool
  | RunMigrations
  | CreateReadPool
  | CreateBgPool
  | AcquireConn
  | ProbeInstanceLock
  | LoadSettings (env_locked env_snapshot : gmap string string) (security_key : option string)
  | Scan
  | LoadFromDb
  | Resync
  | ConnectQbit (url user pass : string) (allow_private : bool)
  | SpawnListener (database_url : string)
  | DropInvalidIndexes
  | Bind (addr : string)
  | Spawn (task : string)
  | SpawnSupervisor (tasks : list string)
  | ServeHttp
  | StopSupervisor
  | AbortTask (task : string)
  | Drain (tasks : list string)
  | DieFlag
  | DropState
  | ListZims
  | GetZim (name : string)
  | ListEmbedEnabledNames
  | IndexZims (target : option string)
  | RunPipeline (name : string)
  | RunMcp
  | Println (line : string).

(** [CreateReadPool] tells whether a replica is configured, [ConnectQbit] and
    [GetZim] whether there is a client and an archive; [ProbeInstanceLock] is
    [None] when the probe fails.  [StopSupervisor] answers the task that was
    reported and the survivors, or [None] when the supervisor panicked. *)
Definition answer (e : Ev) : Type :=
  match e with
  | Sys c => reply c
  | CreatePool | RunMigrations | CreateBgPool | AcquireConn | LoadFromDb | Resync | DropInvalidIndexes | Bind _
  | ServeHttp | IndexZims _ | RunPipeline _ | RunMcp => result string unit
  | CreateReadPool => result string bool
  | ProbeInstanceLock => option bool
  | LoadSettings _ _ _ => result string SettingsInner
  | Scan => result string (list string)
  | ConnectQbit _ _ _ _ | DieFlag | GetZim _ => bool
  | StopSupervisor => option (option string * list string)
  | ListZims => list ZimMeta
  | ListEmbedEnabledNames => list string
  | SpawnListener _ | Spawn _ | SpawnSupervisor _ | AbortTask _ | Drain _ | DropState | Println _ => unit
  end.

Inductive Cmd (A : Type) :=
  | Done (a : A)
  | Do (e : Ev) (k : answer e -> Cmd A).
Arguments Done {A} a.
Arguments Do {A} e k.

Fixpoint cbind {A B} (p : Cmd A) (f : A -> Cmd B) : Cmd B :=
  match p with
  | Done a => f a
  | Do e k => Do e (fun r => cbind (k r) f)
  end.

Fixpoint lift {A} (p : Prog A) : Cmd A :=
  match p with
  | Ret a => Done a
  | Act c k => Do (Sys c) (fun r => lift (k r))
  end.

(** How a command ends early. *)
Inductive Stop := Bail (msg : string) | Panic (p : panic).

Declare Scope cmd_scope.
Delimit Scope cmd_scope with cmd.
Notation "'ask' x := e 'in' k" := (Do e (fun x => k)) (at level 10, x pattern, k at level 200) : cmd_scope.
Notation "'ask?' x := e 'in' k" :=
  (Do e (fun r => match r with Err m => Done (Err (Bail m)) | Ok x => k end)) (at level 10, x pattern, k at level 200) : cmd_scope.
Notation "'seq' x := p 'in' k" := (cbind p (fun x => k)) (at level 10, x pattern, k at level 200) : cmd_scope.
Notation "'seq?' x := p 'in' k" :=
  (cbind p (fun r => match r with Err m => Done (Err m) | Ok x => k end)) (at level 10, x pattern, k at level 200) : cmd_scope.
Open Scope cmd_scope.

(** ** The state *)

(** What the commands look at: the settings, the pool the search engine was
    given, the fingerprint of the stored client and the listener. *)
Record Booted := mkBooted {
  b_settings : SettingsInner;
  b_search_on_replica : bool;
  b_torrent : option string;
  b_notify : bool
}.

Definition populate_zims_calls (resync : bool) : Cmd (result Stop (list string)) :=
  ask? found := Scan in
  ask? _ := LoadFromDb in
  if resync then ask? _ := Resync in Done (Ok found) else Done (Ok found).

Definition bootstrap_pool_and_zims : Cmd (result Stop unit) :=
  ask? _ := CreatePool in
  ask? _ := RunMigrations in
  Done (Ok tt).

Section Commands.
Context {Cr : Crypto} {Ip : IpNetApi}.

(** The process' environment, and the salt of a hash made at start-up. *)
Variable getenv : string -> option string.
Variable salt : string.

Definition instance_check (req : StartupRequest) : Cmd (result Stop unit) :=
  if request_lock_held req then Done (Ok tt)
  else
    ask r := AcquireConn in
    match r with
    | Err e => Done (Err (Bail ("pool: " +:+ e)))
    | Ok _ => ask _ := ProbeInstanceLock in Done (Ok tt)
    end.

Definition connect_at_startup (config : Configuration) (req : StartupRequest) (st : SettingsInner) : Cmd (option string) :=
  if connect_torrent req && torrent_enabled st then
    match resolve_qbit_inputs (get_typed TString KEY_TORRENT_URL st) (torrent_url config) (torrent_user config) (torrent_pass config) with
    | None => Done None
    | Some (url, user, pass) =>
        let allow_private := default false (get_typed TBool KEY_TORRENT_ALLOW_PRIVATE_NETWORKS st) in
        ask connected := ConnectQbit url user pass allow_private in
        Done (if connected : bool then Some (qbit_fingerprint url user pass allow_private) else None)
    end
  else Done None.

Definition spawn_notify (config : Configuration) (req : StartupRequest) (died_tx : bool) : Cmd (result Stop bool) :=
  if bool_decide (mode req = ModeServe) then
    if died_tx then ask _ := SpawnListener (database_url config) in Done (Ok true)
    else Done (Err (Bail "internal: serve startup requires the task-die flag sender"))
  else Done (Ok false).

Definition build_state (config : Configuration) (req : StartupRequest) (died_tx : bool) : Cmd (result Stop Booted) :=
  seq? _ := bootstrap_pool_and_zims in
  ask? db_read := CreateReadPool in
  ask? _ := CreateBgPool in
  seq? _ := instance_check req in
  ask? loaded := LoadSettings (locked_env_settings getenv) (startup_snapshot getenv config salt) (security_key config) in
  let st := sync_from_config config loaded in
  match admin_password_startup_check (access_mode st) (default EmptyString (get_typed TString KEY_ACCESS_ADMIN_PASSWORD st)) with
  | Err msg => Done (Err (Bail msg))
  | Ok _ =>
      seq? _ := populate_zims_calls (mode_resync (mode req)) in
      seq torrent := connect_at_startup config req st in
      seq? notify := spawn_notify config req died_tx in
      Done (Ok (mkBooted st db_read torrent notify))
  end.

(** ** [serve] *)

Definition TASKS : list string := ["zim-watcher"; "download-poller"; "auto-embed"; "trgm-probe"].

Definition serve_failure_display (f : ServeFailure) : string :=
  match f with
  | ServeError e => "server error: " +:+ e
  | BackgroundTaskDied => "a critical background component failed (see log above); exiting non-zero"
  end.

Fixpoint for_each {A} (f : A -> Ev) (l : list A) : Cmd unit :=
  match l with
  | [] => Done tt
  | x :: l => ask _ := f x in for_each f l
  end.

(** The shutdown after [axum::serve]; the exit is [Notify.finalize_serve_shutdown]'s. *)
Definition shut_down (serve_result : result string unit) : Cmd (result ServeFailure unit) :=
  ask joined := StopSupervisor in
  let survivors := default [] (snd <$> joined) in
  seq _ := for_each AbortTask survivors in
  ask _ := Drain survivors in
  ask died := DieFlag in
  Done (snd (finalize_serve_shutdown serve_result (snd <$> joined) died)).

Definition serve_body (config : Configuration) (s : Booted) : Cmd (result Stop unit) :=
  let st := b_settings s in
  match serve_policy_checks (host config) (access_mode st) (require_auth_for_reads st)
          (default EmptyString (get_typed TString KEY_GENERAL_TRUSTED_PROXY_CIDRS st)) with
  | Err msg => Done (Err (Bail msg))
  | Ok _ =>
      ask? _ := DropInvalidIndexes in
      ask? _ := Bind (host config +:+ ":" +:+ pretty (port config)) in
      seq _ := for_each Spawn TASKS in
      ask _ := SpawnSupervisor TASKS in
      ask served := ServeHttp in
      seq exit := shut_down served in
      match exit with
      | Err f => Done (Err (Bail (serve_failure_display f)))
      | Ok _ => Done (Ok tt)
      end
  end.

Definition guard_lock_held (guard : option SingleInstanceGuard) : bool :=
  match guard with Some g => advisory_lock_held g | None => false end.

(** A clean exit drops the guard before the state, a failure after it. *)
Definition cmd_serve (config : Configuration) : Cmd (result Stop unit) :=
  seq g := lift (start_program Guards.Serve config) in
  match g with
  | Err e => Done (Err (Bail e))
  | Ok guard =>
      seq built := build_state config (request_serve (guard_lock_held guard)) true in
      match built with
      | Err e => seq _ := lift (stop_program guard) in Done (Err e)
      | Ok s =>
          seq r := serve_body config s in
          match r with
          | Err e => ask _ := DropState in seq _ := lift (stop_program guard) in Done (Err e)
          | Ok _ => seq _ := lift (stop_program guard) in ask _ := DropState in Done (Ok tt)
          end
      end
  end.

(** ** The other commands *)

(** [truncate]: the budget is in bytes, the ellipsis comes on top. *)
Definition truncate (s : string) (max : nat) : string :=
  if Nat.leb (String.length s) max then s
  else str_take (floor_char_boundary (max - 1) s) s +:+ "…".

Fixpoint str_repeat (n : nat) (s : string) : string :=
  match n with O => EmptyString | S n => s +:+ str_repeat n s end.

(** [{:<n}] and [{:>n}] pad to a number of characters. *)
Definition pad_right (n : nat) (s : string) : string := s +:+ str_repeat (n - char_count s) " ".
Definition pad_left (n : nat) (s : string) : string := str_repeat (n - char_count s) " " +:+ s.

Definition list_row (name lang entries indexed status : string) : string :=
  pad_right 40 name +:+ " " +:+ pad_right 6 lang +:+ " " +:+ pad_left 10 entries +:+ " " +:+ pad_left 10 indexed
  +:+ " " +:+ pad_right 10 status.

Definition zim_row (m : ZimMeta) : string :=
  list_row (truncate (m_name m) 40) (m_language m) (pretty (m_entry_count m)) (pretty (m_indexed_entries m)) (m_index_status m).

(** The value of [body], with the guard held around it. *)
Definition with_mutating_guard (config : Configuration) (body : bool -> Cmd (result Stop unit)) : Cmd (result Stop unit) :=
  seq g := lift (start_program Mutate config) in
  match g with
  | Err e => Done (Err (Bail e))
  | Ok guard =>
      seq r := body (match guard with Some _ => true | None => false end) in
      seq _ := lift (stop_program guard) in
      Done r
  end.

(** The state is dropped when [body] ends. *)
Definition with_state (config : Configuration) (req : StartupRequest) (body : Booted -> Cmd (result Stop unit)) :
    Cmd (result Stop unit) :=
  seq? s := build_state config req false in
  seq r := body s in
  ask _ := DropState in
  Done r.

Definition print_zims (config : Configuration) (found : list string) : Cmd (result Stop unit) :=
  seq nothing := (match found with [] => ask zs := ListZims in Done (bool_decide (m_name <$> zs = [])) | _ => Done false end) in
  if nothing : bool then ask _ := Println ("No ZIM files found in " +:+ zim_dir config) in Done (Ok tt)
  else
    ask _ := Println (list_row "NAME" "LANG" "ENTRIES" "INDEXED" "STATUS") in
    ask _ := Println (str_repeat 80 "-") in
    ask zs := ListZims in
    seq _ := for_each (fun m => Println (zim_row m)) zs in
    Done (Ok tt).

Definition list_body (config : Configuration) (sync : bool) : Cmd (result Stop unit) :=
  seq? _ := bootstrap_pool_and_zims in
  seq? found := populate_zims_calls sync in
  print_zims config found.

Definition cmd_list (config : Configuration) (sync : bool) : Cmd (result Stop unit) :=
  if sync then with_mutating_guard config (fun _ => list_body config true) else list_body config false.

Definition status_lines (config : Configuration) (s : Booted) (zs : list ZimMeta) : list string :=
  ["zimservice v" +:+ CARGO_PKG_VERSION;
   "  ZIM directory:  " +:+ zim_dir config;
   "  Database:       " +:+ redact_url (database_url config);
   "  ZIMs:           " +:+ pretty (Z.of_nat (length zs));
   "  Articles:       " +:+ pretty (foldl (fun t m => wrap_i64 (t + u64_as_i64 (m_indexed_entries m))) 0 zs);
   "  qBittorrent:    " +:+ (match b_torrent s with Some _ => "connected" | None => "not configured" end);
   "  Embeddings:     " +:+ (if embedding_enabled (b_settings s) then "enabled" else "disabled")].

Definition cmd_status (config : Configuration) : Cmd (result Stop unit) :=
  with_state config request_status (fun s =>
    ask zs := ListZims in
    seq _ := for_each Println (status_lines config s zs) in
    Done (Ok tt)).

Definition cmd_index (config : Configuration) (zim : option string) (all : bool) : Cmd (result Stop unit) :=
  with_mutating_guard config (fun held =>
    with_state config (request_mutating held) (fun _ =>
      let target := if all then None else zim in
      ask? _ := IndexZims target in
      Done (Ok tt))).

Definition cmd_mcp (config : Configuration) : Cmd (result Stop unit) :=
  with_state config request_mcp (fun s =>
    let st := b_settings s in
    match mcp_auth_ok (access_mode st) (default EmptyString (get_typed TString KEY_ACCESS_ADMIN_PASSWORD st)) (mcp_auth_password config) with
    | Err p => Done (Err (Panic p))
    | Ok (Err e) => Done (Err (Bail (error_display e)))
    | Ok (Ok _) =>
        ask? _ := RunMcp in
        Done (Ok tt)
    end).

Fixpoint embed_all (targets : list string) : Cmd (result Stop unit) :=
  match targets with
  | [] => Done (Ok tt)
  | name :: rest =>
      ask _ := Println ("Embedding '" +:+ name +:+ "' …") in
      ask? _ := RunPipeline name in
      ask _ := Println ("Done: " +:+ name) in
      embed_all rest
  end.

Definition embed_targets (zim : option string) : Cmd (result Stop (list string)) :=
  match zim with
  | Some name =>
      ask found := GetZim name in
      Done (if found : bool then Ok [name] else Err (Bail ("ZIM '" +:+ name +:+ "' not found")))
  | None => ask names := ListEmbedEnabledNames in Done (Ok names)
  end.

Definition embed_body (zim : option string) (s : Booted) : Cmd (result Stop unit) :=
  if negb (embedding_enabled (b_settings s)) then
    Done (Err (Bail "embedding is disabled — set embedding.enabled = true in settings first"))
  else
    seq? targets := embed_targets zim in
    match targets with
    | [] => ask _ := Println "No embed-enabled ZIMs found (index one first with `zimservice index`)" in Done (Ok tt)
    | _ => embed_all targets
    end.

Definition cmd_embed (config : Configuration) (zim : option string) : Cmd (result Stop unit) :=
  with_mutating_guard config (fun held => with_state config (request_mutating held) (embed_body zim)).

Inductive Commands :=
  | CmdServe
  | CmdList (sync : bool)
  | CmdStatus
  | CmdIndex (zim : option string) (all : bool)
  | CmdMcp
  | CmdEmbed (zim : option string).

Definition run_command (c : Commands) (config : Configuration) : Cmd (result Stop unit) :=
  match c with
  | CmdServe => cmd_serve config
  | CmdList sync => cmd_list config sync
  | CmdStatus => cmd_status config
  | CmdIndex zim all => cmd_index config zim all
  | CmdMcp => cmd_mcp config
  | CmdEmbed zim => cmd_embed config zim
  end.

(** The configuration comes first. *)
Definition main (c : Commands) : Cmd (result Stop unit) :=
  match load_config getenv with
  | Err e => Done (Err (Bail (error_display e)))
  | Ok config => run_command c config
  end.
End Commands.

(** ** Runs *)

(** A call with its answer. *)
Definition Obs : Type := { e : Ev & answer e }.

(** The world answers each call, knowing all calls before it. *)
Definition Oracle : Type := list Obs -> forall e : Ev, answer e.

Fixpoint play {A} (o : Oracle) (p : Cmd A) (past : list Obs) : A * list Obs :=
  match p with
  | Done a => (a, past)
  | Do e k => let r := o past e in play o (k r) (past ++ [existT e r])
  end.

(** ** The protocol of a start *)

(** The commands that write. *)
Definition writer (c : Commands) : bool :=
  match c with
  | CmdServe | CmdList true | CmdIndex _ _ | CmdEmbed _ => true
  | CmdList false | CmdStatus | CmdMcp => false
  end.

(** What has happened: the instance lock and the lock file held, the opt-out
    seen, the pool made, the schema current, the settings and the catalog
    loaded, the listener and the socket up, the background tasks a handle is
    held of (a supervisor that panics loses them), a step that failed, a server
    or a task that died. *)
Record Phase := mkPhase {
  ph_lock : bool;
  ph_dir : bool;
  ph_out : bool;
  ph_pool : bool;
  ph_schema : bool;
  ph_settings : bool;
  ph_catalog : bool;
  ph_listener : bool;
  ph_bound : bool;
  ph_live : list string;
  ph_failed : bool;
  ph_died : bool
}.

Definition start_phase : Phase := mkPhase false false false false false false false false false [] false false.

(** Who may touch the database.  A server holds the lock file, and the
    instance lock unless the configuration shares the database; the other
    writers hold the instance lock; the opt-out lifts both. *)
Definition permitted (c : Commands) (config : Configuration) (ph : Phase) : bool :=
  match c with
  | CmdServe => ph_out ph || (ph_dir ph && (ph_lock ph || allow_multi_db config))
  | _ => negb (writer c) || ph_out ph || ph_lock ph
  end.

Definition is_serve (c : Commands) : bool := match c with CmdServe => true | _ => false end.

(** Calls that release. *)
Definition releases (e : Ev) : bool :=
  match e with Sys CloseConnection | Sys (RemoveFile _) | DropState => true | _ => false end.

(** Each call in its place.  Nothing but releases after a failure, no release
    while a task's handle is held; the guards before the pool, the pool before the schema,
    the schema before the settings and the catalog; only writers reconcile;
    tasks only on a bound socket, and the server only with all of them. *)
Definition in_place (c : Commands) (config : Configuration) (ph : Phase) (e : Ev) : bool :=
  let loaded := permitted c config ph && ph_settings ph && ph_catalog ph in
  match e with
  | Sys _ => writer c && negb (ph_pool ph)
  | CreatePool => permitted c config ph && negb (ph_pool ph)
  | RunMigrations => permitted c config ph && ph_pool ph
  | CreateReadPool | CreateBgPool | AcquireConn | ProbeInstanceLock | LoadSettings _ _ _ | Scan | LoadFromDb | ListZims =>
      permitted c config ph && ph_schema ph
  | Resync => permitted c config ph && ph_schema ph && writer c
  | ConnectQbit _ _ _ _ | GetZim _ | ListEmbedEnabledNames => loaded
  | IndexZims _ => loaded && match c with CmdIndex _ _ => true | _ => false end
  | RunPipeline _ => loaded && match c with CmdEmbed _ => true | _ => false end
  | RunMcp => loaded && match c with CmdMcp => true | _ => false end
  | SpawnListener _ | DropInvalidIndexes => loaded && is_serve c
  | Bind _ => loaded && is_serve c && ph_listener ph
  | Spawn _ | StopSupervisor | AbortTask _ | Drain _ | DieFlag => permitted c config ph && ph_bound ph
  | SpawnSupervisor ts => ph_bound ph && bool_decide (ts = ph_live ph)
  | ServeHttp => permitted c config ph && ph_bound ph && bool_decide (ph_live ph = TASKS)
  | Println _ => ph_schema ph
  | DropState => true
  end.

Definition allowed (c : Commands) (config : Configuration) (ph : Phase) (e : Ev) : bool :=
  if releases e then
    match e with Sys _ => writer c | _ => true end && (negb (ph_pool ph) || bool_decide (ph_live ph = []))
  else negb (ph_failed ph) && in_place c config ph e.

(** A step that ends the command when it fails. *)
Definition fails (e : Ev) : answer e -> bool :=
  match e with
  | CreatePool | RunMigrations | CreateBgPool | AcquireConn | LoadFromDb | Resync | DropInvalidIndexes | Bind _
  | IndexZims _ | RunPipeline _ | RunMcp => fun r : result string unit => negb (is_ok r)
  | CreateReadPool => fun r : result string bool => negb (is_ok r)
  | LoadSettings _ _ _ => fun r : result string SettingsInner => negb (is_ok r)
  | Scan => fun r : result string (list string) => negb (is_ok r)
  | Sys (Connect _) | Sys (CreateNew _) => fun r : result string unit => negb (is_ok r)
  | Sys TryInstanceLock => fun r : result string (option bool) => negb (is_ok r)
  | _ => fun _ => false
  end.

Definition dies (e : Ev) : answer e -> bool :=
  match e with
  | ServeHttp => fun r : result string unit => negb (is_ok r)
  | DieFlag => fun r : bool => r
  | _ => fun _ => false
  end.

Definition lock_after (e : Ev) (was : bool) : answer e -> bool :=
  match e with
  | Sys TryInstanceLock => fun r : result string (option bool) => match r with Ok (Some true) => true | _ => was end
  | Sys CloseConnection => fun _ => false
  | _ => fun _ => was
  end.

Definition dir_after (e : Ev) (was : bool) : answer e -> bool :=
  match e with
  | Sys (CreateNew _) => fun r : result string unit => is_ok r
  | Sys (RemoveFile _) => fun _ => false
  | _ => fun _ => was
  end.

Definition out_after (e : Ev) (was : bool) : answer e -> bool :=
  match e with
  | Sys (GetVar n) => fun r : option string => if String.eqb n "ZIMSERVICE_ALLOW_MULTI_INSTANCE" then is_one r else was
  | _ => fun _ => was
  end.

Definition live_after (e : Ev) (was : list string) : answer e -> list string :=
  match e with
  | Spawn t => fun _ => was ++ [t]
  | AbortTask t => fun _ => List.filter (fun u => negb (String.eqb u t)) was
  | StopSupervisor => fun r : option (option string * list string) => match r with Some (_, survivors) => survivors | None => [] end
  | _ => fun _ => was
  end.

Definition observe (c : Commands) (ph : Phase) (e : Ev) (r : answer e) : Phase :=
  let ok := negb (fails e r) in
  mkPhase
    (lock_after e (ph_lock ph) r)
    (dir_after e (ph_dir ph) r)
    (out_after e (ph_out ph) r)
    (ph_pool ph || match e with CreatePool => ok | _ => false end)
    (ph_schema ph || match e with RunMigrations => ok | _ => false end)
    (ph_settings ph || match e with LoadSettings _ _ _ => ok | _ => false end)
    (ph_catalog ph || match e with LoadFromDb => ok && negb (writer c) | Resync => ok | _ => false end)
    (match e with SpawnListener _ => true | DropState => false | _ => ph_listener ph end)
    (ph_bound ph || match e with Bind _ => ok | _ => false end)
    (live_after e (ph_live ph) r)
    (ph_failed ph || fails e r)
    (ph_died ph || dies e r).

Definition observe_obs (c : Commands) (ph : Phase) (x : Obs) : Phase := observe c ph (projT1 x) (projT2 x).

Definition phase_of (c : Commands) (tr : list Obs) : Phase := foldl (observe_obs c) start_phase tr.

Fixpoint accepted_from (c : Commands) (config : Configuration) (ph : Phase) (tr : list Obs) : bool :=
  match tr with
  | [] => true
  | x :: tr => allowed c config ph (projT1 x) && accepted_from c config (observe_obs c ph x) tr
  end.

Definition accepted (c : Commands) (config : Configuration) (tr : list Obs) : bool := accepted_from c config start_phase tr.

(** The tasks that may run, whoever has their handles: started, not aborted,
    and not reported as ended by the supervisor. *)
Definition running_after (e : Ev) (was : list string) : answer e -> list string :=
  match e with
  | Spawn t => fun _ => was ++ [t]
  | AbortTask t => fun _ => List.filter (fun u => negb (String.eqb u t)) was
  | StopSupervisor => fun r : option (option string * list string) =>
      match r with
      | Some (Some t, _) => List.filter (fun u => negb (String.eqb u t)) was
      | _ => was
      end
  | _ => fun _ => was
  end.

Definition running_step (was : list string) (x : Obs) : list string := running_after (projT1 x) was (projT2 x).

Definition running (tr : list Obs) : list string := foldl running_step [] tr.

(** The supervisor answers for the task: it ended, or its handle is returned. *)
Definition accounts_for (t : string) (r : option (option string * list string)) : Prop :=
  match r with Some (reported, survivors) => reported = Some t \/ t ∈ survivors | None => False end.

(** [wait_for_task_failure] answers for every task it was given. *)
Lemma supervisor_accounts {R} (polls : list ((string -> option R) * bool)) tasks reported survivors t :
  wait_for_task_failure polls tasks = Some (reported, survivors) -> t ∈ tasks ->
  accounts_for t (Some (fst <$> reported, survivors)).
Proof.
  induction polls as [|[dn stop] polls IH]; cbn; [done|]. destruct (finished dn tasks) as [[[u r] others]|] eqn:Ef.
  - intros [= <- <-] Ht. destruct (finished_from_perm _ _ _ _ _ _ Ef) as [_ Hp]. rewrite <- Hp in Ht.
    cbn in Ht. apply elem_of_cons in Ht as [->|Ht]; [by left|by right].
  - destruct stop; [intros [= <- <-]; by right|exact IH].
Qed.

(** One call: a task with a handle keeps it, ends, or is lost by the
    supervisor. *)
Lemma running_one e r was live t : t ∈ running_after e was r -> t ∈ was \/ t ∈ live_after e live r.
Proof.
  destruct e; cbn [running_after live_after]; intros H; try (by left).
  - apply elem_of_app in H as [H|H]; [by left|right]. apply elem_of_app. by right.
  - left. by destruct r as [[[u|] surv]|]; [apply list_elem_of_In, filter_In in H as [H _]; apply list_elem_of_In|..].
  - left. apply list_elem_of_In, filter_In in H as [H _]. by apply list_elem_of_In.
Qed.

Lemma live_one e r was live t : t ∈ running_after e was r -> t ∈ live ->
  t ∈ live_after e live r \/ exists (E : e = StopSupervisor), ~ accounts_for t (eq_rect e answer r StopSupervisor E).
Proof.
  destruct e; cbn [running_after live_after]; intros H Hl; try (by left).
  - left. apply elem_of_app. by left.
  - destruct (decide (t ∈ default [] (snd <$> r))) as [Hs|Hs]; [left; by destruct r as [[]|]|]. right. exists eq_refl. cbn.
    destruct r as [[rep surv]|]; cbn; [|tauto]. intros [->|?]; [|done]. apply list_elem_of_In, filter_In in H as [_ H].
    by rewrite String.eqb_refl in H.
  - left. apply list_elem_of_In, filter_In in H as [_ H]. apply list_elem_of_In, filter_In. by rewrite <- list_elem_of_In.
Qed.

(** A task that may run has a handle held, or the supervisor lost it. *)
Lemma running_accounted c tr t : t ∈ running tr ->
  t ∈ ph_live (phase_of c tr) \/ exists r, existT StopSupervisor r ∈ tr /\ ~ accounts_for t r.
Proof.
  induction tr as [|[e r] tr IH] using rev_ind; [by intros ?%not_elem_of_nil|].
  unfold running, phase_of in *. rewrite !foldl_app. cbn [foldl]. unfold running_step at 1. cbn [projT1 projT2].
  set (was := foldl running_step [] tr) in *. set (ph := foldl (observe_obs c) start_phase tr) in *.
  change (ph_live (observe_obs c ph (existT e r))) with (live_after e (ph_live ph) r). intros Ht.
  destruct (running_one e r was (ph_live ph) t Ht) as [Hw|]; [|by left].
  destruct (IH Hw) as [Hl|(r0 & Hr0 & Hn)].
  - destruct (live_one e r was (ph_live ph) t Ht Hl) as [?|[E Hn]]; [by left|right]. subst e. exists r. split; [|done].
    apply elem_of_app. right. by left.
  - right. exists r0. split; [|done]. apply elem_of_app. by left.
Qed.

(** ** Programs and the protocol *)

(** Every call of [p] from [ph] is in its place, and the end satisfies [Q]. *)
Fixpoint wp {A} (c : Commands) (config : Configuration) (p : Cmd A) (ph : Phase) (Q : A -> Phase -> Prop) : Prop :=
  match p with
  | Done a => Q a ph
  | Do e k => allowed c config ph e = true /\ forall r, wp c config (k r) (observe c ph e r) Q
  end.

(** The phase after a call, computed. *)
Ltac observed :=
  unfold observe; cbn [lock_after dir_after out_after live_after fails dies ph_lock ph_dir ph_out ph_pool ph_schema ph_settings
    ph_catalog ph_listener ph_bound ph_live ph_failed ph_died orb andb negb app]; rewrite ?orb_false_r.

Section Wp.
Context (c : Commands) (config : Configuration).

Lemma wp_bind {A B} (p : Cmd A) (f : A -> Cmd B) Q : forall ph,
  wp c config p ph (fun a ph' => wp c config (f a) ph' Q) -> wp c config (cbind p f) ph Q.
Proof. induction p as [a|e k IH]; cbn; [done|]. intros ph [Ha H]. split; [done|]. intros r. by apply IH, H. Qed.

Lemma wp_mono {A} (p : Cmd A) (Q Q' : A -> Phase -> Prop) : (forall a ph, Q a ph -> Q' a ph) ->
  forall ph, wp c config p ph Q -> wp c config p ph Q'.
Proof. intros HQ. induction p as [a|e k IH]; cbn; [by intros; apply HQ|]. intros ph [Ha H]. split; [done|]. intros r. by apply IH, H. Qed.

Lemma wp_lift_bind {A B} (p : Prog A) (f : A -> Prog B) Q : forall ph,
  wp c config (lift p) ph (fun a ph' => wp c config (lift (f a)) ph' Q) -> wp c config (lift (pbind p f)) ph Q.
Proof. induction p as [a|e k IH]; cbn; [done|]. intros ph [Ha H]. split; [done|]. intros r. by apply IH, H. Qed.

Lemma phase_of_snoc past x : phase_of c (past ++ [x]) = observe_obs c (phase_of c past) x.
Proof. unfold phase_of. by rewrite foldl_app. Qed.

Lemma accepted_app tr2 : forall tr1 ph, accepted_from c config ph (tr1 ++ tr2) =
  accepted_from c config ph tr1 && accepted_from c config (foldl (observe_obs c) ph tr1) tr2.
Proof. induction tr1 as [|y tr1 IH]; intros ph; cbn; [done|]. by rewrite IH, andb_assoc. Qed.

Lemma accepted_snoc x : forall past ph, accepted_from c config ph (past ++ [x]) =
  accepted_from c config ph past && allowed c config (foldl (observe_obs c) ph past) (projT1 x).
Proof. intros past ph. rewrite accepted_app. cbn. by rewrite andb_true_r. Qed.

(** A run of a program is accepted, and its end satisfies [Q]. *)
Lemma wp_play {A} o (p : Cmd A) Q : forall past, accepted c config past = true -> wp c config p (phase_of c past) Q ->
  accepted c config (snd (play o p past)) = true /\ Q (fst (play o p past)) (phase_of c (snd (play o p past))).
Proof.
  induction p as [a|e k IH]; cbn; [done|]. intros past Hp [Ha H]. apply IH.
  - unfold accepted in *. rewrite accepted_snoc, Hp. exact Ha.
  - rewrite phase_of_snoc. apply H.
Qed.
End Wp.

(** ** The guards *)

(** Nothing is held and nothing runs. *)
Definition released (ph : Phase) : Prop := ph_lock ph = false /\ ph_dir ph = false /\ ph_live ph = [].

(** The guards are up, and nothing else is. *)
Definition guarded_phase (g : option SingleInstanceGuard) (out : bool) : Phase :=
  mkPhase (guard_lock_held g) (bool_decide (is_Some (g ≫= lock_path))) out false false false false false false [] false false.

Definition guard_post (c : Commands) (config : Configuration) (r : result string (option SingleInstanceGuard)) (ph : Phase) : Prop :=
  match r with
  | Err _ => released ph
  | Ok g => exists out, ph = guarded_phase g out /\ permitted c config ph = true
  end.

(** The phases in which a guard is acquired. *)
Definition early (lock dir out failed : bool) : Phase :=
  mkPhase lock dir out false false false false false false [] failed false.

Section GuardWp.
Context (c : Commands) (config : Configuration) (Hw : writer c = true).

Lemma wp_sys {A} x (k : reply x -> Prog A) Q l d o f : (releases (Sys x) || negb f = true) ->
  (forall r, wp c config (lift (k r))
     (early (lock_after (Sys x) l r) (dir_after (Sys x) d r) (out_after (Sys x) o r) (f || fails (Sys x) r)) Q) ->
  wp c config (lift (Act x k)) (early l d o f) Q.
Proof.
  intros Hr H. cbn [lift wp]. split.
  - unfold allowed. destruct (releases (Sys x)); cbn in *; [by rewrite Hw|]. rewrite Hw. by destruct f.
  - intros r. specialize (H r). unfold observe. by destruct x.
Qed.

(** One call of a guard. *)
Ltac sys_call := apply wp_sys; [done..|]; intros; cbn [lock_after dir_after out_after fails is_ok negb orb].

Lemma connect_wp Q o : (forall e, Q (Err e) (early false false o true)) -> (forall b, Q (Ok b) (early b false o false)) ->
  wp c config (lift (connect_and_try_instance_lock config)) (early false false o false) Q.
Proof.
  intros He Hok. unfold connect_and_try_instance_lock. sys_call. destruct r as [u|e]; [|apply He].
  sys_call. destruct r as [[[]|]|e]; [apply (Hok true)|apply (Hok false)|apply (Hok false)|]. sys_call. apply He.
Qed.

Lemma try_wp Q o : (forall e, Q (Err e) (early false false o true)) -> (forall b, Q (Ok b) (early b false o false)) ->
  wp c config (lift (try_acquire_advisory_lock config)) (early false false o false) Q.
Proof.
  intros He Hok. unfold try_acquire_advisory_lock. apply wp_lift_bind, connect_wp; [intros; apply He|].
  intros []; [apply (Hok true)|]. sys_call. apply (Hok false).
Qed.

Lemma write_pieces_wp Q l d o ps : Q tt (early l d o false) -> wp c config (lift (write_pieces ps)) (early l d o false) Q.
Proof. intros HQ. induction ps as [|p ps IH]; [exact HQ|]. cbn [write_pieces]. sys_call. by destruct r. Qed.

Lemma create_wp Q l o p : (forall e, Q (Err e) (early l false o true)) -> Q (Ok p) (early l true o false) ->
  wp c config (lift (create_lock_file p)) (early l false o false) Q.
Proof.
  intros He Hok. unfold create_lock_file. sys_call. destruct r as [u|e]; [|apply He].
  sys_call. sys_call. apply wp_lift_bind, write_pieces_wp, Hok.
Qed.

(** After the holder's check. *)
Definition take_over (path refusal : string) (live_holder : bool) : Prog (result string string) :=
  if live_holder then Ret (Err refusal)
  else
    call removed := RemoveFile path in
    match removed with
    | Err e => Ret (Err ("remove stale lock file: " +:+ e))
    | Ok _ => create_lock_file path
    end.

Lemma take_over_wp Q l o path refusal live : (forall e f, Q (Err e) (early l false o f)) -> Q (Ok path) (early l true o false) ->
  wp c config (lift (take_over path refusal live)) (early l false o false) Q.
Proof.
  intros He Hok. unfold take_over. destruct live; [apply He|]. sys_call. destruct r; [|apply He]. apply create_wp; [intros; apply He|done].
Qed.

Lemma pid_lock_wp Q l o : (forall e f, Q (Err e) (early l false o f)) -> (forall p, Q (Ok p) (early l true o false)) ->
  wp c config (lift (acquire_zim_dir_pid_lock config)) (early l false o false) Q.
Proof.
  intros He Hok. unfold acquire_zim_dir_pid_lock. set (path := path_join _ _).
  sys_call. destruct r; [|apply create_wp; [intros; apply He|apply Hok]]. sys_call. destruct (parse_lock_file _) as [pid ts].
  fold (take_over path (pid_lock_refusal config path pid ts)).
  assert (Hlive : forall alive : bool, wp c config (lift (if alive then pid_lock_holder_is_zimservice pid else Ret false))
    (early l false o false) (fun live ph => wp c config (lift (take_over path (pid_lock_refusal config path pid ts) live)) ph Q)).
  { intros []; [|by apply take_over_wp]. unfold pid_lock_holder_is_zimservice. sys_call. destruct r0; by apply take_over_wp. }
  apply wp_lift_bind. destruct (pid =? 0); [apply wp_lift_bind, (Hlive false)|]. unfold pid_is_alive. sys_call.
  destruct r0 as [[|[]|[]] errno]; cbn [lift wp]; apply wp_lift_bind; first [exact (Hlive true)|exact (Hlive _)].
Qed.

Lemma mutating_wp : is_serve c = false -> wp c config (lift (start_program Mutate config)) start_phase (guard_post c config).
Proof.
  intros Hs. change start_phase with (early false false false false). cbn [start_program]. apply wp_lift_bind.
  unfold acquire_mutating_guard. apply wp_lift_bind. unfold multi_instance_allowed. sys_call.
  change (String.eqb _ _) with true. cbn iota. cbn [lift wp]. destruct (is_one r) eqn:Er.
  - exists true. split; [done|]. unfold permitted. destruct c; cbn in *; by rewrite ?Hw.
  - apply wp_lift_bind, connect_wp; [done|]. intros [].
    + exists false. split; [done|]. unfold permitted. destruct c; cbn in *; by rewrite ?Hw.
    + sys_call. sys_call. done.
Qed.
End GuardWp.

Section ServeGuardWp.
Context (config : Configuration).

Lemma pid_with_wp held o (Hperm : permitted CmdServe config (early held true o false) = true) :
  wp CmdServe config (lift (pid_lock_with held config)) (early held false o false)
    (fun g => guard_post CmdServe config (match g with Ok g => Ok (Some g) | Err e => Err e end)).
Proof.
  unfold pid_lock_with. apply wp_lift_bind, pid_lock_wp; [done|..].
  - intros e f. destruct held; [|done]. by apply wp_sys; [done|done|]; intros.
  - intros p. exists o. by destruct held.
Qed.

Lemma serve_guard_wp : wp CmdServe config (lift (start_program Guards.Serve config)) start_phase (guard_post CmdServe config).
Proof.
  change start_phase with (early false false false false). cbn [start_program]. unfold cmd_serve_guard. apply wp_lift_bind.
  unfold multi_instance_allowed. apply wp_sys; [done..|]. intros r. cbn [lock_after dir_after out_after fails is_ok negb orb].
  change (String.eqb _ _) with true. cbn iota. cbn [lift wp]. destruct (is_one r); [by exists true|]. cbn [negb andb].
  destruct (allow_multi_db config) eqn:Em.
  - apply wp_lift_bind. unfold acquire_instance_guard_multi_db. apply wp_lift_bind, try_wp; [done|done|]. intros held.
    assert (Hp : permitted CmdServe config (early held true false false) = true) by (cbn; by rewrite Em, orb_true_r).
    eapply wp_mono; [|destruct held; exact (pid_with_wp _ _ Hp)]. by intros [g|e] ph H.
  - apply wp_lift_bind. unfold acquire_instance_guard. apply wp_lift_bind, try_wp; [done|done|]. intros []; [|done].
    apply wp_lift_bind. eapply wp_mono; [|by apply (pid_with_wp true)]. by intros [g|e] ph H.
Qed.
End ServeGuardWp.

(** ** The body of a command *)

(** The guards are as they were taken and no task runs. *)
Definition holding (l d o : bool) (ph : Phase) : Prop :=
  ph_lock ph = l /\ ph_dir ph = d /\ ph_out ph = o /\ ph_live ph = [].

Definition unharmed (ph : Phase) : Prop := ph_failed ph = false /\ ph_died ph = false.

(** What a body leaves behind: the guards untouched, and success only when no
    step failed. *)
Definition body_post {A} (l d o : bool) (r : result Stop A) (ph : Phase) : Prop :=
  holding l d o ph /\ (is_ok r = true -> unharmed ph).

Section BodyWp.
Context {Cr : Crypto} {Ip : IpNetApi} (c : Commands) (config : Configuration) (l d o : bool).
Context (Hp : forall pool schema settings catalog listener bound live failed died,
  permitted c config (mkPhase l d o pool schema settings catalog listener bound live failed died) = true).

(** One call of a body that is allowed; its failure ends it. *)
Ltac body_call :=
  split; [unfold allowed, in_place; cbn [releases]; rewrite ?Hp; cbn; first [done|by destruct (writer c)]|];
  intros r; observed.

Lemma bootstrap_wp Q : (forall m pool, Q (Err m) (mkPhase l d o pool false false false false false [] true false)) ->
  Q (Ok tt) (mkPhase l d o true true false false false false [] false false) ->
  wp c config bootstrap_pool_and_zims (early l d o false) Q.
Proof.
  intros He Hok. unfold bootstrap_pool_and_zims, early. body_call. destruct r as [u|e]; [|apply He].
  cbn [is_ok negb]. body_call. destruct r as [u'|e]; [apply Hok|apply He].
Qed.

Lemma populate_wp resync Q s : resync = writer c ->
  (forall m, Q (Err m) (mkPhase l d o true true s false false false [] true false)) ->
  (forall found, Q (Ok found) (mkPhase l d o true true s true false false [] false false)) ->
  wp c config (populate_zims_calls resync) (mkPhase l d o true true s false false false [] false false) Q.
Proof.
  intros Hr He Hok. unfold populate_zims_calls. body_call. destruct r as [found|e]; [|apply He]. cbn [is_ok negb].
  body_call. destruct r as [u|e]; [|apply He]. rewrite Hr. cbn [is_ok negb]. destruct (writer c) eqn:Ew; [|apply Hok]. cbn [negb andb].
  split; [unfold allowed, in_place; cbn [releases]; rewrite Hp, Ew; done|]. intros [u'|e]; unfold observe; cbn;
    rewrite ?orb_false_r; [apply Hok|apply He].
Qed.

Lemma check_wp req Q : (forall m f, Q (Err m) (mkPhase l d o true true false false false false [] f false)) ->
  Q (Ok tt) (mkPhase l d o true true false false false false [] false false) ->
  wp c config (instance_check req) (mkPhase l d o true true false false false false [] false false) Q.
Proof.
  intros He Hok. unfold instance_check. destruct (request_lock_held req); [exact Hok|]. body_call.
  destruct r as [u|e]; [|apply He]. cbn [is_ok negb]. body_call. exact Hok.
Qed.

Lemma connect_qbit_wp req st Q : (forall fp, Q fp (mkPhase l d o true true true true false false [] false false)) ->
  wp c config (connect_at_startup config req st) (mkPhase l d o true true true true false false [] false false) Q.
Proof.
  intros HQ. unfold connect_at_startup. destruct (_ && _); [|apply HQ]. destruct (resolve_qbit_inputs _ _ _ _) as [[[url user] pass]|]; [|apply HQ].
  body_call. apply HQ.
Qed.

Lemma notify_wp req Q : bool_decide (mode req = ModeServe) = is_serve c ->
  (forall b, Q (Ok b) (mkPhase l d o true true true true (is_serve c) false [] false false)) ->
  wp c config (spawn_notify config req (is_serve c)) (mkPhase l d o true true true true false false [] false false) Q.
Proof.
  intros Hs HQ. unfold spawn_notify. rewrite Hs. destruct (is_serve c) eqn:E; [|apply HQ].
  split; [unfold allowed, in_place; cbn [releases]; by rewrite Hp, E|]. intros r. apply HQ.
Qed.

Lemma state_wp getenv salt req Q : mode_resync (mode req) = writer c -> bool_decide (mode req = ModeServe) = is_serve c ->
  (forall m ph, holding l d o ph -> Q (Err m) ph) ->
  (forall s, Q (Ok s) (mkPhase l d o true true true true (is_serve c) false [] false false)) ->
  wp c config (build_state getenv salt config req (is_serve c)) (early l d o false) Q.
Proof.
  intros Hw Hs He Hok. unfold build_state. apply wp_bind, bootstrap_wp; [intros; by apply He|].
  body_call. destruct r as [db_read|e]; [|by apply He]. cbn [is_ok negb]. body_call. destruct r as [u|e]; [|by apply He]. cbn [is_ok negb].
  apply wp_bind, check_wp; [intros; by apply He|]. body_call. destruct r as [st|e]; [|by apply He]. cbn [is_ok negb].
  destruct (admin_password_startup_check _ _) as [u'|e]; [|by apply He].
  apply wp_bind, populate_wp; [done|intros; by apply He|]. intros found. apply wp_bind, connect_qbit_wp. intros fp.
  apply wp_bind, notify_wp; [done|]. intros b. apply Hok.
Qed.

(** Lines printed leave no trace in the phase. *)
Lemma print_wp {A} (f : A -> string) xs Q ph : ph_schema ph = true -> ph_failed ph = false -> Q tt ph ->
  wp c config (for_each (fun x => Println (f x)) xs) ph Q.
Proof.
  intros Hs Hf HQ. induction xs as [|x xs IH]; [exact HQ|]. cbn [for_each wp]. split; [unfold allowed; cbn; by rewrite Hf, Hs|].
  intros r. assert (observe c ph (Println (f x)) r = ph) as ->; [|exact IH].
  unfold observe. destruct ph; cbn. by rewrite !orb_false_r.
Qed.
End BodyWp.

Section CommandWp.
Context {Cr : Crypto} {Ip : IpNetApi} (getenv : string -> option string) (salt : string) (c : Commands) (config : Configuration).

(** The guard is released on the way out; what has failed or died stays known. *)
Lemma stop_wp g Q ph : writer c = true -> ph_live ph = [] -> ph_lock ph = guard_lock_held g ->
  ph_dir ph = bool_decide (is_Some (g ≫= lock_path)) ->
  (forall ph', released ph' -> ph_failed ph' = ph_failed ph -> ph_died ph' = ph_died ph -> Q tt ph') ->
  wp c config (lift (stop_program g)) ph Q.
Proof.
  intros Hw Hl Hk Hd HQ. assert (Hrel : forall e, releases e = true -> allowed c config ph e = true).
  { intros e He. unfold allowed. rewrite He, Hl, bool_decide_true, orb_true_r by done. by destruct e; rewrite ?Hw. }
  destruct ph as [k dr ou po sc se ca li bo live fa di]. cbn in *. subst live.
  destruct g as [[[] [p|]]|]; cbn in *; subst k dr;
    repeat first [split; [by rewrite Hrel || (unfold allowed; cbn; by rewrite Hw, orb_true_r)|intros ?]];
    apply HQ; unfold released; cbn; by rewrite ?orb_false_r.
Qed.

Context (l d o : bool).
Context (Hp : forall pool schema settings catalog listener bound live failed died,
  permitted c config (mkPhase l d o pool schema settings catalog listener bound live failed died) = true).

Definition loaded_phase : Phase := mkPhase l d o true true true true (is_serve c) false [] false false.

(** One call of a body; its failure ends it. *)
Ltac body_step :=
  try unfold loaded_phase;
  split; [unfold allowed, in_place; cbn [releases]; rewrite ?Hp; cbn; first [done|by destruct (writer c)]|];
  let a := fresh "r" in intros a; observed.

(** The state is dropped after the body. *)
Lemma with_state_wp req body : is_serve c = false -> mode_resync (mode req) = writer c -> mode req <> ModeServe ->
  (forall s, wp c config (body s) loaded_phase (body_post l d o)) ->
  wp c config (with_state getenv salt config req body) (early l d o false) (body_post l d o).
Proof.
  intros Hs Hw Hm Hb. unfold with_state. apply wp_bind.
  enough (H : wp c config (build_state getenv salt config req (is_serve c)) (early l d o false)
    (fun a ph => wp c config (match a with Err m => Done (Err m) | Ok s => seq r := body s in ask _ := DropState in Done r end) ph
       (body_post l d o))) by (by rewrite Hs in H).
  apply state_wp; [done|done|by rewrite bool_decide_false, Hs|by intros|]. intros s. apply wp_bind.
  eapply wp_mono; [|apply Hb]. intros r ph [(Hk & Hd & Ho & Hl) Hu]. split.
  - unfold allowed. cbn. by rewrite Hl, bool_decide_true, orb_true_r.
  - intros u. split; [done|]. intros Hr. destruct (Hu Hr) as [Hf Hdi]. unfold unharmed. cbn. by rewrite Hf, Hdi.
Qed.

Lemma status_wp : c = CmdStatus -> wp c config (cmd_status getenv salt config) (early l d o false) (body_post l d o).
Proof.
  intros Hc. unfold cmd_status. apply with_state_wp; [by rewrite Hc..|done|]. intros s. body_step.
  apply wp_bind, (print_wp c config id); done.
Qed.

Lemma index_wp zim all held : c = CmdIndex zim all ->
  wp c config (with_state getenv salt config (request_mutating held) (fun _ => ask? _ := IndexZims (if all then None else zim) in Done (Ok tt)))
    (early l d o false) (body_post l d o).
Proof.
  intros Hc. apply with_state_wp; [by rewrite Hc..|done|]. intros s.
  split; [unfold allowed, in_place, loaded_phase; cbn [releases]; rewrite Hp, Hc; done|]. intros [u|e]; done.
Qed.

Lemma mcp_wp : c = CmdMcp -> wp c config (cmd_mcp getenv salt config) (early l d o false) (body_post l d o).
Proof.
  intros Hc. unfold cmd_mcp. apply with_state_wp; [by rewrite Hc..|done|]. intros s.
  destruct (mcp_auth_ok _ _ _) as [[u|e]|p]; [|done..]. split; [unfold allowed, in_place, loaded_phase; cbn [releases]; rewrite Hp, Hc; done|].
  intros [u'|e]; done.
Qed.

Lemma embed_all_wp zim targets : c = CmdEmbed zim -> wp c config (embed_all targets) loaded_phase (body_post l d o).
Proof.
  intros Hc. induction targets as [|t targets IH]; [done|]. cbn [embed_all]. body_step.
  split; [unfold allowed, in_place, loaded_phase; cbn [releases]; rewrite Hp, Hc; done|]. intros [u|e]; [|done]. cbn. unfold observe. cbn. by split.
Qed.

Lemma embed_wp zim held : c = CmdEmbed zim ->
  wp c config (with_state getenv salt config (request_mutating held) (embed_body zim)) (early l d o false) (body_post l d o).
Proof.
  intros Hc. apply with_state_wp; [by rewrite Hc..|done|]. intros s. unfold embed_body. destruct (negb _); [done|]. apply wp_bind.
  assert (H : forall ts, wp c config match ts with [] => ask _ := Println "No embed-enabled ZIMs found (index one first with `zimservice index`)" in Done (Ok tt)
    | _ => embed_all ts end loaded_phase (body_post l d o)).
  { intros [|t ts]; [by body_step|by apply (embed_all_wp zim)]. }
  unfold embed_targets. destruct zim as [z|]; body_step; [destruct r; [apply (H [z])|done]|apply H].
Qed.

Lemma list_wp sync : c = CmdList sync -> wp c config (list_body config sync) (early l d o false) (body_post l d o).
Proof.
  intros Hc. unfold list_body. apply wp_bind, (bootstrap_wp c config l d o Hp); [by intros|].
  apply wp_bind, (populate_wp c config l d o Hp); [by rewrite Hc; destruct sync|by intros|]. intros found. unfold print_zims. apply wp_bind.
  assert (H : forall b : bool, wp c config
    (if b then ask _ := Println ("No ZIM files found in " +:+ zim_dir config) in Done (Ok tt)
     else ask _ := Println (list_row "NAME" "LANG" "ENTRIES" "INDEXED" "STATUS") in
          ask _ := Println (str_repeat 80 "-") in
          ask zs := ListZims in
          seq _ := for_each (fun m => Println (zim_row m)) zs in Done (Ok tt))
    (mkPhase l d o true true false true false false [] false false) (body_post l d o)).
  { intros []; [by body_step|]. body_step. body_step. body_step. by apply wp_bind, (print_wp c config zim_row). }
  destruct found; [|apply (H false)]. body_step. apply (H _).
Qed.
End CommandWp.

(** ** The server *)

Section ServeWp.
Context {Cr : Crypto} {Ip : IpNetApi} (getenv : string -> option string) (salt : string) (config : Configuration).
Context (l d o : bool).
Context (Hp : forall pool schema settings catalog listener bound live failed died,
  permitted CmdServe config (mkPhase l d o pool schema settings catalog listener bound live failed died) = true).

(** Serving, with these tasks alive. *)
Definition serving (live : list string) (died : bool) : Phase := mkPhase l d o true true true true true true live false died.

Lemma serving_allowed e live died : releases e = false -> in_place CmdServe config (serving live died) e = true ->
  allowed CmdServe config (serving live died) e = true.
Proof. intros Hr H. unfold allowed. by rewrite Hr, H. Qed.

(** Aborting all survivors leaves none. *)
Lemma abort_wp survivors Q died : forall live, (forall t, t ∈ live -> t ∈ survivors) -> Q tt (serving [] died) ->
  wp CmdServe config (for_each AbortTask survivors) (serving live died) Q.
Proof.
  induction survivors as [|s survivors IH]; intros live Hin HQ.
  - destruct live as [|x live]; [exact HQ|]. exfalso. eapply not_elem_of_nil, (Hin x). by left.
  - cbn [for_each]. split; [apply serving_allowed; [done|]; unfold in_place, serving; by rewrite Hp|]. intros r. unfold serving. observed.
    apply IH; [|exact HQ]. intros t Ht. apply list_elem_of_In, filter_In in Ht as [Ht Hne]. apply list_elem_of_In, Hin, elem_of_cons in Ht as [->|Ht]; [|done].
    by rewrite String.eqb_refl in Hne.
Qed.

Lemma shut_down_wp served Q : (forall x, Q (snd (finalize_serve_shutdown served (Some []) x)) (serving [] (negb (is_ok served) || x))) ->
  wp CmdServe config (shut_down served) (serving TASKS (negb (is_ok served))) Q.
Proof.
  intros HQ. unfold shut_down. split; [apply serving_allowed; [done|]; unfold in_place, serving; by rewrite Hp|].
  intros joined. set (survivors := default [] (snd <$> joined)).
  assert (Hl : live_after StopSupervisor TASKS joined = survivors) by (by destruct joined as [[]|]).
  unfold observe, serving. cbn [ph_live]. rewrite Hl. observed. apply wp_bind, (abort_wp survivors); [done|].
  split; [apply serving_allowed; [done|]; unfold in_place, serving; by rewrite Hp|]. intros u. unfold serving. observed.
  split; [apply serving_allowed; [done|]; unfold in_place, serving; by rewrite Hp|]. intros x. unfold serving. observed. exact (HQ x).
Qed.

(** A call of the server. *)
Ltac serve_step :=
  unfold serving; split; [unfold allowed, in_place; cbn [releases]; rewrite ?Hp; done|];
  let a := fresh "r" in intros a; observed.

Lemma serve_body_wp s : wp CmdServe config (serve_body config s) (loaded_phase CmdServe l d o) (body_post l d o).
Proof.
  unfold serve_body, loaded_phase. destruct (serve_policy_checks _ _ _ _) as [warnings|msg]; [|done]. cbn [is_serve].
  serve_step. destruct r as [u|e]; [|done]. cbn [is_ok negb]. serve_step. destruct r as [u'|e]; [|done]. cbn [is_ok negb].
  apply wp_bind. cbn [for_each TASKS]. do 6 serve_step. apply wp_bind, shut_down_wp. intros x. cbn [finalize_serve_shutdown snd].
  unfold body_post, unharmed. destruct r4 as [v|e]; [|done]. by destruct x.
Qed.
End ServeWp.

(** ** Every command *)

Section Every.
Context {Cr : Crypto} {Ip : IpNetApi} (getenv : string -> option string) (salt : string) (config : Configuration).

Definition command_post (r : result Stop unit) (ph : Phase) : Prop := released ph /\ (is_ok r = true -> unharmed ph).

Lemma permitted_fields c l d o ph : permitted c config ph = true -> ph_lock ph = l -> ph_dir ph = d -> ph_out ph = o ->
  forall pool schema settings catalog listener bound live failed died,
  permitted c config (mkPhase l d o pool schema settings catalog listener bound live failed died) = true.
Proof. by intros H <- <- <-. Qed.

Lemma with_guard_wp c body : writer c = true -> is_serve c = false ->
  (forall l d o held, (forall pool schema settings catalog listener bound live failed died,
     permitted c config (mkPhase l d o pool schema settings catalog listener bound live failed died) = true) ->
     wp c config (body held) (early l d o false) (body_post l d o)) ->
  wp c config (with_mutating_guard config body) start_phase command_post.
Proof.
  intros Hw Hs Hb. unfold with_mutating_guard. apply wp_bind. eapply wp_mono; [|by apply mutating_wp]. intros [g|e] ph Hg; [|done].
  destruct Hg as (out & -> & Hperm). apply wp_bind. eapply wp_mono; [|apply Hb; by eapply permitted_fields].
  intros r ph [(Hk & Hd & _ & Hl) Hu]. apply wp_bind, stop_wp; [done..|]. intros ph' Hrel Hf Hdi. split; [done|]. intros Hr.
  destruct (Hu Hr). unfold unharmed. by rewrite Hf, Hdi.
Qed.

Lemma serve_wp : wp CmdServe config (cmd_serve getenv salt config) start_phase command_post.
Proof.
  unfold cmd_serve. apply wp_bind. eapply wp_mono; [|apply serve_guard_wp]. intros [g|e] ph Hg; [|done].
  destruct Hg as (out & -> & Hperm). pose proof (permitted_fields _ _ _ _ _ Hperm eq_refl eq_refl eq_refl) as Hp. apply wp_bind.
  apply (state_wp CmdServe config _ _ _ Hp getenv salt (request_serve _)); [done|done|..].
  - intros m ph (Hk & Hd & _ & Hl). apply wp_bind, stop_wp; [done..|]. by intros.
  - intros s. apply wp_bind. eapply wp_mono; [|by apply serve_body_wp]. intros [[]|e] ph [(Hk & Hd & _ & Hl) Hu].
    + apply wp_bind, stop_wp; [done..|]. intros ph' (Hk' & Hd' & Hl') Hf Hdi. destruct (Hu eq_refl) as [Hf0 Hdi0]. split.
      * unfold allowed. cbn. by rewrite Hl', bool_decide_true, orb_true_r.
      * intros u. unfold command_post, released, unharmed. cbn. by rewrite Hf, Hdi, Hf0, Hdi0.
    + split; [unfold allowed; cbn; by rewrite Hl, bool_decide_true, orb_true_r|]. intros u.
      apply wp_bind, stop_wp; [done..|]. by intros.
Qed.

Lemma reader_post c : writer c = false -> forall p, wp c config p (early false false false false) (body_post false false false) ->
  wp c config p start_phase command_post.
Proof. intros Hw p H. eapply wp_mono; [|exact H]. by intros r ph [(? & ? & _ & ?) Hu]. Qed.

Lemma command_wp c : wp c config (run_command getenv salt c config) start_phase command_post.
Proof.
  destruct c as [|[]| |zim all| |zim]; cbn [run_command].
  - apply serve_wp.
  - apply with_guard_wp; [done..|]. intros. by apply list_wp.
  - apply reader_post; [done|]. by apply list_wp.
  - apply reader_post; [done|]. by apply status_wp.
  - apply with_guard_wp; [done..|]. intros. by apply index_wp.
  - apply reader_post; [done|]. by apply mcp_wp.
  - apply with_guard_wp; [done..|]. intros. by apply embed_wp.
Qed.
End Every.

(** ** What success means *)

(** The call that a command is for; [name] is any archive's. *)
Definition its_work (c : Commands) (name : string) (x : Obs) : Prop :=
  match c with
  | CmdServe => x = existT ServeHttp (Ok tt)
  | CmdList true => x = existT Resync (Ok tt)
  | CmdList false | CmdStatus => exists zs, x = existT ListZims zs
  | CmdIndex zim all => x = existT (IndexZims (if all then None else zim)) (Ok tt)
  | CmdMcp => x = existT RunMcp (Ok tt)
  | CmdEmbed (Some z) => x = existT (RunPipeline z) (Ok tt)
  | CmdEmbed None => x = existT (RunPipeline name) (Ok tt) \/ exists names, x = existT ListEmbedEnabledNames names /\ name ∉ names
  end.

(** Every path of [p] ends in [Q]. *)
Fixpoint ends {A} (Q : A -> Prop) (p : Cmd A) : Prop :=
  match p with
  | Done a => Q a
  | Do e k => forall r, ends Q (k r)
  end.

Lemma ends_bind {A B} (p : Cmd A) (f : A -> Cmd B) Q : (forall a, ends Q (f a)) -> ends Q (cbind p f).
Proof. intros Hf. induction p as [a|e k IH]; cbn; [apply Hf|done]. Qed.

Section Must.
Context (P : Obs -> Prop).

(** No path of [p] ends well without a call of [P]. *)
Fixpoint must {A} (p : Cmd (result Stop A)) : Prop :=
  match p with
  | Done r => is_ok r = false
  | Do e k => forall r, P (existT e r) \/ must (k r)
  end.

Lemma must_bind {A B} (p : Cmd A) (f : A -> Cmd (result Stop B)) : (forall a, must (f a)) -> must (cbind p f).
Proof. intros Hf. induction p as [a|e k IH]; cbn; [apply Hf|]. intros r. right. apply IH. Qed.

Lemma must_ends {A B} (p : Cmd A) (f : A -> Cmd (result Stop B)) : ends (fun a => must (f a)) p -> must (cbind p f).
Proof. induction p as [a|e k IH]; cbn; [done|]. intros H r. right. apply IH, H. Qed.

Lemma must_first {A B} (p : Cmd (result Stop A)) (f : result Stop A -> Cmd (result Stop B)) :
  must p -> (forall e, must (f (Err e))) -> must (cbind p f).
Proof.
  intros Hp Hf. induction p as [[a|e]|e k IH]; cbn in *; [done|apply Hf|]. intros r. destruct (Hp r) as [|H]; [by left|right]. by apply IH.
Qed.

Lemma must_play {A} o (p : Cmd (result Stop A)) : must p -> forall past, is_ok (fst (play o p past)) = true ->
  exists x, x ∈ snd (play o p past) /\ P x.
Proof.
  induction p as [r|e k IH]; cbn; intros Hm past Hok; [congruence|]. destruct (Hm (o past e)) as [H|H]; [|by apply IH].
  exists (existT e (o past e)). split; [|done]. clear IH Hm Hok. generalize (k (o past e)). intros p.
  assert (Hin : existT e (o past e) ∈ past ++ [existT e (o past e)]) by set_solver. revert Hin. generalize (past ++ [existT e (o past e)]).
  induction p as [a|e' k' IH']; intros l Hin; cbn; [done|]. apply IH'. set_solver.
Qed.
End Must.

Section Success.
Context {Cr : Crypto} {Ip : IpNetApi} (getenv : string -> option string) (salt : string) (config : Configuration).

Lemma must_guarded P body : (forall held, must P (body held)) -> must P (with_mutating_guard config body).
Proof.
  intros H. unfold with_mutating_guard. apply must_bind. intros [g|e]; [|done]. apply must_first; [apply H|]. intros e. by apply must_bind.
Qed.

Lemma must_state P req body : (forall s, must P (body s)) -> must P (with_state getenv salt config req body).
Proof.
  intros H. unfold with_state. apply must_bind. intros [s|e]; [|done]. apply must_first; [apply H|]. intros e r. by right.
Qed.

Lemma must_try {A} (P : Obs -> Prop) e (k : answer e -> Cmd (result Stop A)) : (forall r, P (existT e r) \/ must P (k r)) -> must P (Do e k).
Proof. done. Qed.

Lemma must_embed_all (P : Obs -> Prop) t targets : P (existT (RunPipeline t) (Ok tt)) -> t ∈ targets -> must P (embed_all targets).
Proof.
  intros HP. induction targets as [|x targets IH]; intros Ht; [by apply not_elem_of_nil in Ht|]. cbn [embed_all]. intros r. right.
  intros [[]|e]; [|by right]. destruct (decide (x = t)) as [->|Hne]; [by left|right]. intros r'. right. apply IH.
  by apply elem_of_cons in Ht as [->|].
Qed.

Lemma must_list P sync : (sync = true -> P (existT Resync (Ok tt))) -> (sync = false -> forall zs, P (existT ListZims zs)) ->
  must P (list_body config sync).
Proof.
  intros Ht Hf. unfold list_body. apply must_bind. intros [u|e]; [|done]. destruct sync.
  - apply must_first; [|done]. intros [found|e]; [right|by right]. intros [u'|e]; [right|by right]. intros [[]|e]; [left; by apply Ht|by right].
  - apply must_bind. intros [[|f found]|e]; [..|done]; [intros zs; left; by apply Hf|].
    intros r. right. intros r'. right. intros zs. left. by apply Hf.
Qed.

Lemma must_work c name : must (its_work c name) (run_command getenv salt c config).
Proof.
  destruct c as [|sync| |zim all| |zim]; cbn [run_command].
  - unfold cmd_serve. apply must_bind. intros [g|e]; [|done]. apply must_bind. intros [s|e]; [|by apply must_bind].
    apply must_first; [|intros e r; right; by apply must_bind]. unfold serve_body.
    destruct (serve_policy_checks _ _ _ _) as [w|m]; [|done]. intros [u|e]; [right|by right]. intros [u'|e]; [right|by right].
    apply must_bind. intros _ r. right. intros [[]|e]; [by left|right].
    apply must_ends. intros joined. apply ends_bind. intros _ u2 died. done.
  - unfold cmd_list. destruct sync; [apply must_guarded; intros _|]; apply must_list; try done; intros _ zs; by exists zs.
  - apply must_state. intros s zs. left. by eexists.
  - apply must_guarded. intros held. apply must_state. intros s [[]|e]; [by left|by right].
  - apply must_state. intros s. cbn beta zeta. destruct (mcp_auth_ok _ _ _) as [[u|e]|p]; [|done..]. intros [[]|e]; [by left|by right].
  - apply must_guarded. intros held. apply must_state. intros s. unfold embed_body. destruct (negb _); [done|].
    destruct zim as [z|]; cbn [embed_targets].
    + intros []; right; [|done]. apply (must_embed_all _ z); [done|by left].
    + intros names. destruct (decide (name ∈ names)) as [Hn|Hn]; [right|left; right; by exists names].
      destruct names as [|n names]; [by apply not_elem_of_nil in Hn|]. apply (must_embed_all _ name); [by left|done].
Qed.
End Success.

(** ** Properties *)

(** C9: every command keeps to the start-up protocol.  Whatever the system, the
    database and the other components answer, each call a command makes is in
    its place: the single-instance guards before the pool, the pool before the
    migrations, those before the settings and the catalog; only the writing
    commands reconcile the catalog, and they touch the database only under the
    instance lock (a server with the lock file too, the lock being optional
    only with [ZIMSERVICE_ALLOW_MULTI_DB]) unless the opt-out is set; no
    background task before the socket is bound, no request before all of them
    run; after a failed step nothing but releases.  On every way out the locks
    are released, and a background task that may still run is one the
    supervisor neither handed back nor reported as ended, because it panicked
    or answered otherwise than its code ([supervisor_accounts]) does; a command
    that succeeds has seen no step fail, and has done its work. *)
Theorem commands_follow_the_protocol {Cr : Crypto} {Ip : IpNetApi} o getenv salt config c r tr :
  play o (run_command getenv salt c config) [] = (r, tr) ->
  (forall before x after, tr = before ++ x :: after -> allowed c config (phase_of c before) (projT1 x) = true) /\
  released (phase_of c tr) /\
  (forall t, t ∈ running tr -> exists answered, existT StopSupervisor answered ∈ tr /\ ~ accounts_for t answered) /\
  (is_ok r = true -> unharmed (phase_of c tr) /\ forall name, exists x, x ∈ tr /\ its_work c name x).
Proof.
  intros E.
  destruct (wp_play c config o (run_command getenv salt c config) command_post []) as (Ha & Hr & Hu); [done|apply command_wp|].
  rewrite E in Ha, Hr, Hu. cbn in Ha, Hr, Hu. split_and!; [|done|..].
  - intros before x after ->. unfold accepted in Ha. rewrite cons_middle, app_assoc, accepted_app, accepted_snoc in Ha.
    by apply andb_true_iff in Ha as [[_ Ha]%andb_true_iff _].
  - intros t Ht. destruct (running_accounted c tr t Ht) as [Hl|?]; [|done]. destruct Hr as (_ & _ & Hl0).
    unfold phase_of in Hl. rewrite Hl0 in Hl. by apply not_elem_of_nil in Hl.
  - intros Hok. split; [by apply Hu|]. intros name.
    pose proof (must_play (its_work c name) o _ (must_work getenv salt config c name) []) as H. rewrite E in H. by apply H.
Qed.

(** ** Concrete runs *)

(** A system on which everything works and no lock is taken. *)
Definition calm_reply (x : Call) : reply x :=
  match x with
  | Connect _ | RemoveFile _ | CreateNew _ | WriteText _ => Ok tt
  | TryInstanceLock => Ok (Some true)
  | LockHolder | UnixSeconds => Some 7
  | CloseConnection => tt
  | Exists _ => false
  | ReadToString _ | ReadComm _ | GetVar _ => None
  | Kill _ => (0, None)
  | ProcessId => 42
  end.

Definition calm (c : Commands) (st : SettingsInner) : Oracle := fun past e =>
  match e with
  | Sys x => calm_reply x
  | CreatePool | RunMigrations | CreateBgPool | AcquireConn | LoadFromDb | Resync | DropInvalidIndexes | Bind _
  | ServeHttp | IndexZims _ | RunPipeline _ | RunMcp => Ok tt
  | CreateReadPool => Ok false
  | ProbeInstanceLock => Some false
  | LoadSettings _ _ _ => Ok st
  | Scan => Ok ["a"]
  | ConnectQbit _ _ _ _ => true
  | DieFlag => false
  | GetZim _ => true
  | StopSupervisor => Some (None, ph_live (phase_of c past))
  | ListZims => []
  | ListEmbedEnabledNames => ["a"]
  | SpawnListener _ | Spawn _ | SpawnSupervisor _ | AbortTask _ | Drain _ | DropState | Println _ => tt
  end.

Definition demo_run (o : Oracle) (c : Commands) : result Stop unit * list Obs :=
  play o (@run_command toy_crypto num_ipnet (fun _ => None) "salt" c config_default) [].

Definition calls (tr : list Obs) : list Ev := (@projT1 _ _) <$> tr.

Definition is_call (b : Ev -> bool) (tr : list Obs) : bool := existsb b (calls tr).

(** A busy port: the server ends with an error, no task was started, the locks
    are released. *)
Definition busy_port (c : Commands) (st : SettingsInner) : Oracle := fun past e =>
  match e as e return answer e with Bind _ => Err "address in use" | e => calm c st past e end.

Example busy_port_starts_nothing :
  let '(r, tr) := demo_run (busy_port CmdServe (settings demo_state)) CmdServe in
  r = Err (Bail "address in use") /\
  is_call (fun e => match e with Spawn _ | ServeHttp => true | _ => false end) tr = false /\
  is_call (fun e => match e with Sys (RemoveFile _) => true | _ => false end) tr = true.
Proof. vm_compute. split_and!; reflexivity. Qed.

(** The calls after the socket is closed, on a clean exit: the locks are
    released while the listener, which resyncs the catalog, still runs; the
    state that owns it is dropped last. *)
Example locks_released_before_the_listener :
  let '(r, tr) := demo_run (calm CmdServe (settings demo_state)) CmdServe in
  r = Ok tt /\
  drop (length tr - 3) (calls tr) = [Sys CloseConnection; Sys (RemoveFile "/zims/.zimservice.lock"); DropState] /\
  ph_lock (phase_of CmdServe (take (length tr - 1) tr)) = false /\
  ph_listener (phase_of CmdServe (take (length tr - 1) tr)) = true.
Proof. vm_compute. split_and!; reflexivity. Qed.

(** [index] with neither [--zim] nor [--all] indexes every archive. *)
Example index_without_target :
  is_call (fun e => match e with IndexZims None => true | _ => false end)
    (snd (demo_run (calm (CmdIndex None false) (settings demo_state)) (CmdIndex None false))) = true.
Proof. vm_compute. reflexivity. Qed.

Example truncate_bytes : truncate "abcdef" 4 = "abc…" /\ truncate "résumé très long" 8 = "résum…" /\ truncate "abcdef" 1 = "…".
Proof. vm_compute. split_and!; reflexivity. Qed.

(** The supervisor panics: its tasks are not aborted, and the exit is clean. *)
Definition lost_supervisor (c : Commands) (st : SettingsInner) : Oracle := fun past e =>
  match e as e return answer e with StopSupervisor => None | e => calm c st past e end.

Example panicked_supervisor_leaves_tasks :
  let '(r, tr) := demo_run (lost_supervisor CmdServe (settings demo_state)) CmdServe in
  r = Ok tt /\ running tr = TASKS /\ released (phase_of CmdServe tr).
Proof. vm_compute. split_and!; reflexivity. Qed.

Lemma commands_follow_the_protocol_witness :
  let '(r, tr) := demo_run (calm CmdServe (settings demo_state)) CmdServe in
  r = Ok tt /\ released (phase_of CmdServe tr) /\ running tr = [] /\ exists x, x ∈ tr /\ its_work CmdServe "a" x.
Proof.
  destruct (demo_run (calm CmdServe (settings demo_state)) CmdServe) as [r tr] eqn:E.
  assert (Hr : r = Ok tt) by (change r with (fst (r, tr)); rewrite <- E; vm_compute; reflexivity).
  assert (Hrun : running tr = []) by (change tr with (snd (r, tr)); rewrite <- E; vm_compute; reflexivity).
  destruct (@commands_follow_the_protocol toy_crypto num_ipnet (calm CmdServe (settings demo_state)) (fun _ => None) "salt" config_default
    CmdServe r tr E) as (_ & Hrel & _ & Hok).
  split; [exact Hr|]. split; [exact Hrel|]. split; [exact Hrun|]. apply Hok. rewrite Hr. reflexivity.
Defined.
