(* ===== verification/Web.v ===== *)
(** * Web: the embedded pages

    [src/serve/handlers/web.rs], the part that serves the web interface: the
    security headers, the version stamps of the asset references and the
    responses.  The texts of the pages and assets are compiled in; here they
    are arguments.  What the handlers add to an archive's content is in
    [RawContent].  The last part is the response of an error
    ([src/error.rs]). *)

From S2P Require Import Prelude RustStr Errors JsonValue Mcp Startup.

Definition WEB_CSP : string :=
  "default-src 'self'; script-src 'self'; style-src 'self' 'unsafe-inline'; img-src 'self' data:; connect-src 'self'".

Definition web_security_headers : list (string * string) :=
  [("content-security-policy", WEB_CSP);
   ("x-frame-options", "DENY");
   ("referrer-policy", "no-referrer");
   ("x-content-type-options", "nosniff")].

Definition ASSET_STAMP : string := "?v=" +:+ CARGO_PKG_VERSION.

(** [str::replace]: the matches from left to right, not overlapping.  [skip] is
    what is left of a match. *)
Fixpoint replace_from (skip : nat) (from to s : string) : string :=
  match s with
  | EmptyString => EmptyString
  | String a s' =>
      match skip with
      | S k => replace_from k from to s'
      | O =>
          if starts_with from s then to +:+ replace_from (String.length from - 1) from to s'
          else String a (replace_from 0 from to s')
      end
  end.

Definition replace (from to s : string) : string := replace_from 0 from to s.

Definition ASSETS : list string := ["/common.js"; "/index.js"; "/search.js"; "/settings.js"].

Definition src_ref (asset : string) : string := "src=" +:+ dquote +:+ asset +:+ dquote.
Definition css_ref : string := "href=" +:+ dquote +:+ "/style.css" +:+ dquote.

(** The references and what they are replaced by, in order. *)
Definition STAMPS : list (string * string) :=
  ((fun asset => (src_ref asset, src_ref (asset +:+ ASSET_STAMP))) <$> ASSETS) ++
  [(css_ref, "href=" +:+ dquote +:+ "/style.css" +:+ ASSET_STAMP +:+ dquote)].

Definition stamp_one (st : string * nat) (ft : string * string) : string * nat :=
  if contains (fst ft) (fst st) then (replace (fst ft) (snd ft) (fst st), S (snd st)) else st.

(** The assertion panics on a page with fewer than two references. *)
Definition stamp_assets (page : string) : may_panic string :=
  let '(out, stamped) := foldl stamp_one (page, 0%nat) STAMPS in
  if Nat.leb 2 stamped then Ok out else Err Panicked.

Record Response := mkResponse {
  headers : gmap string string;
  body : string
}.

Definition insert_headers (hs : list (string * string)) (m : gmap string string) : gmap string string :=
  foldl (fun m h => <[fst h := snd h]> m) m hs.

Definition web_html_response (body : string) : Response :=
  mkResponse (insert_headers web_security_headers {["content-type" := "text/html; charset=utf-8"]}) body.

Definition web_asset_response (content_type body : string) : Response :=
  mkResponse (insert_headers web_security_headers
    (<["cache-control" := "public, max-age=31536000, immutable"]> {["content-type" := content_type]})) body.

(** A page's handler serves its stamped text; [prime_stamped_pages] stamps all
    pages when the router is built, so a malformed page ends the start. *)
Definition serve_page (page : string) : may_panic Response :=
  match stamp_assets page with Ok p => Ok (web_html_response p) | Err p => Err p end.

Definition prime_stamped_pages (index search settings : string) : may_panic (string * string * string) :=
  match stamp_assets index, stamp_assets search, stamp_assets settings with
  | Ok i, Ok s, Ok t => Ok (i, s, t)
  | _, _, _ => Err Panicked
  end.

Definition web_style_css (text : string) : Response := web_asset_response "text/css; charset=utf-8" text.
Definition web_js (text : string) : Response := web_asset_response "application/javascript" text.

(** ** Replacement *)

(** No match of [p] starts inside [t], whatever follows. *)
Fixpoint no_start (p t : string) : bool :=
  match t with
  | EmptyString => true
  | String _ t' => negb (starts_with p t) && negb (starts_with t p) && no_start p t'
  end.

Lemma starts_with_app p r : starts_with p (p +:+ r) = true.
Proof. apply starts_with_spec. by exists r. Qed.

(** Two prefixes of one text. *)
Lemma starts_compare p : forall q w, starts_with p (q +:+ w) = true -> starts_with p q = true \/ exists p', p = q +:+ p' /\ starts_with p' w = true.
Proof.
  induction p as [|a p IH]; intros [|b q] w H; [by left|by left|right; by exists (String a p)|].
  unfold starts_with in *. cbn in *. destruct (Ascii.eqb_spec a b) as [->|]; [|done].
  destruct (IH q w H) as [Hp|(p' & -> & Hp)]; [by left|right]. by exists p'.
Qed.

Lemma starts_cons a p b s : starts_with (String a p) (String b s) = Ascii.eqb a b && starts_with p s.
Proof. unfold starts_with. cbn. by destruct (Ascii.eqb a b). Qed.

Lemma contains_starts p s : starts_with p s = true -> contains p s = true.
Proof. destruct s; cbn; intros ->; done. Qed.

Lemma contains_cons p a s : contains p s = true -> contains p (String a s) = true.
Proof. cbn. intros ->. by rewrite orb_true_r. Qed.

Lemma contains_pad p q s : contains p s = true -> contains p (q +:+ s) = true.
Proof. intros H. induction q as [|a q IH]; [done|]. by apply contains_cons. Qed.

Lemma contains_parts p s : contains p s = true <-> exists a b, s = a +:+ p +:+ b.
Proof.
  split.
  - induction s as [|c s IH]; cbn; rewrite orb_true_iff; intros [H|H]; try done.
    + apply starts_with_spec in H as [r Hr]. by exists EmptyString, r.
    + apply starts_with_spec in H as [r Hr]. by exists EmptyString, r.
    + destruct (IH H) as (a & b & ->). by exists (String c a), b.
  - intros (a & b & ->). apply contains_pad, contains_starts, starts_with_app.
Qed.

(** Past a text in which no match starts. *)
Lemma contains_past p t w : no_start p t = true -> contains p (t +:+ w) = contains p w.
Proof.
  induction t as [|a t IH]; [done|]. cbn [no_start]. intros ((H1 & H2)%andb_true_iff & H3)%andb_true_iff.
  change (String a t +:+ w) with (String a (t +:+ w)). cbn [contains]. rewrite (IH H3). destruct (starts_with p (String a (t +:+ w))) eqn:E; [|done].
  exfalso. change (String a (t +:+ w)) with (String a t +:+ w) in E. apply starts_compare in E as [E|(p' & -> & _)]; [by rewrite E in H1|].
  by rewrite starts_with_app in H2.
Qed.

Section Replace.
(** The two texts agree up to the last character of the first. *)
Context (u : string) (x y : ascii) (v : string).
Let from := u +:+ String x EmptyString.
Let to := u +:+ String y v.

Lemma replace_skip k s : replace_from k from to s = replace from to (str_drop k s).
Proof. revert k. induction s as [|a s IH]; intros [|k]; try done. apply IH. Qed.

Lemma str_drop_past p r : str_drop (String.length p) (p +:+ r) = r.
Proof. by induction p. Qed.

Lemma replace_match r : replace from to (from +:+ r) = to +:+ replace from to r.
Proof.
  assert (exists a f, from = String a f) as (a & f & E) by (subst from; destruct u; eexists; eexists; reflexivity).
  assert (Hs : starts_with from (String a (f +:+ r)) = true) by (rewrite E; apply (starts_with_app (String a f))).
  unfold replace at 1. replace (from +:+ r) with (String a (f +:+ r)) by (by rewrite E). cbn [replace_from].
  rewrite Hs, replace_skip, E. cbn [String.length]. by rewrite Nat.sub_succ, Nat.sub_0_r, str_drop_past.
Qed.

Lemma replace_copy a s : starts_with from (String a s) = false -> replace from to (String a s) = String a (replace from to s).
Proof. intros H. unfold replace. cbn [replace_from]. by rewrite H. Qed.

(** Induction along the matches. *)
Lemma replace_ind (P : string -> Prop) : P EmptyString -> (forall r, P r -> P (from +:+ r)) ->
  (forall a s, starts_with from (String a s) = false -> P s -> P (String a s)) -> forall s, P s.
Proof.
  intros H0 Hm Hc s. remember (String.length s) as n eqn:En. revert s En.
  induction (lt_wf n) as [n _ IH]. intros [|a s] ->; [done|]. destruct (starts_with from (String a s)) eqn:E.
  - apply starts_with_spec in E as [r Hr]. rewrite Hr. apply Hm. eapply IH; [|reflexivity].
    apply (f_equal String.length) in Hr. rewrite str_length_app in Hr. subst from. rewrite str_length_app in Hr. cbn in Hr. cbn. lia.
  - apply Hc; [done|]. eapply IH; [|reflexivity]. cbn. lia.
Qed.

(** A text that does not show the difference is a prefix of the result only if
    it was one. *)
Lemma prefix_back s : forall p, contains (u +:+ String y EmptyString) p = false ->
  starts_with p (replace from to s) = true -> starts_with p s = true.
Proof.
  induction s as [|r IH|a s Hn IH] using replace_ind; intros p Hp H; [done|..].
  - rewrite replace_match in H. subst to. rewrite str_app_assoc in H. apply starts_compare in H as [H|(p' & -> & H)].
    + apply starts_with_spec in H as [w Hw]. apply starts_with_spec. subst from. rewrite Hw, !str_app_assoc. by eexists.
    + destruct p' as [|c p']; [subst from; rewrite !str_app_assoc; apply starts_with_spec; rewrite str_app_nil_r; by eexists|].
      change (String y v +:+ replace from (u +:+ String y v) r) with (String y (v +:+ replace from (u +:+ String y v) r)) in H.
      rewrite starts_cons in H. apply andb_true_iff in H as [->%Ascii.eqb_eq _].
      assert (contains (u +:+ String y EmptyString) (u +:+ String y p') = true); [|congruence].
      apply contains_parts. exists EmptyString, p'. by rewrite str_app_assoc.
  - rewrite replace_copy in H by done. destruct p as [|b p]; [done|]. rewrite starts_cons in *.
    apply andb_true_iff in H as [-> H]. apply IH; [|done]. destruct (contains (u +:+ String y EmptyString) p) eqn:E; [|done].
    apply (contains_cons _ b) in E. congruence.
Qed.

(** The result has no [p], when no match of [p] starts in the new text and
    every [p] there was is one that is replaced. *)
Lemma replaced_absent p s : no_start p to = true -> contains (u +:+ String y EmptyString) p = false -> p <> EmptyString ->
  (forall a t, s = a +:+ t -> starts_with p t = true -> starts_with from t = true) -> contains p (replace from to s) = false.
Proof.
  intros Hn Hp Hne. induction s as [|r IH|a s Hs IH] using replace_ind; intros Hall.
  - by destruct p.
  - rewrite replace_match, contains_past by done. apply IH. intros a t -> Ht. apply (Hall (from +:+ a)); [by rewrite str_app_assoc|done].
  - rewrite replace_copy by done. cbn [contains]. apply orb_false_iff. split.
    + destruct (starts_with p (String a (replace from to s))) eqn:E; [|done]. rewrite <- replace_copy in E by done.
      apply prefix_back in E; [|done]. rewrite (Hall EmptyString (String a s)) in Hs by done. done.
    + apply IH. intros b t -> Ht. by apply (Hall (String a b)).
Qed.
End Replace.

(** ** Stamps *)

(** A stamp: its two texts agree up to the last character of the first, and
    introduce no reference. *)
Definition stamp_ok (ft : string * string) : bool :=
  let n := (String.length (fst ft) - 1)%nat in
  String.eqb (str_take n (fst ft)) (str_take n (snd ft)) && Nat.eqb (String.length (fst ft)) (S n) && Nat.ltb n (String.length (snd ft)) &&
  forallb (fun gt => no_start (fst gt) (snd ft) && negb (contains (str_take (S n) (snd ft)) (fst gt)) && negb (str_is_empty (fst gt))) STAMPS.

Lemma stamps_ok : forallb stamp_ok STAMPS = true.
Proof. vm_compute. reflexivity. Qed.

Lemma last_char s n : String.length s = S n -> exists x, s = str_take n s +:+ String x EmptyString.
Proof.
  revert n. induction s as [|a s IH]; intros n; [done|]. cbn. intros [= E]. destruct s as [|b s].
  - cbn in E. subst n. by exists a.
  - destruct n as [|n]; [done|]. destruct (IH n E) as [x Hx]. exists x. cbn [str_take]. change (String a ?t +:+ ?w) with (String a (t +:+ w)). by rewrite <- Hx.
Qed.

Lemma split_at_char s n : (n < String.length s)%nat -> exists y v, s = str_take n s +:+ String y v /\ str_take (S n) s = str_take n s +:+ String y EmptyString.
Proof.
  revert n. induction s as [|a s IH]; intros n; cbn; [lia|]. destruct n as [|n]; [by exists a, s|]. intros H.
  destruct (IH n) as (y & v & E1 & E2); [lia|]. exists y, v. cbn [str_take]. split.
  - change (String a ?t +:+ ?w) with (String a (t +:+ w)). by rewrite <- E1.
  - change (String a ?t +:+ ?w) with (String a (t +:+ w)). by rewrite <- E2.
Qed.

Lemma stamp_absent ft gt s : ft ∈ STAMPS -> gt ∈ STAMPS ->
  (forall a t, s = a +:+ t -> starts_with (fst gt) t = true -> starts_with (fst ft) t = true) ->
  contains (fst gt) (replace (fst ft) (snd ft) s) = false.
Proof.
  intros Hf Hg Hall. pose proof stamps_ok as H. rewrite forallb_forall in H. specialize (H ft ltac:(by apply list_elem_of_In)).
  unfold stamp_ok in H. set (n := (String.length (fst ft) - 1)%nat) in *.
  apply andb_true_iff in H as [[[H1 H2]%andb_true_iff H3]%andb_true_iff H4]. rewrite forallb_forall in H4.
  specialize (H4 gt ltac:(by apply list_elem_of_In)). apply andb_true_iff in H4 as [[H4 H5]%andb_true_iff H6].
  apply String.eqb_eq in H1. apply Nat.eqb_eq in H2. apply Nat.ltb_lt in H3. apply negb_true_iff in H5, H6.
  destruct (last_char _ _ H2) as [x Ex]. destruct (split_at_char _ _ H3) as (y & v & Ey & Ey'). rewrite Ey' in H5. rewrite <- H1 in Ey, H5.
  clear H1 H2 H3 Ey'. clearbody n. destruct ft as [f t]. cbn [fst snd] in *. generalize dependent (str_take n f). intros u. intros. subst f t.
  apply replaced_absent; [done..| |done]. intros E. by rewrite E in H6.
Qed.

(** References that are gone stay gone. *)
Definition clean (done_ : list (string * string)) (s : string) : Prop := forall gt, gt ∈ done_ -> contains (fst gt) s = false.

Lemma absent_no_start p s a t : contains p s = false -> s = a +:+ t -> starts_with p t = true -> False.
Proof. intros H -> Ht. rewrite contains_pad in H; [done|]. by apply contains_starts. Qed.

Lemma stamp_step done_ ft s k : (forall gt, gt ∈ done_ -> gt ∈ STAMPS) -> ft ∈ STAMPS -> clean done_ s ->
  clean (done_ ++ [ft]) (fst (stamp_one (s, k) ft)).
Proof.
  intros Hin Hf Hc gt Hg. unfold stamp_one. cbn [fst snd]. destruct (contains (fst ft) s) eqn:E; cbn [fst].
  - apply stamp_absent; [done|set_solver|]. intros a t Es Ht. apply elem_of_app in Hg as [Hg|Hg%list_elem_of_singleton]; [|by subst].
    exfalso. by eapply absent_no_start; [apply (Hc gt)| |].
  - apply elem_of_app in Hg as [Hg|Hg%list_elem_of_singleton]; [by apply Hc|by subst].
Qed.

Lemma stamps_clean rest : forall done_ s k, done_ ++ rest = STAMPS -> clean done_ s -> clean STAMPS (fst (foldl stamp_one (s, k) rest)).
Proof.
  induction rest as [|ft rest IH]; intros done_ s k E Hc; cbn; [by rewrite app_nil_r in E; subst|].
  destruct (stamp_one (s, k) ft) as [s' k'] eqn:Es. apply (IH (done_ ++ [ft])); [by rewrite <- app_assoc|].
  change s' with (fst (s', k')). rewrite <- Es. apply stamp_step; [|rewrite <- E; set_solver|done]. intros gt Hg. rewrite <- E. set_solver.
Qed.

(** A page that is served refers to no asset without the version.  Every asset
    reference of any page leaves [stamp_assets] with the stamp, so a deploy with
    a new version never meets an old cached asset. *)
Theorem served_pages_are_stamped page resp :
  serve_page page = Ok resp -> forall asset, asset ∈ ASSETS -> contains (src_ref asset) (body resp) = false /\ contains css_ref (body resp) = false.
Proof.
  unfold serve_page, stamp_assets. destruct (foldl stamp_one (page, 0%nat) STAMPS) as [out n] eqn:E. destruct (Nat.leb 2 n); [|done].
  intros [= <-] asset Ha. cbn [body web_html_response]. assert (Hc : clean STAMPS out).
  { change out with (fst (out, n)). rewrite <- E. apply (stamps_clean STAMPS [] page); [done|]. intros gt Hg. by apply not_elem_of_nil in Hg. }
  split.
  - apply (Hc (src_ref asset, src_ref (asset +:+ ASSET_STAMP))). apply elem_of_app. left. apply list_elem_of_fmap. by exists asset.
  - apply (Hc (css_ref, "href=" +:+ dquote +:+ "/style.css" +:+ ASSET_STAMP +:+ dquote)). apply elem_of_app. right. by left.
Qed.

(** Every response of the web interface carries the security headers. *)
Lemma security_headers_kept h v m : (h, v) ∈ web_security_headers -> insert_headers web_security_headers m !! h = Some v.
Proof.
  intros H. unfold web_security_headers in H. repeat (apply elem_of_cons in H as [[= -> ->]|H]); [..|by apply not_elem_of_nil in H].
  all: unfold insert_headers; cbn [web_security_headers foldl fst snd]; by simplify_map_eq.
Qed.

Example stamped_page :
  let page := "<link " +:+ css_ref +:+ "><script " +:+ src_ref "/common.js" +:+ ">" in
  stamp_assets page = Ok ("<link href=" +:+ dquote +:+ "/style.css?v=0.1.0" +:+ dquote +:+ "><script src=" +:+ dquote +:+ "/common.js?v=0.1.0" +:+ dquote +:+ ">").
Proof. vm_compute. reflexivity. Qed.

Example unstamped_page_panics : stamp_assets "<html></html>" = Err Panicked.
Proof. vm_compute. reflexivity. Qed.

(** ** Error responses *)

Inductive LogLevel := LogDebug | LogWarn | LogError.

(** [Error::log]: the level of the operator's line, if there is one. *)
Definition error_log (e : Error) : option LogLevel :=
  match e with
  | Torrent _ _ => Some LogWarn
  | Database _ => Some LogDebug
  | NotFound _ | Forbidden _ | InvalidInput _ | Conflict _ => None
  | _ => Some LogError
  end.

(** [IntoResponse]: what is logged, the status and the body. *)
Definition into_response (e : Error) : option LogLevel * (Z * json) :=
  (error_log e, let '(status, message) := status_and_message e in (status, JObject [("error", JString message)])).

(** An error that leaves no line for the operator tells the client: it has a
    client's status and the error's own text. *)
Theorem silent_errors_are_the_clients e :
  fst (into_response e) = None ->
  exists msg, e ∈ [NotFound msg; Forbidden msg; InvalidInput msg; Conflict msg] /\
    400 <= fst (snd (into_response e)) < 500 /\ snd (snd (into_response e)) = JObject [("error", JString msg)].
Proof.
  intros H. assert (Hm : exists msg, e ∈ [NotFound msg; Forbidden msg; InvalidInput msg; Conflict msg]).
  { destruct e; try done; exists msg; set_solver. }
  destruct Hm as [msg Hm]. exists msg. split; [done|]. repeat (apply elem_of_cons in Hm as [->|Hm]); [..|by apply not_elem_of_nil in Hm].
  all: cbn; split; [lia|done].
Qed.
