(* ===== verification/Outbound.v ===== *)
(** * Outbound: the HTTP clients and what they fetch

    The client builders of [src/torrent/client.rs] and [src/netguard.rs], the
    catalog fetch and update check of [src/torrent/opds.rs], and the
    qBittorrent connection of [src/torrent/mod.rs].  A client is the record of
    the options it is built with; whether [reqwest] builds it, what the network
    answers and the tokens of the XML parser are arguments. *)

From S2P Require Import Prelude RustStr Errors IpAddr NetGuard Torrent Direct Discovery ZimManager Opds.

(** ** Clients *)

(** Redirects are never followed, or each hop passes
    [NetGuard.redirect_hop_ok] with the two flags. *)
Inductive RedirectPolicy := NoRedirects | CheckedRedirects (allow_private allow_loopback : bool).

(** Timeouts in seconds. *)
Record HttpClient := mkClient {
  c_redirect : RedirectPolicy;
  c_total : option Z;
  c_connect : option Z;
  c_read : option Z;
  c_pin : option Pin;
  c_cookies : bool
}.

Inductive ClientProfile := Control | Transfer.

Definition client_timeouts (p : ClientProfile) : option Z * option Z * option Z :=
  match p with
  | Control => (Some 30, None, None)
  | Transfer => (None, Some 10, Some 60)
  end.

Section Outbound.
Context {Ua : UrlApi} {Hr : HttpReasons}.

(** [ClientBuilder::build]. *)
Variable build : HttpClient -> result string unit.

Definition build_download_client (p : ClientProfile) (pin : option Pin) : Result HttpClient :=
  let '(total, connect, read) := client_timeouts p in
  let client := mkClient NoRedirects total connect read pin false in
  match build client with Ok _ => Ok client | Err e => Err (Http e) end.

Definition build_guarded_client (endpoint : string) (allow_private allow_loopback : bool) (pin : option Pin) : Result HttpClient :=
  match assert_host_not_blocked endpoint allow_private allow_loopback with
  | Err e => Err e
  | Ok _ => Ok (mkClient (CheckedRedirects allow_private allow_loopback) None None None pin false)
  end.

(** ** The catalog *)

(** The [Content-Length] header when it is readable, and the body. *)
Definition CatalogBody : Type := option string * result string string.

Section Catalog.
Context {b64_engine : string -> option (list Z)}.
Variable xml : string -> list XmlEvent.

(** The network as a catalog fetch meets it. *)
Definition catalog_net (allow_private : nat -> bool) (dns : nat -> Dns)
    (send : nat -> HttpClient -> string -> result string (Response CatalogBody)) : Network HttpClient CatalogBody :=
  mkNetwork allow_private dns (build_download_client Control) send.

Definition read_catalog (response : Response CatalogBody) : Result (list OpdsEntry) :=
  let '(length_header, received) := resp_rest response in
  let declared := length_header ≫= parse_u64 in
  let? _ := check_opds_budget declared 0 in
  match received with
  | Err e => Err (Http e)
  | Ok body =>
      let? _ := check_opds_budget declared (Z.of_nat (String.length body)) in
      Ok (parse_catalog (xml (from_utf8_lossy body)))
  end.

Definition fetch_catalog (net : Network HttpClient CatalogBody) (url : string) : list Request * Result (list OpdsEntry) :=
  let '(log, r) := follow_pinned_get net [] url in
  (log, match r with Err e => Err e | Ok p => read_catalog (pr_response p) end).

Definition check_updates {Archive : Type} {Hi : HashIter string ZimMeta} (net : Network HttpClient CatalogBody) (opds_url : string)
    (zims : @ZimManager Archive) : list Request * Result (list OpdsUpdate) :=
  let '(log, r) := fetch_catalog net opds_url in
  (log, match r with Err e => Err e | Ok entries => Ok (find_updates (b64_engine := b64_engine) entries (list_name_dates zims)) end).
End Catalog.

(** ** qBittorrent *)

Record QbitClient := mkQbit {
  base_url : string;
  username : string;
  password : string;
  http : HttpClient
}.

Definition qbit_new (url user pass : string) (allow_private : bool) (pin : option Pin) : Result QbitClient :=
  let trimmed := trim_end_matches "/"%char url in
  let? guarded := build_guarded_client trimmed allow_private true pin in
  let client := mkClient (c_redirect guarded) (Some 30) None None (c_pin guarded) true in
  match build client with
  | Err e => Err (Errors.Config ("failed to build qB HTTP client: " +:+ e))
  | Ok _ => Ok (mkQbit trimmed user pass client)
  end.

(** [login] is the answer to the login request of a client. *)
Definition connect_qbit (dns : Dns) (login : QbitClient -> HttpReply) (url user pass : string) (allow_private : bool) :
    option QbitClient :=
  match resolve_download_host dns url allow_private true with
  | Err _ => None
  | Ok pin =>
      match qbit_new url user pass allow_private pin with
      | Err _ => None
      | Ok client => match qbit_auth (login client) with Ok _ => Some client | Err _ => None end
      end
  end.
End Outbound.

(** ** Properties *)

Lemma budget_ok declared actual : check_opds_budget declared actual = Ok tt ->
  (forall n, declared = Some n -> n <= MAX_OPDS_BYTES) /\ actual <= MAX_OPDS_BYTES.
Proof.
  unfold check_opds_budget. destruct declared as [n|].
  - destruct (Z.ltb_spec MAX_OPDS_BYTES n); [done|]. destruct (Z.ltb_spec MAX_OPDS_BYTES actual); [done|]. intros _. split; [|lia]. by intros ? [= <-].
  - destruct (Z.ltb_spec MAX_OPDS_BYTES actual); [done|]. by intros _.
Qed.

Lemma read_catalog_ok xml resp entries : read_catalog xml resp = Ok entries -> exists header body, resp_rest resp = (header, Ok body) /\
  (forall n, header ≫= parse_u64 = Some n -> n <= MAX_OPDS_BYTES) /\ Z.of_nat (String.length body) <= MAX_OPDS_BYTES /\
  entries = parse_catalog (xml (from_utf8_lossy body)).
Proof.
  unfold read_catalog. destruct (resp_rest resp) as [header [body|e]].
  - destruct (check_opds_budget (header ≫= parse_u64) 0) as [[]|e0] eqn:E0; cbn; [|done].
    destruct (check_opds_budget (header ≫= parse_u64) (Z.of_nat (String.length body))) as [[]|e1] eqn:E1; cbn; [|done]. intros [= <-].
    apply budget_ok in E1 as [H1 H2]. by exists header, body.
  - by destruct (check_opds_budget _ _) as [[]|].
Qed.

(** The catalog is fetched within the guards.  Every request of the fetch, to
    the configured address and along at most five redirects, connects to an
    address that the private-network setting of that moment admits; what is
    read was announced and is within the byte budget. *)
Theorem catalog_fetch_is_guarded {Ua : UrlApi} build xml allow_private dns send url log r :
  fetch_catalog xml (catalog_net build allow_private dns send) url = (log, r) ->
  (length log <= 6)%nat /\
  (forall rq, rq ∈ log -> exists ip, connect_addr rq = Some ip /\ is_blocked_ip ip (allow_private (rq_hop rq)) false = false) /\
  (forall entries, r = Ok entries -> exists header body,
     (forall n, header ≫= parse_u64 = Some n -> n <= MAX_OPDS_BYTES) /\ Z.of_nat (String.length body) <= MAX_OPDS_BYTES /\
     entries = parse_catalog (xml (from_utf8_lossy body))).
Proof.
  unfold fetch_catalog. destruct (follow_pinned_get _ [] url) as [log0 r0] eqn:E. intros [= <- <-].
  apply follow_from_safe in E as [Hlen Hall]. split; [exact Hlen|]. split.
  - intros rq Hin. rewrite Forall_forall in Hall. destruct (Hall rq Hin) as (ip & Hc & [Hb|(p & Hp & _)]); [eauto|set_solver].
  - intros entries. destruct r0 as [p|e]; [|done]. intros (header & body & _ & H)%read_catalog_ok. by exists header, body.
Qed.

(** A qBittorrent client is connected only to a checked address.  It follows a
    redirect only past the same check, its requests end after 30 seconds, and
    the address of its endpoint, pinned for a name and literal otherwise, is
    none the setting blocks (loopback is always admitted). *)
Theorem qbit_endpoint_is_checked {Ua : UrlApi} {Hr : HttpReasons} build dns login url user pass allow_private client :
  connect_qbit build dns login url user pass allow_private = Some client ->
  c_redirect (http client) = CheckedRedirects allow_private true /\ c_total (http client) = Some 30 /\
  base_url client = trim_end_matches "/"%char url /\
  (forall h a, c_pin (http client) = Some (h, a) -> is_blocked_ip (fst a) allow_private true = false) /\
  (forall u host ip, url_parse (base_url client) = Ok u -> is_http (url_scheme u) = true -> url_host_str u = Some host ->
     parse_ip (bare_host host) = Some ip -> is_blocked_ip ip allow_private true = false).
Proof.
  unfold connect_qbit. destruct (resolve_download_host dns url allow_private true) as [pin|e] eqn:Er; [|done].
  unfold qbit_new, build_guarded_client. destruct (assert_host_not_blocked _ _ _) as [[]|e] eqn:Ea; cbn; [|done].
  destruct (build _) as [[]|e]; [|done]. destruct (qbit_auth _) as [[]|e]; [|done]. intros [= <-]. cbn. split_and!; [done..| |].
  - intros h a ->. by apply resolve_download_host_pin in Er as [? _].
  - intros u host ip Hu Hs Hh Hp. unfold assert_host_not_blocked in Ea. rewrite Hu, Hs, Hh, Hp in Ea. cbn in Ea.
    rewrite andb_false_r in Ea. by destruct (is_blocked_ip ip allow_private true).
Qed.

(** An error page is taken for a catalog without entries: the status of the
    answer is not looked at. *)
Example error_status_is_an_empty_catalog :
  let send := fun (_ : nat) (_ : HttpClient) (_ : string) => Ok (mkResponse 503 None (None, Ok "<html>down</html>")) in
  snd (@fetch_catalog text_url (fun _ => [XEof])
    (catalog_net (fun _ => Ok tt) (fun _ => false) (fun _ _ port => Ok [(V4 93 184 215 14, port)]) send) "http://catalog.test/opds") = Ok [].
Proof. vm_compute. reflexivity. Qed.

Example metadata_endpoint_refused :
  @connect_qbit text_url {| canonical_reason := fun _ => None |} (fun _ => Ok tt) (fun _ port => Ok [(V4 169 254 169 254, port)])
    (fun _ => Ok (200, "Ok.")) "http://qb.test/" "u" "p" true = None.
Proof. vm_compute. reflexivity. Qed.
