(* ===== verification/NotifyHandle.v ===== *)
(** * NotifyHandle: the listener's tasks and their handle

    [spawn_listener], [DeathReporter], and the handle [NotifyListener] with its
    [Drop] ([src/db/notify.rs]).  The three workers report their death by a
    guard that runs whenever they end, aborted ones too; the supervisor takes
    the reports one by one.  What the workers do is in [Notify]; here is when
    they live, in any interleaving. *)

From S2P Require Import Prelude RustStr Notify.

Definition WORKERS : list string := ["listen_loop"; "settings_subscriber"; "catalog_subscriber"].

(** The clones of the handle, the stop flag, whether the tasks were told to
    abort, the workers that run, the reports not yet read, the supervisor, and
    the process' die flag. *)
Record Handle := mkHandle {
  h_refs : nat;
  h_stop : bool;
  h_aborted : bool;
  h_alive : list string;
  h_queue : list string;
  h_supervisor : bool;
  h_died : bool
}.

Definition spawn_listener : Handle := mkHandle 1 false false WORKERS [] true false.

(** [Drop] of the last clone sets the flag and aborts the tasks, in two steps
    others can come between; an aborted task ends at some later time. *)
Inductive HEvent :=
  | HClone
  | HDropFlag
  | HDropAbort
  | HDies (worker : string)
  | HCancelled (worker : string)
  | HReceive
  | HSupervisorCancelled.

Definition without (w : string) (l : list string) : list string := List.filter (fun x => negb (String.eqb x w)) l.

(** A worker ends: its guard sends the report. *)
Definition worker_ends (w : string) (h : Handle) : Handle :=
  if bool_decide (w ∈ h_alive h)
  then mkHandle (h_refs h) (h_stop h) (h_aborted h) (without w (h_alive h)) (h_queue h ++ [w]) (h_supervisor h) (h_died h)
  else h.

(** One turn of [supervise]: before the stop a report raises the flag and ends
    it, after the stop it is dropped. *)
Definition receive (h : Handle) : Handle :=
  match h_supervisor h, h_queue h with
  | true, _ :: rest =>
      if h_stop h then mkHandle (h_refs h) (h_stop h) (h_aborted h) (h_alive h) rest true (h_died h)
      else mkHandle (h_refs h) (h_stop h) (h_aborted h) (h_alive h) rest false true
  | _, _ => h
  end.

Definition drop_flag (h : Handle) : Handle :=
  match h_refs h with
  | O => h
  | S O => mkHandle 0 true (h_aborted h) (h_alive h) (h_queue h) (h_supervisor h) (h_died h)
  | S n => mkHandle n (h_stop h) (h_aborted h) (h_alive h) (h_queue h) (h_supervisor h) (h_died h)
  end.

Definition drop_abort (h : Handle) : Handle :=
  if h_stop h then mkHandle (h_refs h) true true (h_alive h) (h_queue h) (h_supervisor h) (h_died h) else h.

Definition hstep (h : Handle) (e : HEvent) : Handle :=
  match e with
  | HClone => match h_refs h with
      | O => h
      | n => mkHandle (S n) (h_stop h) (h_aborted h) (h_alive h) (h_queue h) (h_supervisor h) (h_died h)
      end
  | HDropFlag => drop_flag h
  | HDropAbort => drop_abort h
  | HDies w => worker_ends w h
  | HCancelled w => if h_aborted h then worker_ends w h else h
  | HReceive => receive h
  | HSupervisorCancelled =>
      if h_aborted h then mkHandle (h_refs h) (h_stop h) true (h_alive h) (h_queue h) false (h_died h) else h
  end.

Definition run_handle (es : list HEvent) : Handle := foldl hstep spawn_listener es.

(** ** What the flag means *)

(** A report that waits while no stop was ordered is of a worker that died by
    itself; the flag was raised by one of those. *)
Definition alarm_inv (dead : bool) (h : Handle) : Prop :=
  (h_aborted h = true -> h_stop h = true) /\ (h_stop h = true <-> h_refs h = 0%nat) /\
  (dead = false -> h_died h = false /\ (h_stop h = false -> h_queue h = [])).

(** Whether a worker has died by itself before the stop. *)
Definition early_death (h : Handle) (e : HEvent) : bool :=
  match e with HDies w => negb (h_stop h) && bool_decide (w ∈ h_alive h) | _ => false end.

Lemma hstep_inv dead h e : alarm_inv dead h -> alarm_inv (dead || early_death h e) (hstep h e).
Proof.
  intros (Ha & Hs & Hd). destruct h as [refs stop aborted alive queue sup died]. cbn in *.
  destruct e as [| | |w|w| |]; cbn [hstep early_death]; rewrite ?orb_false_r; unfold alarm_inv.
  - destruct refs; cbn; [done|]. split_and!; [done| |done]. split; [intros H; by apply Hs in H|done].
  - destruct refs as [|[|n]]; cbn; [done|..].
    + split_and!; [done..|]. intros H. by destruct (Hd H).
    + split_and!; [done| |done]. split; [intros H; by apply Hs in H|done].
  - unfold drop_abort. cbn. by destruct stop.
  - unfold worker_ends. cbn [h_alive h_stop]. destruct (decide (w ∈ alive)) as [Hw|Hw].
    + rewrite bool_decide_true, andb_true_r by done. cbn. split_and!; [done..|]. intros H. apply orb_false_iff in H as [H1 H2].
      apply negb_false_iff in H2 as ->. by destruct (Hd H1).
    + rewrite bool_decide_false, andb_false_r, orb_false_r by done. done.
  - destruct aborted; cbn; [|done]. unfold worker_ends. cbn [h_alive]. case_bool_decide; cbn; [|done]. split_and!; [done..|].
    intros H1. destruct (Hd H1). split; [done|]. by rewrite Ha.
  - unfold receive. cbn. destruct sup, queue as [|r queue]; cbn; try done. destruct stop; cbn; (split_and!; [done..|]); intros H1;
      destruct (Hd H1) as [-> Hq]; [done|]. by specialize (Hq eq_refl).
  - by destruct aborted; cbn.
Qed.

Fixpoint any_early_death (h : Handle) (es : list HEvent) : bool :=
  match es with
  | [] => false
  | e :: es => early_death h e || any_early_death (hstep h e) es
  end.

Lemma run_alarm es : forall dead h, alarm_inv dead h -> alarm_inv (dead || any_early_death h es) (foldl hstep h es).
Proof.
  induction es as [|e es IH]; intros dead h H; cbn; [by rewrite orb_false_r|]. rewrite orb_assoc. by apply IH, hstep_inv.
Qed.

(** The die flag is raised only for a death, and for every death that is seen.
    In any interleaving, a graceful stop (the last handle dropped, the tasks
    aborted in any order, the reports read or not) never raises it; and when a
    worker dies by itself before the stop, the next report the supervisor reads
    before the stop raises it. *)
Theorem graceful_stop_is_no_alarm es :
  (any_early_death spawn_listener es = false -> h_died (run_handle es) = false) /\
  (forall w, h_stop (run_handle es) = false -> h_supervisor (run_handle es) = true -> w ∈ h_alive (run_handle es) ->
     h_died (run_handle (es ++ [HDies w; HReceive])) = true).
Proof.
  split.
  - intros H. destruct (run_alarm es false spawn_listener) as (_ & _ & Hd); [by split_and!|]. by apply Hd.
  - intros w Hs Hv Hw. unfold run_handle in *. rewrite foldl_app. cbn [foldl hstep]. unfold worker_ends. rewrite bool_decide_true by done.
    unfold receive. cbn. rewrite Hv, Hs. by destruct (h_queue _).
Qed.

(** The flag is set before the tasks are aborted: in the other order an aborted
    worker would look dead. *)
Example orderly_stop :
  h_died (run_handle [HClone; HDropFlag; HDropFlag; HDropAbort; HCancelled "listen_loop"; HReceive; HSupervisorCancelled]) = false /\
  h_died (run_handle [HClone; HDropFlag; HDies "listen_loop"; HReceive]) = true.
Proof. vm_compute. split; reflexivity. Qed.
